(* ===== verification/_CoqProject ===== *)
-Q . S2P
Prelude.v
Rounding.v
Numeric.v
Doubles.v
Payout.v
Errors.v
CircuitBreaker.v
Resilience.v
DistributedLock.v
Schema.v
Store.v
PriceRange.v
Samples.v
Soroban.v
RoundLifecycle.v
Outbox.v
RoundService.v
Prediction.v
Bet.v
BetReconciliation.v
PayoutReconciliation.v
PredictionReconciliation.v
Tournament.v
JsonText.v
Idempotency.v
KeyLock.v
Sessions.v
Challenge.v
Auth.v
Pagination.v
Leaderboard.v
TextSamples.v
Resolution.v
Simulation.v
Scheduler.v
Retention.v
NotificationCenter.v
RateLimit.v
Oracle.v
OracleService.v
MemoryStore.v
Hackathon.v
BetStore.v
Socket.v
Digits.v
Startup.v
Cache.v
JsMap.v
AbuseMetrics.v
RegExp.v
Chat.v
BetRoutes.v
Education.v
AuthAudit.v
BetAudit.v
Serializers.v
UserHistory.v
Views.v
PredictionRoutes.v
TournamentRoutes.v
ErrorResponses.v
AppFactory.v
Health.v
Operations.v
Bindings.v
DeadLetterRoutes.v
Witnesses.v
AccessWitnesses.v
JobWitnesses.v
DemoWitnesses.v
LogWitnesses.v
HttpWitnesses.v
