(* ===== verification/Prelude.v ===== *)
(** * Verification of the Xelma backend

    The backend runs a price-prediction game: rounds are opened, users stake XLM
    on a direction (UP_DOWN) or a price range (LEGENDS), the stake is recorded in
    PostgreSQL and sent to a Soroban contract, and after the lock the round is
    settled from an oracle price. This library models the services on that money
    path and the utilities they stand on. Paths below are under src/src/.

    ** Parts

    - This file: the state-and-error monad the services are written in, list,
      option and rounding-free arithmetic lemmas, notations and hints.
    - [Rounding], [Numeric], [Doubles], [Payout]: utils/decimal.util.ts and
      utils/payout.util.ts. JavaScript numbers are binary64 values computed
      exactly ([f64], [num]); decimal.js and the rounding of PostgreSQL numeric
      columns are the interfaces [DecimalJs] and [PgNumeric] with their
      documented laws, and [Numeric.Concrete] has an instance of each.
    - [Errors]: utils/errors.ts; an error is a value with class, message, code
      and status.
    - [CircuitBreaker], [Resilience]: utils/circuit-breaker.ts,
      utils/backpressure.ts, utils/timeout-wrapper.ts, utils/retry.util.ts.
    - [DistributedLock]: utils/distributed-lock.ts, the lock that keeps one
      replica running each scheduled job, over the interface [RedisServer].
    - [Schema], [Store]: the tables of prisma/schema.prisma the services use, as
      one [gmap] per table in [DB]; [World] adds clock, breaker, limiter, chain
      calls and socket log. [transaction] rolls back on a throw. [Env] is the
      deployment: configuration, identifier supply, and the chain client, which
      is a function of the calls made so far and otherwise unknown.
    - [PriceRange]: utils/price-range.util.ts, types/round.types.ts.
    - [Soroban]: services/soroban.service.ts, every chain call through limiter,
      breaker and timeout.
    - [RoundLifecycle], [RoundService]: services/round-lifecycle.service.ts and
      services/round.service.ts.
    - [Outbox]: services/outbox.service.ts, dead-letter-queue.service.ts, and the
      creation of notifications in notification.service.ts; its lists, marks and
      deletions are in [NotificationCenter].
    - [Prediction], [Bet], [Resolution], [Simulation]: services/prediction.service.ts,
      bet.service.ts, resolution.service.ts, simulation.service.ts.
    - [BetReconciliation], [PayoutReconciliation], [PredictionReconciliation]:
      services/reconciliation.service.ts, payout-reconciliation.service.ts,
      prediction-reconciliation.service.ts.
    - [Tournament]: services/tournament.service.ts.
    - [Idempotency], [KeyLock]: utils/idempotency.util.ts,
      utils/distributed-idempotency-lock.ts, utils/room-lock.ts; [JsonText] is the
      text of JSON values, with the text of numbers and dates an interface.
    - [Sessions]: services/multiplayer-session.service.ts.
    - [Challenge], [Auth]: utils/challenge.util.ts and routes/auth.routes.ts.
    - [Pagination], [Leaderboard]: utils/pagination.util.ts (base64 and JSON.parse
      are the interface [CursorCodec]) and services/leaderboard.service.ts.
    - [Scheduler], [Retention]: services/scheduler.service.ts,
      round-scheduler.service.ts, retention.service.ts.
    - [Oracle], [OracleService]: services/oracle.ts, services/providers/,
      priceService.ts and oracle.service.ts, over what the price servers answer.
    - [RateLimit], [AbuseMetrics]: the limiter of chat messages and the store of
      the HTTP limiters, and services/rate-limit-metrics.service.ts.
    - [Cache]: the client, the JSON cache and the sorted set of lib/redis.ts, and
      middleware/cache.middleware.ts.
    - [BetRoutes]: middleware/auth.middleware.ts, schemas/bets.schema.ts and the
      routes that place bets or claim (routes/bet-execution.ts, bets.routes.ts,
      rounds.routes.ts), over the answers of the services behind them.
    - [Socket]: the connections and handlers of socket.ts, on [Sessions].
    - [RegExp], [Chat]: services/chat.service.ts and utils/sanitization.util.ts,
      with the backtracking matcher their expressions need.
    - [MemoryStore], [Hackathon], [BetStore]: the demo mode: lib/memory-prisma.ts,
      services/hackathon.service.ts, data/bet-store.ts and its repositories.
    - [Startup]: config/ and the start of index.ts. [Digits] (parseInt and
      numerals) and [JsMap] (maps filled from lists) are shared. [Bindings]:
      utils/bindings-validator.ts, on [RegExp].
    - [Education]: services/education-tip.service.ts and GET /tip of
      routes/education.routes.ts. [AuthAudit]: utils/audit-logger.ts. [BetAudit]:
      services/bet-audit.service.ts and routes/admin-bet-audit.routes.ts.
    - [Serializers]: serializers/monetary.serializer.ts on JavaScript values;
      [Views]: what the routes of rounds and predictions answer, with
      utils/soroban-round.mapper.ts and getRoundsForApi of round.service.ts.
    - [UserHistory]: routes/user.routes.ts, schemas/pagination.schema.ts,
      utils/user-rank.util.ts. [PredictionRoutes], [TournamentRoutes]: the
      requests of routes/predictions.routes.ts and routes/tournaments.routes.ts
      with their schemas and listings. [DeadLetterRoutes]:
      routes/admin-dead-letter.routes.ts with utils/redact-payload.ts.
    - [ErrorResponses]: both error handlers, validate.middleware.ts and the
      catalog of utils/errors.ts. [AppFactory]: app-factory.ts and the middleware
      in front of the routes. [Health]: routes/health.ts and the start of
      soroban.service.ts. [Operations]: services/stats.service.ts, utils/cors.ts,
      services/memory-housekeeping.service.ts.
    - [Samples], [TextSamples]: a concrete deployment and instances of the
      interfaces; [Witnesses], [AccessWitnesses], [JobWitnesses], [DemoWitnesses],
      [LogWitnesses], [HttpWitnesses] apply the theorems that have hypotheses to
      them.

    Definitions carry the names of the functions they model. Where a function
    awaits between two effects that other callers can separate, it is cut there
    and a step relation interleaves the parts: [RoundLifecycle.rstep],
    [CircuitBreaker.bstep], [Resilience.lstep], [DistributedLock.lkstep],
    [Idempotency.istep], [KeyLock.kstep], [Auth.astep], [Cache.cacheStep]; the
    connections of [Socket], the requests of [AbuseMetrics] and the runs of
    [OracleService] are lists of events.

    ** What is shown

    - Money: a stake is in exactly one place after every placement, refusal,
      chain failure or reconciliation, up to the rounding of one debit where an
      amount has more than eight decimals ([Prediction],
      [PredictionReconciliation]); the settlement, also when the scheduler runs it
      over a batch, pays each confirmed prediction once, as a specification says
      that knows nothing of the store ([Resolution], [Scheduler]), and the
      simulation foretells the rows it writes ([Simulation]);
      rounded payouts add up to the pools within a bounded rounding error
      ([Payout]); tournament prizes and their sum ([Tournament]).
    - State machines: rounds, bets, claims, outbox rows, breaker and lock move
      only along the edges of their table, each race has one winner and some
      winner, and every operation's result is given on every branch.
    - Faults: a failed transaction leaves no trace, a chain call that may have
      landed is not sent twice, a keyed request is executed once, a lost lock
      stops the job, accepted runs of two replicas never overlap, and a failed
      clean-up leaves the other tables as they are.
    - Access: a login challenge is consumed once, in time, by its wallet; a bet
      request places at most one bet, for the wallet of its token; sockets hear
      only rooms they may; a user's rooms lose no update; notifications, their
      lists included, are as good as private; what an administrator sees of a dead
      letter shows no secret under a known key; what the chat stores opens no markup; shared limiters let
      no burst pass, and refusals are counted.
    - Configuration: a server that runs is configured within its bounds, and the
      production profile without stubs; accepted bindings have the pinned revision
      and every method with its arguments.
    - HTTP: every request is answered behind the security headers, by routers of
      the application's features, behind its limiters; errors are answered with
      the status of their code, and a client told to wait waits long enough; a
      versioned path is served as the plain one; a prediction is submitted at most
      once per key.
    - Records and pages: an authentication or bet event is logged and stored once
      or reported; the pages of a history, a leaderboard or a listing give every
      row once; money is text in what the API shows; tips fit their rounds.
    - Prices and caches: a price is what a named provider answered at a named
      time; a cached value was stored under the version it is read with.
    - Demo: the in-memory tables are the tables they stand for, and the pools of
      the demo store are the recorded bets.
    - Data: ranges, stroops and error codes survive their encodings; cursors read
      every row once; events in the outbox are understood by their handlers.

    ** Bounds and fuel

    Loops over tables and lists are structural. [Resilience.withRetryFrom] and
    the attempts of withTimeout recurse on the number of attempts left, which
    is the configured maximum. Money columns are integers of 1e-8 units; every
    operation that writes one rounds as the column does. Sums of decimals are
    exact below 20 digits, a hypothesis where a theorem needs it. Clients that
    follow cursors ([Pagination.readAll], [NotificationCenter.readInbox]) have one
    unit of fuel per request, and one more than the number of rows is enough.
    Time is an integer number of milliseconds. A regular expression is matched
    with one unit of fuel per repetition, at most one more than the length of the
    text; versions of the cache are integers below 2^53. Texts are byte strings,
    except in the chat, where they are lists of UTF-16 code units.

    ** Not modelled

    The routes that only hand a request to a modelled service (chat,
    notifications, leaderboard, metrics, the queries of bets);
    signatures and the decoding of tokens; the lines of the log and the metrics
    exporter; the texts of the education guides, the cards of the frontend and
    the demo data; the lookup of accounts on Horizon, which nothing calls; the
    connection of lib/prisma and the readiness of its schema; the wiring and
    stopping of a process; timers and cron expressions; the contract.
    Transactions are serialisable: the model runs each one alone, and shows the
    effect of weaker interleavings only where a step relation is given. *)


From Stdlib Require Import ZArith QArith Lia Permutation Sorted.
From stdpp Require Import base gmap strings list fin_maps pretty.
From coqutil Require Export Datatypes.RecordSetters.
Export DoubleBraceUpdate.

#[global] Set Default Goal Selector "!".
#[global] Arguments RecordSetters.constant _ _ _ / .
#[global] Arguments Z.of_nat _ : simpl never.
#[global] Arguments Z.max _ _ : simpl never.
#[global] Arguments Z.min _ _ : simpl never.
#[global] Arguments Z.add _ _ : simpl never.
#[global] Arguments Z.sub _ _ : simpl never.

(** ** A state-and-error monad

    [M W E A] is a computation over a world [W] that either throws an [E] or
    returns an [A]; the world it leaves behind is kept in both cases, since a
    JavaScript [throw] undoes nothing by itself. *)

Definition M (W E A : Type) : Type := W -> (E + A) * W.

Definition ret {W E A} (a : A) : M W E A := fun w => (inr a, w).

Definition throw {W E A} (e : E) : M W E A := fun w => (inl e, w).

Definition bind {W E A B} (m : M W E A) (k : A -> M W E B) : M W E B :=
  fun w => match m w with
           | (inl e, w') => (inl e, w')
           | (inr a, w') => k a w'
           end.

(** [try { m } catch (e) { h e }] *)
Definition catch {W E A} (m : M W E A) (h : E -> M W E A) : M W E A :=
  fun w => match m w with
           | (inl e, w') => h e w'
           | (inr a, w') => (inr a, w')
           end.

(** [try { m } finally { f }], where [f] itself does not throw. *)
Definition finally {W E A} (m : M W E A) (f : W -> W) : M W E A :=
  fun w => let '(r, w') := m w in (r, f w').

Definition gets {W E A} (f : W -> A) : M W E A := fun w => (inr (f w), w).

Definition modify {W E} (f : W -> W) : M W E unit := fun w => (inr tt, f w).

(** The two halves of running a computation. *)
Definition value {W E A} (m : M W E A) (w : W) : E + A := fst (m w).
Definition final {W E A} (m : M W E A) (w : W) : W := snd (m w).

Declare Scope js_scope.
Delimit Scope js_scope with js.
Notation "x <- m ;; k" := (bind m (fun x => k))
  (at level 100, m at next level, right associativity) : js_scope.
Notation "m ;;; k" := (bind m (fun _ => k))
  (at level 100, right associativity) : js_scope.
#[global] Open Scope js_scope.

(** [for (const x of l) { f x }] *)
Fixpoint forM_ {W E A} (l : list A) (f : A -> M W E unit) : M W E unit :=
  match l with
  | [] => ret tt
  | x :: l' => f x ;;; forM_ l' f
  end.

(** A loop that threads an accumulator through [for (const x of l)]. *)
Fixpoint foldM {W E A B} (f : B -> A -> M W E B) (b : B) (l : list A) : M W E B :=
  match l with
  | [] => ret b
  | x :: l' => b' <- f b x ;; foldM f b' l'
  end.

Definition when {W E} (c : bool) (m : M W E unit) : M W E unit :=
  if c then m else ret tt.

(** Continue with [k] in a found row, throw [e] otherwise. *)
Definition orThrow {W E A} (o : option A) (e : E) : M W E A :=
  match o with Some a => ret a | None => throw e end.

(** ** Monad laws and inversion *)

Section MonadLaws.
Context {W E : Type}.

Lemma bind_ret_l {A B} (a : A) (k : A -> M W E B) w : bind (ret a) k w = k a w.
Proof. reflexivity. Qed.

Lemma bind_assoc {A B C} (m : M W E A) (k : A -> M W E B) (h : B -> M W E C) w :
  bind (bind m k) h w = bind m (fun a => bind (k a) h) w.
Proof. unfold bind. destruct (m w) as [[e|a] w']; reflexivity. Qed.

(** Symbolic execution: one step of a [bind] whose head is known. *)
Lemma bind_ok {A B} (m : M W E A) (k : A -> M W E B) w a w' :
  m w = (inr a, w') -> bind m k w = k a w'.
Proof. intros H. unfold bind. rewrite H. reflexivity. Qed.

Lemma bind_err {A B} (m : M W E A) (k : A -> M W E B) w e w' :
  m w = (inl e, w') -> bind m k w = (inl e, w').
Proof. intros H. unfold bind. rewrite H. reflexivity. Qed.

Lemma catch_ok {A} (m : M W E A) h w a w' :
  m w = (inr a, w') -> catch m h w = (inr a, w').
Proof. intros H. unfold catch. rewrite H. reflexivity. Qed.

Lemma catch_err {A} (m : M W E A) h w e w' :
  m w = (inl e, w') -> catch m h w = h e w'.
Proof. intros H. unfold catch. rewrite H. reflexivity. Qed.

(** Inversion of a run that returned. *)
Lemma bind_inr_inv {A B} (m : M W E A) (k : A -> M W E B) w b w' :
  bind m k w = (inr b, w') ->
  exists a w1, m w = (inr a, w1) /\ k a w1 = (inr b, w').
Proof.
  unfold bind. destruct (m w) as [[e|a] w1]; [discriminate|]. eauto.
Qed.

Lemma final_fmap {A B} (m : M W E A) (f : A -> B) w : final (bind m (fun x => ret (f x))) w = final m w.
Proof. unfold final, bind. destruct (m w) as [[e|a] w']; reflexivity. Qed.

Lemma orThrow_inr_inv {A} (o : option A) (e : E) (w : W) a w' :
  orThrow o e w = (inr a, w') -> o = Some a /\ w' = w.
Proof. destruct o; cbn; intros H; inversion H; auto. Qed.
End MonadLaws.

(** ** What a computation may do to the world

    [respects R m]: whatever [m] does, returning or throwing, the world it
    leaves is related by [R] to the world it found. For a preorder [R] this is
    compositional, so a property of every branch of a handler is proved from
    the same property of the primitive operations. *)

Definition respects {W E A} (R : W -> W -> Prop) (m : M W E A) : Prop :=
  forall w, R w (final m w).

Create HintDb respects discriminated.
Create HintDb js discriminated.

Section Respects.
Context {W E : Type} (R : W -> W -> Prop) `{!PreOrder R}.

Lemma respects_ret {A} (a : A) : respects (E:=E) R (ret a).
Proof. intros w. cbn. reflexivity. Qed.

Lemma respects_throw {A} (e : E) : respects (A:=A) R (throw e).
Proof. intros w. cbn. reflexivity. Qed.

Lemma respects_gets {A} (f : W -> A) : respects (E:=E) R (gets f).
Proof. intros w. cbn. reflexivity. Qed.

Lemma respects_orThrow {A} (o : option A) (e : E) : respects R (orThrow o e).
Proof. intros w. destruct o; cbn; reflexivity. Qed.

Lemma respects_bind {A B} (m : M W E A) (k : A -> M W E B) :
  respects R m -> (forall a, respects R (k a)) -> respects R (bind m k).
Proof.
  intros Hm Hk w. specialize (Hm w). unfold final, bind in *.
  destruct (m w) as [[e|a] w1]; cbn in *; [exact Hm|].
  etransitivity; [exact Hm | apply (Hk a w1)].
Qed.

Lemma respects_catch {A} (m : M W E A) h :
  respects R m -> (forall e, respects R (h e)) -> respects R (catch m h).
Proof.
  intros Hm Hh w. specialize (Hm w). unfold final, catch in *.
  destruct (m w) as [[e|a] w1]; cbn in *; [|exact Hm].
  etransitivity; [exact Hm | apply (Hh e w1)].
Qed.

Lemma respects_finally {A} (m : M W E A) f :
  respects R m -> (forall w, R w (f w)) -> respects R (finally m f).
Proof.
  intros Hm Hf w. specialize (Hm w). unfold final, finally in *.
  destruct (m w) as [r w1]; cbn in *. etransitivity; [exact Hm | apply Hf].
Qed.

Lemma respects_modify f : (forall w, R w (f w)) -> respects (E:=E) R (modify f).
Proof. intros H w. apply H. Qed.

Lemma respects_when c (m : M W E unit) : respects R m -> respects R (when c m).
Proof. intros H. destruct c; [exact H | apply respects_ret]. Qed.

Lemma respects_forM {A} (l : list A) (f : A -> M W E unit) :
  (forall x, x ∈ l -> respects R (f x)) -> respects R (forM_ l f).
Proof.
  induction l as [|x l IH]; intros H; cbn.
  - apply respects_ret.
  - apply respects_bind.
    + apply H. left.
    + intros _. apply IH. intros y Hy. apply H. right; exact Hy.
Qed.

Lemma respects_foldM {A B} (f : B -> A -> M W E B) l : forall b,
  (forall b x, respects R (f b x)) -> respects R (foldM f b l).
Proof.
  induction l as [|x l IH]; intros b H; cbn.
  - apply respects_ret.
  - apply respects_bind; [apply H | intros b'; apply IH, H].
Qed.
End Respects.

(** ** What a computation may return

    [returns P m]: a value [m] returns satisfies [P], in whatever world it is
    run. [neverThrows m]: it always returns one. *)

Definition returns {W E A} (P : A -> Prop) (m : M W E A) : Prop :=
  forall w a w', m w = (inr a, w') -> P a.

Definition neverThrows {W E A} (m : M W E A) : Prop := forall w, exists a w', m w = (inr a, w').

Section Returns.
Context {W E : Type}.

Lemma returns_ret {A} (P : A -> Prop) (a : A) : P a -> returns P (ret a : M W E A).
Proof. intros Ha w b w' Hr. injection Hr as <- _. exact Ha. Qed.

Lemma returns_throw {A} (P : A -> Prop) (e : E) : returns P (throw e : M W E A).
Proof. intros w b w' Hr. discriminate. Qed.

Lemma returns_bind {A B} (P : B -> Prop) (m : M W E A) (k : A -> M W E B) :
  (forall a, returns P (k a)) -> returns P (bind m k).
Proof. intros Hk w b w' Hr. apply bind_inr_inv in Hr as (a & w1 & _ & Hr). exact (Hk a w1 b w' Hr). Qed.

Lemma returns_catch {A} (P : A -> Prop) (m : M W E A) h :
  returns P m -> (forall e, returns P (h e)) -> returns P (catch m h).
Proof.
  intros Hm Hh w a w' Hr. unfold catch in Hr. destruct (m w) as [[e|b] w1] eqn:Em.
  - exact (Hh e w1 a w' Hr).
  - injection Hr as <- _. exact (Hm w b w1 Em).
Qed.

Lemma neverThrows_ret {A} (a : A) : neverThrows (ret a : M W E A).
Proof. intros w. exists a, w. reflexivity. Qed.

Lemma neverThrows_gets {A} (f : W -> A) : neverThrows (gets f : M W E A).
Proof. intros w. exists (f w), w. reflexivity. Qed.

Lemma neverThrows_bind {A B} (m : M W E A) (k : A -> M W E B) :
  neverThrows m -> (forall a, neverThrows (k a)) -> neverThrows (bind m k).
Proof.
  intros Hm Hk w. destruct (Hm w) as (a & w1 & Ha). destruct (Hk a w1) as (b & w2 & Hb).
  exists b, w2. rewrite (bind_ok _ _ _ _ _ Ha). exact Hb.
Qed.

Lemma neverThrows_catch {A} (m : M W E A) h : (forall e, neverThrows (h e)) -> neverThrows (catch m h).
Proof.
  intros Hh w. unfold catch. destruct (m w) as [[e|a] w1]; [apply Hh | eauto].
Qed.

Lemma neverThrows_foldM {A B} (f : B -> A -> M W E B) l : forall b,
  (forall b x, neverThrows (f b x)) -> neverThrows (foldM f b l).
Proof.
  induction l as [|x l IH]; intros b Hf; [apply neverThrows_ret|].
  apply neverThrows_bind; [apply Hf | intros b'; apply IH, Hf].
Qed.

(** An invariant of the accumulator, indexed by the number of rounds. *)
Lemma returns_foldM {A B} (P : nat -> B -> Prop) (f : B -> A -> M W E B) l : forall n b,
  (forall n b x, P n b -> returns (P (S n)) (f b x)) -> P n b -> returns (P (n + length l)%nat) (foldM f b l).
Proof.
  induction l as [|x l IH]; intros n b Hf Hb; cbn [foldM length].
  - rewrite Nat.add_0_r. apply returns_ret, Hb.
  - rewrite Nat.add_succ_r. intros w c w' Hr. apply bind_inr_inv in Hr as (b' & w1 & Hx & Hr).
    exact (IH (S n) b' Hf (Hf n b x Hb w b' w1 Hx) w1 c w' Hr).
Qed.
End Returns.

(** Reason about the final world of a [bind] one computation at a time. *)
Lemma final_bind_cases {W E A B} (R : W -> W -> Prop) (m : M W E A) (k : A -> M W E B) w (P : W -> Prop) :
  respects R m ->
  (forall a w1, m w = (inr a, w1) -> R w w1 -> P (final (k a) w1)) ->
  (forall e w1, m w = (inl e, w1) -> R w w1 -> P w1) ->
  P (final (bind m k) w).
Proof.
  intros Hm Hok Herr. specialize (Hm w). unfold final, bind in *.
  destruct (m w) as [[e|a] w1]; cbn in *; eauto.
Qed.

#[export] Hint Resolve respects_ret respects_throw respects_gets respects_orThrow
  : respects.

(** Decompose a handler along its control flow, leaving the primitive
    operations to the [respects] database. *)
Ltac respects_step :=
  match goal with
  | |- respects _ (bind _ _) => apply respects_bind; [typeclasses eauto| |intro]
  | |- respects _ (catch _ _) => apply respects_catch; [typeclasses eauto| |intro]
  | |- respects _ (when _ _) => apply respects_when; [typeclasses eauto|]
  | |- respects _ (forM_ _ _) => apply respects_forM; [typeclasses eauto|intros ? ?]
  | |- respects _ (foldM _ _ _) => apply respects_foldM; [typeclasses eauto|intros ? ?]
  | |- respects _ (ret _) => apply respects_ret; typeclasses eauto
  | |- respects _ (throw _) => apply respects_throw; typeclasses eauto
  | |- respects _ (gets _) => apply respects_gets; typeclasses eauto
  | |- respects _ (orThrow _ _) => apply respects_orThrow; typeclasses eauto
  | |- respects _ (match ?x with _ => _ end) => destruct x
  | |- respects _ (let '(_, _) := ?x in _) => destruct x
  | |- respects _ (let x := _ in _) => cbv zeta
  end.

Ltac respects_auto := repeat first [solve [eauto 2 with respects] | respects_step].

(** ** JavaScript helpers on strings and arrays *)

Section Strings.
Local Open Scope nat_scope.

Definition lowerAscii (a : Ascii.ascii) : Ascii.ascii :=
  let n := Ascii.nat_of_ascii a in
  if Nat.leb 65 n && Nat.leb n 90 then Ascii.ascii_of_nat (n + 32) else a.

(** [String.prototype.toLowerCase] on the ASCII range. *)
Fixpoint toLowerCase (s : string) : string :=
  match s with
  | EmptyString => EmptyString
  | String a s' => String (lowerAscii a) (toLowerCase s')
  end.

(** [hay.includes(needle)] *)
Definition includes (hay needle : string) : bool :=
  match String.index 0 needle hay with Some _ => true | None => false end.

(** A string that JavaScript takes for true. *)
Definition truthy (o : option string) : option string :=
  match o with Some s => if String.eqb s "" then None else Some s | None => None end.

(** [s.slice(0, n)] *)
Definition slicePrefix (n : nat) (s : string) : string := String.substring 0 n s.

Lemma length_append s t : String.length (s +:+ t) = String.length s + String.length t.
Proof. induction s as [|a s IH]; [done|]. exact (f_equal S IH). Qed.

Lemma substring_length n m s : String.length (String.substring n m s) <= m.
Proof.
  revert n m. induction s as [|c s IH]; intros n m; [destruct n, m; simpl; lia|].
  destruct n as [|n]; [|exact (IH n m)]. destruct m as [|m]; [simpl; lia|]. exact (le_n_S _ _ (IH 0 m)).
Qed.
End Strings.

(** [Array.prototype.find] with the index passed to the callback. *)
Fixpoint findIndexed {A} (f : nat -> A -> bool) (i : nat) (l : list A) : option A :=
  match l with
  | [] => None
  | x :: l' => if f i x then Some x else findIndexed f (S i) l'
  end.

(** [Array.prototype.sort]: stable; [gt a b] is [cmp(a, b) > 0]. *)
Fixpoint insertBy {A} (gt : A -> A -> bool) (x : A) (l : list A) : list A :=
  match l with
  | [] => [x]
  | y :: l' => if gt x y then y :: insertBy gt x l' else x :: y :: l'
  end.

Definition sortBy {A} (gt : A -> A -> bool) (l : list A) : list A :=
  foldr (insertBy gt) [] l.

Section ListLemmas.
Context {A : Type}.

Lemma findIndexed_Some (f : nat -> A -> bool) l : forall i x,
  findIndexed f i l = Some x ->
  exists k, l !! k = Some x /\ f (i + k)%nat x = true /\
            forall j y, (j < k)%nat -> l !! j = Some y -> f (i + j)%nat y = false.
Proof.
  induction l as [|a l IH]; cbn; intros i x H; [discriminate|].
  destruct (f i a) eqn:Hf.
  - injection H as <-. exists 0%nat. rewrite Nat.add_0_r.
    split; [reflexivity|]. split; [exact Hf|]. intros j y Hj. lia.
  - destruct (IH _ _ H) as (k & Hk & Hfk & Hmin). exists (S k). cbn.
    rewrite Nat.add_succ_r. split; [exact Hk|]. split; [exact Hfk|].
    intros [|j] y Hj Hy; cbn in *.
    + rewrite Nat.add_0_r. injection Hy as <-. exact Hf.
    + rewrite Nat.add_succ_r. apply (Hmin j y); [lia | exact Hy].
Qed.

Lemma findIndexed_None (f : nat -> A -> bool) l : forall i,
  findIndexed f i l = None ->
  forall k x, l !! k = Some x -> f (i + k)%nat x = false.
Proof.
  induction l as [|a l IH]; cbn; intros i H k x Hk; [discriminate|].
  destruct (f i a) eqn:Hf; [discriminate|].
  destruct k as [|k]; cbn in Hk.
  - injection Hk as <-. rewrite Nat.add_0_r. exact Hf.
  - rewrite Nat.add_succ_r. apply (IH _ H k x Hk).
Qed.

Lemma insertBy_Permutation gt (x : A) l : insertBy gt x l ≡ₚ x :: l.
Proof.
  induction l as [|y l IH]; cbn; [reflexivity|].
  destruct (gt x y); [|reflexivity]. rewrite IH. apply perm_swap.
Qed.

Lemma sortBy_Permutation gt (l : list A) : sortBy gt l ≡ₚ l.
Proof.
  induction l as [|x l IH]; cbn; [reflexivity|].
  rewrite insertBy_Permutation, IH. reflexivity.
Qed.

(** For a total preorder given by its strict part, sorting sorts. *)
Lemma sortBy_Sorted gt (l : list A) :
  (forall a b, gt a b = true -> gt b a = false) ->
  Sorted (fun a b => gt a b = false) (sortBy gt l).
Proof.
  intros Hasym.
  assert (Hins : forall x s, Sorted (fun a b => gt a b = false) s ->
                        Sorted (fun a b => gt a b = false) (insertBy gt x s)).
  { intros x s Hs. induction Hs as [|y s Hs IH Hd]; cbn.
    - repeat constructor.
    - destruct (gt x y) eqn:Hxy.
      + constructor; [exact IH|].
        destruct s as [|z s]; cbn.
        * constructor. apply Hasym, Hxy.
        * destruct (gt x z); constructor; [|apply Hasym, Hxy].
          inversion Hd; assumption.
      + constructor; [constructor; assumption | constructor; exact Hxy]. }
  induction l as [|x l IH]; cbn; [constructor | apply Hins, IH].
Qed.

Lemma sortBy_elem gt (l : list A) x : x ∈ sortBy gt l <-> x ∈ l.
Proof. rewrite sortBy_Permutation. reflexivity. Qed.

Lemma StronglySorted_lookup (R : A -> A -> Prop) l : forall i j x y,
  StronglySorted R l -> (i < j)%nat -> l !! i = Some x -> l !! j = Some y -> R x y.
Proof.
  induction l as [|a l IH]; intros i j x y Hs Hij Hi Hj; [discriminate|].
  apply StronglySorted_inv in Hs as [Hs Ha]. destruct j as [|j]; [lia|]. cbn in Hj.
  destruct i as [|i]; cbn in Hi.
  - injection Hi as <-. rewrite Forall_forall in Ha. apply Ha. apply list_elem_of_lookup. eauto.
  - exact (IH i j x y Hs ltac:(lia) Hi Hj).
Qed.

Lemma NoDup_map_inj {B} (f : A -> B) l a b :
  NoDup (map f l) -> a ∈ l -> b ∈ l -> f a = f b -> a = b.
Proof.
  induction l as [|x l IH]; intros Hnd Ha Hb Hf; [inversion Ha|].
  cbn in Hnd. apply NoDup_cons in Hnd as [Hx Hnd].
  apply elem_of_cons in Ha as [->|Ha], Hb as [->|Hb]; [reflexivity | | | auto].
  - destruct Hx. rewrite Hf. apply (list_elem_of_fmap_2 f). exact Hb.
  - destruct Hx. rewrite <- Hf. apply (list_elem_of_fmap_2 f). exact Ha.
Qed.
End ListLemmas.

(** ** Sums *)

Definition sumZ {A} (f : A -> Z) (l : list A) : Z :=
  foldr (fun a acc => (f a + acc)%Z) 0%Z l.

Section Sums.
Context {A : Type}.
Local Open Scope Z_scope.

Lemma sumZ_app (f : A -> Z) l1 l2 : sumZ f (l1 ++ l2) = sumZ f l1 + sumZ f l2.
Proof. unfold sumZ. induction l1 as [|x l1 IH]; cbn; [lia | rewrite IH; lia]. Qed.

Lemma sumZ_Permutation (f : A -> Z) l1 l2 : l1 ≡ₚ l2 -> sumZ f l1 = sumZ f l2.
Proof. unfold sumZ. induction 1; cbn; lia. Qed.

Lemma sumZ_nonneg (f : A -> Z) l : (forall a, a ∈ l -> 0 <= f a) -> 0 <= sumZ f l.
Proof.
  induction l as [|x l IH]; intros H; [cbn; lia|].
  assert (0 <= f x) by (apply H; left).
  assert (0 <= sumZ f l) by (apply IH; intros a Ha; apply H; right; exact Ha).
  change (0 <= f x + sumZ f l). lia.
Qed.
End Sums.

(** Sum over the rows of a table. *)
Definition sumMap {A} (f : A -> Z) (m : gmap string A) : Z :=
  map_fold (fun _ a acc => (f a + acc)%Z) 0%Z m.

Section SumMap.
Context {A : Type} (f : A -> Z).
Local Open Scope Z_scope.

Lemma sumMap_new m k a : m !! k = None -> sumMap f (<[k := a]> m) = f a + sumMap f m.
Proof.
  intros Hk. unfold sumMap. rewrite map_fold_insert_L; [reflexivity | | exact Hk].
  intros; lia.
Qed.

Lemma sumMap_replace m k a0 a :
  m !! k = Some a0 -> sumMap f (<[k := a]> m) = sumMap f m - f a0 + f a.
Proof.
  intros Hk. rewrite <- insert_delete_eq, sumMap_new by apply lookup_delete_eq.
  assert (Hm : sumMap f m = f a0 + sumMap f (delete k m)).
  { rewrite <- (insert_delete_id m k a0 Hk) at 1. rewrite <- insert_delete_eq.
    rewrite sumMap_new by apply lookup_delete_eq. rewrite delete_delete_eq. reflexivity. }
  lia.
Qed.
End SumMap.

(** ** Tactics *)

(** Case analysis on the innermost [match] or [if] of the goal. *)
Ltac case_inner :=
  match goal with
  | |- context [match ?x with _ => _ end] =>
      lazymatch x with
      | context [match _ with _ => _ end] => fail
      | _ => destruct x eqn:?
      end
  end.

(** Invert every run that is known to have returned a value. *)
Ltac inv_run :=
  repeat match goal with
  | H : bind _ _ _ = (inr _, _) |- _ =>
      let a := fresh "a" in let w := fresh "w" in let H1 := fresh "Hrun" in
      apply bind_inr_inv in H as (a & w & H1 & H)
  | H : ret _ _ = (inr _, _) |- _ => unfold ret in H; injection H as ? ?
  | H : gets _ _ = (inr _, _) |- _ => unfold gets in H; injection H as ? ?
  | H : modify _ _ = (inr _, _) |- _ => unfold modify in H; injection H as ? ?
  | H : throw _ _ = (inr _, _) |- _ => discriminate H
  | H : orThrow _ _ _ = (inr _, _) |- _ => apply orThrow_inr_inv in H as [? ?]
  end; subst.

(** [decide] hypotheses as propositions. *)
Ltac bool_hyps :=
  repeat match goal with
  | H : (_ && _)%bool = true |- _ => apply andb_true_iff in H as [? ?]
  | H : (_ || _)%bool = false |- _ => apply orb_false_iff in H as [? ?]
  | H : negb _ = true |- _ => apply negb_true_iff in H
  | H : negb _ = false |- _ => apply negb_false_iff in H
  | H : bool_decide _ = true |- _ => apply bool_decide_eq_true in H
  | H : bool_decide _ = false |- _ => apply bool_decide_eq_false in H
  end.
