(* ===== verification/Rounding.v ===== *)
(** * Rounding to a floating grid

    Correctly rounded arithmetic on rationals, generic in the base, in the
    number of significant digits and in the rule for ties. It is instantiated
    with base 2 and 53 digits for JavaScript numbers and with base 10 and 20
    digits for decimal values (see [Numeric]). The laws proved here (error
    bound, monotonicity, exactness on the grid) are the only facts the money
    theorems use. *)

From Stdlib Require Import ZArith QArith Qround Qabs Qpower Lqa Lia.
From S2P Require Import Prelude.

#[local] Open Scope Z_scope.

(** ** Nearest integers *)

Definition nearestHalfUp (x : Q) : Z := Qfloor (x + (1 # 2)).

Definition nearestHalfEven (x : Q) : Z :=
  let f := Qfloor x in
  match Qcompare (x - inject_Z f) (1 # 2) with
  | Lt => f
  | Gt => f + 1
  | Eq => if Z.even f then f else f + 1
  end.

(** What makes a function a nearest-integer rule. *)
Record NearestRule (near : Q -> Z) : Prop := {
  near_err : forall x, (Qabs (inject_Z (near x) - x) <= 1 # 2)%Q;
  near_mono : forall x y, (x <= y)%Q -> near x <= near y;
}.

(** Floor as an inequality on [Q], for [lra]. *)
Lemma Qfloor_bounds x : (inject_Z (Qfloor x) <= x)%Q /\ (x < inject_Z (Qfloor x) + 1)%Q.
Proof.
  split; [apply Qfloor_le|].
  pose proof (Qlt_floor x) as H. rewrite inject_Z_plus in H. exact H.
Qed.

Lemma inject_Z_lt_1 (a b : Z) : (inject_Z a < inject_Z b + 1)%Q -> a <= b.
Proof.
  intros H. change 1%Q with (inject_Z 1) in H. rewrite <- inject_Z_plus in H.
  rewrite <- Zlt_Qlt in H. lia.
Qed.

(** [Qcompare] hypotheses as propositions. *)
Ltac qcompare_hyps :=
  repeat match goal with
  | H : (_ ?= _)%Q = Eq |- _ => apply Qeq_alt in H
  | H : (_ ?= _)%Q = Lt |- _ => apply Qlt_alt in H
  | H : (_ ?= _)%Q = Gt |- _ => apply Qgt_alt in H
  end.

Lemma nearestHalfUp_rule : NearestRule nearestHalfUp.
Proof.
  split.
  - intros x. unfold nearestHalfUp.
    destruct (Qfloor_bounds (x + (1 # 2))) as [H1 H2].
    apply Qabs_Qle_condition. split; lra.
  - intros x y H. unfold nearestHalfUp. apply Qfloor_resp_le. lra.
Qed.

Lemma nearestHalfEven_cases x :
  let f := Qfloor x in
  (nearestHalfEven x = f /\ (x - inject_Z f <= 1 # 2)%Q) \/
  (nearestHalfEven x = f + 1 /\ (1 # 2 <= x - inject_Z f)%Q).
Proof.
  cbn zeta. unfold nearestHalfEven.
  destruct (Qcompare (x - inject_Z (Qfloor x)) (1 # 2)) eqn:E.
  - apply Qeq_alt in E. destruct (Z.even (Qfloor x)); [left|right]; split; try reflexivity; lra.
  - apply Qlt_alt in E. left. split; [reflexivity | lra].
  - apply Qgt_alt in E. right. split; [reflexivity | lra].
Qed.

Lemma nearestHalfEven_rule : NearestRule nearestHalfEven.
Proof.
  split.
  - intros x. destruct (Qfloor_bounds x) as [H1 H2].
    destruct (nearestHalfEven_cases x) as [[-> H]|[-> H]].
    + apply Qabs_Qle_condition. split; lra.
    + rewrite inject_Z_plus. change (inject_Z 1) with 1%Q.
      apply Qabs_Qle_condition. split; lra.
  - intros x y H.
    destruct (Qfloor_bounds x) as [Hx1 Hx2], (Qfloor_bounds y) as [Hy1 Hy2].
    pose proof (Qfloor_resp_le _ _ H) as Hf.
    destruct (Z.eq_dec (Qfloor x) (Qfloor y)) as [He|He].
    + (* same floor: the fractional parts are ordered *)
      unfold nearestHalfEven. rewrite He in *.
      destruct (Qcompare (x - inject_Z (Qfloor y)) (1 # 2)) eqn:Ex;
        destruct (Qcompare (y - inject_Z (Qfloor y)) (1 # 2)) eqn:Ey;
        qcompare_hyps; destruct (Z.even (Qfloor y)); try lia; exfalso; lra.
    + destruct (nearestHalfEven_cases x) as [[-> _]|[-> _]];
        destruct (nearestHalfEven_cases y) as [[-> _]|[-> _]]; lia.
Qed.

Section NearestFacts.
Context (near : Q -> Z) (Hnear : NearestRule near).

(** A nearest-integer rule is exact on integers. *)
Lemma near_inject (x : Q) (z : Z) : (x == inject_Z z)%Q -> near x = z.
Proof.
  intros Hx. pose proof (near_err _ Hnear x) as H.
  apply Qabs_Qle_condition in H as [H1 H2].
  assert (Hle : near x <= z) by (apply inject_Z_lt_1; lra).
  assert (Hge : z <= near x) by (apply inject_Z_lt_1; lra). lia.
Qed.

Lemma near_unique (x : Q) (z : Z) : (Qabs (x - inject_Z z) < 1 # 2)%Q -> near x = z.
Proof.
  intros Hx. pose proof (near_err _ Hnear x) as H.
  apply Qabs_Qle_condition in H as [H1 H2]. apply Qabs_Qlt_condition in Hx as [H3 H4].
  assert (Hle : near x <= z) by (apply inject_Z_lt_1; lra).
  assert (Hge : z <= near x) by (apply inject_Z_lt_1; lra). lia.
Qed.

Lemma near_le_inject (x : Q) (z : Z) : (x <= inject_Z z)%Q -> near x <= z.
Proof.
  intros H. rewrite <- (near_inject (inject_Z z) z) by reflexivity.
  apply (near_mono _ Hnear), H.
Qed.

Lemma near_ge_inject (x : Q) (z : Z) : (inject_Z z <= x)%Q -> z <= near x.
Proof.
  intros H. rewrite <- (near_inject (inject_Z z) z) by reflexivity.
  apply (near_mono _ Hnear), H.
Qed.
End NearestFacts.

(** ** Integer logarithm in base [b] *)

Section Log.
Context (b : Z) (Hb : 2 <= b).

Fixpoint ilogFuel (fuel : nat) (z : Z) : Z :=
  match fuel with
  | O => 0
  | S fuel' => if z <? b then 0 else 1 + ilogFuel fuel' (z / b)
  end.

(** [Z.log2 z + 1] divisions by [b >= 2] bring any [z >= 1] below [b]. *)
Definition ilog (z : Z) : Z := ilogFuel (S (Z.to_nat (Z.log2 z))) z.

Lemma ilogFuel_spec fuel : forall z,
  1 <= z -> z < 2 ^ Z.of_nat fuel ->
  0 <= ilogFuel fuel z /\ b ^ ilogFuel fuel z <= z < b ^ (ilogFuel fuel z + 1).
Proof.
  induction fuel as [|fuel IH]; intros z Hz Hf; cbn [ilogFuel].
  - cbn in Hf. lia.
  - destruct (Z.ltb_spec z b) as [Hlt|Hge].
    + rewrite Z.add_0_l, Z.pow_0_r, Z.pow_1_r. lia.
    + assert (Hdiv : 1 <= z / b) by (apply Z.div_le_lower_bound; lia).
      destruct (IH (z / b) Hdiv) as (H0 & H1 & H2).
      { rewrite Nat2Z.inj_succ, Z.pow_succ_r in Hf by lia.
        assert (z / b <= z / 2) by (apply Z.div_le_compat_l; lia).
        assert (z / 2 < 2 ^ Z.of_nat fuel) by (apply Z.div_lt_upper_bound; lia). lia. }
      set (k := ilogFuel fuel (z / b)) in *.
      replace (1 + k + 1) with (Z.succ (k + 1)) by lia.
      replace (1 + k) with (Z.succ k) by lia.
      rewrite !Z.pow_succ_r by lia. split; [lia|].
      pose proof (Z.div_mod z b ltac:(lia)) as Hdm.
      pose proof (Z.mod_pos_bound z b ltac:(lia)) as Hm. nia.
Qed.

Lemma ilog_spec z : 1 <= z -> 0 <= ilog z /\ b ^ ilog z <= z < b ^ (ilog z + 1).
Proof.
  intros Hz. apply ilogFuel_spec; [exact Hz|].
  rewrite Nat2Z.inj_succ, Z2Nat.id by apply Z.log2_nonneg.
  apply Z.log2_spec. lia.
Qed.

(** *** Rational powers and the exponent of a positive rational *)

Definition bpow (e : Z) : Q := Qpower (inject_Z b) e.

Lemma bpow_pos e : (0 < bpow e)%Q.
Proof. apply Qpower_0_lt. unfold Qlt; cbn. lia. Qed.

Lemma bpow_plus x y : (bpow (x + y) == bpow x * bpow y)%Q.
Proof. apply Qpower_plus. unfold Qeq; cbn. lia. Qed.

Lemma bpow_nonneg_Z e : 0 <= e -> (bpow e == inject_Z (b ^ e))%Q.
Proof. intros H. unfold bpow. symmetry. apply Zpower_Qpower, H. Qed.

Lemma bpow_le x y : x <= y -> (bpow x <= bpow y)%Q.
Proof.
  intros H. replace y with (x + (y - x)) by lia. rewrite bpow_plus.
  pose proof (bpow_pos x). rewrite (bpow_nonneg_Z (y - x)) by lia.
  assert (1 <= b ^ (y - x)) by (apply (Z.pow_le_mono_r b 0 (y - x)); lia).
  assert (1 <= inject_Z (b ^ (y - x)))%Q by (change 1%Q with (inject_Z 1); rewrite <- Zle_Qle; lia).
  nra.
Qed.

Lemma bpow_opp e : (bpow (- e) * bpow e == 1)%Q.
Proof. rewrite <- bpow_plus, Z.add_opp_diag_l. reflexivity. Qed.

(** The largest [e] with [b ^ e <= q], for [q > 0]. *)
Definition expo (q : Q) : Z :=
  let n := Qnum q in
  let d := Zpos (Qden q) in
  if d <=? n then ilog (n / d)
  else - (ilog (- ((- d) / n) - 1) + 1).

Lemma expo_ge_1 (n : Z) (d : positive) :
  Zpos d <= n ->
  let e := ilog (n / Zpos d) in (bpow e <= n # d)%Q /\ (n # d < bpow (e + 1))%Q.
Proof.
  intros Hge. cbn zeta.
  assert (H1 : 1 <= n / Zpos d) by (apply Z.div_le_lower_bound; lia).
  destruct (ilog_spec _ H1) as (H0 & Hl & Hu).
  pose proof (Z.div_mod n (Zpos d) ltac:(lia)) as Hdm.
  pose proof (Z.mod_pos_bound n (Zpos d) ltac:(lia)) as Hm.
  rewrite !bpow_nonneg_Z by lia. unfold Qle, Qlt; cbn [Qnum Qden inject_Z].
  rewrite !Z.mul_1_r.
  set (l := b ^ ilog (n / Zpos d)) in *.
  set (u := b ^ (ilog (n / Zpos d) + 1)) in *.
  split; nia.
Qed.

Lemma expo_lt_1 (n : Z) (d : positive) :
  0 < n < Zpos d ->
  let e := - (ilog (- ((- Zpos d) / n) - 1) + 1) in
  (bpow e <= n # d)%Q /\ (n # d < bpow (e + 1))%Q.
Proof.
  intros Hn. cbn zeta.
  set (c := - ((- Zpos d) / n)).
  pose proof (Z.div_mod (- Zpos d) n ltac:(lia)) as Hdm.
  pose proof (Z.mod_pos_bound (- Zpos d) n ltac:(lia)) as Hm.
  assert (Hc : n * (c - 1) < Zpos d <= n * c) by (unfold c; nia).
  assert (Hc2 : 1 <= c - 1) by nia.
  destruct (ilog_spec _ Hc2) as (H0 & Hl & Hu).
  set (k := ilog (c - 1)) in *.
  replace (- (k + 1) + 1) with (- k) by lia.
  pose proof (bpow_opp (k + 1)) as E1. pose proof (bpow_opp k) as E2.
  rewrite (bpow_nonneg_Z (k + 1)) in E1 by lia.
  rewrite (bpow_nonneg_Z k) in E2 by lia.
  pose proof (bpow_pos (- (k + 1))) as P1. pose proof (bpow_pos (- k)) as P2.
  set (x1 := bpow (- (k + 1))) in *. set (x2 := bpow (- k)) in *.
  set (l := b ^ k) in *. set (u := b ^ (k + 1)) in *.
  assert (Hq : (n # d == inject_Z n * / inject_Z (Zpos d))%Q).
  { unfold Qeq; cbn. lia. }
  assert (Hdq : (0 < inject_Z (Zpos d))%Q) by (unfold Qlt; cbn; lia).
  assert (Hdn : Zpos d <= n * u) by nia.
  assert (Hdl : n * l < Zpos d) by nia.
  rewrite Zle_Qle, inject_Z_mult in Hdn. rewrite Zlt_Qlt, inject_Z_mult in Hdl.
  rewrite Hq. split.
  - apply Qle_shift_div_l; [exact Hdq|].
    assert (x1 * (inject_Z n * inject_Z u) == inject_Z n)%Q as EN.
    { transitivity (inject_Z n * (x1 * inject_Z u))%Q; [ring | rewrite E1; ring]. }
    rewrite <- EN. apply Qmult_le_l; [exact P1 | exact Hdn].
  - apply Qlt_shift_div_r; [exact Hdq|].
    assert (x2 * (inject_Z n * inject_Z l) == inject_Z n)%Q as EN.
    { transitivity (inject_Z n * (x2 * inject_Z l))%Q; [ring | rewrite E2; ring]. }
    rewrite <- EN. apply Qmult_lt_l; [exact P2 | exact Hdl].
Qed.

Lemma expo_spec q : (0 < q)%Q -> (bpow (expo q) <= q)%Q /\ (q < bpow (expo q + 1))%Q.
Proof.
  destruct q as [n d]. intros Hq. unfold Qlt in Hq; cbn in Hq.
  unfold expo; cbn [Qnum Qden].
  destruct (Z.leb_spec (Zpos d) n) as [H|H].
  - apply expo_ge_1, H.
  - apply expo_lt_1. lia.
Qed.

Lemma bpow_lt_inv x y : (bpow x < bpow y)%Q -> x < y.
Proof.
  intros H. destruct (Z_lt_le_dec x y) as [|Hle]; [assumption|].
  pose proof (bpow_le _ _ Hle). lra.
Qed.

Lemma expo_mono x y : (0 < x)%Q -> (x <= y)%Q -> expo x <= expo y.
Proof.
  intros Hx Hxy. assert (Hy : (0 < y)%Q) by lra.
  destruct (expo_spec x Hx) as [H1 _], (expo_spec y Hy) as [_ H2].
  assert (bpow (expo x) < bpow (expo y + 1))%Q as H by lra.
  apply bpow_lt_inv in H. lia.
Qed.
End Log.

(** ** Rounding to [p] significant digits *)

Section Float.
Context (b : Z) (p : Z) (emin : option Z) (near : Q -> Z).
Context (Hb : 2 <= b) (Hp : 1 <= p) (Hnear : NearestRule near).

(** Exponent of the last digit kept. [emin] bounds it from below, which is
    gradual underflow for binary floating point. *)
Definition quantum (q : Q) : Z :=
  let e := expo b q - (p - 1) in
  match emin with Some m => Z.max m e | None => e end.

Definition roundPos (q : Q) : Q :=
  let e := quantum q in
  Qred (inject_Z (near (q * bpow b (- e))) * bpow b e).

Definition roundTo (q : Q) : Q :=
  match Qcompare q 0 with
  | Eq => 0
  | Gt => roundPos q
  | Lt => Qred (- roundPos (- q))
  end.

Lemma scale_cancel q e : (q * bpow b (- e) * bpow b e == q)%Q.
Proof. rewrite <- Qmult_assoc, bpow_opp by exact Hb. ring. Qed.

(** Half a unit in the last place. *)
Lemma roundPos_err q :
  (0 < q)%Q -> (Qabs (roundPos q - q) <= (1 # 2) * bpow b (quantum q))%Q.
Proof.
  intros Hq. unfold roundPos. rewrite Qred_correct.
  set (e := quantum q). set (x := (q * bpow b (- e))%Q).
  assert (Hx : (x * bpow b e == q)%Q) by apply scale_cancel.
  pose proof (near_err _ Hnear x) as Herr.
  apply Qabs_Qle_condition in Herr as [H1 H2].
  pose proof (bpow_pos b Hb e) as Hpos.
  apply Qabs_Qle_condition. split; nra.
Qed.

Lemma quantum_le_expo q : emin = None -> quantum q = expo b q - (p - 1).
Proof. intros H. unfold quantum. rewrite H. reflexivity. Qed.

Lemma roundPos_lower q :
  (0 < q)%Q -> quantum q <= expo b q -> (bpow b (expo b q) <= roundPos q)%Q.
Proof.
  intros Hq He. unfold roundPos. rewrite Qred_correct.
  set (e := quantum q) in *.
  assert (Hn : b ^ (expo b q - e) <= near (q * bpow b (- e))).
  { apply (near_ge_inject _ Hnear). rewrite <- bpow_nonneg_Z by lia.
    replace (expo b q - e) with (expo b q + - e) by lia. rewrite bpow_plus by lia.
    apply Qmult_le_compat_r; [apply (expo_spec b Hb q Hq) |].
    apply Qlt_le_weak, (bpow_pos b Hb). }
  rewrite Zle_Qle, <- bpow_nonneg_Z in Hn by lia.
  pose proof (bpow_pos b Hb e) as Hpos.
  replace (expo b q) with (expo b q - e + e) at 1 by lia. rewrite bpow_plus by lia.
  apply Qmult_le_compat_r; [exact Hn | lra].
Qed.

Lemma roundPos_upper q k :
  (0 < q)%Q -> quantum q <= k -> (q <= bpow b k)%Q -> (roundPos q <= bpow b k)%Q.
Proof.
  intros Hq He Hk. unfold roundPos. rewrite Qred_correct.
  set (e := quantum q) in *.
  assert (Hn : near (q * bpow b (- e)) <= b ^ (k - e)).
  { apply (near_le_inject _ Hnear). rewrite <- bpow_nonneg_Z by lia.
    replace (k - e) with (k + - e) by lia. rewrite bpow_plus by lia.
    apply Qmult_le_compat_r; [exact Hk |]. apply Qlt_le_weak, (bpow_pos b Hb). }
  rewrite Zle_Qle, <- bpow_nonneg_Z in Hn by lia.
  pose proof (bpow_pos b Hb e) as Hpos.
  replace k with (k - e + e) at 1 by lia. rewrite bpow_plus by lia.
  apply Qmult_le_compat_r; [exact Hn | lra].
Qed.

Lemma quantum_mono x y : (0 < x)%Q -> (x <= y)%Q -> quantum x <= quantum y.
Proof.
  intros Hx Hxy. pose proof (expo_mono b Hb x y Hx Hxy).
  unfold quantum. destruct emin; lia.
Qed.

Lemma roundPos_mono x y : (0 < x)%Q -> (x <= y)%Q -> (roundPos x <= roundPos y)%Q.
Proof.
  intros Hx Hxy. assert (Hy : (0 < y)%Q) by lra.
  pose proof (quantum_mono x y Hx Hxy) as Hq.
  destruct (Z.eq_dec (quantum x) (quantum y)) as [He|He].
  - unfold roundPos. rewrite !Qred_correct, He.
    pose proof (bpow_pos b Hb (quantum y)). pose proof (bpow_pos b Hb (- quantum y)).
    apply Qmult_le_compat_r; [|lra]. rewrite <- Zle_Qle.
    apply (near_mono _ Hnear). apply Qmult_le_compat_r; lra.
  - assert (Hqy : quantum y = expo b y - (p - 1) /\ expo b x < expo b y).
    { pose proof (expo_mono b Hb x y Hx Hxy).
      revert Hq He. unfold quantum. destruct emin; lia. }
    destruct Hqy as [Hqy Hlt].
    apply Qle_trans with (bpow b (expo b y)).
    + apply roundPos_upper; [exact Hx | lia |].
      destruct (expo_spec b Hb x Hx) as [_ Hu].
      pose proof (bpow_le b Hb (expo b x + 1) (expo b y) ltac:(lia)). lra.
    + apply roundPos_lower; [exact Hy | lia].
Qed.

Lemma roundPos_nonneg q : (0 < q)%Q -> (0 <= roundPos q)%Q.
Proof.
  intros Hq. unfold roundPos. rewrite Qred_correct.
  pose proof (bpow_pos b Hb (quantum q)) as H1.
  pose proof (bpow_pos b Hb (- quantum q)) as H2.
  apply Qmult_le_0_compat; [|lra]. change 0%Q with (inject_Z 0). rewrite <- Zle_Qle.
  apply (near_ge_inject _ Hnear). change (inject_Z 0) with 0%Q. nra.
Qed.

Lemma roundTo_mono x y : (x <= y)%Q -> (roundTo x <= roundTo y)%Q.
Proof.
  intros H. unfold roundTo.
  destruct (x ?= 0)%Q eqn:Ex; destruct (y ?= 0)%Q eqn:Ey; qcompare_hyps;
    rewrite ?Qred_correct; try (exfalso; lra); try lra.
  - apply roundPos_nonneg; lra.
  - pose proof (roundPos_nonneg (- x)) as Hn. lra.
  - pose proof (roundPos_mono (- y) (- x)) as Hm. lra.
  - pose proof (roundPos_nonneg (- x)). pose proof (roundPos_nonneg y). lra.
  - apply roundPos_mono; lra.
Qed.

#[export] Instance roundTo_proper : Proper (Qeq ==> Qeq) roundTo.
Proof.
  intros x y H. apply Qle_antisym; apply roundTo_mono; lra.
Qed.

Lemma roundTo_opp q : (roundTo (- q) == - roundTo q)%Q.
Proof.
  unfold roundTo. destruct (q ?= 0)%Q eqn:E1; destruct (- q ?= 0)%Q eqn:E2;
    qcompare_hyps; try (exfalso; lra); rewrite ?Qred_correct, ?Qopp_involutive.
  - reflexivity.
  - reflexivity.
  - apply Qopp_comp. replace (- - q)%Q with q; [reflexivity|].
    destruct q as [n d]. unfold Qopp; cbn. rewrite Z.opp_involutive. reflexivity.
Qed.

(** Relative error of half a unit in the [p]-th digit. *)
Lemma roundPos_rel_err q :
  (0 < q)%Q -> quantum q = expo b q - (p - 1) ->
  (Qabs (roundPos q - q) <= (1 # 2) * bpow b (1 - p) * q)%Q.
Proof.
  intros Hq He. eapply Qle_trans; [apply roundPos_err, Hq|].
  rewrite He. replace (expo b q - (p - 1)) with ((1 - p) + expo b q) by lia.
  rewrite bpow_plus by lia.
  destruct (expo_spec b Hb q Hq) as [Hl _].
  pose proof (bpow_pos b Hb (1 - p)). nra.
Qed.

Lemma roundTo_rel_err q :
  emin = None -> (Qabs (roundTo q - q) <= (1 # 2) * bpow b (1 - p) * Qabs q)%Q.
Proof.
  intros He. unfold roundTo. destruct (q ?= 0)%Q eqn:Eq; qcompare_hyps.
  - rewrite (Qabs_pos (0 - q)), (Qabs_pos q) by lra.
    assert ((1 # 2) * bpow b (1 - p) * q == 0)%Q by (rewrite Eq; ring). lra.
  - rewrite Qred_correct.
    pose proof (roundPos_rel_err (- q) ltac:(lra) (quantum_le_expo _ He)) as H.
    rewrite (Qabs_neg q) by lra.
    apply Qabs_Qle_condition in H. apply Qabs_Qle_condition. lra.
  - rewrite (Qabs_pos q) by lra.
    apply roundPos_rel_err; [lra | apply quantum_le_expo, He].
Qed.

(** With gradual underflow the smallest step adds an absolute term. *)
Lemma roundTo_err_emin q m :
  emin = Some m ->
  (Qabs (roundTo q - q) <= (1 # 2) * bpow b (1 - p) * Qabs q + (1 # 2) * bpow b m)%Q.
Proof.
  intros He.
  assert (Hpos : forall x, (0 < x)%Q ->
    (Qabs (roundPos x - x) <= (1 # 2) * bpow b (1 - p) * x + (1 # 2) * bpow b m)%Q).
  { intros x Hx. pose proof (bpow_pos b Hb m). pose proof (bpow_pos b Hb (1 - p)).
    destruct (Z.le_gt_cases m (expo b x - (p - 1))) as [Hle|Hgt].
    - eapply Qle_trans; [apply roundPos_rel_err; [exact Hx|]|lra].
      unfold quantum. rewrite He. lia.
    - eapply Qle_trans; [apply roundPos_err, Hx|].
      replace (quantum x) with m by (unfold quantum; rewrite He; lia). nra. }
  pose proof (bpow_pos b Hb m).
  unfold roundTo. destruct (q ?= 0)%Q eqn:Eq; qcompare_hyps.
  - rewrite (Qabs_pos (0 - q)), (Qabs_pos q) by lra.
    assert ((1 # 2) * bpow b (1 - p) * q == 0)%Q by (rewrite Eq; ring). lra.
  - rewrite Qred_correct. specialize (Hpos (- q)%Q ltac:(lra)).
    rewrite (Qabs_neg q) by lra.
    apply Qabs_Qle_condition in Hpos. apply Qabs_Qle_condition. lra.
  - rewrite (Qabs_pos q) by lra. apply Hpos. lra.
Qed.

(** Values of at most [p] digits are not changed. *)
Lemma roundPos_fix q m e :
  (0 < q)%Q -> (q == inject_Z m * bpow b e)%Q -> m < b ^ p ->
  match emin with Some k => k <= e | None => True end ->
  (roundPos q == q)%Q.
Proof.
  intros Hq Hm Hlt He.
  assert (Hqe : quantum q <= e).
  { destruct (expo_spec b Hb q Hq) as [Hl _].
    assert (bpow b (expo b q) < bpow b (p + e))%Q as Hx.
    { eapply Qle_lt_trans; [exact Hl|]. rewrite Hm, bpow_plus by lia.
      apply Qmult_lt_compat_r; [apply bpow_pos, Hb|].
      rewrite bpow_nonneg_Z by lia. rewrite <- Zlt_Qlt. exact Hlt. }
    apply (bpow_lt_inv b Hb) in Hx. unfold quantum. destruct emin; lia. }
  unfold roundPos. rewrite Qred_correct. set (k := quantum q) in *.
  rewrite (near_inject _ Hnear (q * bpow b (- k)) (m * b ^ (e - k))).
  - rewrite inject_Z_mult, <- bpow_nonneg_Z by lia.
    rewrite <- Qmult_assoc, <- bpow_plus by lia.
    replace (e - k + k) with e by lia. symmetry. exact Hm.
  - rewrite Hm, inject_Z_mult, <- bpow_nonneg_Z by lia.
    rewrite <- Qmult_assoc, <- bpow_plus by lia.
    replace (e + - k) with (e - k) by lia. reflexivity.
Qed.

Lemma roundTo_fix q m e :
  (q == inject_Z m * bpow b e)%Q -> Z.abs m < b ^ p ->
  match emin with Some k => k <= e | None => True end ->
  (roundTo q == q)%Q.
Proof.
  intros Hm Hlt He. unfold roundTo. destruct (q ?= 0)%Q eqn:Eq; qcompare_hyps.
  - lra.
  - rewrite Qred_correct, (roundPos_fix (- q) (- m) e); [lra | lra | | lia | exact He].
    rewrite Hm, inject_Z_opp. ring.
  - apply (roundPos_fix q m e); [lra | exact Hm | lia | exact He].
Qed.
End Float.
