(* ===== verification/Numeric.v ===== *)
(** * Numbers: JavaScript numbers, decimals, money columns

    Three representations of money meet in the services.

    - JavaScript numbers (IEEE binary64). [f64] is correct rounding to a
      double, [num] adds the non-finite values. The sign of zero is not
      represented: nothing in the modelled code observes it.
    - decimal.js values ([Decimal] of the Prisma runtime), a third-party
      library: its arithmetic is the parameter [DecimalJs], whose laws say what
      its documentation says (every result is correctly rounded to
      [Decimal.precision = 20] significant digits, half up). A decimal is
      represented by its exact value in [Q].
    - PostgreSQL [numeric(p, 8)] columns: an integer number of 1e-8 units in
      [Z]; writing a value to a column rounds it to a nearest unit, which is
      the parameter [PgNumeric].

    The functions of src/src/utils/decimal.util.ts and
    src/src/utils/payout.util.ts are defined over these. *)

From Stdlib Require Import ZArith QArith Qround Qabs Qpower Lqa Lia.
From stdpp Require Import base list strings pretty.
From S2P Require Import Prelude.
From S2P Require Import Rounding.

#[local] Open Scope Z_scope.

(** ** JavaScript numbers *)

(** Round to nearest double, ties to even; subnormals go down to 2^-1074. *)
Definition f64 (q : Q) : Q := roundTo 2 53 (Some (-1074)) nearestHalfEven q.

Lemma f64_mono x y : (x <= y)%Q -> (f64 x <= f64 y)%Q.
Proof. apply roundTo_mono; [lia | lia | apply nearestHalfEven_rule]. Qed.

#[export] Instance f64_proper : Proper (Qeq ==> Qeq) f64.
Proof. apply roundTo_proper; [lia | lia | apply nearestHalfEven_rule]. Qed.

Inductive num : Type :=
| Fin (q : Q)
| Inf (negative : bool)
| NaN.

Definition two1024 : Q := inject_Z (2 ^ 1024).

Definition num_of_Q (q : Q) : num :=
  let r := f64 q in
  if Qle_bool two1024 r then Inf false
  else if Qle_bool r (- two1024) then Inf true
  else Fin r.

Definition Qltb (x y : Q) : bool := negb (Qle_bool y x).

(** [Number.isFinite] on a value of type number *)
Definition isFinite (x : num) : bool := match x with Fin _ => true | _ => false end.

(** [x < y]; every comparison with NaN is false. *)
Definition num_lt (x y : num) : bool :=
  match x, y with
  | Fin a, Fin b => Qltb a b
  | Inf true, Fin _ | Inf true, Inf false | Fin _, Inf false => true
  | _, _ => false
  end.

(** [x === y] *)
Definition num_eq (x y : num) : bool :=
  match x, y with
  | Fin a, Fin b => Qeq_bool a b
  | Inf s, Inf t => Bool.eqb s t
  | _, _ => false
  end.

Definition num_le (x y : num) : bool := num_lt x y || num_eq x y.

Definition num_neg (x : num) : num :=
  match x with Fin q => Fin (Qred (- q)) | Inf s => Inf (negb s) | NaN => NaN end.

Definition num_add (x y : num) : num :=
  match x, y with
  | Fin a, Fin b => num_of_Q (a + b)
  | Fin _, Inf s | Inf s, Fin _ => Inf s
  | Inf s, Inf t => if Bool.eqb s t then Inf s else NaN
  | _, _ => NaN
  end.

(** [x + y] on doubles whose sum does not overflow. *)
Definition addDoubles (x y : Q) : Q := f64 (x + y).

Definition num_sub (x y : num) : num := num_add x (num_neg y).

Definition num_mul (x y : num) : num :=
  match x, y with
  | Fin a, Fin b => num_of_Q (a * b)
  | Fin a, Inf s | Inf s, Fin a =>
      match Qcompare a 0 with Eq => NaN | Lt => Inf (negb s) | Gt => Inf s end
  | Inf s, Inf t => Inf (xorb s t)
  | _, _ => NaN
  end.

Definition num_div (x y : num) : num :=
  match x, y with
  | Fin a, Fin b =>
      if Qeq_bool b 0 then (if Qeq_bool a 0 then NaN else Inf (negb (Qle_bool 0 a))) else num_of_Q (a / b)
  | Fin _, Inf _ => Fin 0
  | Inf s, Fin b => Inf (xorb s (negb (Qle_bool 0 b)))
  | _, _ => NaN
  end.

(** The decimal numeral [Number.prototype.toString] prints: the fewest digits
    that read back as the same number. Seventeen digits always suffice. *)
Definition round10 (k : nat) (q : Q) : Q := roundTo 10 (Z.of_nat k) None nearestHalfUp q.

Fixpoint shortestFrom (fuel k : nat) (x : Q) : Q :=
  match fuel with
  | O => x
  | S fuel' =>
      let c := round10 k x in
      if Qeq_bool (f64 c) x then c else shortestFrom fuel' (S k) x
  end.

(** Value of [x.toString()] for a finite number [x]. *)
Definition num_to_dec (x : Q) : Q := shortestFrom 17 1 x.

(** ** The decimal library *)

(** 1e-8, the unit of every money column. *)
Definition unitQ (z : Z) : Q := z # 100000000.

Class DecimalJs := {
  D_round : Q -> Q;
  D_add : Q -> Q -> Q;
  D_sub : Q -> Q -> Q;
  D_mul : Q -> Q -> Q;
  D_div : Q -> Q -> Q;
  D_toNumber : Q -> Q;
  D_toFixed : nat -> Q -> string;
  D_add_spec : forall a b, D_add a b = D_round (a + b);
  D_sub_spec : forall a b, D_sub a b = D_round (a - b);
  D_mul_spec : forall a b, D_mul a b = D_round (a * b);
  D_div_spec : forall a b, ~ (b == 0)%Q -> D_div a b = D_round (a / b);
  D_round_mono : forall x y, (x <= y)%Q -> (D_round x <= D_round y)%Q;
  D_round_err : forall x,
    (Qabs (D_round x - x) <= (1 # 20000000000000000000) * Qabs x)%Q;
  D_round_fix : forall x m e,
    (x == inject_Z m * bpow 10 e)%Q -> Z.abs m < 10 ^ 20 -> (D_round x == x)%Q;
  D_toNumber_spec : forall x, D_toNumber x = f64 x;
}.

(** Assignment to a [numeric(p, 8)] column, in units. *)
Class PgNumeric := {
  column : Q -> Z;
  column_err : forall x, (Qabs (inject_Z (column x) - x * 100000000) <= 1 # 2)%Q;
  column_mono : forall x y, (x <= y)%Q -> column x <= column y;
}.

(** ** src/src/utils/decimal.util.ts *)

(** [number | string | Decimal]: a numeral given as a string is the decimal it
    denotes. *)
Inductive NumberLike : Type :=
| NumberArg (x : Q)
| DecimalArg (d : Q).

Section DecimalUtil.
Context `{DecimalJs}.

(** [toDecimal] on its overloads: a decimal is returned as it is, a number
    goes through its printed form. *)
Definition toDecimal (x : Q) : Q := num_to_dec x.
Definition toDecimal_Decimal (d : Q) : Q := d.
Definition toDecimal_any (v : NumberLike) : Q :=
  match v with NumberArg x => toDecimal x | DecimalArg d => toDecimal_Decimal d end.

Definition toNumber (d : Q) : Q := D_toNumber d.
(** [toNumber] of [Decimal | null | undefined] *)
Definition toNumber_opt (d : option Q) : Q :=
  match d with None => 0 | Some d => D_toNumber d end.

Definition decAdd (a b : Q) : Q := D_add a b.
Definition decSub (a b : Q) : Q := D_sub a b.
Definition decMul (a b : Q) : Q := D_mul a b.
Definition decDiv (a b : Q) : Q := D_div a b.
Definition decGt (a b : Q) : bool := Qltb b a.
Definition decLt (a b : Q) : bool := Qltb a b.
Definition decEq (a b : Q) : bool := Qeq_bool a b.
Definition decGte (a b : Q) : bool := Qle_bool b a.
Definition decLte (a b : Q) : bool := Qle_bool a b.

Definition decFixed (d : Q) (places : nat) : string := D_toFixed places d.
Definition MONEY_SCALE : nat := 8.
Definition ZERO_MONEY : string := "0.00000000".
Definition serializeMoney (d : option Q) : string :=
  match d with None => ZERO_MONEY | Some d => D_toFixed MONEY_SCALE d end.
Definition serializeNullableMoney (d : option Q) : option string :=
  match d with None => None | Some d => Some (D_toFixed MONEY_SCALE d) end.
End DecimalUtil.

(** ** Reading and writing money columns *)

Section Columns.
Context `{PgNumeric}.

(** [column + x] evaluated in the database, as in
    [{ increment: x }] with a decimal [x]. *)
Definition colIncDec (c : Z) (x : Q) : Z := column (unitQ c + x).
Definition colDecDec (c : Z) (x : Q) : Z := column (unitQ c - x).

(** The same with a JavaScript number, which reaches the database as the
    numeral it prints as. *)
Definition colInc (c : Z) (x : Q) : Z := colIncDec c (num_to_dec x).
Definition colDec (c : Z) (x : Q) : Z := colDecDec c (num_to_dec x).
Definition colSet (x : Q) : Z := column (num_to_dec x).

Lemma column_unit z x : (x == unitQ z)%Q -> column x = z.
Proof.
  intros Hx. pose proof (column_err x) as He.
  apply Qabs_Qle_condition in He as [H1 H2].
  assert (Hu : (x * 100000000 == inject_Z z)%Q).
  { rewrite Hx. unfold unitQ, Qeq, inject_Z; cbn. lia. }
  assert (column x <= z) by (apply inject_Z_lt_1; lra).
  assert (z <= column x) by (apply inject_Z_lt_1; lra). lia.
Qed.

Lemma unitQ_add a b : (unitQ a + unitQ b == unitQ (a + b))%Q.
Proof. unfold unitQ, Qeq; cbn. lia. Qed.

Lemma unitQ_sub a b : (unitQ a - unitQ b == unitQ (a - b))%Q.
Proof. unfold unitQ, Qeq; cbn. lia. Qed.

Lemma unitQ_le a b : (unitQ a <= unitQ b)%Q <-> a <= b.
Proof. unfold unitQ, Qle; cbn. lia. Qed.

Lemma unitQ_lt a b : (unitQ a < unitQ b)%Q <-> a < b.
Proof. unfold unitQ, Qlt; cbn. lia. Qed.

(** Arithmetic on columns is exact as soon as the operand is a whole number
    of units. *)
Lemma colIncDec_unit c z x : (x == unitQ z)%Q -> colIncDec c x = c + z.
Proof.
  intros Hx. apply column_unit. rewrite Hx. apply unitQ_add.
Qed.

Lemma colDecDec_unit c z x : (x == unitQ z)%Q -> colDecDec c x = c - z.
Proof.
  intros Hx. apply column_unit. rewrite Hx. apply unitQ_sub.
Qed.

(** In general it is off by at most half a unit. *)
Lemma colIncDec_err c x :
  (Qabs (inject_Z (colIncDec c x - c) - x * 100000000) <= 1 # 2)%Q.
Proof.
  pose proof (column_err (unitQ c + x)) as He. fold (colIncDec c x) in He.
  apply Qabs_Qle_condition in He as [H1 H2].
  assert (Hu : ((unitQ c + x) * 100000000 == inject_Z c + x * 100000000)%Q).
  { rewrite Qmult_plus_distr_l. apply Qplus_inj_r.
    unfold unitQ, Qeq, inject_Z; cbn. lia. }
  assert (Hs : (inject_Z (colIncDec c x - c) == inject_Z (colIncDec c x) - inject_Z c)%Q).
  { unfold Z.sub. rewrite inject_Z_plus, inject_Z_opp. reflexivity. }
  apply Qabs_Qle_condition. rewrite Hs. split; lra.
Qed.

(** A non-negative increment never lowers a column. *)
Lemma colIncDec_ge c x : (0 <= x)%Q -> c <= colIncDec c x.
Proof.
  intros Hx. rewrite <- (column_unit c (unitQ c)) at 1 by reflexivity.
  apply column_mono. lra.
Qed.
End Columns.

(** ** Exactness of number/decimal round trips *)

Section RoundTrip.
(** A decimal of at most 15 significant digits. *)
Definition dec15 (v : Q) : Prop :=
  exists m e, (v == inject_Z m * bpow 10 e)%Q /\ Z.abs m < 10 ^ 15.

Lemma unitQ_dec15 z : Z.abs z < 10 ^ 15 -> dec15 (unitQ z).
Proof.
  intros H. exists z, (-8). split; [|exact H].
  change (bpow 10 (-8)) with (1 # 100000000)%Q.
  unfold unitQ, Qeq, inject_Z; cbn. lia.
Qed.

Lemma round10_dec15 k x : (1 <= k <= 15)%nat -> dec15 (round10 k x).
Proof.
  intros Hk. unfold round10, roundTo.
  assert (Hpos : forall q, (0 < q)%Q ->
            dec15 (roundPos 10 (Z.of_nat k) None nearestHalfUp q)).
  { intros q Hq. unfold roundPos.
    set (e := quantum 10 (Z.of_nat k) None q).
    set (n := nearestHalfUp (q * bpow 10 (- e))).
    assert (He : e = expo 10 q - (Z.of_nat k - 1)) by reflexivity.
    assert (Hn : 0 <= n <= 10 ^ Z.of_nat k).
    { split.
      - apply (near_ge_inject _ nearestHalfUp_rule). change (inject_Z 0) with 0%Q.
        pose proof (bpow_pos 10 ltac:(lia) (- e)). nra.
      - apply (near_le_inject _ nearestHalfUp_rule).
        rewrite <- bpow_nonneg_Z by lia.
        destruct (expo_spec 10 ltac:(lia) q Hq) as [_ Hu].
        replace (Z.of_nat k) with (expo 10 q + 1 + - e) by lia.
        rewrite bpow_plus by lia. apply Qmult_le_compat_r; [apply Qlt_le_weak, Hu|].
        apply Qlt_le_weak, (bpow_pos 10 ltac:(lia)). }
    destruct (Z.eq_dec n (10 ^ Z.of_nat k)) as [Heq|Hne].
    - exists 1, (e + Z.of_nat k). rewrite Qred_correct. split; [|cbn; lia].
      rewrite Heq, bpow_plus by lia. rewrite <- bpow_nonneg_Z by lia. ring.
    - exists n, e. rewrite Qred_correct. split; [reflexivity|].
      assert (10 ^ Z.of_nat k <= 10 ^ 15) by (apply Z.pow_le_mono_r; lia). lia. }
  destruct (x ?= 0)%Q eqn:E; qcompare_hyps.
  - exists 0, 0. split; [reflexivity | cbn; lia].
  - destruct (Hpos (- x)%Q ltac:(lra)) as (m & e & Hm & Hlt).
    exists (- m), e. rewrite Qred_correct, Hm, inject_Z_opp. split; [ring | lia].
  - apply Hpos. lra.
Qed.

(** A decimal of 15 digits as a multiple of its 15th-digit step. *)
Lemma dec15_multiple v k :
  (0 < v)%Q -> dec15 v -> k <= expo 10 v ->
  exists N, (v == inject_Z N * bpow 10 (k - 14))%Q.
Proof.
  intros Hv (m & e & Hm & Hlt) Hk.
  destruct (expo_spec 10 ltac:(lia) v Hv) as [Hl _].
  assert (He : expo 10 v < 15 + e).
  { apply (bpow_lt_inv 10 ltac:(lia)). eapply Qle_lt_trans; [exact Hl|].
    rewrite Hm, bpow_plus by lia. apply Qmult_lt_compat_r; [apply bpow_pos; lia|].
    rewrite bpow_nonneg_Z by lia. rewrite <- Zlt_Qlt. lia. }
  exists (m * 10 ^ (e - (k - 14))).
  rewrite inject_Z_mult, <- bpow_nonneg_Z, <- Qmult_assoc, <- bpow_plus by lia.
  replace (e - (k - 14) + (k - 14)) with e by lia. exact Hm.
Qed.

Lemma expo_near v x :
  (0 < v)%Q -> dec15 v ->
  (Qabs (x - v) * 4000000000000000 <= v)%Q -> (0 < x)%Q /\ expo 10 x <= expo 10 v.
Proof.
  intros Hv Hd Hx.
  assert (Ha : (- (v * (1 # 4000000000000000)) <= x - v <= v * (1 # 4000000000000000))%Q).
  { apply Qabs_Qle_condition. lra. }
  split; [lra|]. destruct (Z.le_gt_cases (expo 10 x) (expo 10 v)) as [|Hgt]; [assumption|].
  exfalso. assert (Hx0 : (0 < x)%Q) by lra.
  destruct (dec15_multiple v (expo 10 v) Hv Hd ltac:(lia)) as [N HN].
  destruct (expo_spec 10 ltac:(lia) x Hx0) as [Hxl _].
  destruct (expo_spec 10 ltac:(lia) v Hv) as [_ Hvu].
  pose proof (bpow_le 10 ltac:(lia) (expo 10 v + 1) (expo 10 x) ltac:(lia)) as Hle.
  set (u := bpow 10 (expo 10 v - 14)) in *.
  assert (Hu : (0 < u)%Q) by (apply bpow_pos; lia).
  assert (H15 : (bpow 10 (expo 10 v + 1) == 1000000000000000 * u)%Q).
  { replace (expo 10 v + 1) with (15 + (expo 10 v - 14)) by lia.
    rewrite bpow_plus by lia. reflexivity. }
  assert (HN15 : N <= 10 ^ 15 - 1).
  { assert (inject_Z N < inject_Z (10 ^ 15))%Q as HltN.
    { apply (Qmult_lt_r _ _ u Hu). rewrite <- HN. change (inject_Z (10 ^ 15)) with 1000000000000000%Q. lra. }
    rewrite <- Zlt_Qlt in HltN. lia. }
  rewrite Zle_Qle in HN15. change (inject_Z (10 ^ 15 - 1)) with 999999999999999%Q in HN15.
  nra.
Qed.

Lemma round10_near_pos v x :
  (0 < v)%Q -> dec15 v ->
  (Qabs (x - v) * 4000000000000000 <= v)%Q -> (round10 15 x == v)%Q.
Proof.
  intros Hv Hd Hx. destruct (expo_near v x Hv Hd Hx) as [Hx0 Hk].
  destruct (dec15_multiple v (expo 10 x) Hv Hd Hk) as [N HN].
  unfold round10, roundTo. destruct (x ?= 0)%Q eqn:E; qcompare_hyps; try (exfalso; lra).
  unfold roundPos. rewrite Qred_correct.
  change (quantum 10 (Z.of_nat 15) None x) with (expo 10 x - 14).
  set (q := expo 10 x - 14) in *.
  assert (Hu : (0 < bpow 10 q)%Q) by (apply bpow_pos; lia).
  assert (Hu' : (0 < bpow 10 (- q))%Q) by (apply bpow_pos; lia).
  pose proof (bpow_opp 10 ltac:(lia) q) as Hinv.
  destruct (expo_spec 10 ltac:(lia) x Hx0) as [_ Hxu].
  assert (H15 : (bpow 10 (expo 10 x + 1) == 1000000000000000 * bpow 10 q)%Q).
  { replace (expo 10 x + 1) with (15 + q) by (unfold q; lia).
    rewrite bpow_plus by lia. reflexivity. }
  assert (Hxv : (- (v * (1 # 4000000000000000)) <= x - v <= v * (1 # 4000000000000000))%Q)
    by (apply Qabs_Qle_condition; lra).
  rewrite (near_unique _ nearestHalfUp_rule _ N); [symmetry; exact HN|].
  assert (Hvq : (v * bpow 10 (- q) == inject_Z N)%Q).
  { rewrite HN, <- Qmult_assoc, (Qmult_comm (bpow 10 q)), Hinv. ring. }
  assert (Hvb : (v * bpow 10 (- q) <= (3 # 2) * 1000000000000000)%Q).
  { assert (v <= (3 # 2) * 1000000000000000 * bpow 10 q)%Q as Hv2 by lra.
    apply Qle_trans with ((3 # 2) * 1000000000000000 * bpow 10 q * bpow 10 (- q))%Q.
    - apply Qmult_le_compat_r; [exact Hv2 | lra].
    - rewrite <- Qmult_assoc, (Qmult_comm (bpow 10 q)), Hinv. lra. }
  apply Qabs_Qlt_condition. rewrite <- Hvq.
  assert (Hd1 : ((x - v) * bpow 10 (- q) <= v * (1 # 4000000000000000) * bpow 10 (- q))%Q)
    by (apply Qmult_le_compat_r; lra).
  assert (Hd2 : (- (v * (1 # 4000000000000000)) * bpow 10 (- q) <= (x - v) * bpow 10 (- q))%Q)
    by (apply Qmult_le_compat_r; lra).
  split; lra.
Qed.

Lemma dec15_opp v : dec15 v -> dec15 (- v).
Proof.
  intros (m & e & Hm & Hlt). exists (- m), e. split; [|lia].
  rewrite Hm, inject_Z_opp. ring.
Qed.

#[local] Instance round10_proper k : Proper (Qeq ==> Qeq) (round10 (S k)).
Proof. apply roundTo_proper; [lia | lia | apply nearestHalfUp_rule]. Qed.

Lemma round10_near v x :
  ~ (v == 0)%Q -> dec15 v ->
  (Qabs (x - v) * 4000000000000000 <= Qabs v)%Q -> (round10 15 x == v)%Q.
Proof.
  intros Hv Hd Hx. destruct (Qlt_le_dec 0 v) as [Hpos|Hneg].
  - apply round10_near_pos; [exact Hpos | exact Hd |].
    rewrite (Qabs_pos v) in Hx by lra. exact Hx.
  - assert (Hlt : (0 < - v)%Q).
    { destruct (Qle_lt_or_eq _ _ Hneg) as [|He]; [lra | contradiction]. }
    pose proof (round10_near_pos (- v) (- x) Hlt (dec15_opp v Hd)) as H.
    rewrite (Qabs_neg v) in Hx by lra.
    assert (Ha : (Qabs (- x - - v) == Qabs (x - v))%Q).
    { rewrite <- Qabs_opp. apply Qabs_wd. ring. }
    rewrite Ha in H. specialize (H Hx).
    unfold round10 in *. rewrite roundTo_opp in H. lra.
Qed.

(** A double is within 1/8e15 of any value it rounds, above 1e-10. *)
Lemma f64_close v :
  ((1 # 10000000000) <= Qabs v)%Q -> (Qabs (f64 v - v) * 8000000000000000 <= Qabs v)%Q.
Proof.
  intros Hv.
  pose proof (roundTo_err_emin 2 53 (Some (-1074)) nearestHalfEven ltac:(lia)
                nearestHalfEven_rule v (-1074) eq_refl) as He. fold (f64 v) in He.
  pose proof (bpow_le 2 ltac:(lia) (-1074) (-200) ltac:(lia)) as Ht.
  change (bpow 2 (1 - 53)) with (1 # 4503599627370496)%Q in He.
  change (bpow 2 (-200)) with (1 # 1606938044258990275541962092341162602522202993782792835301376)%Q in Ht.
  lra.
Qed.

Lemma f64_zero v : (v == 0)%Q -> f64 v = 0%Q.
Proof.
  intros H. unfold f64, roundTo. apply Qeq_alt in H. rewrite H. reflexivity.
Qed.

(** The value a number prints as, for a number that is the double of a
    decimal of at most 15 digits, is that decimal. *)
Lemma shortestFrom_dec15 v : ((1 # 1000000000) <= Qabs v)%Q -> dec15 v ->
  forall n k, (1 <= k)%nat -> (k + n = 15)%nat ->
  forall fuel, (n < fuel)%nat -> (shortestFrom fuel k (f64 v) == v)%Q.
Proof.
  intros Hv Hd.
  assert (Hcv : (Qabs (f64 v - v) * 8000000000000000 <= Qabs v)%Q) by (apply f64_close; lra).
  assert (Hv0 : ~ (v == 0)%Q).
  { intros E. rewrite E in Hv. change (Qabs 0) with 0%Q in Hv. lra. }
  assert (H15 : (round10 15 (f64 v) == v)%Q).
  { apply round10_near; [exact Hv0 | exact Hd |].
    pose proof (Qabs_nonneg (f64 v - v)). lra. }
  assert (Hhit : forall k, (1 <= k <= 15)%nat ->
            (f64 (round10 k (f64 v)) == f64 v)%Q -> (round10 k (f64 v) == v)%Q).
  { intros k Hk Hf. set (c := round10 k (f64 v)) in *.
    pose proof (round10_dec15 k (f64 v) Hk) as Hdc. fold c in Hdc.
    assert (Hc : ((1 # 10000000000) <= Qabs c)%Q).
    { destruct (Qlt_le_dec (Qabs c) (1 # 10000000000)) as [Hlt|]; [exfalso|assumption].
      apply Qabs_Qlt_condition in Hlt as [Hc1 Hc2].
      pose proof (f64_mono _ _ (Qlt_le_weak _ _ Hc1)) as M1.
      pose proof (f64_mono _ _ (Qlt_le_weak _ _ Hc2)) as M2.
      assert (B1 : (- (2 # 10000000000) <= f64 (- (1 # 10000000000)))%Q)
        by (apply Qle_bool_imp_le; vm_compute; reflexivity).
      assert (B2 : (f64 (1 # 10000000000) <= 2 # 10000000000)%Q)
        by (apply Qle_bool_imp_le; vm_compute; reflexivity).
      assert (Habs : (Qabs v <= Qabs (f64 v - v) + Qabs (f64 v))%Q).
      { pose proof (Qabs_triangle (v - f64 v) (f64 v)) as T.
        rewrite (Qabs_Qminus (f64 v) v). eapply Qle_trans; [|exact T].
        apply Qle_lteq. right. apply Qabs_wd. ring. }
      assert (Qabs (f64 v) <= 2 # 10000000000)%Q by (apply Qabs_Qle_condition; split; lra).
      lra. }
    pose proof (f64_close c Hc) as Hcc. rewrite Hf in Hcc.
    rewrite <- H15. symmetry. apply round10_near; [|exact Hdc|].
    - intros E. rewrite E in Hc. change (Qabs 0) with 0%Q in Hc. lra.
    - pose proof (Qabs_nonneg (f64 v - c)). lra. }
  induction n as [|n IH]; intros k Hk Hkn fuel Hfuel;
    (destruct fuel as [|fuel]; [lia|]); cbn [shortestFrom];
    destruct (Qeq_bool (f64 (round10 k (f64 v))) (f64 v)) eqn:E.
  - apply Hhit; [lia | apply Qeq_bool_iff, E].
  - exfalso. apply Qeq_bool_neq in E. apply E.
    replace k with 15%nat by lia. rewrite H15. reflexivity.
  - apply Hhit; [lia | apply Qeq_bool_iff, E].
  - apply IH; lia.
Qed.

(** Money amounts below ten million XLM survive the trip through a number:
    [toDecimal(toNumber(d))] is [d]. *)
Lemma num_to_dec_unit z : Z.abs z < 10 ^ 15 -> (num_to_dec (f64 (unitQ z)) == unitQ z)%Q.
Proof.
  intros Hz. destruct (Z.eq_dec z 0) as [->|Hne].
  - vm_compute. reflexivity.
  - apply (shortestFrom_dec15 (unitQ z)) with (n := 14%nat); [|apply unitQ_dec15, Hz|lia..].
    unfold unitQ, Qabs, Qle; cbn [Qnum Qden]. lia.
Qed.
End RoundTrip.

(** ** Concrete instances

    The documented behaviour as executable functions: decimal.js at its
    default precision, and rounding half away from zero to eight decimals.
    They are not declared as instances: only the witnesses use them. *)

Module Concrete.
Definition round20 (q : Q) : Q := roundTo 10 20 None nearestHalfUp q.

Definition padLeft (n : nat) (s : string) : string :=
  String.append (String.concat "" (replicate (n - String.length s) "0"%string)) s.

Definition roundAway (q : Q) : Z :=
  match Qcompare q 0 with
  | Lt => - nearestHalfUp (- q)
  | _ => nearestHalfUp q
  end.

Definition toFixedString (places : nat) (q : Q) : string :=
  let s := 10 ^ Z.of_nat places in
  let n := roundAway (q * inject_Z s) in
  let a := Z.abs n in
  let sign := if n <? 0 then "-"%string else ""%string in
  let int := pretty (a / s) in
  match places with
  | O => String.append sign int
  | _ => String.append sign (String.append int
           (String.append "." (padLeft places (pretty (a mod s)))))
  end.

Definition column8 (q : Q) : Z := roundAway (q * 100000000).

Lemma roundAway_rule : NearestRule roundAway.
Proof.
  pose proof nearestHalfUp_rule as [Herr Hmono].
  split.
  - intros x. unfold roundAway. destruct (x ?= 0)%Q eqn:E; try apply Herr.
    specialize (Herr (- x)%Q). apply Qabs_Qle_condition in Herr.
    rewrite inject_Z_opp. apply Qabs_Qle_condition. lra.
  - intros x y H. unfold roundAway.
    assert (H0 : nearestHalfUp 0 = 0) by reflexivity.
    destruct (x ?= 0)%Q eqn:Ex; destruct (y ?= 0)%Q eqn:Ey; qcompare_hyps;
      try (apply Hmono; lra); try (exfalso; lra).
    + pose proof (Hmono 0%Q (- x)%Q ltac:(lra)). pose proof (Hmono 0%Q y ltac:(lra)). lia.
    + pose proof (Hmono (- y)%Q (- x)%Q ltac:(lra)). lia.
    + pose proof (Hmono 0%Q (- x)%Q ltac:(lra)). pose proof (Hmono 0%Q y ltac:(lra)). lia.
Qed.

Definition decimal20 : DecimalJs.
Proof.
  refine {| D_round := round20;
            D_add := fun a b => round20 (a + b);
            D_sub := fun a b => round20 (a - b);
            D_mul := fun a b => round20 (a * b);
            D_div := fun a b => round20 (a / b);
            D_toNumber := f64;
            D_toFixed := toFixedString |}.
  - reflexivity.
  - reflexivity.
  - reflexivity.
  - reflexivity.
  - intros x y H. apply roundTo_mono; [lia | lia | apply nearestHalfUp_rule | exact H].
  - intros x. pose proof (roundTo_rel_err 10 20 None nearestHalfUp ltac:(lia)
                            nearestHalfUp_rule x eq_refl) as H.
    change ((1 # 2) * bpow 10 (1 - 20))%Q with (1 # 20000000000000000000)%Q in H. exact H.
  - intros x m e Hx Hm.
    apply (roundTo_fix 10 20 None nearestHalfUp ltac:(lia) ltac:(lia) nearestHalfUp_rule x m e Hx Hm I).
  - reflexivity.
Defined.

Definition numeric8 : PgNumeric.
Proof.
  refine {| column := column8 |}.
  - intros x. apply (near_err _ roundAway_rule).
  - intros x y H. apply (near_mono _ roundAway_rule). lra.
Defined.

Example round20_third : (round20 (1 # 3) == 33333333333333333333 # 100000000000000000000)%Q.
Proof. vm_compute. reflexivity. Qed.
Example toFixed_ex : toFixedString 8 (-(5 # 4)) = "-1.25000000"%string.
Proof. vm_compute. reflexivity. Qed.
Example f64_point1 : (f64 (1 # 10) == 3602879701896397 # 36028797018963968)%Q.
Proof. vm_compute. reflexivity. Qed.
Example point1_plus_point2 :
  match num_add (Fin (f64 (1 # 10))) (Fin (f64 (2 # 10))) with
  | Fin x => Qeq_bool (num_to_dec x) (30000000000000004 # 100000000000000000)
  | _ => false
  end = true.
Proof. vm_compute. reflexivity. Qed.
End Concrete.
