(* ===== verification/Doubles.v ===== *)
(** * Facts about JavaScript numbers that are doubles

    What the range code relies on without saying so: subtracting two numbers
    gives a positive result exactly when the first is greater (gradual
    underflow), and turning numbers into decimals keeps their order. *)

From Stdlib Require Import ZArith QArith Qround Qabs Lqa Lia.
From stdpp Require Import base.
From S2P Require Import Prelude.
From S2P Require Import Rounding.
From S2P Require Import Numeric.

#[local] Open Scope Z_scope.

Definition isDouble (q : Q) : Prop := (f64 q == q)%Q.

(** The significand of a rounded positive number fits. *)
Lemma roundPos_significand q : (0 < q)%Q ->
  exists m e, (roundPos 2 53 (Some (-1074)%Z) nearestHalfEven q == inject_Z m * bpow 2 e)%Q /\
    Z.abs m < 2 ^ 53 /\ -1074 <= e.
Proof.
  intros Hq. unfold roundPos. set (e := quantum 2 53 (Some (-1074)) q).
  set (n := nearestHalfEven (q * bpow 2 (- e))).
  assert (He : -1074 <= e /\ expo 2 q - 52 <= e) by (unfold e, quantum; lia).
  destruct (expo_spec 2 ltac:(lia) q Hq) as [_ Hu].
  assert (Hx : (q * bpow 2 (- e) <= inject_Z (2 ^ 53))%Q).
  { rewrite <- bpow_nonneg_Z by lia. replace 53 with ((e + 53) + - e) by lia.
    rewrite (bpow_plus 2 ltac:(lia)). apply Qmult_le_compat_r.
    - apply Qlt_le_weak. eapply Qlt_le_trans; [exact Hu | apply bpow_le; lia].
    - apply Qlt_le_weak, bpow_pos. lia. }
  assert (Hn : n <= 2 ^ 53) by (apply (near_le_inject _ nearestHalfEven_rule), Hx).
  assert (Hn0 : 0 <= n).
  { apply (near_ge_inject _ nearestHalfEven_rule). apply Qmult_le_0_compat;
      [lra | apply Qlt_le_weak, bpow_pos; lia]. }
  destruct (Z.eq_dec n (2 ^ 53)) as [E|Hne].
  - exists 1, (53 + e). rewrite Qred_correct, E, (bpow_plus 2 ltac:(lia)), (bpow_nonneg_Z 2 53) by lia.
    split; [ring | lia].
  - exists n, e. rewrite Qred_correct. split; [reflexivity | lia].
Qed.

Lemma f64_double q : isDouble (f64 q).
Proof.
  unfold isDouble. assert (Hfix : forall x m e, (x == inject_Z m * bpow 2 e)%Q -> Z.abs m < 2 ^ 53 -> -1074 <= e ->
    (f64 x == x)%Q).
  { intros x m e Hx Hm He. apply (roundTo_fix 2 53 (Some (-1074)) nearestHalfEven ltac:(lia) ltac:(lia)
      nearestHalfEven_rule x m e Hx Hm He). }
  unfold f64 at 2 3, roundTo. destruct (Qcompare_spec q 0) as [H|H|H].
  - rewrite (f64_zero 0); reflexivity.
  - destruct (roundPos_significand (- q) ltac:(lra)) as (m & e & Hx & Hm & He).
    apply (Hfix _ (- m) e); [rewrite Qred_correct, Hx, inject_Z_opp; ring | lia | exact He].
  - destruct (roundPos_significand q H) as (m & e & Hx & Hm & He). exact (Hfix _ m e Hx Hm He).
Qed.

Lemma f64_grid q : exists n, (f64 q == inject_Z n * bpow 2 (-1074))%Q.
Proof.
  assert (Hpos : forall x, exists n,
            (roundPos 2 53 (Some (-1074)%Z) nearestHalfEven x == inject_Z n * bpow 2 (-1074))%Q).
  { intros x. unfold roundPos. set (e := quantum 2 53 (Some (-1074)) x).
    assert (He : -1074 <= e) by (unfold e, quantum; lia).
    exists (nearestHalfEven (x * bpow 2 (- e)) * 2 ^ (e + 1074)).
    rewrite Qred_correct, inject_Z_mult, <- bpow_nonneg_Z by lia.
    rewrite <- Qmult_assoc, <- bpow_plus by lia.
    replace (e + 1074 + -1074) with e by lia. reflexivity. }
  unfold f64, roundTo. destruct (q ?= 0)%Q.
  - exists 0. reflexivity.
  - destruct (Hpos (- q)%Q) as [n Hn]. exists (- n). rewrite Qred_correct, Hn, inject_Z_opp. ring.
  - apply Hpos.
Qed.

Lemma f64_tiny : (f64 (bpow 2 (-1074)) == bpow 2 (-1074))%Q.
Proof.
  apply (roundTo_fix 2 53 (Some (-1074)) nearestHalfEven ltac:(lia) ltac:(lia)
           nearestHalfEven_rule (bpow 2 (-1074)) 1 (-1074)).
  - ring.
  - reflexivity.
  - lia.
Qed.

(** Gradual underflow: the difference of two doubles keeps its sign. *)
Lemma f64_sub_pos x y : isDouble x -> isDouble y -> (x < y)%Q <-> (0 < f64 (y - x))%Q.
Proof.
  unfold isDouble. intros Hx Hy. split.
  - intros Hlt. destruct (f64_grid x) as [n Hn], (f64_grid y) as [m Hm].
    rewrite Hx in Hn. rewrite Hy in Hm.
    pose proof (bpow_pos 2 ltac:(lia) (-1074)) as Hu.
    assert (Hnm : n < m).
    { rewrite Zlt_Qlt. apply (Qmult_lt_r _ _ _ Hu). rewrite <- Hn, <- Hm. exact Hlt. }
    assert (Hge : (bpow 2 (-1074) <= y - x)%Q).
    { rewrite Hn, Hm. assert (H1 : (1 <= inject_Z m - inject_Z n)%Q).
      { unfold Qminus. rewrite <- inject_Z_opp, <- inject_Z_plus. change 1%Q with (inject_Z 1).
        rewrite <- Zle_Qle. lia. }
      nra. }
    pose proof (f64_mono _ _ Hge) as Hmn. rewrite f64_tiny in Hmn. lra.
  - intros Hpos. destruct (Qlt_le_dec x y) as [|Hle]; [assumption|]. exfalso.
    assert (Hle0 : (y - x <= 0)%Q) by lra. pose proof (f64_mono _ _ Hle0) as Hmn.
    rewrite (f64_zero 0 (Qeq_refl 0)) in Hmn. lra.
Qed.

Lemma f64_neg_tiny : (f64 (- bpow 2 (-1074)) == - bpow 2 (-1074))%Q.
Proof.
  apply (roundTo_fix 2 53 (Some (-1074)) nearestHalfEven ltac:(lia) ltac:(lia)
           nearestHalfEven_rule (- bpow 2 (-1074)) (-1) (-1074)).
  - ring.
  - reflexivity.
  - lia.
Qed.

Lemma f64_sub_neg x y : isDouble x -> isDouble y -> (y < x)%Q -> (f64 (y - x) < 0)%Q.
Proof.
  unfold isDouble. intros Hx Hy Hlt. destruct (f64_grid x) as [n Hn], (f64_grid y) as [m Hm].
  rewrite Hx in Hn. rewrite Hy in Hm.
  pose proof (bpow_pos 2 ltac:(lia) (-1074)) as Hu.
  assert (Hnm : m < n).
  { rewrite Zlt_Qlt. apply (Qmult_lt_r _ _ _ Hu). rewrite <- Hn, <- Hm. exact Hlt. }
  assert (Hge : (y - x <= - bpow 2 (-1074))%Q).
  { rewrite Hn, Hm. assert (H1 : (1 <= inject_Z n - inject_Z m)%Q).
    { unfold Qminus. rewrite <- inject_Z_opp, <- inject_Z_plus. change 1%Q with (inject_Z 1).
      rewrite <- Zle_Qle. lia. }
    nra. }
  pose proof (f64_mono _ _ Hge) as Hmn. rewrite f64_neg_tiny in Hmn. lra.
Qed.

(** Reading a printed number back gives the number. *)
Lemma f64_shortestFrom x fuel : isDouble x -> forall k, (f64 (shortestFrom fuel k x) == x)%Q.
Proof.
  intros Hx. induction fuel as [|fuel IH]; intros k; cbn [shortestFrom]; [exact Hx|].
  destruct (Qeq_bool (f64 (round10 k x)) x) eqn:E; [apply Qeq_bool_iff, E | apply IH].
Qed.

Lemma f64_num_to_dec x : isDouble x -> (f64 (num_to_dec x) == x)%Q.
Proof. intros Hx. apply f64_shortestFrom, Hx. Qed.

Lemma shortestFrom_proper x y fuel :
  (x == y)%Q -> forall k, (shortestFrom fuel (S k) x == shortestFrom fuel (S k) y)%Q.
Proof.
  intros Hxy.
  assert (Hr : forall k, (round10 (S k) x == round10 (S k) y)%Q).
  { intros k. unfold round10.
    pose proof (roundTo_proper 10 (Z.of_nat (S k)) None nearestHalfUp ltac:(lia) ltac:(lia)
                  nearestHalfUp_rule) as Hp.
    apply Hp, Hxy. }
  induction fuel as [|fuel IH]; intros k; cbn [shortestFrom]; [exact Hxy|].
  assert (Hf : (f64 (round10 (S k) x) == f64 (round10 (S k) y))%Q) by (rewrite (Hr k); reflexivity).
  destruct (Qeq_bool (f64 (round10 (S k) x)) x) eqn:E1, (Qeq_bool (f64 (round10 (S k) y)) y) eqn:E2.
  - apply Hr.
  - exfalso. apply Qeq_bool_neq in E2. apply Qeq_bool_iff in E1. lra.
  - exfalso. apply Qeq_bool_neq in E1. apply Qeq_bool_iff in E2. lra.
  - apply IH.
Qed.

#[export] Instance num_to_dec_proper : Proper (Qeq ==> Qeq) num_to_dec.
Proof. intros x y Hxy. apply shortestFrom_proper, Hxy. Qed.

Lemma num_to_dec_lt x y : isDouble x -> isDouble y -> (x < y)%Q -> (num_to_dec x < num_to_dec y)%Q.
Proof.
  intros Hx Hy Hlt. destruct (Qlt_le_dec (num_to_dec x) (num_to_dec y)) as [|Hle]; [assumption|].
  exfalso. apply f64_mono in Hle. rewrite !f64_num_to_dec in Hle by assumption. lra.
Qed.

Lemma num_to_dec_le x y : isDouble x -> isDouble y -> (x <= y)%Q -> (num_to_dec x <= num_to_dec y)%Q.
Proof.
  intros Hx Hy Hle. apply Qle_lteq in Hle as [Hlt|He].
  - apply Qlt_le_weak, num_to_dec_lt; assumption.
  - rewrite He. lra.
Qed.

Lemma num_to_dec_inj x y :
  isDouble x -> isDouble y -> (num_to_dec x == num_to_dec y)%Q -> (x == y)%Q.
Proof.
  intros Hx Hy He. rewrite <- (f64_num_to_dec x Hx), <- (f64_num_to_dec y Hy), He. reflexivity.
Qed.

Lemma Qltb_iff x y : Qltb x y = true <-> (x < y)%Q.
Proof.
  unfold Qltb. rewrite negb_true_iff. split.
  - intros Hf. apply Qnot_le_lt. intros Hle. apply Qle_bool_iff in Hle. congruence.
  - intros Hlt. apply not_true_iff_false. intros Hle. apply Qle_bool_iff in Hle. lra.
Qed.

Lemma Qltb_false_iff x y : Qltb x y = false <-> (y <= x)%Q.
Proof.
  unfold Qltb. rewrite negb_false_iff. apply Qle_bool_iff.
Qed.

(** The sort key [a - b > 0] orders finite doubles. *)
Lemma num_sub_pos x y :
  isDouble x -> isDouble y -> num_lt (Fin 0) (num_sub (Fin y) (Fin x)) = Qltb x y.
Proof.
  intros Hx Hy. unfold num_sub, num_add, num_neg.
  assert (Hz : (f64 (y + Qred (- x)) == f64 (y - x))%Q) by (rewrite Qred_correct; reflexivity).
  pose proof (f64_sub_pos x y Hx Hy) as Hs.
  unfold num_of_Q. destruct (Qle_bool two1024 (f64 (y + Qred (- x)))) eqn:E1.
  - cbn. symmetry. apply Qltb_iff, Hs. apply Qle_bool_iff in E1. rewrite <- Hz.
    eapply Qlt_le_trans; [|exact E1]. reflexivity.
  - destruct (Qle_bool (f64 (y + Qred (- x))) (- two1024)) eqn:E2.
    + cbn. symmetry. apply Qltb_false_iff. apply Qle_bool_iff in E2. rewrite Hz in E2.
      apply Qnot_lt_le. intros Hlt. apply Hs in Hlt.
      assert (- two1024 < 0)%Q by reflexivity. lra.
    + cbn. apply eq_iff_eq_true. rewrite !Qltb_iff, Hz, Hs. reflexivity.
Qed.

(** [a - b !== 0] tells finite doubles apart. *)
Lemma num_sub_zero x y :
  isDouble x -> isDouble y -> num_eq (num_sub (Fin y) (Fin x)) (Fin 0) = Qeq_bool x y.
Proof.
  intros Hx Hy. unfold num_sub, num_add, num_neg.
  assert (Hz : (f64 (y + Qred (- x)) == f64 (y - x))%Q) by (rewrite Qred_correct; reflexivity).
  assert (Hd : (x == y)%Q <-> (f64 (y - x) == 0)%Q).
  { split.
    - intros E. rewrite (f64_zero (y - x)); [reflexivity | lra].
    - intros E. destruct (Qlt_le_dec x y) as [Hlt|Hle]; [apply f64_sub_pos in Hlt; [lra | assumption..]|].
      destruct (Qlt_le_dec y x) as [Hlt|Hle']; [apply f64_sub_neg in Hlt; [lra | assumption..] | lra]. }
  assert (Hbig : (0 < two1024)%Q) by reflexivity.
  unfold num_of_Q. destruct (Qle_bool two1024 (f64 (y + Qred (- x)))) eqn:E1;
    [|destruct (Qle_bool (f64 (y + Qred (- x))) (- two1024)) eqn:E2]; cbn.
  - apply Qle_bool_iff in E1. symmetry. apply not_true_iff_false. rewrite Qeq_bool_iff, Hd. lra.
  - apply Qle_bool_iff in E2. symmetry. apply not_true_iff_false. rewrite Qeq_bool_iff, Hd. lra.
  - apply eq_iff_eq_true. rewrite !Qeq_bool_iff, Hd, Hz. reflexivity.
Qed.
