(* ===== verification/Payout.v ===== *)
(** * Payout arithmetic (src/src/utils/payout.util.ts)

    A winner's payout and the conversion between XLM and stroops, on the
    decimal helpers of Numeric.v; what the payouts of one settlement add up to,
    and that stroops survive the trip through a JavaScript number. *)

From Stdlib Require Import ZArith QArith Qabs Qround Lqa Lia.
From stdpp Require Import base list.
From S2P Require Import Prelude.
From S2P Require Import Rounding.
From S2P Require Import Numeric.
From S2P Require Import Doubles.

#[local] Open Scope Z_scope.

Section Payout.
Context `{DecimalJs}.

Definition STROOPS_PER_XLM : Z := 10000000.

Definition calculatePayout (stake winningPool losingPool : Q) : Q :=
  if Qeq_bool winningPool 0 then stake
  else
    let shareOfLosingPool := decMul (decDiv stake winningPool) losingPool in
    decAdd stake shareOfLosingPool.

Definition stroopsToXlm (stroops : Z) : Q :=
  f64 (f64 (inject_Z stroops) / inject_Z STROOPS_PER_XLM).

(** [BigInt(d.toFixed(0))]: rounded half up to an integer. *)
Definition toFixed0 (d : Q) : Z :=
  match Qcompare d 0 with
  | Lt => - nearestHalfUp (- d)
  | _ => nearestHalfUp d
  end.

Definition xlmToStroops (amount : Q) : Z :=
  toFixed0 (D_mul (toDecimal amount) (inject_Z STROOPS_PER_XLM)).
End Payout.

(** ** Stroops *)

Section Stroops.
Context `{DecimalJs}.

Lemma toFixed0_integer d z : (d == inject_Z z)%Q -> toFixed0 d = z.
Proof.
  intros Hd. unfold toFixed0. destruct (Qcompare_spec d 0);
    try (apply (near_inject _ nearestHalfUp_rule), Hd).
  rewrite (near_inject _ nearestHalfUp_rule (- d) (- z)); [lia|].
  rewrite Hd, inject_Z_opp. reflexivity.
Qed.

Lemma f64_integer z : Z.abs z < 2 ^ 53 -> (f64 (inject_Z z) == inject_Z z)%Q.
Proof.
  intros Hz. apply (roundTo_fix 2 53) with (m := z) (e := 0);
    [lia | lia | apply nearestHalfEven_rule | change (bpow 2 0) with 1%Q; ring | exact Hz | lia].
Qed.

Lemma stroopsToXlm_exact z : Z.abs z < 10 ^ 14 -> (stroopsToXlm z == f64 (unitQ (10 * z)))%Q.
Proof.
  intros Hz. unfold stroopsToXlm. rewrite (f64_integer z) by lia.
  apply f64_proper. unfold unitQ, STROOPS_PER_XLM, Qeq, Qdiv, Qmult, Qinv, inject_Z; cbn -[Z.mul]. lia.
Qed.

(** Stroops survive the trip through a JavaScript number of XLM: amounts
    below ten million XLM convert to a number and back without losing a
    stroop. *)
Theorem stroops_roundtrip z : Z.abs z < 10 ^ 14 -> xlmToStroops (stroopsToXlm z) = z.
Proof.
  intros Hz. unfold xlmToStroops, toDecimal. apply toFixed0_integer.
  rewrite D_mul_spec.
  assert (E : (num_to_dec (stroopsToXlm z) * inject_Z STROOPS_PER_XLM == inject_Z z)%Q).
  { rewrite (stroopsToXlm_exact z Hz), num_to_dec_unit by lia.
    unfold unitQ, STROOPS_PER_XLM, Qeq, Qmult, inject_Z; cbn -[Z.mul]. lia. }
  rewrite (D_round_fix _ z 0); [exact E | | lia].
  rewrite E. change (bpow 10 0) with 1%Q. ring.
Qed.
End Stroops.

(** ** What a settlement pays *)

Section Payouts.
Context `{DecimalJs}.

Local Open Scope Q_scope.

Definition delta : Q := 1 # 20000000000000000000.

Lemma D_round_nonneg x : 0 <= x -> 0 <= D_round x.
Proof.
  intros Hx. pose proof (D_round_mono 0 x Hx) as Hm.
  assert (H0' : D_round 0 == 0) by (apply (D_round_fix 0 0%Z 0%Z); [reflexivity | reflexivity]).
  lra.
Qed.

Lemma D_round_bounds x : 0 <= x -> x * (1 - delta) <= D_round x <= x * (1 + delta).
Proof.
  intros Hx. pose proof (D_round_err x) as He. rewrite (Qabs_pos x Hx) in He.
  apply Qabs_Qle_condition in He. fold delta in He. lra.
Qed.

(** The exact share: the stake and its part of the losing pool. *)
Definition exactPayout (stake winningPool losingPool : Q) : Q :=
  stake + stake / winningPool * losingPool.

Lemma calculatePayout_bounds s wp lp :
  0 <= s -> 0 < wp -> 0 <= lp ->
  exactPayout s wp lp * (1 - 4 * delta) <= calculatePayout s wp lp <= exactPayout s wp lp * (1 + 4 * delta).
Proof.
  intros Hs Hw Hl. unfold calculatePayout, exactPayout.
  destruct (Qeq_bool wp 0) eqn:E; [apply Qeq_bool_iff in E; lra|].
  assert (Hw0 : ~ wp == 0) by lra. unfold decAdd, decMul, decDiv.
  rewrite D_add_spec, D_mul_spec, (D_div_spec s wp Hw0).
  assert (Hq : 0 <= s / wp) by (apply Qle_shift_div_l; lra).
  set (q := s / wp) in *. pose proof (D_round_bounds q Hq) as [Q1 Q2].
  pose proof (D_round_nonneg q Hq) as Q0. set (q' := D_round q) in *.
  assert (HA : 0 <= q * lp) by (apply Qmult_le_0_compat; assumption).
  assert (HX : 0 <= q' * lp) by (apply Qmult_le_0_compat; assumption).
  assert (X1 : q * lp * (1 - delta) <= q' * lp).
  { assert (E1 : q * lp * (1 - delta) == q * (1 - delta) * lp) by ring. rewrite E1.
    apply Qmult_le_compat_r; assumption. }
  assert (X2 : q' * lp <= q * lp * (1 + delta)).
  { assert (E1 : q * lp * (1 + delta) == q * (1 + delta) * lp) by ring. rewrite E1.
    apply Qmult_le_compat_r; assumption. }
  pose proof (D_round_bounds (q' * lp) HX) as [M1 M2].
  pose proof (D_round_nonneg (q' * lp) HX) as M0.
  set (m := D_round (q' * lp)) in *. set (A := q * lp) in *. set (X := q' * lp) in *.
  pose proof (D_round_bounds (s + m) ltac:(lra)) as [P1 P2].
  set (p := D_round (s + m)) in *. unfold delta in *. split; lra.
Qed.

Definition sumQ (l : list Q) : Q := foldr Qplus 0 l.

Lemma sumQ_exact wp lp l : 0 < wp -> sumQ (map (fun s => exactPayout s wp lp) l) == exactPayout (sumQ l) wp lp.
Proof.
  intros Hw. induction l as [|s l IH]; cbn.
  - unfold exactPayout. field. lra.
  - unfold sumQ in *. rewrite IH. unfold exactPayout. field. lra.
Qed.

(** C4. What a settlement pays out. Each winner gets at least the stake, and
    when the winners' stakes add up to the winning pool the payouts add up to
    both pools, within a relative 2e-19 (three roundings of a decimal of
    twenty digits). *)
Theorem payouts_add_up (stakes : list Z) (wp lp : Q) :
  (forall z, z ∈ stakes -> (0 <= z < 10 ^ 15)%Z) -> 0 < wp -> 0 <= lp ->
  sumQ (map unitQ stakes) == wp ->
  (forall z, z ∈ stakes -> unitQ z <= calculatePayout (unitQ z) wp lp) /\
  Qabs (sumQ (map (fun z => calculatePayout (unitQ z) wp lp) stakes) - (wp + lp))
    <= (wp + lp) * (1 # 5000000000000000000).
Proof.
  intros Hst Hw Hl Hsum.
  assert (Hpos : forall z, z ∈ stakes -> 0 <= unitQ z).
  { intros z Hz. destruct (Hst z Hz) as [Hz0 _]. unfold unitQ, Qle; cbn. lia. }
  split.
  - intros z Hz. pose proof (Hpos z Hz) as Hs. unfold calculatePayout.
    destruct (Qeq_bool wp 0) eqn:E; [lra|]. assert (Hw0 : ~ wp == 0) by lra.
    unfold decAdd, decMul, decDiv. rewrite D_add_spec, D_mul_spec, (D_div_spec _ _ Hw0).
    assert (Hm : 0 <= D_round (D_round (unitQ z / wp) * lp)).
    { apply D_round_nonneg, Qmult_le_0_compat; [|exact Hl]. apply D_round_nonneg.
      apply Qle_shift_div_l; lra. }
    assert (Hfix : D_round (unitQ z) == unitQ z).
    { apply (D_round_fix (unitQ z) z (-8)%Z); [|specialize (Hst z Hz); lia].
      change (bpow 10 (-8)%Z) with (1 # 100000000). unfold unitQ, Qeq, inject_Z; cbn. lia. }
    set (m := D_round (D_round (unitQ z / wp) * lp)) in *.
    assert (Hle : unitQ z <= unitQ z + m) by lra.
    apply D_round_mono in Hle. lra.
  - assert (Hb : forall l, (forall z, z ∈ l -> 0 <= unitQ z) ->
              let e := sumQ (map (fun z => exactPayout (unitQ z) wp lp) l) in
              e * (1 - 4 * delta) <= sumQ (map (fun z => calculatePayout (unitQ z) wp lp) l)
              <= e * (1 + 4 * delta)).
    { induction l as [|z l IH]; intros Hp; cbn; [lra|].
      pose proof (calculatePayout_bounds (unitQ z) wp lp (Hp z ltac:(left)) Hw Hl) as Hz.
      specialize (IH ltac:(intros y Hy; apply Hp; right; exact Hy)). cbn in IH. unfold sumQ in *. lra. }
    specialize (Hb stakes Hpos). cbv zeta in Hb.
    assert (He : sumQ (map (fun z => exactPayout (unitQ z) wp lp) stakes) == wp + lp).
    { rewrite <- (map_map unitQ (fun s => exactPayout s wp lp)), sumQ_exact by exact Hw.
      unfold exactPayout. rewrite Hsum. field. lra. }
    rewrite He in Hb. apply Qabs_Qle_condition. unfold delta in Hb. split; lra.
Qed.
End Payouts.
