(* ===== verification/Errors.v ===== *)
(** * Application errors (src/src/utils/errors.ts)

    Every error the services throw is a value of [Err]: its class, its
    message, its machine-readable code and its HTTP status. The constructors
    are the [AppError] subclasses; [PlainError] is JavaScript's [Error], and
    [PrismaError] is what the database client throws, with its code. *)

From stdpp Require Import base strings pretty.
From S2P Require Import Prelude.

Inductive ErrClass : Type :=
| ClsError
| ClsPrisma
| ClsValidation
| ClsAuthentication
| ClsAuthorization
| ClsNotFound
| ClsConflict
| ClsTournamentInvalidState
| ClsIllegalRoundTransition
| ClsBusinessRule
| ClsExternalService
| ClsBackpressure
| ClsConfiguration
| ClsCircuitBreakerOpen.

#[export] Instance ErrClass_eq_dec : EqDecision ErrClass.
Proof. solve_decision. Defined.

Record Err : Type := mkErr {
  err_class : ErrClass;
  err_message : string;
  err_code : string;
  err_status : Z;
}.

#[export] Instance Err_eq_dec : EqDecision Err.
Proof. solve_decision. Defined.

(** Values of the [ErrorCode] enum used by the modelled services. *)
Definition NOT_FOUND : string := "NOT_FOUND".
Definition CONFLICT : string := "CONFLICT".
Definition BUSINESS_RULE_VIOLATION : string := "BUSINESS_RULE_VIOLATION".
Definition EXTERNAL_SERVICE_ERROR : string := "EXTERNAL_SERVICE_ERROR".
Definition INSUFFICIENT_FUNDS : string := "INSUFFICIENT_FUNDS".
Definition ROUND_NOT_ACTIVE : string := "ROUND_NOT_ACTIVE".
Definition DUPLICATE_PREDICTION : string := "DUPLICATE_PREDICTION".
Definition ACTIVE_ROUND_EXISTS : string := "ACTIVE_ROUND_EXISTS".
Definition IDEMPOTENCY_KEY_CONFLICT : string := "IDEMPOTENCY_KEY_CONFLICT".
Definition CONTRACT_INVALID_STATE : string := "CONTRACT_INVALID_STATE".
Definition TOURNAMENT_INVALID_STATE : string := "TOURNAMENT_INVALID_STATE".

Definition AUTHENTICATION_ERROR : string := "AUTHENTICATION_ERROR".
Definition INVALID_CHALLENGE : string := "INVALID_CHALLENGE".
Definition CHALLENGE_EXPIRED : string := "CHALLENGE_EXPIRED".
Definition CHALLENGE_USED : string := "CHALLENGE_USED".
Definition INVALID_SIGNATURE : string := "INVALID_SIGNATURE".

Definition PlainError (msg : string) : Err := mkErr ClsError msg "" 500.
Definition PrismaError (code : string) : Err := mkErr ClsPrisma "" code 500.

Definition ValidationError (msg : string) : Err :=
  mkErr ClsValidation msg "VALIDATION_ERROR" 400.
Definition AuthenticationError (msg code : string) : Err := mkErr ClsAuthentication msg code 401.
Definition NotFoundError (msg code : string) : Err := mkErr ClsNotFound msg code 404.
Definition ConflictError (msg code : string) : Err := mkErr ClsConflict msg code 409.
Definition BusinessRuleError (msg code : string) : Err := mkErr ClsBusinessRule msg code 422.
Definition ExternalServiceError (msg code : string) : Err :=
  mkErr ClsExternalService msg code 503.
Definition BackpressureError (msg : string) (retryAfterSeconds : Z) : Err :=
  mkErr ClsBackpressure msg EXTERNAL_SERVICE_ERROR 503.

Definition TournamentInvalidStateError (from to : string) : Err :=
  mkErr ClsTournamentInvalidState
    ("Invalid tournament state: cannot " +:+ to +:+ " a " +:+ from +:+ " tournament.")
    TOURNAMENT_INVALID_STATE 409.

Definition IllegalRoundTransitionError (from to : string) (message : option string) : Err :=
  mkErr ClsIllegalRoundTransition
    (match message with
     | Some m => m
     | None => "Illegal round transition: cannot transition a " +:+ from +:+
               " round to " +:+ to +:+ "."
     end)
    CONFLICT 409.

(** The breaker's own error; it extends [Error], not [AppError]. The quotes
    around the name and the ISO form of the date are not reproduced. *)
Definition CircuitBreakerOpenError (name : string) (nextAttemptAt : Z) : Err :=
  mkErr ClsCircuitBreakerOpen
    ("Circuit breaker " +:+ name +:+ " is open until " +:+ pretty nextAttemptAt) "" 500.

(** The message a chain call that timed out ends up with. *)
Definition TIMED_OUT_MESSAGE : string := "Contract operation timed out.".

(** [mapSorobanError]: raw contract messages become fixed, safe errors. *)
Definition mapSorobanError (errorMsg : option string) : Err :=
  let msg := toLowerCase (default ""%string errorMsg) in
  if includes msg "insufficient funds" then
    BusinessRuleError "Insufficient funds for contract operation." INSUFFICIENT_FUNDS
  else if includes msg "no pending" || includes msg "nothing to claim"
          || includes msg "already claimed" then
    BusinessRuleError "No claimable winnings available." CONTRACT_INVALID_STATE
  else if includes msg "invalid state" then
    BusinessRuleError "Contract operation rejected due to invalid state." CONTRACT_INVALID_STATE
  else if includes msg "timeout" then
    ExternalServiceError TIMED_OUT_MESSAGE EXTERNAL_SERVICE_ERROR
  else if includes msg "circuit breaker" then
    ExternalServiceError "Contract service temporarily unavailable. Please retry shortly."
      EXTERNAL_SERVICE_ERROR
  else
    ExternalServiceError "An unexpected contract error occurred." EXTERNAL_SERVICE_ERROR.

(** Whatever the chain said, the mapped message does not mention a timeout:
    the word is lost in the translation ("timed out"). *)
Lemma mapSorobanError_hides_timeout m :
  includes (toLowerCase (err_message (mapSorobanError m))) "timeout" = false.
Proof.
  unfold mapSorobanError.
  repeat match goal with |- context [if ?c then _ else _] => destruct c end; reflexivity.
Qed.
