(* ===== verification/CircuitBreaker.v ===== *)
(** * Circuit breaker (src/src/utils/circuit-breaker.ts)

    The class's private fields are the record [Breaker]; [beforeCall],
    [onSuccess] and [onFailure] are the three atomic steps JavaScript runs
    between awaits, and [execute] composes them around an operation. Because
    operations overlap, the guarantees are stated over interleavings: [bstep]
    is one atomic step of any number of concurrent [execute] calls. *)

From Stdlib Require Import ZArith Lia.
From stdpp Require Import base list strings.
From S2P Require Import Prelude.
From S2P Require Import Errors.

#[local] Open Scope Z_scope.

Inductive CircuitBreakerState : Type := closed | open_ | half_open.

#[export] Instance CircuitBreakerState_eq_dec : EqDecision CircuitBreakerState.
Proof. solve_decision. Defined.

Record CircuitBreakerOptions : Type := {
  bo_name : string;
  failureThreshold : Z;
  openBackoffMs : Z;
  halfOpenMaxCalls : Z;
}.

Record Breaker : Type := mkBreaker {
  b_state : CircuitBreakerState;
  failureCount : Z;
  openedAtMs : option Z;
  nextAttemptAtMs : option Z;
  halfOpenInFlight : Z;
}.

(** The fields as the constructor initialises them. *)
Definition newBreaker : Breaker := mkBreaker closed 0 None None 0.

(** Logging and metrics aside, a transition only assigns the state. *)
Definition transitionTo (nextState : CircuitBreakerState) (b : Breaker) : Breaker :=
  if decide (b_state b = nextState) then b else b {{ b_state := nextState }}.

Section Steps.
Context (o : CircuitBreakerOptions).

Definition openError (now : Z) (b : Breaker) : Err :=
  CircuitBreakerOpenError (bo_name o) (default (now + openBackoffMs o) (nextAttemptAtMs b)).

(** Admission to the half-open state. *)
Definition admitHalfOpen (now : Z) (b : Breaker) : (Err + unit) * Breaker :=
  match b_state b with
  | half_open =>
      if halfOpenMaxCalls o <=? halfOpenInFlight b then (inl (openError now b), b)
      else (inr tt, b {{ halfOpenInFlight := halfOpenInFlight b + 1 }})
  | _ => (inr tt, b)
  end.

Definition beforeCall (now : Z) (b : Breaker) : (Err + unit) * Breaker :=
  match b_state b with
  | open_ =>
      match nextAttemptAtMs b with
      | Some t =>
          if t <=? now then admitHalfOpen now (transitionTo half_open b)
          else (inl (openError now b), b)
      | None => (inl (openError now b), b)
      end
  | _ => admitHalfOpen now b
  end.

Definition onSuccess (b : Breaker) : Breaker :=
  match b_state b with
  | half_open =>
      transitionTo closed
        (b {{ halfOpenInFlight := Z.max 0 (halfOpenInFlight b - 1);
              failureCount := 0; openedAtMs := None; nextAttemptAtMs := None }})
  | _ => b {{ failureCount := 0 }}
  end.

Definition openBreaker (now : Z) (b : Breaker) : Breaker :=
  transitionTo open_
    (b {{ openedAtMs := Some now; nextAttemptAtMs := Some (now + openBackoffMs o) }}).

Definition onFailure (now : Z) (b : Breaker) : Breaker :=
  match b_state b with
  | half_open =>
      openBreaker now (b {{ halfOpenInFlight := Z.max 0 (halfOpenInFlight b - 1) }})
  | _ =>
      let b := b {{ failureCount := failureCount b + 1 }} in
      if failureThreshold o <=? failureCount b then openBreaker now b else b
  end.

Definition reset (b : Breaker) : Breaker :=
  transitionTo closed (mkBreaker (b_state b) 0 None None 0).
End Steps.

(** ** [execute] over a world that holds the breaker and a clock *)

Class HasBreaker (W : Type) := {
  getBreaker : W -> Breaker;
  setBreaker : Breaker -> W -> W;
  breakerClock : W -> Z;
}.

Section Execute.
Context {W : Type} `{HasBreaker W} (o : CircuitBreakerOptions).

Definition execute {A} (operation : M W Err A) : M W Err A := fun w =>
  match beforeCall o (breakerClock w) (getBreaker w) with
  | (inl e, b) => (inl e, setBreaker b w)
  | (inr _, b) =>
      match operation (setBreaker b w) with
      | (inr a, w') => (inr a, setBreaker (onSuccess (getBreaker w')) w')
      | (inl e, w') =>
          (inl e, setBreaker (onFailure o (breakerClock w') (getBreaker w')) w')
      end
  end.
End Execute.

(** ** Interleaved calls *)

Section Interleaving.
Context (o : CircuitBreakerOptions).

(** One atomic step of the callers of one breaker, at some time. A call that
    was admitted finishes at any later point, in any order. *)
Inductive bstep : Breaker * nat -> Breaker * nat -> Prop :=
| bs_admit now b b' n :
    beforeCall o now b = (inr tt, b') -> bstep (b, n) (b', S n)
| bs_reject now b b' e n :
    beforeCall o now b = (inl e, b') -> bstep (b, n) (b', n)
| bs_success b n : bstep (b, S n) (onSuccess b, n)
| bs_failure now b n : bstep (b, S n) (onFailure o now b, n)
| bs_reset b n : bstep (b, n) (reset b, n).

Inductive breachable : Breaker * nat -> Prop :=
| br_init : breachable (newBreaker, 0%nat)
| br_step s s' : breachable s -> bstep s s' -> breachable s'.

(** What holds of the fields at every point. *)
Record breaker_inv (b : Breaker) : Prop := {
  bi_inflight : 0 <= halfOpenInFlight b <= Z.max 0 (halfOpenMaxCalls o);
  bi_closed : b_state b = closed -> 0 <= failureCount b < Z.max 1 (failureThreshold o);
  bi_open : b_state b = open_ -> exists t,
    openedAtMs b = Some t /\ nextAttemptAtMs b = Some (t + openBackoffMs o);
}.

Ltac breaker_cases :=
  unfold onSuccess, onFailure, reset, openBreaker, transitionTo; cbn;
  repeat match goal with
  | |- context [decide ?P] => destruct (decide P); cbn in *
  | |- context [Z.leb ?x ?y] => destruct (Z.leb_spec x y); cbn in *
  end; try discriminate.

Lemma admitHalfOpen_inv now b r b' :
  b_state b <> open_ -> breaker_inv b -> admitHalfOpen o now b = (r, b') -> breaker_inv b'.
Proof.
  intros Hn [H1 H2 H3] E. unfold admitHalfOpen in E.
  destruct b as [st fc oa na hf]; cbn in *.
  destruct st; cbn in *; try (injection E as <- <-; split; cbn; auto; congruence).
  destruct (Z.leb_spec (halfOpenMaxCalls o) hf); injection E as <- <-;
    (split; cbn; [lia | congruence | congruence]).
Qed.

Lemma beforeCall_inv now b r b' :
  breaker_inv b -> beforeCall o now b = (r, b') -> breaker_inv b'.
Proof.
  intros H E. unfold beforeCall in E. destruct (b_state b) eqn:Hst.
  - apply (admitHalfOpen_inv now b r); [rewrite Hst; discriminate | exact H | exact E].
  - destruct (nextAttemptAtMs b) as [t|]; [destruct (t <=? now)|];
      try (injection E as <- <-; exact H).
    apply (admitHalfOpen_inv now (transitionTo half_open b) r); [| |exact E].
    + unfold transitionTo. rewrite Hst. destruct b; cbn in *. discriminate.
    + unfold transitionTo. rewrite Hst. destruct H as [H1 H2 H3].
      destruct b; cbn in *. subst. split; cbn; [exact H1 | discriminate | discriminate].
  - apply (admitHalfOpen_inv now b r); [rewrite Hst; discriminate | exact H | exact E].
Qed.

Lemma onSuccess_inv b : breaker_inv b -> breaker_inv (onSuccess b).
Proof.
  intros [H1 H2 H3]. destruct b as [st fc oa na hf]; cbn in *.
  destruct st; breaker_cases; (split; cbn; [lia | intros; lia | try exact H3; discriminate]).
Qed.

Lemma onFailure_inv now b : breaker_inv b -> breaker_inv (onFailure o now b).
Proof.
  intros [H1 H2 H3]. destruct b as [st fc oa na hf]; cbn in *.
  destruct st; breaker_cases;
    (split; cbn; [lia | try discriminate; intros _; specialize (H2 eq_refl); lia
                 | try discriminate; eauto]).
Qed.

Lemma reset_inv b : breaker_inv (reset b).
Proof.
  destruct b as [st fc oa na hf]. destruct st; breaker_cases;
    (split; cbn; [lia | intros; lia | discriminate]).
Qed.

Lemma bstep_inv s s' : breaker_inv (fst s) -> bstep s s' -> breaker_inv (fst s').
Proof.
  intros H Hs. destruct Hs; cbn in *.
  - eapply beforeCall_inv; eassumption.
  - eapply beforeCall_inv; eassumption.
  - apply onSuccess_inv, H.
  - apply onFailure_inv, H.
  - apply reset_inv.
Qed.

(** At every point of every interleaving of overlapping calls the probes
    in flight stay within the half-open cap, a closed breaker is below its
    failure threshold, an open one knows since when and until when, and until
    then it admits nobody and is left as it was. *)
Theorem breaker_reachable_inv s :
  breachable s ->
  0 <= halfOpenInFlight (fst s) <= Z.max 0 (halfOpenMaxCalls o) /\
  (b_state (fst s) = closed -> 0 <= failureCount (fst s) < Z.max 1 (failureThreshold o)) /\
  (b_state (fst s) = open_ -> exists t,
     openedAtMs (fst s) = Some t /\ nextAttemptAtMs (fst s) = Some (t + openBackoffMs o)) /\
  (forall now, b_state (fst s) = open_ ->
     (exists t, nextAttemptAtMs (fst s) = Some t /\ now < t) ->
     exists e, beforeCall o now (fst s) = (inl e, fst s)).
Proof.
  intros Hr. assert (breaker_inv (fst s)) as [H1 H2 H3].
  { induction Hr as [|s s' _ IH Hs]; [|exact (bstep_inv _ _ IH Hs)].
    split; cbn; [lia | intros; lia | congruence]. }
  repeat split; try apply H1; try (apply H2; assumption); try apply H3.
  intros now Hst (t & Ht & Hlt). unfold beforeCall. rewrite Hst, Ht.
  destruct (Z.leb_spec t now); [lia | eauto].
Qed.
End Interleaving.

(** ** Sequential behaviour *)

Section Sequential.
Context {W : Type} `{HasBreaker W} (o : CircuitBreakerOptions).
Context (get_set : forall b w, getBreaker (setBreaker b w) = b).

Lemma failures_below n now : forall b,
  b_state b = closed -> failureCount b + Z.of_nat n < failureThreshold o ->
  Nat.iter n (onFailure o now) b = b {{ failureCount := failureCount b + Z.of_nat n }}.
Proof.
  induction n as [|n IH]; intros b Hst Hc.
  - destruct b as [st fc oa na hf]; cbn. f_equal. unfold Z.of_nat. lia.
  - rewrite Nat.iter_succ, IH by (try assumption; lia).
    unfold onFailure. destruct b as [st fc oa na hf]; cbn in *; subst st.
    destruct (Z.leb_spec (failureThreshold o) (fc + Z.of_nat n + 1)); [lia|].
    cbn. f_equal. lia.
Qed.

(** A closed breaker opens at the failure that brings its count to the
    threshold, for the configured cooldown, and stays closed, counting, at
    each failure before that one. *)
Theorem failures_open n now b :
  b_state b = closed -> failureCount b + Z.of_nat (S n) = failureThreshold o ->
  (forall m, (m <= n)%nat ->
     b_state (Nat.iter m (onFailure o now) b) = closed /\
     failureCount (Nat.iter m (onFailure o now) b) = failureCount b + Z.of_nat m) /\
  b_state (Nat.iter (S n) (onFailure o now) b) = open_ /\
  nextAttemptAtMs (Nat.iter (S n) (onFailure o now) b) = Some (now + openBackoffMs o).
Proof.
  intros Hst Hc. split.
  - intros m Hm. rewrite failures_below by (try assumption; lia).
    destruct b as [st fc oa na hf]; cbn in *. auto.
  - rewrite Nat.iter_succ, failures_below by (try assumption; lia).
    unfold onFailure, openBreaker, transitionTo. destruct b as [st fc oa na hf]; cbn in *; subst st.
    destruct (Z.leb_spec (failureThreshold o) (fc + Z.of_nat n + 1)); [|lia].
    cbn. split; reflexivity.
Qed.

(** While the cooldown of an open breaker has not elapsed the operation is
    not run at all; once it has, one successful call closes the breaker. *)
Theorem execute_open {A} (op : M W Err A) w t :
  b_state (getBreaker w) = open_ -> nextAttemptAtMs (getBreaker w) = Some t ->
  (breakerClock w < t ->
     exists e, err_class e = ClsCircuitBreakerOpen /\
               execute o op w = (inl e, setBreaker (getBreaker w) w)) /\
  (t <= breakerClock w -> halfOpenInFlight (getBreaker w) < halfOpenMaxCalls o ->
     forall a b w',
     beforeCall o (breakerClock w) (getBreaker w) = (inr tt, b) ->
     op (setBreaker b w) = (inr a, w') -> getBreaker w' = b ->
     exists w'', execute o op w = (inr a, w'') /\
                 b_state (getBreaker w'') = closed /\ failureCount (getBreaker w'') = 0).
Proof.
  intros Hst Ht. split.
  - intros Hlt. exists (openError o (breakerClock w) (getBreaker w)).
    split; [reflexivity|]. unfold execute, beforeCall. rewrite Hst, Ht.
    destruct (Z.leb_spec t (breakerClock w)); [lia | reflexivity].
  - intros Hge Hmax a b w' Hb Hop Hb'.
    assert (Hbst : b_state b = half_open).
    { unfold beforeCall in Hb. rewrite Hst, Ht in Hb.
      destruct (Z.leb_spec t (breakerClock w)); [|lia].
      destruct (getBreaker w) as [st fc oa na hf]; cbn in *; subst st.
      unfold admitHalfOpen, transitionTo in Hb. cbn in Hb.
      repeat case_match; simplify_eq; rewrite <- Hb; reflexivity. }
    unfold execute. rewrite Hb, Hop, Hb'. eexists. split; [reflexivity|].
    rewrite get_set. unfold onSuccess. rewrite Hbst. cbn.
    destruct b as [st fc oa na hf]; cbn in Hbst; subst st. split; reflexivity.
Qed.
End Sequential.
