(* ===== verification/Resilience.v ===== *)
(** * Backpressure, timeouts and retries

    src/src/utils/backpressure.ts, timeout-wrapper.ts and retry.util.ts: the
    wrappers every chain call and several transactions run under. An awaited
    operation is an [Attempt]: given the world it starts in, it resolves,
    rejects, or has not settled when the caller stops waiting ([Hangs]); in
    each case it leaves a world behind, since a call that timed out may still
    have taken effect. *)

From Stdlib Require Import ZArith Lia.
From stdpp Require Import base list strings pretty.
From S2P Require Import Prelude.
From S2P Require Import Errors.

#[local] Open Scope Z_scope.

(** ** createConcurrencyLimiter *)

Record Limiter : Type := mkLimiter {
  l_name : string;
  l_maxInFlight : Z;
  l_retryAfterSeconds : Z;
  l_inFlight : Z;
}.

Definition createConcurrencyLimiter (name : string) (maxInFlight : Z)
    (retryAfterSeconds : option Z) : Limiter :=
  mkLimiter name (Z.max 1 maxInFlight) (default 1 retryAfterSeconds) 0.

(** The admission test of [execute], up to its [await]. *)
Definition limiterEnter (l : Limiter) : Err + Limiter :=
  if l_maxInFlight l <=? l_inFlight l then
    inl (BackpressureError ("Too many in-flight " +:+ l_name l +:+
                            " operations. Please retry shortly.") (l_retryAfterSeconds l))
  else inr (l {{ l_inFlight := l_inFlight l + 1 }}).

(** The [finally] block. *)
Definition limiterLeave (l : Limiter) : Limiter :=
  l {{ l_inFlight := l_inFlight l - 1 }}.

Class HasLimiter (W : Type) := {
  getLimiter : W -> Limiter;
  setLimiter : Limiter -> W -> W;
}.

Definition limiterExecute {W A} `{HasLimiter W} (operation : M W Err A) : M W Err A := fun w =>
  match limiterEnter (getLimiter w) with
  | inl e => (inl e, w)
  | inr l =>
      finally operation (fun w' => setLimiter (limiterLeave (getLimiter w')) w') (setLimiter l w)
  end.

(** *** Overlapping calls of one limiter: [n] operations are running *)

Inductive lstep : Limiter * nat -> Limiter * nat -> Prop :=
| ls_enter l l' n : limiterEnter l = inr l' -> lstep (l, n) (l', S n)
| ls_reject l e n : limiterEnter l = inl e -> lstep (l, n) (l, n)
| ls_leave l n : lstep (l, S n) (limiterLeave l, n).

Inductive lreachable (name : string) (m : Z) (r : option Z) : Limiter * nat -> Prop :=
| lr_init : lreachable name m r (createConcurrencyLimiter name m r, 0%nat)
| lr_step s s' : lreachable name m r s -> lstep s s' -> lreachable name m r s'.

Lemma lreachable_inv name m r s :
  lreachable name m r s ->
  l_maxInFlight (fst s) = Z.max 1 m /\ l_inFlight (fst s) = Z.of_nat (snd s) /\
  Z.of_nat (snd s) <= Z.max 1 m.
Proof.
  induction 1 as [|s s' _ (H1 & H2 & H3) Hs]; [cbn; lia|].
  destruct Hs as [[nm mx ra fl] l' n E|l e n E|[nm mx ra fl] n]; cbn in *; [|lia|lia].
  unfold limiterEnter in E; cbn in E. destruct (Z.leb_spec mx fl); [discriminate|].
  injection E as <-. cbn. lia.
Qed.

(** The concurrency cap holds over every interleaving of calls: the counter
    is the number of operations running, never above the cap (and a cap below
    one counts as one), and a call is refused exactly when the cap is reached. *)
Theorem limiter_bound name m r l n :
  lreachable name m r (l, n) ->
  l_inFlight l = Z.of_nat n /\ Z.of_nat n <= Z.max 1 m /\
  ((exists e, limiterEnter l = inl e) <-> Z.of_nat n = Z.max 1 m).
Proof.
  intros Hr. apply lreachable_inv in Hr as (H1 & H2 & H3). cbn in *.
  split; [exact H2|]. split; [exact H3|]. unfold limiterEnter. rewrite H1, H2.
  destruct (Z.leb_spec (Z.max 1 m) (Z.of_nat n)); split; try lia; eauto; intros [e He]; discriminate.
Qed.

(** ** withTimeout *)

Inductive Outcome (A : Type) : Type :=
| Resolves (a : A)
| Rejects (e : Err)
| Hangs.
Arguments Resolves {A} a.
Arguments Rejects {A} e.
Arguments Hangs {A}.

Definition Attempt (W A : Type) : Type := W -> Outcome A * W.

Class HasClock (W : Type) := {
  clock : W -> Z;
  sleep : Z -> W -> W;
}.

Record TimeoutWrapperOptions : Type := mkTimeoutOptions {
  timeoutMs : Z;
  retries : nat;
  backoffMultiplier : Z;
  maxBackoffMs : Z;
}.

(** The options with the defaults of the destructuring. *)
Definition timeoutOptions (ms : Z) (retries : nat) : TimeoutWrapperOptions :=
  mkTimeoutOptions ms retries 2 8000.

Record TimeoutResult (A : Type) : Type := mkTimeoutResult {
  tr_success : bool;
  tr_data : option A;
  tr_error : option Err;
  tr_durationMs : Z;
  tr_retriesUsed : nat;
  tr_timedOut : bool;
}.
Arguments mkTimeoutResult {A}.
Arguments tr_success {A}. Arguments tr_data {A}. Arguments tr_error {A}.
Arguments tr_durationMs {A}. Arguments tr_retriesUsed {A}. Arguments tr_timedOut {A}.

Definition operationTimeout (ms : Z) : Err :=
  PlainError ("Operation timeout after " +:+ pretty ms +:+ "ms").

Section Timeout.
Context {W A : Type} `{HasClock W}.

(** [Promise.race] of the operation against the abort timer. *)
Definition race (ms : Z) (op : Attempt W A) (w : W) : (Err + A) * W :=
  match op w with
  | (Resolves a, w') => (inr a, w')
  | (Rejects e, w') => (inl e, w')
  | (Hangs, w') => (inl (operationTimeout ms), sleep ms w')
  end.

Definition backoffMs (o : TimeoutWrapperOptions) (attempt : nat) : Z :=
  Z.min (1000 * backoffMultiplier o ^ Z.of_nat attempt) (maxBackoffMs o).

(** The [for] loop from [attempt] on; [left] is [retries - attempt]. *)
Fixpoint withTimeoutFrom (o : TimeoutWrapperOptions) (op : Attempt W A) (startTime : Z)
    (left attempt : nat) (lastError : option Err) (w : W) : TimeoutResult A * W :=
  match left with
  | O => (mkTimeoutResult false None (Some (default (PlainError "Unknown error") lastError))
            (clock w - startTime) attempt false, w)
  | S left' =>
      match race (timeoutMs o) op w with
      | (inr a, w') =>
          (mkTimeoutResult true (Some a) None (clock w' - startTime) attempt false, w')
      | (inl e, w') =>
          match left' with
          | O => (mkTimeoutResult false None (Some e) (clock w' - startTime) (S attempt)
                    (includes (err_message e) "timeout"), w')
          | S _ => withTimeoutFrom o op startTime left' (S attempt) (Some e)
                     (sleep (backoffMs o attempt) w')
          end
      end
  end.

Definition withTimeout (o : TimeoutWrapperOptions) (op : Attempt W A) (w : W) : TimeoutResult A * W :=
  withTimeoutFrom o op (clock w) (retries o) 0 None w.

(** [failsTo o op k n w w']: attempts [k .. k+n-1] all fail, each followed by
    its backoff, and lead from [w] to [w']. *)
Inductive failsTo (o : TimeoutWrapperOptions) (op : Attempt W A) : nat -> nat -> W -> W -> Prop :=
| ft_none k w : failsTo o op k 0 w w
| ft_more k n w e w1 w2 :
    race (timeoutMs o) op w = (inl e, w1) ->
    failsTo o op (S k) n (sleep (backoffMs o k) w1) w2 ->
    failsTo o op k (S n) w w2.

Lemma withTimeoutFrom_spec o op start n : forall k last w,
  (0 < n)%nat ->
  exists i w1, (i < n)%nat /\ failsTo o op k i w w1 /\
    let '(r, w') := withTimeoutFrom o op start n k last w in
    match race (timeoutMs o) op w1 with
    | (inr a, w2) => tr_success r = true /\ tr_data r = Some a /\ tr_error r = None /\
                     tr_retriesUsed r = (k + i)%nat /\ tr_timedOut r = false /\ w' = w2
    | (inl e, w2) => i = (n - 1)%nat /\ tr_success r = false /\ tr_error r = Some e /\
                     tr_retriesUsed r = (k + n)%nat /\
                     tr_timedOut r = includes (err_message e) "timeout" /\ w' = w2
    end.
Proof.
  induction n as [|n IH]; intros k last w Hn; [lia|].
  cbn [withTimeoutFrom]. destruct (race (timeoutMs o) op w) as [[e|a] w1] eqn:E.
  - destruct n as [|n].
    + exists 0%nat, w. split; [lia|]. split; [constructor|]. rewrite E. cbn.
      repeat split; lia.
    + destruct (IH (S k) (Some e) (sleep (backoffMs o k) w1)) as (i & w2 & Hi & Hf & Hr); [lia|].
      exists (S i), w2. split; [lia|]. split; [econstructor; eassumption|].
      destruct (withTimeoutFrom _ _ _ _ _ _ _) as [r w'].
      destruct (race (timeoutMs o) op w2) as [[e2|a2] w3].
      * destruct Hr as (-> & H1 & H2 & H3 & H4 & H5). repeat split; try assumption; lia.
      * destruct Hr as (H1 & H2 & H3 & H4 & H5 & H6). repeat split; try assumption; lia.
  - exists 0%nat, w. split; [lia|]. split; [constructor|]. rewrite E. cbn.
    repeat split; lia.
Qed.

(** With one attempt the operation runs exactly once: nothing is re-sent. *)
Lemma withTimeout_once o op w :
  retries o = 1%nat ->
  let '(r, w') := withTimeout o op w in
  w' = snd (race (timeoutMs o) op w) /\
  match op w with
  | (Resolves a, _) => tr_success r = true /\ tr_data r = Some a
  | (Rejects e, _) => tr_success r = false /\ tr_error r = Some e
  | (Hangs, _) => tr_success r = false /\ tr_error r = Some (operationTimeout (timeoutMs o))
  end.
Proof.
  intros Hr. unfold withTimeout. rewrite Hr. cbn. unfold race.
  destruct (op w) as [[a|e|] w1]; cbn; repeat split.
Qed.

(** [withTimeout] always returns. It runs the operation at most [retries]
    times, stopping at the first success; the result carries that success, or
    the last error once every attempt has failed, and says whether that error
    was a timeout; between attempts it has slept the capped backoff. *)
Theorem withTimeout_spec o op w :
  (0 < retries o)%nat ->
  exists i w1, (i < retries o)%nat /\ failsTo o op 0 i w w1 /\
    let '(r, w') := withTimeout o op w in
    match race (timeoutMs o) op w1 with
    | (inr a, w2) => tr_success r = true /\ tr_data r = Some a /\ tr_error r = None /\
                     tr_retriesUsed r = i /\ tr_timedOut r = false /\ w' = w2
    | (inl e, w2) => i = (retries o - 1)%nat /\ tr_success r = false /\ tr_error r = Some e /\
                     tr_retriesUsed r = retries o /\
                     tr_timedOut r = includes (err_message e) "timeout" /\ w' = w2
    end.
Proof. intros Hn. exact (withTimeoutFrom_spec o op (clock w) (retries o) 0 None w Hn). Qed.
End Timeout.

(** ** withRetry *)

Definition RETRYABLE_ERROR_CODES : list string :=
  ["P2034"; "P2025"; "ECONNREFUSED"; "ETIMEDOUT"; "ENOTFOUND"]%string.

Definition isRetryableError (error : Err) : bool :=
  bool_decide (err_code error ∈ RETRYABLE_ERROR_CODES)
  || existsb (includes (err_message error)) RETRYABLE_ERROR_CODES
  || includes (err_message error) "timeout".

Record RetryPolicy : Type := mkRetryPolicy {
  maxAttempts : nat;
  initialDelayMs : Z;
  maxDelayMs : Z;
  rp_backoffMultiplier : Z;
  isRetryable : Err -> bool;
}.

Definition defaultRetryPolicy : RetryPolicy := mkRetryPolicy 3 100 5000 2 isRetryableError.

Record RetryResult (A : Type) : Type := mkRetryResult {
  rr_success : bool;
  rr_data : option A;
  rr_error : option Err;
  rr_attemptsUsed : nat;
  rr_totalDurationMs : Z;
}.
Arguments mkRetryResult {A}.
Arguments rr_success {A}. Arguments rr_data {A}. Arguments rr_error {A}.
Arguments rr_attemptsUsed {A}. Arguments rr_totalDurationMs {A}.

Section Retry.
Context {W A : Type} `{HasClock W}.

Fixpoint withRetryFrom (p : RetryPolicy) (op : M W Err A) (startTime : Z)
    (left attempt : nat) (delayMs : Z) (lastError : option Err) (w : W) : RetryResult A * W :=
  match left with
  | O => (mkRetryResult false None (Some (default (PlainError "Unknown error") lastError))
            (maxAttempts p) (clock w - startTime), w)
  | S left' =>
      match op w with
      | (inr a, w') => (mkRetryResult true (Some a) None attempt (clock w' - startTime), w')
      | (inl e, w') =>
          if negb (isRetryable p e) || (attempt =? maxAttempts p)%nat then
            (mkRetryResult false None (Some e) attempt (clock w' - startTime), w')
          else
            let delayMs := Z.min (delayMs * rp_backoffMultiplier p) (maxDelayMs p) in
            withRetryFrom p op startTime left' (S attempt) delayMs (Some e) (sleep delayMs w')
      end
  end.

Definition withRetry (p : RetryPolicy) (op : M W Err A) (w : W) : RetryResult A * W :=
  withRetryFrom p op (clock w) (maxAttempts p) 1 (initialDelayMs p) None w.

(** [result.data!] is a value whenever [success] is set. *)
Definition retryOrThrow (p : RetryPolicy) (op : M W Err A) : M W Err A := fun w =>
  match withRetry p op w with
  | (r, w') =>
      match rr_success r, rr_data r with
      | true, Some a => (inr a, w')
      | _, _ => (inl (default (PlainError "Unknown error") (rr_error r)), w')
      end
  end.

(** The delay slept before attempt [k + 1], for [k >= 1]. *)
Fixpoint retryDelay (p : RetryPolicy) (k : nat) : Z :=
  match k with
  | O => initialDelayMs p
  | S k' => Z.min (retryDelay p k' * rp_backoffMultiplier p) (maxDelayMs p)
  end.

(** [n] attempts from the [k]-th fail with retryable errors. *)
Inductive retriesTo (p : RetryPolicy) (op : M W Err A) : nat -> nat -> W -> W -> Prop :=
| rt_none k w : retriesTo p op k 0 w w
| rt_more k n w e w1 w2 :
    op w = (inl e, w1) -> isRetryable p e = true ->
    retriesTo p op (S k) n (sleep (retryDelay p k) w1) w2 ->
    retriesTo p op k (S n) w w2.

Lemma withRetryFrom_spec p op start n : forall k last w,
  (0 < n)%nat -> (k + n = S (maxAttempts p))%nat -> (1 <= k)%nat ->
  exists i w1, (i < n)%nat /\ retriesTo p op k i w w1 /\
    let '(r, w') := withRetryFrom p op start n k (retryDelay p (k - 1)) last w in
    rr_attemptsUsed r = (k + i)%nat /\
    match op w1 with
    | (inr a, w2) => rr_success r = true /\ rr_data r = Some a /\ w' = w2
    | (inl e, w2) => rr_success r = false /\ rr_error r = Some e /\ w' = w2 /\
                     (isRetryable p e = false \/ i = (n - 1)%nat)
    end.
Proof.
  induction n as [|n IH]; intros k last w Hn Hk Hk1; [lia|].
  cbn [withRetryFrom]. destruct (op w) as [[e|a] w1] eqn:E.
  - destruct (isRetryable p e) eqn:Hre; cbn [negb orb].
    + destruct (Nat.eqb_spec k (maxAttempts p)) as [Hlast|Hlast].
      * exists 0%nat, w. split; [lia|]. split; [constructor|]. cbn. rewrite E.
        split; [lia|]. repeat split. right. lia.
      * assert (Hd : Z.min (retryDelay p (k - 1) * rp_backoffMultiplier p) (maxDelayMs p)
                     = retryDelay p k).
        { destruct k as [|k]; [lia|]. cbn [retryDelay]. replace (S k - 1)%nat with k by lia.
          reflexivity. }
        cbv zeta. rewrite Hd.
        destruct (IH (S k) (Some e) (sleep (retryDelay p k) w1)) as (i & w2 & Hi & Hf & Hr);
          [lia | lia | lia |].
        exists (S i), w2. split; [lia|]. split; [econstructor; eassumption|].
        replace (S k - 1)%nat with k in Hr by lia.
        destruct (withRetryFrom _ _ _ _ _ _ _ _) as [r w']. destruct Hr as [Hu Hr].
        split; [lia|]. destruct (op w2) as [[e2|a2] w3]; [|exact Hr].
        destruct Hr as (? & ? & ? & [?|?]); repeat split; try assumption; [left; assumption|].
        right. lia.
    + exists 0%nat, w. split; [lia|]. split; [constructor|]. cbn. rewrite E.
      split; [lia|]. repeat split. left. exact Hre.
  - exists 0%nat, w. split; [lia|]. split; [constructor|]. cbn. rewrite E.
    split; [lia|]. repeat split.
Qed.

(** A body that respects [R] still does when retried. *)
Lemma retryOrThrow_respects (R : W -> W -> Prop) `{!PreOrder R} p op :
  respects R op -> (forall d w, R w (sleep d w)) -> respects R (retryOrThrow p op).
Proof.
  intros Hop Hsl w. unfold final, retryOrThrow.
  assert (Hfrom : forall n k d last start w0,
            R w0 (snd (withRetryFrom p op start n k d last w0))).
  { induction n as [|n IH]; intros k d last start w0; cbn; [reflexivity|].
    pose proof (Hop w0) as H0. unfold final in H0.
    destruct (op w0) as [[e|a] w1]; cbn in *; [|exact H0].
    destruct (_ || _); cbn; [exact H0|].
    etransitivity; [exact H0|]. etransitivity; [apply Hsl | apply IH]. }
  unfold withRetry. specialize (Hfrom (maxAttempts p) 1%nat (initialDelayMs p) None (clock w) w).
  destruct (withRetryFrom _ _ _ _ _ _ _ _) as [r w']. cbn in *.
  destruct (rr_success r); [destruct (rr_data r)|]; exact Hfrom.
Qed.

(** A first attempt that succeeds is the only one. *)
Lemma retryOrThrow_ok p op w a w' :
  (0 < maxAttempts p)%nat -> op w = (inr a, w') -> retryOrThrow p op w = (inr a, w').
Proof.
  intros Hm Hop. unfold retryOrThrow, withRetry. destruct (maxAttempts p); [lia|].
  cbn. rewrite Hop. reflexivity.
Qed.

(** [retryOrThrow] always returns, with exactly what one of its attempts
    returned: the first that succeeds, or the first whose error is not
    retryable, or the last allowed; all attempts before it failed with
    retryable errors and were each followed by the capped, growing delay. *)
Theorem retryOrThrow_spec p op w :
  (0 < maxAttempts p)%nat ->
  exists i w1, (i < maxAttempts p)%nat /\ retriesTo p op 1 i w w1 /\
    retryOrThrow p op w = op w1 /\
    (forall e, value op w1 = inl e -> isRetryable p e = false \/ i = (maxAttempts p - 1)%nat).
Proof.
  intros Hn. unfold retryOrThrow, withRetry, value.
  destruct (withRetryFrom_spec p op (clock w) (maxAttempts p) 1 None w Hn) as (i & w1 & Hi & Hf & Hr);
    [lia | lia |].
  exists i, w1. split; [exact Hi|]. split; [exact Hf|]. cbn [retryDelay Nat.sub] in Hr.
  destruct (withRetryFrom _ _ _ _ _ _ _ _) as [r w']. destruct Hr as [_ Hr].
  destruct (op w1) as [[e|a] w2]; cbn.
  - destruct Hr as (Hs & He & -> & Hl). rewrite Hs, He. split; [reflexivity|]. intros e' [= <-]. exact Hl.
  - destruct Hr as (Hs & Hd & ->). rewrite Hs, Hd. split; [reflexivity | discriminate].
Qed.
End Retry.

#[export] Hint Resolve retryOrThrow_respects : respects.
