(* ===== verification/DistributedLock.v ===== *)
(** * Single-leader lock (src/src/utils/distributed-lock.ts)

    [DistributedLock] keeps the fields of one lock object in [LockState]; its
    methods are split where the source awaits: what runs before a Redis command
    is sent, the command on the server, what runs on its reply or error. The
    relation [lkstep] interleaves any number of replicas, with commands whose
    reply is late or lost and keys that expire; a command its client has given
    up on has run by then or never will. Redis itself is the interface
    [RedisServer]. Metrics, logs and the abort signal's listeners are left
    out. *)

From Stdlib Require Import ZArith Lia.
From stdpp Require Import base list strings gmap pretty.
From S2P Require Import Prelude.
From S2P Require Import Errors.

#[local] Open Scope Z_scope.

Inductive LockLostReason : Type := stolen | expired | redis_error | max_hold_exceeded.

#[export] Instance LockLostReason_eq_dec : EqDecision LockLostReason.
Proof. solve_decision. Defined.

Definition LockLostReason_str (r : LockLostReason) : string :=
  match r with
  | stolen => "stolen" | expired => "expired"
  | redis_error => "redis_error" | max_hold_exceeded => "max_hold_exceeded"
  end.

Definition LOCK_LOST : string := "LOCK_LOST".

(** The quotes around the name are not reproduced. *)
Definition LockLostError (lockName : string) (reason : LockLostReason) : Err :=
  mkErr ClsError ("Distributed lock " +:+ lockName +:+ " lost (" +:+ LockLostReason_str reason +:+
                  "); aborting to avoid concurrent execution") LOCK_LOST 500.

Definition isLockLostError (error : Err) : bool := String.eqb (err_code error) LOCK_LOST.

(** Seconds are whole numbers. *)
Record DistributedLockConfig : Type := mkLockConfig {
  ttlSeconds : Z;
  maxRetries : nat;
  autoRenew : bool;
  renewIntervalSeconds : option Z;
  maxRenewFailures : Z;
  maxHoldSeconds : option Z;
}.

Definition MIN_TIMER_MS : Z := 100.
Definition MAX_HOLD_TTL_MULTIPLIER : Z := 20.
Definition DEFAULT_MAX_RENEW_FAILURES : Z := 2.

Definition defaultLockConfig (ttl : Z) : DistributedLockConfig :=
  mkLockConfig ttl 3 true None DEFAULT_MAX_RENEW_FAILURES None.

Section LockConfig.
Context (c : DistributedLockConfig).

Definition ttlMs : Z := ttlSeconds c * 1000.

Definition renewIntervalMs : Z :=
  let fromConfig := match renewIntervalSeconds c with Some s => s * 1000 | None => ttlMs / 3 end in
  Z.max MIN_TIMER_MS (Z.min fromConfig (ttlMs / 2)).

Definition maxHoldMs : Z :=
  Z.max MIN_TIMER_MS (match maxHoldSeconds c with
                      | Some s => s * 1000
                      | None => ttlMs * MAX_HOLD_TTL_MULTIPLIER
                      end).

Definition attemptsAllowed : nat := Nat.max 1 (maxRetries c).
End LockConfig.

(** ** One lock object *)

Record LockState : Type := mkLockState {
  ls_held : bool;
  ls_lost : option LockLostReason;
  ls_acquiredAtMs : Z;
  ls_everAcquired : bool;
  ls_failures : Z;
  ls_timer : bool;
  ls_degraded : bool;
}.

Definition newLock : LockState := mkLockState false None 0 false 0 false false.

Section LockObject.
Context (c : DistributedLockConfig).

Definition isHeld (l : LockState) : bool :=
  ls_held l && match ls_lost l with None => true | Some _ => false end.

Definition assertHeld (lockName : string) (l : LockState) : Err + unit :=
  match ls_lost l with
  | Some r => inl (LockLostError lockName r)
  | None => if ls_held l then inr tt else inl (LockLostError lockName expired)
  end.

(** [acquireWithoutRedis], when it does not fail closed. *)
Definition degrade (l : LockState) : LockState := l {{ ls_degraded := true }}.

Definition markAcquired (now : Z) (l : LockState) : LockState :=
  l {{ ls_held := true; ls_everAcquired := true; ls_lost := None; ls_acquiredAtMs := now;
       ls_failures := 0;
       ls_timer := if negb (ls_degraded l) && autoRenew c then true else ls_timer l }}.

Definition stopRenewal (l : LockState) : LockState := l {{ ls_timer := false }}.

Definition markLost (reason : LockLostReason) (l : LockState) : LockState :=
  match ls_lost l with
  | Some _ => l
  | None => stopRenewal (l {{ ls_lost := Some reason; ls_held := false }})
  end.

(** [renewTick] and [renew] up to the command: skip, give up, or send. *)
Inductive BeatStart : Type := BeatSkip | BeatAbandon (l : LockState) | BeatSend.

Definition renewStart (now : Z) (l : LockState) : BeatStart :=
  if negb (ls_timer l) || negb (isHeld l) then BeatSkip
  else if maxHoldMs c <=? now - ls_acquiredAtMs l then BeatAbandon (markLost max_hold_exceeded l)
  else BeatSend.

Definition lostReasonOf (outcome : Z) : LockLostReason :=
  if decide (outcome = -1) then stolen else expired.

Definition renewReply (outcome : Z) (l : LockState) : LockState :=
  if decide (outcome = 1) then l {{ ls_failures := 0 }} else markLost (lostReasonOf outcome) l.

Definition renewError (l : LockState) : LockState :=
  let failures := ls_failures l + 1 in
  let l := l {{ ls_failures := failures }} in
  if maxRenewFailures c <=? failures then markLost redis_error l else l.

(** [confirmStillHeld] up to the command: an answer at once, or send. *)
Definition confirmStart (l : LockState) : option bool :=
  if ls_degraded l then Some (ls_held l)
  else if isHeld l then None else Some false.

Definition confirmReply (outcome : Z) (l : LockState) : bool * LockState :=
  if decide (outcome = 1) then (true, l) else (false, markLost (lostReasonOf outcome) l).

(** [release] up to the command; whether the command is sent. *)
Definition releaseLocal (l : LockState) : bool * LockState :=
  let l := stopRenewal l in
  let l := l {{ ls_held := false }} in
  if ls_everAcquired l then (negb (ls_degraded l), l {{ ls_everAcquired := false }})
  else (false, l).
End LockObject.

(** ** The key on the server *)

Record RedisKey : Type := mkRedisKey { rk_owner : string; rk_expiresAt : Z }.

Definition live (now : Z) (k : option RedisKey) : option RedisKey :=
  match k with Some r => if now <? rk_expiresAt r then Some r else None | None => None end.

(** The Redis commands the lock uses on its key, at a server time, and what
    Redis documents of them. [rd_view] is the stored value with its expiry. *)
Class RedisServer : Type := {
  rd_key : Type;
  rd_absent : rd_key;
  rd_view : rd_key -> option RedisKey;
  rd_set_nx_px : Z -> Z -> string -> rd_key -> bool * rd_key;
  rd_get : Z -> rd_key -> option string;
  rd_pexpire : Z -> Z -> rd_key -> rd_key;
  rd_del : rd_key -> rd_key;
  rd_absent_view : rd_view rd_absent = None;
  rd_set_free : forall now px id k, live now (rd_view k) = None ->
    fst (rd_set_nx_px now px id k) = true /\
    rd_view (snd (rd_set_nx_px now px id k)) = Some (mkRedisKey id (now + px));
  rd_set_taken : forall now px id k r, live now (rd_view k) = Some r ->
    rd_set_nx_px now px id k = (false, k);
  rd_get_live : forall now k, rd_get now k = option_map rk_owner (live now (rd_view k));
  rd_pexpire_live : forall now px k r, live now (rd_view k) = Some r ->
    rd_view (rd_pexpire now px k) = Some (mkRedisKey (rk_owner r) (now + px));
  rd_del_view : forall k, rd_view (rd_del k) = None;
}.

Section WithServer.
Context {server : RedisServer}.

(** [client.set(key, id, { NX: true, PX: px })] *)
Definition setNX (now px : Z) (id : string) (k : rd_key) : bool * rd_key := rd_set_nx_px now px id k.

(** [RENEW_SCRIPT] *)
Definition renewScript (now px : Z) (id : string) (k : rd_key) : Z * rd_key :=
  match rd_get now k with
  | None => (0, k)
  | Some current => if String.eqb current id then (1, rd_pexpire now px k) else (-1, k)
  end.

(** [RELEASE_SCRIPT] *)
Definition releaseScript (now : Z) (id : string) (k : rd_key) : rd_key :=
  match rd_get now k with
  | Some current => if String.eqb current id then rd_del k else k
  | None => k
  end.

(** ** Replicas

    One run of [withDistributedLock] per replica, all on the same key. The
    fields after [rp_beat] are history: the number of grants of the key when
    this replica's SET succeeded last and when its final check succeeded, and
    when its lease runs out on the server. *)

Inductive Pc : Type :=
| PInit
| PConnect
| PSet (attempt : nat)
| PSetSent (attempt : nat) (ok : bool)
| PRun
| PConfirm
| PConfirmSent (outcome : Z)
| PRelease (accepted : bool)
| PReleasing (accepted : bool)
| PDone (accepted : bool).

(** The heartbeat ([renewing]): idle, waiting for the client, answered. *)
Inductive Beat : Type :=
| BeatIdle
| BeatWaiting
| BeatAnswered (outcome : Z).

Record Replica : Type := mkReplica {
  rp_process : nat;
  rp_id : string;
  rp_lock : LockState;
  rp_pc : Pc;
  rp_beat : Beat;
  rp_grant : option nat;
  rp_confirmed : option nat;
  rp_lease : Z;
}.

Definition newReplica (process : nat) (id : string) : Replica :=
  mkReplica process id newLock PInit BeatIdle None None 0.

(** What the replicas share: the key, the in-process sets (by process), and the
    log of successful SETs, the latest first. *)
Record Shared : Type := mkShared {
  sh_key : rd_key;
  sh_local : gset nat;
  sh_grants : list string;
}.

Section System.
Context (c : DistributedLockConfig).
(** REDIS_URL is set, or SCHEDULER_LOCK_REQUIRED *)
Context (failClosed : bool).

Definition nextAttempt (a : nat) : Pc := if (S a <? attemptsAllowed c)%nat then PSet (S a) else PDone false.

Definition granted (now : Z) (ok : bool) (sh : Shared) (r : Replica) : Replica :=
  if ok then r {{ rp_grant := Some (S (length (sh_grants sh))); rp_lease := now + ttlMs c }} else r.

(** The lease after the renewal script answered [outcome]. *)
Definition renewed (now : Z) (outcome : Z) (r : Replica) : Replica :=
  if decide (outcome = 1) then r {{ rp_lease := now + ttlMs c }} else r.

Definition confirmedNow (outcome : Z) (sh : Shared) (r : Replica) : Replica :=
  if decide (outcome = 1) then r {{ rp_confirmed := Some (length (sh_grants sh)) }} else r.

Definition enterLocal (r : Replica) (sh : Shared) : Shared :=
  sh {{ sh_local := {[rp_process r]} ∪ sh_local sh }}.

Definition running (now : Z) (l : LockState) (r : Replica) : Replica :=
  r {{ rp_lock := markAcquired c now l; rp_pc := PRun }}.

Inductive lkact (now : Z) : Shared * Replica -> Shared * Replica -> Prop :=
| a_denied_local sh r :
    rp_pc r = PInit -> rp_process r ∈ sh_local sh -> lkact now (sh, r) (sh, r {{ rp_pc := PDone false }})
| a_check sh r :
    rp_pc r = PInit -> rp_process r ∉ sh_local sh -> lkact now (sh, r) (sh, r {{ rp_pc := PConnect }})
| a_connected sh r :
    rp_pc r = PConnect -> lkact now (sh, r) (sh, r {{ rp_pc := PSet 0 }})
| a_unavailable sh r :
    rp_pc r = PConnect -> failClosed = true -> lkact now (sh, r) (sh, r {{ rp_pc := PDone false }})
| a_degraded sh r :
    rp_pc r = PConnect -> failClosed = false ->
    lkact now (sh, r) (enterLocal r sh, running now (degrade (rp_lock r)) r)
| a_set sh r a ok key' :
    rp_pc r = PSet a -> setNX now (ttlMs c) (rp_id r) (sh_key sh) = (ok, key') ->
    lkact now (sh, r)
      (sh {{ sh_key := key';
             sh_grants := if ok then rp_id r :: sh_grants sh else sh_grants sh }},
       (granted now ok sh r) {{ rp_pc := PSetSent a ok }})
| a_set_ok sh r a :
    rp_pc r = PSetSent a true -> lkact now (sh, r) (enterLocal r sh, running now (rp_lock r) r)
| a_set_no sh r a :
    rp_pc r = PSetSent a false -> lkact now (sh, r) (sh, r {{ rp_pc := nextAttempt a }})
| a_set_error sh r a :
    rp_pc r = PSet a \/ (exists ok, rp_pc r = PSetSent a ok) ->
    lkact now (sh, r) (sh, r {{ rp_pc := nextAttempt a }})
| a_beat_abandon sh r l :
    rp_beat r = BeatIdle -> renewStart c now (rp_lock r) = BeatAbandon l ->
    lkact now (sh, r) (sh, r {{ rp_lock := l }})
| a_beat_start sh r :
    rp_beat r = BeatIdle -> renewStart c now (rp_lock r) = BeatSend ->
    lkact now (sh, r) (sh, r {{ rp_beat := BeatWaiting }})
| a_beat sh r o key' :
    rp_beat r = BeatWaiting ->
    renewScript now (ttlMs c) (rp_id r) (sh_key sh) = (o, key') ->
    lkact now (sh, r) (sh {{ sh_key := key' }}, (renewed now o r) {{ rp_beat := BeatAnswered o }})
| a_beat_reply sh r o :
    rp_beat r = BeatAnswered o ->
    lkact now (sh, r) (sh, r {{ rp_lock := renewReply o (rp_lock r); rp_beat := BeatIdle }})
| a_beat_lost sh r o :
    rp_beat r = BeatAnswered o ->
    lkact now (sh, r) (sh, r {{ rp_lock := renewError c (rp_lock r); rp_beat := BeatIdle }})
| a_beat_error sh r :
    rp_beat r = BeatWaiting ->
    lkact now (sh, r) (sh, r {{ rp_lock := renewError c (rp_lock r); rp_beat := BeatIdle }})
| a_abort sh r :
    rp_pc r = PRun -> lkact now (sh, r) (sh, r {{ rp_pc := PRelease false }})
| a_finish sh r b :
    rp_pc r = PRun -> confirmStart (rp_lock r) = Some b ->
    lkact now (sh, r) (sh, r {{ rp_pc := PRelease b }})
| a_finish_confirm sh r :
    rp_pc r = PRun -> confirmStart (rp_lock r) = None ->
    lkact now (sh, r) (sh, r {{ rp_pc := PConfirm }})
| a_confirm_error sh r :
    rp_pc r = PConfirm -> lkact now (sh, r) (sh, r {{ rp_pc := PRelease false }})
| a_confirm sh r o key' :
    rp_pc r = PConfirm ->
    renewScript now (ttlMs c) (rp_id r) (sh_key sh) = (o, key') ->
    lkact now (sh, r) (sh {{ sh_key := key' }},
                       (confirmedNow o sh (renewed now o r)) {{ rp_pc := PConfirmSent o }})
| a_confirm_reply sh r o b l :
    rp_pc r = PConfirmSent o -> confirmReply o (rp_lock r) = (b, l) ->
    lkact now (sh, r) (sh, r {{ rp_lock := l; rp_pc := PRelease b }})
| a_confirm_lost sh r o :
    rp_pc r = PConfirmSent o -> lkact now (sh, r) (sh, r {{ rp_pc := PRelease false }})
| a_release sh r acc send l :
    rp_pc r = PRelease acc -> releaseLocal (rp_lock r) = (send, l) ->
    lkact now (sh, r)
      (if ls_everAcquired (rp_lock r) then sh {{ sh_local := sh_local sh ∖ {[rp_process r]} }} else sh,
       r {{ rp_lock := l; rp_pc := if send then PReleasing acc else PDone acc }})
| a_release_exec sh r acc :
    rp_pc r = PReleasing acc ->
    lkact now (sh, r) (sh {{ sh_key := releaseScript now (rp_id r) (sh_key sh) }},
                       r {{ rp_lease := now; rp_pc := PDone acc }})
| a_release_error sh r acc :
    rp_pc r = PReleasing acc -> lkact now (sh, r) (sh, r {{ rp_pc := PDone acc }}).

Record LockSystem : Type := mkSystem {
  sy_now : Z;
  sy_shared : Shared;
  sy_replicas : list Replica;
}.

Inductive lkstep : LockSystem -> LockSystem -> Prop :=
| lk_time now now' sh rs : now <= now' -> lkstep (mkSystem now sh rs) (mkSystem now' sh rs)
| lk_act now sh rs i r sh' r' :
    rs !! i = Some r -> lkact now (sh, r) (sh', r') ->
    lkstep (mkSystem now sh rs) (mkSystem now sh' (<[i := r']> rs)).

(** Replicas with distinct lock ids, none started, the key absent. *)
Definition lkinitial (s : LockSystem) : Prop :=
  sy_shared s = mkShared rd_absent ∅ [] /\
  NoDup (map rp_id (sy_replicas s)) /\ 0 <= sy_now s /\
  forall i r, sy_replicas s !! i = Some r -> r = newReplica (rp_process r) (rp_id r).

Inductive lkreachable : LockSystem -> Prop :=
| lkr_init s : lkinitial s -> lkreachable s
| lkr_step s s' : lkreachable s -> lkstep s s' -> lkreachable s'.
End System.

(** ** Invariants *)

(** Position of the latest grant to [id] in the log, counted from the first. *)
Fixpoint lastGrant (id : string) (l : list string) : option nat :=
  match l with
  | [] => None
  | x :: l' => if String.eqb id x then Some (length l) else lastGrant id l'
  end.

Lemma lastGrant_le id l : forall g, lastGrant id l = Some g -> (g <= length l)%nat.
Proof.
  induction l as [|x l IH]; cbn; intros g Hg; [discriminate|].
  destruct (String.eqb id x); [injection Hg as <-; cbn; lia|]. specialize (IH g Hg). lia.
Qed.

Lemma lastGrant_inj a b l : forall g, lastGrant a l = Some g -> lastGrant b l = Some g -> a = b.
Proof.
  induction l as [|x l IH]; cbn; intros g Ha Hb; [discriminate|].
  destruct (String.eqb_spec a x) as [->|], (String.eqb_spec b x) as [->|]; [reflexivity | | | eauto].
  - injection Ha as <-. apply lastGrant_le in Hb. cbn in Hb. lia.
  - injection Hb as <-. apply lastGrant_le in Ha. cbn in Ha. lia.
Qed.

(** The run's result was accepted, or its final check has already answered so. *)
Definition acceptedPc (pc : Pc) : Prop :=
  match pc with
  | PConfirmSent o => o = 1
  | PRelease b | PReleasing b | PDone b => b = true
  | _ => False
  end.

(** The key belongs to the latest grant. *)
Definition keyInv (sh : Shared) : Prop :=
  forall k, rd_view (sh_key sh) = Some k -> head (sh_grants sh) = Some (rk_owner k).

Record replicaInv (now : Z) (sh : Shared) (r : Replica) : Prop := {
  ri_grant : rp_grant r = lastGrant (rp_id r) (sh_grants sh);
  ri_confirmed : acceptedPc (rp_pc r) -> ls_degraded (rp_lock r) = false ->
    rp_confirmed r = rp_grant r /\ rp_grant r <> None;
  ri_lease : now < rp_lease r -> rd_view (sh_key sh) = Some (mkRedisKey (rp_id r) (rp_lease r));
}.

Section ServerLemmas.
Context (now px : Z) (id : string) (k : rd_key) (r : RedisKey).
Context (Hview : rd_view k = Some r) (Hlive : now < rk_expiresAt r).

Lemma live_some : live now (rd_view k) = Some r.
Proof. rewrite Hview. cbn. destruct (Z.ltb_spec now (rk_expiresAt r)); [reflexivity | lia]. Qed.

Lemma setNX_live : setNX now px id k = (false, k).
Proof. exact (rd_set_taken _ _ _ _ _ live_some). Qed.

Lemma renew_other : rk_owner r <> id -> renewScript now px id k = (-1, k).
Proof.
  intros Hn. unfold renewScript. rewrite rd_get_live, live_some. cbn.
  destruct (String.eqb_spec (rk_owner r) id); [contradiction | reflexivity].
Qed.

Lemma release_other : rk_owner r <> id -> releaseScript now id k = k.
Proof.
  intros Hn. unfold releaseScript. rewrite rd_get_live, live_some. cbn.
  destruct (String.eqb_spec (rk_owner r) id); [contradiction | reflexivity].
Qed.

Lemma renew_mine : rk_owner r = id -> renewScript now px id k = (1, rd_pexpire now px k) /\
  rd_view (rd_pexpire now px k) = Some (mkRedisKey id (now + px)).
Proof.
  intros Ho. unfold renewScript. rewrite rd_get_live, live_some. cbn. rewrite Ho, String.eqb_refl.
  rewrite (rd_pexpire_live _ _ _ _ live_some), Ho. auto.
Qed.

Lemma release_mine : rk_owner r = id -> releaseScript now id k = rd_del k.
Proof.
  intros Ho. unfold releaseScript. rewrite rd_get_live, live_some. cbn. rewrite Ho, String.eqb_refl. reflexivity.
Qed.
End ServerLemmas.

Lemma live_view now k : live now k = None \/ exists r, k = Some r /\ live now k = Some r.
Proof. unfold live. destruct k as [r|]; [destruct (_ <? _); eauto | auto]. Qed.

(** The three answers of the renewal script. *)
Lemma renewScript_cases now px id k o k' :
  renewScript now px id k = (o, k') ->
  (o = 1 /\ rd_view k' = Some (mkRedisKey id (now + px)) /\ exists e, rd_view k = Some (mkRedisKey id e)) \/
  (o <> 1 /\ k' = k).
Proof.
  unfold renewScript. rewrite rd_get_live.
  destruct (live_view now (rd_view k)) as [->|([ow e] & Hv & Hl)]; [intros [= <- <-]; auto|].
  rewrite Hl. cbn. destruct (String.eqb_spec ow id) as [->|]; intros [= <- <-]; [|auto].
  rewrite (rd_pexpire_live _ _ _ _ Hl). left. eauto.
Qed.

Lemma setNX_cases now px id k ok k' :
  setNX now px id k = (ok, k') ->
  (ok = true /\ rd_view k' = Some (mkRedisKey id (now + px))) \/ (ok = false /\ k' = k).
Proof.
  unfold setNX. intros Hs. destruct (live_view now (rd_view k)) as [Hl|(r & _ & Hl)].
  - destruct (rd_set_free now px id k Hl) as [E1 E2]. rewrite Hs in E1, E2. cbn in *. auto.
  - rewrite (rd_set_taken _ _ _ _ _ Hl) in Hs. injection Hs as <- <-. auto.
Qed.

Lemma releaseScript_cases now id k : rd_view (releaseScript now id k) = None \/ releaseScript now id k = k.
Proof.
  unfold releaseScript. destruct (rd_get now k) as [cur|]; [|auto].
  destruct (String.eqb cur id); [rewrite rd_del_view|]; auto.
Qed.

Section Invariants.
Context (c : DistributedLockConfig) (failClosed : bool).

Lemma renewReply_degraded o l : ls_degraded (renewReply o l) = ls_degraded l.
Proof.
  unfold renewReply, markLost, stopRenewal. destruct l as [h lo aq ev f t d]; cbn.
  destruct (decide (o = 1)); [reflexivity|]. destruct lo; reflexivity.
Qed.

Lemma renewError_degraded l : ls_degraded (renewError c l) = ls_degraded l.
Proof.
  unfold renewError, markLost, stopRenewal. destruct l as [h lo aq ev f t d]; cbn.
  destruct (_ <=? _); [|reflexivity]. destruct lo; reflexivity.
Qed.

Lemma releaseLocal_degraded l send l' : releaseLocal l = (send, l') -> ls_degraded l' = ls_degraded l.
Proof.
  unfold releaseLocal, stopRenewal. destruct l as [h lo aq ev f t d]; cbn.
  destruct ev; intros [= _ <-]; reflexivity.
Qed.

Lemma confirmReply_spec o l b l' :
  confirmReply o l = (b, l') -> ls_degraded l' = ls_degraded l /\ (b = true -> o = 1).
Proof.
  unfold confirmReply, markLost, stopRenewal. destruct l as [h lo aq ev f t d]; cbn.
  destruct (decide (o = 1)) as [Ho|]; [intros [= <- <-]; auto|].
  destruct lo; intros [= <- <-]; split; (reflexivity || discriminate).
Qed.

(** A beat that abandons the lock keeps the degraded flag. *)
Lemma renewStart_degraded now l l' : renewStart c now l = BeatAbandon l' -> ls_degraded l' = ls_degraded l.
Proof.
  unfold renewStart, markLost, stopRenewal. destruct l as [h lo aq ev f t d]; cbn.
  destruct (_ || _); [discriminate|]. destruct (_ <=? _); [|discriminate].
  destruct lo; intros [= <-]; reflexivity.
Qed.

Notation act := (lkact c failClosed).

Lemma act_id now sh r sh' r' : act now (sh, r) (sh', r') -> rp_id r' = rp_id r /\ rp_process r' = rp_process r.
Proof.
  intros Ha. destruct r as [pr id lk pc bt g cf le]. inversion Ha; subst; cbn in *;
    unfold granted, renewed, confirmedNow, running;
    repeat match goal with |- context [if ?b then _ else _] => destruct b end; auto.
Qed.

(** What a replica does to the shared state: nothing to key and log, a grant,
    or a command of its own that keeps the log. *)
Lemma act_shared now sh r sh' r' :
  act now (sh, r) (sh', r') ->
  (sh_key sh' = sh_key sh /\ sh_grants sh' = sh_grants sh) \/
  (sh_grants sh' = rp_id r :: sh_grants sh /\ setNX now (ttlMs c) (rp_id r) (sh_key sh) = (true, sh_key sh')) \/
  (sh_grants sh' = sh_grants sh /\ sh_key sh' = snd (setNX now (ttlMs c) (rp_id r) (sh_key sh)) /\
   fst (setNX now (ttlMs c) (rp_id r) (sh_key sh)) = false) \/
  (sh_grants sh' = sh_grants sh /\
   (sh_key sh' = snd (renewScript now (ttlMs c) (rp_id r) (sh_key sh)) \/
    sh_key sh' = releaseScript now (rp_id r) (sh_key sh))).
Proof.
  intros Ha. destruct sh as [k lo gr]. inversion Ha; subst; cbn in *; auto 10.
  - match goal with H : setNX _ _ _ _ = (?ok, _) |- _ => rewrite H; destruct ok; cbn; auto 10 end.
  - match goal with H : renewScript _ _ _ _ = _ |- _ => rewrite H; cbn; auto 10 end.
  - match goal with H : renewScript _ _ _ _ = _ |- _ => rewrite H; cbn; auto 10 end.
  - destruct (ls_everAcquired _); auto.
Qed.

Lemma act_key now sh r sh' r' : keyInv sh -> act now (sh, r) (sh', r') -> keyInv sh'.
Proof.
  intros Hk Ha k Hs. apply act_shared in Ha as [[E1 E2]|[[E1 E2]|[(E1 & E2 & E3)|[E1 E2]]]].
  - rewrite E2. apply Hk. congruence.
  - apply setNX_cases in E2 as [[_ E2]|[E2 _]]; [|discriminate]. rewrite E1, E2 in *. injection Hs as <-. reflexivity.
  - rewrite E1. destruct (setNX _ _ _ _) as [ok k'] eqn:Es. cbn in *. subst.
    apply setNX_cases in Es as [[E _]|[_ E]]; [discriminate|]. apply Hk. congruence.
  - rewrite E1. destruct E2 as [E2|E2].
    + destruct (renewScript _ _ _ _) as [o k'] eqn:Er. cbn in E2. subst k'.
      apply renewScript_cases in Er as [(_ & E & e & Ek)|[_ E]]; [|apply Hk; congruence].
      rewrite Hs in E. injection E as ->. exact (Hk _ Ek).
    + destruct (releaseScript_cases now (rp_id r) (sh_key sh)) as [E|E]; [congruence | apply Hk; congruence].
Qed.

(** Another replica's invariant survives. *)
Lemma act_frame now sh r sh' r' q :
  act now (sh, r) (sh', r') -> rp_id q <> rp_id r -> replicaInv now sh q -> replicaInv now sh' q.
Proof.
  intros Ha Hid [Q1 Q2 Q3]. apply act_shared in Ha. split; [| exact Q2 |].
  - destruct Ha as [[_ ->]|[[-> _]|[(-> & _)|[-> _]]]]; try exact Q1.
    cbn. destruct (String.eqb_spec (rp_id q) (rp_id r)); [contradiction | exact Q1].
  - intros Hl. specialize (Q3 Hl).
    set (k := mkRedisKey (rp_id q) (rp_lease q)) in *. assert (Hk : now < rk_expiresAt k) by exact Hl.
    assert (Ho : rk_owner k <> rp_id r) by exact Hid.
    rewrite (setNX_live _ _ _ _ _ Q3 Hk), (renew_other _ _ _ _ _ Q3 Hk Ho), (release_other _ _ _ _ Q3 Hk Ho) in Ha.
    destruct Ha as [[-> _]|[[_ E]|[(_ & -> & _)|[_ [->| ->]]]]]; try exact Q3. discriminate.
Qed.

Lemma head_lastGrant id l : head l = Some id -> lastGrant id l = Some (length l).
Proof. destruct l as [|x l]; cbn; [discriminate|]. intros [= ->]. rewrite String.eqb_refl. reflexivity. Qed.

(** Steps of a replica that leave the key, the log and its history alone. *)
Lemma own_quiet now sh r sh' r' :
  replicaInv now sh r -> sh_key sh' = sh_key sh -> sh_grants sh' = sh_grants sh ->
  rp_id r' = rp_id r -> rp_grant r' = rp_grant r -> rp_confirmed r' = rp_confirmed r ->
  rp_lease r' = rp_lease r ->
  (acceptedPc (rp_pc r') -> ls_degraded (rp_lock r') = false ->
   acceptedPc (rp_pc r) /\ ls_degraded (rp_lock r) = false) ->
  replicaInv now sh' r'.
Proof.
  intros [R1 R2 R3] E1 E2 E3 E4 E5 E6 Hp. split.
  - rewrite E4, E3, E2. exact R1.
  - rewrite E5, E4. intros Ha Hd. destruct (Hp Ha Hd). auto.
  - rewrite E6, E1, E3. exact R3.
Qed.

(** A renewal of its own extends the lease or leaves it. *)
Lemma own_renewal now sh r o key' :
  keyInv sh -> replicaInv now sh r -> renewScript now (ttlMs c) (rp_id r) (sh_key sh) = (o, key') ->
  (o = 1 -> rp_grant r = Some (length (sh_grants sh))) /\
  (now < rp_lease (renewed c now o r) -> rd_view key' = Some (mkRedisKey (rp_id r) (rp_lease (renewed c now o r)))).
Proof.
  intros Hk [R1 R2 R3] Hr. unfold renewed. pose proof (renewScript_cases _ _ _ _ _ _ Hr) as Hc.
  destruct Hc as [(-> & E & e & Ek)|[Ho _]].
  - rewrite decide_True by reflexivity. split; [|destruct r; intros _; assumption]. intros _. rewrite R1. apply head_lastGrant. exact (Hk _ Ek).
  - split; [contradiction|]. destruct (decide (o = 1)); [contradiction|]. intros Hl.
    destruct (renew_mine now (ttlMs c) (rp_id r) _ _ (R3 Hl) Hl eq_refl) as [Hm _]. congruence.
Qed.

Ltac quiet Hi :=
  refine (own_quiet _ _ _ _ _ Hi _ _ _ _ _ _ _); cbn in *; try reflexivity;
  try (intros Hacc Hdeg; cbn in * ).

Lemma act_own now sh r sh' r' :
  keyInv sh -> replicaInv now sh r -> act now (sh, r) (sh', r') -> replicaInv now sh' r'.
Proof.
  intros Hk Hi Ha. destruct r as [pr id lk pc bt g cf le], sh as [k lo gr].
  inversion Ha; subst; clear Ha; cbn in *; subst;
    try (quiet Hi; try contradiction; try discriminate; try (split; assumption); fail);
    try (quiet Hi; unfold nextAttempt in *; destruct (_ <? _)%nat; cbn in *;
         try contradiction; try discriminate; fail).
  - (* SET *)
    match goal with H : setNX _ _ _ _ = _ |- _ => apply setNX_cases in H as [[-> Hv]|[-> ->]] end; cbn.
    + split; cbn; [rewrite String.eqb_refl; reflexivity | contradiction | intros _; exact Hv].
    + quiet Hi. contradiction.
  - (* abandoned *)
    quiet Hi. match goal with H : renewStart _ _ _ = _ |- _ => apply renewStart_degraded in H end.
    split; [assumption | congruence].
  - (* beat *)
    match goal with H : renewScript _ _ _ _ = _ |- _ =>
      destruct (own_renewal _ (mkShared k lo gr) _ _ _ Hk Hi H) as [_ Hl] end.
    destruct Hi as [R1 R2 R3]. unfold renewed in *. destruct (decide (o = 1)); split; cbn in *; auto.
  - quiet Hi. rewrite renewReply_degraded in Hdeg. auto.
  - quiet Hi. rewrite renewError_degraded in Hdeg. auto.
  - quiet Hi. rewrite renewError_degraded in Hdeg. auto.
  - (* finished without asking *)
    quiet Hi. subst. unfold confirmStart in *. rewrite Hdeg in *. destruct (isHeld lk); discriminate.
  - (* final check *)
    match goal with H : renewScript _ _ _ _ = _ |- _ =>
      destruct (own_renewal _ (mkShared k lo gr) _ _ _ Hk Hi H) as [Hg Hl] end.
    destruct Hi as [R1 R2 R3]. unfold renewed, confirmedNow in *.
    destruct (decide (o = 1)) as [->|]; split; cbn in *; auto; try contradiction.
    intros _ _. rewrite (Hg eq_refl). auto.
  - quiet Hi. match goal with H : confirmReply _ _ = _ |- _ => apply confirmReply_spec in H as [Hd Hb] end.
    split; [auto | congruence].
  - match goal with H : releaseLocal _ = _ |- _ => apply releaseLocal_degraded in H as Hd end.
    destruct (ls_everAcquired lk), send; quiet Hi; (split; [assumption | congruence]).
  - destruct Hi as [R1 R2 R3]. split; cbn in *; [exact R1 | exact R2 | lia].
Qed.
End Invariants.

(** ** What the lock guarantees *)

Section Guarantees.
Context (c : DistributedLockConfig) (failClosed : bool).

Record systemInv (s : LockSystem) : Prop := {
  si_key : keyInv (sy_shared s);
  si_ids : NoDup (map rp_id (sy_replicas s));
  si_replicas : forall i r, sy_replicas s !! i = Some r -> replicaInv (sy_now s) (sy_shared s) r;
}.

Lemma ids_distinct rs i j (ri rj : Replica) :
  NoDup (map rp_id rs) -> rs !! i = Some ri -> rs !! j = Some rj -> i <> j -> rp_id ri <> rp_id rj.
Proof.
  intros Hn Hi Hj Hij He. apply Hij. apply (NoDup_lookup (map rp_id rs) i j (rp_id ri) Hn).
  - rewrite list_lookup_fmap, Hi. reflexivity.
  - rewrite list_lookup_fmap, Hj, He. reflexivity.
Qed.

Lemma map_insert_same {A B} (f : A -> B) l i x y :
  l !! i = Some x -> f y = f x -> map f (<[i := y]> l) = map f l.
Proof.
  intros Hi Hf. apply list_eq. intros j. rewrite !list_lookup_fmap.
  destruct (decide (i = j)) as [->|Hn].
  - rewrite list_lookup_insert_eq by (eapply lookup_lt_Some; exact Hi). rewrite Hi. cbn. congruence.
  - rewrite list_lookup_insert_ne by exact Hn. reflexivity.
Qed.

Lemma lkstep_inv s s' : systemInv s -> lkstep c failClosed s s' -> systemInv s'.
Proof.
  intros [K N R] Hs. destruct Hs as [now now' sh rs Hle|now sh rs i r sh' r' Hi Ha]; cbn in *.
  - split; cbn; [exact K | exact N|]. intros i r Hi. destruct (R i r Hi) as [R1 R2 R3].
    split; [exact R1 | exact R2|]. intros Hl. apply R3. lia.
  - pose proof (act_id c failClosed _ _ _ _ _ Ha) as [Hid _].
    split; cbn.
    + exact (act_key c failClosed _ _ _ _ _ K Ha).
    + rewrite (map_insert_same rp_id rs i r r' Hi Hid). exact N.
    + intros j q Hj. destruct (decide (i = j)) as [->|Hn].
      * rewrite list_lookup_insert_eq in Hj by (eapply lookup_lt_Some; exact Hi). injection Hj as <-.
        exact (act_own c failClosed _ _ _ _ _ K (R j r Hi) Ha).
      * rewrite list_lookup_insert_ne in Hj by exact Hn.
        apply (act_frame c failClosed _ _ _ _ _ q Ha); [|exact (R j q Hj)].
        apply (ids_distinct rs j i q r N Hj Hi). congruence.
Qed.

Lemma lkreachable_inv s : lkreachable c failClosed s -> systemInv s.
Proof.
  induction 1 as [s (Hsh & Hn & Ht & Hr)|s s' _ IH Hs]; [|exact (lkstep_inv _ _ IH Hs)].
  split; [rewrite Hsh; intros k Hk; cbn in Hk; rewrite rd_absent_view in Hk; discriminate | exact Hn|].
  intros i r Hi. rewrite (Hr i r Hi), Hsh. split; cbn; [reflexivity | contradiction | lia].
Qed.

(** A run whose result [withDistributedLock] accepts, under a lock in Redis. *)
Definition acceptedRun (r : Replica) : Prop := rp_pc r = PDone true /\ ls_degraded (rp_lock r) = false.

(** C37. Accepted runs never overlap. Number the successful SETs of the key.
    When the final check of an accepted run was answered, the latest SET was
    still the run's own: nobody had been granted the lock since it was. So of
    two accepted runs one was checked before the other was granted the lock,
    whatever expired, was stolen, or was delayed or lost on the way. *)
Theorem accepted_runs_disjoint s i j ri rj :
  lkreachable c failClosed s ->
  sy_replicas s !! i = Some ri -> sy_replicas s !! j = Some rj -> i <> j ->
  acceptedRun ri -> acceptedRun rj ->
  exists gi gj, rp_grant ri = Some gi /\ rp_confirmed ri = Some gi /\
                rp_grant rj = Some gj /\ rp_confirmed rj = Some gj /\ gi <> gj.
Proof.
  intros Hr Hi Hj Hij [Pi Di] [Pj Dj]. apply lkreachable_inv in Hr as [K N R].
  destruct (R i ri Hi) as [Gi Ci _], (R j rj Hj) as [Gj Cj _]. rewrite Pi in Ci. rewrite Pj in Cj.
  destruct (Ci eq_refl Di) as [Ei Ni], (Cj eq_refl Dj) as [Ej Nj].
  destruct (rp_grant ri) as [gi|] eqn:E1; [|congruence]. destruct (rp_grant rj) as [gj|] eqn:E2; [|congruence].
  exists gi, gj. repeat split; auto. intros ->.
  apply (ids_distinct _ i j ri rj N Hi Hj Hij). eapply lastGrant_inj; symmetry; eassumption.
Qed.

(** A lease protects its holder. Until the TTL set by a replica's last
    successful SET or renewal has run out on the server, the key is its own: no
    command of another replica, the release of a loser included, takes it away,
    and no other replica has a running lease. *)
Theorem lease_exclusive s i ri :
  lkreachable c failClosed s -> sy_replicas s !! i = Some ri -> sy_now s < rp_lease ri ->
  rd_view (sh_key (sy_shared s)) = Some (mkRedisKey (rp_id ri) (rp_lease ri)) /\
  forall j rj, sy_replicas s !! j = Some rj -> sy_now s < rp_lease rj -> j = i.
Proof.
  intros Hr Hi Hl. apply lkreachable_inv in Hr as [K N R].
  pose proof (ri_lease _ _ _ (R i ri Hi) Hl) as Hk. split; [exact Hk|].
  intros j rj Hj Hlj. destruct (decide (j = i)) as [|Hn]; [assumption|].
  pose proof (ri_lease _ _ _ (R j rj Hj) Hlj) as Hkj. rewrite Hk in Hkj. injection Hkj as Hid _.
  destruct (ids_distinct _ i j ri rj N Hi Hj ltac:(congruence) Hid).
Qed.
End Guarantees.

(** ** Runs *)

Section Runs.
Context (c : DistributedLockConfig) (failClosed : bool).

Notation step := (lkstep c failClosed).

Lemma lkreachable_rtc s s' : lkreachable c failClosed s -> rtc step s s' -> lkreachable c failClosed s'.
Proof. intros Hr Hs. induction Hs as [|x y z Hxy _ IH]; [exact Hr|]. apply IH. econstructor; eassumption. Qed.

Lemma act_then now sh rs i r sh' r' s' :
  lkact c failClosed now (sh, r) (sh', r') ->
  (i < length rs)%nat ->
  rtc step (mkSystem now sh' (<[i := r']> rs)) s' ->
  rtc step (mkSystem now sh (<[i := r]> rs)) s'.
Proof.
  intros Ha Hi Hs. eapply rtc_l; [|exact Hs].
  rewrite <- (list_insert_insert_eq rs i r' r). apply lk_act with (r := r); [|exact Ha].
  apply list_lookup_insert_eq. exact Hi.
Qed.

(** A replica after an undisturbed run at one instant, the [g]th grant. *)
Definition finished (now : Z) (process : nat) (id : string) (g : nat) : Replica :=
  mkReplica process id (snd (releaseLocal (markAcquired c now newLock))) (PDone true) BeatIdle
    (Some g) (Some g) now.

Lemma undisturbed_steps now sh rs i process id :
  (i < length rs)%nat -> process ∉ sh_local sh -> live now (rd_view (sh_key sh)) = None -> 0 < ttlMs c ->
  exists key', rd_view key' = None /\
  rtc step (mkSystem now sh (<[i := newReplica process id]> rs))
    (mkSystem now (mkShared key' (sh_local sh) (id :: sh_grants sh))
       (<[i := finished now process id (S (length (sh_grants sh)))]> rs)).
Proof.
  intros Hi Hp Hk Ht. destruct sh as [k lo gr]. cbn in Hp, Hk.
  destruct (setNX now (ttlMs c) id k) as [ok k1] eqn:Es.
  destruct (rd_set_free now (ttlMs c) id k Hk) as [E1 V1]. unfold setNX in Es. rewrite Es in E1, V1.
  cbn in E1, V1. subst ok. set (lease := mkRedisKey id (now + ttlMs c)) in *.
  assert (Hl : now < rk_expiresAt lease) by (cbn; lia).
  destruct (renew_mine now (ttlMs c) id k1 lease V1 Hl eq_refl) as [Em V2].
  pose proof (release_mine now id _ lease V2 Hl eq_refl) as Er.
  assert (Hlo : ({[process]} ∪ lo) ∖ {[process]} = lo) by set_solver.
  exists (rd_del (rd_pexpire now (ttlMs c) k1)). split; [apply rd_del_view|].
  eapply act_then; [apply a_check; [reflexivity | exact Hp] | exact Hi |].
  eapply act_then; [apply a_connected; reflexivity | exact Hi |].
  eapply act_then; [eapply a_set; [reflexivity | exact Es] | exact Hi |].
  eapply act_then; [eapply a_set_ok; reflexivity | exact Hi |].
  eapply act_then; [eapply a_finish_confirm; reflexivity | exact Hi |].
  eapply act_then; [eapply a_confirm; [reflexivity | exact Em] | exact Hi |].
  eapply act_then; [eapply a_confirm_reply; reflexivity | exact Hi |].
  eapply act_then; [eapply a_release; reflexivity | exact Hi |].
  eapply act_then; [eapply a_release_exec; reflexivity | exact Hi |].
  unfold confirmedNow, renewed. rewrite !decide_True by reflexivity. cbn -[releaseScript].
  rewrite Er, Hlo. apply rtc_refl.
Qed.
End Runs.

(** Without Redis nothing stops two runs of one process from overlapping: the
    in-process set is looked up before the client is awaited and written after. *)
Theorem degraded_overlap c :
  let r n id := running c n (degrade newLock) ((newReplica 0 id) {{ rp_pc := PConnect }}) in
  lkreachable c false
    (mkSystem 0 (mkShared rd_absent {[0%nat]} []) [r 0 "a"%string; r 0 "b"%string]) /\
  forall n id, isHeld (rp_lock (r n id)) = true /\ rp_pc (r n id) = PRun.
Proof.
  intros r. split; [|split; reflexivity].
  pose (init := [newReplica 0 "a"; newReplica 0 "b"]).
  apply (lkreachable_rtc c false (mkSystem 0 (mkShared rd_absent ∅ []) init)).
  { apply lkr_init. split; [reflexivity|]. split; [|split; [cbn; lia|]].
    - cbn. apply NoDup_cons. split; [|apply NoDup_singleton]. set_solver.
    - intros [|[|i]] x Hx; cbn in Hx; try discriminate; injection Hx as <-; reflexivity. }
  change init with (<[0%nat := newReplica 0 "a"]> init).
  eapply act_then; [apply a_check; [reflexivity | set_solver] | cbn; lia | cbn].
  match goal with |- rtc _ (mkSystem _ _ ?l) _ => change l with (<[1%nat := newReplica 0 "b"]> l) end.
  eapply act_then; [apply a_check; [reflexivity | set_solver] | cbn; lia | cbn].
  match goal with |- rtc _ (mkSystem _ _ ?l) _ =>
    change l with (<[0%nat := (newReplica 0 "a") {{ rp_pc := PConnect }}]> l) end.
  eapply act_then; [apply a_degraded; reflexivity | cbn; lia | cbn].
  match goal with |- rtc _ (mkSystem _ _ ?l) _ =>
    change l with (<[1%nat := (newReplica 0 "b") {{ rp_pc := PConnect }}]> l) end.
  eapply act_then; [apply a_degraded; reflexivity | cbn; lia | cbn].
  unfold enterLocal. cbn. replace ({[0%nat]} ∪ ({[0%nat]} ∪ ∅)) with ({[0%nat]} : gset nat) by set_solver.
  apply rtc_refl.
Qed.

End WithServer.

Section FailClosed.
Context (c : DistributedLockConfig).

Lemma renewError_iter n : forall l,
  ls_lost l = None -> ls_failures l + Z.of_nat n < maxRenewFailures c ->
  Nat.iter n (renewError c) l = l {{ ls_failures := ls_failures l + Z.of_nat n }}.
Proof.
  induction n as [|n IH]; intros l Hl Hn.
  - destruct l; cbn. f_equal. unfold Z.of_nat. lia.
  - rewrite Nat.iter_succ, IH by (try assumption; lia).
    unfold renewError. destruct l as [h lo aq ev f t d]; cbn in *.
    destruct (Z.leb_spec (maxRenewFailures c) (f + Z.of_nat n + 1)); [lia|]. f_equal. lia.
Qed.

(** The heartbeat fails closed. A held lock survives fewer renewal errors
    in a row than the configured number and is lost at that number; an answer
    other than "yours" loses it at once; past the hold cap it is given up
    without asking. Once lost, [assertHeld] throws, the final check refuses the
    run without asking Redis, no further renewal is sent, and nothing but a new
    acquisition brings it back. *)
Theorem heartbeat_fails_closed name now l n o :
  isHeld l = true -> ls_failures l = 0 -> ls_degraded l = false -> Z.of_nat (S n) = maxRenewFailures c ->
  let gone l' := (exists e, assertHeld name l' = inl e /\ isLockLostError e = true) /\
                 confirmStart l' = Some false /\ renewStart c now l' = BeatSkip in
  isHeld (Nat.iter n (renewError c) l) = true /\
  gone (Nat.iter (S n) (renewError c) l) /\
  (o <> 1 -> gone (renewReply o l)) /\
  (ls_timer l = true -> maxHoldMs c <= now - ls_acquiredAtMs l ->
   exists l', renewStart c now l = BeatAbandon l' /\ gone l') /\
  (forall o' l', ls_lost l' <> None -> ls_degraded l' = false ->
     gone l' /\ gone (renewReply o' l') /\ gone (renewError c l')).
Proof.
  intros Hh Hf Hd Hn gone.
  destruct l as [h lo aq ev f t d]. unfold isHeld in Hh. cbn in Hh, Hf, Hd. subst f d.
  destruct h; [|discriminate]. destruct lo; [discriminate|].
  assert (Hlost : forall h r aq ev f t, gone (mkLockState h (Some r) aq ev f t false)).
  { intros h r aq' ev' f' t'. unfold gone, confirmStart, renewStart, isHeld. cbn.
    rewrite !andb_false_r, orb_true_r. split; [|split; reflexivity]. eexists. split; reflexivity. }
  split; [|split; [|split; [|split]]].
  - rewrite renewError_iter by (cbn; auto; lia). reflexivity.
  - rewrite Nat.iter_succ, renewError_iter by (cbn; auto; lia). unfold renewError. cbn -[Z.of_nat].
    destruct (Z.leb_spec (maxRenewFailures c) (0 + Z.of_nat n + 1)); [|lia]. apply Hlost.
  - intros Ho. unfold renewReply. destruct (decide (o = 1)); [contradiction|]. apply Hlost.
  - intros Ht Hm. cbn in Ht, Hm. subst t. unfold renewStart, isHeld. cbn.
    destruct (Z.leb_spec (maxHoldMs c) (now - aq)); [|lia]. eexists. split; [reflexivity|]. apply Hlost.
  - intros o' [h [r|] aq' ev' f' t' d'] Hl Hd; cbn in Hl, Hd; [subst d'|congruence].
    unfold renewReply, renewError, markLost. cbn -[Z.add].
    destruct (decide (o' = 1)), (maxRenewFailures c <=? _); repeat split; apply Hlost.
Qed.

(** Heartbeats are early enough: the renewal period is at most half the TTL,
    and with the default period and number of tolerated errors the lock is
    given up before the TTL of its last renewal has run out. *)
Theorem renewal_period :
  1 <= ttlSeconds c ->
  MIN_TIMER_MS <= renewIntervalMs c /\ 2 * renewIntervalMs c <= ttlMs c /\
  (renewIntervalSeconds c = None -> DEFAULT_MAX_RENEW_FAILURES * renewIntervalMs c < ttlMs c).
Proof.
  intros Ht. unfold renewIntervalMs, MIN_TIMER_MS, DEFAULT_MAX_RENEW_FAILURES, ttlMs in *.
  set (t := ttlSeconds c * 1000) in *. assert (1000 <= t) by (subst t; lia).
  pose proof (Z.mul_div_le t 2 ltac:(lia)). pose proof (Z.mul_div_le t 3 ltac:(lia)).
  pose proof (Z.div_le_lower_bound t 2 500 ltac:(lia) ltac:(lia)).
  split; [lia|]. split; [lia|]. intros ->. pose proof (Z.div_le_compat_l t 2 3 ltac:(lia) ltac:(lia)). lia.
Qed.
End FailClosed.
