(* ===== verification/Schema.v ===== *)
(** * The database schema (src/prisma/schema.prisma)

    The tables the modelled services read and write: enumerations, one record
    per model, and [DB] with one map per table. The tables outside the money
    path (tournaments, statistics, keys) are grouped in [AuxDB]. *)

From Stdlib Require Import ZArith QArith.
From stdpp Require Import base gmap strings list.
From S2P Require Import Prelude.
From S2P Require Import Numeric.

#[local] Open Scope Z_scope.

(** ** Enumerations of the schema *)

Inductive GameMode : Type := UP_DOWN | LEGENDS.
Inductive RoundStatus : Type := PENDING | ACTIVE | LOCKED | RESOLVED | CANCELLED.
Inductive PredictionSide : Type := UP | DOWN.
Inductive PredictionChainStatus : Type :=
  PC_NOT_REQUIRED | PC_PENDING | PC_SUBMITTED | PC_CONFIRMED | PC_FAILED | PC_NEEDS_MANUAL_REVIEW.
Inductive BetStatus : Type :=
  BET_ACCEPTED | BET_SUBMITTED | BET_CONFIRMED | BET_RESOLVED | BET_FAILED.
Inductive BetMode : Type := MODE_UP_DOWN | MODE_PRECISION.
Inductive ClaimStatus : Type :=
  CL_PENDING | CL_SUBMITTED | CL_CONFIRMED | CL_FAILED | CL_NEEDS_MANUAL_REVIEW.
Inductive OutboxEventType : Type :=
  EV_NOTIFICATION_CREATE | EV_WEBSOCKET_EMIT | EV_BET_ACCEPTED | EV_BET_CONFIRMED
| EV_BET_RESOLVED | EV_BET_FAILED.
Inductive OutboxEventStatus : Type := OB_PENDING | OB_PROCESSING | OB_PROCESSED | OB_FAILED.
Inductive NotificationType : Type := N_WIN | N_LOSS | N_ROUND_START | N_BONUS_AVAILABLE | N_ANNOUNCEMENT.
Inductive DispatchChannel : Type := CH_NOTIFICATION_CREATE | CH_WEBSOCKET_EMIT.
Inductive DispatchStatus : Type := DS_PENDING | DS_RETRYING | DS_RESOLVED | DS_ABANDONED.

#[export] Instance GameMode_eq_dec : EqDecision GameMode.
Proof. solve_decision. Defined.
#[export] Instance RoundStatus_eq_dec : EqDecision RoundStatus.
Proof. solve_decision. Defined.
#[export] Instance PredictionSide_eq_dec : EqDecision PredictionSide.
Proof. solve_decision. Defined.
#[export] Instance PredictionChainStatus_eq_dec : EqDecision PredictionChainStatus.
Proof. solve_decision. Defined.
#[export] Instance BetStatus_eq_dec : EqDecision BetStatus.
Proof. solve_decision. Defined.
#[export] Instance BetMode_eq_dec : EqDecision BetMode.
Proof. solve_decision. Defined.
#[export] Instance ClaimStatus_eq_dec : EqDecision ClaimStatus.
Proof. solve_decision. Defined.
#[export] Instance OutboxEventType_eq_dec : EqDecision OutboxEventType.
Proof. solve_decision. Defined.
#[export] Instance OutboxEventStatus_eq_dec : EqDecision OutboxEventStatus.
Proof. solve_decision. Defined.
#[export] Instance NotificationType_eq_dec : EqDecision NotificationType.
Proof. solve_decision. Defined.
#[export] Instance DispatchChannel_eq_dec : EqDecision DispatchChannel.
Proof. solve_decision. Defined.
#[export] Instance DispatchStatus_eq_dec : EqDecision DispatchStatus.
Proof. solve_decision. Defined.

(** The strings the enumerations are stored and printed as. *)
Definition GameMode_str (m : GameMode) : string :=
  match m with UP_DOWN => "UP_DOWN" | LEGENDS => "LEGENDS" end.
Definition RoundStatus_str (s : RoundStatus) : string :=
  match s with
  | PENDING => "PENDING" | ACTIVE => "ACTIVE" | LOCKED => "LOCKED"
  | RESOLVED => "RESOLVED" | CANCELLED => "CANCELLED"
  end.
Definition PredictionSide_str (s : PredictionSide) : string :=
  match s with UP => "UP" | DOWN => "DOWN" end.
Definition NotificationType_str (t : NotificationType) : string :=
  match t with
  | N_WIN => "WIN" | N_LOSS => "LOSS" | N_ROUND_START => "ROUND_START"
  | N_BONUS_AVAILABLE => "BONUS_AVAILABLE" | N_ANNOUNCEMENT => "ANNOUNCEMENT"
  end.
Definition OutboxEventType_str (t : OutboxEventType) : string :=
  match t with
  | EV_NOTIFICATION_CREATE => "NOTIFICATION_CREATE" | EV_WEBSOCKET_EMIT => "WEBSOCKET_EMIT"
  | EV_BET_ACCEPTED => "BET_ACCEPTED" | EV_BET_CONFIRMED => "BET_CONFIRMED"
  | EV_BET_RESOLVED => "BET_RESOLVED" | EV_BET_FAILED => "BET_FAILED"
  end.

(** ** JSON values

    A date inside a payload is kept as its timestamp ([toISOString] is the
    language's own rendering of it). *)

Inductive Json : Type :=
| JNull
| JBool (b : bool)
| JNum (n : num)
| JStr (s : string)
| JDate (ms : Z)
| JArr (l : list Json)
| JObj (fields : list (string * Json)).

Fixpoint jsonField (k : string) (fields : list (string * Json)) : option Json :=
  match fields with
  | [] => None
  | (k', v) :: fs => if String.eqb k k' then Some v else jsonField k fs
  end.

Definition jOptStr (o : option string) : Json := match o with Some s => JStr s | None => JNull end.
Definition jOptDate (o : option Z) : Json := match o with Some t => JDate t | None => JNull end.
Definition jOptSide (o : option PredictionSide) : Json :=
  match o with Some s => JStr (PredictionSide_str s) | None => JNull end.

(** ** Rows

    Money and price columns are integers, in units of 1e-8. *)

Record User : Type := mkUser {
  u_id : string;
  u_walletAddress : string;
  u_virtualBalance : Z;
  u_wins : Z;
  u_streak : Z;
  u_notificationPreferences : Json;
}.

Record Round : Type := mkRound {
  r_id : string;
  r_mode : GameMode;
  r_status : RoundStatus;
  r_startPrice : Z;
  r_endPrice : option Z;
  r_startTime : Z;
  r_endTime : Z;
  r_sorobanRoundId : option string;
  r_isSoroban : bool;
  r_poolUp : Z;
  r_poolDown : Z;
  r_priceRanges : Json;
  r_resolvedAt : option Z;
}.

Record Prediction : Type := mkPrediction {
  p_id : string;
  p_userId : string;
  p_roundId : string;
  p_side : option PredictionSide;
  p_amount : Z;
  p_priceRange : Json;
  p_won : option bool;
  p_payout : option Z;
  p_chainStatus : PredictionChainStatus;
  p_txHash : option string;
  p_chainAttemptCount : Z;
  p_chainFailureReason : option string;
  p_chainSubmittedAt : option Z;
  p_chainConfirmedAt : option Z;
  p_chainFailedAt : option Z;
  p_compensatedAt : option Z;
  p_createdAt : Z;
}.

Record Bet : Type := mkBet {
  b_id : string;
  b_userId : string;
  b_roundId : option string;
  b_mode : BetMode;
  b_side : option PredictionSide;
  b_amount : Z;
  b_predictedPrice : option Z;
  b_status : BetStatus;
  b_txHash : option string;
  b_failureReason : option string;
  b_submittedAt : option Z;
  b_confirmedAt : option Z;
  b_resolvedAt : option Z;
  b_failedAt : option Z;
  b_createdAt : Z;
}.

Record Claim : Type := mkClaim {
  c_id : string;
  c_userId : option string;
  c_walletAddress : string;
  c_amount : option Z;
  c_status : ClaimStatus;
  c_txHash : option string;
  c_attempts : Z;
  c_lastError : option string;
  c_claimedAt : option Z;
  c_createdAt : Z;
  c_updatedAt : Z;
}.

Record OutboxEvent : Type := mkOutboxEvent {
  o_id : string;
  o_eventType : OutboxEventType;
  o_aggregateId : string;
  o_aggregateType : string;
  o_payload : Json;
  o_status : OutboxEventStatus;
  o_attempts : Z;
  o_lastError : option string;
  o_processedAt : option Z;
  o_createdAt : Z;
}.

Record Notification : Type := mkNotification {
  n_id : string;
  n_userId : string;
  n_type : NotificationType;
  n_title : string;
  n_message : string;
  n_data : Json;
  n_isRead : bool;
  n_createdAt : Z;
}.

Record FailedDispatch : Type := mkFailedDispatch {
  f_id : string;
  f_channel : DispatchChannel;
  f_eventName : option string;
  f_userId : option string;
  f_payload : Json;
  f_attempts : Z;
  f_status : DispatchStatus;
  f_lastError : string;
  f_createdAt : Z;
  f_lastRetryAt : option Z;
  f_resolvedAt : option Z;
}.

(** ** Tables outside the money path *)

Inductive TournamentStatus : Type := T_UPCOMING | T_ACTIVE | T_COMPLETED | T_CANCELLED.

#[export] Instance TournamentStatus_eq_dec : EqDecision TournamentStatus.
Proof. solve_decision. Defined.

Definition TournamentStatus_str (s : TournamentStatus) : string :=
  match s with
  | T_UPCOMING => "UPCOMING" | T_ACTIVE => "ACTIVE"
  | T_COMPLETED => "COMPLETED" | T_CANCELLED => "CANCELLED"
  end.

Inductive TransactionType : Type := TX_BONUS | TX_WIN | TX_LOSS | TX_WITHDRAWAL | TX_DEPOSIT.

#[export] Instance TransactionType_eq_dec : EqDecision TransactionType.
Proof. solve_decision. Defined.

Record Tournament : Type := mkTournament {
  t_id : string;
  t_name : string;
  t_description : string;
  t_mode : GameMode;
  t_status : TournamentStatus;
  t_entryFee : Z;
  t_prizePool : Z;
  t_maxParticipants : Z;
  t_currentParticipants : Z;
  t_startTime : Z;
  t_endTime : Z;
  t_rounds : Z;
  t_createdAt : Z;
}.

Record TournamentParticipant : Type := mkParticipant {
  tp_id : string;
  tp_tournamentId : string;
  tp_userId : string;
  tp_joinedAt : Z;
}.

(** Keyed by the user, whose column is unique. *)
Record UserStats : Type := mkUserStats {
  us_userId : string;
  us_totalPredictions : Z;
  us_correctPredictions : Z;
  us_totalEarnings : Z;
  us_upDownWins : Z;
  us_upDownLosses : Z;
  us_upDownEarnings : Z;
  us_legendsWins : Z;
  us_legendsLosses : Z;
  us_legendsEarnings : Z;
}.

Record Transaction : Type := mkTransaction {
  x_id : string;
  x_userId : string;
  x_amount : Z;
  x_type : TransactionType;
  x_description : option string;
  x_createdAt : Z;
}.

Record AuxDB : Type := mkAux {
  tournaments : gmap string Tournament;
  participants : gmap string TournamentParticipant;
  userStats : gmap string UserStats;
  transactions : gmap string Transaction;
}.

(** ** The database *)

Record DB : Type := mkDB {
  users : gmap string User;
  rounds : gmap string Round;
  predictions : gmap string Prediction;
  bets : gmap string Bet;
  claims : gmap string Claim;
  outbox : gmap string OutboxEvent;
  notifications : gmap string Notification;
  failedDispatches : gmap string FailedDispatch;
  aux : AuxDB;
}.
