(* ===== verification/Store.v ===== *)
(** * The world of the services

    The Prisma operations on the tables of [Schema], transactions, and the
    process state the handlers share: the chain client's call history,
    the breaker and limiter of the Soroban service, the clock. *)

From Stdlib Require Import ZArith QArith Lia.
From stdpp Require Import base gmap strings list pretty.
From S2P Require Import Prelude.
From S2P Require Import Numeric.
From S2P Require Import Errors.
From S2P Require Import CircuitBreaker.
From S2P Require Import Resilience.
From S2P Require Import Schema.

#[local] Open Scope Z_scope.

(** ** Chain calls *)

Inductive ChainCall : Type :=
| CallCreateRound (startPrice : Z) (mode : Z)
| CallPlaceBet (user : string) (amount : Z) (side : PredictionSide)
| CallPlacePrecision (user : string) (amount predictedPrice : Z)
| CallResolveRound (price : Z) (roundId : Z) (timestamp : Z)
| CallClaimWinnings (user : string)
| CallGetPendingWinnings (user : string)
| CallGetUserPosition (user : string) (roundId : option string)
| CallGetTransaction (hash : string)
| CallGetActiveRound
| CallMintInitial (user : string)
| CallGetBalance (user : string)
| CallGetUserStats (user : string).

(** [Round] and [UserStats] of the contract. *)
Record ChainRound : Type := mkChainRound {
  ch_round_id : Z;
  ch_mode : Z;
  ch_price_start : Z;
  ch_pool_up : Z;
  ch_pool_down : Z;
  ch_start_ledger : Z;
  ch_bet_end_ledger : Z;
  ch_end_ledger : Z;
}.

Record ContractStats : Type := mkContractStats {
  cs_total_wins : Z;
  cs_total_losses : Z;
  cs_best_streak : Z;
  cs_current_streak : Z;
}.

(** What the client library resolves with: a transaction hash, the numeric
    result of the contract method ([None] when it is not a bigint), the
    position, the transaction status, the active round, the numbers of a
    wallet. *)
Record ChainReply : Type := mkChainReply {
  cr_hash : option string;
  cr_result : option Z;
  cr_position : option (PredictionSide * Z);
  cr_status : option string;
  cr_rpcError : option string;
  cr_round : option ChainRound;
  cr_stats : option ContractStats;
}.

(** ** The world *)

Record World : Type := mkWorld {
  w_db : DB;
  (** inside a transaction, what has been committed so far *)
  w_base : option DB;
  w_now : Z;
  (** identifiers generated so far *)
  w_nonce : nat;
  w_breaker : Breaker;
  w_limiter : Limiter;
  (** calls sent to the chain, the latest first *)
  w_calls : list ChainCall;
  (** WebSocket emissions, the latest first *)
  w_emits : list (string * string);
}.

#[export] Instance World_breaker : HasBreaker World := {
  getBreaker := w_breaker;
  setBreaker b w := w {{ w_breaker := b }};
  breakerClock := w_now;
}.

#[export] Instance World_limiter : HasLimiter World := {
  getLimiter := w_limiter;
  setLimiter l w := w {{ w_limiter := l }};
}.

#[export] Instance World_clock : HasClock World := {
  clock := w_now;
  sleep ms w := w {{ w_now := w_now w + ms }};
}.

(** What the deployment fixes: how the chain client answers, given everything
    that was sent to it so far (the call itself included, first); identifier
    generation; configuration; the oracle's freshness. *)
Class Env := {
  env_client : list ChainCall -> Outcome ChainReply;
  env_newid : nat -> string;
  env_sorobanReady : bool;
  env_failClosed : bool;
  env_betStubMode : bool;
  env_breakerOptions : CircuitBreakerOptions;
  env_oracleRunning : bool;
  env_oracleStale : bool;
  (** [err.stack], which the dead-letter queue records *)
  env_stack : Err -> string;
}.

Notation Svc A := (M World Err A).

(** ** Tables *)

Class Table (Row : Type) := {
  tbl : DB -> gmap string Row;
  set_tbl : gmap string Row -> DB -> DB;
}.

#[export] Instance Table_User : Table User :=
  {| tbl := users; set_tbl t d := d {{ users := t }} |}.
#[export] Instance Table_Round : Table Round :=
  {| tbl := rounds; set_tbl t d := d {{ rounds := t }} |}.
#[export] Instance Table_Prediction : Table Prediction :=
  {| tbl := predictions; set_tbl t d := d {{ predictions := t }} |}.
#[export] Instance Table_Bet : Table Bet :=
  {| tbl := bets; set_tbl t d := d {{ bets := t }} |}.
#[export] Instance Table_Claim : Table Claim :=
  {| tbl := claims; set_tbl t d := d {{ claims := t }} |}.
#[export] Instance Table_Outbox : Table OutboxEvent :=
  {| tbl := outbox; set_tbl t d := d {{ outbox := t }} |}.
#[export] Instance Table_Notification : Table Notification :=
  {| tbl := notifications; set_tbl t d := d {{ notifications := t }} |}.
#[export] Instance Table_FailedDispatch : Table FailedDispatch :=
  {| tbl := failedDispatches; set_tbl t d := d {{ failedDispatches := t }} |}.
#[export] Instance Table_Tournament : Table Tournament :=
  {| tbl d := tournaments (aux d); set_tbl t d := d {{ aux := (aux d) {{ tournaments := t }} }} |}.
#[export] Instance Table_Participant : Table TournamentParticipant :=
  {| tbl d := participants (aux d); set_tbl t d := d {{ aux := (aux d) {{ participants := t }} }} |}.
#[export] Instance Table_UserStats : Table UserStats :=
  {| tbl d := userStats (aux d); set_tbl t d := d {{ aux := (aux d) {{ userStats := t }} }} |}.
#[export] Instance Table_Transaction : Table Transaction :=
  {| tbl d := transactions (aux d); set_tbl t d := d {{ aux := (aux d) {{ transactions := t }} }} |}.

Definition modifyDB (f : DB -> DB) : Svc unit := modify (fun w => w {{ w_db := f (w_db w) }}).
Definition now : Svc Z := gets w_now.

Section TableOps.
Context {Row : Type} `{Table Row}.

Definition findUnique (k : string) : Svc (option Row) :=
  gets (fun w => tbl (w_db w) !! k).

Definition rowsWhere (f : Row -> bool) (d : DB) : list Row :=
  List.filter f (map_to_list (tbl d)).*2.

Definition findMany (f : Row -> bool) (gt : Row -> Row -> bool) : Svc (list Row) :=
  gets (fun w => sortBy gt (rowsWhere f (w_db w))).

Definition findFirst (f : Row -> bool) (gt : Row -> Row -> bool) : Svc (option Row) :=
  gets (fun w => head (sortBy gt (rowsWhere f (w_db w)))).

Definition putRow (k : string) (r : Row) : Svc unit :=
  modifyDB (fun d => set_tbl (<[k := r]> (tbl d)) d).

(** [update({ where: { id, ...cond }, data })]: P2025 without a match. *)
Definition updateWhere (k : string) (cond : Row -> bool) (f : Row -> Row) : Svc Row :=
  o <- findUnique k ;;
  match o with
  | Some r => if cond r then (putRow k (f r) ;;; ret (f r)) else throw (PrismaError "P2025")
  | None => throw (PrismaError "P2025")
  end.

Definition update (k : string) (f : Row -> Row) : Svc Row := updateWhere k (fun _ => true) f.

(** [updateMany({ where: { id, ...cond }, data })] on a key: the number of
    rows changed. *)
Definition updateManyById (k : string) (cond : Row -> bool) (f : Row -> Row) : Svc nat :=
  o <- findUnique k ;;
  match o with
  | Some r => if cond r then (putRow k (f r) ;;; ret 1%nat) else ret 0%nat
  | None => ret 0%nat
  end.

(** [deleteMany({ where })]: the number of rows deleted. *)
Definition deleteMany (f : Row -> bool) : Svc nat :=
  n <- gets (fun w => length (rowsWhere f (w_db w))) ;;
  modifyDB (fun d => set_tbl (filter (fun '(_, r) => f r = false) (tbl d)) d) ;;;
  ret n.

(** [updateMany({ where, data })]: the number of rows changed. *)
Definition updateMany (f : Row -> bool) (g : Row -> Row) : Svc nat :=
  n <- gets (fun w => length (rowsWhere f (w_db w))) ;;
  modifyDB (fun d => set_tbl ((fun r => if f r then g r else r) <$> tbl d) d) ;;;
  ret n.

(** [delete({ where: { id } })]: P2025 without the row. *)
Definition deleteById (k : string) : Svc Row :=
  o <- findUnique k ;;
  match o with
  | Some r => modifyDB (fun d => set_tbl (delete k (tbl d)) d) ;;; ret r
  | None => throw (PrismaError "P2025")
  end.

(** [create]: the primary key must be new. *)
Definition insertRow (k : string) (r : Row) : Svc Row :=
  o <- findUnique k ;;
  match o with
  | Some _ => throw (PrismaError "P2002")
  | None => putRow k r ;;; ret r
  end.
End TableOps.

(** No order requested. *)
Definition unordered {Row} (_ _ : Row) : bool := false.

Section Ids.
Context `{Env}.

(** [@default(uuid())] *)
Definition newId : Svc string :=
  n <- gets w_nonce ;;
  modify (fun w => w {{ w_nonce := S (w_nonce w) }}) ;;;
  ret (env_newid n).
End Ids.

(** ** Transactions *)

(** [prisma.$transaction]: commits on return, rolls the database back on
    throw. Issued while another transaction is open (the services then use the
    global client, not the transaction's), it runs on its own connection: it
    sees and changes the committed database at once, and the enclosing
    transaction sees its effect too, but rolling that one back does not undo
    it. The inner body is run on both, from the same identifier state. *)
Definition transaction {A} (m : Svc A) : Svc A := fun w =>
  match w_base w with
  | None =>
      match m (w {{ w_base := Some (w_db w) }}) with
      | (inr a, w') => (inr a, w' {{ w_base := None }})
      | (inl e, w') =>
          (inl e, w' {{ w_db := default (w_db w) (w_base w'); w_base := None }})
      end
  | Some base =>
      match m (w {{ w_db := base; w_base := Some base }}) with
      | (inr a, w') =>
          let '(_, v) := m w in
          (inr a, w' {{ w_db := w_db v; w_base := Some (w_db w') }})
      | (inl e, w') => (inl e, w' {{ w_db := w_db w; w_base := Some base }})
      end
  end.

(** ** WebSocket emissions *)

Definition emit (event room : string) : Svc unit :=
  modify (fun w => w {{ w_emits := (event, room) :: w_emits w }}).

(** [emitRoundUpdate]: to the general room, then to the round's own. *)
Definition emitRoundUpdate (roundId : string) : Svc unit :=
  emit "round_update" "round" ;;; emit "round_update" ("round:" +:+ roundId).

Definition emitRoundStarted (roundId : string) : Svc unit :=
  emit "round:started" "round" ;;; emitRoundUpdate roundId.

Definition emitRoundResolved (roundId : string) : Svc unit :=
  emit "round:resolved" "round" ;;; emitRoundUpdate roundId.

Definition emitNotification (userId : string) : Svc unit := emit "notification:new" ("user:" +:+ userId).

(** ** Outbox rows *)

Section Outbox.
Context `{Env}.

Definition createOutboxEvent (ty : OutboxEventType) (aggregateId aggregateType : string)
    (payload : Json) : Svc OutboxEvent :=
  id <- newId ;;
  t <- now ;;
  insertRow id (mkOutboxEvent id ty aggregateId aggregateType payload OB_PENDING 0 None None t).
End Outbox.

(** ** Running the primitives *)

(** Record updates compute once the world and its database are constructors. *)
Ltac open_world w :=
  destruct w as [[us rs ps bs cs ob ns fd ax] base tnow nonce brk lim calls emits].

(** ** Queries *)

Section Queries.
Context {Row : Type} `{Table Row}.

Lemma rowsWhere_spec f d r :
  r ∈ rowsWhere f d <-> (exists k, tbl d !! k = Some r) /\ f r = true.
Proof.
  unfold rowsWhere. rewrite list_elem_of_In, filter_In, <- list_elem_of_In.
  rewrite list_elem_of_fmap. split.
  - intros [([k r'] & -> & Hk) Hf]. split; [|exact Hf]. exists k.
    apply elem_of_map_to_list in Hk. exact Hk.
  - intros [[k Hk] Hf]. split; [|exact Hf]. exists (k, r). split; [reflexivity|].
    apply elem_of_map_to_list. exact Hk.
Qed.

Lemma rowsWhere_length f d : length (rowsWhere f d) = size (filter (fun '(_, r) => f r = true) (tbl d)).
Proof.
  unfold rowsWhere. generalize (tbl d). intros m. induction m as [|k r m Hk IH] using map_ind; [done|].
  assert (HP : forall a b : list Row, a ≡ₚ b -> length (List.filter f a) = length (List.filter f b)).
  { intros a b HP. induction HP; cbn; [done|destruct (f x); cbn; auto|destruct (f x), (f y); done|congruence]. }
  rewrite (HP _ (r :: (map_to_list m).*2)) by (by rewrite map_to_list_insert). cbn. destruct (f r) eqn:Ef.
  - rewrite map_filter_insert_True by done. rewrite map_size_insert_None by (by apply map_lookup_filter_None_2; left).
    cbn. by rewrite IH.
  - rewrite map_filter_insert_False by (by rewrite Ef). by rewrite delete_id.
Qed.

(** Rows read by a query have distinct identifiers, when the table is keyed by
    them. *)
Lemma rows_ids_NoDup (id : Row -> string) f d :
  (forall k r, tbl d !! k = Some r -> id r = k) -> NoDup (map id (rowsWhere f d)).
Proof.
  intros Hm. unfold rowsWhere.
  assert (HF : Forall (fun kr : string * Row => id kr.2 = kr.1) (map_to_list (tbl d))).
  { apply Forall_forall. intros [k r] Hk. apply elem_of_map_to_list in Hk. exact (Hm k r Hk). }
  pose proof (NoDup_fst_map_to_list (tbl d)) as Hn.
  induction HF as [|[k r] l Hk HF IH]; cbn in *; [constructor|].
  apply NoDup_cons in Hn as [Hni Hn]. specialize (IH Hn). destruct (f r); [|exact IH].
  cbn. apply NoDup_cons. split; [|exact IH]. rewrite Hk. intros Hin. apply Hni. clear IH Hni Hn.
  apply list_elem_of_fmap in Hin as (q & Hq & Hin). apply list_elem_of_In, filter_In in Hin as [Hin _].
  apply list_elem_of_In, list_elem_of_fmap in Hin as ([k' q'] & -> & Hin).
  rewrite Forall_forall in HF. pose proof (HF _ Hin) as E. cbn in *.
  apply list_elem_of_fmap. exists (k', q'). split; [cbn; congruence | exact Hin].
Qed.

(** A query reads each matching row once. *)
Lemma rowsWhere_filter f d :
  rowsWhere f d ≡ₚ (map_to_list (filter (fun '(_, r) => f r = true) (tbl d))).*2.
Proof.
  unfold rowsWhere.
  assert (Hp : forall l : list (string * Row), List.filter f (l.*2) = (List.filter (fun kr => f kr.2) l).*2).
  { induction l as [|[k r] l IH]; cbn; [done|]. destruct (f r); cbn; by rewrite <- IH. }
  rewrite Hp. apply fmap_Permutation, NoDup_Permutation; [|apply NoDup_map_to_list|].
  { apply NoDup_ListNoDup, List.NoDup_filter, NoDup_ListNoDup, NoDup_map_to_list. }
  intros [k r]. rewrite list_elem_of_In, filter_In, <- list_elem_of_In, !elem_of_map_to_list, map_lookup_filter_Some.
  reflexivity.
Qed.

Lemma rowsWhere_ext f d d' :
  (forall k r, f r = true -> tbl d !! k = Some r <-> tbl d' !! k = Some r) -> rowsWhere f d ≡ₚ rowsWhere f d'.
Proof.
  intros Heq. rewrite !rowsWhere_filter. enough (E : filter (fun '(_, r) => f r = true) (tbl d) = filter (fun '(_, r) => f r = true) (tbl d'))
    by (by rewrite E).
  apply map_eq. intros k. apply option_eq. intros r. rewrite !map_lookup_filter_Some.
  split; intros [Hk Hf]; split; try done; by apply (Heq k r Hf).
Qed.

Lemma sorted_rows f gt d r : r ∈ sortBy gt (rowsWhere f d) <-> r ∈ rowsWhere f d.
Proof. rewrite sortBy_Permutation. reflexivity. Qed.

Lemma findFirst_inv f gt w o w' :
  findFirst f gt w = (inr o, w') ->
  w' = w /\ match o with
            | Some r => (exists k, tbl (w_db w) !! k = Some r) /\ f r = true
            | None => forall k r, tbl (w_db w) !! k = Some r -> f r = false
            end.
Proof.
  unfold findFirst, gets. intros Hx. injection Hx as <- <-. split; [reflexivity|].
  destruct (head (sortBy gt (rowsWhere f (w_db w)))) as [r|] eqn:E.
  - apply rowsWhere_spec, (sorted_rows f gt). apply head_Some_elem_of, E.
  - intros k r Hk. destruct (f r) eqn:Ef; [|reflexivity]. exfalso.
    assert (Hr : r ∈ sortBy gt (rowsWhere f (w_db w))) by (apply sorted_rows, rowsWhere_spec; eauto).
    destruct (sortBy gt (rowsWhere f (w_db w))); [inversion Hr | discriminate].
Qed.

Lemma findMany_inv f gt w l w' :
  findMany f gt w = (inr l, w') ->
  w' = w /\ forall r, r ∈ l <-> (exists k, tbl (w_db w) !! k = Some r) /\ f r = true.
Proof.
  unfold findMany, gets. intros Hx. injection Hx as <- <-. split; [reflexivity|].
  intros r. rewrite sorted_rows. apply rowsWhere_spec.
Qed.

Lemma findMany_rows f gt w l w' : findMany f gt w = (inr l, w') -> w' = w /\ l ≡ₚ rowsWhere f (w_db w).
Proof. unfold findMany, gets. intros [= <- <-]. split; [reflexivity|]. apply sortBy_Permutation. Qed.

Lemma insertRow_inv k r w r' w' :
  insertRow k r w = (inr r', w') ->
  tbl (w_db w) !! k = None /\ r' = r /\ w' = final (putRow k r : Svc unit) w.
Proof.
  unfold insertRow, bind, findUnique, gets. cbn.
  destruct (tbl (w_db w) !! k); intros Hx; [discriminate|]. injection Hx as <- <-. auto.
Qed.

Lemma updateWhere_inv k c f w r' w' :
  updateWhere k c f w = (inr r', w') ->
  exists r, tbl (w_db w) !! k = Some r /\ c r = true /\ r' = f r /\
            w' = final (putRow k (f r) : Svc unit) w.
Proof.
  unfold updateWhere, bind, findUnique, gets. cbn.
  destruct (tbl (w_db w) !! k) as [r|]; [|discriminate].
  destruct (c r) eqn:Ec; [|discriminate]. intros Hx. injection Hx as <- <-. eauto.
Qed.

Lemma update_inv k f w r' w' :
  update k f w = (inr r', w') ->
  exists r, tbl (w_db w) !! k = Some r /\ r' = f r /\ w' = final (putRow k (f r) : Svc unit) w.
Proof. intros Hu. apply updateWhere_inv in Hu as (r & H1 & _ & H2 & H3). eauto. Qed.

Lemma update_some k f w r :
  tbl (w_db w) !! k = Some r -> update k f w = (inr (f r), final (putRow k (f r) : Svc unit) w).
Proof.
  intros Hr. unfold update, updateWhere, bind, findUnique, gets. cbn. rewrite Hr. reflexivity.
Qed.

Lemma updateManyById_some k c f w r :
  tbl (w_db w) !! k = Some r -> c r = true ->
  updateManyById k c f w = (inr 1%nat, final (putRow k (f r) : Svc unit) w).
Proof.
  intros Hr Hc. unfold updateManyById, bind, findUnique, gets. cbn. rewrite Hr, Hc. reflexivity.
Qed.

Lemma updateWhere_err k c f w e w' :
  updateWhere k c f w = (inl e, w') -> e = PrismaError "P2025" /\ w' = w.
Proof.
  unfold updateWhere, bind, findUnique, gets. cbn.
  destruct (tbl (w_db w) !! k) as [r|]; [destruct (c r)|]; intros Hx; try discriminate;
    injection Hx as <- <-; auto.
Qed.

Lemma tbl_putRow (Hset : forall t d, tbl (set_tbl (Row := Row) t d) = t) k r w :
  tbl (w_db (final (putRow k r : Svc unit) w)) = <[k := r]> (tbl (w_db w)).
Proof. unfold final, putRow, modifyDB, modify. open_world w. cbn. apply Hset. Qed.
End Queries.

(** What a write does to the database, for any table. *)
Lemma db_put {Row} `{Table Row} k (r : Row) w :
  w_db (final (putRow k r : Svc unit) w) = set_tbl (<[k := r]> (tbl (w_db w))) (w_db w).
Proof. destruct w. reflexivity. Qed.

Lemma base_put {Row} `{Table Row} k (r : Row) w : w_base (final (putRow k r : Svc unit) w) = w_base w.
Proof. destruct w. reflexivity. Qed.

Lemma newId_inv `{Env} w id w' : newId w = (inr id, w') -> w_db w' = w_db w /\ w_base w' = w_base w.
Proof. unfold newId, bind, gets, modify, ret. intros Hr. injection Hr as _ <-. destruct w; auto. Qed.

(** Each table's own accessor after a write. *)
Lemma users_put k r w :
  users (w_db (final (putRow (Row := User) k r : Svc unit) w)) = <[k := r]> (users (w_db w)).
Proof. exact (tbl_putRow (Row := User) (fun _ _ => eq_refl) k r w). Qed.
Lemma rounds_put k r w :
  rounds (w_db (final (putRow (Row := Round) k r : Svc unit) w)) = <[k := r]> (rounds (w_db w)).
Proof. exact (tbl_putRow (Row := Round) (fun _ _ => eq_refl) k r w). Qed.
Lemma predictions_put k r w :
  predictions (w_db (final (putRow (Row := Prediction) k r : Svc unit) w))
  = <[k := r]> (predictions (w_db w)).
Proof. exact (tbl_putRow (Row := Prediction) (fun _ _ => eq_refl) k r w). Qed.
Lemma bets_put k r w :
  bets (w_db (final (putRow (Row := Bet) k r : Svc unit) w)) = <[k := r]> (bets (w_db w)).
Proof. exact (tbl_putRow (Row := Bet) (fun _ _ => eq_refl) k r w). Qed.
Lemma claims_put k r w :
  claims (w_db (final (putRow (Row := Claim) k r : Svc unit) w)) = <[k := r]> (claims (w_db w)).
Proof. exact (tbl_putRow (Row := Claim) (fun _ _ => eq_refl) k r w). Qed.

(** ** Frame conditions

    [agree proj]: the part [proj] of the database is the same, committed copy
    included. Each primitive agrees on everything but its own table. *)

Definition agree {T} (proj : DB -> T) (w w' : World) : Prop :=
  proj (w_db w') = proj (w_db w) /\ proj <$> w_base w' = proj <$> w_base w.

#[export] Instance agree_preorder {T} (proj : DB -> T) : PreOrder (agree proj).
Proof.
  split; [intros w; split; reflexivity|].
  intros w1 w2 w3 [A1 A2] [B1 B2]. split; congruence.
Qed.

Section Frames.
Context {T : Type} (proj : DB -> T).

Lemma agree_modifyDB f : (forall d, proj (f d) = proj d) -> respects (agree proj) (modifyDB f).
Proof. intros Hf w. open_world w. split; [apply Hf | reflexivity]. Qed.

Lemma agree_emit e r : respects (agree proj) (emit e r).
Proof. intros w. open_world w. split; reflexivity. Qed.

Lemma agree_emitRoundUpdate r : respects (agree proj) (emitRoundUpdate r).
Proof. intros w. open_world w. split; reflexivity. Qed.

Lemma agree_emitRoundStarted r : respects (agree proj) (emitRoundStarted r).
Proof. intros w. open_world w. split; reflexivity. Qed.

Lemma agree_emitRoundResolved r : respects (agree proj) (emitRoundResolved r).
Proof. intros w. open_world w. split; reflexivity. Qed.

Lemma agree_emitNotification u : respects (agree proj) (emitNotification u).
Proof. intros w. open_world w. split; reflexivity. Qed.

Lemma agree_now : respects (agree proj) now.
Proof. apply respects_gets, _. Qed.

Lemma agree_newId `{Env} : respects (agree proj) newId.
Proof. intros w. open_world w. split; reflexivity. Qed.

Section OneTable.
Context {Row : Type} `{Table Row}.

Lemma agree_findUnique k : respects (agree proj) (findUnique (Row := Row) k).
Proof. apply respects_gets, _. Qed.

Lemma agree_findMany f gt : respects (agree proj) (findMany (Row := Row) f gt).
Proof. apply respects_gets, _. Qed.

Lemma agree_findFirst f gt : respects (agree proj) (findFirst (Row := Row) f gt).
Proof. apply respects_gets, _. Qed.

Context (Hother : forall t d, proj (set_tbl (Row := Row) t d) = proj d).

Lemma agree_putRow k r : respects (agree proj) (putRow (Row := Row) k r).
Proof. apply agree_modifyDB. intros d. apply Hother. Qed.

Lemma agree_updateWhere k c f : respects (agree proj) (updateWhere (Row := Row) k c f).
Proof.
  apply respects_bind; [apply _ | apply agree_findUnique|]. intros [r|]; [destruct (c r)|];
    try (apply respects_throw, _).
  apply respects_bind; [apply _ | apply agree_putRow | intros _; apply respects_ret, _].
Qed.

Lemma agree_update k f : respects (agree proj) (update (Row := Row) k f).
Proof. apply agree_updateWhere. Qed.

Lemma agree_updateManyById k c f : respects (agree proj) (updateManyById (Row := Row) k c f).
Proof.
  apply respects_bind; [apply _ | apply agree_findUnique|]. intros [r|]; [destruct (c r)|];
    try (apply respects_ret, _).
  apply respects_bind; [apply _ | apply agree_putRow | intros _; apply respects_ret, _].
Qed.

Lemma agree_insertRow k r : respects (agree proj) (insertRow (Row := Row) k r).
Proof.
  apply respects_bind; [apply _ | apply agree_findUnique|].
  intros [?|]; [apply respects_throw, _|].
  apply respects_bind; [apply _ | apply agree_putRow | intros _; apply respects_ret, _].
Qed.
End OneTable.

Lemma agree_transaction {A} (m : Svc A) :
  respects (agree proj) m -> respects (agree proj) (transaction m).
Proof.
  intros Hm w. unfold final, transaction. destruct w as [db [committed|] t k br l c e]; cbn [w_base].
  - pose proof (Hm (mkWorld committed (Some committed) t k br l c e)) as H1.
    pose proof (Hm (mkWorld db (Some committed) t k br l c e)) as H2.
    unfold final in H1, H2. cbn.
    destruct (m (mkWorld committed (Some committed) t k br l c e)) as [[x|a] w1].
    + destruct w1. split; reflexivity.
    + destruct (m (mkWorld db (Some committed) t k br l c e)) as [r v].
      destruct H1 as [H1 _], H2 as [H2 _]. destruct w1, v. cbn in *. split; cbn; congruence.
  - pose proof (Hm (mkWorld db (Some db) t k br l c e)) as H1. unfold final in H1. cbn.
    destruct (m (mkWorld db (Some db) t k br l c e)) as [[x|a] w1];
      destruct H1 as [H1 H2]; destruct w1 as [db1 [b1|] ? ? ? ? ? ?]; cbn in *;
      split; cbn; congruence.
Qed.
End Frames.

(** ** The transaction boundary *)

(** A body that opens no further transaction. *)
Definition keepsBase {A} (m : Svc A) : Prop := forall w, w_base (final m w) = w_base w.

(** Outside any transaction, a transaction either commits what its body did or
    leaves the database as it was. *)
Lemma transaction_cases {A} (m : Svc A) w :
  w_base w = None -> keepsBase m ->
  let w0 := w {{ w_base := Some (w_db w) }} in
  (exists a, value m w0 = inr a /\
     transaction m w = (inr a, (final m w0) {{ w_base := None }})) \/
  (exists e, value m w0 = inl e /\
     transaction m w = (inl e, (final m w0) {{ w_db := w_db w; w_base := None }})).
Proof.
  intros Hb Hk w0. specialize (Hk w0). unfold value, final, transaction in *. rewrite Hb.
  fold w0. destruct (m w0) as [[e|a] w1]; cbn in *.
  - right. exists e. split; [reflexivity|]. do 2 f_equal. rewrite Hk.
    unfold w0. destruct w; reflexivity.
  - left. exists a. auto.
Qed.

Lemma transaction_inr {A} (m : Svc A) w a w' :
  w_base w = None -> keepsBase m -> transaction m w = (inr a, w') ->
  exists w0 w1, w_db w0 = w_db w /\ m w0 = (inr a, w1) /\ w_db w' = w_db w1 /\ w_base w' = None /\
    w_calls w0 = w_calls w /\ w_calls w' = w_calls w1.
Proof.
  intros Hb Hk Hr. set (w0 := w {{ w_base := Some (w_db w) }}).
  exists w0, (final m w0).
  destruct (transaction_cases m w Hb Hk) as [(x & Hv & Ht)|(e & _ & Ht)]; rewrite Ht in Hr;
    [|discriminate].
  fold w0 in Hv, Hr. injection Hr as -> <-. unfold value, final in *.
  split; [destruct w; reflexivity|]. split; [destruct (m w0); cbn in *; congruence|].
  unfold w0. destruct w, (m _) as [r []]; auto.
Qed.

(** The same without asking what the body does to inner transactions. *)
Lemma transaction_commits {A} (m : Svc A) w a w' :
  w_base w = None -> transaction m w = (inr a, w') ->
  exists w0 w1, w_db w0 = w_db w /\ m w0 = (inr a, w1) /\ w_db w' = w_db w1 /\ w_base w' = None.
Proof.
  intros Hb Hr. unfold transaction in Hr. rewrite Hb in Hr.
  exists (w {{ w_base := Some (w_db w) }}).
  destruct (m (w {{ w_base := Some (w_db w) }})) as [[e|x] w1]; [discriminate|].
  injection Hr as -> <-. exists w1. split; [destruct w; reflexivity|]. split; [reflexivity|].
  destruct w1. auto.
Qed.

(** Whatever inner transactions have committed, a part of the database they do
    not write is restored when the outer one fails. *)
Definition baseKeeps {T} (proj : DB -> T) (w w' : World) : Prop :=
  proj <$> w_base w' = proj <$> w_base w.

#[export] Instance baseKeeps_preorder {T} (proj : DB -> T) : PreOrder (baseKeeps proj).
Proof. split; [intros w; reflexivity | intros x y z H1 H2; unfold baseKeeps in *; congruence]. Qed.

Lemma transaction_aborts {A} {T} (proj : DB -> T) (m : Svc A) w e w' :
  w_base w = None -> respects (baseKeeps proj) m -> transaction m w = (inl e, w') ->
  proj (w_db w') = proj (w_db w) /\ w_base w' = None.
Proof.
  intros Hb Hk Hr. unfold transaction in Hr. rewrite Hb in Hr.
  specialize (Hk (w {{ w_base := Some (w_db w) }})). unfold final in Hk.
  destruct (m (w {{ w_base := Some (w_db w) }})) as [[e1|x] w1]; [|discriminate].
  injection Hr as -> <-. unfold baseKeeps in Hk. destruct w as [db ? ? ? ? ? ? ?], w1 as [db1 [b1|] ? ? ? ? ? ?];
    cbn in *; [|discriminate]. injection Hk as Hk. auto.
Qed.

Lemma transaction_inl {A} (m : Svc A) w e w' :
  w_base w = None -> keepsBase m -> transaction m w = (inl e, w') ->
  w_db w' = w_db w /\ w_base w' = None /\
  exists w0 w1, w_db w0 = w_db w /\ w_calls w0 = w_calls w /\ m w0 = (inl e, w1) /\ w_calls w' = w_calls w1.
Proof.
  intros Hb Hk Hr. set (w0 := w {{ w_base := Some (w_db w) }}).
  destruct (transaction_cases m w Hb Hk) as [(x & Hv & Ht)|(e' & Hv & Ht)]; rewrite Ht in Hr;
    [discriminate|].
  fold w0 in Hv, Hr. injection Hr as -> <-. unfold value, final in *.
  assert (Hm : m w0 = (inl e, snd (m w0))) by (destruct (m w0); cbn in *; congruence).
  split; [destruct (snd (m w0)); reflexivity|]. split; [destruct (snd (m w0)); reflexivity|].
  exists w0, (snd (m w0)). split; [destruct w; reflexivity|]. split; [destruct w; reflexivity|].
  split; [exact Hm|]. destruct (snd (m w0)). reflexivity.
Qed.

(** A relation on databases that every committed outcome of a body satisfies. *)
Lemma transaction_db {A} (R : DB -> DB -> Prop) (m : Svc A) w :
  w_base w = None -> keepsBase m -> (forall d, R d d) ->
  (forall w0 a w1, w_db w0 = w_db w -> m w0 = (inr a, w1) -> R (w_db w0) (w_db w1)) ->
  R (w_db w) (w_db (final (transaction m) w)) /\ w_base (final (transaction m) w) = None.
Proof.
  intros Hb Hk Hrefl Hok. set (w0 := w {{ w_base := Some (w_db w) }}).
  assert (Hdb : w_db w0 = w_db w) by (destruct w; reflexivity).
  destruct (transaction_cases m w Hb Hk) as [(a & Hv & Hr)|(e & Hv & Hr)]; fold w0 in Hv, Hr;
    change (final (transaction m) w) with (snd (transaction m w)); rewrite Hr; cbn [snd].
  - specialize (Hok w0 a (final m w0) Hdb). rewrite Hdb in Hok.
    assert (Hm : m w0 = (inr a, final m w0)).
    { unfold value, final in *. destruct (m w0); cbn in *. subst. reflexivity. }
    specialize (Hok Hm). destruct (final m w0). split; [exact Hok | reflexivity].
  - destruct (final m w0). split; [apply Hrefl | reflexivity].
Qed.

Definition sameBase (w w' : World) : Prop := w_base w' = w_base w.

#[export] Instance sameBase_preorder : PreOrder sameBase.
Proof. split; [intros w; reflexivity | intros x y z H1 H2; unfold sameBase in *; congruence]. Qed.

Lemma base_modifyDB f : respects sameBase (modifyDB f).
Proof. intros w. open_world w. reflexivity. Qed.
Lemma base_emit e r : respects sameBase (emit e r).
Proof. intros w. open_world w. reflexivity. Qed.
Lemma base_emitRoundUpdate r : respects sameBase (emitRoundUpdate r).
Proof. intros w. open_world w. reflexivity. Qed.
Lemma base_newId `{Env} : respects sameBase newId.
Proof. intros w. open_world w. reflexivity. Qed.
Lemma base_now : respects sameBase now.
Proof. intros w. reflexivity. Qed.
#[export] Hint Resolve base_modifyDB base_emit base_emitRoundUpdate base_newId base_now : respects.

Section BaseTables.
Context {Row : Type} `{Table Row}.

Lemma base_findUnique k : respects sameBase (findUnique (Row := Row) k).
Proof. intros w. reflexivity. Qed.
Lemma base_findMany f gt : respects sameBase (findMany (Row := Row) f gt).
Proof. intros w. reflexivity. Qed.
Lemma base_findFirst f gt : respects sameBase (findFirst (Row := Row) f gt).
Proof. intros w. reflexivity. Qed.
Lemma base_updateWhere k c f : respects sameBase (updateWhere (Row := Row) k c f).
Proof. unfold updateWhere, putRow, findUnique. respects_auto. Qed.
Lemma base_update k f : respects sameBase (update (Row := Row) k f).
Proof. apply base_updateWhere. Qed.
Lemma base_updateManyById k c f : respects sameBase (updateManyById (Row := Row) k c f).
Proof. unfold updateManyById, putRow, findUnique. respects_auto. Qed.
Lemma base_insertRow k r : respects sameBase (insertRow (Row := Row) k r).
Proof. unfold insertRow, putRow, findUnique. respects_auto. Qed.
End BaseTables.

#[export] Hint Resolve base_findUnique base_findMany base_findFirst base_updateWhere base_update
  base_updateManyById base_insertRow : respects.

Lemma base_createOutboxEvent `{Env} ty a t p : respects sameBase (createOutboxEvent ty a t p).
Proof. unfold createOutboxEvent. respects_auto. Qed.
#[export] Hint Resolve base_createOutboxEvent : respects.

Lemma baseKeeps_sameBase {A T} (proj : DB -> T) (m : Svc A) :
  respects sameBase m -> respects (baseKeeps proj) m.
Proof. intros Hm w. unfold baseKeeps. rewrite (Hm w). reflexivity. Qed.

Lemma baseKeeps_agree {A T} (proj : DB -> T) (m : Svc A) :
  respects (agree proj) m -> respects (baseKeeps proj) m.
Proof. intros Hm w. apply (Hm w). Qed.

#[export] Hint Extern 3 (respects (baseKeeps _) _) =>
  (apply baseKeeps_sameBase; solve [eauto 2 with respects]) : respects.

(** ** Database operations send nothing to the chain *)

Definition sameCalls (w w' : World) : Prop := w_calls w' = w_calls w.

#[export] Instance sameCalls_preorder : PreOrder sameCalls.
Proof. split; [intros w; reflexivity | intros x y z H1 H2; unfold sameCalls in *; congruence]. Qed.

Lemma calls_modifyDB f : respects sameCalls (modifyDB f).
Proof. intros w. open_world w. reflexivity. Qed.
Lemma calls_emit e r : respects sameCalls (emit e r).
Proof. intros w. open_world w. reflexivity. Qed.
Lemma calls_newId `{Env} : respects sameCalls newId.
Proof. intros w. open_world w. reflexivity. Qed.
Lemma calls_now : respects sameCalls now.
Proof. intros w. reflexivity. Qed.
#[export] Hint Resolve calls_modifyDB calls_emit calls_newId calls_now : respects.

Section CallsTables.
Context {Row : Type} `{Table Row}.

Lemma calls_findUnique k : respects sameCalls (findUnique (Row := Row) k).
Proof. intros w. reflexivity. Qed.
Lemma calls_findMany f gt : respects sameCalls (findMany (Row := Row) f gt).
Proof. intros w. reflexivity. Qed.
Lemma calls_findFirst f gt : respects sameCalls (findFirst (Row := Row) f gt).
Proof. intros w. reflexivity. Qed.
Lemma calls_updateWhere k c f : respects sameCalls (updateWhere (Row := Row) k c f).
Proof. unfold updateWhere, putRow, findUnique. respects_auto. Qed.
Lemma calls_update k f : respects sameCalls (update (Row := Row) k f).
Proof. apply calls_updateWhere. Qed.
Lemma calls_updateManyById k c f : respects sameCalls (updateManyById (Row := Row) k c f).
Proof. unfold updateManyById, putRow, findUnique. respects_auto. Qed.
Lemma calls_insertRow k r : respects sameCalls (insertRow (Row := Row) k r).
Proof. unfold insertRow, putRow, findUnique. respects_auto. Qed.
End CallsTables.

#[export] Hint Resolve calls_findUnique calls_findMany calls_findFirst calls_updateWhere
  calls_update calls_updateManyById calls_insertRow : respects.

Lemma calls_createOutboxEvent `{Env} ty a t p : respects sameCalls (createOutboxEvent ty a t p).
Proof. unfold createOutboxEvent. respects_auto. Qed.

Lemma calls_transaction {A} (m : Svc A) : respects sameCalls m -> respects sameCalls (transaction m).
Proof.
  intros Hm w. unfold final, transaction. destruct (w_base w) as [b|].
  - pose proof (Hm (w {{ w_db := b; w_base := Some b }})) as Q. unfold final in Q.
    destruct (m (w {{ w_db := b; w_base := Some b }})) as [[er|a] y]; destruct w, y; cbn in *;
      [exact Q|]. destruct (m _) as [? []]. exact Q.
  - pose proof (Hm (w {{ w_base := Some (w_db w) }})) as Q. unfold final in Q.
    destruct (m (w {{ w_base := Some (w_db w) }})) as [[er|a] y]; destruct w, y; cbn in *; exact Q.
Qed.
#[export] Hint Resolve calls_createOutboxEvent calls_transaction : respects.

#[export] Hint Resolve agree_emit agree_emitRoundUpdate agree_emitRoundStarted agree_emitRoundResolved
  agree_emitNotification agree_now agree_newId agree_findUnique agree_findMany
  agree_findFirst agree_transaction : respects.
#[export] Hint Extern 2 (respects (agree _) (updateWhere _ _ _)) =>
  (apply agree_updateWhere; intros; reflexivity) : respects.
#[export] Hint Extern 2 (respects (agree _) (update _ _)) =>
  (apply agree_update; intros; reflexivity) : respects.
#[export] Hint Extern 2 (respects (agree _) (updateManyById _ _ _)) =>
  (apply agree_updateManyById; intros; reflexivity) : respects.
#[export] Hint Extern 2 (respects (agree _) (insertRow _ _)) =>
  (apply agree_insertRow; intros; reflexivity) : respects.
#[export] Hint Extern 2 (respects (agree _) (modifyDB _)) =>
  (apply agree_modifyDB; intros; reflexivity) : respects.

Lemma agree_createOutboxEvent `{Env} {T} (proj : DB -> T) ty a t p :
  (forall o d, proj (d {{ outbox := o }}) = proj d) ->
  respects (agree proj) (createOutboxEvent ty a t p).
Proof.
  intros Hp. unfold createOutboxEvent. respects_auto. apply agree_insertRow. exact Hp.
Qed.

#[export] Hint Extern 2 (respects (agree _) (createOutboxEvent _ _ _ _)) =>
  (apply agree_createOutboxEvent; intros; reflexivity) : respects.
