(* ===== verification/PriceRange.v ===== *)
(** * Price ranges and the lifecycle table

    src/src/utils/price-range.util.ts and the value-level part of
    src/src/types/round.types.ts. A range read from a JSON column keeps the
    fields the code does not know about, since [{...r, pool}] copies them. *)

From Stdlib Require Import ZArith QArith Lqa Lia Sorted Permutation.
From stdpp Require Import base gmap strings list pretty.
From S2P Require Import Prelude.
From S2P Require Import Numeric.
From S2P Require Import Errors.
From S2P Require Import Schema.
From S2P Require Import Store.

#[local] Open Scope Z_scope.

Record UserPriceRange : Type := mkUserPriceRange { ur_min : num; ur_max : num }.

Record RoundPriceRange : Type := mkRoundPriceRange {
  rp_min : num;
  rp_max : num;
  rp_pool : num;
  rp_extra : list (string * Json);
}.

Definition numField (k : string) (fs : list (string * Json)) : option num :=
  match jsonField k fs with Some (JNum n) => Some n | _ => None end.

Definition knownKeys : list string := ["min"; "max"; "pool"]%string.
Definition extraFields (fs : list (string * Json)) : list (string * Json) :=
  List.filter (fun '(k, _) => negb (bool_decide (k ∈ knownKeys))) fs.

(** ** Type guards *)

Definition asRoundPriceRange (value : Json) : option RoundPriceRange :=
  match value with
  | JObj fs =>
      match numField "min" fs, numField "max" fs, numField "pool" fs with
      | Some mn, Some mx, Some p =>
          if num_lt mn mx then Some (mkRoundPriceRange mn mx p (extraFields fs)) else None
      | _, _, _ => None
      end
  | _ => None
  end.

Definition isRoundPriceRange (value : Json) : bool :=
  match asRoundPriceRange value with Some _ => true | None => false end.

Definition isUserPriceRange (value : Json) : bool :=
  match value with
  | JObj fs =>
      match numField "min" fs, numField "max" fs with
      | Some mn, Some mx => num_lt mn mx
      | _, _ => false
      end
  | _ => false
  end.

Definition isRoundPriceRangeArray (value : Json) : bool :=
  match value with JArr l => forallb isRoundPriceRange l | _ => false end.

(** ** Parsing and serialising *)

Definition parseRoundPriceRanges (value : Json) : Err + list RoundPriceRange :=
  if isRoundPriceRangeArray value then
    match value with
    | JArr l => inr (omap asRoundPriceRange l)
    | _ => inr []
    end
  else inl (PlainError "Invalid round price ranges: expected RoundPriceRange[]").

(** The zod schema [{ min: number, max: number }], refined to [min < max]:
    zod's [number()] takes finite numbers only. *)
Definition validateUserPriceRange (value : Json) : option UserPriceRange :=
  match value with
  | JObj fs =>
      match numField "min" fs, numField "max" fs with
      | Some mn, Some mx =>
          if isFinite mn && isFinite mx && num_lt mn mx then Some (mkUserPriceRange mn mx) else None
      | _, _ => None
      end
  | _ => None
  end.

Definition rangeToJson (r : RoundPriceRange) : Json :=
  JObj (("min"%string, JNum (rp_min r)) :: ("max"%string, JNum (rp_max r))
        :: ("pool"%string, JNum (rp_pool r)) :: rp_extra r).

Definition rangesToJson (l : list RoundPriceRange) : Json := JArr (map rangeToJson l).

Definition userRangeToJson (r : UserPriceRange) : Json :=
  JObj [("min"%string, JNum (ur_min r)); ("max"%string, JNum (ur_max r))].

Definition serializeRoundPriceRanges (ranges : list RoundPriceRange) : list RoundPriceRange :=
  map (fun r => mkRoundPriceRange (rp_min r) (rp_max r) (rp_pool r) []) ranges.

Definition createUserPriceRange (mn mx : num) : Err + UserPriceRange :=
  match validateUserPriceRange (userRangeToJson (mkUserPriceRange mn mx)) with
  | Some r => inr r
  | None => inl (PlainError "min must be less than max")
  end.

Definition createRoundPriceRange (mn mx pool : num) : Err + RoundPriceRange :=
  if isFinite mn && isFinite mx && isFinite pool && num_lt mn mx then
    inr (mkRoundPriceRange mn mx pool [])
  else inl (PlainError "min must be less than max").

Definition boundsAre (mn mx : num) (r : RoundPriceRange) : bool :=
  num_eq (rp_min r) mn && num_eq (rp_max r) mx.

Definition findRangeByBounds (ranges : list RoundPriceRange) (mn mx : num) : option RoundPriceRange :=
  List.find (boundsAre mn mx) ranges.

Definition updateRangePool (ranges : list RoundPriceRange) (mn mx amountToAdd : num)
    : list RoundPriceRange :=
  map (fun r => if boundsAre mn mx r
                then mkRoundPriceRange (rp_min r) (rp_max r) (num_add (rp_pool r) amountToAdd) (rp_extra r)
                else r) ranges.

(** ** The lifecycle table *)

(** [ROUND_LIFECYCLE_TRANSITIONS], keyed by destination. *)
Definition ROUND_LIFECYCLE_TRANSITIONS (toState : RoundStatus) : list RoundStatus :=
  match toState with
  | ACTIVE => [PENDING]
  | LOCKED => [ACTIVE]
  | RESOLVED => [LOCKED]
  | CANCELLED => [ACTIVE; LOCKED]
  | PENDING => []
  end.

Definition allowedSourcesFor (toState : RoundStatus) : list RoundStatus :=
  ROUND_LIFECYCLE_TRANSITIONS toState.

Definition isLegalRoundTransition (from to : RoundStatus) : bool :=
  bool_decide (from ∈ allowedSourcesFor to).

(** ** Lemmas *)

Definition wfRange (r : RoundPriceRange) : Prop :=
  num_lt (rp_min r) (rp_max r) = true /\ extraFields (rp_extra r) = rp_extra r.

Lemma jsonField_extra k fs : k ∈ knownKeys -> jsonField k (extraFields fs) = None.
Proof.
  intros Hk. induction fs as [|[k' v] fs IH]; cbn; [reflexivity|].
  destruct (bool_decide (k' ∈ knownKeys)) eqn:E; cbn; [exact IH|].
  apply bool_decide_eq_false in E. destruct (String.eqb_spec k k') as [->|]; [contradiction | exact IH].
Qed.

Lemma extraFields_idem fs : extraFields (extraFields fs) = extraFields fs.
Proof.
  unfold extraFields in *. induction fs as [|[k v] fs IH]; cbn [List.filter]; [reflexivity|].
  destruct (negb (bool_decide (k ∈ knownKeys))) eqn:E; cbn [List.filter]; [|exact IH].
  rewrite E. f_equal. exact IH.
Qed.

Lemma asRoundPriceRange_wf v r : asRoundPriceRange v = Some r -> wfRange r.
Proof.
  unfold asRoundPriceRange. intros Hv.
  repeat case_match; simplify_eq. split; cbn; [assumption | apply extraFields_idem].
Qed.

Lemma asRoundPriceRange_toJson r : wfRange r -> asRoundPriceRange (rangeToJson r) = Some r.
Proof.
  intros [Hlt Hx]. destruct r as [mn mx p x]; cbn [rp_min rp_max rp_extra] in *.
  unfold asRoundPriceRange, rangeToJson, numField. cbn -[num_lt extraFields].
  rewrite Hlt. do 2 f_equal. exact Hx.
Qed.

(** Parsing the stored form of well-formed ranges gives them back, and
    whatever parses is well formed. *)
Lemma parse_rangesToJson l :
  Forall wfRange l -> parseRoundPriceRanges (rangesToJson l) = inr l.
Proof.
  intros Hl. unfold parseRoundPriceRanges, rangesToJson. cbn [isRoundPriceRangeArray].
  assert (Hall : forallb isRoundPriceRange (map rangeToJson l) = true).
  { induction Hl as [|r l Hr _ IH]; cbn; [reflexivity|].
    unfold isRoundPriceRange. rewrite asRoundPriceRange_toJson by exact Hr. exact IH. }
  rewrite Hall. f_equal. induction Hl as [|r l Hr _ IH]; [reflexivity|].
  cbn [map omap list_omap]. rewrite asRoundPriceRange_toJson by exact Hr. f_equal.
  cbn [map forallb] in Hall. apply andb_true_iff in Hall as [_ Hall]. exact (IH Hall).
Qed.

Lemma parse_wf v l : parseRoundPriceRanges v = inr l -> Forall wfRange l.
Proof.
  unfold parseRoundPriceRanges. destruct (isRoundPriceRangeArray v); [|discriminate].
  destruct v; intros Hp; injection Hp as <-; try constructor.
  induction l0 as [|j js IH]; cbn; [constructor|].
  destruct (asRoundPriceRange j) eqn:E; [constructor|]; eauto using asRoundPriceRange_wf.
Qed.

Lemma updateRangePool_wf l mn mx a : Forall wfRange l -> Forall wfRange (updateRangePool l mn mx a).
Proof.
  intros H. unfold updateRangePool. apply List.Forall_map. eapply List.Forall_impl; [|exact H].
  intros r [H1 H2]. destruct (boundsAre mn mx r); split; cbn; assumption.
Qed.

Lemma updateRangePool_bounds l mn mx a :
  map (fun r => (rp_min r, rp_max r)) (updateRangePool l mn mx a)
  = map (fun r => (rp_min r, rp_max r)) l.
Proof.
  unfold updateRangePool. rewrite map_map. apply map_ext. intros r.
  destruct (boundsAre mn mx r); reflexivity.
Qed.

(** The lifecycle graph: the five edges, and the two final states. *)
Lemma isLegalRoundTransition_spec from to :
  isLegalRoundTransition from to = true <->
  (from = PENDING /\ to = ACTIVE) \/ (from = ACTIVE /\ to = LOCKED) \/
  (from = LOCKED /\ to = RESOLVED) \/ ((from = ACTIVE \/ from = LOCKED) /\ to = CANCELLED).
Proof.
  unfold isLegalRoundTransition. rewrite bool_decide_eq_true.
  destruct from, to; cbn; split; intros Hx; try set_solver;
    destruct_or?; destruct_and?; simplify_eq; set_solver.
Qed.


(** Adding a stake to the pool of a range changes the pool of exactly the
    ranges with those bounds; bounds, order and the other pools stay, and the
    result can still be stored and read back. *)
Theorem updateRangePool_spec v l mn mx amount :
  parseRoundPriceRanges v = inr l ->
  parseRoundPriceRanges (rangesToJson (updateRangePool l mn mx amount))
  = inr (updateRangePool l mn mx amount) /\
  forall i r, l !! i = Some r ->
    exists r', updateRangePool l mn mx amount !! i = Some r' /\
      rp_min r' = rp_min r /\ rp_max r' = rp_max r /\ rp_extra r' = rp_extra r /\
      rp_pool r' = (if boundsAre mn mx r then num_add (rp_pool r) amount else rp_pool r).
Proof.
  intros Hp. apply parse_wf in Hp. split; [apply parse_rangesToJson, updateRangePool_wf, Hp|].
  intros i r Hi. unfold updateRangePool. exists (if boundsAre mn mx r
    then mkRoundPriceRange (rp_min r) (rp_max r) (num_add (rp_pool r) amount) (rp_extra r) else r).
  split; [rewrite list_lookup_fmap, Hi; reflexivity|]. destruct (boundsAre mn mx r); repeat split.
Qed.
