(* ===== verification/Samples.v ===== *)
(** * Concrete data

    A deployment, a user, rounds, bets and claims on which the theorems about
    the services are instantiated. Nothing else in the development uses it. *)

From Stdlib Require Import ZArith QArith Lia.
From stdpp Require Import base gmap strings list pretty.
From S2P Require Import Prelude.
From S2P Require Import Numeric.
From S2P Require Import Errors.
From S2P Require Import CircuitBreaker.
From S2P Require Import Resilience.
From S2P Require Import DistributedLock.
From S2P Require Import Schema.
From S2P Require Import Store.
From S2P Require Import PriceRange.

#[local] Open Scope Z_scope.

(** A chain that accepts everything, and one that refuses everything. *)
Definition goodClient (calls : list ChainCall) : Outcome ChainReply :=
  Resolves (mkChainReply (Some ("tx" +:+ pretty (length calls))%string) (Some 70000000) None
              (Some "SUCCESS"%string) None None None).

Definition badClient (_ : list ChainCall) : Outcome ChainReply :=
  Rejects (PlainError "insufficient funds").

Definition deployment (client : list ChainCall -> Outcome ChainReply) (stub : bool) : Env := {|
  env_client := client;
  env_newid n := ("id" +:+ pretty n)%string;
  env_sorobanReady := true;
  env_failClosed := true;
  env_betStubMode := stub;
  env_breakerOptions := Build_CircuitBreakerOptions "soroban" 5 30000 1;
  env_oracleRunning := true;
  env_oracleStale := false;
  env_stack e := err_message e;
|}.

Definition goodEnv : Env := deployment goodClient false.
Definition badEnv : Env := deployment badClient false.

Definition worldOf (d : DB) : World :=
  mkWorld d None 1000 0 newBreaker (createConcurrencyLimiter "soroban" 10 (Some 1)) [] [].

Definition emptyAux : AuxDB := mkAux ∅ ∅ ∅ ∅.

Definition emptyDB : DB := mkDB ∅ ∅ ∅ ∅ ∅ ∅ ∅ ∅ emptyAux.

(** Money columns are in units of 1e-8. *)
Definition xlm (z : Z) : Z := z * 100000000.

Definition alice : User := mkUser "alice" "GALICE" (xlm 900) 0 0 JNull.

Definition upDownRound (status : RoundStatus) : Round :=
  mkRound "r1" UP_DOWN status 50000000 None 0 60000 None true (xlm 100) (xlm 50) JNull None.

(** Alice's stake of 100 XLM on UP. *)
Definition alicePrediction (status : PredictionChainStatus) : Prediction :=
  mkPrediction "p1" "alice" "r1" (Some UP) (xlm 100) JNull None None status None 0 None None None None
    None 10.

Definition predictionDB (roundStatus : RoundStatus) (status : PredictionChainStatus) : DB :=
  mkDB {["alice"%string := alice]} {["r1"%string := upDownRound roundStatus]}
    {["p1"%string := alicePrediction status]} ∅ ∅ ∅ ∅ ∅ emptyAux.

(** The same without the prediction: she may place one. *)
Definition openDB : DB :=
  mkDB {["alice"%string := alice]} {["r1"%string := upDownRound ACTIVE]} ∅ ∅ ∅ ∅ ∅ ∅ emptyAux.

Definition aliceBet (status : BetStatus) : Bet :=
  mkBet "b1" "alice" (Some "r1"%string) MODE_UP_DOWN (Some UP) (xlm 100) None status None None None None
    None None 10.

Definition betDB (status : BetStatus) : DB :=
  mkDB {["alice"%string := alice]} ∅ ∅ {["b1"%string := aliceBet status]} ∅ ∅ ∅ ∅ emptyAux.

Definition aliceClaim (status : ClaimStatus) : Claim :=
  mkClaim "c1" (Some "alice"%string) "GALICE" (Some (xlm 7)) status (Some "tx9"%string) 1 None None 10 20.

Definition claimDB (status : ClaimStatus) : DB :=
  mkDB {["alice"%string := alice]} ∅ ∅ ∅ {["c1"%string := aliceClaim status]} ∅ ∅ ∅ emptyAux.

Definition sampleEvent (attempts : Z) : OutboxEvent :=
  mkOutboxEvent "e1" EV_BET_ACCEPTED "b1" "bet" (JObj [("betId"%string, JStr "b1")]) OB_PENDING attempts
    None None 10.

Definition eventDB (attempts : Z) : DB :=
  mkDB ∅ ∅ ∅ ∅ ∅ {["e1"%string := sampleEvent attempts]} ∅ ∅ emptyAux.

Definition sampleFailure : FailedDispatch :=
  mkFailedDispatch "f1" CH_NOTIFICATION_CREATE None (Some "alice"%string) JNull 1 DS_PENDING "boom" 10 None None.

Definition failureDB : DB := mkDB ∅ ∅ ∅ ∅ ∅ ∅ ∅ {["f1"%string := sampleFailure]} emptyAux.

(** The three ranges of a LEGENDS round around a price of 1. *)
Definition half : num := Fin (1 # 2).
Definition sampleRanges : list RoundPriceRange :=
  [mkRoundPriceRange half (Fin 1) (Fin 10) []; mkRoundPriceRange (Fin 1) (Fin 2) (Fin 30) []].

(** A server that keeps the value and its expiry. *)
Definition oneKey : RedisServer.
Proof.
  refine {|
    rd_key := option RedisKey;
    rd_absent := None;
    rd_view k := k;
    rd_set_nx_px now px id k :=
      match live now k with Some _ => (false, k) | None => (true, Some (mkRedisKey id (now + px))) end;
    rd_get now k := option_map rk_owner (live now k);
    rd_pexpire now px k := option_map (fun r => mkRedisKey (rk_owner r) (now + px)) k;
    rd_del _ := None;
  |}; try reflexivity.
  - intros now px id k ->. auto.
  - intros now px id k r ->. reflexivity.
  - intros now px [k|] r Hl; [|discriminate]. unfold live in Hl. destruct (_ <? _); [injection Hl as <-; reflexivity | discriminate].
Defined.
