(* ===== verification/Soroban.v ===== *)
(** * The Soroban service (src/src/services/soroban.service.ts)

    Every contract method goes through [callWithBreaker]: the in-flight cap,
    then the circuit breaker, then [withTimeout] around one or two attempts of
    the client call. The contract itself is not modelled: it is the function
    [env_client] of the environment, which answers from the calls it has
    received. [signAndSend] and the method that built the transaction are one
    call here, since nothing of the service runs between them. *)

From Stdlib Require Import ZArith QArith Lia.
From stdpp Require Import base gmap strings list pretty.
From S2P Require Import Prelude.
From S2P Require Import Numeric.
From S2P Require Import Payout.
From S2P Require Import Errors.
From S2P Require Import CircuitBreaker.
From S2P Require Import Resilience.
From S2P Require Import Schema.
From S2P Require Import Store.

#[local] Open Scope Z_scope.

Definition CALL_TIMEOUT_MS : Z := 15000.
Definition MAX_RETRIES : nat := 2.
Definition READ_TIMEOUT_MS : Z := 10000.

Record ClaimResult : Type := mkClaimResult {
  cl_state : string;
  cl_amount : Q;
  cl_txHash : option string;
}.

(** [{ state, txHash }] *)
Record BetReply : Type := mkBetReply {
  br_state : string;
  br_txHash : option string;
}.

Record TransactionStatus : Type := mkTransactionStatus {
  ts_confirmed : bool;
  ts_successful : bool;
  ts_error : option string;
}.

Definition InvalidClaimResultError (reason : string) : Err :=
  PlainError ("Invalid Soroban claim_winnings result: " +:+ reason).

(** The reason a non-bigint result is refused with names its JavaScript type;
    a missing result is what the model knows of. *)
Definition parseClaimResult (sent : ChainReply) : Err + ClaimResult :=
  match cr_result sent with
  | None => inl (InvalidClaimResultError "expected a bigint result, received undefined")
  | Some claimedStroops =>
      if claimedStroops <? 0 then
        inl (InvalidClaimResultError
               ("claimed amount must not be negative, received " +:+ pretty claimedStroops))
      else inr (mkClaimResult "on-chain-success" (stroopsToXlm claimedStroops) (cr_hash sent))
  end.

(** The status object [getTransactionStatus] builds from the RPC response. *)
Definition statusOfReply (r : ChainReply) : TransactionStatus :=
  match cr_rpcError r with
  | Some msg => mkTransactionStatus false false (Some msg)
  | None =>
      match cr_status r with
      | None => mkTransactionStatus false false (Some "Transaction not found"%string)
      | Some status =>
          let successful := bool_decide (status = "SUCCESS"%string) in
          let confirmed := bool_decide (status <> "NOT_FOUND"%string)
                           && bool_decide (status <> "PENDING"%string) in
          mkTransactionStatus confirmed successful
            (if successful then None
             else match cr_result r with
                  | Some _ => Some "Transaction failed"%string
                  | None => None
                  end)
      end
  end.

Section Service.
Context `{Env} `{DecimalJs}.

(** One client call: it is on record whatever comes back. *)
Definition client {A} (call : ChainCall) (decode : ChainReply -> Err + A) : Attempt World A :=
  fun w =>
    let calls := call :: w_calls w in
    let w' := w {{ w_calls := calls }} in
    match env_client calls with
    | Resolves r => match decode r with
                    | inl e => (Rejects e, w')
                    | inr a => (Resolves a, w')
                    end
    | Rejects e => (Rejects e, w')
    | Hangs => (Hangs, w')
    end.

Definition ensureInitialized : Svc unit :=
  if env_sorobanReady then ret tt
  else throw (PlainError "Soroban service is not initialized").

Definition isReady : bool := env_sorobanReady.
Definition isFailClosed : bool := env_failClosed.

Definition applyMoneyPathFailure (error : Err) : Svc unit :=
  if isFailClosed then throw error else ret tt.

(** A failed [TimeoutResult] is thrown inside the breaker, so that it counts
    as a failure, and turned back into a result outside. *)
Definition unwrapTimeout {A} (operation : World -> TimeoutResult A * World) : Svc (TimeoutResult A) :=
  fun w =>
    let '(r, w') := operation w in
    if tr_success r then (inr r, w')
    else (inl (default (PlainError "operation failed") (tr_error r)), w').

Definition callWithBreaker {A} (operation : World -> TimeoutResult A * World)
    (fallback : option A) : Svc (TimeoutResult A) :=
  catch (limiterExecute (execute env_breakerOptions (unwrapTimeout operation)))
    (fun error =>
       if decide (err_class error = ClsBackpressure) then throw error
       else if decide (err_class error = ClsCircuitBreakerOpen) then
         ret (mkTimeoutResult false fallback (Some error) 0 0 false)
       else
         ret (mkTimeoutResult false None (Some error) 0 0
                (includes (err_message error) "timeout"))).

(** The common shape of a mutating call: refuse when not configured, run
    under [callWithBreaker], map a failure to a safe error. *)
Definition mutatingCall {A} (call : ChainCall) (decode : ChainReply -> Err + A)
    (attempts : nat) : Svc A :=
  ensureInitialized ;;;
  r <- callWithBreaker (withTimeout (timeoutOptions CALL_TIMEOUT_MS attempts) (client call decode))
         None ;;
  match tr_success r, tr_data r with
  | true, Some a => ret a
  | _, _ => throw (mapSorobanError (err_message <$> tr_error r))
  end.

(** The common shape of a read: [None] when not configured or on failure. *)
Definition readCall {A} (call : ChainCall) (decode : ChainReply -> Err + A)
    (fallback : option A) : Svc (option A) :=
  if env_sorobanReady then
    r <- callWithBreaker (withTimeout (timeoutOptions READ_TIMEOUT_MS 1) (client call decode))
           fallback ;;
    ret (if tr_success r then tr_data r else None)
  else ret None.

(** Prices carry four decimals on chain, amounts seven. *)
Definition priceScaled (price : Q) : Z := toFixed0 (D_mul price 10000).
Definition amountInStroops (amount : Q) : Z := toFixed0 (D_mul (toDecimal amount) 10000000).

Definition createRound (startPrice : Q) (mode : Z) : Svc unit :=
  mutatingCall (CallCreateRound (priceScaled startPrice) mode) (fun _ => inr tt) MAX_RETRIES.

Definition placeBet (userAddress : string) (amount : Q) (side : PredictionSide) : Svc BetReply :=
  mutatingCall (CallPlaceBet userAddress (amountInStroops amount) side)
    (fun r => inr (mkBetReply "on-chain-success" (cr_hash r))) 1.

Definition placePrecisionBet (userAddress : string) (amount predictedPrice : Q) : Svc BetReply :=
  mutatingCall (CallPlacePrecision userAddress (amountInStroops amount)
                  (priceScaled (toDecimal predictedPrice)))
    (fun r => inr (mkBetReply "on-chain-success" (cr_hash r))) MAX_RETRIES.

Definition sorobanResolveRound (finalPrice : Q) (roundId timestamp : Z) : Svc unit :=
  mutatingCall (CallResolveRound (priceScaled finalPrice) roundId timestamp) (fun _ => inr tt)
    MAX_RETRIES.

Definition claimWinnings (userAddress : string) : Svc ClaimResult :=
  mutatingCall (CallClaimWinnings userAddress) parseClaimResult MAX_RETRIES.

(** Zero on any failure, and when not configured. *)
Definition getPendingWinnings (userAddress : string) : Svc Z :=
  o <- readCall (CallGetPendingWinnings userAddress)
         (fun r => inr (default 0 (cr_result r))) (Some 0) ;;
  ret (default 0 o).

(** [Number(tx.result) / 10_000_000] *)
Definition resultInXlm (r : ChainReply) : num :=
  match cr_result r with Some z => Fin (stroopsToXlm z) | None => NaN end.

Definition getActiveRound : Svc (option ChainRound) :=
  o <- readCall CallGetActiveRound (fun r => inr (cr_round r)) (Some None) ;;
  ret (default None o).

Definition mintInitial (userAddress : string) : Svc num :=
  mutatingCall (CallMintInitial userAddress) (fun r => inr (resultInXlm r)) MAX_RETRIES.

(** Zero on any failure, and when not configured. *)
Definition getBalance (userAddress : string) : Svc num :=
  o <- readCall (CallGetBalance userAddress) (fun r => inr (resultInXlm r)) (Some (Fin 0)) ;;
  ret (default (Fin 0) o).

Definition getUserStats (userAddress : string) : Svc (option ContractStats) :=
  o <- readCall (CallGetUserStats userAddress) (fun r => inr (cr_stats r)) (Some None) ;;
  ret (default None o).

Definition getUserPosition (userAddress : string) (roundId : option string)
    : Svc (option (PredictionSide * Z)) :=
  o <- readCall (CallGetUserPosition userAddress roundId)
         (fun r => inr (cr_position r)) (Some None) ;;
  ret (default None o).

Definition getTransactionStatus (txHash : string) : Svc TransactionStatus :=
  ensureInitialized ;;;
  r <- callWithBreaker (withTimeout (timeoutOptions READ_TIMEOUT_MS 1)
                          (client (CallGetTransaction txHash) (fun r => inr (statusOfReply r))))
         (Some (mkTransactionStatus false false (Some "RPC call failed"%string))) ;;
  match tr_success r, tr_data r with
  | true, Some s => ret s
  | _, _ => ret (mkTransactionStatus false false
                   (Some (default "Unknown error"%string (err_message <$> tr_error r))))
  end.
End Service.

(** ** What a chain call leaves alone *)

(** Same database, identifiers and emissions; the chain has received at most
    [n] more calls, all equal to [c]. *)
Definition sent (n : nat) (c : ChainCall) (w w' : World) : Prop :=
  w_db w' = w_db w /\ w_base w' = w_base w /\ w_nonce w' = w_nonce w /\ w_emits w' = w_emits w /\
  exists k, (k <= n)%nat /\ w_calls w' = replicate k c ++ w_calls w.

Section ServiceLemmas.
Context `{Env} `{DecimalJs}.

Lemma sent_refl n c w : sent n c w w.
Proof. repeat split; try reflexivity. exists 0%nat. split; [lia | reflexivity]. Qed.

Lemma sent_trans n m c w1 w2 w3 : sent n c w1 w2 -> sent m c w2 w3 -> sent (n + m) c w1 w3.
Proof.
  intros (A1 & A2 & A3 & A4 & k & Hk & A5) (B1 & B2 & B3 & B4 & j & Hj & B5).
  repeat split; try congruence. exists (j + k)%nat. split; [lia|].
  rewrite B5, A5, replicate_add. apply app_assoc.
Qed.

(** Steps that touch only the breaker, the limiter and the clock. *)
Lemma sent_quiet n c w w1 w2 :
  sent n c w w1 -> w_db w2 = w_db w1 -> w_base w2 = w_base w1 -> w_nonce w2 = w_nonce w1 ->
  w_emits w2 = w_emits w1 -> w_calls w2 = w_calls w1 -> sent n c w w2.
Proof.
  intros (A1 & A2 & A3 & A4 & k & Hk & A5) E1 E2 E3 E4 E5.
  repeat split; try congruence. exists k. split; [exact Hk | congruence].
Qed.

Lemma client_sent {A} c (d : ChainReply -> Err + A) ms w :
  sent 1 c w (snd (race ms (client c d) w)).
Proof.
  unfold race, client.
  assert (Hs : sent 1 c w (w {{ w_calls := c :: w_calls w }})).
  { repeat split. exists 1%nat. split; [lia | reflexivity]. }
  destruct (env_client (c :: w_calls w)) as [r|e|]; cbn.
  - destruct (d r); exact Hs.
  - exact Hs.
  - apply (sent_quiet _ _ _ _ _ Hs); reflexivity.
Qed.

Lemma withTimeoutFrom_sent {A} o c (d : ChainReply -> Err + A) start n : forall k last w,
  sent n c w (snd (withTimeoutFrom o (client c d) start n k last w)).
Proof.
  induction n as [|n IH]; intros k last w; cbn [withTimeoutFrom]; [apply sent_refl|].
  pose proof (client_sent c d (timeoutMs o) w) as H1.
  destruct (race (timeoutMs o) (client c d) w) as [[e|a] w1]; cbn in H1.
  - destruct n as [|n].
    + exact H1.
    + apply (sent_trans 1 (S n) c w (sleep (backoffMs o k) w1)); [|apply IH].
      apply (sent_quiet _ _ _ _ _ H1); reflexivity.
  - cbn. destruct H1 as (A1 & A2 & A3 & A4 & k' & Hk & A5).
    repeat split; try assumption. exists k'. split; [lia | exact A5].
Qed.

Lemma callWithBreaker_sent {A} (op : World -> TimeoutResult A * World) fb n c w :
  (forall w, sent n c w (snd (op w))) -> sent n c w (final (callWithBreaker op fb) w).
Proof.
  intros Hop. unfold final, callWithBreaker, catch.
  assert (He : sent n c w (snd (limiterExecute (execute env_breakerOptions (unwrapTimeout op)) w))).
  { unfold limiterExecute. destruct (limiterEnter (getLimiter w)) as [e|l]; [apply sent_refl|].
    unfold finally, execute. cbn [breakerClock getBreaker World_breaker].
    set (w0 := setLimiter l w).
    destruct (beforeCall env_breakerOptions (w_now w0) (w_breaker w0)) as [[e|[]] b].
    - cbn. apply (sent_quiet n c w w); try reflexivity. apply sent_refl.
    - unfold unwrapTimeout. set (w1 := setBreaker b w0). pose proof (Hop w1) as Hs.
      destruct (op w1) as [r w2]. cbn in Hs.
      assert (Hs' : sent n c w w2) by exact Hs.
      destruct (tr_success r); apply (sent_quiet n c w w2 _ Hs'); reflexivity. }
  destruct (limiterExecute _ w) as [[e|a] w1]; cbn in He; [|exact He].
  destruct (decide _); [exact He|]. destruct (decide _); exact He.
Qed.

(** A mutating call reaches the chain at most [attempts] times, and touches
    nothing of the application's own state. *)
Lemma mutatingCall_sent {A} c (d : ChainReply -> Err + A) n w :
  sent n c w (final (mutatingCall c d n) w).
Proof.
  unfold final, mutatingCall, bind, ensureInitialized.
  destruct env_sorobanReady; cbn [ret]; [|apply sent_refl].
  pose proof (callWithBreaker_sent
                (withTimeout (timeoutOptions CALL_TIMEOUT_MS n) (client c d)) None n c w) as Hs.
  unfold final in Hs. cbn beta iota delta [ret].
  destruct (callWithBreaker _ _ w) as [[e|r] w1]; cbn in *.
  - apply Hs. intros w0. apply withTimeoutFrom_sent.
  - assert (sent n c w w1) by (apply Hs; intros w0; apply withTimeoutFrom_sent).
    destruct (tr_success r); [destruct (tr_data r)|]; assumption.
Qed.

Lemma readCall_sent {A} c (d : ChainReply -> Err + A) fb w :
  sent 1 c w (final (readCall c d fb) w).
Proof.
  unfold final, readCall. destruct env_sorobanReady; [|apply sent_refl].
  unfold bind.
  pose proof (callWithBreaker_sent
                (withTimeout (timeoutOptions READ_TIMEOUT_MS 1) (client c d)) fb 1 c w
                (fun w0 => withTimeoutFrom_sent _ c d _ 1 _ _ w0)) as Hs.
  unfold final in Hs.
  destruct (callWithBreaker _ _ w) as [[e|r] w1]; exact Hs.
Qed.

Lemma sent_agree {T} (proj : DB -> T) {A} (m : Svc A) n c :
  (forall w, sent n c w (final m w)) -> respects (agree proj) m.
Proof.
  intros Hm w. destruct (Hm w) as (H1 & H2 & _). split; congruence.
Qed.

Lemma sent_base {A} (m : Svc A) n c : (forall w, sent n c w (final m w)) -> respects sameBase m.
Proof. intros Hm w. destruct (Hm w) as (_ & H2 & _). exact H2. Qed.

Lemma createRound_agree {T} (proj : DB -> T) p m : respects (agree proj) (createRound p m).
Proof. eapply sent_agree. intros w. apply mutatingCall_sent. Qed.

Lemma placeBet_agree {T} (proj : DB -> T) u a s : respects (agree proj) (placeBet u a s).
Proof. eapply sent_agree. intros w. apply mutatingCall_sent. Qed.

Lemma placePrecisionBet_agree {T} (proj : DB -> T) u a p :
  respects (agree proj) (placePrecisionBet u a p).
Proof. eapply sent_agree. intros w. apply mutatingCall_sent. Qed.

Lemma sorobanResolveRound_agree {T} (proj : DB -> T) p r t :
  respects (agree proj) (sorobanResolveRound p r t).
Proof. eapply sent_agree. intros w. apply mutatingCall_sent. Qed.

Lemma claimWinnings_agree {T} (proj : DB -> T) u : respects (agree proj) (claimWinnings u).
Proof. eapply sent_agree. intros w. apply mutatingCall_sent. Qed.

Lemma applyMoneyPathFailure_agree {T} (proj : DB -> T) e :
  respects (agree proj) (applyMoneyPathFailure e).
Proof. unfold applyMoneyPathFailure. respects_auto. Qed.

(** A failure of a mutating call never mentions a timeout, unless the cap
    refused it or the service is not configured. *)
Lemma mutatingCall_error {A} c (d : ChainReply -> Err + A) n w e w' :
  env_sorobanReady = true -> mutatingCall c d n w = (inl e, w') ->
  err_class e = ClsBackpressure \/ exists m, e = mapSorobanError m.
Proof.
  intros Hr. unfold mutatingCall, bind, ensureInitialized. rewrite Hr. cbn [ret].
  destruct (callWithBreaker _ _ w) as [[e1|r] w1] eqn:E; intros Hx.
  - injection Hx as <- <-. left.
    unfold callWithBreaker, catch in E.
    destruct (limiterExecute _ w) as [[e2|a] w2]; [|discriminate].
    destruct (decide _) as [Hc|]; [injection E as <- <-; exact Hc|].
    destruct (decide _); discriminate.
  - destruct (tr_success r); [destruct (tr_data r)|]; try discriminate;
      injection Hx as <- <-; eauto.
Qed.

Lemma client_once {A} c (d : ChainReply -> Err + A) ms w :
  w_calls (snd (race ms (client c d) w)) = c :: w_calls w.
Proof.
  unfold race, client. destruct (env_client (c :: w_calls w)) as [r|e|]; try reflexivity.
  destruct (d r); reflexivity.
Qed.

(** A success under the breaker is a success of the operation. *)
Lemma callWithBreaker_success {A} (op : World -> TimeoutResult A * World) fb w r w1 :
  callWithBreaker op fb w = (inr r, w1) -> tr_success r = true ->
  exists w0, fst (op w0) = r /\ w_calls w0 = w_calls w /\ w_calls w1 = w_calls (snd (op w0)).
Proof.
  unfold callWithBreaker, catch, limiterExecute, finally, execute. intros Hc Hs.
  destruct (limiterEnter (getLimiter w)) as [e|l].
  { repeat case_match; try discriminate; injection Hc as <- _; discriminate. }
  destruct (beforeCall _ _ _) as [[e|[]] b].
  { repeat case_match; try discriminate; injection Hc as <- _; discriminate. }
  unfold unwrapTimeout in Hc. set (w0 := setBreaker b (setLimiter l w)) in *. exists w0.
  destruct (op w0) as [r0 w2]. destruct (tr_success r0) eqn:E0.
  - injection Hc as -> <-. repeat split.
  - repeat case_match; try discriminate; injection Hc as <- _; discriminate.
Qed.

(** What a read returns was answered by the chain. *)
Lemma readCall_value {A} c (d : ChainReply -> Err + A) fb w a w' :
  readCall c d fb w = (inr (Some a), w') ->
  exists r, env_client (c :: w_calls w) = Resolves r /\ d r = inr a.
Proof.
  unfold readCall. destruct env_sorobanReady; [|discriminate]. intros Hr.
  apply bind_inr_inv in Hr as (x & w1 & Hc & Hr). injection Hr as Hr _.
  destruct (tr_success x) eqn:Es; [|discriminate].
  destruct (callWithBreaker_success _ _ _ _ _ Hc Es) as (w0 & Hw0 & Hc0 & _).
  pose proof (withTimeout_once (timeoutOptions READ_TIMEOUT_MS 1) (client c d) w0 eq_refl) as Ho.
  destruct (withTimeout _ _ w0) as [x' w2]. cbn in Hw0. subst x'. destruct Ho as [_ Ho].
  unfold client in Ho. rewrite Hc0 in Ho.
  destruct (env_client (c :: w_calls w)) as [r|e|].
  - exists r. split; [reflexivity|]. destruct (d r) as [e|b]; destruct Ho; congruence.
  - destruct Ho. congruence.
  - destruct Ho. congruence.
Qed.

Lemma getPendingWinnings_nonzero address w z w' :
  getPendingWinnings address w = (inr z, w') -> z <> 0 ->
  exists r, env_client (CallGetPendingWinnings address :: w_calls w) = Resolves r /\
            z = default 0 (cr_result r).
Proof.
  intros Hr Hz. apply bind_inr_inv in Hr as ([p|] & w1 & Hc & Hr); injection Hr as <- _; [|contradiction].
  apply readCall_value in Hc as (r & Hr & Hd). exists r. split; [exact Hr|]. cbn in *. congruence.
Qed.

Lemma getPendingWinnings_sent address w :
  sent 1 (CallGetPendingWinnings address) w (final (getPendingWinnings address) w).
Proof. unfold getPendingWinnings. rewrite final_fmap. apply readCall_sent. Qed.

(** A read sends at most one call, and only the limiter makes it throw. *)
Lemma getBalance_sent address w : sent 1 (CallGetBalance address) w (final (getBalance address) w).
Proof. unfold getBalance. rewrite final_fmap. apply readCall_sent. Qed.

Lemma getActiveRound_sent w : sent 1 CallGetActiveRound w (final getActiveRound w).
Proof. unfold getActiveRound. rewrite final_fmap. apply readCall_sent. Qed.

Lemma getUserStats_sent address w : sent 1 (CallGetUserStats address) w (final (getUserStats address) w).
Proof. unfold getUserStats. rewrite final_fmap. apply readCall_sent. Qed.

Lemma mintInitial_sent address w : sent MAX_RETRIES (CallMintInitial address) w (final (mintInitial address) w).
Proof. apply mutatingCall_sent. Qed.

Lemma callWithBreaker_throws {A} (op : World -> TimeoutResult A * World) fb w e w' :
  callWithBreaker op fb w = (inl e, w') -> err_class e = ClsBackpressure.
Proof.
  unfold callWithBreaker, catch. destruct (limiterExecute _ w) as [[e'|r] w1]; [|done].
  destruct (decide _) as [Hb|_]; [by intros [= <- _]|]. by destruct (decide _).
Qed.

Lemma readCall_throws {A} c (d : ChainReply -> Err + A) fb w e w' :
  readCall c d fb w = (inl e, w') -> err_class e = ClsBackpressure.
Proof.
  unfold readCall. destruct env_sorobanReady; [|done]. unfold bind.
  destruct (callWithBreaker _ fb w) as [[e'|r] w1] eqn:Ec; [|done]. intros [= <- _]. by eapply callWithBreaker_throws.
Qed.

Lemma reads_throw_backpressure address w :
  (forall e, value (getBalance address) w = inl e -> err_class e = ClsBackpressure) /\
  (forall e, value getActiveRound w = inl e -> err_class e = ClsBackpressure) /\
  (forall e, value (getUserStats address) w = inl e -> err_class e = ClsBackpressure) /\
  (forall e, value (getPendingWinnings address) w = inl e -> err_class e = ClsBackpressure).
Proof.
  unfold value, getBalance, getActiveRound, getUserStats, getPendingWinnings, bind.
  split_and!; intros e; destruct (readCall _ _ _ w) as [[e'|r] w1] eqn:Er; try done; intros [= <-]; by eapply readCall_throws.
Qed.

Lemma getTransactionStatus_sent h w : sent 1 (CallGetTransaction h) w (final (getTransactionStatus h) w).
Proof.
  unfold final, getTransactionStatus, bind, ensureInitialized.
  destruct env_sorobanReady; cbn beta iota delta [ret]; [|apply sent_refl].
  match goal with |- context [callWithBreaker (withTimeout ?o (client ?c ?d)) ?fb w] =>
    pose proof (callWithBreaker_sent (withTimeout o (client c d)) fb 1 c w
                  (fun w0 => withTimeoutFrom_sent o c d _ 1 _ _ w0)) as Hs end.
  unfold final in Hs. destruct (callWithBreaker _ _ w) as [[e|r] w1]; [exact Hs|].
  destruct (tr_success r); [destruct (tr_data r)|]; exact Hs.
Qed.

(** Every call sent between two worlds satisfies [P]. *)
Definition callsOnly (P : ChainCall -> Prop) (w w' : World) : Prop :=
  exists l, w_calls w' = (l ++ w_calls w)%list /\ Forall P l.

#[export] Instance callsOnly_preorder P : PreOrder (callsOnly P).
Proof.
  split.
  - intros w. exists []. split; [reflexivity | constructor].
  - intros x y z (l1 & E1 & F1) (l2 & E2 & F2). exists (l2 ++ l1)%list.
    rewrite E2, E1. split; [apply app_assoc | apply Forall_app; auto].
Qed.

Lemma callsOnly_same {A} P (m : Svc A) : respects sameCalls m -> respects (callsOnly P) m.
Proof. intros Hm w. exists []. split; [apply Hm | constructor]. Qed.

Lemma callsOnly_sent {A} P (m : Svc A) n c : P c -> (forall w, sent n c w (final m w)) -> respects (callsOnly P) m.
Proof.
  intros Hc Hm w. destruct (Hm w) as (_ & _ & _ & _ & k & _ & E). exists (replicate k c).
  split; [exact E|]. apply Forall_replicate. exact Hc.
Qed.

(** C28. A bet is sent to the chain at most once, however the call ends: no
    layer re-sends it, nothing in the database changes, and a bet reported as
    placed was sent. A failure is reported as one of the safe errors of
    [mapSorobanError], or as back-pressure. *)
Theorem placeBet_at_most_once address amount side w :
  let call := CallPlaceBet address (amountInStroops amount) side in
  let w' := final (placeBet address amount side) w in
  w_db w' = w_db w /\ w_emits w' = w_emits w /\
  (w_calls w' = w_calls w \/ w_calls w' = call :: w_calls w) /\
  (forall r, value (placeBet address amount side) w = inr r -> w_calls w' = call :: w_calls w) /\
  (env_sorobanReady = true -> forall e, value (placeBet address amount side) w = inl e ->
     err_class e = ClsBackpressure \/ exists m, e = mapSorobanError m).
Proof.
  cbv zeta. unfold placeBet. set (c := CallPlaceBet _ _ _). set (d := fun r => inr _).
  destruct (mutatingCall_sent c d 1 w) as (H1 & _ & _ & H4 & k & Hk & H5).
  split; [exact H1|]. split; [exact H4|]. split.
  { rewrite H5. destruct k as [|[|k]]; [left | right | lia]; reflexivity. }
  split.
  - intros r Hv. unfold value, final in *. unfold mutatingCall, bind, ensureInitialized in *.
    destruct env_sorobanReady; [|discriminate]. cbn [ret] in *. cbn beta iota delta [ret] in *.
    destruct (callWithBreaker _ _ w) as [[e|x] w1] eqn:Ec; [discriminate|].
    destruct (tr_success x) eqn:Es; [|discriminate]. destruct (tr_data x); [|discriminate].
    destruct (callWithBreaker_success _ _ _ _ _ Ec Es) as (w0 & Hw0 & Hc0 & Hc1).
    change (w_calls w1 = c :: w_calls w). rewrite Hc1, <- Hc0.
    pose proof (withTimeout_once (timeoutOptions CALL_TIMEOUT_MS 1) (client c d) w0 eq_refl) as Ho.
    destruct (withTimeout _ _ w0) as [x' w2]. destruct Ho as [-> _]. apply client_once.
  - intros Hr e Hv. unfold value in Hv. destruct (mutatingCall c d 1 w) as [v w1] eqn:Em.
    cbn in Hv. subst v. exact (mutatingCall_error c d 1 w e w1 Hr Em).
Qed.
End ServiceLemmas.

#[export] Hint Resolve createRound_agree placeBet_agree placePrecisionBet_agree
  sorobanResolveRound_agree claimWinnings_agree applyMoneyPathFailure_agree : respects.
