(* ===== verification/RoundLifecycle.v ===== *)
(** * Round lifecycle (src/src/services/round-lifecycle.service.ts)

    [transitionRound] reads the round, refuses an illegal edge, then performs
    the conditional [UPDATE ... WHERE status IN (...)]. The two halves are
    separate definitions because other callers run between them: [rstep] below
    interleaves any number of callers, and the races are settled there. *)

From Stdlib Require Import ZArith QArith Lia.
From stdpp Require Import base gmap strings list pretty.
From S2P Require Import Prelude.
From S2P Require Import Numeric.
From S2P Require Import Errors.
From S2P Require Import Schema.
From S2P Require Import Store.
From S2P Require Import PriceRange.

#[local] Open Scope Z_scope.

Inductive RoundLifecycleOutcome : Type := UPDATED | ALREADY_LOCKED | ALREADY_RESOLVED | NO_OP.

(** The extra columns callers write with the status: settlement passes these
    two, everybody else none. [endPrice] is a JavaScript number. *)
Record TransitionData : Type := mkTransitionData {
  td_endPrice : option Q;
  td_resolvedAt : option Z;
}.

Definition noData : TransitionData := mkTransitionData None None.

Section Lifecycle.
Context `{PgNumeric}.

Definition applyTransition (toState : RoundStatus) (data : TransitionData) (r : Round) : Round :=
  r {{ r_status := toState;
       r_endPrice := match td_endPrice data with Some q => Some (colSet q) | None => r_endPrice r end;
       r_resolvedAt := match td_resolvedAt data with Some t => Some t | None => r_resolvedAt r end }}.

Definition illegal (from to : RoundStatus) (msg : option string) : Err :=
  IllegalRoundTransitionError (RoundStatus_str from) (RoundStatus_str to) msg.

(** Lines 89-111: the read and the early rejection. *)
Definition transitionCheck (roundId : string) (toState : RoundStatus) : Svc RoundStatus :=
  o <- findUnique (Row := Round) roundId ;;
  match o with
  | None => throw (NotFoundError ("Round not found: " +:+ roundId) NOT_FOUND)
  | Some existing =>
      if isLegalRoundTransition (r_status existing) toState then ret (r_status existing)
      else throw (illegal (r_status existing) toState None)
  end.

(** Lines 116-137: the compare-and-set. *)
Definition transitionCas (roundId : string) (toState : RoundStatus) (data : TransitionData)
    (existing : RoundStatus) : Svc unit :=
  count <- updateManyById roundId
             (fun r : Round => bool_decide (r_status r ∈ allowedSourcesFor toState))
             (applyTransition toState data) ;;
  if (count =? 1)%nat then ret tt
  else throw (illegal existing toState
         (Some ("Illegal round transition: " +:+ RoundStatus_str existing +:+ " -> "
                +:+ RoundStatus_str toState +:+ " (state changed concurrently).")%string)).

Definition transitionRound (roundId : string) (toState : RoundStatus) (data : TransitionData)
    (emitUpdate : bool) : Svc Round :=
  existing <- transitionCheck roundId toState ;;
  transitionCas roundId toState data existing ;;;
  o <- findUnique (Row := Round) roundId ;;
  match o with
  | None => throw (NotFoundError ("Round not found after transition: " +:+ roundId) NOT_FOUND)
  | Some updated =>
      when emitUpdate (emitRoundUpdate roundId) ;;;
      ret updated
  end.

Definition lockRound (roundId : string) : Svc RoundLifecycleOutcome :=
  o <- findUnique (Row := Round) roundId ;;
  match o with
  | None => ret NO_OP
  | Some round =>
      match r_status round with
      | LOCKED => ret ALREADY_LOCKED
      | RESOLVED | CANCELLED => ret NO_OP
      | _ => transitionRound roundId LOCKED noData true ;;; ret UPDATED
      end
  end.

(** ** One caller alone *)

Lemma transitionCheck_run roundId toState w :
  transitionCheck roundId toState w =
  match rounds (w_db w) !! roundId with
  | None => (inl (NotFoundError ("Round not found: " +:+ roundId) NOT_FOUND), w)
  | Some r => if isLegalRoundTransition (r_status r) toState then (inr (r_status r), w)
              else (inl (illegal (r_status r) toState None), w)
  end.
Proof.
  unfold transitionCheck, bind, findUnique, gets. cbn.
  destruct (rounds (w_db w) !! roundId) as [r|]; [|reflexivity].
  destruct (isLegalRoundTransition (r_status r) toState); reflexivity.
Qed.

Definition setRound (k : string) (r : Round) (w : World) : World :=
  w {{ w_db := (w_db w) {{ rounds := <[k := r]> (rounds (w_db w)) }} }}.

Lemma transitionCas_run roundId toState data existing w r :
  rounds (w_db w) !! roundId = Some r ->
  transitionCas roundId toState data existing w =
  if isLegalRoundTransition (r_status r) toState
  then (inr tt, setRound roundId (applyTransition toState data r) w)
  else (inl (illegal existing toState
         (Some ("Illegal round transition: " +:+ RoundStatus_str existing +:+ " -> "
                +:+ RoundStatus_str toState +:+ " (state changed concurrently).")%string)), w).
Proof.
  intros Hr. unfold transitionCas, updateManyById, bind, findUnique, gets. cbn. rewrite Hr.
  unfold isLegalRoundTransition. destruct (bool_decide _); reflexivity.
Qed.

Lemma transitionRound_ok roundId toState data e w r :
  rounds (w_db w) !! roundId = Some r -> isLegalRoundTransition (r_status r) toState = true ->
  transitionRound roundId toState data e w =
  (inr (applyTransition toState data r),
   final (when e (emitRoundUpdate roundId) : Svc unit)
     (setRound roundId (applyTransition toState data r) w)).
Proof.
  intros Hr Hl. unfold transitionRound.
  erewrite bind_ok by (rewrite transitionCheck_run, Hr, Hl; reflexivity).
  erewrite bind_ok by (rewrite (transitionCas_run _ _ _ _ _ r Hr), Hl; reflexivity).
  unfold bind, findUnique, gets. cbn. rewrite lookup_insert_eq. destruct e; reflexivity.
Qed.

(** The three outcomes and what each leaves behind. *)
Lemma transitionRound_cases roundId toState data e w :
  match rounds (w_db w) !! roundId with
  | None => transitionRound roundId toState data e w
            = (inl (NotFoundError ("Round not found: " +:+ roundId) NOT_FOUND), w)
  | Some r =>
      if isLegalRoundTransition (r_status r) toState
      then value (transitionRound roundId toState data e) w = inr (applyTransition toState data r) /\
           w_db (final (transitionRound roundId toState data e) w)
           = (w_db w) {{ rounds := <[roundId := applyTransition toState data r]> (rounds (w_db w)) }}
      else transitionRound roundId toState data e w
           = (inl (illegal (r_status r) toState None), w)
  end.
Proof.
  destruct (rounds (w_db w) !! roundId) as [r|] eqn:Hr.
  - destruct (isLegalRoundTransition (r_status r) toState) eqn:Hl.
    + unfold value, final. rewrite (transitionRound_ok _ _ _ _ _ _ Hr Hl). cbn.
      split; [reflexivity|]. destruct e; reflexivity.
    + unfold transitionRound. apply bind_err. rewrite transitionCheck_run, Hr, Hl. reflexivity.
  - unfold transitionRound. apply bind_err. rewrite transitionCheck_run, Hr. reflexivity.
Qed.

(** Whether [lockRound] reports UPDATED or ALREADY_LOCKED, the round ends
    LOCKED with every other column as it was, and calling it again changes
    nothing and answers ALREADY_LOCKED. It reports NO_OP exactly for a missing
    or finished round, and fails exactly for one that has not opened; in those
    cases nothing changes. *)
Theorem lockRound_spec id w :
  let again w' r := rounds (w_db w') = <[id := r {{ r_status := LOCKED }}]> (rounds (w_db w)) /\
                    lockRound id w' = (inr ALREADY_LOCKED, w') in
  match rounds (w_db w) !! id with
  | Some r =>
      match r_status r with
      | ACTIVE => value (lockRound id) w = inr UPDATED /\ again (final (lockRound id) w) r
      | LOCKED => lockRound id w = (inr ALREADY_LOCKED, w) /\ again w r
      | PENDING => lockRound id w = (inl (illegal PENDING LOCKED None), w)
      | _ => lockRound id w = (inr NO_OP, w)
      end
  | None => lockRound id w = (inr NO_OP, w)
  end.
Proof.
  cbv zeta.
  assert (Hrun : lockRound id w =
    match rounds (w_db w) !! id with
    | None => (inr NO_OP, w)
    | Some r => match r_status r with
                | LOCKED => (inr ALREADY_LOCKED, w)
                | RESOLVED | CANCELLED => (inr NO_OP, w)
                | _ => (transitionRound id LOCKED noData true ;;; ret UPDATED) w
                end
    end).
  { unfold lockRound, bind at 1, findUnique, gets. cbn.
    destruct (rounds (w_db w) !! id) as [r|]; [destruct (r_status r)|]; reflexivity. }
  assert (Hagain : forall w' r, rounds (w_db w') !! id = Some r -> r_status r = LOCKED ->
            lockRound id w' = (inr ALREADY_LOCKED, w')).
  { intros w' r Hr Hs. unfold lockRound, bind, findUnique, gets. cbn. rewrite Hr, Hs. reflexivity. }
  unfold value, final. rewrite Hrun.
  destruct (rounds (w_db w) !! id) as [r|] eqn:Hr; [|reflexivity].
  destruct (r_status r) eqn:Hs; try reflexivity.
  - apply bind_err. unfold transitionRound. apply bind_err. rewrite transitionCheck_run, Hr, Hs. reflexivity.
  - erewrite bind_ok by (apply (transitionRound_ok _ _ _ _ _ _ Hr); rewrite Hs; reflexivity).
    cbn [fst snd ret]. split; [reflexivity|].
    assert (E : applyTransition LOCKED noData r = r {{ r_status := LOCKED }}) by (destruct r; reflexivity).
    rewrite E. split; [reflexivity|].
    apply (Hagain _ (r {{ r_status := LOCKED }})); [apply lookup_insert_eq | destruct r; reflexivity].
  - split; [reflexivity|]. split; [|reflexivity].
    rewrite insert_id; [reflexivity|]. rewrite Hr. f_equal. destruct r; cbn in *; congruence.
Qed.
End Lifecycle.

(** ** The state machine *)

Inductive lifecycleEdge : RoundStatus -> RoundStatus -> Prop :=
| edge_open : lifecycleEdge PENDING ACTIVE
| edge_lock : lifecycleEdge ACTIVE LOCKED
| edge_resolve : lifecycleEdge LOCKED RESOLVED
| edge_cancel_active : lifecycleEdge ACTIVE CANCELLED
| edge_cancel_locked : lifecycleEdge LOCKED CANCELLED.

Lemma legal_edge from to : isLegalRoundTransition from to = true <-> lifecycleEdge from to.
Proof.
  rewrite isLegalRoundTransition_spec. split.
  - intros [[-> ->]|[[-> ->]|[[-> ->]|[[->| ->] ->]]]]; constructor.
  - intros []; auto 10.
Qed.

Section StateMachine.
Context `{PgNumeric}.

(** [transitionRound] implements the state machine: it succeeds exactly
    along the five edges, then rewriting only the round's own row, and
    otherwise leaves the world untouched. *)
Theorem transitionRound_spec id to data e w :
  (forall r', value (transitionRound id to data e) w = inr r' <->
     exists r, rounds (w_db w) !! id = Some r /\ lifecycleEdge (r_status r) to /\
               r' = applyTransition to data r) /\
  (forall r', value (transitionRound id to data e) w = inr r' ->
     r_status r' = to /\
     w_db (final (transitionRound id to data e) w)
     = (w_db w) {{ rounds := <[id := r']> (rounds (w_db w)) }}) /\
  (forall err, value (transitionRound id to data e) w = inl err ->
     final (transitionRound id to data e) w = w).
Proof.
  pose proof (transitionRound_cases id to data e w) as Hc.
  destruct (rounds (w_db w) !! id) as [r|] eqn:Er.
  2: { unfold value, final. rewrite Hc. cbn. split; [|split]; [|discriminate | reflexivity].
       intros r'. split; [discriminate | intros (? & ? & _); congruence]. }
  destruct (isLegalRoundTransition (r_status r) to) eqn:El.
  - destruct Hc as [Hv Hdb]. rewrite Hv, Hdb. apply legal_edge in El. split; [|split]; [| |discriminate].
    + intros r'. split; [intros [= <-]; eauto|]. intros (r0 & [= <-] & _ & ->). reflexivity.
    + intros r' [= <-]. split; [destruct r; reflexivity | reflexivity].
  - unfold value, final. rewrite Hc. cbn. split; [|split]; [|discriminate | reflexivity].
    intros r'. split; [discriminate|]. intros (r0 & [= <-] & Hl & _).
    apply legal_edge in Hl. congruence.
Qed.
End StateMachine.

(** ** Racing callers of one round *)

Section Races.
Context `{PgNumeric} (roundId : string).

(** A caller of [transitionRound(roundId, to)]: not started, past its check
    (it saw [from]), done, or failed. *)
Inductive Caller : Type :=
| Start (to : RoundStatus) (data : TransitionData)
| Checked (to : RoundStatus) (data : TransitionData) (from : RoundStatus)
| Won (to : RoundStatus)
| Lost (to : RoundStatus) (e : Err).

(** One atomic database access of one caller. *)
Inductive rstep : World * list Caller -> World * list Caller -> Prop :=
| rs_check w cs i to data from w' :
    cs !! i = Some (Start to data) -> transitionCheck roundId to w = (inr from, w') ->
    rstep (w, cs) (w', <[i := Checked to data from]> cs)
| rs_check_fail w cs i to data e w' :
    cs !! i = Some (Start to data) -> transitionCheck roundId to w = (inl e, w') ->
    rstep (w, cs) (w', <[i := Lost to e]> cs)
| rs_cas w cs i to data from w' :
    cs !! i = Some (Checked to data from) ->
    transitionCas roundId to data from w = (inr tt, w') ->
    rstep (w, cs) (w', <[i := Won to]> cs)
| rs_cas_fail w cs i to data from e w' :
    cs !! i = Some (Checked to data from) ->
    transitionCas roundId to data from w = (inl e, w') ->
    rstep (w, cs) (w', <[i := Lost to e]> cs).

Definition isStart (c : Caller) : Prop := match c with Start _ _ => True | _ => False end.

Inductive rreachable (w0 : World) (cs0 : list Caller) : World * list Caller -> Prop :=
| rr_init : Forall isStart cs0 -> rreachable w0 cs0 (w0, cs0)
| rr_step s s' : rreachable w0 cs0 s -> rstep s s' -> rreachable w0 cs0 s'.

(** How far along the lifecycle a status is; every legal edge goes up. *)
Definition rank (s : RoundStatus) : nat :=
  match s with PENDING => 0 | ACTIVE => 1 | LOCKED => 2 | RESOLVED | CANCELLED => 3 end.

Lemma legal_rank from to : isLegalRoundTransition from to = true -> (rank from < rank to)%nat.
Proof. rewrite isLegalRoundTransition_spec. intros; destruct_or?; destruct_and?; destruct_or?; subst; cbn; lia. Qed.

Definition statusOf (w : World) : option RoundStatus := r_status <$> rounds (w_db w) !! roundId.

(** Winners have pairwise different ranks, none above the current status, and
    one at the current rank won the current status. *)
Definition raceInv (s : World * list Caller) : Prop :=
  let '(w, cs) := s in
  exists st, statusOf w = Some st /\
    (forall i a, cs !! i = Some (Won a) -> (rank a <= rank st)%nat /\ (rank a = rank st -> a = st)) /\
    (forall i j a b, cs !! i = Some (Won a) -> cs !! j = Some (Won b) -> rank a = rank b -> i = j).

Lemma raceInv_keep w w' cs i c :
  statusOf w' = statusOf w -> (forall a, c <> Won a) -> raceInv (w, cs) -> raceInv (w', <[i := c]> cs).
Proof.
  intros Hs Hc (st & H1 & H2 & H3). exists st. rewrite Hs. split; [exact H1|].
  assert (Hw : forall j a, <[i := c]> cs !! j = Some (Won a) -> cs !! j = Some (Won a)).
  { intros j a Hj. destruct (decide (i = j)) as [->|Hij].
    - destruct (decide (j < length cs)%nat) as [Hl|Hl].
      + rewrite list_lookup_insert_eq in Hj by exact Hl. injection Hj as Hj. destruct (Hc a Hj).
      + rewrite list_insert_ge in Hj by lia. exact Hj.
    - rewrite list_lookup_insert_ne in Hj by exact Hij. exact Hj. }
  split; intros; eauto.
Qed.

Lemma raceInv_step s s' : raceInv s -> rstep s s' -> raceInv s'.
Proof.
  intros Hinv Hs. destruct Hs as [w cs i to data from w' Hi Hr|w cs i to data e w' Hi Hr
                                 |w cs i to data from w' Hi Hr|w cs i to data from e w' Hi Hr].
  - rewrite transitionCheck_run in Hr. apply (raceInv_keep w); [|discriminate|exact Hinv].
    repeat case_match; simplify_eq; reflexivity.
  - rewrite transitionCheck_run in Hr. apply (raceInv_keep w); [|discriminate|exact Hinv].
    repeat case_match; simplify_eq; reflexivity.
  - destruct Hinv as (st & H1 & H2 & H3). unfold statusOf in H1.
    destruct (rounds (w_db w) !! roundId) as [r|] eqn:Er; [|discriminate].
    cbn in H1. injection H1 as <-.
    rewrite (transitionCas_run _ _ _ _ _ r Er) in Hr.
    destruct (isLegalRoundTransition (r_status r) to) eqn:El; [|discriminate].
    injection Hr as <-. apply legal_rank in El.
    exists to. split; [unfold statusOf, setRound; cbn; rewrite lookup_insert_eq; reflexivity|].
    assert (Hil : (i < length cs)%nat) by (eapply lookup_lt_Some; exact Hi).
    assert (Hw : forall j a, <[i := Won to]> cs !! j = Some (Won a) ->
              (j = i /\ a = to) \/ (j <> i /\ cs !! j = Some (Won a))).
    { intros j a Hj. destruct (decide (i = j)) as [->|Hij].
      - rewrite list_lookup_insert_eq in Hj by exact Hil. injection Hj as <-. auto.
      - rewrite list_lookup_insert_ne in Hj by exact Hij. auto. }
    split.
    + intros j a Hj. destruct (Hw j a Hj) as [[-> ->]|[_ Hj']]; [auto|].
      destruct (H2 j a Hj') as [Hle _]. lia.
    + intros j k a b Hj Hk Hab.
      destruct (Hw j a Hj) as [[-> ->]|[Hji Hj']], (Hw k b Hk) as [[-> ->]|[Hki Hk']];
        [reflexivity | | | exact (H3 j k a b Hj' Hk' Hab)].
      * destruct (H2 k b Hk') as [Hle _]. lia.
      * destruct (H2 j a Hj') as [Hle _]. lia.
  - apply (raceInv_keep w); [|discriminate|exact Hinv].
    destruct Hinv as (st & H1 & _). unfold statusOf in H1.
    destruct (rounds (w_db w) !! roundId) as [r|] eqn:Er; [|discriminate].
    rewrite (transitionCas_run _ _ _ _ _ r Er) in Hr.
    destruct (isLegalRoundTransition (r_status r) to); [discriminate|].
    injection Hr as _ <-. reflexivity.
Qed.

Lemma raceInv_reachable w0 cs0 s :
  statusOf w0 <> None -> rreachable w0 cs0 s -> raceInv s.
Proof.
  intros H0. induction 1 as [Hc|s s' _ IH Hs]; [|exact (raceInv_step _ _ IH Hs)].
  destruct (statusOf w0) as [st|] eqn:E; [|congruence].
  assert (Hno : forall i a, cs0 !! i = Some (Won a) -> False).
  { intros i a Hi. exact (Forall_lookup_1 _ _ _ _ Hc Hi). }
  exists st. split; [exact E|]. split; intros; exfalso; eauto.
Qed.

(** The statuses passed through form a path of the lifecycle. *)
Lemma race_path w0 cs0 s :
  rreachable w0 cs0 s -> forall st0 st,
  statusOf w0 = Some st0 -> statusOf (fst s) = Some st -> rtc lifecycleEdge st0 st.
Proof.
  induction 1 as [Hc|s s' Hr IH Hs]; intros st0 st H0 Hst.
  { cbn in Hst. rewrite H0 in Hst. injection Hst as <-. apply rtc_refl. }
  destruct Hs as [w cs i to data from w' Hi Hx|w cs i to data e w' Hi Hx
                 |w cs i to data from w' Hi Hx|w cs i to data from e w' Hi Hx]; cbn [fst] in *.
  - rewrite transitionCheck_run in Hx. repeat case_match; simplify_eq; eauto.
  - rewrite transitionCheck_run in Hx. repeat case_match; simplify_eq; eauto.
  - destruct (rounds (w_db w) !! roundId) as [r|] eqn:Er.
    2: { unfold transitionCas, updateManyById, bind, findUnique, gets in Hx. cbn in Hx.
         rewrite Er in Hx. discriminate. }
    rewrite (transitionCas_run _ _ _ _ _ r Er) in Hx.
    destruct (isLegalRoundTransition (r_status r) to) eqn:El; [|discriminate].
    injection Hx as <-. unfold statusOf, setRound in Hst. cbn in Hst.
    rewrite lookup_insert_eq in Hst. injection Hst as <-. apply legal_edge in El.
    eapply rtc_r; [apply (IH st0 (r_status r) H0); unfold statusOf; rewrite Er; reflexivity | exact El].
  - destruct (rounds (w_db w) !! roundId) as [r|] eqn:Er.
    2: { unfold transitionCas, updateManyById, bind, findUnique, gets in Hx. cbn in Hx.
         rewrite Er in Hx. injection Hx as _ <-. eauto. }
    rewrite (transitionCas_run _ _ _ _ _ r Er) in Hx. 
    destruct (isLegalRoundTransition (r_status r) to); [discriminate|]. injection Hx as _ <-. eauto.
Qed.

Definition finishes (s : RoundStatus) : Prop := s = RESOLVED \/ s = CANCELLED.

(** C3. Any number of callers may race to move one round. At every point of
    every interleaving of their reads and conditional updates, no destination
    has been won twice, at most one caller has finished the round (resolved
    it or cancelled it), and the status has only moved along the lifecycle. *)
Theorem race_one_winner w0 cs0 w cs :
  statusOf w0 <> None -> rreachable w0 cs0 (w, cs) ->
  (forall i j to, cs !! i = Some (Won to) -> cs !! j = Some (Won to) -> i = j) /\
  (forall i j a b, cs !! i = Some (Won a) -> cs !! j = Some (Won b) ->
     finishes a -> finishes b -> i = j) /\
  (exists st0 st, statusOf w0 = Some st0 /\ statusOf w = Some st /\ rtc lifecycleEdge st0 st).
Proof.
  intros H0 Hr. pose proof (raceInv_reachable w0 cs0 (w, cs) H0 Hr) as (st & Hst & _ & Huniq).
  split; [intros; eapply Huniq; eauto|]. split.
  - intros i j a b Hi Hj Ha Hb. apply (Huniq i j a b Hi Hj).
    destruct Ha as [->| ->], Hb as [->| ->]; reflexivity.
  - destruct (statusOf w0) as [st0|] eqn:E; [|congruence]. exists st0, st.
    split; [reflexivity|]. split; [exact Hst|]. eapply race_path; eauto.
Qed.

Definition target (c : Caller) : RoundStatus :=
  match c with Start to _ | Checked to _ _ | Won to | Lost to _ => to end.

(** While nobody has won, the status is the initial one and only callers
    without an edge from it have lost. *)
Definition openInv (st0 : RoundStatus) (s : World * list Caller) : Prop :=
  (exists i a, snd s !! i = Some (Won a)) \/
  (statusOf (fst s) = Some st0 /\
   forall i to e, snd s !! i = Some (Lost to e) -> ~ lifecycleEdge st0 to).

Lemma openInv_keep st0 w w' cs i c c' :
  cs !! i = Some c -> statusOf w' = statusOf w -> (forall a, c <> Won a) ->
  (forall to e, c' = Lost to e -> statusOf w = Some st0 -> ~ lifecycleEdge st0 to) ->
  openInv st0 (w, cs) -> openInv st0 (w', <[i := c']> cs).
Proof.
  intros Hi Hs Hc Hl [(j & a & Hj)|[Hst Hlost]]; cbn in *.
  - left. exists j, a. cbn. rewrite list_lookup_insert_ne; [exact Hj|].
    intros ->. rewrite Hi in Hj. injection Hj as ->. exact (Hc a eq_refl).
  - right. cbn. split; [congruence|]. intros j to e Hj. destruct (decide (i = j)) as [->|Hn].
    + rewrite list_lookup_insert_eq in Hj by (eapply lookup_lt_Some; exact Hi).
      injection Hj as ->. eapply Hl; eauto.
    + rewrite list_lookup_insert_ne in Hj by exact Hn. eauto.
Qed.

Lemma openInv_step st0 s s' : openInv st0 s -> rstep s s' -> openInv st0 s'.
Proof.
  intros Hinv Hs.
  destruct Hs as [w cs i to data from w' Hi Hx|w cs i to data e w' Hi Hx
                 |w cs i to data from w' Hi Hx|w cs i to data from e w' Hi Hx].
  - rewrite transitionCheck_run in Hx. eapply openInv_keep; [exact Hi | | discriminate | discriminate | exact Hinv].
    repeat case_match; simplify_eq; reflexivity.
  - rewrite transitionCheck_run in Hx.
    eapply openInv_keep; [exact Hi | | discriminate | | exact Hinv]; [repeat case_match; simplify_eq; reflexivity|].
    intros to' e' [= -> ->] Hst Hl. apply legal_edge in Hl. unfold statusOf in Hst.
    destruct (rounds (w_db w) !! roundId) as [r|]; [|discriminate]. injection Hst as Hst.
    rewrite Hst, Hl in Hx. discriminate.
  - left. exists i, to. cbn. apply list_lookup_insert_eq. eapply lookup_lt_Some; exact Hi.
  - destruct (rounds (w_db w) !! roundId) as [r|] eqn:Er.
    + rewrite (transitionCas_run _ _ _ _ _ r Er) in Hx.
      destruct (isLegalRoundTransition (r_status r) to) eqn:El; [discriminate|]. injection Hx as _ <-.
      eapply openInv_keep; [exact Hi | reflexivity | discriminate | | exact Hinv].
      intros to' e' [= -> _] Hst Hl. apply legal_edge in Hl. unfold statusOf in Hst. rewrite Er in Hst.
      injection Hst as Hst. congruence.
    + unfold transitionCas, updateManyById, bind, findUnique, gets in Hx. cbn in Hx.
      rewrite Er in Hx. injection Hx as _ <-.
      eapply openInv_keep; [exact Hi | reflexivity | discriminate | | exact Hinv].
      intros to' e' _ Hst. unfold statusOf in Hst. rewrite Er in Hst. discriminate.
Qed.

Lemma targets_kept w0 cs0 s : rreachable w0 cs0 s -> map target (snd s) = map target cs0.
Proof.
  induction 1 as [|s s' _ IH Hs]; [reflexivity|]. rewrite <- IH.
  assert (Hk : forall cs i c c', cs !! i = Some c -> target c' = target c ->
            map target (<[i := c']> cs) = map target cs).
  { intros cs i c c' Hi Ht. apply list_eq. intros j. rewrite !list_lookup_fmap.
    destruct (decide (i = j)) as [->|Hn].
    - rewrite list_lookup_insert_eq by (eapply lookup_lt_Some; exact Hi). rewrite Hi. cbn. congruence.
    - rewrite list_lookup_insert_ne by exact Hn. reflexivity. }
  destruct Hs; cbn; eapply Hk; eauto.
Qed.

(** C39. Progress: once every caller has finished, somebody has won, unless no
    caller asked for an edge out of the initial status; in particular the
    conditional update never refuses everybody. *)
Theorem race_progress w0 cs0 w cs st0 :
  statusOf w0 = Some st0 -> rreachable w0 cs0 (w, cs) ->
  Forall (fun c => match c with Won _ | Lost _ _ => True | _ => False end) cs ->
  Exists (fun c => lifecycleEdge st0 (target c)) cs0 ->
  exists i a, cs !! i = Some (Won a).
Proof.
  intros H0 Hr Hdone Hex.
  assert (Hinv : openInv st0 (w, cs)).
  { remember (w, cs) as s eqn:Es. clear Es Hdone. induction Hr as [Hc|s s' _ IH Hs].
    - right. split; [exact H0|]. intros i to e Hi. destruct (Forall_lookup_1 _ _ _ _ Hc Hi).
    - exact (openInv_step _ _ _ IH Hs). }
  destruct Hinv as [Hw|[_ Hlost]]; [exact Hw|]. cbn in *.
  apply Exists_exists in Hex as (c0 & Hin & Hl). apply list_elem_of_lookup in Hin as (i & Hi).
  pose proof (targets_kept _ _ _ Hr) as Ht. cbn in Ht.
  assert (Hti : map target cs !! i = Some (target c0)) by (rewrite Ht; rewrite list_lookup_fmap, Hi; reflexivity).
  rewrite list_lookup_fmap in Hti. destruct (cs !! i) as [c|] eqn:Ec; [|discriminate].
  injection Hti as Hti. pose proof (Forall_lookup_1 _ _ _ _ Hdone Ec) as Hf.
  destruct c as [| |to|to e]; try contradiction; [eauto|].
  cbn in Hti. subst. destruct (Hlost i _ e Ec Hl).
Qed.
End Races.
