(* ===== verification/Outbox.v ===== *)
(** * Notifications, the transactional outbox and the dead-letter queue

    src/src/services/outbox.service.ts, dead-letter-queue.service.ts and the
    writing half of notification.service.ts. The dispatch handlers are
    injected, as in the source: they are the arguments of [processOutbox] and
    [retry]. Redaction of payloads for display (redact-payload.ts) is not
    modelled, so the dry-run previews carry the row itself. *)

From Stdlib Require Import ZArith Lia.
From stdpp Require Import base gmap strings list pretty.
From S2P Require Import Prelude.
From S2P Require Import Numeric.
From S2P Require Import Errors.
From S2P Require Import Schema.
From S2P Require Import Store.

#[local] Open Scope Z_scope.

Definition MAX_ERROR_LEN : nat := 1000.
Definition DEFAULT_MAX_ATTEMPTS : Z := 5.

Section Services.
Context `{Env}.

(** An [Error]'s stack when it has one, its message otherwise. *)
Definition truncateError (err : Err) : string :=
  let raw := if String.eqb (env_stack err) "" then err_message err else env_stack err in
  if (MAX_ERROR_LEN <? String.length raw)%nat then slicePrefix MAX_ERROR_LEN raw else raw.

(** ** Dead-letter queue *)

Record RecordFailureInput : Type := mkFailure {
  fi_channel : DispatchChannel;
  fi_eventName : option string;
  fi_userId : option string;
  fi_payload : Json;
  fi_error : Err;
}.

(** Never throws: a failed insert is logged and yields null. *)
Definition record (input : RecordFailureInput) : Svc (option string) :=
  catch
    (id <- newId ;;
     t <- now ;;
     row <- insertRow id (mkFailedDispatch id (fi_channel input) (fi_eventName input)
              (fi_userId input) (fi_payload input) 1 DS_PENDING
              (truncateError (fi_error input)) t None None) ;;
     ret (Some (f_id row)))
    (fun _ => ret None).

Record RetryHandlers : Type := mkRetryHandlers {
  rh_notificationCreate : Json -> Svc unit;
  rh_websocketEmit : option string -> option string -> Json -> Svc unit;
}.

Inductive RetryReply : Type :=
| DryRun (row : FailedDispatch)
| Retried (id : string) (status : DispatchStatus) (attempts : Z).

Definition replay (handlers : RetryHandlers) (row : FailedDispatch) : Svc unit :=
  match f_channel row with
  | CH_NOTIFICATION_CREATE => rh_notificationCreate handlers (f_payload row)
  | CH_WEBSOCKET_EMIT => rh_websocketEmit handlers (f_eventName row) (f_userId row) (f_payload row)
  end.

Definition reply (row : FailedDispatch) : RetryReply :=
  Retried (f_id row) (f_status row) (f_attempts row).

Definition markRetried (t : Z) (row : FailedDispatch) : FailedDispatch :=
  row {{ f_status := DS_RESOLVED; f_resolvedAt := Some t; f_lastRetryAt := Some t;
         f_attempts := f_attempts row + 1 }}.

Definition markRetryFailed (t nextAttempts maxAttempts : Z) (err : Err) (row : FailedDispatch)
    : FailedDispatch :=
  row {{ f_status := if maxAttempts <=? nextAttempts then DS_ABANDONED else DS_RETRYING;
         f_attempts := nextAttempts; f_lastRetryAt := Some t;
         f_lastError := truncateError err }}.

Definition retry (id : string) (handlers : RetryHandlers) (maxAttempts : Z) (dryRun : bool)
    : Svc (option RetryReply) :=
  o <- findUnique (Row := FailedDispatch) id ;;
  match o with
  | None => ret None
  | Some row =>
      if dryRun then ret (Some (DryRun row))
      else if decide (f_status row = DS_RESOLVED) then ret (Some (reply row))
      else
        catch
          (replay handlers row ;;;
           t <- now ;;
           resolved <- update id (markRetried t) ;;
           ret (Some (reply resolved)))
          (fun err =>
             t <- now ;;
             updated <- update id (markRetryFailed t (f_attempts row + 1) maxAttempts err) ;;
             ret (Some (reply updated)))
  end.

Record RetrySummary : Type := mkRetrySummary {
  rs_attempted : nat; rs_resolved : nat; rs_failed : nat; rs_abandoned : nat;
}.

Definition countReply (acc : RetrySummary) (r : option RetryReply) : RetrySummary :=
  match r with
  | Some (Retried _ DS_RESOLVED _) => acc {{ rs_resolved := S (rs_resolved acc) }}
  | Some (Retried _ DS_ABANDONED _) =>
      acc {{ rs_abandoned := S (rs_abandoned acc); rs_failed := S (rs_failed acc) }}
  | Some (Retried _ _ _) => acc {{ rs_failed := S (rs_failed acc) }}
  | _ => acc
  end.

Definition retryableRow (r : FailedDispatch) : bool :=
  bool_decide (f_status r = DS_PENDING \/ f_status r = DS_RETRYING).

(** [retryAll] without [dryRun]. *)
Definition retryAll (handlers : RetryHandlers) (limit : nat) (maxAttempts : Z) : Svc RetrySummary :=
  let capped := Nat.min (Nat.max limit 1) 200 in
  rows <- findMany retryableRow (fun a b => f_createdAt b <? f_createdAt a) ;;
  let rows := take capped rows in
  foldM (fun acc r => x <- retry (f_id r) handlers maxAttempts false ;; ret (countReply acc x))
    (mkRetrySummary (length rows) 0 0 0) rows.

(** [setDate(getDate() - n)] goes back [n] days of 24 hours (a change of
    daylight-saving time aside). *)
Definition DAY_MS : Z := 86400000.

Definition cleanupResolved (daysOld : Z) : Svc nat :=
  t <- now ;;
  deleteMany (fun r : FailedDispatch =>
    bool_decide (f_status r = DS_RESOLVED) &&
    match f_resolvedAt r with Some x => x <? t - daysOld * DAY_MS | None => false end).

(** ** Outbox *)

Record OutboxDispatchHandlers : Type := mkHandlers {
  oh_notificationCreate : Json -> Svc unit;
  oh_websocketEmit : Json -> Svc unit;
  oh_betAccepted : Json -> Svc unit;
  oh_betConfirmed : Json -> Svc unit;
  oh_betResolved : Json -> Svc unit;
  oh_betFailed : Json -> Svc unit;
}.

Record ProcessOutboxResult : Type := mkProcessResult {
  po_processed : nat; po_failed : nat; po_escalated : nat;
}.

Definition dispatch (row : OutboxEvent) (handlers : OutboxDispatchHandlers) : Svc unit :=
  match o_eventType row with
  | EV_NOTIFICATION_CREATE => oh_notificationCreate handlers (o_payload row)
  | EV_WEBSOCKET_EMIT => oh_websocketEmit handlers (o_payload row)
  | EV_BET_ACCEPTED => oh_betAccepted handlers (o_payload row)
  | EV_BET_CONFIRMED => oh_betConfirmed handlers (o_payload row)
  | EV_BET_RESOLVED => oh_betResolved handlers (o_payload row)
  | EV_BET_FAILED => oh_betFailed handlers (o_payload row)
  end.

Definition payloadString (k : string) (payload : Json) : option string :=
  match payload with
  | JObj fs => match jsonField k fs with Some (JStr s) => Some s | _ => None end
  | _ => None
  end.

Definition escalation (row : OutboxEvent) (err : Err) : RecordFailureInput :=
  mkFailure
    (match o_eventType row with
     | EV_NOTIFICATION_CREATE => CH_NOTIFICATION_CREATE
     | _ => CH_WEBSOCKET_EMIT
     end)
    (Some (default (OutboxEventType_str (o_eventType row)) (payloadString "eventName" (o_payload row))))
    (payloadString "userId" (o_payload row)) (o_payload row) err.

Definition markProcessed (t : Z) (r : OutboxEvent) : OutboxEvent :=
  r {{ o_status := OB_PROCESSED; o_processedAt := Some t }}.

Definition markDispatchFailed (exhausted : bool) (nextAttempts : Z) (err : Err) (r : OutboxEvent)
    : OutboxEvent :=
  r {{ o_status := if exhausted then OB_FAILED else OB_PENDING;
       o_attempts := nextAttempts; o_lastError := Some (truncateError err) }}.

(** The body of the loop, from the claim on. *)
Definition processRow (handlers : OutboxDispatchHandlers) (maxAttempts : Z)
    (result : ProcessOutboxResult) (row : OutboxEvent) : Svc ProcessOutboxResult :=
  claimed <- updateManyById (o_id row)
               (fun r : OutboxEvent => bool_decide (o_status r = OB_PENDING))
               (fun r => r {{ o_status := OB_PROCESSING }}) ;;
  if (claimed =? 0)%nat then ret result
  else
    catch
      (dispatch row handlers ;;;
       t <- now ;;
       update (o_id row) (markProcessed t) ;;;
       ret (result {{ po_processed := S (po_processed result) }}))
      (fun err =>
         let nextAttempts := o_attempts row + 1 in
         let exhausted := maxAttempts <=? nextAttempts in
         update (o_id row) (markDispatchFailed exhausted nextAttempts err) ;;;
         let result := result {{ po_failed := S (po_failed result) }} in
         if exhausted then
           record (escalation row err) ;;;
           ret (result {{ po_escalated := S (po_escalated result) }})
         else ret result).

Definition pendingEvents (batchSize : nat) : Svc (list OutboxEvent) :=
  rows <- findMany (fun r : OutboxEvent => bool_decide (o_status r = OB_PENDING))
            (fun a b => o_createdAt b <? o_createdAt a) ;;
  ret (take batchSize rows).

Definition processOutbox (handlers : OutboxDispatchHandlers) (batchSize : nat) (maxAttempts : Z)
    : Svc ProcessOutboxResult :=
  rows <- pendingEvents batchSize ;;
  foldM (processRow handlers maxAttempts) (mkProcessResult 0 0 0) rows.

Definition cleanupProcessed (retentionDays : Z) : Svc nat :=
  t <- now ;;
  deleteMany (fun r : OutboxEvent =>
    bool_decide (o_status r = OB_PROCESSED) &&
    match o_processedAt r with Some x => x <? t - retentionDays * DAY_MS | None => false end).

(** ** Notifications *)

Record CreateNotificationInput : Type := mkNotificationInput {
  ni_userId : string;
  ni_type : NotificationType;
  ni_title : string;
  ni_message : string;
  ni_data : Json;
}.

Definition preferenceKey (t : NotificationType) : string :=
  match t with
  | N_WIN => "win" | N_LOSS => "loss" | N_ROUND_START => "roundStart"
  | N_BONUS_AVAILABLE => "bonus" | N_ANNOUNCEMENT => "announcement"
  end.

(** [prefs.x !== false]; anything else, a missing user included, is yes. *)
Definition checkPreference (userId : string) (t : NotificationType) : Svc bool :=
  o <- findUnique (Row := User) userId ;;
  ret match o with
      | Some u => match u_notificationPreferences u with
                  | JObj fs => match jsonField (preferenceKey t) fs with
                               | Some (JBool false) => false
                               | _ => true
                               end
                  | _ => true
                  end
      | None => true
      end.

(** [prisma.notification.create]: the user must exist (foreign key). *)
Definition createNotificationForRetry (input : CreateNotificationInput) : Svc Notification :=
  id <- newId ;;
  t <- now ;;
  u <- findUnique (Row := User) (ni_userId input) ;;
  match u with
  | None => throw (PrismaError "P2003")
  | Some _ => insertRow id (mkNotification id (ni_userId input) (ni_type input) (ni_title input)
                (ni_message input) (ni_data input) false t)
  end.

Definition notificationInputToJson (i : CreateNotificationInput) : Json :=
  JObj [("userId"%string, JStr (ni_userId i)); ("type"%string, JStr (NotificationType_str (ni_type i)));
        ("title"%string, JStr (ni_title i)); ("message"%string, JStr (ni_message i));
        ("data"%string, ni_data i)].

Definition createNotification (input : CreateNotificationInput) : Svc (option Notification) :=
  catch
    (shouldNotify <- checkPreference (ni_userId input) (ni_type input) ;;
     if negb shouldNotify then ret None
     else n <- createNotificationForRetry input ;; ret (Some n))
    (fun error =>
       record (mkFailure CH_NOTIFICATION_CREATE (Some (NotificationType_str (ni_type input)))
                 (Some (ni_userId input)) (notificationInputToJson input) error) ;;;
       throw error).
End Services.

(** ** Frames *)

Section OutboxFrames.
Context `{Env} {T : Type} (proj : DB -> T).
Context (Hn : forall t d, proj (d {{ notifications := t }}) = proj d).
Context (Hf : forall t d, proj (d {{ failedDispatches := t }}) = proj d).

Lemma agree_record i : respects (agree proj) (record i).
Proof. unfold record. respects_auto. apply agree_insertRow. exact Hf. Qed.

Lemma agree_createNotification i : respects (agree proj) (createNotification i).
Proof.
  unfold createNotification, createNotificationForRetry, checkPreference.
  respects_auto; first [apply agree_record | apply agree_insertRow; exact Hn].
Qed.
End OutboxFrames.

#[export] Hint Extern 2 (respects (agree _) (record _)) =>
  (apply agree_record; intros; reflexivity) : respects.
#[export] Hint Extern 2 (respects (agree _) (createNotification _)) =>
  (apply agree_createNotification; intros; reflexivity) : respects.

(** ** Properties *)

Section Properties.
Context `{Env}.

Definition outboxRow (id : string) (w : World) : option OutboxEvent := outbox (w_db w) !! id.

Definition setOutboxRow (id : string) (r : OutboxEvent) (w : World) : World :=
  w {{ w_db := (w_db w) {{ outbox := <[id := r]> (outbox (w_db w)) }} }}.

(** A handler that leaves the outbox itself alone. *)
Definition leavesOutbox {A} (m : Svc A) : Prop :=
  respects (fun w w' => outbox (w_db w') = outbox (w_db w)) m.

Lemma update_run id (f : OutboxEvent -> OutboxEvent) w r :
  outboxRow id w = Some r -> update id f w = (inr (f r), setOutboxRow id (f r) w).
Proof.
  unfold outboxRow. intros Hr. unfold update, updateWhere, bind, findUnique, gets. cbn.
  rewrite Hr. reflexivity.
Qed.

Lemma outboxRow_set id r w : outboxRow id (setOutboxRow id r w) = Some r.
Proof. unfold outboxRow, setOutboxRow. cbn. apply lookup_insert_eq. Qed.

(** Recording a failure never throws and touches one table only; with a new
    identifier the row is there afterwards. *)
Lemma record_run input w :
  exists o w', record input w = (inr o, w') /\ outbox (w_db w') = outbox (w_db w) /\
    (failedDispatches (w_db w) !! env_newid (w_nonce w) = None ->
     exists row, failedDispatches (w_db w') !! env_newid (w_nonce w) = Some row /\
                 f_payload row = fi_payload input /\ f_channel row = fi_channel input /\
                 f_status row = DS_PENDING /\ f_attempts row = 1).
Proof.
  open_world w. unfold record, catch, bind, newId, now, gets, modify, insertRow, findUnique, ret. cbn.
  destruct (fd !! env_newid nonce) as [r|] eqn:E; cbn.
  - do 2 eexists. split; [reflexivity|]. split; [reflexivity|]. discriminate.
  - do 2 eexists. split; [reflexivity|]. split; [reflexivity|]. intros _. eexists.
    split; [apply lookup_insert_eq|]. cbn. auto.
Qed.

Definition claimRow (row : OutboxEvent) (w : World) : World :=
  match outboxRow (o_id row) w with
  | Some r => setOutboxRow (o_id row) (r {{ o_status := OB_PROCESSING }}) w
  | None => w
  end.

Lemma processRow_claim hs mx res row w cur :
  outboxRow (o_id row) w = Some cur -> o_status cur = OB_PENDING ->
  processRow hs mx res row w =
  catch
    (dispatch row hs ;;;
     t <- now ;;
     update (o_id row) (markProcessed t) ;;;
     ret (res {{ po_processed := S (po_processed res) }}))
    (fun err =>
       update (o_id row) (markDispatchFailed (mx <=? o_attempts row + 1) (o_attempts row + 1) err) ;;;
       if mx <=? o_attempts row + 1 then
         record (escalation row err) ;;;
         ret ((res {{ po_failed := S (po_failed res) }})
              {{ po_escalated := S (po_escalated res) }})
       else ret (res {{ po_failed := S (po_failed res) }}))
    (claimRow row w).
Proof.
  unfold outboxRow. intros Hr Hp. unfold processRow, claimRow, outboxRow, updateManyById, bind at 1,
    findUnique, gets. cbn. unfold bind at 1. cbn.
  rewrite Hr. rewrite bool_decide_eq_true_2 by exact Hp. destruct res. reflexivity.
Qed.

(** What one poll does to one event. An event that is no longer PENDING
    (another poller has it, or it is finished) is skipped: no handler runs and
    nothing changes. A PENDING event is claimed, its handler runs once on the
    claimed row, and then: the event is PROCESSED if the handler returned;
    otherwise its attempt count is one more, it is PENDING again below the cap
    and FAILED at the cap, where exactly then its payload is recorded in the
    dead-letter queue. The poll itself never throws. *)
Theorem processRow_outcome hs mx res row w cur :
  outboxRow (o_id row) w = Some cur -> leavesOutbox (dispatch row hs) ->
  (o_status cur <> OB_PENDING -> processRow hs mx res row w = (inr res, w)) /\
  (o_status cur = OB_PENDING ->
   exists res' w' cur', processRow hs mx res row w = (inr res', w') /\
     outboxRow (o_id row) w' = Some cur' /\
     match dispatch row hs (claimRow row w) with
     | (inr _, _) =>
         o_status cur' = OB_PROCESSED /\ o_attempts cur' = o_attempts cur /\
         po_processed res' = S (po_processed res) /\ po_failed res' = po_failed res
     | (inl err, w1) =>
         o_attempts cur' = o_attempts row + 1 /\ po_failed res' = S (po_failed res) /\
         if mx <=? o_attempts row + 1
         then o_status cur' = OB_FAILED /\ po_escalated res' = S (po_escalated res) /\
              (failedDispatches (w_db w1) !! env_newid (w_nonce w1) = None ->
               exists f, failedDispatches (w_db w') !! env_newid (w_nonce w1) = Some f /\
                         f_payload f = o_payload row)
         else o_status cur' = OB_PENDING /\ po_escalated res' = po_escalated res /\
              failedDispatches (w_db w') = failedDispatches (w_db w1)
     end).
Proof.
  intros Hr Hl. split.
  - intros Hn. unfold outboxRow in Hr. unfold processRow, updateManyById, bind, findUnique, gets. cbn.
    rewrite Hr. rewrite bool_decide_eq_false_2 by exact Hn. reflexivity.
  - intros Hp. rewrite (processRow_claim hs mx res row w cur Hr Hp).
    pose proof (Hl (claimRow row w)) as Hout. unfold final in Hout.
    assert (Hc : outboxRow (o_id row) (claimRow row w) = Some (cur {{ o_status := OB_PROCESSING }})).
    { unfold claimRow. rewrite Hr. apply outboxRow_set. }
    destruct (dispatch row hs (claimRow row w)) as [[err|[]] w1] eqn:Ed; cbn in Hout.
    + unfold catch. unfold bind at 1. rewrite Ed.
      assert (Hw1 : outboxRow (o_id row) w1 = Some (cur {{ o_status := OB_PROCESSING }}))
        by (unfold outboxRow in *; rewrite Hout; exact Hc).
      erewrite bind_ok by (apply update_run, Hw1).
      set (w2 := setOutboxRow _ _ w1).
      destruct (mx <=? o_attempts row + 1).
      * destruct (record_run (escalation row err) w2) as (o & w' & Hrec & Ho & Hf).
        erewrite bind_ok by exact Hrec. do 3 eexists. split; [reflexivity|].
        split; [unfold outboxRow; rewrite Ho; apply outboxRow_set|].
        destruct cur, res; cbn. repeat split.
        intros Hnew. destruct (Hf Hnew) as (f & Hf1 & Hf2 & _). eauto.
      * do 3 eexists. split; [reflexivity|]. split; [apply outboxRow_set|].
        destruct cur, res; cbn. repeat split.
    + unfold catch. unfold bind at 1. rewrite Ed.
      assert (Hw1 : outboxRow (o_id row) w1 = Some (cur {{ o_status := OB_PROCESSING }}))
        by (unfold outboxRow in *; rewrite Hout; exact Hc).
      unfold bind at 1, now, gets.
      erewrite bind_ok by (apply update_run, Hw1).
      do 3 eexists. split; [reflexivity|]. split; [apply outboxRow_set|].
      destruct cur, res; cbn. repeat split.
Qed.

(** ** Dead-letter retries *)

Definition failureRow (id : string) (w : World) : option FailedDispatch :=
  failedDispatches (w_db w) !! id.

Definition leavesDLQ {A} (m : Svc A) : Prop :=
  respects (fun w w' => failedDispatches (w_db w') = failedDispatches (w_db w)) m.

Lemma update_failed_run id (f : FailedDispatch -> FailedDispatch) w r :
  failureRow id w = Some r ->
  update id f w = (inr (f r), w {{ w_db := (w_db w) {{ failedDispatches :=
                                     <[id := f r]> (failedDispatches (w_db w)) }} }}).
Proof.
  unfold failureRow. intros Hr. unfold update, updateWhere, bind, findUnique, gets. cbn.
  rewrite Hr. reflexivity.
Qed.

(** Replaying a dead letter: a RESOLVED row is a no-op and a dry run
    changes nothing; otherwise the handler runs once and the row's attempt
    count goes up by exactly one, ending RESOLVED when the handler returned,
    and after a failure RETRYING below the cap, ABANDONED at it. *)
Theorem retry_outcome id hs mx w row :
  failureRow id w = Some row -> leavesDLQ (replay hs row) ->
  retry id hs mx true w = (inr (Some (DryRun row)), w) /\
  (f_status row = DS_RESOLVED -> retry id hs mx false w = (inr (Some (reply row)), w)) /\
  (f_status row <> DS_RESOLVED ->
   exists row' w', retry id hs mx false w = (inr (Some (reply row')), w') /\
     failureRow id w' = Some row' /\ f_attempts row' = f_attempts row + 1 /\
     f_status row' = match value (replay hs row) w with
                     | inr _ => DS_RESOLVED
                     | inl _ => if mx <=? f_attempts row + 1 then DS_ABANDONED else DS_RETRYING
                     end).
Proof.
  intros Hr Hl. unfold failureRow in Hr.
  assert (Hf : forall dry, retry id hs mx dry w =
    (if dry then ret (Some (DryRun row))
     else if decide (f_status row = DS_RESOLVED) then ret (Some (reply row))
     else catch (replay hs row ;;; t <- now ;; r <- update id (markRetried t) ;; ret (Some (reply r)))
            (fun err => t <- now ;;
               r <- update id (markRetryFailed t (f_attempts row + 1) mx err) ;;
               ret (Some (reply r)))) w).
  { intros dry. unfold retry, bind at 1, findUnique, gets. cbn. rewrite Hr. reflexivity. }
  split; [rewrite Hf; reflexivity|]. split.
  - intros Hs. rewrite Hf. destruct (decide _); [reflexivity | contradiction].
  - intros Hs. rewrite Hf. destruct (decide _); [contradiction|].
    pose proof (Hl w) as Ho. unfold final in Ho. unfold value, catch. unfold bind at 1.
    destruct (replay hs row w) as [[err|[]] w1]; cbn in Ho.
    + assert (Hw1 : failureRow id w1 = Some row) by (unfold failureRow; rewrite Ho; exact Hr).
      unfold bind at 1, now, gets. erewrite bind_ok by (apply update_failed_run, Hw1).
      do 2 eexists. split; [reflexivity|].
      split; [unfold failureRow; cbn; apply lookup_insert_eq|]. destruct row; cbn. auto.
    + assert (Hw1 : failureRow id w1 = Some row) by (unfold failureRow; rewrite Ho; exact Hr).
      unfold bind at 1, now, gets. erewrite bind_ok by (apply update_failed_run, Hw1).
      do 2 eexists. split; [reflexivity|].
      split; [unfold failureRow; cbn; apply lookup_insert_eq|]. destruct row; cbn. auto.
Qed.
End Properties.
