(* ===== verification/RoundService.v ===== *)
(** * Rounds: creation, locking, history (src/src/services/round.service.ts)

    Also the validation of LEGENDS price ranges and the default ranges. The
    read-only listing endpoints that fall back from chain to database to mock
    data are not modelled, except for the statistics computed for a round of
    the history. *)

From Stdlib Require Import ZArith QArith Qabs Lqa Lia Sorted Permutation.
From stdpp Require Import base gmap strings list pretty.
From S2P Require Import Prelude.
From S2P Require Import Rounding.
From S2P Require Import Numeric.
From S2P Require Import Doubles.
From S2P Require Import Errors.
From S2P Require Import Schema.
From S2P Require Import Store.
From S2P Require Import Soroban.
From S2P Require Import PriceRange.
From S2P Require Import RoundLifecycle.
From S2P Require Import Outbox.

#[local] Open Scope Z_scope.

(** ** LEGENDS ranges *)

Record LegendsPriceRange : Type := mkLegends { lg_min : num; lg_max : num }.

Definition generateDefaultLegendsRanges (startPrice : num) : list LegendsPriceRange :=
  let rangeWidth := num_mul startPrice (Fin (f64 (5 # 100))) in
  let w2 := num_mul rangeWidth (Fin 2) in
  let w3 := num_mul rangeWidth (Fin 3) in
  [mkLegends (num_sub startPrice w2) (num_sub startPrice rangeWidth);
   mkLegends (num_sub startPrice rangeWidth) startPrice;
   mkLegends startPrice (num_add startPrice rangeWidth);
   mkLegends (num_add startPrice rangeWidth) (num_add startPrice w2);
   mkLegends (num_add startPrice w2) (num_add startPrice w3)].

(** [(a, b) => a.min - b.min], the comparator's result being positive. *)
Definition minGreater (a b : LegendsPriceRange) : bool :=
  num_lt (Fin 0) (num_sub (lg_min a) (lg_min b)).

Definition checkRange (prev : option LegendsPriceRange) (range : LegendsPriceRange) : option string :=
  if negb (isFinite (lg_min range)) || negb (isFinite (lg_max range)) then
    Some "Each LEGENDS price range must contain finite numeric min/max values"%string
  else if num_le (lg_max range) (lg_min range) then
    Some "Each LEGENDS price range must satisfy min < max"%string
  else match prev with
       | Some p => if num_lt (lg_min range) (lg_max p)
                   then Some "LEGENDS price ranges must not overlap"%string else None
       | None => None
       end.

Fixpoint checkRanges (prev : option LegendsPriceRange) (sorted : list LegendsPriceRange)
    : option string :=
  match sorted with
  | [] => None
  | range :: rest =>
      match checkRange prev range with
      | Some msg => Some msg
      | None => checkRanges (Some range) rest
      end
  end.

Definition validateLegendsRanges (ranges : list LegendsPriceRange) : Err + unit :=
  if (length ranges <? 2)%nat then
    inl (ValidationError "LEGENDS requires at least 2 price ranges")
  else match checkRanges None (sortBy minGreater ranges) with
       | Some msg => inl (ValidationError msg)
       | None => inr tt
       end.

Definition liftE {A} (r : Err + A) : Svc A :=
  match r with inl e => throw e | inr a => ret a end.

(** ** Starting and locking rounds *)

Section RoundOps.
Context `{Env} `{DecimalJs} `{PgNumeric}.

Definition isActiveOf (mode : GameMode) (r : Round) : bool :=
  bool_decide (r_mode r = mode) && bool_decide (r_status r = ACTIVE).

Definition newRange (r : LegendsPriceRange) : RoundPriceRange :=
  mkRoundPriceRange (lg_min r) (lg_max r) (Fin 0) [].

Definition legendsRangesToUse (startPriceNumber : Q) (custom : list LegendsPriceRange)
    : list LegendsPriceRange :=
  match custom with
  | [] => generateDefaultLegendsRanges (Fin startPriceNumber)
  | _ => custom
  end.

(** Notifications to every user; any failure ends the loop and is logged. *)
Definition notifyRoundStart (mode : GameMode) (roundId : string) (startPrice : Q)
    (startPriceNumber : Q) : Svc unit :=
  catch
    (us <- findMany (fun _ : User => true) unordered ;;
     forM_ us (fun user =>
       n <- createNotification
              (mkNotificationInput (u_id user) N_ROUND_START "New Round Started!"
                 ("A new " +:+ (match mode with UP_DOWN => "Up/Down" | LEGENDS => "Legends" end)
                  +:+ " round has started! Place your prediction now. Starting price: $"
                  +:+ decFixed startPrice 4)
                 (JObj [("roundId"%string, JStr roundId);
                        ("startPrice"%string, JNum (Fin startPriceNumber))])) ;;
       match n with
       | Some _ => emitNotification (u_id user)
       | None => ret tt
       end))
    (fun _ => ret tt).

Definition startRound (mode : GameMode) (startPrice : NumberLike) (durationMinutes : Z)
    (customPriceRanges : list LegendsPriceRange) : Svc Round :=
  existing <- findFirst (isActiveOf mode) unordered ;;
  match existing with
  | Some r => throw (ConflictError ("An active " +:+ GameMode_str mode +:+
                       " round already exists (ID: " +:+ r_id r +:+ ")") ACTIVE_ROUND_EXISTS)
  | None =>
      startTime <- now ;;
      let endTime := startTime + durationMinutes * 60 * 1000 in
      let startPriceDecimal := toDecimal_any startPrice in
      let startPriceNumber := toNumber startPriceDecimal in
      when (bool_decide (mode = UP_DOWN))
        (catch (createRound startPriceDecimal 0) applyMoneyPathFailure) ;;;
      priceRanges <- match mode with
                     | UP_DOWN => ret JNull
                     | LEGENDS =>
                         let rangesToUse := legendsRangesToUse startPriceNumber customPriceRanges in
                         liftE (validateLegendsRanges rangesToUse) ;;;
                         ret (rangesToJson (map newRange rangesToUse))
                     end ;;
      id <- newId ;;
      round <- insertRow id
                 (mkRound id mode ACTIVE (column startPriceDecimal) None startTime endTime None
                    (bool_decide (mode = UP_DOWN) && isReady) 0 0 priceRanges None) ;;
      emitRoundStarted id ;;;
      notifyRoundStart mode id startPriceDecimal startPriceNumber ;;;
      ret round
  end.

(** [RoundService.lockRound] only forwards. *)
Definition serviceLockRound (roundId : string) : Svc RoundLifecycleOutcome := lockRound roundId.

Definition expired (t : Z) (r : Round) : bool :=
  bool_decide (r_status r = ACTIVE) && (r_endTime r <=? t).

(** Returns the number of rounds locked, which the source logs; an error
    ends the loop and is swallowed. *)
Definition autoLockExpiredRounds : Svc nat :=
  catch
    (t <- now ;;
     expiredRounds <- findMany (expired t) unordered ;;
     foldM (fun n round =>
              outcome <- serviceLockRound (r_id round) ;;
              ret (match outcome with UPDATED => S n | _ => n end)) 0%nat expiredRounds)
    (fun _ => ret 0%nat).

Definition getActiveRounds : Svc (list Round) :=
  findMany (fun r : Round => bool_decide (r_status r = ACTIVE))
    (fun a b => r_startTime a <? r_startTime b).
End RoundOps.

(** ** Statistics of a historical round *)

(** [round.predictions.reduce((sum, p) => sum + p.amount, 0)]: the amounts are
    decimals, so [+] concatenates strings from the first one on. *)
Inductive PoolSum : Type := SumNumber (q : Q) | SumString (s : string).

Section History.
Context `{DecimalJs}.

(** [decimalText] is the decimal's own [toString], which [+] uses. *)
Variable decimalText : Q -> string.

Definition addAmount (sum : PoolSum) (p : Prediction) : PoolSum :=
  match sum with
  | SumNumber q => SumString (decimalText q +:+ decimalText (unitQ (p_amount p)))
  | SumString s => SumString (s +:+ decimalText (unitQ (p_amount p)))
  end.

Definition totalPoolOf (ps : list Prediction) : PoolSum := foldl addAmount (SumNumber 0) ps.

Record RoundStats : Type := mkRoundStats {
  st_totalPredictions : nat; st_totalPool : string; st_winnerCount : nat;
}.

(** [.toFixed(2)] exists on numbers and not on strings. *)
Definition roundStats (ps : list Prediction) : Err + RoundStats :=
  match totalPoolOf ps with
  | SumString _ => inl (PlainError "totalPool.toFixed is not a function")
  | SumNumber q =>
      inr (mkRoundStats (length ps) (decFixed q 2)
             (length (List.filter (fun p => bool_decide (p_won p = Some true)) ps)))
  end.
End History.

(** ** Validated ranges *)

Definition doubleRange (r : LegendsPriceRange) : Prop :=
  match lg_min r, lg_max r with
  | Fin a, Fin b => isDouble a /\ isDouble b
  | _, _ => True
  end.

(** [disjointFrom lo l]: finite ranges, each non-empty, in order and without
    overlap, the first not starting below [lo]. *)
Fixpoint disjointFrom (lo : option Q) (l : list LegendsPriceRange) : Prop :=
  match l with
  | [] => True
  | r :: l' => exists a b, lg_min r = Fin a /\ lg_max r = Fin b /\ (a < b)%Q /\
                 match lo with Some x => (x <= a)%Q | None => True end /\ disjointFrom (Some b) l'
  end.

Definition maxOf (r : option LegendsPriceRange) : option Q :=
  match r with Some r => match lg_max r with Fin b => Some b | _ => None end | None => None end.

Lemma checkRange_ok prev r :
  (forall p, prev = Some p -> exists b, lg_max p = Fin b) ->
  checkRange prev r = None <->
  exists a b, lg_min r = Fin a /\ lg_max r = Fin b /\ (a < b)%Q /\
    match maxOf prev with Some x => (x <= a)%Q | None => True end.
Proof.
  intros Hp. unfold checkRange, num_le.
  destruct (lg_min r) as [a| |] eqn:Ea; destruct (lg_max r) as [b| |] eqn:Eb; cbn;
    try (split; [discriminate | intros (? & ? & ? & ? & _); discriminate]).
  assert (Hlt : Qltb b a || Qeq_bool b a = false <-> (a < b)%Q).
  { rewrite orb_false_iff, Qltb_false_iff. split.
    - intros [H1 H2]. apply Qeq_bool_neq in H2. apply Qle_lteq in H1 as [|H1]; [assumption|].
      symmetry in H1. contradiction.
    - intros H1. split; [lra|]. apply not_true_iff_false. intros H2. apply Qeq_bool_iff in H2. lra. }
  destruct (Qltb b a || Qeq_bool b a) eqn:E.
  - split; [discriminate|]. intros (a' & b' & Ha & Hb & H1 & _). injection Ha as <-.
    injection Hb as <-. apply Hlt in H1. discriminate.
  - destruct prev as [p|]; cbn.
    + destruct (Hp p eq_refl) as [x Hx]. rewrite Hx. cbn.
      destruct (Qltb a x) eqn:Ex.
      * split; [discriminate|]. intros (a' & b' & Ha & Hb & H1 & H2). injection Ha as <-.
        apply Qltb_iff in Ex. lra.
      * apply Qltb_false_iff in Ex. split; [|reflexivity]. intros _.
        exists a, b. repeat split; try reflexivity; [apply Hlt, eq_refl | exact Ex].
    + split; [|reflexivity]. intros _. exists a, b. repeat split. apply Hlt, eq_refl.
Qed.

Lemma checkRanges_ok l : forall prev,
  (forall p, prev = Some p -> exists b, lg_max p = Fin b) ->
  checkRanges prev l = None <-> disjointFrom (maxOf prev) l.
Proof.
  induction l as [|r l IH]; intros prev Hp; cbn; [tauto|].
  pose proof (checkRange_ok prev r Hp) as Hc. destruct (checkRange prev r) as [msg|].
  - split; [discriminate|]. intros (a & b & H1 & H2 & H3 & H4 & _).
    destruct (proj2 Hc); [|reflexivity]. exists a, b. auto.
  - destruct (proj1 Hc eq_refl) as (a & b & H1 & H2 & H3 & H4).
    rewrite (IH (Some r)) by (intros p Hpp; injection Hpp as <-; eauto). cbn. rewrite H2. split.
    + intros Hd. exists a, b. auto.
    + intros (a' & b' & H1' & H2' & _ & _ & Hd). injection H2' as <-. exact Hd.
Qed.

(** Validation accepts exactly the lists of at least two ranges that, sorted by
    lower bound, are finite, non-empty and do not overlap. *)
Lemma validateLegendsRanges_ok ranges :
  validateLegendsRanges ranges = inr tt <->
  (2 <= length ranges)%nat /\ disjointFrom None (sortBy minGreater ranges).
Proof.
  unfold validateLegendsRanges. rewrite <- (checkRanges_ok _ None) by discriminate.
  destruct (Nat.ltb_spec (length ranges) 2) as [Hl|Hl].
  - split; [discriminate | lia].
  - destruct (checkRanges None _) as [msg|]; split; try discriminate; auto.
    intros [_ Hm]. discriminate.
Qed.

Lemma disjointFrom_member l : forall lo r,
  disjointFrom lo l -> r ∈ l -> exists a b, lg_min r = Fin a /\ lg_max r = Fin b /\ (a < b)%Q.
Proof.
  induction l as [|x l IH]; intros lo r Hd Hr; [inversion Hr|].
  destruct Hd as (a & b & H1 & H2 & H3 & _ & Hd).
  apply elem_of_cons in Hr as [->|Hr]; [eauto 6 | exact (IH _ _ Hd Hr)].
Qed.

(** Range validation accepts exactly the lists of at least two ranges that,
    sorted by lower bound, are finite, non-empty and do not overlap; and what it
    accepts can be stored with a new round and read back unchanged at betting
    and settlement time. *)
Theorem validateLegendsRanges_spec ranges :
  (validateLegendsRanges ranges = inr tt <->
   (2 <= length ranges)%nat /\ disjointFrom None (sortBy minGreater ranges)) /\
  (validateLegendsRanges ranges = inr tt ->
   parseRoundPriceRanges (rangesToJson (map newRange ranges)) = inr (map newRange ranges)).
Proof.
  split; [apply validateLegendsRanges_ok|]. intros Hv.
  apply validateLegendsRanges_ok in Hv as [_ Hd]. apply parse_rangesToJson.
  apply List.Forall_map, Forall_forall. intros r Hr.
  destruct (disjointFrom_member _ _ r Hd) as (a & b & Ha & Hb & Hlt);
    [rewrite sortBy_Permutation; exact Hr|].
  split; [|reflexivity]. cbn. rewrite Ha, Hb. cbn. apply Qltb_iff, Hlt.
Qed.

(** The history endpoint fails on every round that has a prediction: the
    sum of the decimal amounts is a string, which has no [toFixed]. *)
Theorem roundStats_throws `{DecimalJs} text p ps :
  roundStats text (p :: ps) = inl (PlainError "totalPool.toFixed is not a function").
Proof.
  assert (Hs : forall l s, exists s', foldl (addAmount text) (SumString s) l = SumString s').
  { induction l as [|q l IH]; intros s; cbn; [eauto | apply IH]. }
  unfold roundStats, totalPoolOf. cbn. destruct (Hs ps (text 0%Q +:+ text (unitQ (p_amount p)))) as [s' ->].
  reflexivity.
Qed.

(** ** Starting rounds *)

Section StartRound.
Context `{Env} `{DecimalJs} `{PgNumeric}.

Definition oneActivePerMode (t : gmap string Round) : Prop :=
  forall k1 k2 r1 r2, t !! k1 = Some r1 -> t !! k2 = Some r2 ->
    r_status r1 = ACTIVE -> r_status r2 = ACTIVE -> r_mode r1 = r_mode r2 -> k1 = k2.

Lemma notifyRoundStart_agree mode id p n : respects (agree rounds) (notifyRoundStart mode id p n).
Proof. unfold notifyRoundStart. respects_auto. Qed.

(** The rounds table after [startRound]: untouched, or with one new ACTIVE
    round in a mode that had none. *)
Lemma startRound_rounds mode price minutes custom w :
  let w' := final (startRound mode price minutes custom) w in
  rounds (w_db w') = rounds (w_db w) \/
  exists id r, rounds (w_db w) !! id = None /\ rounds (w_db w') = <[id := r]> (rounds (w_db w)) /\
    (forall k x, rounds (w_db w) !! k = Some x -> isActiveOf mode x = false) /\
    r_status r = ACTIVE /\ r_mode r = mode /\ r_poolUp r = 0 /\ r_poolDown r = 0.
Proof.
  cbv zeta. unfold startRound.
  apply (final_bind_cases (agree rounds)); [apply agree_findFirst | | intros e w1 _ [Ha _]; auto].
  intros [r|] w1 Hq Hw1; [left; apply Hw1|].
  apply findFirst_inv in Hq as [-> Hnone]. clear Hw1.
  apply (final_bind_cases (agree rounds)); [apply agree_now | | intros e w1 _ [Ha _]; auto].
  intros t w1 _ [Hw1 _].
  apply (final_bind_cases (agree rounds)); [respects_auto | | intros e w2 _ [Ha _]; left; congruence].
  intros _ w2 _ [Hw2 _].
  apply (final_bind_cases (agree rounds));
    [destruct mode; unfold liftE; respects_auto | | intros e w3 _ [Ha _]; left; congruence].
  intros ranges w3 _ [Hw3 _].
  apply (final_bind_cases (agree rounds)); [apply agree_newId | | intros e w4 _ [Ha _]; left; congruence].
  intros id w4 _ [Hw4 _].
  set (row := mkRound id mode ACTIVE _ _ _ _ _ _ _ _ _ _).
  unfold final.
  destruct (insertRow id row w4) as [[e|r] w5] eqn:Ei;
    [rewrite (bind_err _ _ _ _ _ Ei) | rewrite (bind_ok _ _ _ _ _ Ei)].
  - left. cbn. unfold insertRow, bind, findUnique, gets in Ei. cbn in Ei.
    destruct (rounds (w_db w4) !! id); [injection Ei as _ <-; congruence | discriminate].
  - apply insertRow_inv in Ei as (Hfresh & -> & ->).
    assert (Hrest : respects (agree rounds)
              (emitRoundStarted id ;;;
               notifyRoundStart mode id (toDecimal_any price) (toNumber (toDecimal_any price)) ;;;
               ret row)).
    { respects_auto. apply notifyRoundStart_agree. }
    destruct (Hrest (final (putRow id row : Svc unit) w4)) as [Hr _].
    right. exists id, row.
    assert (Hsame : rounds (w_db w4) = rounds (w_db w)) by congruence.
    split; [rewrite <- Hsame; exact Hfresh|].
    split; [rewrite <- Hsame; etransitivity; [exact Hr|]; destruct w4 as [[] ? ? ? ? ? ? ?]; reflexivity|].
    split; [exact Hnone | repeat split].
Qed.

(** Starting a round never leaves two ACTIVE rounds of one mode, whatever
    the chain answers and however it fails. *)
Theorem startRound_one_active mode price minutes custom w :
  oneActivePerMode (rounds (w_db w)) ->
  oneActivePerMode (rounds (w_db (final (startRound mode price minutes custom) w))).
Proof.
  intros Hone. pose proof (startRound_rounds mode price minutes custom w) as Hs. cbv zeta in Hs.
  destruct Hs as [->|(id & r & Hf & -> & Hno & Hst & Hmode & _)]; [exact Hone|].
  intros k1 k2 r1 r2 H1' H2' A1 A2 Hm.
  assert (Hkey : forall k x, <[id := r]> (rounds (w_db w)) !! k = Some x -> r_status x = ACTIVE ->
            r_mode x = mode -> k = id).
  { intros k x Hk Ha Hx. apply lookup_insert_Some in Hk as [[<- _]|[_ Hk]]; [reflexivity|].
    specialize (Hno k x Hk). unfold isActiveOf in Hno.
    rewrite !bool_decide_eq_true_2 in Hno by assumption. discriminate. }
  destruct (decide (k1 = id)) as [->|N1].
  - rewrite lookup_insert_eq in H1'. injection H1' as <-. symmetry. apply (Hkey k2 r2); congruence.
  - destruct (decide (k2 = id)) as [->|N2].
    + rewrite lookup_insert_eq in H2'. injection H2' as <-. apply (Hkey k1 r1); congruence.
    + rewrite lookup_insert_ne in H1', H2' by congruence. exact (Hone k1 k2 r1 r2 H1' H2' A1 A2 Hm).
Qed.
End StartRound.
