(* ===== verification/Prediction.v ===== *)
(** * Predictions (src/src/services/prediction.service.ts)

    A prediction is placed in three phases: [reserve] debits the user, writes
    the row and adds the stake to the pool in one transaction; an UP_DOWN stake
    is then sent to the chain, outside any transaction; and the result is
    recorded by [finalizeChainSuccess] or [handleChainFailure]. The function is
    cut where the source has its phases. *)

From Stdlib Require Import ZArith QArith Qabs Lqa Lia.
From stdpp Require Import base gmap strings list pretty.
From S2P Require Import Prelude.
From S2P Require Import Rounding.
From S2P Require Import Numeric.
From S2P Require Import Doubles.
From S2P Require Import Errors.
From S2P Require Import Resilience.
From S2P Require Import Schema.
From S2P Require Import Store.
From S2P Require Import Soroban.
From S2P Require Import PriceRange.
From S2P Require Import RoundService.

#[local] Open Scope Z_scope.

(** ** Payloads of the outbox events *)

Section Payloads.
Context `{DecimalJs}.

Definition jMoney (z : Z) : Json := JStr (serializeMoney (Some (unitQ z))).
Definition jNullableMoney (o : option Z) : Json :=
  jOptStr (serializeNullableMoney (unitQ <$> o)).

Definition websocketPayload (eventName room : string) (data : Json) : Json :=
  JObj [("eventName"%string, JStr eventName); ("room"%string, JStr room); ("data"%string, data)].

Definition predictionPlacedPayload (roundId : string) (p : Prediction) : Json :=
  websocketPayload "prediction:placed" "round"
    (JObj [("roundId"%string, JStr roundId); ("predictionId"%string, JStr (p_id p));
           ("amount"%string, jMoney (p_amount p)); ("side"%string, jOptSide (p_side p));
           ("priceRange"%string, p_priceRange p)]).

Definition roundUpdatePayload (room : string) (r : Round) : Json :=
  websocketPayload "round_update" room
    (JObj [("id"%string, JStr (r_id r)); ("mode"%string, JStr (GameMode_str (r_mode r)));
           ("status"%string, JStr (RoundStatus_str (r_status r)));
           ("startTime"%string, JDate (r_startTime r)); ("endTime"%string, JDate (r_endTime r));
           ("startPrice"%string, jMoney (r_startPrice r));
           ("endPrice"%string, jNullableMoney (r_endPrice r));
           ("poolUp"%string, jMoney (r_poolUp r)); ("poolDown"%string, jMoney (r_poolDown r));
           ("priceRanges"%string, r_priceRanges r);
           ("resolvedAt"%string, jOptDate (r_resolvedAt r))]).

(** The three events announcing a placed prediction. *)
Definition announcePrediction `{Env} (roundId : string) (p : Prediction) (r : Round) : Svc unit :=
  createOutboxEvent EV_WEBSOCKET_EMIT (p_id p) "prediction" (predictionPlacedPayload roundId p) ;;;
  createOutboxEvent EV_WEBSOCKET_EMIT roundId "round" (roundUpdatePayload ("round:" +:+ roundId) r) ;;;
  createOutboxEvent EV_WEBSOCKET_EMIT roundId "round" (roundUpdatePayload "round" r) ;;;
  ret tt.
End Payloads.

(** ** Phase 1: the reservation *)

Definition existingBlocks (existing : option Prediction) : option Err :=
  match existing with
  | None => None
  | Some p =>
      match p_chainStatus p with
      | PC_PENDING | PC_SUBMITTED => Some (BusinessRuleError
          "Prediction is currently being processed or reconciled on chain. Please wait."
          BUSINESS_RULE_VIOLATION)
      | PC_NEEDS_MANUAL_REVIEW => Some (BusinessRuleError
          "Previous prediction attempt requires manual review. Please contact support."
          BUSINESS_RULE_VIOLATION)
      | PC_CONFIRMED | PC_NOT_REQUIRED => Some (BusinessRuleError
          "User has already placed a prediction for this round" DUPLICATE_PREDICTION)
      | PC_FAILED => None
      end
  end.

(** Mode-specific validation of the request. *)
Definition validateRequest (round : Round) (side : option PredictionSide)
    (priceRange : option UserPriceRange) : Err + unit :=
  match r_mode round with
  | UP_DOWN =>
      match side with
      | None => inl (ValidationError "Side (UP/DOWN) is required for UP_DOWN mode")
      | Some _ => inr tt
      end
  | LEGENDS =>
      match priceRange with
      | None => inl (ValidationError "Price range is required for LEGENDS mode")
      | Some pr =>
          match validateUserPriceRange (userRangeToJson pr) with
          | None => inl (ValidationError "Price range must include numeric min and max with min < max")
          | Some _ =>
              match parseRoundPriceRanges (r_priceRanges round) with
              | inl e => inl e
              | inr ranges =>
                  match findRangeByBounds ranges (ur_min pr) (ur_max pr) with
                  | None => inl (ValidationError "Invalid price range for this round")
                  | Some _ => inr tt
                  end
              end
          end
      end
  end.

Section Service.
Context `{Env} `{DecimalJs} `{PgNumeric}.

Definition predictionOf (roundId userId : string) (p : Prediction) : bool :=
  bool_decide (p_roundId p = roundId) && bool_decide (p_userId p = userId).

(** The unique index on (roundId, userId). *)
Definition findPrediction (roundId userId : string) : Svc (option Prediction) :=
  findFirst (predictionOf roundId userId) unordered.

(** Lines 107-183: everything before the first write. *)
Definition reserveChecks (userId roundId : string) (side : option PredictionSide)
    (priceRange : option UserPriceRange) : Svc (Round * option Prediction) :=
  o <- findUnique (Row := Round) roundId ;;
  round <- orThrow o (NotFoundError "Round not found" NOT_FOUND) ;;
  (if decide (r_status round = ACTIVE) then ret tt
   else throw (BusinessRuleError "Round is not active" ROUND_NOT_ACTIVE)) ;;;
  existing <- findPrediction roundId userId ;;
  match existingBlocks existing with
  | Some e => throw e
  | None =>
      liftE (validateRequest round side priceRange) ;;;
      ret (round, existing)
  end.

(** Lines 185-207: the guarded debit. *)
Definition debitUser (userId : string) (amountNum : Q) : Svc User :=
  o <- findUnique (Row := User) userId ;;
  match o with
  | None => throw (NotFoundError "User not found" NOT_FOUND)
  | Some _ =>
      catch
        (updateWhere userId
           (fun u : User => Qle_bool (num_to_dec amountNum) (unitQ (u_virtualBalance u)))
           (fun u => u {{ u_virtualBalance := colDec (u_virtualBalance u) amountNum }}))
        (fun err => if String.eqb (err_code err) "P2025"
                    then throw (BusinessRuleError "Insufficient balance" INSUFFICIENT_FUNDS)
                    else throw err)
  end.

Definition orKeep {A} (new : option A) (old : option A) : option A :=
  match new with Some _ => new | None => old end.

Definition reuseRow (amountNum : Q) (side : option PredictionSide)
    (priceRange : option UserPriceRange) (status : PredictionChainStatus) (p : Prediction)
    : Prediction :=
  p {{ p_amount := colSet amountNum;
       p_side := orKeep side (p_side p);
       p_priceRange := match priceRange with
                       | Some r => userRangeToJson r | None => p_priceRange p end;
       p_chainStatus := status;
       p_txHash := None; p_chainAttemptCount := 0; p_chainFailureReason := None;
       p_chainSubmittedAt := None; p_chainConfirmedAt := None; p_chainFailedAt := None;
       p_compensatedAt := None; p_won := None; p_payout := None }}.

(** Lines 209-243. *)
Definition writePrediction (userId roundId : string) (amountNum : Q)
    (side : option PredictionSide) (priceRange : option UserPriceRange)
    (status : PredictionChainStatus) (existing : option Prediction) : Svc Prediction :=
  match existing with
  | Some p =>
      if decide (p_chainStatus p = PC_FAILED)
      then update (p_id p) (reuseRow amountNum side priceRange status)
      else throw (PrismaError "P2002")
  | None =>
      id <- newId ;;
      t <- now ;;
      insertRow id
        (mkPrediction id userId roundId side (colSet amountNum)
           (match priceRange with Some r => userRangeToJson r | None => JNull end)
           None None status None 0 None None None None None t)
  end.

Definition addToPool (amountNum : Q) (side : option PredictionSide) (r : Round) : Round :=
  match side with
  | Some UP => r {{ r_poolUp := colInc (r_poolUp r) amountNum }}
  | Some DOWN => r {{ r_poolDown := colInc (r_poolDown r) amountNum }}
  | None => r
  end.

(** Lines 245-340. *)
Definition updatePools (roundId : string) (round : Round) (amount amountNum : Q)
    (side : option PredictionSide) (priceRange : option UserPriceRange) (prediction : Prediction)
    : Svc Round :=
  match r_mode round with
  | UP_DOWN => update roundId (addToPool amountNum side)
  | LEGENDS =>
      ranges <- liftE (parseRoundPriceRanges (r_priceRanges round)) ;;
      let updatedRanges :=
        match priceRange with
        | Some pr => updateRangePool ranges (ur_min pr) (ur_max pr) (Fin amount)
        | None => ranges
        end in
      updated <- update roundId (fun r : Round => r {{ r_priceRanges := rangesToJson updatedRanges }}) ;;
      announcePrediction roundId prediction updated ;;;
      ret updated
  end.

Definition targetChainStatus (mode : GameMode) : PredictionChainStatus :=
  match mode with LEGENDS => PC_NOT_REQUIRED | UP_DOWN => PC_PENDING end.

Definition reserveBody (userId roundId : string) (amount : Q) (side : option PredictionSide)
    (priceRange : option UserPriceRange) : Svc (Prediction * User * Round) :=
  re <- reserveChecks userId roundId side priceRange ;;
  let '(round, existing) := re in
  let amountNum := toNumber (toDecimal amount) in
  user <- debitUser userId amountNum ;;
  prediction <- writePrediction userId roundId amountNum side priceRange
                  (targetChainStatus (r_mode round)) existing ;;
  updatedRound <- updatePools roundId round amount amountNum side priceRange prediction ;;
  ret (prediction, user, updatedRound).

Definition reserve (userId roundId : string) (amount : Q) (side : option PredictionSide)
    (priceRange : option UserPriceRange) : Svc (Prediction * User * Round) :=
  transaction (reserveBody userId roundId amount side priceRange).

(** ** Phase 3: recording the result *)

(** [update({ data: { txHash } })] under the unique index on txHash. *)
Definition hashTaken (id : string) (txHash : option string) (d : DB) : bool :=
  match txHash with
  | None => false
  | Some h => existsb (fun p => negb (String.eqb (p_id p) id) &&
                                bool_decide (p_txHash p = Some h)) (rowsWhere (fun _ => true) d)
  end.

Definition confirmRow (t : Z) (txHash : option string) (p : Prediction) : Prediction :=
  p {{ p_chainStatus := PC_CONFIRMED; p_txHash := orKeep txHash (p_txHash p);
       p_chainConfirmedAt := Some t; p_chainAttemptCount := 1 }}.

Definition finalizeBody (predictionId roundId : string) (prediction : Prediction)
    (updatedRound : Round) (txHash : option string) : Svc unit :=
  currentPred <- findUnique (Row := Prediction) predictionId ;;
  match currentPred with
  | None => ret tt
  | Some cur =>
      if decide (p_chainStatus cur = PC_PENDING) then
        taken <- gets (fun w => hashTaken predictionId txHash (w_db w)) ;;
        if taken : bool then throw (PrismaError "P2002")
        else
          t <- now ;;
          update predictionId (confirmRow t txHash) ;;;
          announcePrediction roundId prediction updatedRound
      else ret tt
  end.

Definition finalizePolicy : RetryPolicy := mkRetryPolicy 3 50 2000 2 isRetryableError.

Definition finalizeChainSuccess (predictionId roundId : string) (prediction : Prediction)
    (updatedRound : Round) (txHash : option string) : Svc unit :=
  retryOrThrow finalizePolicy
    (transaction (finalizeBody predictionId roundId prediction updatedRound txHash)).

Definition removeFromPool (p : Prediction) (r : Round) : Round :=
  match p_side p with
  | Some UP => r {{ r_poolUp := colDecDec (r_poolUp r) (unitQ (p_amount p)) }}
  | Some DOWN => r {{ r_poolDown := colDecDec (r_poolDown r) (unitQ (p_amount p)) }}
  | None => r
  end.

Definition compensable (p : Prediction) : bool :=
  bool_decide (p_chainStatus p = PC_PENDING \/ p_chainStatus p = PC_FAILED
               \/ p_chainStatus p = PC_SUBMITTED)
  && match p_compensatedAt p with None => true | Some _ => false end.

Definition compensateRow (t : Z) (p : Prediction) : Prediction :=
  p {{ p_compensatedAt := Some t; p_chainStatus := PC_FAILED;
       p_chainFailureReason := Some "Chain transaction failed"%string }}.

Definition compensateBody (predictionId : string) : Svc unit :=
  o <- findUnique (Row := Prediction) predictionId ;;
  match o with
  | None => ret tt
  | Some pred =>
      ro <- findUnique (Row := Round) (p_roundId pred) ;;
      round <- orThrow ro (PlainError "Inconsistent query result") ;;
      if negb (compensable pred) then ret tt
      else
        update (p_userId pred) (fun u : User =>
          u {{ u_virtualBalance := colIncDec (u_virtualBalance u) (unitQ (p_amount pred)) }}) ;;;
        (match r_mode round with
         | UP_DOWN => update (p_roundId pred) (removeFromPool pred) ;;; ret tt
         | LEGENDS => ret tt
         end) ;;;
        t <- now ;;
        update predictionId (compensateRow t) ;;;
        ret tt
  end.

Definition compensatePrediction (predictionId : string) : Svc unit :=
  transaction (compensateBody predictionId).

Definition handleChainFailure (predictionId : string) (error : Err) : Svc unit :=
  if includes (toLowerCase (err_message error)) "timeout" then
    update predictionId (fun p : Prediction => p {{ p_chainStatus := PC_SUBMITTED }}) ;;; ret tt
  else compensatePrediction predictionId.

(** ** The whole operation *)

(** [side!] in the chain call: validated in phase 1. *)
Definition submitPrediction (userId roundId : string) (amount : Q) (side : option PredictionSide)
    (priceRange : option UserPriceRange) : Svc Prediction :=
  res <- reserve userId roundId amount side priceRange ;;
  let '(prediction, user, updatedRound) := res in
  match r_mode updatedRound with
  | UP_DOWN =>
      catch
        (chainResult <- placeBet (u_walletAddress user) amount (default UP side) ;;
         finalizeChainSuccess (p_id prediction) roundId prediction updatedRound
           (br_txHash chainResult))
        (fun chainError =>
           handleChainFailure (p_id prediction) chainError ;;; throw chainError) ;;;
      o <- findUnique (Row := Prediction) (p_id prediction) ;;
      orThrow o (PrismaError "P2025")
  | LEGENDS => ret prediction
  end.

Definition confirmPredictionFromReconciliation (predictionId : string) (txHash : option string)
    : Svc unit :=
  o <- findUnique (Row := Prediction) predictionId ;;
  match o with
  | None => ret tt
  | Some pred =>
      ro <- findUnique (Row := Round) (p_roundId pred) ;;
      round <- orThrow ro (PlainError "Inconsistent query result") ;;
      if decide (p_chainStatus pred = PC_CONFIRMED) then ret tt
      else finalizeChainSuccess predictionId (p_roundId pred) pred round
             (Some (default "reconciled-no-txhash"%string
                      (orKeep (truthy txHash) (truthy (p_txHash pred)))))
  end.

Definition flagForManualReview (predictionId reason : string) : Svc unit :=
  update predictionId (fun p : Prediction =>
    p {{ p_chainStatus := PC_NEEDS_MANUAL_REVIEW; p_chainFailureReason := Some reason }}) ;;;
  ret tt.

(** ** Batches *)

Record BatchItem : Type := mkBatchItem {
  bi_roundId : string; bi_amount : Q; bi_side : option PredictionSide;
  bi_priceRange : option UserPriceRange;
}.

Record BatchPredictionResultItem : Type := mkBatchResult {
  bp_index : nat; bp_success : bool; bp_prediction : option Prediction; bp_error : option string;
}.

Definition submitOne (userId : string) (i : nat) (item : BatchItem) : Svc BatchPredictionResultItem :=
  catch
    (p <- submitPrediction userId (bi_roundId item) (bi_amount item) (bi_side item)
            (bi_priceRange item) ;;
     ret (mkBatchResult i true (Some p) None))
    (fun error => ret (mkBatchResult i false None (Some (err_message error)))).

Fixpoint submitFrom (userId : string) (i : nat) (items : list BatchItem)
    : Svc (list BatchPredictionResultItem) :=
  match items with
  | [] => ret []
  | item :: rest =>
      r <- submitOne userId i item ;;
      rs <- submitFrom userId (S i) rest ;;
      ret (r :: rs)
  end.

Definition submitBatchPredictions (userId : string) (items : list BatchItem)
    : Svc (bool * list BatchPredictionResultItem) :=
  results <- submitFrom userId 0 items ;;
  ret ((0 <? length (List.filter bp_success results))%nat, results).

Definition getUserPredictions (userId : string) : Svc (list Prediction) :=
  findMany (fun p : Prediction => bool_decide (p_userId p = userId))
    (fun a b => p_createdAt a <? p_createdAt b).

Definition getRoundPredictions (roundId : string) : Svc (list Prediction) :=
  findMany (fun p : Prediction => bool_decide (p_roundId p = roundId)) unordered.
End Service.

(** ** Each phase inverted *)

Section Phases.
Context `{Env} `{DecimalJs} `{PgNumeric}.

Lemma announce_agree {T} (proj : DB -> T) (Hp : forall o d, proj (d {{ outbox := o }}) = proj d)
    roundId p r : respects (agree proj) (announcePrediction roundId p r).
Proof. unfold announcePrediction. respects_auto; apply agree_createOutboxEvent; exact Hp. Qed.

Lemma announce_base roundId p r : respects sameBase (announcePrediction roundId p r).
Proof. unfold announcePrediction. respects_auto. Qed.

Lemma liftE_inv {A} (r : Err + A) (w : World) a w' :
  liftE r w = (inr a, w') -> r = inr a /\ w' = w.
Proof. destruct r; cbn; intros Hx; inversion Hx; auto. Qed.

Lemma reserveChecks_inv userId roundId side pr w round ex w' :
  reserveChecks userId roundId side pr w = (inr (round, ex), w') ->
  w' = w /\ rounds (w_db w) !! roundId = Some round /\ r_status round = ACTIVE /\
  existingBlocks ex = None /\ validateRequest round side pr = inr tt /\
  match ex with
  | Some p => (exists k, predictions (w_db w) !! k = Some p) /\ predictionOf roundId userId p = true
  | None => forall k p, predictions (w_db w) !! k = Some p -> predictionOf roundId userId p = false
  end.
Proof.
  unfold reserveChecks. intros Hr.
  apply bind_inr_inv in Hr as (o & w1 & Ho & Hr). injection Ho as <- <-.
  apply bind_inr_inv in Hr as (r & w2 & Ho & Hr). apply orThrow_inr_inv in Ho as [Hround ->].
  apply bind_inr_inv in Hr as ([] & w3 & Ho & Hr).
  destruct (decide (r_status r = ACTIVE)) as [Hact|]; [|discriminate]. injection Ho as <-.
  apply bind_inr_inv in Hr as (e & w4 & Hf & Hr). apply findFirst_inv in Hf as [-> Hex].
  destruct (existingBlocks e) eqn:Eb; [discriminate|].
  apply bind_inr_inv in Hr as ([] & w5 & Hv & Hr). apply liftE_inv in Hv as [Hv ->].
  injection Hr as -> -> ->. auto 10.
Qed.

Lemma debitUser_inv userId a w u w' :
  debitUser userId a w = (inr u, w') ->
  exists u0, users (w_db w) !! userId = Some u0 /\
    (num_to_dec a <= unitQ (u_virtualBalance u0))%Q /\
    u = u0 {{ u_virtualBalance := colDec (u_virtualBalance u0) a }} /\
    w' = final (putRow userId u : Svc unit) w.
Proof.
  unfold debitUser. intros Hr. apply bind_inr_inv in Hr as (o & w1 & Ho & Hr).
  injection Ho as _ <-. destruct o as [u1|]; [|discriminate].
  unfold catch in Hr. destruct (updateWhere userId _ _ w) as [[e|u2] w2] eqn:Eu.
  - destruct (String.eqb (err_code e) "P2025"); discriminate.
  - injection Hr as <- <-. apply updateWhere_inv in Eu as (u0 & H2 & H3 & -> & ->).
    exists u0. apply Qle_bool_iff in H3. auto.
Qed.

Lemma writePrediction_inv userId roundId a side pr st ex w p w' :
  match ex with
  | Some q => predictions (w_db w) !! p_id q = Some q
  | None => True
  end ->
  writePrediction userId roundId a side pr st ex w = (inr p, w') ->
  users (w_db w') = users (w_db w) /\ rounds (w_db w') = rounds (w_db w) /\
  predictions (w_db w') = <[p_id p := p]> (predictions (w_db w)) /\
  p_amount p = colSet a /\ p_chainStatus p = st /\ p_compensatedAt p = None /\
  match ex with
  | Some q => p_id p = p_id q /\ p_chainStatus q = PC_FAILED /\
              p_userId p = p_userId q /\ p_roundId p = p_roundId q /\ p_side p = orKeep side (p_side q)
  | None => predictions (w_db w) !! p_id p = None /\ p_userId p = userId /\ p_roundId p = roundId
            /\ p_side p = side
  end.
Proof.
  intros Hex. unfold writePrediction. destruct ex as [q|].
  - destruct (decide (p_chainStatus q = PC_FAILED)) as [Hf|]; [|discriminate].
    intros Hr. apply update_inv in Hr as (q' & Hq & -> & ->). cbn in Hq. rewrite Hex in Hq.
    injection Hq as <-. rewrite predictions_put.
    split; [destruct w as [[] ? ? ? ? ? ? ?]; reflexivity|].
    split; [destruct w as [[] ? ? ? ? ? ? ?]; reflexivity|].
    destruct q. cbn in *. repeat split; assumption.
  - intros Hr. apply bind_inr_inv in Hr as (id & w1 & Hi & Hr).
    apply bind_inr_inv in Hr as (t & w2 & Ht & Hr). injection Ht as <- <-.
    apply insertRow_inv in Hr as (Hfresh & -> & ->). rewrite predictions_put.
    injection Hi as <- <-. cbn [p_id p_amount p_chainStatus p_compensatedAt p_userId p_roundId].
    destruct w as [[] ? ? ? ? ? ? ?]. cbn in *. repeat split. exact Hfresh.
Qed.

Lemma updatePools_inv roundId round amount a side pr p w r w' :
  updatePools roundId round amount a side pr p w = (inr r, w') ->
  users (w_db w') = users (w_db w) /\ predictions (w_db w') = predictions (w_db w) /\
  (r_mode round = UP_DOWN -> exists r0, rounds (w_db w) !! roundId = Some r0 /\
     r = addToPool a side r0 /\ rounds (w_db w') = <[roundId := r]> (rounds (w_db w))) /\
  (r_mode round = LEGENDS -> exists r0, rounds (w_db w) !! roundId = Some r0 /\
     r_mode r = r_mode r0).
Proof.
  unfold updatePools. intros Hr. destruct (r_mode round).
  - apply update_inv in Hr as (r0 & Hr0 & -> & ->). rewrite rounds_put.
    split; [destruct w as [[] ? ? ? ? ? ? ?]; reflexivity|].
    split; [destruct w as [[] ? ? ? ? ? ? ?]; reflexivity|].
    split; [eauto | discriminate].
  - apply bind_inr_inv in Hr as (ranges & w1 & Hl & Hr). apply liftE_inv in Hl as [_ ->].
    apply bind_inr_inv in Hr as (u & w2 & Hu & Hr).
    apply update_inv in Hu as (r0 & Hr0 & -> & ->).
    apply bind_inr_inv in Hr as ([] & w3 & Ha & Hr). injection Hr as <- <-.
    set (u := r0 {{ r_priceRanges := _ }}) in *. set (w2 := final _ w) in *.
    pose proof (announce_agree users (fun _ _ => eq_refl) roundId p u w2) as [Au _].
    pose proof (announce_agree predictions (fun _ _ => eq_refl) roundId p u w2) as [Ap _].
    unfold final in Au, Ap. rewrite Ha in Au, Ap. cbn in Au, Ap.
    split; [rewrite Au; destruct w as [[] ? ? ? ? ? ? ?]; reflexivity|].
    split; [rewrite Ap; destruct w as [[] ? ? ? ? ? ? ?]; reflexivity|].
    split; [discriminate|]. intros _. exists r0. split; [exact Hr0|]. destruct r0; reflexivity.
Qed.

(** What a successful reservation did. *)
Definition reserved (userId roundId : string) (amountNum : Q) (side : option PredictionSide)
    (p : Prediction) (u : User) (r : Round) (d d' : DB) : Prop :=
  exists u0 r0,
    users d !! userId = Some u0 /\ (num_to_dec amountNum <= unitQ (u_virtualBalance u0))%Q /\
    u = u0 {{ u_virtualBalance := colDec (u_virtualBalance u0) amountNum }} /\
    users d' = <[userId := u]> (users d) /\
    rounds d !! roundId = Some r0 /\ r_status r0 = ACTIVE /\ r_mode r = r_mode r0 /\
    predictions d' = <[p_id p := p]> (predictions d) /\
    match predictions d !! p_id p with
    | Some q => p_chainStatus q = PC_FAILED /\ predictionOf roundId userId q = true
    | None => forall k q, predictions d !! k = Some q -> predictionOf roundId userId q = false
    end /\
    p_amount p = colSet amountNum /\ p_chainStatus p = targetChainStatus (r_mode r) /\
    p_compensatedAt p = None /\ p_userId p = userId /\ p_roundId p = roundId /\
    (r_mode r = UP_DOWN ->
       p_side p = side /\ side <> None /\ r = addToPool amountNum side r0 /\
       rounds d' = <[roundId := r]> (rounds d)).

Definition idsMatch (t : gmap string Prediction) : Prop :=
  forall k p, t !! k = Some p -> p_id p = k.

Lemma reserveBody_inv userId roundId amount side pr w p u r w' :
  idsMatch (predictions (w_db w)) ->
  reserveBody userId roundId amount side pr w = (inr (p, u, r), w') ->
  reserved userId roundId (toNumber (toDecimal amount)) side p u r (w_db w) (w_db w').
Proof.
  intros Hids. unfold reserveBody. set (a := toNumber (toDecimal amount)). intros Hr.
  apply bind_inr_inv in Hr as ([round ex] & w1 & Hc & Hr).
  apply reserveChecks_inv in Hc as (-> & Hround & Hact & Hblk & Hval & Hex).
  cbv zeta in Hr. fold a in Hr.
  apply bind_inr_inv in Hr as (u1 & w2 & Hd & Hr).
  apply debitUser_inv in Hd as (u0 & Hu0 & Hge & Hu1 & ->). set (w2 := final _ w) in *.
  assert (Hu2 : users (w_db w2) = <[userId := u1]> (users (w_db w))) by apply users_put.
  assert (Hr2 : rounds (w_db w2) = rounds (w_db w))
    by (unfold w2; destruct w as [[] ? ? ? ? ? ? ?]; reflexivity).
  assert (Hp2 : predictions (w_db w2) = predictions (w_db w))
    by (unfold w2; destruct w as [[] ? ? ? ? ? ? ?]; reflexivity).
  apply bind_inr_inv in Hr as (p1 & w3 & Hw & Hr).
  apply bind_inr_inv in Hr as (r1 & w4 & Hup & Hr). injection Hr as -> -> -> ->.
  assert (Hpre : match ex with
                 | Some q => predictions (w_db w2) !! p_id q = Some q | None => True end).
  { destruct ex as [q|]; [|exact I]. destruct Hex as [[k Hk] _]. rewrite Hp2.
    rewrite (Hids _ _ Hk). exact Hk. }
  apply (writePrediction_inv _ _ _ _ _ _ _ _ _ _ Hpre) in Hw
    as (W1 & W2 & W3 & W4 & W5 & W6 & W7).
  apply updatePools_inv in Hup as (U1 & U2 & U3 & U4).
  rewrite Hp2 in W3, W7. rewrite W2, Hr2 in U3, U4.
  assert (Hmode : r_mode r = r_mode round).
  { destruct (r_mode round) eqn:Em.
    - destruct (U3 eq_refl) as (r0 & E0 & -> & _). rewrite Hround in E0. injection E0 as <-.
      unfold addToPool. destruct side as [[]|], round; cbn in *; assumption.
    - destruct (U4 eq_refl) as (r0 & E0 & E1). rewrite Hround in E0. injection E0 as <-. congruence. }
  assert (Hid : p_userId p = userId /\ p_roundId p = roundId).
  { destruct ex as [q|]; [|destruct W7 as (_ & ? & ? & _); auto].
    destruct Hex as [_ Hof]. destruct W7 as (_ & _ & -> & -> & _). unfold predictionOf in Hof.
    bool_hyps. auto. }
  exists u0, round. rewrite U1, U2, W1, W3.
  split; [exact Hu0|]. split; [exact Hge|]. split; [exact Hu1|]. split; [exact Hu2|].
  split; [exact Hround|]. split; [exact Hact|]. split; [exact Hmode|]. split; [reflexivity|].
  split.
  { destruct ex as [q|].
    - destruct W7 as (-> & Hf & _). rewrite Hp2 in Hpre. rewrite Hpre. destruct Hex. auto.
    - destruct W7 as (-> & _). exact Hex. }
  split; [exact W4|]. split; [rewrite Hmode; exact W5|]. split; [exact W6|].
  split; [apply Hid|]. split; [apply Hid|].
  rewrite Hmode. intros Hm. destruct (U3 Hm) as (r0 & E0 & E1 & E2).
  rewrite Hround in E0. injection E0 as <-.
  unfold validateRequest in Hval. rewrite Hm in Hval. destruct side as [s|]; [|discriminate].
  split; [|split; [discriminate|]; split; [exact E1|]; congruence].
  destruct ex as [q|]; [destruct W7 as (_ & _ & _ & _ & ->) | destruct W7 as (_ & _ & _ & ->)];
    reflexivity.
Qed.

Lemma reserveBody_base userId roundId amount side pr :
  respects sameBase (reserveBody userId roundId amount side pr).
Proof.
  unfold reserveBody, reserveChecks, debitUser, writePrediction, updatePools, findPrediction, liftE.
  respects_auto. all: apply announce_base.
Qed.
End Phases.

(** ** Money *)

Section Money.
Context `{Env} `{DecimalJs} `{PgNumeric}.

(** Amounts with at most eight decimals, below ten million. *)
Definition moneyAmount (z : Z) (amount : Q) : Prop := amount = f64 (unitQ z) /\ 0 <= z < 10 ^ 15.

Lemma amount_exact z amount :
  moneyAmount z amount -> (num_to_dec (toNumber (toDecimal amount)) == unitQ z)%Q.
Proof.
  intros [-> Hz]. unfold toNumber, toDecimal. rewrite D_toNumber_spec.
  rewrite (num_to_dec_unit z) by lia. apply num_to_dec_unit. lia.
Qed.

(** A stake is held by its row until the row is FAILED (and compensated). *)
Definition held (p : Prediction) : Z :=
  match p_chainStatus p with PC_FAILED => 0 | _ => p_amount p end.

Definition totalMoney (d : DB) : Z :=
  sumMap u_virtualBalance (users d) + sumMap held (predictions d).

(** No balance and no stake is negative, rows sit at their keys, and exactly
    the FAILED rows are compensated. *)
Record safe (d : DB) : Prop := {
  safe_balance : forall k u, users d !! k = Some u -> 0 <= u_virtualBalance u;
  safe_amount : forall k p, predictions d !! k = Some p -> 0 <= p_amount p;
  safe_ids : idsMatch (predictions d);
  safe_failed : forall k p, predictions d !! k = Some p ->
    p_chainStatus p = PC_FAILED <-> p_compensatedAt p <> None;
}.

Definition conserves (d d' : DB) : Prop := safe d -> safe d' /\ totalMoney d' = totalMoney d.

Lemma conserves_refl d : conserves d d.
Proof. intros Hd. auto. Qed.

(** The same up to [n] units in the total. *)
Definition drifts (n : Z) (d d' : DB) : Prop :=
  safe d -> safe d' /\ Z.abs (totalMoney d' - totalMoney d) <= n.

Lemma drifts_conserves d d' : drifts 0 d d' -> conserves d d'.
Proof. intros Hd Hs. destruct (Hd Hs). split; [assumption | lia]. Qed.

(** One user row and one prediction row change. *)
Lemma drifts_rows n d d' uk u0 u pk (p0 : option Prediction) p :
  users d !! uk = Some u0 -> users d' = <[uk := u]> (users d) ->
  predictions d !! pk = p0 -> predictions d' = <[pk := p]> (predictions d) -> p_id p = pk ->
  (safe d -> 0 <= u_virtualBalance u /\ 0 <= p_amount p /\
             (p_chainStatus p = PC_FAILED <-> p_compensatedAt p <> None) /\
             Z.abs (u_virtualBalance u + held p
                    - (u_virtualBalance u0 + match p0 with Some q => held q | None => 0 end)) <= n) ->
  drifts n d d'.
Proof.
  intros Hu Hu' Hp Hp' Hid Hs Hd. destruct (Hs Hd) as (S1 & S2 & S3 & S4). destruct Hd as [D1 D2 D3 D4].
  split.
  - split; unfold idsMatch; rewrite ?Hu', ?Hp'; intros k x Hx;
      apply lookup_insert_Some in Hx as [[<- <-]|[_ Hx]]; eauto.
  - unfold totalMoney. rewrite Hu', Hp', (sumMap_replace _ _ _ _ _ Hu).
    destruct p0 as [q|].
    + rewrite (sumMap_replace _ _ _ _ _ Hp). lia.
    + rewrite (sumMap_new _ _ _ _ Hp). lia.
Qed.

Lemma conserves_rows d d' uk u0 u pk (p0 : option Prediction) p :
  users d !! uk = Some u0 -> users d' = <[uk := u]> (users d) ->
  predictions d !! pk = p0 -> predictions d' = <[pk := p]> (predictions d) -> p_id p = pk ->
  (safe d -> 0 <= u_virtualBalance u /\ 0 <= p_amount p /\
             (p_chainStatus p = PC_FAILED <-> p_compensatedAt p <> None) /\
             u_virtualBalance u + held p
             = u_virtualBalance u0 + match p0 with Some q => held q | None => 0 end) ->
  conserves d d'.
Proof.
  intros Hu Hu' Hp Hp' Hid Hs. apply drifts_conserves.
  apply (drifts_rows 0 d d' uk u0 u pk p0 p Hu Hu' Hp Hp' Hid).
  intros Hd. destruct (Hs Hd) as (S1 & S2 & S3 & S4). split; [assumption|]. split; [assumption|]. split; [assumption | lia].
Qed.

(** One prediction row changes without changing hands. *)
Lemma conserves_row d d' pk p0 p :
  users d' = users d -> predictions d !! pk = Some p0 ->
  predictions d' = <[pk := p]> (predictions d) ->
  p_id p = p_id p0 -> p_amount p = p_amount p0 -> p_chainStatus p0 <> PC_FAILED ->
  p_chainStatus p <> PC_FAILED -> p_compensatedAt p = p_compensatedAt p0 ->
  conserves d d'.
Proof.
  intros Hu Hp Hp' Hid Ha N0 N1 Hc [D1 D2 D3 D4].
  pose proof (D4 _ _ Hp) as Hf. pose proof (D3 _ _ Hp) as Hk. pose proof (D2 _ _ Hp) as Hn.
  split.
  - split; unfold idsMatch; rewrite ?Hu, ?Hp'; intros k x Hx; eauto;
      apply lookup_insert_Some in Hx as [[<- <-]|[_ Hx]]; eauto; try congruence; try lia.
    rewrite Hc. tauto.
  - unfold totalMoney. rewrite Hu, Hp', (sumMap_replace _ _ _ _ _ Hp). unfold held.
    destruct (p_chainStatus p0), (p_chainStatus p); try congruence; lia.
Qed.

Lemma conserves_same d d' :
  users d' = users d -> predictions d' = predictions d -> conserves d d'.
Proof.
  intros Hu Hp [D1 D2 D3 D4]. split; [split; unfold idsMatch; rewrite ?Hu, ?Hp; assumption|].
  unfold totalMoney. congruence.
Qed.

(** The money of a reservation: what is debited is rounded to the column once
    in the balance and once in the stake. *)
Lemma reserved_drifts n amount userId roundId side p u r d d' :
  let a := toNumber (toDecimal amount) in
  0 <= colSet a ->
  (forall b, (num_to_dec a <= unitQ b)%Q -> 0 <= b -> 0 <= colDec b a /\ Z.abs (colDec b a + colSet a - b) <= n) ->
  reserved userId roundId a side p u r d d' -> drifts n d d'.
Proof.
  intros a Hpos Hdebit (u0 & r0 & U0 & Hge & -> & U1 & _ & _ & _ & P1 & P2 & P3 & P4 & P5 & _).
  eapply drifts_rows; [exact U0 | exact U1 | reflexivity | exact P1 | reflexivity |].
  intros Hs. rewrite P3, P5, P4.
  assert (Hu : u_virtualBalance (u0 {{ u_virtualBalance := colDec (u_virtualBalance u0) a }})
               = colDec (u_virtualBalance u0) a) by (destruct u0; reflexivity).
  rewrite Hu. assert (Hheld : held p = colSet a).
  { unfold held. rewrite P4, P3. destruct (r_mode r); reflexivity. }
  rewrite Hheld. destruct (Hdebit _ Hge (safe_balance _ Hs _ _ U0)) as [H1' H2'].
  split; [exact H1'|]. split; [exact Hpos|]. split.
  - split; [|congruence]. intros E. exfalso. destruct (r_mode r); discriminate E.
  - destruct (predictions d !! p_id p) as [q|]; [|lia]. destruct P2 as [P2 _].
    unfold held. rewrite P2. lia.
Qed.

Lemma exact_debit z amount :
  let a := toNumber (toDecimal amount) in
  moneyAmount z amount ->
  0 <= colSet a /\
  (forall b, (num_to_dec a <= unitQ b)%Q -> 0 <= b -> 0 <= colDec b a /\ Z.abs (colDec b a + colSet a - b) <= 0).
Proof.
  intros a Hz. pose proof (amount_exact z amount Hz) as Hex. fold a in Hex. destruct Hz as [_ Hz].
  assert (Ha : colSet a = z) by (apply column_unit, Hex). rewrite Ha. split; [lia|].
  intros b Hge Hb. assert (Hd : colDec b a = b - z) by (apply colDecDec_unit, Hex).
  rewrite Hex in Hge. pose proof (proj1 (unitQ_le z b) Hge) as Hle. rewrite Hd. split; [lia|].
  replace (b - z + z - b) with 0 by lia. reflexivity.
Qed.

(** Any amount a request can hold: a double that is not negative. *)
Lemma rounded_debit amount :
  let a := toNumber (toDecimal amount) in
  isDouble amount -> (0 <= amount)%Q ->
  0 <= colSet a /\
  (forall b, (num_to_dec a <= unitQ b)%Q -> 0 <= b -> 0 <= colDec b a /\ Z.abs (colDec b a + colSet a - b) <= 1).
Proof.
  intros a Hd Hpos.
  assert (Ha : (a == amount)%Q) by (unfold a, toNumber, toDecimal; rewrite D_toNumber_spec; apply f64_num_to_dec, Hd).
  assert (Hx : (0 <= num_to_dec a)%Q).
  { rewrite Ha. change 0%Q with (num_to_dec 0). apply num_to_dec_le; [reflexivity | exact Hd | exact Hpos]. }
  pose proof (column_err (num_to_dec a)) as Hs. fold (colSet a) in Hs. apply Qabs_Qle_condition in Hs as [S1 S2].
  split; [apply inject_Z_lt_1; change (inject_Z 0) with 0%Q; lra|].
  intros b Hge Hb. pose proof (column_err (unitQ b - num_to_dec a)) as He. fold (colDecDec b (num_to_dec a)) in He.
  fold (colDec b a) in He. apply Qabs_Qle_condition in He as [E1 E2].
  assert (Hu : (unitQ b * 100000000 == inject_Z b)%Q) by (unfold unitQ, Qeq, inject_Z; cbn; lia).
  split; [apply inject_Z_lt_1; change (inject_Z 0) with 0%Q; lra|].
  assert (Hup : colDec b a + colSet a <= b + 1) by (apply inject_Z_lt_1; rewrite !inject_Z_plus; change (inject_Z 1) with 1%Q; lra).
  assert (Hdown : b <= colDec b a + colSet a + 1) by (apply inject_Z_lt_1; rewrite !inject_Z_plus; change (inject_Z 1) with 1%Q; lra).
  lia.
Qed.

Lemma finalize_body_conserves pid rid p r h w a w' :
  finalizeBody pid rid p r h w = (inr a, w') -> conserves (w_db w) (w_db w').
Proof.
  unfold finalizeBody. intros Hr. apply bind_inr_inv in Hr as (o & w1 & Ho & Hr).
  injection Ho as Ho <-. destruct o as [cur|]; [|injection Hr as _ <-; apply conserves_refl].
  destruct (decide (p_chainStatus cur = PC_PENDING)) as [Hpend|];
    [|injection Hr as _ <-; apply conserves_refl].
  apply bind_inr_inv in Hr as (taken & w2 & Ht & Hr). injection Ht as _ <-.
  destruct taken; [discriminate|].
  apply bind_inr_inv in Hr as (t & w3 & Ht & Hr). injection Ht as _ <-.
  apply bind_inr_inv in Hr as (p1 & w4 & Hu & Hr). apply update_inv in Hu as (p0 & Hp0 & -> & ->).
  set (w2 := final _ w) in *. cbn in Hp0, Ho. rewrite Ho in Hp0. injection Hp0 as <-.
  pose proof (announce_agree users (fun _ _ => eq_refl) rid p r w2) as [Au _].
  pose proof (announce_agree predictions (fun _ _ => eq_refl) rid p r w2) as [Ap _].
  unfold final in Au, Ap. rewrite Hr in Au, Ap. cbn in Au, Ap.
  apply (conserves_row _ _ pid cur (confirmRow t h cur)); try (destruct cur; reflexivity).
  - rewrite Au. unfold w2. destruct w as [[] ? ? ? ? ? ? ?]; reflexivity.
  - exact Ho.
  - rewrite Ap. apply predictions_put.
  - congruence.
  - destruct cur; discriminate.
Qed.

Lemma compensate_body_conserves pid w a w' :
  compensateBody pid w = (inr a, w') -> conserves (w_db w) (w_db w').
Proof.
  unfold compensateBody. intros Hr. apply bind_inr_inv in Hr as (o & w1 & Ho & Hr).
  injection Ho as Ho <-. destruct o as [pred|]; [|injection Hr as _ <-; apply conserves_refl].
  apply bind_inr_inv in Hr as (ro & w2 & Hro & Hr). injection Hro as _ <-.
  apply bind_inr_inv in Hr as (rd & w3 & Hro & Hr). apply orThrow_inr_inv in Hro as [_ ->].
  destruct (compensable pred) eqn:Ec; cbn [negb] in Hr; [|injection Hr as _ <-; apply conserves_refl].
  apply bind_inr_inv in Hr as (u1 & w4 & Hu & Hr). apply update_inv in Hu as (u0 & Hu0 & Hu1 & Hw4).
  apply bind_inr_inv in Hr as ([] & w5 & Hpool & Hr).
  apply bind_inr_inv in Hr as (t & w6 & Ht & Hr). injection Ht as _ <-.
  apply bind_inr_inv in Hr as (p1 & w7 & Hp & Hr). injection Hr as _ <-.
  apply update_inv in Hp as (p0 & Hp0 & Hp1 & Hw7). cbn in Hp0, Ho, Hu0.
  assert (Hmid : users (w_db w5) = users (w_db w4) /\ predictions (w_db w5) = predictions (w_db w4)).
  { destruct (r_mode rd); [|injection Hpool as <-; auto].
    apply bind_inr_inv in Hpool as (r1 & w8 & Hr1 & Hpool). injection Hpool as <-.
    apply update_inv in Hr1 as (r0 & _ & _ & ->). destruct w4 as [[] ? ? ? ? ? ? ?]; auto. }
  destruct Hmid as [M1 M2].
  assert (U4 : users (w_db w4) = <[p_userId pred := u1]> (users (w_db w)))
    by (rewrite Hw4, Hu1; apply users_put).
  assert (P4 : predictions (w_db w4) = predictions (w_db w))
    by (rewrite Hw4; destruct w as [[] ? ? ? ? ? ? ?]; reflexivity).
  assert (U7 : users (w_db w7) = users (w_db w5))
    by (rewrite Hw7; destruct w5 as [[] ? ? ? ? ? ? ?]; reflexivity).
  assert (P7 : predictions (w_db w7) = <[pid := p1]> (predictions (w_db w5)))
    by (rewrite Hw7, Hp1; apply predictions_put).
  rewrite M2, P4, Ho in Hp0. injection Hp0 as <-.
  assert (Hpid : forall Hs : safe (w_db w), p_id p1 = pid).
  { intros Hs. rewrite Hp1. rewrite <- (safe_ids _ Hs _ _ Ho). destruct pred; reflexivity. }
  intros Hs.
  refine (conserves_rows (w_db w) (w_db w7) (p_userId pred) u0 u1 pid (Some pred) p1
            Hu0 _ Ho _ (Hpid Hs) _ Hs); [congruence | congruence |].
  intros _. pose proof (safe_balance _ Hs _ _ Hu0) as B. pose proof (safe_amount _ Hs _ _ Ho) as A.
  pose proof (safe_failed _ Hs _ _ Ho) as F.
  assert (Hbal : u_virtualBalance u1 = u_virtualBalance u0 + p_amount pred).
  { rewrite Hu1, <- (colIncDec_unit (u_virtualBalance u0) (p_amount pred) (unitQ (p_amount pred)));
      [destruct u0; reflexivity | reflexivity]. }
  unfold compensable in Ec. bool_hyps.
  assert (Hnf : p_chainStatus pred <> PC_FAILED).
  { intros E. apply F in E. destruct (p_compensatedAt pred); [discriminate | congruence]. }
  assert (Hheld : held pred = p_amount pred).
  { unfold held. destruct (p_chainStatus pred); congruence. }
  assert (H1p : p_amount p1 = p_amount pred /\ p_chainStatus p1 = PC_FAILED /\
                p_compensatedAt p1 = Some t) by (rewrite Hp1; destruct pred; auto).
  destruct H1p as (E1 & E2 & E3). rewrite Hbal, Hheld. unfold held. rewrite E1, E2, E3.
  split; [lia|]. split; [lia|]. split; [split; congruence | lia].
Qed.

Lemma compensateBody_base pid : respects sameBase (compensateBody pid).
Proof. unfold compensateBody. respects_auto. Qed.

Lemma finalizeBody_base pid rid p r h : respects sameBase (finalizeBody pid rid p r h).
Proof. unfold finalizeBody. respects_auto. apply announce_base. Qed.
End Money.

(** ** The whole operation *)

Section Operation.
Context `{Env} `{DecimalJs} `{PgNumeric}.

(** Outside transactions: safety is kept and money conserved. *)
Definition moneyStep (w w' : World) : Prop :=
  w_base w = None -> w_base w' = None /\ conserves (w_db w) (w_db w').

#[export] Instance moneyStep_preorder : PreOrder moneyStep.
Proof.
  split; [intros w Hb; split; [exact Hb | apply conserves_refl]|].
  intros w1 w2 w3 H12 H23 Hb. destruct (H12 Hb) as [Hb2 C12]. destruct (H23 Hb2) as [Hb3 C23].
  split; [exact Hb3|]. intros Hs. destruct (C12 Hs) as [Hs2 E2]. destruct (C23 Hs2) as [Hs3 E3].
  split; [exact Hs3 | congruence].
Qed.

Lemma transaction_money {A} (m : Svc A) :
  respects sameBase m ->
  (forall w a w', safe (w_db w) -> m w = (inr a, w') -> conserves (w_db w) (w_db w')) ->
  respects moneyStep (transaction m).
Proof.
  intros Hm Hok w Hb.
  destruct (transaction_db (fun d d' => conserves d d') m w Hb Hm conserves_refl) as [Hc Hn].
  - intros w0 a w1 _ Hr Hs. exact (Hok w0 a w1 Hs Hr Hs).
  - auto.
Qed.

Lemma sent_money {A} (m : Svc A) n c :
  (forall w, sent n c w (final m w)) -> respects moneyStep m.
Proof.
  intros Hm w Hb. destruct (Hm w) as (H1' & H2' & _). rewrite H1', H2'.
  split; [exact Hb | apply conserves_refl].
Qed.

Lemma reserve_drifts n userId roundId amount side pr w :
  let a := toNumber (toDecimal amount) in
  0 <= n -> 0 <= colSet a /\
  (forall b, (num_to_dec a <= unitQ b)%Q -> 0 <= b -> 0 <= colDec b a /\ Z.abs (colDec b a + colSet a - b) <= n) ->
  w_base w = None -> safe (w_db w) ->
  let w' := final (reserve userId roundId amount side pr) w in
  w_base w' = None /\ safe (w_db w') /\ Z.abs (totalMoney (w_db w') - totalMoney (w_db w)) <= n.
Proof.
  intros a Hn [Ha Hb] Hw Hs. cbv zeta.
  destruct (transaction_db (fun d d' => drifts n d d') (reserveBody userId roundId amount side pr) w Hw
              (reserveBody_base userId roundId amount side pr)) as [Hc Hbase].
  - intros d Hd. split; [exact Hd | lia].
  - intros w0 [[p u] r] w1 _ Hr Hd. apply reserveBody_inv in Hr; [|apply Hd].
    exact (reserved_drifts n amount _ _ _ _ _ _ _ _ Ha Hb Hr Hd).
  - split; [exact Hbase | exact (Hc Hs)].
Qed.

Lemma finalize_money pid rid p r h : respects moneyStep (finalizeChainSuccess pid rid p r h).
Proof.
  apply retryOrThrow_respects; [apply _ | | intros d w Hb].
  - apply transaction_money; [apply finalizeBody_base|]. intros w a w' _. apply finalize_body_conserves.
  - cbn. destruct w. split; [exact Hb | apply conserves_refl].
Qed.

Lemma compensate_money pid : respects moneyStep (compensatePrediction pid).
Proof.
  apply transaction_money; [apply compensateBody_base|]. intros w a w' _.
  apply compensate_body_conserves.
Qed.

(** The row of a submission in progress. *)
Definition inProgress (pid : string) (w : World) : Prop :=
  exists p, predictions (w_db w) !! pid = Some p /\ p_chainStatus p <> PC_FAILED.

Definition progressStep (pid : string) (w w' : World) : Prop :=
  w_base w = None -> inProgress pid w -> w_base w' = None /\ inProgress pid w'.

#[local] Instance progress_preorder pid : PreOrder (progressStep pid).
Proof.
  split; [intros w; split; assumption|]. intros w1 w2 w3 H12 H23 Hb Hp.
  destruct (H12 Hb Hp). apply H23; assumption.
Qed.

Lemma finalize_progress pid rid p r h : respects (progressStep pid) (finalizeChainSuccess pid rid p r h).
Proof.
  apply retryOrThrow_respects; [apply _ | | intros d w Hb Hp].
  - intros w Hb Hp.
    destruct (transaction_db
      (fun d d' => (exists q, predictions d !! pid = Some q /\ p_chainStatus q <> PC_FAILED) ->
                   exists q, predictions d' !! pid = Some q /\ p_chainStatus q <> PC_FAILED)
      (finalizeBody pid rid p r h) w Hb (finalizeBody_base _ _ _ _ _)) as [Hq Hn];
      [intros d Hd; exact Hd | | split; [exact Hn | apply Hq; exact Hp]].
    intros w0 a w1 _ Hr (q & Hq & Hqs). unfold finalizeBody in Hr.
    apply bind_inr_inv in Hr as (o & w2 & Ho & Hr). injection Ho as Ho <-.
    cbn in Ho. rewrite Hq in Ho. subst o.
    destruct (decide (p_chainStatus q = PC_PENDING)); [|injection Hr as _ <-; eauto].
    apply bind_inr_inv in Hr as (tk & w3 & Ht & Hr). injection Ht as _ <-.
    destruct tk; [discriminate|]. apply bind_inr_inv in Hr as (t & w4 & Ht & Hr). injection Ht as _ <-.
    apply bind_inr_inv in Hr as (p1 & w5 & Hu & Hr). apply update_inv in Hu as (p0 & Hp0 & -> & ->).
    set (w2 := final _ w0) in *.
    pose proof (announce_agree predictions (fun _ _ => eq_refl) rid p r w2) as [Ap _].
    unfold final in Ap. rewrite Hr in Ap. cbn in Ap.
    exists (confirmRow t h p0). split; [|destruct p0; discriminate].
    pose proof (predictions_put pid (confirmRow t h p0) w0) as Hput.
    change (predictions (w_db w2) = <[pid := confirmRow t h p0]> (predictions (w_db w0))) in Hput.
    assert (Hall : predictions (w_db w1) = <[pid := confirmRow t h p0]> (predictions (w_db w0)))
      by (etransitivity; [exact Ap | exact Hput]).
    rewrite Hall. apply lookup_insert_eq.
  - destruct w. split; assumption.
Qed.

Lemma handle_money pid e w :
  inProgress pid w -> moneyStep w (final (handleChainFailure pid e) w).
Proof.
  intros (p & Hp & Hnf). unfold handleChainFailure.
  destruct (includes _ _); [|apply compensate_money].
  intros Hb. unfold final, bind. erewrite (update_some (Row := Prediction) pid) by exact Hp. cbn.
  set (p' := p {{ p_chainStatus := PC_SUBMITTED }}).
  split; [destruct w; exact Hb|].
  apply (conserves_row _ _ pid p p'); [| exact Hp | | | | exact Hnf | |].
  - destruct w as [[] ? ? ? ? ? ? ?]; reflexivity.
  - apply (predictions_put pid p' w).
  - destruct p; reflexivity.
  - destruct p; reflexivity.
  - destruct p; discriminate.
  - destruct p; reflexivity.
Qed.

(** Whatever follows the reservation conserves money. *)
Lemma submit_after_reserve userId roundId amount side pr w :
  w_base w = None -> safe (w_db w) ->
  moneyStep (final (reserve userId roundId amount side pr) w) (final (submitPrediction userId roundId amount side pr) w).
Proof.
  intros Hb Hs. unfold submitPrediction, final at 2, bind at 1. unfold final at 1.
  destruct (reserve userId roundId amount side pr w) as [[e|[[p u] r]] w1] eqn:Hr; [reflexivity|].
  cbn [snd]. destruct (r_mode r) eqn:Em; [|reflexivity].
  assert (Hprog : inProgress (p_id p) w1).
  { unfold reserve in Hr.
    apply (transaction_inr _ _ _ _ Hb (reserveBody_base userId roundId amount side pr)) in Hr
      as (w0 & w2 & E0 & Er & E2 & _).
    apply reserveBody_inv in Er; [|rewrite E0; apply Hs].
    destruct Er as (u0 & r0 & _ & _ & _ & _ & _ & _ & _ & Hp1 & _ & _ & Hst & _).
    exists p. split; [rewrite E2, Hp1; apply lookup_insert_eq | rewrite Hst, Em; discriminate]. }
  set (bet := bind (placeBet _ _ _) _).
  assert (Hbet : respects moneyStep bet).
  { unfold bet. apply respects_bind; [apply _ | | intros x; apply finalize_money].
    eapply sent_money. intros w3. apply mutatingCall_sent. }
  assert (Hbp : respects (progressStep (p_id p)) bet).
  { unfold bet. apply respects_bind; [apply _ | | intros x; apply finalize_progress].
    intros w3 Hb3 (q & Hq & Hqs).
    destruct (mutatingCall_sent (CallPlaceBet (u_walletAddress u) (amountInStroops amount)
                (default UP side)) (fun r => inr (mkBetReply "on-chain-success" (cr_hash r))) 1 w3)
      as (S1 & S2 & _).
    fold (placeBet (u_walletAddress u) amount (default UP side)) in S1, S2.
    split; [congruence|]. exists q. rewrite S1. auto. }
  intros Hb1. unfold bind, catch.
  specialize (Hbet w1 Hb1). specialize (Hbp w1 Hb1 Hprog). unfold final in Hbet, Hbp.
  destruct (bet w1) as [[e|[]] w2]; cbn [snd] in *.
  - destruct Hbet as [Hb2 Hc2]. destruct Hbp as [_ Hp2].
    pose proof (handle_money (p_id p) e w2 Hp2 Hb2) as [Hb3 Hc3]. unfold final in Hb3, Hc3.
    destruct (handleChainFailure (p_id p) e w2) as [[e2|[]] w3]; cbn in *;
      (split; [exact Hb3|]; intros Hd; destruct (Hc2 Hd) as [Hd2 E2];
       destruct (Hc3 Hd2) as [Hd3 E3]; split; [exact Hd3 | congruence]).
  - unfold findUnique, gets, orThrow. destruct (tbl (w_db w2) !! p_id p); exact Hbet.
Qed.

Lemma submit_drifts n userId roundId amount side pr w :
  let a := toNumber (toDecimal amount) in
  0 <= n -> 0 <= colSet a /\
  (forall b, (num_to_dec a <= unitQ b)%Q -> 0 <= b -> 0 <= colDec b a /\ Z.abs (colDec b a + colSet a - b) <= n) ->
  w_base w = None -> safe (w_db w) ->
  let w' := final (submitPrediction userId roundId amount side pr) w in
  w_base w' = None /\ safe (w_db w') /\ Z.abs (totalMoney (w_db w') - totalMoney (w_db w)) <= n.
Proof.
  intros a Hn Ha Hb Hs. destruct (reserve_drifts n userId roundId amount side pr w Hn Ha Hb Hs) as (Hb1 & Hs1 & Ht1).
  destruct (submit_after_reserve userId roundId amount side pr w Hb Hs Hb1) as [Hb2 Hc].
  destruct (Hc Hs1) as [Hs2 Ht2]. cbv zeta. rewrite Ht2. auto.
Qed.

(** C1. A submission of any amount a request can hold conserves money up to
    the rounding of one debit, whatever happens: request refused, insufficient
    balance, chain call succeeding, failing, timing out or refused by the
    breaker or the cap, result recorded or not. The sum of all balances and of
    the stakes held by predictions is the same for an amount of at most eight
    decimals below ten million; for any other it is off by at most one unit of
    the eighth decimal, since the balance and the stake are rounded to the
    column each for itself. No balance or stake becomes negative. *)
Theorem submitPrediction_conserves_money userId roundId amount side pr w :
  isDouble amount -> (0 <= amount)%Q -> w_base w = None -> safe (w_db w) ->
  let w' := final (submitPrediction userId roundId amount side pr) w in
  safe (w_db w') /\ w_base w' = None /\
  Z.abs (totalMoney (w_db w') - totalMoney (w_db w)) <= 1 /\
  (forall z, moneyAmount z amount -> totalMoney (w_db w') = totalMoney (w_db w)).
Proof.
  intros Hd Hpos Hb Hs.
  destruct (submit_drifts 1 userId roundId amount side pr w ltac:(lia) (rounded_debit amount Hd Hpos) Hb Hs) as (H1' & H2' & H3').
  split; [exact H2'|]. split; [exact H1'|]. split; [exact H3'|]. intros z Hz.
  destruct (submit_drifts 0 userId roundId amount side pr w ltac:(lia) (exact_debit z amount Hz) Hb Hs) as (_ & _ & Hz0). lia.
Qed.
End Operation.

(** ** Refusals, failures, repetition *)

Section Outcomes.
Context `{Env} `{DecimalJs} `{PgNumeric}.

Lemma announce_calls roundId p r : respects sameCalls (announcePrediction roundId p r).
Proof. unfold announcePrediction. respects_auto. Qed.

Lemma reserveBody_calls userId roundId amount side pr :
  respects sameCalls (reserveBody userId roundId amount side pr).
Proof.
  unfold reserveBody, reserveChecks, debitUser, writePrediction, updatePools, findPrediction, liftE.
  respects_auto; apply announce_calls.
Qed.

Lemma finalize_calls pid roundId p r h :
  respects sameCalls (finalizeChainSuccess pid roundId p r h).
Proof.
  apply retryOrThrow_respects; [apply _ | | intros d x; destruct x; reflexivity].
  apply calls_transaction. unfold finalizeBody. respects_auto. apply announce_calls.
Qed.

Lemma handle_calls pid e : respects sameCalls (handleChainFailure pid e).
Proof.
  unfold handleChainFailure, compensatePrediction. respects_auto.
  apply calls_transaction. unfold compensateBody. respects_auto.
Qed.

(** A submission that is refused (unknown or closed round, duplicate,
    missing side or range, unknown user, insufficient balance) changes
    nothing in the database and sends nothing to the chain. In particular a
    user whose prediction for the round is being processed, confirmed, or
    under review cannot place a second one. *)
Theorem submitPrediction_refused userId roundId amount side pr w e w1 :
  w_base w = None -> reserve userId roundId amount side pr w = (inl e, w1) ->
  submitPrediction userId roundId amount side pr w = (inl e, w1) /\
  w_db w1 = w_db w /\ w_calls w1 = w_calls w.
Proof.
  intros Hb Hr. split; [unfold submitPrediction; rewrite (bind_err _ _ _ _ _ Hr); reflexivity|].
  apply (transaction_inl _ _ _ _ Hb (reserveBody_base userId roundId amount side pr)) in Hr
    as (Hd & _ & w0 & w2 & _ & Hc0 & Hm & Hc). split; [exact Hd|].
  pose proof (reserveBody_calls userId roundId amount side pr w0) as Hk. unfold sameCalls, final in Hk.
  rewrite Hm in Hk. cbn in Hk. congruence.
Qed.

(** No second stake while one is live: with a row of the user for the
    round that is not FAILED, the reservation is refused. *)
Theorem reserve_no_duplicate userId roundId amount side pr w k p :
  w_base w = None -> predictions (w_db w) !! k = Some p -> predictionOf roundId userId p = true ->
  p_chainStatus p <> PC_FAILED ->
  (forall k' p', predictions (w_db w) !! k' = Some p' -> predictionOf roundId userId p' = true -> k' = k) ->
  exists e w1, reserve userId roundId amount side pr w = (inl e, w1) /\ w_db w1 = w_db w.
Proof.
  intros Hb Hk Hof Hst Huniq.
  destruct (reserve userId roundId amount side pr w) as [[e|[[q u] r]] w1] eqn:Er.
  - exists e, w1. split; [reflexivity|].
    apply (transaction_inl _ _ _ _ Hb (reserveBody_base userId roundId amount side pr)) in Er. apply Er.
  - exfalso. apply (transaction_inr _ _ _ _ Hb (reserveBody_base userId roundId amount side pr)) in Er
      as (w0 & w2 & E0 & Er & _).
    unfold reserveBody in Er. apply bind_inr_inv in Er as ([rd ex] & w3 & Hc & _).
    apply reserveChecks_inv in Hc as (_ & _ & _ & Hblk & _ & Hex). rewrite E0 in Hex.
    destruct ex as [x|].
    + destruct Hex as [[kx Hx] Hofx]. specialize (Huniq kx x Hx Hofx). subst kx.
      rewrite Hk in Hx. injection Hx as <-. unfold existingBlocks in Hblk.
      destruct (p_chainStatus p); congruence.
    + specialize (Hex k p Hk). congruence.
Qed.

(** At most one chain call, and only after the reservation committed. *)
Theorem submitPrediction_one_call userId roundId amount side pr w p u r w1 :
  w_base w = None -> reserve userId roundId amount side pr w = (inr (p, u, r), w1) ->
  w_calls w1 = w_calls w /\
  exists n, (n <= 1)%nat /\
    w_calls (final (submitPrediction userId roundId amount side pr) w)
    = replicate n (CallPlaceBet (u_walletAddress u) (amountInStroops amount) (default UP side))
      ++ w_calls w.
Proof.
  intros Hb Hr. pose proof Hr as Hr0.
  apply (transaction_inr _ _ _ _ Hb (reserveBody_base userId roundId amount side pr)) in Hr
    as (w0 & w2 & _ & Hm & _ & _ & Hc0 & Hc).
  pose proof (reserveBody_calls userId roundId amount side pr w0) as Hk. unfold sameCalls, final in Hk.
  rewrite Hm in Hk. cbn in Hk. split; [congruence|].
  assert (Hw1 : w_calls w1 = w_calls w) by congruence.
  unfold submitPrediction, final. rewrite (bind_ok _ _ _ _ _ Hr0).
  destruct (r_mode r); [|exists 0%nat; auto].
  destruct (mutatingCall_sent (CallPlaceBet (u_walletAddress u) (amountInStroops amount)
              (default UP side)) (fun r => inr (mkBetReply "on-chain-success" (cr_hash r))) 1 w1)
    as (_ & _ & _ & _ & n & Hn & Hcalls).
  fold (placeBet (u_walletAddress u) amount (default UP side)) in Hcalls. unfold final in Hcalls.
  exists n. split; [exact Hn|]. rewrite <- Hw1, <- Hcalls.
  assert (Hrest : forall o, respects sameCalls
            (catch (match o with
                    | inr c => finalizeChainSuccess (p_id p) roundId p r (br_txHash c)
                    | inl e => throw e
                    end)
               (fun e => handleChainFailure (p_id p) e ;;; throw e) ;;;
             f <- findUnique (Row := Prediction) (p_id p) ;; orThrow f (PrismaError "P2025"))).
  { intros [e|c]; respects_auto; first [apply handle_calls | apply finalize_calls]. }
  specialize (Hrest (fst (placeBet (u_walletAddress u) amount (default UP side) w1))
                (snd (placeBet (u_walletAddress u) amount (default UP side) w1))).
  unfold final, bind, catch in *.
  destruct (placeBet _ _ _ w1) as [[e|c] w3]; exact Hrest.
Qed.
End Outcomes.

Section Compensation.
Context `{Env} `{DecimalJs} `{PgNumeric}.

Lemma compensateBody_run pid w pred u0 rd :
  predictions (w_db w) !! pid = Some pred -> users (w_db w) !! p_userId pred = Some u0 ->
  rounds (w_db w) !! p_roundId pred = Some rd -> compensable pred = true ->
  exists w', compensateBody pid w = (inr tt, w') /\
    users (w_db w') = <[p_userId pred :=
      u0 {{ u_virtualBalance := colIncDec (u_virtualBalance u0) (unitQ (p_amount pred)) }}]> (users (w_db w)) /\
    rounds (w_db w') = match r_mode rd with
                       | UP_DOWN => <[p_roundId pred := removeFromPool pred rd]> (rounds (w_db w))
                       | LEGENDS => rounds (w_db w)
                       end /\
    predictions (w_db w') = <[pid := compensateRow (w_now w) pred]> (predictions (w_db w)).
Proof.
  intros Hp Hu Hr Hc. destruct w as [[us rs ps bs cs ob ns fd ax] base t nonce br lim calls emits].
  cbn in Hp, Hu, Hr. unfold compensateBody, bind, update, updateWhere, findUnique, gets, bind. cbn.
  rewrite Hp. cbn. rewrite Hr. cbn. rewrite Hc. cbn. rewrite Hu. cbn.
  destruct (r_mode rd); cbn; rewrite ?Hr; cbn; rewrite Hp; cbn; eexists;
    (split; [reflexivity|]; split; [reflexivity|]; split; reflexivity).
Qed.

Lemma compensatePrediction_run pid w pred u0 rd :
  w_base w = None ->
  predictions (w_db w) !! pid = Some pred -> users (w_db w) !! p_userId pred = Some u0 ->
  rounds (w_db w) !! p_roundId pred = Some rd -> compensable pred = true ->
  exists w', compensatePrediction pid w = (inr tt, w') /\
    users (w_db w') = <[p_userId pred :=
      u0 {{ u_virtualBalance := colIncDec (u_virtualBalance u0) (unitQ (p_amount pred)) }}]> (users (w_db w)) /\
    rounds (w_db w') = match r_mode rd with
                       | UP_DOWN => <[p_roundId pred := removeFromPool pred rd]> (rounds (w_db w))
                       | LEGENDS => rounds (w_db w)
                       end /\
    predictions (w_db w') = <[pid := compensateRow (w_now w) pred]> (predictions (w_db w)).
Proof.
  intros Hb Hp Hu Hr Hc. unfold compensatePrediction, transaction. rewrite Hb.
  destruct w as [db base t nonce br lim calls emits]. cbn [w_db w_base w_now] in *. subst base.
  destruct (compensateBody_run pid (mkWorld db (Some db) t nonce br lim calls emits) pred u0 rd Hp Hu Hr Hc)
    as (w' & Hrun & H1' & H2' & H3').
  match goal with |- context [compensateBody pid ?x] =>
    change x with (mkWorld db (Some db) t nonce br lim calls emits) end.
  rewrite Hrun. eexists. split; [reflexivity|]. destruct w'. auto.
Qed.

(** Compensation is idempotent: run again, even on the row it has already
    compensated, it changes nothing. *)
Theorem compensatePrediction_idempotent pid w w1 :
  w_base w = None -> safe (w_db w) ->
  compensatePrediction pid w = (inr tt, w1) ->
  w_db (final (compensatePrediction pid) w1) = w_db w1.
Proof.
  intros Hb Hs Hr. unfold compensatePrediction in Hr.
  apply (transaction_inr _ _ _ _ Hb (compensateBody_base pid)) in Hr as (w0 & w2 & E0 & Hm & E2 & Hb1 & _).
  assert (Hno : forall p, predictions (w_db w1) !! pid = Some p -> compensable p = false).
  { intros p Hp. rewrite E2 in Hp. unfold compensateBody in Hm.
    apply bind_inr_inv in Hm as (o & w3 & Ho & Hm). injection Ho as Ho <-.
    destruct o as [q|]; [|injection Hm as <-; cbn in Ho; congruence].
    apply bind_inr_inv in Hm as (ro & w4 & Hro & Hm). injection Hro as _ <-.
    apply bind_inr_inv in Hm as (rd & w5 & Hro & Hm). apply orThrow_inr_inv in Hro as [_ ->].
    destruct (compensable q) eqn:Ec; cbn [negb] in Hm;
      [|injection Hm as <-; cbn in Ho; congruence].
    apply bind_inr_inv in Hm as (u1 & w6 & _ & Hm). apply bind_inr_inv in Hm as ([] & w7 & _ & Hm).
    apply bind_inr_inv in Hm as (t & w8 & Ht & Hm). injection Ht as _ <-.
    apply bind_inr_inv in Hm as (p1 & w9 & Hu & Hm). injection Hm as <-.
    apply update_inv in Hu as (p0 & _ & -> & ->). rewrite predictions_put, lookup_insert_eq in Hp.
    injection Hp as <-. unfold compensable. destruct p0; cbn. rewrite andb_false_r. reflexivity. }
  unfold final, compensatePrediction.
  destruct (transaction_cases (compensateBody pid) w1 Hb1 (compensateBody_base pid))
    as [(a & Hv & Ht)|(e & _ & Ht)]; rewrite Ht; cbn [snd]; [|destruct (final _ _); reflexivity].
  set (w3 := w1 {{ w_base := Some (w_db w1) }}) in *.
  assert (Hw3 : w_db (final (compensateBody pid) w3) = w_db w1).
  { assert (Hdb : w_db w3 = w_db w1) by (destruct w1; reflexivity). clearbody w3.
    unfold final, compensateBody, bind at 1, findUnique, gets. cbn. rewrite Hdb.
    destruct (predictions (w_db w1) !! pid) as [p|] eqn:Ep; [|exact Hdb].
    unfold bind. rewrite (Hno p eq_refl). rewrite Hdb.
    destruct (rounds (w_db w1) !! p_roundId p); exact Hdb. }
  destruct (final (compensateBody pid) w3). exact Hw3.
Qed.

(** The row a reservation has written. *)
Lemma reserved_row userId roundId amount side pr w p u r w1 :
  w_base w = None -> idsMatch (predictions (w_db w)) ->
  reserve userId roundId amount side pr w = (inr (p, u, r), w1) -> predictions (w_db w1) !! p_id p = Some p.
Proof.
  intros Hb Hs Hr. apply (transaction_inr _ _ _ _ Hb (reserveBody_base userId roundId amount side pr)) in Hr
    as (w0 & wr & E0 & Er & E1 & _).
  apply reserveBody_inv in Er; [|rewrite E0; exact Hs].
  destruct Er as (u0 & r0 & _ & _ & _ & _ & _ & _ & _ & P1 & _). rewrite E1, P1. apply lookup_insert_eq.
Qed.

(** A chain call whose error does not say timeout is undone. The mapped error
    of a call that timed out does not say so. *)
Lemma chain_failure_undone z userId roundId amount side pr w p u r w1 e w2 :
  moneyAmount z amount -> w_base w = None -> safe (w_db w) ->
  reserve userId roundId amount side pr w = (inr (p, u, r), w1) -> r_mode r = UP_DOWN ->
  placeBet (u_walletAddress u) amount (default UP side) w1 = (inl e, w2) ->
  (err_class e = ClsBackpressure -> includes (toLowerCase (err_message e)) "timeout" = false) ->
  exists w', submitPrediction userId roundId amount side pr w = (inl e, w') /\
    users (w_db w') = users (w_db w) /\ rounds (w_db w') = rounds (w_db w) /\
    exists row, predictions (w_db w') !! p_id p = Some row /\
                p_chainStatus row = PC_FAILED /\ p_compensatedAt row <> None.
Proof.
  intros Hz Hb Hs Hres Hmode Hbet Hbp.
  assert (Hmsg : includes (toLowerCase (err_message e)) "timeout" = false).
  { destruct env_sorobanReady eqn:Eready.
    - destruct (mutatingCall_error _ _ _ _ _ _ Eready Hbet) as [Hc|[m ->]]; [auto|].
      apply mapSorobanError_hides_timeout.
    - unfold placeBet, mutatingCall, bind, ensureInitialized in Hbet. rewrite Eready in Hbet.
      injection Hbet as <- _. reflexivity. }
  pose proof Hres as Hres0.
  apply (transaction_inr _ _ _ _ Hb (reserveBody_base userId roundId amount side pr)) in Hres
    as (w0 & wr & E0 & Er & E1 & Hb1 & _).
  apply reserveBody_inv in Er; [|rewrite E0; apply Hs]. rewrite E0, <- E1 in Er.
  destruct Er as (u0 & r0 & U0 & _ & Hu & U1 & R0 & _ & Hm0 & P1 & _ & P3 & P4 & P5 & P6 & P7 & Hud).
  destruct (Hud Hmode) as (Hside & Hsn & Hr & R1).
  destruct (mutatingCall_sent (CallPlaceBet (u_walletAddress u) (amountInStroops amount)
              (default UP side)) (fun r => inr (mkBetReply "on-chain-success" (cr_hash r))) 1 w1)
    as (S1 & S2 & _).
  fold (placeBet (u_walletAddress u) amount (default UP side)) in S1, S2. unfold final in S1, S2.
  rewrite Hbet in S1, S2. cbn [snd] in S1, S2. rewrite Hb1 in S2.
  pose proof (amount_exact z amount Hz) as Hex. set (a := toNumber (toDecimal amount)) in *.
  assert (Hpa : p_amount p = z) by (rewrite P3; apply column_unit, Hex).
  destruct (compensatePrediction_run (p_id p) w2 p u r S2) as (w' & Hrun & V1 & V2 & V3).
  { rewrite S1, P1. apply lookup_insert_eq. }
  { rewrite S1, U1, P6. apply lookup_insert_eq. }
  { rewrite S1, R1, P7. apply lookup_insert_eq. }
  { unfold compensable. rewrite P4, P5, Hmode. reflexivity. }
  exists w'. split.
  { unfold submitPrediction. rewrite (bind_ok _ _ _ _ _ Hres0), Hmode. apply bind_err.
    erewrite catch_err by (apply bind_err; exact Hbet).
    unfold handleChainFailure. rewrite Hmsg. rewrite (bind_ok _ _ _ _ _ Hrun). reflexivity. }
  split; [|split].
  - rewrite V1, S1, U1, P6, insert_insert_eq. apply insert_id. rewrite U0. f_equal.
    rewrite Hu, Hpa. destruct u0 as [i wa b wi st np]; cbn [u_virtualBalance]. cbn in *.
    f_equal. assert (Hb0 : colDec b a = b - z) by (apply colDecDec_unit, Hex).
    rewrite Hb0, (colIncDec_unit (b - z) z) by reflexivity. lia.
  - rewrite V2, Hmode, S1, R1, P7, insert_insert_eq. apply insert_id. rewrite R0. f_equal.
    unfold removeFromPool. rewrite Hside, Hr, Hpa. unfold addToPool. destruct side as [s|]; [|congruence].
    assert (Hpool : forall c, colDecDec (colInc c a) (unitQ z) = c).
    { intros c. assert (Hi : colInc c a = c + z) by (apply colIncDec_unit, Hex).
      rewrite Hi, (colDecDec_unit (c + z) z) by reflexivity. lia. }
    destruct r0 as [i m st sp ep t1 t2 sid iss pu pd prg ra].
    destruct s; cbn; f_equal; symmetry; apply Hpool.
  - exists (compensateRow (w_now w2) p). split; [rewrite V3; apply lookup_insert_eq|].
    destruct p; split; [reflexivity | discriminate].
Qed.

(** A failure that leaves no doubt: nothing was sent, or the chain client
    answered with an error that is not itself a timeout. *)
Definition definitive (w1 w2 : World) : Prop :=
  w_calls w2 = w_calls w1 \/
  exists err, env_client (w_calls w2) = Rejects err /\ includes (toLowerCase (err_message err)) "timeout" = false.

(** Waiting for a place among the concurrent calls took too long. *)
Definition queueTimedOut (e : Err) : bool :=
  bool_decide (err_class e = ClsBackpressure) && includes (toLowerCase (err_message e)) "timeout".

End Compensation.
