(* ===== verification/Bet.v ===== *)
(** * Bets and claims (src/src/services/bet.service.ts)

    The bet ledger ([Bet] rows, ACCEPTED -> SUBMITTED -> CONFIRMED -> RESOLVED,
    or FAILED) and the entry points that write it, and the claim ledger kept by
    [claimWinnings]. Audit records and log lines are not modelled. *)

From Stdlib Require Import ZArith QArith Lia.
From stdpp Require Import base gmap strings list pretty.
From S2P Require Import Prelude.
From S2P Require Import Numeric.
From S2P Require Import Errors.
From S2P Require Import Resilience.
From S2P Require Import Schema.
From S2P Require Import Store.
From S2P Require Import Soroban.
From S2P Require Import RoundService.

#[local] Open Scope Z_scope.

Record UpDownBetInput : Type := mkUpDownInput {
  ud_address : string; ud_amount : Q; ud_side : PredictionSide; ud_roundId : option string;
}.

Record PrecisionBetInput : Type := mkPrecisionInput {
  pi_address : string; pi_amount : Q; pi_predictedPrice : Q; pi_roundId : option string;
}.

Record BetResult : Type := mkBetResult {
  bres_state : string; bres_txHash : option string; bres_betId : string; bres_status : BetStatus;
}.

(** The row as returned to callers: money columns become numbers. *)
Record StoredBet : Type := mkStoredBet {
  sb_row : Bet; sb_amount : Q; sb_predictedPrice : option Q;
}.

Definition BetMode_str (m : BetMode) : string :=
  match m with MODE_UP_DOWN => "UP_DOWN" | MODE_PRECISION => "PRECISION" end.

(** An object field whose value may be [undefined]. *)
Definition optField (k : string) (o : option string) : list (string * Json) :=
  match o with Some s => [(k, JStr s)] | None => [] end.

Section Service.
Context `{Env} `{DecimalJs} `{PgNumeric}.

Definition mapBet (b : Bet) : StoredBet :=
  mkStoredBet b (toNumber (unitQ (b_amount b))) ((fun p => toNumber (unitQ p)) <$> b_predictedPrice b).

Definition resolveRoundId (gameMode : GameMode) (requestedRoundId : option string)
    : Svc (option string) :=
  match truthy requestedRoundId with
  | Some id =>
      o <- findUnique (Row := Round) id ;;
      match o with
      | None => throw (NotFoundError ("Round " +:+ id +:+ " not found") NOT_FOUND)
      | Some round =>
          if decide (r_mode round = gameMode) then ret (Some (r_id round))
          else throw (ValidationError ("Round " +:+ id +:+ " is a " +:+ GameMode_str (r_mode round)
                        +:+ " round and does not accept " +:+ GameMode_str gameMode +:+ " bets"))
      end
  | None =>
      activeRound <- findFirst (isActiveOf gameMode) (fun a b => r_startTime a <? r_startTime b) ;;
      ret (r_id <$> activeRound)
  end.

(** New users get the column defaults. *)
Definition getOrCreateUserId (address : string) : Svc string :=
  o <- findFirst (fun u : User => String.eqb (u_walletAddress u) address) unordered ;;
  match o with
  | Some u => ret (u_id u)
  | None =>
      id <- newId ;;
      u <- insertRow id (mkUser id address (1000 * 100000000) 0 0
             (JObj [("win"%string, JBool true); ("loss"%string, JBool true);
                    ("roundStart"%string, JBool false); ("bonus"%string, JBool true);
                    ("announcement"%string, JBool true)])) ;;
      ret (u_id u)
  end.

Definition betHashTaken (id : string) (txHash : option string) (d : DB) : bool :=
  match txHash with
  | None => false
  | Some h => existsb (fun b => negb (String.eqb (b_id b) id) &&
                                bool_decide (b_txHash b = Some h)) (rowsWhere (fun _ => true) d)
  end.

(** [bet.update] when it writes txHash: the column is unique. *)
Definition updateBetHash (id : string) (txHash : option string) (f : Bet -> Bet) : Svc Bet :=
  taken <- gets (fun w => betHashTaken id txHash (w_db w)) ;;
  if taken : bool then throw (PrismaError "P2002") else update id f.

Definition submittedRow (t : Z) (txHash : option string) (b : Bet) : Bet :=
  b {{ b_status := BET_SUBMITTED; b_submittedAt := Some t;
       b_txHash := match txHash with Some h => Some h | None => b_txHash b end }}.

Definition failedRow (t : Z) (reason : string) (b : Bet) : Bet :=
  b {{ b_status := BET_FAILED; b_failureReason := Some reason; b_failedAt := Some t }}.

Definition correlation (requestId : option string) (subject : string) : option string :=
  match truthy requestId with Some r => Some (r +:+ ":" +:+ subject)%string | None => None end.

Definition betFailedPayload (b : Bet) (reason : string) (requestId : option string) : Json :=
  JObj ([("betId"%string, JStr (b_id b)); ("userId"%string, JStr (b_userId b));
         ("roundId"%string, jOptStr (b_roundId b)); ("mode"%string, JStr (BetMode_str (b_mode b)));
         ("failureReason"%string, JStr reason)]
        ++ optField "requestId" requestId
        ++ optField "correlationId" (correlation requestId (b_id b)))%list.

(** [requestId && txHash ? `${requestId}:${txHash}` : requestId ?? txHash] *)
Definition acceptedCorrelation (requestId txHash : option string) : option string :=
  match truthy requestId, truthy txHash with
  | Some r, Some h => Some (r +:+ ":" +:+ h)%string
  | _, _ => match requestId with Some r => Some r | None => txHash end
  end.

Definition betAcceptedPayload (b : Bet) (request : list (string * Json)) (txHash requestId : option string)
    : Json :=
  JObj ([("betId"%string, JStr (b_id b)); ("userId"%string, JStr (b_userId b));
         ("roundId"%string, jOptStr (b_roundId b)); ("mode"%string, JStr (BetMode_str (b_mode b)))]
        ++ request
        ++ [("state"%string, JStr (if env_betStubMode then "stub" else "accepted"))]
        ++ optField "txHash" txHash ++ optField "requestId" requestId
        ++ optField "correlationId" (acceptedCorrelation requestId txHash))%list.

(** The part the two entry points share: create the row, call the chain inside
    the transaction unless in stub mode, record the outcome, announce. *)
Definition recordBody (mode : BetMode) (gameMode : GameMode) (address : string) (amount : Q)
    (side : option PredictionSide) (predictedPrice : option Q) (roundId : option string)
    (requestId : option string) (chainCall : Svc BetReply) (request : list (string * Json))
    : Svc (Bet * BetStatus * option BetReply) :=
  rid <- resolveRoundId gameMode roundId ;;
  userId <- getOrCreateUserId address ;;
  id <- newId ;;
  t <- now ;;
  bet <- insertRow id (mkBet id userId rid mode side (column (toDecimal amount))
           ((fun p => column (toDecimal p)) <$> predictedPrice) BET_ACCEPTED None None None None None
           None t) ;;
  outcome <-
    (if env_betStubMode then ret (BET_ACCEPTED, None)
     else catch
       (chainResult <- chainCall ;;
        t <- now ;;
        match truthy (br_txHash chainResult) with
        | Some h => updateBetHash id (Some h) (submittedRow t (Some h)) ;;; ret tt
        | None => update id (submittedRow t None) ;;; ret tt
        end ;;;
        ret (BET_SUBMITTED, Some chainResult))
       (fun error =>
          t <- now ;;
          update id (failedRow t (err_message error)) ;;;
          createOutboxEvent EV_BET_FAILED id "bet" (betFailedPayload bet (err_message error) requestId) ;;;
          throw error)) ;;
  let '(betStatus, chainResult) := (outcome : BetStatus * option BetReply) in
  let txHash := match chainResult with Some r => br_txHash r | None => None end in
  createOutboxEvent EV_BET_ACCEPTED id "bet" (betAcceptedPayload bet request txHash requestId) ;;;
  finalBet <- findUnique (Row := Bet) id ;;
  fb <- orThrow finalBet (PlainError "Cannot read properties of null") ;;
  ret (fb, betStatus, chainResult).

Definition betResult (r : Bet * BetStatus * option BetReply) : BetResult :=
  let '(bet, status, chainResult) := r in
  mkBetResult
    (if env_betStubMode then "stub"
     else match chainResult with Some c => br_state c | None => "accepted" end)
    (match chainResult with Some c => br_txHash c | None => None end)
    (b_id bet) status.

(** The members of the accepted event that come from the request. *)
Definition upDownRequest (input : UpDownBetInput) : list (string * Json) :=
  [("side"%string, JStr (PredictionSide_str (ud_side input)));
   ("amount"%string, JNum (Fin (ud_amount input)))].

Definition precisionRequest (input : PrecisionBetInput) : list (string * Json) :=
  [("amount"%string, JNum (Fin (pi_amount input)));
   ("predictedPrice"%string, JNum (Fin (pi_predictedPrice input)))].

Definition recordUpDownBet (input : UpDownBetInput) (requestId : option string) : Svc BetResult :=
  r <- transaction
         (recordBody MODE_UP_DOWN UP_DOWN (ud_address input) (ud_amount input) (Some (ud_side input))
            None (ud_roundId input) requestId
            (placeBet (ud_address input) (ud_amount input) (ud_side input))
            (upDownRequest input)) ;;
  ret (betResult r).

Definition recordPrecisionBet (input : PrecisionBetInput) (requestId : option string) : Svc BetResult :=
  r <- transaction
         (recordBody MODE_PRECISION LEGENDS (pi_address input) (pi_amount input) None
            (Some (pi_predictedPrice input)) (pi_roundId input) requestId
            (placePrecisionBet (pi_address input) (pi_amount input) (pi_predictedPrice input))
            (precisionRequest input)) ;;
  ret (betResult r).

(** ** Later transitions of a bet *)

Definition confirmedRow (t : Z) (txHash : string) (b : Bet) : Bet :=
  b {{ b_status := BET_CONFIRMED; b_txHash := Some txHash;
       b_submittedAt := Some (default t (b_submittedAt b)); b_confirmedAt := Some t;
       b_failureReason := None; b_failedAt := None }}.

Definition betConfirmedPayload (b : Bet) (txHash : string) (requestId : option string) : Json :=
  JObj ([("betId"%string, JStr (b_id b)); ("userId"%string, JStr (b_userId b));
         ("roundId"%string, jOptStr (b_roundId b)); ("mode"%string, JStr (BetMode_str (b_mode b)));
         ("txHash"%string, JStr txHash)]
        ++ optField "requestId" requestId
        ++ [("correlationId"%string, JStr (default txHash (correlation requestId txHash)))])%list.

Definition reconcileBet (betId txHash : string) (requestId : option string) : Svc (option StoredBet) :=
  transaction
    (o <- findUnique (Row := Bet) betId ;;
     match o with
     | None => ret None
     | Some b =>
         if bool_decide (b_status b = BET_CONFIRMED) && bool_decide (b_txHash b = Some txHash)
         then ret (Some (mapBet b))
         else if decide (b_status b = BET_RESOLVED) then ret (Some (mapBet b))
         else
           t <- now ;;
           updatedBet <- updateBetHash betId (Some txHash) (confirmedRow t txHash) ;;
           createOutboxEvent EV_BET_CONFIRMED betId "bet"
             (betConfirmedPayload updatedBet txHash requestId) ;;;
           ret (Some (mapBet updatedBet))
     end).

Definition betResolvedPayload (b : Bet) (won : bool) (payout : Q) (requestId : option string) : Json :=
  JObj ([("betId"%string, JStr (b_id b)); ("userId"%string, JStr (b_userId b));
         ("roundId"%string, JStr (default ""%string (b_roundId b)));
         ("mode"%string, JStr (BetMode_str (b_mode b)));
         ("won"%string, JBool won); ("payout"%string, JNum (Fin payout))]
        ++ optField "requestId" requestId
        ++ optField "correlationId" (correlation requestId (b_id b)))%list.

Definition resolvedRow (t : Z) (b : Bet) : Bet :=
  b {{ b_status := BET_RESOLVED; b_resolvedAt := Some t }}.

Definition resolveBet (betId : string) (won : bool) (payout : Q) (requestId : option string)
    : Svc (option StoredBet) :=
  o <- transaction
    (o <- findUnique (Row := Bet) betId ;;
     match o with
     | None => ret None
     | Some b =>
         if decide (b_status b = BET_RESOLVED) then ret (Some b)
         else
           t <- now ;;
           updatedBet <- update betId (resolvedRow t) ;;
           createOutboxEvent EV_BET_RESOLVED betId "bet"
             (betResolvedPayload updatedBet won payout requestId) ;;;
           ret (Some updatedBet)
     end) ;;
  ret (mapBet <$> o).

Definition failBet (betId reason : string) (requestId : option string) : Svc (option StoredBet) :=
  o <- transaction
    (o <- findUnique (Row := Bet) betId ;;
     match o with
     | None => ret None
     | Some b =>
         if decide (b_status b = BET_FAILED) then ret (Some b)
         else if decide (b_status b = BET_RESOLVED) then ret (Some b)
         else
           t <- now ;;
           updatedBet <- update betId (failedRow t reason) ;;
           createOutboxEvent EV_BET_FAILED betId "bet" (betFailedPayload updatedBet reason requestId) ;;;
           ret (Some updatedBet)
     end) ;;
  ret (mapBet <$> o).

Definition getBet (betId : string) : Svc (option StoredBet) :=
  o <- findUnique (Row := Bet) betId ;; ret (mapBet <$> o).

Record BetQuery : Type := mkBetQuery {
  q_userId : option string; q_roundId : option string; q_status : option BetStatus;
}.

(** A filter that is not given does not restrict. *)
Definition matchesQuery (q : BetQuery) (b : Bet) : bool :=
  match q_userId q with Some u => String.eqb u (b_userId b) | None => true end
  && match q_roundId q with Some r => bool_decide (b_roundId b = Some r) | None => true end
  && match q_status q with Some s => bool_decide (b_status b = s) | None => true end.

Definition getBets (q : BetQuery) : Svc (list StoredBet) :=
  bs <- findMany (matchesQuery q) (fun a b => b_createdAt a <? b_createdAt b) ;;
  ret (map mapBet bs).

Definition getReconciliationSummary : Svc (BetStatus -> nat) :=
  gets (fun w s => length (rowsWhere (fun b : Bet => bool_decide (b_status b = s)) (w_db w))).

(** ** Claims *)

Definition openClaim (address : string) (c : Claim) : bool :=
  String.eqb (c_walletAddress c) address
  && bool_decide (c_status c = CL_PENDING \/ c_status c = CL_SUBMITTED \/ c_status c = CL_FAILED).

Definition claimable (c : Claim) : bool :=
  bool_decide (c_status c = CL_PENDING \/ c_status c = CL_FAILED).

Definition newClaim (address : string) (f : Claim -> Claim) : Svc unit :=
  id <- newId ;;
  t <- now ;;
  insertRow id (f (mkClaim id None address None CL_PENDING None 0 None None t t)) ;;;
  ret tt.

Definition submittedClaim (result : ClaimResult) (t : Z) (c : Claim) : Claim :=
  c {{ c_status := CL_SUBMITTED;
       c_txHash := match cl_txHash result with Some h => Some h | None => c_txHash c end;
       c_amount := Some (colSet (cl_amount result)); c_lastError := None; c_updatedAt := t }}.

(** The unique index on Claim.txHash. *)
Definition claimHashTaken (id txHash : option string) (d : DB) : bool :=
  match txHash with
  | None => false
  | Some h => existsb (fun c => negb (bool_decide (id = Some (c_id c))) &&
                                bool_decide (c_txHash c = Some h)) (rowsWhere (fun _ => true) d)
  end.

Definition recordClaimSubmission (address : string) (result : ClaimResult)
    (existingClaimId : option string) : Svc unit :=
  taken <- gets (fun w => claimHashTaken existingClaimId (cl_txHash result) (w_db w)) ;;
  if taken : bool then throw (PrismaError "P2002")
  else
    t <- now ;;
    match truthy existingClaimId with
    | Some id => updateManyById id claimable (submittedClaim result t) ;;; ret tt
    | None => newClaim address (submittedClaim result t)
    end.

Definition failedClaim (message : string) (t : Z) (c : Claim) : Claim :=
  c {{ c_status := CL_FAILED; c_attempts := c_attempts c + 1; c_lastError := Some message;
       c_updatedAt := t }}.

Definition recordClaimFailure (address : string) (error : Err) (existingClaimId : option string)
    : Svc unit :=
  let message := slicePrefix 1000 (err_message error) in
  t <- now ;;
  match truthy existingClaimId with
  | Some id => updateManyById id claimable (failedClaim message t) ;;; ret tt
  | None => newClaim address (failedClaim message t)
  end.

Definition claimWinningsForUser (address : string) : Svc ClaimResult :=
  if env_betStubMode then ret (mkClaimResult "stub" 0 None)
  else
    open <- findFirst (openClaim address) (fun a b => c_createdAt b <? c_createdAt a) ;;
    match open with
    | Some c =>
        if decide (c_status c = CL_SUBMITTED) then
          ret (mkClaimResult "already-submitted" (toNumber_opt (unitQ <$> c_amount c)) (c_txHash c))
        else
          catch (result <- claimWinnings address ;;
                 recordClaimSubmission address result (Some (c_id c)) ;;;
                 ret result)
            (fun error => recordClaimFailure address error (Some (c_id c)) ;;; throw error)
    | None =>
        catch (result <- claimWinnings address ;;
               recordClaimSubmission address result None ;;;
               ret result)
          (fun error => recordClaimFailure address error None ;;; throw error)
    end.
End Service.

(** ** Properties *)

Section Frames.
Context `{Env} `{DecimalJs} `{PgNumeric}.

Lemma recordBody_base mode gm addr amount side price rid req call request :
  respects sameBase call ->
  respects sameBase (recordBody mode gm addr amount side price rid req call request).
Proof.
  intros Hc. unfold recordBody, resolveRoundId, getOrCreateUserId, updateBetHash. respects_auto.
Qed.

Lemma placeBet_base u a s : respects sameBase (placeBet u a s).
Proof. eapply sent_base. intros w. apply mutatingCall_sent. Qed.

Lemma placePrecisionBet_base u a p : respects sameBase (placePrecisionBet u a p).
Proof. eapply sent_base. intros w. apply mutatingCall_sent. Qed.

(** Recording a bet is all or nothing: when it fails, for whatever reason,
    the database is as before. So the FAILED status and the BET_FAILED event
    that the error path writes inside the transaction are rolled back with
    it, and a bet whose chain call failed leaves no trace. *)
Theorem recordBet_error_leaves_no_trace ud pi req w :
  w_base w = None ->
  (forall e w', recordUpDownBet ud req w = (inl e, w') -> w_db w' = w_db w) /\
  (forall e w', recordPrecisionBet pi req w = (inl e, w') -> w_db w' = w_db w).
Proof.
  intros Hb. split; intros e w' Hr; unfold recordUpDownBet, recordPrecisionBet, bind in Hr;
    match type of Hr with
    | context [transaction ?m w] => destruct (transaction m w) as [[e1|x] w1] eqn:Et
    end; try discriminate; injection Hr as <- <-;
    apply transaction_inl in Et; [apply Et | exact Hb | | apply Et | exact Hb |].
  - apply recordBody_base, placeBet_base.
  - apply recordBody_base, placePrecisionBet_base.
Qed.
End Frames.

Section BetStates.
Context `{Env} `{DecimalJs} `{PgNumeric}.

(** The edges of the bet state machine after recording. *)
Definition betEdge (from to : BetStatus) : Prop :=
  from <> BET_RESOLVED /\
  (to = BET_CONFIRMED \/ to = BET_RESOLVED \/ (to = BET_FAILED /\ from <> BET_FAILED)).

(** Databases before and after one of the three later operations: at most the
    row [id] changes, along an edge, and exactly then one event of the
    matching type is added to the outbox. *)
Definition betStep (id : string) (d d' : DB) : Prop :=
  d' = d \/
  exists b b' ev, bets d !! id = Some b /\ betEdge (b_status b) (b_status b') /\
    bets d' = <[id := b']> (bets d) /\ outbox d !! o_id ev = None /\
    outbox d' = <[o_id ev := ev]> (outbox d) /\ o_aggregateId ev = id /\
    o_eventType ev = match b_status b' with
                     | BET_CONFIRMED => EV_BET_CONFIRMED
                     | BET_RESOLVED => EV_BET_RESOLVED
                     | _ => EV_BET_FAILED
                     end.

(** Row then event, as every move of a bet writes them. *)
Lemma row_then_event id b' ty payload w ev w2 :
  createOutboxEvent ty id "bet" payload (final (putRow id b' : Svc unit) w) = (inr ev, w2) ->
  bets (w_db w2) = <[id := b']> (bets (w_db w)) /\ outbox (w_db w) !! o_id ev = None /\
  outbox (w_db w2) = <[o_id ev := ev]> (outbox (w_db w)) /\ o_aggregateId ev = id /\ o_eventType ev = ty.
Proof.
  intros Hc. unfold createOutboxEvent in Hc.
  apply bind_inr_inv in Hc as (eid & w3 & Hi & Hc). apply bind_inr_inv in Hc as (t & w4 & Ht & Hc).
  injection Ht as <- <-. apply insertRow_inv in Hc as (Hf & -> & ->).
  unfold newId, bind, gets, modify, ret in Hi. injection Hi as <- <-.
  open_world w. cbn in *. auto.
Qed.

Lemma betStep_write id b b' ty payload w w1 ev w2 :
  bets (w_db w) !! id = Some b -> betEdge (b_status b) (b_status b') ->
  w1 = final (putRow id b' : Svc unit) w ->
  createOutboxEvent ty id "bet" payload w1 = (inr ev, w2) ->
  ty = match b_status b' with
       | BET_CONFIRMED => EV_BET_CONFIRMED | BET_RESOLVED => EV_BET_RESOLVED | _ => EV_BET_FAILED
       end ->
  betStep id (w_db w) (w_db w2).
Proof.
  intros Hb He -> Hc ->. right. apply row_then_event in Hc as (H1' & H2' & H3' & H4' & H5').
  exists b, b', ev. auto 10.
Qed.

Lemma betStep_tx {A} id (m : Svc A) w :
  w_base w = None -> respects sameBase m ->
  (forall w0 a w1, m w0 = (inr a, w1) -> betStep id (w_db w0) (w_db w1)) ->
  betStep id (w_db w) (w_db (final (transaction m) w)).
Proof.
  intros Hb Hm Hok. apply (transaction_db (betStep id) m w Hb Hm); [intros d; left; reflexivity|].
  intros w0 a w1 _. apply Hok.
Qed.

(** The tail all three operations share: update the row, announce it. *)
Lemma betStep_update {A} id b f ty (payload : Bet -> Json) (g : Bet -> A) w a w' :
  bets (w_db w) !! id = Some b -> betEdge (b_status b) (b_status (f b)) ->
  ty = match b_status (f b) with
       | BET_CONFIRMED => EV_BET_CONFIRMED | BET_RESOLVED => EV_BET_RESOLVED | _ => EV_BET_FAILED
       end ->
  (ub <- update id f ;; createOutboxEvent ty id "bet" (payload ub) ;;; ret (g ub)) w = (inr a, w') ->
  betStep id (w_db w) (w_db w').
Proof.
  intros Hb He Hty Hr. apply bind_inr_inv in Hr as (ub & w3 & Hu & Hr).
  apply bind_inr_inv in Hr as (ev & w4 & Hev & Hr). injection Hr as _ <-.
  apply update_inv in Hu as (b0 & Hb0 & -> & ->). cbn in Hb0. rewrite Hb in Hb0. injection Hb0 as <-.
  exact (betStep_write id b (f b) ty _ w _ ev w4 Hb He eq_refl Hev Hty).
Qed.

Lemma updateBetHash_inv {A} id h f (k : Bet -> Svc A) w a w' :
  (ub <- updateBetHash id h f ;; k ub) w = (inr a, w') -> (ub <- update id f ;; k ub) w = (inr a, w').
Proof.
  intros Hr. apply bind_inr_inv in Hr as (ub & w1 & Hu & Hr). unfold updateBetHash in Hu.
  apply bind_inr_inv in Hu as (tk & w2 & Ht & Hu). injection Ht as _ <-. destruct tk; [discriminate|].
  rewrite (bind_ok _ _ _ _ _ Hu). exact Hr.
Qed.

(** Open the read of the row and the clock; close the branches that return. *)
Ltac bet_row Hr b :=
  let o := fresh in let w2 := fresh "w2" in let Ho := fresh "Ho" in
  apply bind_inr_inv in Hr as (o & w2 & Ho & Hr); injection Ho as Ho <-;
  destruct o as [b|]; [|injection Hr as _ <-; left; reflexivity];
  repeat match type of Hr with
  | (if ?c then _ else _) _ = _ =>
      let Hn := fresh "Hn" in destruct c as [|] eqn:Hn; [injection Hr as _ <-; left; reflexivity|]
  end;
  let t := fresh "t" in let w3 := fresh "w3" in let Ht := fresh "Ht" in
  apply bind_inr_inv in Hr as (t & w3 & Ht & Hr); injection Ht as _ <-.

(** C14. The bet state machine. Confirming, resolving or failing a bet either
    changes nothing or moves that one bet along an edge, and in the same
    transaction appends exactly one outbox event of the matching type. *)
Theorem bet_operations_step id txHash won payout reason req w :
  w_base w = None ->
  betStep id (w_db w) (w_db (final (reconcileBet id txHash req) w)) /\
  betStep id (w_db w) (w_db (final (resolveBet id won payout req) w)) /\
  betStep id (w_db w) (w_db (final (failBet id reason req) w)).
Proof.
  intros Hb. unfold resolveBet, failBet. rewrite !final_fmap.
  split; [|split]; apply betStep_tx; try exact Hb;
    try (unfold updateBetHash; respects_auto); intros w0 a w1 Hr; bet_row Hr b;
    try apply updateBetHash_inv in Hr;
    (eapply betStep_update; [exact Ho | | | exact Hr]); destruct b; cbn in *; try reflexivity;
    unfold betEdge; repeat split; auto.
Qed.
End BetStates.

Section Claims.
Context `{Env} `{DecimalJs} `{PgNumeric}.

(** No double claim: while the only open claim of an address is SUBMITTED,
    claiming again sends nothing to the chain and changes nothing; it reports
    the submission in flight. *)
Theorem claim_in_flight address w k c :
  env_betStubMode = false -> claims (w_db w) !! k = Some c -> openClaim address c = true ->
  c_status c = CL_SUBMITTED ->
  (forall k' c', claims (w_db w) !! k' = Some c' -> openClaim address c' = true -> c' = c) ->
  claimWinningsForUser address w
  = (inr (mkClaimResult "already-submitted" (toNumber_opt (unitQ <$> c_amount c)) (c_txHash c)), w).
Proof.
  intros Hs Hk Ho Hst Huniq. unfold claimWinningsForUser. rewrite Hs.
  destruct (findFirst (openClaim address) (fun a b : Claim => c_createdAt b <? c_createdAt a) w)
    as [[e|o] w1] eqn:Ef; [discriminate|].
  rewrite (bind_ok _ _ _ _ _ Ef). apply findFirst_inv in Ef as [-> Hf].
  destruct o as [c'|].
  - destruct Hf as [[k' Hk'] Hof]. rewrite (Huniq k' c' Hk' Hof).
    destruct (decide (c_status c = CL_SUBMITTED)); [reflexivity | contradiction].
  - specialize (Hf k c Hk). congruence.
Qed.

(** A claim outside [claimable] is out of reach of the user's path. *)
Definition keepsSettled (w w' : World) : Prop :=
  forall k c, claims (w_db w) !! k = Some c -> claimable c = false -> claims (w_db w') !! k = Some c.

#[local] Instance keepsSettled_preorder : PreOrder keepsSettled.
Proof. split; [intros w k c; auto | intros x y z H1' H2' k c Hk Hc; eauto]. Qed.

Lemma agree_keepsSettled {A} (m : Svc A) : respects (agree claims) m -> respects keepsSettled m.
Proof. intros Hm w k c Hk _. destruct (Hm w) as [-> _]. exact Hk. Qed.

Lemma newClaim_settled address f : respects keepsSettled (newClaim address f).
Proof.
  unfold newClaim. apply respects_bind; [apply _ | apply agree_keepsSettled; respects_auto|]. intros id.
  apply respects_bind; [apply _ | apply agree_keepsSettled; respects_auto|]. intros t.
  apply respects_bind; [apply _ | | intros; apply respects_ret, _].
  intros w k c Hk Hc. unfold final. destruct (insertRow _ _ w) as [[e|r] w1] eqn:Ei.
  - unfold insertRow, bind, findUnique, gets in Ei. cbn in Ei.
    destruct (claims (w_db w) !! id); [injection Ei as _ <-; exact Hk | discriminate].
  - apply insertRow_inv in Ei as (Hf & _ & ->). cbn [snd]. rewrite claims_put.
    rewrite lookup_insert_ne; [exact Hk|]. cbn in Hf. congruence.
Qed.

Lemma updateClaim_settled id f : respects keepsSettled (updateManyById id claimable f).
Proof.
  intros w k c Hk Hc. unfold final, updateManyById, bind, findUnique, gets. cbn.
  destruct (claims (w_db w) !! id) as [r|] eqn:Er; [|exact Hk].
  destruct (claimable r) eqn:Ec; [|exact Hk].
  transitivity (<[id := f r]> (claims (w_db w)) !! k); [exact (f_equal (fun m => m !! k) (claims_put id (f r) w))|].
  destruct (decide (id = k)) as [->|Hn]; [congruence|]. rewrite lookup_insert_ne; assumption.
Qed.

(** Claiming never touches a claim that is submitted, confirmed or under
    manual review, whatever the chain answers. *)
Theorem claim_keeps_settled address w k c :
  claims (w_db w) !! k = Some c -> claimable c = false ->
  claims (w_db (final (claimWinningsForUser address) w)) !! k = Some c.
Proof.
  enough (Hr : respects keepsSettled (claimWinningsForUser address)) by (intros Hk Hc; exact (Hr w k c Hk Hc)).
  assert (Hsub : forall r o, respects keepsSettled (recordClaimSubmission address r o)).
  { intros r o. unfold recordClaimSubmission. respects_auto;
      first [apply updateClaim_settled | apply newClaim_settled | apply agree_keepsSettled; respects_auto]. }
  assert (Hfail : forall e o, respects keepsSettled (recordClaimFailure address e o)).
  { intros e o. unfold recordClaimFailure. respects_auto;
      first [apply updateClaim_settled | apply newClaim_settled | apply agree_keepsSettled; respects_auto]. }
  unfold claimWinningsForUser. respects_auto;
    first [apply agree_keepsSettled; respects_auto | apply Hsub | apply Hfail].
Qed.
End Claims.
