(* ===== verification/BetReconciliation.v ===== *)
(** * Bet worker (src/src/services/reconciliation.service.ts)

    Settles bets left SUBMITTED from the status of their transaction. Each move
    re-reads the bet in its own transaction and writes one outbox event with
    it. Every iteration of the loop ends by incrementing at most one counter
    and adding one detail, so the result is passed and returned by value. *)

From Stdlib Require Import ZArith QArith Lia.
From stdpp Require Import base gmap strings list pretty.
From S2P Require Import Prelude.
From S2P Require Import Numeric.
From S2P Require Import Errors.
From S2P Require Import Resilience.
From S2P Require Import Schema.
From S2P Require Import Store.
From S2P Require Import Soroban.
From S2P Require Import Bet.

#[local] Open Scope Z_scope.

Record ReconciliationDetail : Type := mkDetail {
  rd_betId : string;
  rd_txHash : option string;
  rd_previousStatus : BetStatus;
  rd_newStatus : BetStatus;
  rd_chainStatus : TransactionStatus;
}.

Record ReconciliationResult : Type := mkReconciliation {
  rc_checked : nat;
  rc_confirmed : nat;
  rc_failed : nat;
  rc_errors : nat;
  rc_details : list ReconciliationDetail;
}.

Record ReconciliationConfig : Type := mkReconciliationConfig {
  rcfg_maxAgeMs : Z;
  rcfg_batchSize : nat;
}.

Definition DEFAULT_RECONCILIATION : ReconciliationConfig := mkReconciliationConfig (5 * 60 * 1000) 50.

Definition noBets : ReconciliationResult := mkReconciliation 0 0 0 0 [].

Definition incRcChecked (r : ReconciliationResult) := r {{ rc_checked := S (rc_checked r) }}.
Definition incRcConfirmed (r : ReconciliationResult) := r {{ rc_confirmed := S (rc_confirmed r) }}.
Definition incRcFailed (r : ReconciliationResult) := r {{ rc_failed := S (rc_failed r) }}.
Definition incRcErrors (r : ReconciliationResult) := r {{ rc_errors := S (rc_errors r) }}.
Definition pushDetail (d : ReconciliationDetail) (r : ReconciliationResult) :=
  r {{ rc_details := (rc_details r ++ [d])%list }}.

Section Worker.
Context `{Env} `{DecimalJs} `{PgNumeric}.

Definition chainConfirmed (t : Z) (txHash : string) (b : Bet) : Bet :=
  b {{ b_status := BET_CONFIRMED; b_txHash := Some txHash; b_confirmedAt := Some t }}.

Definition movePayload (betId userId : string) (roundId : option string) (mode : BetMode)
    (last : string * Json) : Json :=
  JObj [("betId"%string, JStr betId); ("userId"%string, JStr userId); ("roundId"%string, jOptStr roundId);
        ("mode"%string, JStr (BetMode_str mode)); last].

Definition transitionToConfirmed (betId txHash userId : string) (roundId : option string)
    (mode : BetMode) : Svc unit :=
  transaction
    (currentBet <- findUnique (Row := Bet) betId ;;
     match currentBet with
     | None => ret tt
     | Some b =>
         if decide (b_status b <> BET_SUBMITTED) then ret tt
         else
           t <- now ;;
           updateBetHash betId (Some txHash) (chainConfirmed t txHash) ;;;
           createOutboxEvent EV_BET_CONFIRMED betId "bet"
             (movePayload betId userId roundId mode ("txHash"%string, JStr txHash)) ;;;
           ret tt
     end).

Definition transitionToFailed (betId userId : string) (roundId : option string) (mode : BetMode)
    (reason : string) : Svc unit :=
  transaction
    (currentBet <- findUnique (Row := Bet) betId ;;
     match currentBet with
     | None => ret tt
     | Some b =>
         if decide (b_status b <> BET_SUBMITTED) then ret tt
         else
           t <- now ;;
           update betId (failedRow t reason) ;;;
           createOutboxEvent EV_BET_FAILED betId "bet"
             (movePayload betId userId roundId mode ("failureReason"%string, JStr reason)) ;;;
           ret tt
     end).

Definition detailOf (bet : Bet) (newStatus : BetStatus) (chainStatus : TransactionStatus)
    : ReconciliationDetail :=
  mkDetail (b_id bet) (b_txHash bet) (b_status bet) newStatus chainStatus.

Definition onChainFailure (chainStatus : TransactionStatus) : string :=
  default "Transaction failed on-chain"%string (ts_error chainStatus).

(** One iteration; the query only returns bets with a hash. *)
Definition reconcileSubmittedBet (result : ReconciliationResult) (bet : Bet) : Svc ReconciliationResult :=
  let result := incRcChecked result in
  let txHash := default ""%string (b_txHash bet) in
  catch
    (chainStatus <- getTransactionStatus txHash ;;
     if ts_confirmed chainStatus then
       if ts_successful chainStatus then
         transitionToConfirmed (b_id bet) txHash (b_userId bet) (b_roundId bet) (b_mode bet) ;;;
         ret (pushDetail (detailOf bet BET_CONFIRMED chainStatus) (incRcConfirmed result))
       else
         transitionToFailed (b_id bet) (b_userId bet) (b_roundId bet) (b_mode bet) (onChainFailure chainStatus) ;;;
         ret (pushDetail (detailOf bet BET_FAILED chainStatus) (incRcFailed result))
     else ret (pushDetail (detailOf bet (b_status bet) chainStatus) result))
    (fun error =>
       ret (pushDetail (detailOf bet (b_status bet)
                          (mkTransactionStatus false false (Some (err_message error))))
              (incRcErrors result))).

(** [submittedAt: { lt }] leaves out rows without a value. *)
Definition isStrandedBet (cutoff : Z) (b : Bet) : bool :=
  bool_decide (b_status b = BET_SUBMITTED)
  && match b_txHash b with Some _ => true | None => false end
  && match b_submittedAt b with Some t => t <? cutoff | None => false end.

Definition laterSubmitted (a b : Bet) : bool :=
  default 0 (b_submittedAt b) <? default 0 (b_submittedAt a).

Definition reconcileSubmittedBets (cfg : ReconciliationConfig) : Svc ReconciliationResult :=
  t <- now ;;
  strandedBets <- findMany (isStrandedBet (t - rcfg_maxAgeMs cfg)) laterSubmitted ;;
  foldM reconcileSubmittedBet noBets (take (rcfg_batchSize cfg) strandedBets).

Definition reconcileBetById (betId : string) : Svc ReconciliationResult :=
  o <- findUnique (Row := Bet) betId ;;
  match o with
  | None => ret (mkReconciliation 0 0 0 1 [])
  | Some bet =>
      match (if decide (b_status bet = BET_SUBMITTED) then truthy (b_txHash bet) else None) with
      | None => ret (mkReconciliation 0 0 0 1 [])
      | Some txHash =>
          let result := incRcChecked noBets in
          catch
            (chainStatus <- getTransactionStatus txHash ;;
             if ts_confirmed chainStatus && ts_successful chainStatus then
               transitionToConfirmed (b_id bet) txHash (b_userId bet) (b_roundId bet) (b_mode bet) ;;;
               ret (pushDetail (detailOf bet BET_CONFIRMED chainStatus) (incRcConfirmed result))
             else if ts_confirmed chainStatus && negb (ts_successful chainStatus) then
               transitionToFailed (b_id bet) (b_userId bet) (b_roundId bet) (b_mode bet)
                 (onChainFailure chainStatus) ;;;
               ret (pushDetail (detailOf bet BET_FAILED chainStatus) (incRcFailed result))
             else ret (pushDetail (detailOf bet (b_status bet) chainStatus) result))
            (fun _ => ret (incRcErrors result))
      end
  end.
End Worker.

(** ** Properties *)

Section Moves.
Context `{Env} `{DecimalJs} `{PgNumeric}.

(** The bet [id] leaves SUBMITTED for CONFIRMED or FAILED, and the one event of
    that move is appended. *)
Definition betMove (id : string) (d d' : DB) : Prop :=
  exists b b' ev, bets d !! id = Some b /\ b_status b = BET_SUBMITTED /\
    (b_status b' = BET_CONFIRMED \/ b_status b' = BET_FAILED) /\
    bets d' = <[id := b']> (bets d) /\ outbox d !! o_id ev = None /\
    outbox d' = <[o_id ev := ev]> (outbox d) /\ o_aggregateId ev = id /\
    o_eventType ev = (if decide (b_status b' = BET_CONFIRMED) then EV_BET_CONFIRMED else EV_BET_FAILED).

(** A run of moves, in order. *)
Inductive betMoves : list string -> DB -> DB -> Prop :=
| bm_nil d : betMoves [] d d
| bm_cons id ids d d1 d2 : betMove id d d1 -> betMoves ids d1 d2 -> betMoves (id :: ids) d d2.

Lemma betMoves_app ids1 ids2 d1 d2 d3 :
  betMoves ids1 d1 d2 -> betMoves ids2 d2 d3 -> betMoves (ids1 ++ ids2) d1 d3.
Proof. induction 1; intros H2'; cbn; [exact H2' | econstructor; eauto]. Qed.

(** A bet that has moved does not move again. *)
Lemma betMoves_settled ids d d' : betMoves ids d d' ->
  forall id b, bets d !! id = Some b -> b_status b <> BET_SUBMITTED ->
    id ∉ ids /\ bets d' !! id = Some b.
Proof.
  induction 1 as [d|id0 ids d d1 d2 Hm Hms IH]; intros id b Hb Hs.
  { split; [apply not_elem_of_nil | exact Hb]. }
  destruct Hm as (b0 & b1 & ev & Hb0 & Hs0 & _ & Hb1 & _).
  assert (id <> id0) by congruence.
  destruct (IH id b) as [Hn Hb']; [rewrite Hb1, lookup_insert_ne; congruence | exact Hs|].
  split; [|exact Hb']. apply not_elem_of_cons. auto.
Qed.

Lemma betMoves_NoDup ids d d' : betMoves ids d d' -> NoDup ids.
Proof.
  induction 1 as [d|id ids d d1 d2 Hm Hms IH]; constructor; [|exact IH].
  destruct Hm as (b0 & b1 & ev & _ & _ & Ht & Hb1 & _).
  apply (betMoves_settled ids d1 d2 Hms id b1).
  - rewrite Hb1. apply lookup_insert_eq.
  - destruct Ht; congruence.
Qed.

(** Exactly one event per moved bet. *)
Lemma betMoves_outbox ids d d' : betMoves ids d d' ->
  size (outbox d') = (length ids + size (outbox d))%nat.
Proof.
  induction 1 as [d|id ids d d1 d2 Hm Hms IH]; [reflexivity|].
  destruct Hm as (b0 & b1 & ev & _ & _ & _ & _ & Hf & Ho & _).
  rewrite IH, Ho, map_size_insert_None by exact Hf. cbn. lia.
Qed.

(** At most one move of [id]. *)
Definition oneMove (id : string) (w w' : World) : Prop :=
  w_base w = None -> w_base w' = None /\ (w_db w' = w_db w \/ betMove id (w_db w) (w_db w')).

(** The writes of a move, after the row was read as SUBMITTED. *)
Lemma move_write id b f ty payload w w' :
  bets (w_db w) !! id = Some b -> b_status b = BET_SUBMITTED ->
  (b_status (f b) = BET_CONFIRMED \/ b_status (f b) = BET_FAILED) ->
  ty = (if decide (b_status (f b) = BET_CONFIRMED) then EV_BET_CONFIRMED else EV_BET_FAILED) ->
  (update id f ;;; createOutboxEvent ty id "bet" payload ;;; ret tt) w = (inr tt, w') ->
  betMove id (w_db w) (w_db w').
Proof.
  intros Hb Hs Hf -> Hr. apply bind_inr_inv in Hr as (ub & w1 & Hu & Hr).
  apply bind_inr_inv in Hr as (ev & w2 & Hev & Hr). injection Hr as <-.
  apply update_inv in Hu as (b0 & Hb0 & -> & ->). cbn in Hb0. rewrite Hb in Hb0. injection Hb0 as <-.
  apply row_then_event in Hev as (H1' & H2' & H3' & H4' & H5'). exists b, (f b), ev. auto 10.
Qed.

Lemma oneMove_tx id (m : Svc unit) :
  respects sameBase m ->
  (forall w w', m w = (inr tt, w') -> w_db w' = w_db w \/ betMove id (w_db w) (w_db w')) ->
  respects (oneMove id) (transaction m).
Proof.
  intros Hm Hok w Hb.
  destruct (transaction_db (fun d d' => d' = d \/ betMove id d d') m w Hb Hm) as [Hd Hn]; auto.
  intros w0 [] w1 _. apply Hok.
Qed.

(** Open the read of the row; the branches that return early do nothing. *)
Ltac submitted_row Hr b :=
  let o := fresh in let w2 := fresh "w2" in let Ho := fresh "Ho" in
  apply bind_inr_inv in Hr as (o & w2 & Ho & Hr); injection Ho as Ho <-;
  destruct o as [b|]; [|injection Hr as <-; left; reflexivity];
  destruct (decide (b_status b <> BET_SUBMITTED)) as [|Hs]; [injection Hr as <-; left; reflexivity|];
  apply dec_stable in Hs; right;
  let t := fresh "t" in let w3 := fresh "w3" in let Ht := fresh "Ht" in
  apply bind_inr_inv in Hr as (t & w3 & Ht & Hr); injection Ht as _ <-.

Lemma confirm_move id h u rid mode : respects (oneMove id) (transitionToConfirmed id h u rid mode).
Proof.
  apply oneMove_tx; [unfold updateBetHash; respects_auto|]. intros w w' Hr. submitted_row Hr b.
  apply updateBetHash_inv in Hr. eapply move_write; [exact Ho | exact Hs | | | exact Hr]; destruct b; cbn; auto.
Qed.

Lemma fail_move id u rid mode reason : respects (oneMove id) (transitionToFailed id u rid mode reason).
Proof.
  apply oneMove_tx; [respects_auto|]. intros w w' Hr. submitted_row Hr b.
  eapply move_write; [exact Ho | exact Hs | | | exact Hr]; destruct b; cbn; auto.
Qed.

Definition sameDb (w w' : World) : Prop := w_db w' = w_db w /\ w_base w' = w_base w.

Lemma status_sameDb h w : sameDb w (final (getTransactionStatus h) w).
Proof. destruct (getTransactionStatus_sent h w) as (E1 & E2 & _). split; assumption. Qed.

Lemma oneMove_after id w w1 w2 : sameDb w w1 -> oneMove id w1 w2 -> oneMove id w w2.
Proof. intros [E1 E2] Hm Hb. rewrite <- E1. apply Hm. congruence. Qed.

Lemma oneMove_same id w w' : sameDb w w' -> oneMove id w w'.
Proof. intros [E1 E2] Hb. split; [congruence | left; exact E1]. Qed.

(** A handler that only counts. *)
Lemma final_count {A} (m : Svc A) (h : Err -> A) w : final (catch m (fun e => ret (h e))) w = final m w.
Proof. unfold final, catch. destruct (m w) as [[]]; reflexivity. Qed.

Lemma reconcileSubmittedBet_move r b : respects (oneMove (b_id b)) (reconcileSubmittedBet r b).
Proof.
  intros w. unfold reconcileSubmittedBet. rewrite final_count.
  pose proof (status_sameDb (default ""%string (b_txHash b)) w) as Hs.
  apply (final_bind_cases sameDb); [intros w0; apply status_sameDb| |].
  - intros st w1 _ Hd. apply (oneMove_after _ _ w1 _ Hd).
    destruct (ts_confirmed st); [destruct (ts_successful st)|].
    + rewrite (final_fmap _ (fun _ => pushDetail _ _)). apply confirm_move.
    + rewrite (final_fmap _ (fun _ => pushDetail _ _)). apply fail_move.
    + apply oneMove_same. split; reflexivity.
  - intros e w1 _ Hd. apply oneMove_same, Hd.
Qed.

(** The counters of a result agree with its details. *)
Definition countWhere (f : TransactionStatus -> bool) (r : ReconciliationResult) : nat :=
  length (List.filter (fun d => f (rd_chainStatus d)) (rc_details r)).

Definition succeeded (s : TransactionStatus) : bool := ts_confirmed s && ts_successful s.
Definition reverted (s : TransactionStatus) : bool := ts_confirmed s && negb (ts_successful s).

Record accounts (n : nat) (r : ReconciliationResult) : Prop := {
  ac_checked : rc_checked r = n;
  ac_details : length (rc_details r) = n;
  ac_confirmed : rc_confirmed r = countWhere succeeded r;
  ac_failed : rc_failed r = countWhere reverted r;
  ac_errors : (rc_confirmed r + rc_failed r + rc_errors r <= n)%nat;
}.

Ltac account :=
  apply returns_ret; split; cbn; unfold countWhere, succeeded, reverted in *; cbn;
  rewrite ?length_app, ?List.filter_app, ?length_app; cbn;
  repeat match goal with H : ts_confirmed _ = _ |- _ => rewrite H | H : ts_successful _ = _ |- _ => rewrite H end;
  cbn; lia.

Lemma reconcileSubmittedBet_counts n r b :
  accounts n r -> returns (accounts (S n)) (reconcileSubmittedBet r b).
Proof.
  intros [Hc Hd Ho Hf He]. unfold reconcileSubmittedBet. destruct r as [ch co fa er de].
  unfold countWhere, succeeded, reverted in *; cbn in *.
  apply returns_catch; [|intros e; account].
  apply returns_bind. intros st.
  destruct (ts_confirmed st) eqn:Hcf; [destruct (ts_successful st) eqn:Hsu|];
    repeat (apply returns_bind; intros ?); account.
Qed.

(** ** The guarantees of a pass *)

Lemma pass_moves l : forall r w, w_base w = None ->
  exists ids, betMoves ids (w_db w) (w_db (final (foldM reconcileSubmittedBet r l) w)) /\
    forall id, id ∈ ids -> id ∈ map b_id l.
Proof.
  induction l as [|b l IH]; intros r w Hb.
  { exists []. split; [constructor | intros id Hin; inversion Hin]. }
  cbn [foldM]. destruct (reconcileSubmittedBet r b w) as [[e|r1] w1] eqn:Er.
  { unfold reconcileSubmittedBet, catch in Er. destruct (bind _ _ _) as [[]]; discriminate. }
  destruct (reconcileSubmittedBet_move r b w Hb) as [Hb1 Hm]. unfold final in Hb1, Hm. rewrite Er in Hb1, Hm.
  cbn [snd] in *. destruct (IH r1 w1 Hb1) as (ids & Hms & Hin).
  unfold final in *. rewrite (bind_ok _ _ _ _ _ Er).
  destruct Hm as [E|Hm].
  - exists ids. rewrite <- E. split; [exact Hms|]. intros id Hi. right. auto.
  - exists (b_id b :: ids). split; [econstructor; eassumption|].
    intros id Hi. apply elem_of_cons in Hi as [->|Hi]; [left | right; auto].
Qed.

(** A pass settles each bet once. Whatever the chain answers, the bets and
    events after a pass come from a sequence of moves of different stranded
    bets, each out of SUBMITTED to CONFIRMED or FAILED with the one event of
    that move; bets that are not SUBMITTED are as before. *)
Theorem reconcileSubmittedBets_moves cfg w :
  w_base w = None ->
  let w' := final (reconcileSubmittedBets cfg) w in
  exists ids, NoDup ids /\ betMoves ids (w_db w) (w_db w') /\
    size (outbox (w_db w')) = (length ids + size (outbox (w_db w)))%nat /\
    (forall id b, bets (w_db w) !! id = Some b -> b_status b <> BET_SUBMITTED ->
       bets (w_db w') !! id = Some b).
Proof.
  intros Hb w'. set (rows := take (rcfg_batchSize cfg) (sortBy laterSubmitted
    (rowsWhere (isStrandedBet (w_now w - rcfg_maxAgeMs cfg)) (w_db w)))).
  destruct (pass_moves rows noBets w Hb) as (ids & Hm & _).
  change (final (foldM reconcileSubmittedBet noBets rows) w) with w' in Hm.
  exists ids. split; [exact (betMoves_NoDup _ _ _ Hm)|]. split; [exact Hm|].
  split; [exact (betMoves_outbox _ _ _ Hm)|]. intros id b Hk Hs. apply (betMoves_settled _ _ _ Hm id b Hk Hs).
Qed.

(** A pass always returns, and reports what it did: one detail per stranded
    bet up to the batch size, the confirmed and failed counts being the numbers
    of details with a successful and a reverted transaction. *)
Theorem reconcileSubmittedBets_accounts cfg w :
  exists r w', reconcileSubmittedBets cfg w = (inr r, w') /\
    accounts (Nat.min (rcfg_batchSize cfg)
                (length (rowsWhere (isStrandedBet (w_now w - rcfg_maxAgeMs cfg)) (w_db w)))) r.
Proof.
  set (rows := take (rcfg_batchSize cfg) (sortBy laterSubmitted
    (rowsWhere (isStrandedBet (w_now w - rcfg_maxAgeMs cfg)) (w_db w)))).
  assert (Hrun : reconcileSubmittedBets cfg w = foldM reconcileSubmittedBet noBets rows w) by reflexivity.
  destruct (neverThrows_foldM reconcileSubmittedBet rows noBets
              (fun b x => neverThrows_catch _ _ (fun _ => neverThrows_ret _)) w) as (r & w' & Hr).
  exists r, w'. rewrite Hrun. split; [exact Hr|].
  assert (Hl : (0 + length rows)%nat = Nat.min (rcfg_batchSize cfg)
    (length (rowsWhere (isStrandedBet (w_now w - rcfg_maxAgeMs cfg)) (w_db w)))).
  { unfold rows. rewrite length_take, sortBy_Permutation. reflexivity. }
  rewrite <- Hl. apply (returns_foldM accounts reconcileSubmittedBet rows 0 noBets
    (fun n b x => reconcileSubmittedBet_counts n b x)) with (w := w) (w' := w'); [|exact Hr].
  split; cbn; lia.
Qed.

(** The manual entry point does to a bet what the pass does: for a
    SUBMITTED bet with a transaction hash it leaves the same world behind and
    reports the same counts; every other bet is left alone and reported as an
    error. *)
Theorem reconcileBetById_agrees id w :
  match bets (w_db w) !! id with
  | Some bet =>
      if bool_decide (b_status bet = BET_SUBMITTED) && bool_decide (truthy (b_txHash bet) <> None) then
        exists r r' w', reconcileBetById id w = (inr r, w') /\
          reconcileSubmittedBet noBets bet w = (inr r', w') /\
          rc_checked r = 1%nat /\ r' {{ rc_details := [] }} = r {{ rc_details := [] }}
      else reconcileBetById id w = (inr (mkReconciliation 0 0 0 1 []), w)
  | None => reconcileBetById id w = (inr (mkReconciliation 0 0 0 1 []), w)
  end.
Proof.
  unfold reconcileBetById.
  rewrite (bind_ok (findUnique (Row := Bet) id) _ w (bets (w_db w) !! id) w eq_refl).
  destruct (bets (w_db w) !! id) as [bet|]; [|reflexivity].
  destruct (decide (b_status bet = BET_SUBMITTED)) as [Hs|Hs];
    [rewrite bool_decide_true by exact Hs | rewrite bool_decide_false by exact Hs; reflexivity].
  destruct (truthy (b_txHash bet)) as [h|] eqn:Hh;
    [rewrite bool_decide_true by discriminate | rewrite bool_decide_false by congruence; reflexivity].
  assert (Hd : default ""%string (b_txHash bet) = h).
  { unfold truthy in Hh. destruct (b_txHash bet) as [s|]; [|discriminate].
    destruct (String.eqb s ""); [discriminate | cbn; congruence]. }
  cbn [andb]. unfold reconcileSubmittedBet. rewrite Hd.
  destruct (getTransactionStatus h w) as [[e|st] w1] eqn:Est.
  { do 3 eexists. rewrite (catch_err _ _ w e w1), (catch_err _ _ w e w1)
      by (apply bind_err; exact Est). repeat split. }
  unfold catch. rewrite !(bind_ok _ _ _ _ _ Est).
  destruct (ts_confirmed st), (ts_successful st); cbn [andb negb]; cbv beta iota.
  - unfold bind. destruct (transitionToConfirmed _ _ _ _ _ _) as [[]]; do 3 eexists; repeat split.
  - unfold bind. destruct (transitionToFailed _ _ _ _ _ _) as [[]]; do 3 eexists; repeat split.
  - do 3 eexists; repeat split.
  - do 3 eexists; repeat split.
Qed.
End Moves.
