(* ===== verification/PayoutReconciliation.v ===== *)
(** * Claim worker (src/src/services/payout-reconciliation.service.ts)

    [run] queues a claim for every wallet that may hold winnings, then works
    through the open claims. Rows are read once and worked one after the other,
    so a row may be stale by the time it is worked: the operations below take
    the row as read and the world as it is then. Every path of the per-row
    functions ends by incrementing one counter, so the counters are passed and
    returned by value. Gauges, audit and log lines are left out. *)

From Stdlib Require Import ZArith QArith Lia.
From stdpp Require Import base gmap strings list pretty.
From S2P Require Import Prelude.
From S2P Require Import Numeric.
From S2P Require Import Errors.
From S2P Require Import CircuitBreaker.
From S2P Require Import Resilience.
From S2P Require Import Schema.
From S2P Require Import Store.
From S2P Require Import Soroban.
From S2P Require Import Bet.

#[local] Open Scope Z_scope.

Record PayoutReconciliationConfig : Type := mkPayoutConfig {
  pendingAgeMs : Z;
  submittedAgeMs : Z;
  batchSize : nat;
  maxAutoAttempts : Z;
}.

Definition DEFAULT_CONFIG : PayoutReconciliationConfig := mkPayoutConfig 60000 60000 50 5.

Record PayoutReconciliationResult : Type := mkPayoutResult {
  pr_checked : nat;
  pr_submitted : nat;
  pr_confirmed : nat;
  pr_noPending : nat;
  pr_failed : nat;
  pr_flagged : nat;
  pr_errors : nat;
  pr_swept : nat;
  pr_noop : nat;
}.

Definition noPayouts : PayoutReconciliationResult := mkPayoutResult 0 0 0 0 0 0 0 0 0.

Record PayoutSweepResult : Type := mkSweepResult {
  sw_swept : nat;
  sw_skippedOpen : nat;
  sw_skippedAlreadySwept : nat;
}.

(** The counters, incremented. *)
Definition incChecked (r : PayoutReconciliationResult) := r {{ pr_checked := S (pr_checked r) }}.
Definition incSubmitted (r : PayoutReconciliationResult) := r {{ pr_submitted := S (pr_submitted r) }}.
Definition incConfirmed (r : PayoutReconciliationResult) := r {{ pr_confirmed := S (pr_confirmed r) }}.
Definition incNoPending (r : PayoutReconciliationResult) := r {{ pr_noPending := S (pr_noPending r) }}.
Definition incFailed (r : PayoutReconciliationResult) := r {{ pr_failed := S (pr_failed r) }}.
Definition incFlagged (r : PayoutReconciliationResult) := r {{ pr_flagged := S (pr_flagged r) }}.
Definition incErrors (r : PayoutReconciliationResult) := r {{ pr_errors := S (pr_errors r) }}.
Definition incNoop (r : PayoutReconciliationResult) := r {{ pr_noop := S (pr_noop r) }}.

Inductive ConfirmOutcome : Type := outcome_confirmed | outcome_no_pending.

#[export] Instance ConfirmOutcome_eq_dec : EqDecision ConfirmOutcome.
Proof. solve_decision. Defined.

Definition isOpen (s : ClaimStatus) : bool :=
  bool_decide (s = CL_PENDING \/ s = CL_SUBMITTED \/ s = CL_FAILED).

(** ** The sweep *)

(** One group per user with a RESOLVED bet: the latest resolution time. *)
Definition latestResolved (userId : string) (d : DB) : option Z :=
  foldr (fun b acc => match b_resolvedAt b, acc with
                      | Some t, Some u => Some (Z.max t u)
                      | Some t, None => Some t
                      | None, _ => acc
                      end) None
    (rowsWhere (fun b : Bet => bool_decide (b_status b = BET_RESOLVED) && String.eqb (b_userId b) userId) d).

Definition resolvedGroups (d : DB) : list (string * option Z) :=
  map (fun u => (u, latestResolved u d))
    (sortBy (fun a b => String.ltb b a)
       (remove_dups (map b_userId (rowsWhere (fun b : Bet => bool_decide (b_status b = BET_RESOLVED)) d)))).

Section Worker.
Context `{Env} `{DecimalJs} `{PgNumeric}.

(** [latestSettledAt && latestConfirmed && createdAt >= latestSettledAt]; a
    timestamp is an object, so 0 counts. *)
Definition alreadySwept (latestSettledAt : option Z) (latestConfirmed : option Claim) : bool :=
  match latestSettledAt, latestConfirmed with
  | Some t, Some c => t <=? c_createdAt c
  | _, _ => false
  end.

Definition queueClaim (user : User) : Svc unit :=
  id <- newId ;;
  t <- now ;;
  insertRow id (mkClaim id (Some (u_id user)) (u_walletAddress user) None CL_PENDING None 0 None None t t) ;;;
  ret tt.

Fixpoint sweepGroups (batch : nat) (groups : list (string * option Z)) (result : PayoutSweepResult)
    : Svc PayoutSweepResult :=
  match groups with
  | [] => ret result
  | (userId, latestSettledAt) :: rest =>
      if String.eqb userId "" then sweepGroups batch rest result
      else
        o <- findUnique (Row := User) userId ;;
        match o with
        | None => sweepGroups batch rest result
        | Some user =>
            if String.eqb (u_walletAddress user) "" then sweepGroups batch rest result
            else
              open <- findFirst (openClaim (u_walletAddress user)) unordered ;;
              match open with
              | Some _ =>
                  sweepGroups batch rest (result {{ sw_skippedOpen := S (sw_skippedOpen result) }})
              | None =>
                  latestConfirmed <- findFirst
                    (fun c => String.eqb (c_walletAddress c) (u_walletAddress user)
                              && bool_decide (c_status c = CL_CONFIRMED))
                    (fun a b => c_createdAt a <? c_createdAt b) ;;
                  if alreadySwept latestSettledAt latestConfirmed then
                    sweepGroups batch rest
                      (result {{ sw_skippedAlreadySwept := S (sw_skippedAlreadySwept result) }})
                  else if (batch <=? sw_swept result)%nat then ret result
                  else
                    queueClaim user ;;;
                    sweepGroups batch rest (result {{ sw_swept := S (sw_swept result) }})
              end
        end
  end.

Definition sweepUnclaimedWinnings (cfg : PayoutReconciliationConfig) : Svc PayoutSweepResult :=
  groups <- gets (fun w => take (batchSize cfg * 2) (resolvedGroups (w_db w))) ;;
  sweepGroups (batchSize cfg) groups (mkSweepResult 0 0 0).

(** ** Transitions of one claim *)

Definition confirmedClaim (outcome : ConfirmOutcome) (row : Claim) (t : Z) (c : Claim) : Claim :=
  c {{ c_status := CL_CONFIRMED;
       c_amount := if decide (outcome = outcome_no_pending) then Some 0
                   else match c_amount row with None => c_amount c | Some a => Some a end;
       c_lastError := None; c_claimedAt := Some t; c_updatedAt := t }}.

Definition markConfirmed (row : Claim) (result : PayoutReconciliationResult) (outcome : ConfirmOutcome)
    : Svc PayoutReconciliationResult :=
  t <- now ;;
  count <- updateManyById (c_id row) (fun c => isOpen (c_status c)) (confirmedClaim outcome row t) ;;
  ret (if decide (count = 0%nat) then incNoop result
       else if decide (outcome = outcome_no_pending) then incNoPending result
       else incConfirmed result).

(** The row after a failed attempt. *)
Definition attemptedClaim (status : ClaimStatus) (message : string) (t : Z) (c : Claim) : Claim :=
  c {{ c_status := status; c_attempts := c_attempts c + 1;
       c_lastError := Some (slicePrefix 1000 message); c_updatedAt := t }}.

Definition sameStatus (row c : Claim) : bool := bool_decide (c_status c = c_status row).

Definition recordFailedAttempt (row : Claim) (cfg : PayoutReconciliationConfig)
    (result : PayoutReconciliationResult) (reason : string) : Svc PayoutReconciliationResult :=
  let willFlag := maxAutoAttempts cfg <=? c_attempts row + 1 in
  let nextStatus := if willFlag then CL_NEEDS_MANUAL_REVIEW else CL_FAILED in
  t <- now ;;
  count <- updateManyById (c_id row) (sameStatus row) (attemptedClaim nextStatus reason t) ;;
  ret (if decide (count = 0%nat) then incNoop result
       else if willFlag then incFlagged result else incFailed result).

Definition flagForReview (row : Claim) (result : PayoutReconciliationResult) (message : string)
    : Svc PayoutReconciliationResult :=
  t <- now ;;
  count <- updateManyById (c_id row) (sameStatus row) (attemptedClaim CL_NEEDS_MANUAL_REVIEW message t) ;;
  ret (if decide (count = 0%nat) then incNoop result else incFlagged result).

(** [inl]: the counters after a failed read; [inr]: the amount pending. *)
Definition readPendingWinnings (walletAddress : string) (result : PayoutReconciliationResult)
    : Svc (PayoutReconciliationResult + Z) :=
  catch (pending <- getPendingWinnings walletAddress ;; ret (inr pending))
    (fun _ => ret (inl (incErrors result))).

Definition reconcileSubmitted (row : Claim) (cfg : PayoutReconciliationConfig)
    (result : PayoutReconciliationResult) : Svc PayoutReconciliationResult :=
  match truthy (c_txHash row) with
  | None =>
      p <- readPendingWinnings (c_walletAddress row) result ;;
      match p with
      | inl result' => ret result'
      | inr pending =>
          if pending =? 0 then markConfirmed row result outcome_confirmed
          else recordFailedAttempt row cfg result
                 "Claim submission has no txHash and winnings are still pending"
      end
  | Some txHash =>
      chain <- getTransactionStatus txHash ;;
      if ts_confirmed chain && ts_successful chain then markConfirmed row result outcome_confirmed
      else if ts_confirmed chain && negb (ts_successful chain) then
        flagForReview row result (default "Claim transaction reverted on-chain"%string (ts_error chain))
      else
        match truthy (ts_error chain) with
        | Some error =>
            if includes (toLowerCase error) "not found" then
              recordFailedAttempt row cfg result "Claim transaction not found on-chain; retrying claim"
            else ret (incErrors result)
        | None => ret (incNoop result)
        end
  end.

Definition workerSubmitted (row : Claim) (claimed : ClaimResult) (t : Z) (c : Claim) : Claim :=
  c {{ c_status := CL_SUBMITTED;
       c_txHash := match cl_txHash claimed with Some h => Some h | None => c_txHash row end;
       c_amount := Some (colSet (cl_amount claimed)); c_lastError := None; c_updatedAt := t }}.

(** The guarded update of [attemptClaim]; the transaction hash is unique. *)
Definition recordSubmission (row : Claim) (claimed : ClaimResult) : Svc nat :=
  current <- findUnique (Row := Claim) (c_id row) ;;
  let h := match cl_txHash claimed with Some h => Some h | None => c_txHash row end in
  taken <- gets (fun w => claimHashTaken (Some (c_id row)) h (w_db w)) ;;
  if taken && match current with Some c => claimable c | None => false end
  then throw (PrismaError "P2002")
  else
    t <- now ;;
    updateManyById (c_id row) claimable (workerSubmitted row claimed t).

Definition otherInFlight (row c : Claim) : bool :=
  String.eqb (c_walletAddress c) (c_walletAddress row)
  && bool_decide (c_status c = CL_SUBMITTED) && negb (String.eqb (c_id c) (c_id row)).

Definition attemptClaim (row : Claim) (cfg : PayoutReconciliationConfig)
    (result : PayoutReconciliationResult) : Svc PayoutReconciliationResult :=
  p <- readPendingWinnings (c_walletAddress row) result ;;
  match p with
  | inl result' => ret result'
  | inr pending =>
      if pending =? 0 then markConfirmed row result outcome_no_pending
      else
        inFlight <- findFirst (otherInFlight row) unordered ;;
        match inFlight with
        | Some _ => ret (incNoop result)
        | None =>
            catch
              (claimed <- claimWinnings (c_walletAddress row) ;;
               count <- recordSubmission row claimed ;;
               ret (if decide (count = 0%nat) then incNoop result else incSubmitted result))
              (fun error =>
                 recordFailedAttempt row cfg result ("Claim submission failed: " +:+ err_message error))
        end
  end.

(** ** One pass *)

Definition reconcileRow (cfg : PayoutReconciliationConfig) (result : PayoutReconciliationResult)
    (row : Claim) : Svc PayoutReconciliationResult :=
  let result := incChecked result in
  catch (if decide (c_status row = CL_SUBMITTED) then reconcileSubmitted row cfg result
         else attemptClaim row cfg result)
    (fun _ => ret (incErrors result)).

Definition dueClaim (cfg : PayoutReconciliationConfig) (t : Z) (c : Claim) : bool :=
  (bool_decide (c_status c = CL_SUBMITTED) && (c_updatedAt c <? t - submittedAgeMs cfg))
  || (bool_decide (c_status c = CL_PENDING \/ c_status c = CL_FAILED) && (c_updatedAt c <? t - pendingAgeMs cfg)).

Definition reconcilePendingPayouts (cfg : PayoutReconciliationConfig) : Svc PayoutReconciliationResult :=
  t <- now ;;
  rows <- findMany (dueClaim cfg t) (fun a b => c_createdAt b <? c_createdAt a) ;;
  foldM (reconcileRow cfg) noPayouts (take (batchSize cfg) rows).

Definition run (cfg : PayoutReconciliationConfig) : Svc PayoutReconciliationResult :=
  sweep <- sweepUnclaimedWinnings cfg ;;
  reconcile <- reconcilePendingPayouts cfg ;;
  ret (reconcile {{ pr_swept := sw_swept sweep }}).

Definition payoutSummary : Svc (ClaimStatus -> nat) :=
  gets (fun w s => length (rowsWhere (fun c : Claim => bool_decide (c_status c = s)) (w_db w))).
End Worker.

(** ** Properties *)

Section Steps.
Context `{Env} `{DecimalJs} `{PgNumeric}.
Context (cfg : PayoutReconciliationConfig) (row : Claim).

(** The moves of a claim the worker makes, working the row it has read. *)
Definition workerEdge (from to : ClaimStatus) : Prop :=
  isOpen from = true /\
  (to = CL_CONFIRMED \/
   (from <> CL_SUBMITTED /\ to = CL_SUBMITTED) \/
   (from = c_status row /\ to = CL_FAILED /\ c_attempts row + 1 < maxAutoAttempts cfg) \/
   (from = c_status row /\ to = CL_NEEDS_MANUAL_REVIEW)).

Definition sameClaim (c c' : Claim) : Prop :=
  c_id c' = c_id c /\ c_userId c' = c_userId c /\ c_walletAddress c' = c_walletAddress c /\
  c_createdAt c' = c_createdAt c /\ c_attempts c <= c_attempts c' <= c_attempts c + 1.

Definition claimStep (d d' : DB) : Prop :=
  d' = d \/
  exists c c', claims d !! c_id row = Some c /\ d' = d {{ claims := <[c_id row := c']> (claims d) }} /\
    workerEdge (c_status c) (c_status c') /\ sameClaim c c'.

Definition sameDB (w w' : World) : Prop := w_db w' = w_db w.

#[local] Instance sameDB_preorder : PreOrder sameDB.
Proof. split; [intros w; reflexivity | intros x y z H1' H2'; unfold sameDB in *; congruence]. Qed.

Definition steps {A} (m : Svc A) : Prop := forall w, claimStep (w_db w) (w_db (final m w)).

Lemma steps_quiet {A} (m : Svc A) : respects sameDB m -> steps m.
Proof. intros Hm w. left. apply Hm. Qed.

Lemma steps_bind {A B} (m : Svc A) (k : A -> Svc B) :
  respects sameDB m -> (forall a, steps (k a)) -> steps (x <- m ;; k x).
Proof.
  intros Hm Hk w. apply (final_bind_cases sameDB m k w (fun w' => claimStep (w_db w) (w_db w')) Hm).
  - intros a w1 _ Hw. rewrite <- Hw. apply Hk.
  - intros e w1 _ Hw. left. exact Hw.
Qed.

Lemma steps_fmap {A B} (m : Svc A) (f : A -> B) : steps m -> steps (x <- m ;; ret (f x)).
Proof. intros Hm w. rewrite final_fmap. apply Hm. Qed.

(** A body that throws before it writes, under a handler. *)
Lemma steps_catch {A} (m : Svc A) h :
  steps m -> (forall w e w', m w = (inl e, w') -> w_db w' = w_db w) -> (forall e, steps (h e)) ->
  steps (catch m h).
Proof.
  intros Hm He Hh w. specialize (Hm w). specialize (He w). unfold final, catch in *.
  destruct (m w) as [[e|a] w1]; [|exact Hm]. rewrite <- (He e w1 eq_refl). apply Hh.
Qed.

Lemma steps_update cond f :
  (forall c, cond c = true -> workerEdge (c_status c) (c_status (f c)) /\ sameClaim c (f c)) ->
  steps (updateManyById (c_id row) cond f).
Proof.
  intros Hf w. unfold final, updateManyById, bind, findUnique, gets. cbn.
  destruct (claims (w_db w) !! c_id row) as [c|] eqn:Ec; [|left; reflexivity].
  destruct (cond c) eqn:Eb; [|left; reflexivity]. right. exists c, (f c).
  destruct (Hf c Eb). open_world w. repeat split; auto; apply Hf; assumption.
Qed.

Lemma sameDB_agree {A} (m : Svc A) : (forall n c, (forall w, sent n c w (final m w)) -> respects sameDB m).
Proof. intros n c Hm w. apply (Hm w). Qed.

Lemma sameDB_pending a : respects sameDB (getPendingWinnings a).
Proof. eapply sameDB_agree, getPendingWinnings_sent. Qed.
Lemma sameDB_status h : respects sameDB (getTransactionStatus h).
Proof. eapply sameDB_agree, getTransactionStatus_sent. Qed.
Lemma sameDB_claim a : respects sameDB (claimWinnings a).
Proof. eapply sameDB_agree. intros w. apply mutatingCall_sent. Qed.
Lemma sameDB_findFirst f gt : respects sameDB (findFirst (Row := Claim) f gt).
Proof. apply respects_gets, _. Qed.
Lemma sameDB_findUnique k : respects sameDB (findUnique (Row := Claim) k).
Proof. apply respects_gets, _. Qed.
Lemma sameDB_now : respects sameDB now.
Proof. apply respects_gets, _. Qed.
#[local] Hint Resolve sameDB_pending sameDB_status sameDB_claim sameDB_findFirst sameDB_findUnique
  sameDB_now : respects.

Context (Hopen : isOpen (c_status row) = true).

Lemma markConfirmed_steps result o : steps (markConfirmed row result o).
Proof.
  apply steps_bind; [apply sameDB_now|]. intros t. apply steps_fmap, steps_update.
  intros c Hc. unfold workerEdge, sameClaim, confirmedClaim. destruct c; cbn in *.
  repeat split; auto; lia.
Qed.

Lemma attempted_edge status message t c :
  sameStatus row c = true ->
  status = CL_NEEDS_MANUAL_REVIEW \/ (status = CL_FAILED /\ c_attempts row + 1 < maxAutoAttempts cfg) ->
  workerEdge (c_status c) (c_status (attemptedClaim status message t c)) /\
  sameClaim c (attemptedClaim status message t c).
Proof.
  intros Hc Hs. apply bool_decide_eq_true in Hc. unfold workerEdge, sameClaim, attemptedClaim.
  destruct c; cbn in *. subst. repeat split; try lia; auto. destruct Hs as [->|[-> ?]]; auto 6.
Qed.

Lemma recordFailedAttempt_steps result reason : steps (recordFailedAttempt row cfg result reason).
Proof.
  apply steps_bind; [apply sameDB_now|]. intros t. apply steps_fmap, steps_update.
  intros c Hc. apply attempted_edge; [exact Hc|].
  destruct (Z.leb_spec (maxAutoAttempts cfg) (c_attempts row + 1)); auto.
Qed.

Lemma flagForReview_steps result message : steps (flagForReview row result message).
Proof.
  apply steps_bind; [apply sameDB_now|]. intros t. apply steps_fmap, steps_update.
  intros c Hc. apply attempted_edge; auto.
Qed.

Lemma recordSubmission_steps claimed : steps (recordSubmission row claimed).
Proof.
  unfold recordSubmission. apply steps_bind; [apply sameDB_findUnique|]. intros cur.
  apply steps_bind; [apply respects_gets, _|]. intros tk.
  destruct (_ && _); [apply steps_quiet, respects_throw, _|].
  apply steps_bind; [apply sameDB_now|]. intros t. apply steps_update.
  intros c Hc. unfold claimable in Hc. apply bool_decide_eq_true in Hc.
  unfold workerEdge, sameClaim, workerSubmitted, isOpen. destruct c; cbn in *.
  repeat split; try lia.
  - apply bool_decide_eq_true. tauto.
  - right. left. destruct Hc; subst; split; congruence.
Qed.

Lemma readPending_quiet a result : respects sameDB (readPendingWinnings a result).
Proof. unfold readPendingWinnings. respects_auto. Qed.
#[local] Hint Resolve readPending_quiet : respects.

Lemma reconcileSubmitted_steps result : steps (reconcileSubmitted row cfg result).
Proof.
  unfold reconcileSubmitted. destruct (truthy (c_txHash row)) as [h|].
  - apply steps_bind; [apply sameDB_status|]. intros s.
    repeat match goal with
    | |- steps (if ?b then _ else _) => destruct b
    | |- steps (match ?x with _ => _ end) => destruct x
    end; auto using markConfirmed_steps, flagForReview_steps, recordFailedAttempt_steps;
      apply steps_quiet, respects_ret, _.
  - apply steps_bind; [apply readPending_quiet|]. intros [r|z]; [apply steps_quiet, respects_ret, _|].
    destruct (z =? 0); auto using markConfirmed_steps, recordFailedAttempt_steps.
Qed.

Lemma submission_error_quiet claimed w e w' :
  recordSubmission row claimed w = (inl e, w') -> w_db w' = w_db w.
Proof.
  unfold recordSubmission, updateManyById, bind, findUnique, gets, throw, now. cbn.
  destruct (_ && _); [intros [= _ <-]; reflexivity|].
  destruct (claims (w_db w) !! c_id row) as [c|]; [destruct (claimable c)|]; discriminate.
Qed.

Lemma attemptClaim_steps result : steps (attemptClaim row cfg result).
Proof.
  unfold attemptClaim. apply steps_bind; [apply readPending_quiet|].
  intros [r|z]; [apply steps_quiet, respects_ret, _|].
  destruct (z =? 0); [apply markConfirmed_steps|].
  apply steps_bind; [apply sameDB_findFirst|]. intros [c|]; [apply steps_quiet, respects_ret, _|].
  apply steps_catch.
  - apply steps_bind; [apply sameDB_claim|]. intros r. apply steps_fmap, recordSubmission_steps.
  - intros w e w' Hm. unfold bind at 1 in Hm. pose proof (sameDB_claim (c_walletAddress row) w) as Hc.
    unfold final in Hc. destruct (claimWinnings (c_walletAddress row) w) as [[e1|r] w1].
    { injection Hm as _ <-. exact Hc. }
    unfold bind in Hm. destruct (recordSubmission row r w1) as [[e1|n] w2] eqn:Er; [|discriminate].
    injection Hm as _ <-. cbn in Hc. rewrite <- Hc. exact (submission_error_quiet _ _ _ _ Er).
  - intros e. apply recordFailedAttempt_steps.
Qed.
End Steps.

(** ** Calls to the chain *)

Definition isClaimCall (c : ChainCall) : bool :=
  match c with CallClaimWinnings _ => true | _ => false end.

(** What was sent between two worlds contains no claim. *)
Definition noClaimSent : World -> World -> Prop := callsOnly (fun c => isClaimCall c = false).

#[export] Instance noClaimSent_preorder : PreOrder noClaimSent.
Proof. apply callsOnly_preorder. Qed.

Section Calls.
Context `{Env} `{DecimalJs} `{PgNumeric}.
Context (cfg : PayoutReconciliationConfig) (row : Claim).

Lemma noClaim_sameCalls {A} (m : Svc A) : respects sameCalls m -> respects noClaimSent m.
Proof. apply callsOnly_same. Qed.

Lemma noClaim_pending a : respects noClaimSent (getPendingWinnings a).
Proof. eapply callsOnly_sent; [|apply getPendingWinnings_sent]. reflexivity. Qed.
Lemma noClaim_status h : respects noClaimSent (getTransactionStatus h).
Proof. eapply callsOnly_sent; [|apply getTransactionStatus_sent]. reflexivity. Qed.
#[local] Hint Resolve noClaim_pending noClaim_status : respects.
#[local] Hint Extern 3 (respects noClaimSent _) =>
  (apply noClaim_sameCalls; solve [eauto 2 with respects]) : respects.

Lemma noClaim_markConfirmed result o : respects noClaimSent (markConfirmed row result o).
Proof. unfold markConfirmed. respects_auto. Qed.
Lemma noClaim_recordFailed result m : respects noClaimSent (recordFailedAttempt row cfg result m).
Proof. unfold recordFailedAttempt. respects_auto. Qed.
Lemma noClaim_flag result m : respects noClaimSent (flagForReview row result m).
Proof. unfold flagForReview. respects_auto. Qed.
Lemma noClaim_readPending a result : respects noClaimSent (readPendingWinnings a result).
Proof. unfold readPendingWinnings. respects_auto. Qed.
Lemma noClaim_recordSubmission r : respects noClaimSent (recordSubmission row r).
Proof. unfold recordSubmission. respects_auto. Qed.
#[local] Hint Resolve noClaim_markConfirmed noClaim_recordFailed noClaim_flag noClaim_readPending
  noClaim_recordSubmission : respects.

Lemma noClaim_submitted result : respects noClaimSent (reconcileSubmitted row cfg result).
Proof. unfold reconcileSubmitted. respects_auto. Qed.

(** The claims sent between two worlds: at most [n], all for [a]. *)
Definition claimsSent (n : nat) (a : string) (w w' : World) : Prop :=
  exists l, w_calls w' = (l ++ w_calls w)%list /\
    Forall (fun c => isClaimCall c = true -> c = CallClaimWinnings a) l /\
    (length (List.filter isClaimCall l) <= n)%nat.

Lemma claimsSent_none n a w w' : noClaimSent w w' -> claimsSent n a w w'.
Proof.
  intros (l & E & F). exists l. split; [exact E|]. split.
  - eapply Forall_impl; [exact F|]. intros c Hc Ht. cbn in *. congruence.
  - clear E. induction F as [|c l Hc _ IH]; cbn; [lia|]. rewrite Hc. exact IH.
Qed.

Lemma claimsSent_trans n a x y z : noClaimSent x y -> claimsSent n a y z -> claimsSent n a x z.
Proof.
  intros H1' (l2 & E2 & F2 & L2). destruct (claimsSent_none 0 a x y H1') as (l1 & E1 & F1 & L1).
  exists (l2 ++ l1)%list. rewrite E2, E1. split; [apply app_assoc|]. split; [apply Forall_app; auto|].
  rewrite List.filter_app, length_app. lia.
Qed.

Lemma claimsSent_trans' n a x y z : claimsSent n a x y -> noClaimSent y z -> claimsSent n a x z.
Proof.
  intros (l1 & E1 & F1 & L1) H1'. destruct (claimsSent_none 0 a y z H1') as (l2 & E2 & F2 & L2).
  exists (l2 ++ l1)%list. rewrite E2, E1. split; [apply app_assoc|]. split; [apply Forall_app; auto|].
  rewrite List.filter_app, length_app. lia.
Qed.

Lemma claimWinnings_sent a w : claimsSent MAX_RETRIES a w (final (claimWinnings a) w).
Proof.
  destruct (mutatingCall_sent (CallClaimWinnings a) parseClaimResult MAX_RETRIES w)
    as (_ & _ & _ & _ & k & Hk & E).
  exists (replicate k (CallClaimWinnings a)). split; [exact E|]. split; [apply Forall_replicate; auto|].
  clear E. enough (length (List.filter isClaimCall (replicate k (CallClaimWinnings a))) = k) by lia.
  clear Hk. induction k as [|k IH]; cbn; [reflexivity | rewrite IH; reflexivity].
Qed.

(** The submission itself, with what runs when it throws. *)
Lemma submit_claims result w :
  claimsSent MAX_RETRIES (c_walletAddress row) w
    (final (catch
       (claimed <- claimWinnings (c_walletAddress row) ;;
        count <- recordSubmission row claimed ;;
        ret (if decide (count = 0%nat) then incNoop result else incSubmitted result))
       (fun error => recordFailedAttempt row cfg result ("Claim submission failed: " +:+ err_message error))) w).
Proof.
  pose proof (claimWinnings_sent (c_walletAddress row) w) as Hc. unfold final, catch in *. unfold bind at 1.
  destruct (claimWinnings (c_walletAddress row) w) as [[e|r] w1].
  - eapply claimsSent_trans'; [exact Hc|]. apply noClaim_recordFailed.
  - pose proof (noClaim_recordSubmission r w1) as Hr. unfold final, bind in *.
    destruct (recordSubmission row r w1) as [[e|n] w2].
    + eapply claimsSent_trans'; [exact Hc|]. etransitivity; [exact Hr | apply noClaim_recordFailed].
    + eapply claimsSent_trans'; [exact Hc | exact Hr].
Qed.

(** What the worker has checked when it sends a claim for [row]. *)
Definition owed (w : World) : Prop :=
  c_status row <> CL_SUBMITTED /\
  (exists reply z, env_client (CallGetPendingWinnings (c_walletAddress row) :: w_calls w) = Resolves reply /\
     cr_result reply = Some z /\ z <> 0) /\
  (forall k c, claims (w_db w) !! k = Some c -> otherInFlight row c = false).

Lemma readPending_ok a result w z w1 :
  getPendingWinnings a w = (inr z, w1) -> readPendingWinnings a result w = (inr (inr z), w1).
Proof. intros Hg. apply catch_ok. rewrite (bind_ok _ _ _ _ _ Hg). reflexivity. Qed.

Lemma readPending_err a result w e w1 :
  getPendingWinnings a w = (inl e, w1) -> readPendingWinnings a result w = (inr (inl (incErrors result)), w1).
Proof.
  intros Hg. unfold readPendingWinnings. rewrite (catch_err _ _ _ _ _ (bind_err _ _ _ _ _ Hg)). reflexivity.
Qed.

Lemma attemptClaim_calls result w :
  noClaimSent w (final (attemptClaim row cfg result) w) \/
  ((exists reply z, env_client (CallGetPendingWinnings (c_walletAddress row) :: w_calls w) = Resolves reply /\
      cr_result reply = Some z /\ z <> 0) /\
   (forall k c, claims (w_db w) !! k = Some c -> otherInFlight row c = false) /\
   claimsSent MAX_RETRIES (c_walletAddress row) w (final (attemptClaim row cfg result) w)).
Proof.
  unfold attemptClaim. set (a := c_walletAddress row).
  pose proof (noClaim_pending a w) as Hp. pose proof (sameDB_pending a w) as Hd. unfold sameDB, final in *.
  destruct (getPendingWinnings a w) as [[e|z] w1] eqn:Eg; cbn [snd] in Hp, Hd.
  { left. rewrite (bind_ok _ _ _ _ _ (readPending_err _ result _ _ _ Eg)). exact Hp. }
  rewrite (bind_ok _ _ _ _ _ (readPending_ok _ result _ _ _ Eg)).
  destruct (Z.eqb_spec z 0) as [|Hz].
  { left. etransitivity; [exact Hp | apply noClaim_markConfirmed]. }
  destruct (findFirst (otherInFlight row) unordered w1) as [[e|o] w2] eqn:Ef; [discriminate|].
  rewrite (bind_ok _ _ _ _ _ Ef).
  apply findFirst_inv in Ef as [-> Ho]. destruct o as [c|]; [left; exact Hp|]. right.
  cbn in Ho. rewrite Hd in Ho. split; [|split; [exact Ho|]].
  - destruct (getPendingWinnings_nonzero a w z w1 Eg Hz) as (reply & Hr & Hzr).
    exists reply, z. split; [exact Hr|]. destruct (cr_result reply); cbn in Hzr; [split; congruence | contradiction].
  - eapply claimsSent_trans; [exact Hp | apply submit_claims].
Qed.

(** C22. No double payout. Working a claim row, however stale it is, sends at
    most two attempts of one claim, and none unless the chain has just reported
    winnings pending for the wallet, the row was not submitted, and no other
    claim of the wallet is in flight. *)
Theorem claim_sent_only_if_owed result w :
  noClaimSent w (final (reconcileRow cfg result row) w) \/
  (owed w /\ claimsSent MAX_RETRIES (c_walletAddress row) w (final (reconcileRow cfg result row) w)).
Proof.
  assert (Hf : forall r0, final (reconcileRow cfg r0 row) w =
    final (if decide (c_status row = CL_SUBMITTED) then reconcileSubmitted row cfg (incChecked r0)
           else attemptClaim row cfg (incChecked r0)) w).
  { intros r0. unfold reconcileRow, final, catch.
    destruct (decide _); [destruct (reconcileSubmitted _ _ _ w) as [[]] | destruct (attemptClaim _ _ _ w) as [[]]];
      reflexivity. }
  rewrite Hf. destruct (decide (c_status row = CL_SUBMITTED)) as [|Hs]; [left; apply noClaim_submitted|].
  destruct (attemptClaim_calls (incChecked result) w) as [Hn|(H1' & H2' & H3')]; [left; exact Hn|].
  right. split; [split; auto | exact H3'].
Qed.

(** A read that fails is taken for "nothing owed". When the chain does not
    answer the pending-winnings read, a claim that was waiting to be paid is
    closed as CONFIRMED with amount 0, unless the in-flight cap refused the
    read. *)
Theorem unreadable_winnings_close_claim result w c :
  c_status row = CL_PENDING \/ c_status row = CL_FAILED ->
  claims (w_db w) !! c_id row = Some c -> isOpen (c_status c) = true ->
  (forall r, env_client (CallGetPendingWinnings (c_walletAddress row) :: w_calls w) <> Resolves r) ->
  (exists e, value (getPendingWinnings (c_walletAddress row)) w = inl e) \/
  exists t, claims (w_db (final (reconcileRow cfg result row) w)) !! c_id row
            = Some (confirmedClaim outcome_no_pending row t c).
Proof.
  intros Hs Hc Ho Hr. set (a := c_walletAddress row) in *.
  assert (Hne : c_status row <> CL_SUBMITTED) by (intros E; rewrite E in Hs; destruct Hs; discriminate).
  pose proof (sameDB_pending a w) as Hd. unfold sameDB in Hd.
  unfold value. destruct (getPendingWinnings a w) as [[e|z] w1] eqn:Eg; [left; eauto|]. right.
  assert (z = 0) as ->.
  { destruct (decide (z = 0)) as [|Hz]; [assumption|].
    destruct (getPendingWinnings_nonzero a w z w1 Eg Hz) as (r & E & _). destruct (Hr r E). }
  unfold final in *. rewrite Eg in Hd. cbn in Hd.
  exists (w_now w1). unfold reconcileRow. rewrite decide_False by exact Hne.
  rewrite (catch_ok _ _ _ (incNoPending (incChecked result))
             (final (putRow (c_id row) (confirmedClaim outcome_no_pending row (w_now w1) c) : Svc unit) w1)).
  - cbn [snd]. rewrite claims_put. apply lookup_insert_eq.
  - unfold attemptClaim. rewrite (bind_ok _ _ _ _ _ (readPending_ok _ (incChecked result) _ _ _ Eg)).
    cbn [Z.eqb]. unfold markConfirmed. rewrite (bind_ok now _ w1 (w_now w1) w1 eq_refl).
    rewrite <- Hd in Hc. change (tbl (Row := Claim) (w_db w1) !! c_id row = Some c) in Hc.
    rewrite (bind_ok _ _ _ _ _ (updateManyById_some (Row := Claim) (c_id row) (fun c => isOpen (c_status c))
      (confirmedClaim outcome_no_pending row (w_now w1)) w1 c Hc Ho)). reflexivity.
Qed.
End Calls.

(** ** The pass *)

Section Pass.
Context `{Env} `{DecimalJs} `{PgNumeric}.
Context (cfg : PayoutReconciliationConfig).

(** Transitions of the worker. Working a row read as open, in whatever world
    it is worked, changes at most that claim's row, only if the claim is still
    open, and only along the worker's edges: confirmed and reviewed claims are
    out of reach of a stale run, the owner and wallet stay, the attempts grow
    by at most one, and a failure is final once the attempts are used up. *)
Theorem reconcileRow_step row result w :
  isOpen (c_status row) = true ->
  claimStep cfg row (w_db w) (w_db (final (reconcileRow cfg result row) w)).
Proof.
  intros Ho. unfold reconcileRow, final, catch.
  destruct (decide (c_status row = CL_SUBMITTED)).
  - pose proof (reconcileSubmitted_steps cfg row Ho (incChecked result) w) as Hs. unfold final in Hs.
    destruct (reconcileSubmitted _ _ _ w) as [[]]; exact Hs.
  - pose proof (attemptClaim_steps cfg row Ho (incChecked result) w) as Hs. unfold final in Hs.
    destruct (attemptClaim _ _ _ w) as [[]]; exact Hs.
Qed.

(** The outcomes counted so far. *)
Definition tally (r : PayoutReconciliationResult) : nat :=
  pr_submitted r + pr_confirmed r + pr_noPending r + pr_failed r + pr_flagged r + pr_errors r + pr_noop r.

(** One more outcome than before, nothing else. *)
Definition counted (r r' : PayoutReconciliationResult) : Prop :=
  tally r' = S (tally r) /\ pr_checked r' = pr_checked r.

Lemma counted_incs r :
  counted r (incSubmitted r) /\ counted r (incConfirmed r) /\ counted r (incNoPending r) /\
  counted r (incFailed r) /\ counted r (incFlagged r) /\ counted r (incErrors r) /\ counted r (incNoop r).
Proof. unfold counted, tally. destruct r; cbn. repeat split; lia. Qed.

Create HintDb tally discriminated.
Ltac one_inc := intros r; destruct (counted_incs r) as (? & ? & ? & ? & ? & ? & ?); assumption.
Lemma counted_submitted r : counted r (incSubmitted r). Proof. revert r; one_inc. Qed.
Lemma counted_confirmed r : counted r (incConfirmed r). Proof. revert r; one_inc. Qed.
Lemma counted_noPending r : counted r (incNoPending r). Proof. revert r; one_inc. Qed.
Lemma counted_failed r : counted r (incFailed r). Proof. revert r; one_inc. Qed.
Lemma counted_flagged r : counted r (incFlagged r). Proof. revert r; one_inc. Qed.
Lemma counted_errors r : counted r (incErrors r). Proof. revert r; one_inc. Qed.
Lemma counted_noop r : counted r (incNoop r). Proof. revert r; one_inc. Qed.
#[local] Hint Resolve counted_submitted counted_confirmed counted_noPending counted_failed
  counted_flagged counted_errors counted_noop : tally.

Ltac counts :=
  repeat match goal with
  | |- returns _ (bind _ _) => apply returns_bind; intros ?
  | |- returns _ (catch _ _) => apply returns_catch; [|intros ?]
  | |- returns _ (throw _) => apply returns_throw
  | |- returns _ (ret (if ?b then _ else _)) => destruct b
  | |- returns _ (ret _) => apply returns_ret; auto with tally nocore
  | |- returns _ (if ?b then _ else _) => destruct b
  | |- returns _ (match ?x with _ => _ end) => destruct x
  end.

Lemma markConfirmed_counts row r o : returns (counted r) (markConfirmed row r o).
Proof. unfold markConfirmed. counts. Qed.
Lemma recordFailed_counts row r m : returns (counted r) (recordFailedAttempt row cfg r m).
Proof. unfold recordFailedAttempt. counts. Qed.
Lemma flag_counts row r m : returns (counted r) (flagForReview row r m).
Proof. unfold flagForReview. counts. Qed.

Ltac count_calls :=
  match goal with
  | |- returns _ (markConfirmed _ _ _) => apply markConfirmed_counts
  | |- returns _ (recordFailedAttempt _ _ _ _) => apply recordFailed_counts
  | |- returns _ (flagForReview _ _ _) => apply flag_counts
  end.

Lemma readPending_counts {A} a r (P : A -> Prop) (k : PayoutReconciliationResult + Z -> Svc A) :
  returns P (k (inl (incErrors r))) -> (forall z, returns P (k (inr z))) ->
  returns P (p <- readPendingWinnings a r ;; k p).
Proof.
  intros Hl Hr w x w' Hx. destruct (getPendingWinnings a w) as [[e|z] w1] eqn:Eg.
  - rewrite (bind_ok _ _ _ _ _ (readPending_err _ r _ _ _ Eg)) in Hx. exact (Hl _ _ _ Hx).
  - rewrite (bind_ok _ _ _ _ _ (readPending_ok _ r _ _ _ Eg)) in Hx. exact (Hr _ _ _ _ Hx).
Qed.

Lemma reconcileSubmitted_counts row r : returns (counted r) (reconcileSubmitted row cfg r).
Proof.
  unfold reconcileSubmitted. destruct (truthy _).
  - counts; count_calls.
  - apply readPending_counts; [counts|]. intros z. counts; count_calls.
Qed.

Lemma attemptClaim_counts row r : returns (counted r) (attemptClaim row cfg r).
Proof.
  unfold attemptClaim. apply readPending_counts; [counts|]. intros z. counts; count_calls.
Qed.

Lemma reconcileRow_counts n row r :
  pr_checked r = n /\ tally r = n ->
  returns (fun r' => pr_checked r' = S n /\ tally r' = S n) (reconcileRow cfg r row).
Proof.
  intros [Hc Ht]. assert (Hi : pr_checked (incChecked r) = S n /\ tally (incChecked r) = n).
  { unfold tally in *. destruct r; cbn in *. split; lia. }
  assert (Hw : forall r', counted (incChecked r) r' -> pr_checked r' = S n /\ tally r' = S n).
  { intros r' [E1 E2]. split; lia. }
  unfold reconcileRow. apply returns_catch.
  - intros w r' w' Hr. apply Hw. destruct (decide _).
    + exact (reconcileSubmitted_counts _ _ _ _ _ Hr).
    + exact (attemptClaim_counts _ _ _ _ _ Hr).
  - intros e. apply returns_ret, Hw, counted_errors.
Qed.

(** A pass always returns, whatever the chain and the database do: it works
    the due claims up to the batch size, and its counters account for every
    row worked exactly once. *)
Theorem reconcile_accounts w :
  exists r w', reconcilePendingPayouts cfg w = (inr r, w') /\
    pr_checked r = Nat.min (batchSize cfg) (length (rowsWhere (dueClaim cfg (w_now w)) (w_db w))) /\
    tally r = pr_checked r.
Proof.
  set (rows := take (batchSize cfg) (sortBy (fun a b : Claim => c_createdAt b <? c_createdAt a)
                 (rowsWhere (dueClaim cfg (w_now w)) (w_db w)))).
  assert (Hrun : reconcilePendingPayouts cfg w = foldM (reconcileRow cfg) noPayouts rows w) by reflexivity.
  destruct (neverThrows_foldM (reconcileRow cfg) rows noPayouts
              (fun b x => neverThrows_catch _ _ (fun _ => neverThrows_ret _)) w) as (r & w' & Hr).
  exists r, w'. rewrite Hrun. split; [exact Hr|].
  destruct (returns_foldM (fun n r => pr_checked r = n /\ tally r = n) (reconcileRow cfg) rows 0 noPayouts
              (fun n b x => reconcileRow_counts n x b) (conj eq_refl eq_refl) w r w' Hr) as [E1 E2].
  split; [|congruence]. rewrite E1. unfold rows. rewrite length_take, sortBy_Permutation. reflexivity.
Qed.
End Pass.

(** ** The sweep's guarantees *)

(** At most one open claim per wallet. *)
Definition oneOpen (d : DB) : Prop :=
  forall k1 k2 c1 c2, claims d !! k1 = Some c1 -> claims d !! k2 = Some c2 ->
    isOpen (c_status c1) = true -> isOpen (c_status c2) = true ->
    c_walletAddress c1 = c_walletAddress c2 -> k1 = k2.

(** The wallet has an open claim, or a claim confirmed at or after [t]. *)
Definition covered (d : DB) (wallet : string) (t : option Z) : Prop :=
  (exists k c, claims d !! k = Some c /\ openClaim wallet c = true) \/
  (exists k c t0, t = Some t0 /\ claims d !! k = Some c /\ c_walletAddress c = wallet /\
     c_status c = CL_CONFIRMED /\ t0 <= c_createdAt c).

Lemma openClaim_spec wallet c :
  openClaim wallet c = true <-> c_walletAddress c = wallet /\ isOpen (c_status c) = true.
Proof.
  unfold openClaim, isOpen. rewrite andb_true_iff, String.eqb_eq. reflexivity.
Qed.

Lemma covered_mono d d' wallet t : claims d ⊆ claims d' -> covered d wallet t -> covered d' wallet t.
Proof.
  intros Hs [(k & c & Hk & Ho)|(k & c & t0 & Ht & Hk & Hr)].
  - left. exists k, c. split; [|exact Ho]. eapply lookup_weaken; eassumption.
  - right. exists k, c, t0. split; [exact Ht|]. split; [|exact Hr]. eapply lookup_weaken; eassumption.
Qed.

(** [n] queued claims later. *)
Record swept (n : nat) (d d' : DB) : Prop := {
  sp_users : users d' = users d;
  sp_claims : claims d ⊆ claims d';
  sp_size : size (claims d') = (n + size (claims d))%nat;
  sp_one : oneOpen d -> oneOpen d';
}.

Lemma swept_refl d : swept 0 d d.
Proof. split; auto. Qed.

Lemma swept_trans n m d1 d2 d3 : swept n d1 d2 -> swept m d2 d3 -> swept (m + n) d1 d3.
Proof.
  intros [U1 C1 S1 O1] [U2 C2 S2 O2]. split; [congruence | etransitivity; eassumption | lia | auto].
Qed.

Section Sweep.
Context `{Env} `{DecimalJs} `{PgNumeric}.

Lemma queueClaim_inv user w w' :
  queueClaim user w = (inr tt, w') ->
  (forall k c, claims (w_db w) !! k = Some c -> openClaim (u_walletAddress user) c = false) ->
  swept 1 (w_db w) (w_db w') /\
  (exists k c, claims (w_db w') !! k = Some c /\ openClaim (u_walletAddress user) c = true).
Proof.
  intros Hq Hnone. unfold queueClaim in Hq.
  apply bind_inr_inv in Hq as (id & w1 & Hid & Hq). apply bind_inr_inv in Hq as (t & w2 & Ht & Hq).
  injection Ht as <- <-. apply bind_inr_inv in Hq as (r & w3 & Hi & Hq). injection Hq as <-.
  assert (Hd : w_db w1 = w_db w).
  { unfold newId, bind, gets, modify, ret in Hid. injection Hid as _ <-. destruct w; reflexivity. }
  apply insertRow_inv in Hi as (Hf & _ & ->). cbn in Hf. rewrite Hd in Hf.
  set (c := mkClaim _ _ _ _ _ _ _ _ _ _ _). split.
  - assert (Ec : claims (w_db (final (putRow id c : Svc unit) w1)) = <[id := c]> (claims (w_db w))).
    { rewrite claims_put, Hd. reflexivity. }
    split.
    + rewrite <- Hd. destruct w1 as [[]]; reflexivity.
    + rewrite Ec. apply insert_subseteq, Hf.
    + rewrite Ec. apply map_size_insert_None, Hf.
    + intros Hone k1 k2 c1 c2 H1' H2' O1 O2 Hw. rewrite Ec in H1', H2'.
      apply lookup_insert_Some in H1' as [[<- <-]|[N1 H1']]; apply lookup_insert_Some in H2' as [[<- <-]|[N2 H2']].
      * reflexivity.
      * specialize (Hnone k2 c2 H2'). apply not_true_iff_false in Hnone. destruct Hnone.
        apply openClaim_spec. auto.
      * specialize (Hnone k1 c1 H1'). apply not_true_iff_false in Hnone. destruct Hnone.
        apply openClaim_spec. auto.
      * exact (Hone _ _ _ _ H1' H2' O1 O2 Hw).
  - exists id, c. rewrite claims_put. split; [apply lookup_insert_eq|].
    apply openClaim_spec. auto.
Qed.

(** What holds of a run of the loop. *)
Definition sweepPost (batch : nat) (groups : list (string * option Z)) (r r' : PayoutSweepResult)
    (d d' : DB) : Prop :=
  (sw_swept r <= sw_swept r')%nat /\ (sw_swept r <= batch -> sw_swept r' <= batch)%nat /\
  swept (sw_swept r' - sw_swept r) d d' /\
  ((sw_swept r' < batch)%nat -> forall u t user, (u, t) ∈ groups -> u <> ""%string ->
     users d !! u = Some user -> u_walletAddress user <> ""%string -> covered d' (u_walletAddress user) t).

Lemma sweepPost_cons batch g gs r r1 r' d d1 d' n :
  sweepPost batch gs r1 r' d1 d' -> swept n d d1 -> sw_swept r1 = (n + sw_swept r)%nat ->
  (sw_swept r <= batch -> sw_swept r1 <= batch)%nat ->
  (forall user, g.1 <> ""%string -> users d !! g.1 = Some user -> u_walletAddress user <> ""%string ->
     covered d1 (u_walletAddress user) g.2) ->
  sweepPost batch (g :: gs) r r' d d'.
Proof.
  intros (L & B & S & C) Hn Hr Hb Hg. split; [lia|]. split; [lia|]. split.
  - replace (sw_swept r' - sw_swept r)%nat with ((sw_swept r' - sw_swept r1) + n)%nat by lia.
    exact (swept_trans _ _ _ _ _ Hn S).
  - intros Hlt u t user Hin Hu Hus Hw. apply elem_of_cons in Hin as [<-|Hin].
    + apply (covered_mono d1); [apply S | exact (Hg user Hu Hus Hw)].
    + rewrite <- (sp_users _ _ _ Hn) in Hus. exact (C Hlt u t user Hin Hu Hus Hw).
Qed.

Lemma alreadySwept_covered wallet t o d :
  alreadySwept t o = true ->
  (forall c, o = Some c -> (exists k, claims d !! k = Some c) /\
     String.eqb (c_walletAddress c) wallet && bool_decide (c_status c = CL_CONFIRMED) = true) ->
  covered d wallet t.
Proof.
  intros Ha Ho. right. destruct t as [t0|], o as [c|]; try discriminate.
  destruct (Ho c eq_refl) as [[k Hk] Hc]. bool_hyps. apply Z.leb_le in Ha.
  exists k, c, t0. rewrite String.eqb_eq in *. auto.
Qed.

Lemma sweepGroups_post batch groups : forall r w r' w',
  sweepGroups batch groups r w = (inr r', w') -> sweepPost batch groups r r' (w_db w) (w_db w').
Proof.
  induction groups as [|[u t] gs IH]; intros r w r' w' Hr; cbn [sweepGroups] in Hr.
  { injection Hr as <- <-. split; [lia|]. split; [lia|]. rewrite Nat.sub_diag.
    split; [apply swept_refl|]. intros _ u t user Hin. inversion Hin. }
  destruct (String.eqb_spec u "") as [->|Hu].
  { eapply sweepPost_cons; [exact (IH _ _ _ _ Hr) | apply swept_refl | reflexivity | lia|].
    intros user Hn. contradiction. }
  apply bind_inr_inv in Hr as (o & w1 & Ho & Hr). injection Ho as Ho <-. cbn in Ho.
  destruct o as [user|].
  2:{ eapply sweepPost_cons; [exact (IH _ _ _ _ Hr) | apply swept_refl | reflexivity | lia|].
      cbn. intros; congruence. }
  destruct (String.eqb_spec (u_walletAddress user) "") as [He|Hw].
  { eapply sweepPost_cons; [exact (IH _ _ _ _ Hr) | apply swept_refl | reflexivity | lia|].
    cbn. intros; congruence. }
  apply bind_inr_inv in Hr as (open & w1 & Hopen & Hr). apply findFirst_inv in Hopen as [-> Hopen].
  destruct open as [c|].
  { eapply sweepPost_cons; [exact (IH _ _ _ _ Hr) | apply swept_refl | destruct r; reflexivity | destruct r; cbn; lia|].
    cbn. intros user' _ Hus' _. rewrite Ho in Hus'. injection Hus' as <-.
    left. destruct Hopen as [[k Hk] Hc]. eauto. }
  apply bind_inr_inv in Hr as (lc & w1 & Hlc & Hr). apply findFirst_inv in Hlc as [-> Hlc].
  destruct (alreadySwept t lc) eqn:Ea.
  { eapply sweepPost_cons; [exact (IH _ _ _ _ Hr) | apply swept_refl | destruct r; reflexivity | destruct r; cbn; lia|].
    cbn. intros user' _ Hus' _. rewrite Ho in Hus'. injection Hus' as <-.
    apply (alreadySwept_covered _ _ lc); [exact Ea|]. intros c ->. exact Hlc. }
  destruct (Nat.leb_spec batch (sw_swept r)) as [Hb|Hb].
  { injection Hr as <- <-. split; [lia|]. split; [lia|]. rewrite Nat.sub_diag.
    split; [apply swept_refl | lia]. }
  apply bind_inr_inv in Hr as ([] & w1 & Hq & Hr).
  destruct (queueClaim_inv user w w1 Hq Hopen) as [Hs Hc].
  eapply sweepPost_cons; [exact (IH _ _ _ _ Hr) | exact Hs | destruct r; reflexivity | destruct r; cbn in *; lia|].
  cbn. intros user' _ Hus' _. rewrite Ho in Hus'. injection Hus' as <-. left. exact Hc.
Qed.

(** The sweep queues what is missing and nothing twice. It leaves every
    claim as it is and adds at most a batch of new ones; a wallet with at most
    one open claim keeps at most one; and unless the batch is used up, every
    wallet of the inspected users with resolved bets then has an open claim or
    one confirmed since its last resolution. *)
Theorem sweep_spec cfg w r w' :
  sweepUnclaimedWinnings cfg w = (inr r, w') ->
  swept (sw_swept r) (w_db w) (w_db w') /\ (sw_swept r <= batchSize cfg)%nat /\
  ((sw_swept r < batchSize cfg)%nat ->
   forall u t user, (u, t) ∈ take (batchSize cfg * 2) (resolvedGroups (w_db w)) -> u <> ""%string ->
     users (w_db w) !! u = Some user -> u_walletAddress user <> ""%string ->
     covered (w_db w') (u_walletAddress user) t).
Proof.
  intros Hr. apply sweepGroups_post in Hr as (_ & B & S & C). cbn in *.
  rewrite Nat.sub_0_r in S. split; [exact S|]. split; [apply B; lia | exact C].
Qed.
End Sweep.
