(* ===== verification/PredictionReconciliation.v ===== *)
(** * Prediction worker (src/src/services/prediction-reconciliation.service.ts)

    Works the predictions left PENDING or SUBMITTED, with their round and user
    as they were when the batch was read. As in the claim worker, each path
    ends by incrementing one counter. *)

From Stdlib Require Import ZArith QArith Lia.
From stdpp Require Import base gmap strings list pretty.
From S2P Require Import Prelude.
From S2P Require Import Numeric.
From S2P Require Import Errors.
From S2P Require Import Resilience.
From S2P Require Import Schema.
From S2P Require Import Store.
From S2P Require Import Soroban.
From S2P Require Import Prediction.

#[local] Open Scope Z_scope.

Record PredictionReconciliationResult : Type := mkPredResult {
  rr_checked : nat;
  rr_confirmed : nat;
  rr_failed : nat;
  rr_unresolved : nat;
  rr_errors : nat;
}.

Record PredictionReconciliationConfig : Type := mkPredConfig {
  pc_minAgeMs : Z;
  pc_batchSize : nat;
  pc_maxAttempts : Z;
}.

Definition DEFAULT_PREDICTION_CONFIG : PredictionReconciliationConfig := mkPredConfig 60000 50 5.

Definition noPredictions : PredictionReconciliationResult := mkPredResult 0 0 0 0 0.

Definition incRrChecked (r : PredictionReconciliationResult) := r {{ rr_checked := S (rr_checked r) }}.
Definition incRrConfirmed (r : PredictionReconciliationResult) := r {{ rr_confirmed := S (rr_confirmed r) }}.
Definition incRrFailed (r : PredictionReconciliationResult) := r {{ rr_failed := S (rr_failed r) }}.
Definition incRrUnresolved (r : PredictionReconciliationResult) := r {{ rr_unresolved := S (rr_unresolved r) }}.
Definition incRrErrors (r : PredictionReconciliationResult) := r {{ rr_errors := S (rr_errors r) }}.

(** A prediction with its round and user, as included by the query. *)
Record Stranded : Type := mkStranded {
  st_pred : Prediction;
  st_round : option Round;
  st_user : option User;
}.

Section Worker.
Context `{Env} `{DecimalJs} `{PgNumeric}.

Definition isStranded (cutoff : Z) (p : Prediction) : bool :=
  bool_decide (p_chainStatus p = PC_PENDING \/ p_chainStatus p = PC_SUBMITTED) && (p_createdAt p <? cutoff).

Definition findStranded (cutoff : Z) (batch : nat) : Svc (list Stranded) :=
  ps <- findMany (isStranded cutoff) (fun a b => p_createdAt b <? p_createdAt a) ;;
  gets (fun w => map (fun p => mkStranded p (rounds (w_db w) !! p_roundId p) (users (w_db w) !! p_userId p))
                   (take batch ps)).

Definition reviewRow (maxAttempts : Z) (error : option string) (p : Prediction) : Prediction :=
  p {{ p_chainStatus := PC_NEEDS_MANUAL_REVIEW;
       p_chainFailureReason :=
         Some ("Exceeded max reconciliation attempts (" +:+ pretty maxAttempts +:+ ") with tx error: "
               +:+ default "unconfirmed" error)%string }}.

Definition anotherAttempt (p : Prediction) : Prediction :=
  p {{ p_chainAttemptCount := p_chainAttemptCount p + 1 }}.

(** Whether the chain holds a position; the arguments are in the order of the
    call. *)
Definition positionOnChain (s : Stranded) : Svc bool :=
  match truthy (st_round s ≫= r_sorobanRoundId), truthy (u_walletAddress <$> st_user s) with
  | Some sorobanRoundId, Some walletAddress =>
      catch (position <- getUserPosition sorobanRoundId (Some walletAddress) ;;
             ret (match position with Some (_, amount) => 0 <? amount | None => false end))
        (fun _ => ret false)
  | _, _ => ret false
  end.

Definition reconcileWithHash (cfg : PredictionReconciliationConfig) (pred : Prediction) (txHash : string)
    (result : PredictionReconciliationResult) : Svc PredictionReconciliationResult :=
  status <- getTransactionStatus txHash ;;
  if ts_confirmed status && ts_successful status then
    confirmPredictionFromReconciliation (p_id pred) (Some txHash) ;;;
    ret (incRrConfirmed result)
  else if ts_confirmed status && negb (ts_successful status) then
    compensatePrediction (p_id pred) ;;;
    ret (incRrFailed result)
  else if pc_maxAttempts cfg <=? p_chainAttemptCount pred then
    update (p_id pred) (reviewRow (pc_maxAttempts cfg) (ts_error status)) ;;;
    ret (incRrUnresolved result)
  else
    update (p_id pred) anotherAttempt ;;;
    ret (incRrUnresolved result).

Definition reconcileWithoutHash (cfg : PredictionReconciliationConfig) (s : Stranded)
    (result : PredictionReconciliationResult) : Svc PredictionReconciliationResult :=
  let pred := st_pred s in
  confirmedOnChain <- positionOnChain s ;;
  if confirmedOnChain : bool then
    confirmPredictionFromReconciliation (p_id pred) None ;;;
    ret (incRrConfirmed result)
  else if pc_maxAttempts cfg <=? p_chainAttemptCount pred then
    compensatePrediction (p_id pred) ;;;
    ret (incRrFailed result)
  else
    update (p_id pred) anotherAttempt ;;;
    ret (incRrUnresolved result).

Definition reconcileStranded (cfg : PredictionReconciliationConfig)
    (result : PredictionReconciliationResult) (s : Stranded) : Svc PredictionReconciliationResult :=
  let result := incRrChecked result in
  catch (match truthy (p_txHash (st_pred s)) with
         | Some txHash => reconcileWithHash cfg (st_pred s) txHash result
         | None => reconcileWithoutHash cfg s result
         end)
    (fun _ => ret (incRrErrors result)).

Definition reconcilePredictions (cfg : PredictionReconciliationConfig) : Svc PredictionReconciliationResult :=
  t <- now ;;
  stranded <- findStranded (t - pc_minAgeMs cfg) (pc_batchSize cfg) ;;
  foldM (reconcileStranded cfg) noPredictions stranded.
End Worker.

(** ** Properties *)

Section Conservation.
Context `{Env} `{DecimalJs} `{PgNumeric}.

(** Only the prediction [pid] may change. *)
Definition othersKept (pid : string) (w w' : World) : Prop :=
  w_base w = None ->
  w_base w' = None /\ forall k, k <> pid -> predictions (w_db w') !! k = predictions (w_db w) !! k.

#[export] Instance othersKept_preorder pid : PreOrder (othersKept pid).
Proof.
  split; [intros w Hb; auto|]. intros x y z H1' H2' Hb. destruct (H1' Hb) as [Hb1 E1].
  destruct (H2' Hb1) as [Hb2 E2]. split; [exact Hb2|]. intros k Hk. rewrite (E2 k Hk). auto.
Qed.

Lemma others_transaction {A} pid (m : Svc A) :
  respects sameBase m ->
  (forall w a w', m w = (inr a, w') -> forall k, k <> pid -> predictions (w_db w') !! k = predictions (w_db w) !! k) ->
  respects (othersKept pid) (transaction m).
Proof.
  intros Hm Hok w Hb.
  destruct (transaction_db (fun d d' => forall k, k <> pid -> predictions d' !! k = predictions d !! k) m w Hb Hm)
    as [Hc Hn]; [reflexivity | | auto].
  intros w0 a w1 _ Hr. exact (Hok w0 a w1 Hr).
Qed.

Lemma others_agree {A} pid (m : Svc A) : respects sameBase m -> respects (agree predictions) m -> respects (othersKept pid) m.
Proof.
  intros H1' H2' w Hb. split; [rewrite (H1' w); exact Hb|]. intros k _. destruct (H2' w) as [E _]. rewrite E. reflexivity.
Qed.

Lemma others_sent {A} pid (m : Svc A) n c : (forall w, sent n c w (final m w)) -> respects (othersKept pid) m.
Proof. intros Hm. apply others_agree; [eapply sent_base | eapply sent_agree]; exact Hm. Qed.

Lemma others_compensate pid : respects (othersKept pid) (compensatePrediction pid).
Proof.
  apply others_transaction; [apply compensateBody_base|]. intros w a w' Hr k Hk. unfold compensateBody in Hr.
  apply bind_inr_inv in Hr as (o & w1 & Ho & Hr). injection Ho as Ho <-.
  destruct o as [pred|]; [|injection Hr as _ <-; reflexivity].
  apply bind_inr_inv in Hr as (ro & w2 & Hro & Hr). injection Hro as _ <-.
  apply bind_inr_inv in Hr as (rd & w3 & Hro & Hr). apply orThrow_inr_inv in Hro as [_ ->].
  destruct (negb _); [injection Hr as _ <-; reflexivity|].
  apply bind_inr_inv in Hr as (u1 & w4 & Hu & Hr).
  pose proof (agree_update predictions (Row := User) (fun _ _ => eq_refl)
                (p_userId pred) (fun u : User => u {{ u_virtualBalance := colIncDec (u_virtualBalance u) (unitQ (p_amount pred)) }}) w)
    as [A1 _]. unfold final in A1. rewrite Hu in A1. cbn in A1.
  apply bind_inr_inv in Hr as ([] & w5 & Hpool & Hr).
  assert (A2 : predictions (w_db w5) = predictions (w_db w4)).
  { destruct (r_mode rd); [|injection Hpool as <-; reflexivity].
    apply bind_inr_inv in Hpool as (r1 & w8 & Hr1 & Hpool). injection Hpool as <-.
    apply update_inv in Hr1 as (r0 & _ & _ & ->). destruct w4 as [[] ? ? ? ? ? ? ?]; reflexivity. }
  apply bind_inr_inv in Hr as (t & w6 & Ht & Hr). injection Ht as _ <-.
  apply bind_inr_inv in Hr as (p1 & w7 & Hp & Hr). injection Hr as _ <-.
  apply update_inv in Hp as (p0 & _ & _ & ->). rewrite predictions_put, lookup_insert_ne by congruence.
  congruence.
Qed.

Lemma others_finalize pid rid p r h : respects (othersKept pid) (finalizeChainSuccess pid rid p r h).
Proof.
  apply retryOrThrow_respects; [apply _ | | intros d w Hb; destruct w; split; [exact Hb | reflexivity]].
  apply others_transaction; [apply finalizeBody_base|]. intros w a w' Hr k Hk. unfold finalizeBody in Hr.
  apply bind_inr_inv in Hr as (o & w1 & Ho & Hr). injection Ho as Ho <-.
  destruct o as [cur|]; [|injection Hr as _ <-; reflexivity].
  destruct (decide (p_chainStatus cur = PC_PENDING)); [|injection Hr as _ <-; reflexivity].
  apply bind_inr_inv in Hr as (taken & w2 & Ht & Hr). injection Ht as _ <-.
  destruct taken; [discriminate|].
  apply bind_inr_inv in Hr as (t & w3 & Ht & Hr). injection Ht as _ <-.
  apply bind_inr_inv in Hr as (p1 & w4 & Hu & Hr). apply update_inv in Hu as (p0 & _ & -> & ->).
  set (w2 := final _ w) in *.
  pose proof (announce_agree predictions (fun _ _ => eq_refl) rid p r w2) as [Ap _].
  unfold final in Ap. rewrite Hr in Ap. cbn in Ap. rewrite Ap. apply lookup_insert_ne. congruence.
Qed.

Lemma getUserPosition_sent a r w : sent 1 (CallGetUserPosition a r) w (final (getUserPosition a r) w).
Proof. unfold getUserPosition. rewrite final_fmap. apply readCall_sent. Qed.

Lemma others_update pid f : respects (othersKept pid) (update (Row := Prediction) pid f).
Proof.
  intros w Hb. unfold final. destruct (update pid f w) as [[e|p] w'] eqn:Eu.
  - apply updateWhere_err in Eu as [_ ->]. auto.
  - apply update_inv in Eu as (p0 & _ & _ & ->). cbn [snd]. split; [destruct w; exact Hb|].
    intros k Hk. rewrite predictions_put. apply lookup_insert_ne. congruence.
Qed.

(** Reads of the chain, whatever the relation. *)
Lemma others_position pid s : respects (othersKept pid) (positionOnChain s).
Proof.
  unfold positionOnChain. respects_auto. eapply others_sent. intros w. apply getUserPosition_sent.
Qed.
Lemma others_status pid h : respects (othersKept pid) (getTransactionStatus h).
Proof. eapply others_sent. intros w. apply getTransactionStatus_sent. Qed.
Lemma others_confirm pid h : respects (othersKept pid) (confirmPredictionFromReconciliation pid h).
Proof.
  unfold confirmPredictionFromReconciliation. respects_auto; try apply others_finalize.
  all: apply others_agree; respects_auto.
Qed.
#[local] Hint Resolve others_compensate others_update others_position others_status others_confirm : respects.

Lemma others_stranded cfg r s : respects (othersKept (p_id (st_pred s))) (reconcileStranded cfg r s).
Proof. unfold reconcileStranded, reconcileWithHash, reconcileWithoutHash. respects_auto. Qed.

(** ** Money *)

Lemma money_confirm pid h : respects moneyStep (confirmPredictionFromReconciliation pid h).
Proof.
  unfold confirmPredictionFromReconciliation. respects_auto; try apply finalize_money.
  all: intros w Hb; split; [exact Hb | apply conserves_refl].
Qed.
Lemma money_position s : respects moneyStep (positionOnChain s).
Proof.
  unfold positionOnChain. respects_auto. eapply sent_money. intros w. apply getUserPosition_sent.
Qed.
Lemma money_status h : respects moneyStep (getTransactionStatus h).
Proof. eapply sent_money. intros w. apply getTransactionStatus_sent. Qed.

(** Reads that leave the database alone, so that the row is still in progress. *)
Definition readsOnly (w w' : World) : Prop := w_db w' = w_db w /\ w_base w' = w_base w.

#[local] Instance readsOnly_preorder : PreOrder readsOnly.
Proof. split; [split; reflexivity | intros x y z [A B] [C D]; split; congruence]. Qed.

Lemma reads_position s : respects readsOnly (positionOnChain s).
Proof.
  unfold positionOnChain. respects_auto. intros w.
  destruct (getUserPosition_sent s0 (Some s1) w) as (E1 & E2 & _). split; assumption.
Qed.
Lemma reads_status h : respects readsOnly (getTransactionStatus h).
Proof. intros w. destruct (getTransactionStatus_sent h w) as (E1 & E2 & _). split; assumption. Qed.

(** An update that does not touch hands or status of a stake in progress. *)
Lemma money_update pid f w :
  inProgress pid w ->
  (forall p, p_id (f p) = p_id p /\ p_amount (f p) = p_amount p /\ p_compensatedAt (f p) = p_compensatedAt p) ->
  (forall p, p_chainStatus p <> PC_FAILED -> p_chainStatus (f p) <> PC_FAILED) ->
  moneyStep w (final (update (Row := Prediction) pid f) w).
Proof.
  intros (p & Hp & Hn) Hf Hs Hb. destruct (Hf p) as (F1 & F2 & F3).
  pose proof (update_some (Row := Prediction) pid f w p Hp) as Hu. unfold final. rewrite Hu. cbn [snd].
  split; [destruct w; exact Hb|].
  apply (conserves_row _ _ pid p (f p)); auto using predictions_put.
Qed.

Lemma readsOnly_progress pid w w' : readsOnly w w' -> inProgress pid w -> inProgress pid w'.
Proof. intros [E _] (p & Hp & Hn). exists p. rewrite E. auto. Qed.

Lemma stranded_money cfg r s w :
  inProgress (p_id (st_pred s)) w -> moneyStep w (final (reconcileStranded cfg r s) w).
Proof.
  intros Hp. set (pid := p_id (st_pred s)) in *.
  assert (Hup : forall w1 f, inProgress pid w1 -> (f = anotherAttempt \/ exists m e, f = reviewRow m e) ->
    forall g : Prediction -> PredictionReconciliationResult,
    moneyStep w1 (final (p <- update pid f ;; ret (g p)) w1)).
  { intros w1 f Hp1 Hf g. rewrite final_fmap. apply money_update; [exact Hp1 | |];
      destruct Hf as [->|(m & e & ->)]; intros p; destruct p; cbn; auto; congruence. }
  assert (Hf : forall m : Svc PredictionReconciliationResult,
    final (catch m (fun _ => ret (incRrErrors (incRrChecked r)))) w = final m w).
  { intros m. unfold final, catch. destruct (m w) as [[]]; reflexivity. }
  unfold reconcileStranded. rewrite Hf. destruct (truthy (p_txHash (st_pred s))) as [h|].
  - unfold reconcileWithHash. fold pid.
    apply (final_bind_cases readsOnly _ _ _ (fun w' => moneyStep w w') (reads_status h)).
    + intros st w1 Hst Hr. pose proof (readsOnly_progress _ _ _ Hr Hp) as Hp1.
      assert (M1 : moneyStep w w1) by (pose proof (money_status h w) as M; unfold final in M; rewrite Hst in M; exact M).
      transitivity w1; [exact M1|].
      destruct (ts_confirmed st && ts_successful st).
      { rewrite (final_fmap _ (fun _ => incRrConfirmed (incRrChecked r))). apply money_confirm. }
      destruct (ts_confirmed st && negb (ts_successful st)).
      { rewrite (final_fmap _ (fun _ => incRrFailed (incRrChecked r))). apply compensate_money. }
      destruct (pc_maxAttempts cfg <=? p_chainAttemptCount (st_pred s)); apply Hup; eauto.
    + intros e w1 Hst _. pose proof (money_status h w) as M. unfold final in M. rewrite Hst in M. exact M.
  - unfold reconcileWithoutHash. fold pid.
    apply (final_bind_cases readsOnly _ _ _ (fun w' => moneyStep w w') (reads_position s)).
    + intros b w1 Hst Hr. pose proof (readsOnly_progress _ _ _ Hr Hp) as Hp1.
      assert (M1 : moneyStep w w1) by (pose proof (money_position s w) as M; unfold final in M; rewrite Hst in M; exact M).
      transitivity w1; [exact M1|]. destruct b.
      { rewrite (final_fmap _ (fun _ => incRrConfirmed (incRrChecked r))). apply money_confirm. }
      destruct (pc_maxAttempts cfg <=? p_chainAttemptCount (st_pred s)); [|apply Hup; eauto].
      rewrite (final_fmap _ (fun _ => incRrFailed (incRrChecked r))). apply compensate_money.
    + intros e w1 Hst _. pose proof (money_position s w) as M. unfold final in M. rewrite Hst in M. exact M.
Qed.

Lemma pass_money cfg l : forall r w,
  w_base w = None -> NoDup (map (fun s => p_id (st_pred s)) l) ->
  (forall s, s ∈ l -> inProgress (p_id (st_pred s)) w) ->
  conserves (w_db w) (w_db (final (foldM (reconcileStranded cfg) r l) w)).
Proof.
  induction l as [|s l IH]; intros r w Hb Hnd Hp; [apply conserves_refl|].
  cbn [map] in Hnd. apply NoDup_cons in Hnd as [Hni Hnd]. cbn [foldM].
  pose proof (stranded_money cfg r s w (Hp s (list_elem_of_here _ _)) Hb) as [Hb1 C1].
  pose proof (others_stranded cfg r s w Hb) as [_ O1].
  destruct (neverThrows_catch (W := World) (E := Err)
    (match truthy (p_txHash (st_pred s)) with
     | Some txHash => reconcileWithHash cfg (st_pred s) txHash (incRrChecked r)
     | None => reconcileWithoutHash cfg s (incRrChecked r) end) _
    (fun _ => neverThrows_ret (incRrErrors (incRrChecked r))) w) as (r1 & w1 & Hr).
  change (reconcileStranded cfg r s w = (inr r1, w1)) in Hr.
  unfold final in Hb1, C1, O1. rewrite Hr in Hb1, C1, O1. cbn [snd] in *.
  unfold final. rewrite (bind_ok _ _ _ _ _ Hr). intros Hs. destruct (C1 Hs) as [Hs1 E1].
  assert (Hp1 : forall x, x ∈ l -> inProgress (p_id (st_pred x)) w1).
  { intros x Hx. destruct (Hp x (list_elem_of_further _ _ _ Hx)) as (p & Hpx & Hn). exists p. split; [|exact Hn].
    rewrite O1; [exact Hpx|]. intros E. apply Hni. rewrite <- E.
    apply (list_elem_of_fmap_2 (fun s => p_id (st_pred s))). exact Hx. }
  destruct (IH r1 w1 Hb1 Hnd Hp1 Hs1) as [Hs2 E2].
  split; [exact Hs2 | unfold final in E2; congruence].
Qed.
(** C26. The pass conserves money. Whatever the chain answers, resolving the
    stranded predictions of a safe database, when nobody else writes meanwhile,
    leaves it safe with the same total of balances and held stakes. *)
Theorem reconcilePredictions_conserves cfg w :
  w_base w = None -> conserves (w_db w) (w_db (final (reconcilePredictions cfg) w)).
Proof.
  intros Hb Hs. set (f := isStranded (w_now w - pc_minAgeMs cfg)).
  set (rows := take (pc_batchSize cfg) (sortBy (fun a b : Prediction => p_createdAt b <? p_createdAt a)
                                           (rowsWhere f (w_db w)))).
  set (l := map (fun p => mkStranded p (rounds (w_db w) !! p_roundId p) (users (w_db w) !! p_userId p)) rows).
  change (final (reconcilePredictions cfg) w) with (final (foldM (reconcileStranded cfg) noPredictions l) w).
  assert (Hids : map (fun s => p_id (st_pred s)) l = map p_id rows).
  { unfold l. rewrite map_map. reflexivity. }
  apply pass_money; [exact Hb | | | exact Hs].
  - rewrite Hids. unfold rows. rewrite <- firstn_map. eapply sublist_NoDup; [|apply sublist_take].
    rewrite sortBy_Permutation. apply rows_ids_NoDup. apply Hs.
  - intros s Hin. unfold l in Hin. apply list_elem_of_fmap in Hin as (p & -> & Hin). cbn [st_pred].
    unfold rows in Hin. apply elem_of_take in Hin as (i & Hi & _). apply list_elem_of_lookup_2, sorted_rows in Hi.
    apply rowsWhere_spec in Hi as [[k Hk] Hf]. cbn in Hk. exists p.
    rewrite (safe_ids _ Hs _ _ Hk). split; [exact Hk|]. intros E. unfold f, isStranded in Hf. rewrite E in Hf.
    apply andb_true_iff in Hf as [Hf _]. apply bool_decide_eq_true in Hf. destruct Hf; discriminate.
Qed.
End Conservation.

(** ** What the pass cannot do *)

Section Defects.
Context `{Env} `{DecimalJs} `{PgNumeric}.

(** A prediction left SUBMITTED is never confirmed. When the chain reports its
    transaction as successful, the worker counts it as confirmed and leaves the
    database as it is: the finalisation acts on PENDING rows only. *)
Theorem submitted_never_confirmed cfg result s pred r txHash w w1 :
  w_base w = None -> st_pred s = pred ->
  predictions (w_db w) !! p_id pred = Some pred -> rounds (w_db w) !! p_roundId pred = Some r ->
  p_chainStatus pred = PC_SUBMITTED -> truthy (p_txHash pred) = Some txHash ->
  getTransactionStatus txHash w = (inr (mkTransactionStatus true true None), w1) ->
  value (reconcileStranded cfg result s) w = inr (incRrConfirmed (incRrChecked result)) /\
  w_db (final (reconcileStranded cfg result s) w) = w_db w.
Proof.
  intros Hb Hsp Hp Hr Hst Hh Hc.
  destruct (getTransactionStatus_sent txHash w) as (D1 & D2 & _). unfold final in D1, D2. rewrite Hc in D1, D2.
  cbn [snd] in D1, D2.
  assert (Hfin : exists w2, confirmPredictionFromReconciliation (p_id pred) (Some txHash) w1 = (inr tt, w2) /\
                            w_db w2 = w_db w).
  { unfold confirmPredictionFromReconciliation.
    rewrite <- D1 in Hp, Hr.
    erewrite bind_ok by (unfold findUnique, gets; cbn [tbl Table_Prediction]; rewrite Hp; reflexivity); cbv beta iota.
    erewrite bind_ok by (unfold findUnique, gets; cbn [tbl Table_Round]; rewrite Hr; reflexivity); cbv beta iota.
    erewrite bind_ok by reflexivity; cbv beta iota. rewrite decide_False by congruence.
    set (h := Some _). eexists. split.
    - apply retryOrThrow_ok; [cbn; lia|]. unfold transaction. rewrite D2, Hb. unfold finalizeBody.
      set (w0 := w1 {{ w_base := Some (w_db w1) }}).
      assert (Hw0 : predictions (w_db w0) !! p_id pred = Some pred) by (destruct w1; exact Hp).
      erewrite bind_ok by (unfold findUnique, gets; cbn [tbl Table_Prediction]; rewrite Hw0; reflexivity); cbv beta iota.
      rewrite decide_False by congruence. reflexivity.
    - destruct w1; cbn in *. exact D1. }
  destruct Hfin as (w2 & Hfin & E2).
  assert (Hrun : reconcileStranded cfg result s w = (inr (incRrConfirmed (incRrChecked result)), w2)).
  { unfold reconcileStranded. rewrite Hsp, Hh. apply catch_ok. unfold reconcileWithHash.
    rewrite (bind_ok _ _ _ _ _ Hc). cbn [ts_confirmed ts_successful andb].
    rewrite (bind_ok _ _ _ _ _ Hfin). reflexivity. }
  unfold value, final. rewrite Hrun. auto.
Qed.

(** The position is asked for the wrong user. [getUserPosition] takes the
    wallet and then the round; the worker passes the round's contract id as the
    wallet. No query of a prediction without a hash is about its user's wallet,
    unless that is the contract id of the round. *)
Theorem position_query_swapped cfg result s w :
  exists l, w_calls (final (reconcileStranded cfg result s) w) = (l ++ w_calls w)%list /\
    forall a r, CallGetUserPosition a r ∈ l ->
      Some a = truthy (st_round s ≫= r_sorobanRoundId) /\ r = truthy (u_walletAddress <$> st_user s).
Proof.
  set (ok := fun c => forall a r, c = CallGetUserPosition a r ->
    Some a = truthy (st_round s ≫= r_sorobanRoundId) /\ r = truthy (u_walletAddress <$> st_user s)).
  enough (Hr : respects (callsOnly ok) (reconcileStranded cfg result s)).
  { destruct (Hr w) as (l & E & F). exists l. split; [exact E|]. intros a r Hin.
    rewrite Forall_forall in F. exact (F _ Hin a r eq_refl). }
  assert (Hpos : respects (callsOnly ok) (positionOnChain s)).
  { unfold positionOnChain.
    destruct (truthy (st_round s ≫= r_sorobanRoundId)) as [x|] eqn:Ex; [|respects_auto].
    destruct (truthy (u_walletAddress <$> st_user s)) as [y|] eqn:Ey; [|respects_auto].
    respects_auto. eapply callsOnly_sent; [|intros w'; apply getUserPosition_sent].
    intros a r [= <- <-]. split; congruence. }
  assert (Hst : forall h, respects (callsOnly ok) (getTransactionStatus h)).
  { intros h. eapply callsOnly_sent; [|intros w'; apply getTransactionStatus_sent]. intros a r. discriminate. }
  assert (Hfin : forall h, respects (callsOnly ok) (confirmPredictionFromReconciliation (p_id (st_pred s)) h)).
  { intros h. apply callsOnly_same. unfold confirmPredictionFromReconciliation. respects_auto.
    apply finalize_calls. }
  assert (Hcomp : respects (callsOnly ok) (compensatePrediction (p_id (st_pred s)))).
  { apply callsOnly_same, calls_transaction. unfold compensateBody. respects_auto. }
  assert (Hup : forall f, respects (callsOnly ok) (update (Row := Prediction) (p_id (st_pred s)) f)).
  { intros f. apply callsOnly_same, calls_update. }
  unfold reconcileStranded, reconcileWithHash, reconcileWithoutHash. respects_auto; auto.
Qed.
End Defects.
