(* ===== verification/Tournament.v ===== *)
(** * Tournaments (src/src/services/tournament.service.ts, src/src/types/tournament.types.ts)

    Creation, registration, the lifecycle, standings and the payout of the
    prize pool. A money string with eight places ([serializeMoney],
    [toFixed(8)]) is represented by its number of units. Settling is cut at the
    point where it awaits: [settlePlan] reads, [settlePay] is its transaction. *)

From Stdlib Require Import ZArith QArith Qround Qpower Lia Lqa Sorted.
From stdpp Require Import base gmap strings list sorting pretty.
From S2P Require Import Prelude.
From S2P Require Import Rounding.
From S2P Require Import Numeric.
From S2P Require Import Doubles.
From S2P Require Import Payout.
From S2P Require Import Errors.
From S2P Require Import Schema.
From S2P Require Import Store.

#[local] Open Scope Z_scope.

(** ** types/tournament.types.ts *)

Definition TOURNAMENT_LIFECYCLE_TRANSITIONS (to : TournamentStatus) : list TournamentStatus :=
  match to with
  | T_UPCOMING => []
  | T_ACTIVE => [T_UPCOMING]
  | T_COMPLETED => [T_ACTIVE]
  | T_CANCELLED => [T_UPCOMING; T_ACTIVE]
  end.

Definition isLegalTournamentTransition (from to : TournamentStatus) : bool :=
  bool_decide (from ∈ TOURNAMENT_LIFECYCLE_TRANSITIONS to).

Record TournamentStanding : Type := mkStanding {
  sd_tournamentId : string;
  sd_participantId : string;
  sd_userId : string;
  sd_rank : nat;
  sd_totalEarnings : Z;
  sd_totalWins : Z;
}.

Record TournamentPayoutAllocation : Type := mkAllocation {
  al_rank : nat;
  al_userId : string;
  al_allocation : Z;
}.

Record TournamentPayoutResult : Type := mkPayoutOutcome {
  po_tournamentId : string;
  po_totalPaid : Z;
  po_winnersCount : nat;
  po_allocations : list TournamentPayoutAllocation;
}.

(** [a.localeCompare(b)] on participant ids. These are uuids, and on lower-case
    hexadecimal digits and hyphens collation order is code unit order. *)
Definition localeCompare (a b : string) : Z :=
  match String.compare a b with Lt => -1 | Eq => 0 | Gt => 1 end.

(** [Number("...")] of a money string *)
Definition moneyNumber (z : Z) : num := Fin (f64 (unitQ z)).

Definition compareTournamentStandings (a b : TournamentStanding) : num :=
  let earn := num_sub (moneyNumber (sd_totalEarnings b)) (moneyNumber (sd_totalEarnings a)) in
  if negb (num_eq earn (Fin 0)) then earn
  else
    let wins := sd_totalWins b - sd_totalWins a in
    if negb (wins =? 0) then Fin (inject_Z wins)
    else Fin (inject_Z (localeCompare (sd_participantId a) (sd_participantId b))).

(** ** services/tournament.service.ts *)

Record CreateTournamentInput : Type := mkCreateTournament {
  ct_name : string;
  ct_description : string;
  ct_mode : GameMode;
  ct_entryFee : NumberLike;
  ct_prizePool : NumberLike;
  ct_maxParticipants : Z;
  ct_startTime : Z;
  ct_endTime : Z;
  ct_rounds : Z;
}.

Section Service.
Context `{Env} `{DecimalJs} `{PgNumeric}.

(** Throws for the terminal statuses. *)
Definition assertJoinable (status : TournamentStatus) : Svc unit :=
  match status with
  | T_COMPLETED => throw (ValidationError "Cannot join a COMPLETED tournament; registration is closed.")
  | T_CANCELLED => throw (ValidationError "Tournament is cancelled")
  | _ => ret tt
  end.

Definition isEntry (tournamentId userId : string) (p : TournamentParticipant) : bool :=
  String.eqb (tp_tournamentId p) tournamentId && String.eqb (tp_userId p) userId.

(** [tournamentParticipant.create]: the user must exist. *)
Definition createParticipant (tournamentId userId : string) : Svc TournamentParticipant :=
  id <- newId ;;
  t <- now ;;
  user <- findUnique (Row := User) userId ;;
  match user with
  | None => throw (PrismaError "P2003")
  | Some _ => insertRow id (mkParticipant id tournamentId userId t)
  end.

Definition oneMore (t : Tournament) : Tournament :=
  t {{ t_currentParticipants := t_currentParticipants t + 1 }}.

(** The transaction of [joinTournament], which holds the row's lock. *)
Definition joinBody (userId tournamentId : string) : Svc Tournament :=
  o <- findUnique (Row := Tournament) tournamentId ;;
  txTournament <- orThrow o (NotFoundError "Tournament not found" NOT_FOUND) ;;
  assertJoinable (t_status txTournament) ;;;
  if t_maxParticipants txTournament <=? t_currentParticipants txTournament
  then throw (ConflictError "Tournament is full" CONFLICT)
  else
    existing <- findFirst (isEntry tournamentId userId) unordered ;;
    match existing with
    | Some _ => throw (ConflictError "Already joined this tournament" CONFLICT)
    | None =>
        createParticipant tournamentId userId ;;;
        update tournamentId oneMore
    end.

Definition joinTournament (userId tournamentId : string) : Svc Z :=
  o <- findUnique (Row := Tournament) tournamentId ;;
  tournament <- orThrow o (NotFoundError "Tournament not found" NOT_FOUND) ;;
  assertJoinable (t_status tournament) ;;;
  updated <- transaction (joinBody userId tournamentId) ;;
  ret (t_currentParticipants updated).

Definition createTournament (input : CreateTournamentInput) : Svc Tournament :=
  if ct_maxParticipants input <? 1 then throw (ValidationError "maxParticipants must be at least 1")
  else if ct_rounds input <? 1 then throw (ValidationError "rounds must be at least 1")
  else if ct_endTime input <=? ct_startTime input
  then throw (ValidationError "endTime must be after startTime")
  else
    id <- newId ;;
    t <- now ;;
    insertRow id (mkTournament id (ct_name input) (ct_description input) (ct_mode input) T_UPCOMING
                    (column (toDecimal_any (ct_entryFee input))) (column (toDecimal_any (ct_prizePool input)))
                    (ct_maxParticipants input) 0 (ct_startTime input) (ct_endTime input)
                    (ct_rounds input) t).

Definition getTournament (tournamentId : string) : Svc Tournament :=
  o <- findUnique (Row := Tournament) tournamentId ;;
  orThrow o (NotFoundError "Tournament not found" NOT_FOUND).

Definition transitionTournament (tournamentId : string) (to : TournamentStatus) : Svc Tournament :=
  o <- findUnique (Row := Tournament) tournamentId ;;
  current <- orThrow o (NotFoundError "Tournament not found" NOT_FOUND) ;;
  if isLegalTournamentTransition (t_status current) to then ret current
  else throw (TournamentInvalidStateError (TournamentStatus_str (t_status current)) (TournamentStatus_str to)).

Definition withStatus (status : TournamentStatus) (t : Tournament) : Tournament :=
  t {{ t_status := status }}.

Definition lockTournament (tournamentId : string) : Svc string :=
  transitionTournament tournamentId T_ACTIVE ;;;
  updated <- update tournamentId (withStatus T_ACTIVE) ;;
  ret (t_id updated).

Definition cancelTournament (tournamentId : string) : Svc string :=
  transitionTournament tournamentId T_CANCELLED ;;;
  updated <- update tournamentId (withStatus T_CANCELLED) ;;
  ret (t_id updated).

(** *** Standings *)

Definition standingOf (tournamentId : string) (d : DB) (p : TournamentParticipant) : TournamentStanding :=
  let stats := userStats (aux d) !! tp_userId p in
  mkStanding tournamentId (tp_id p) (tp_userId p) 0
    (match stats with Some s => us_totalEarnings s | None => 0 end)
    (match stats with Some s => us_correctPredictions s | None => 0 end).

(** [standingByUser.set]: a [Map] keeps the place of a key it has. *)
Fixpoint setStanding (s : TournamentStanding) (l : list TournamentStanding) : list TournamentStanding :=
  match l with
  | [] => [s]
  | x :: l' => if String.eqb (sd_userId x) (sd_userId s) then s :: l' else x :: setStanding s l'
  end.

Definition rankFrom (i : nat) (l : list TournamentStanding) : list TournamentStanding :=
  imap (fun k s => s {{ sd_rank := (i + k + 1)%nat }}) l.

Definition orderStandings (l : list TournamentStanding) : list TournamentStanding :=
  rankFrom 0 (sortBy (fun a b => num_lt (Fin 0) (compareTournamentStandings a b)) l).

Definition standingsIn (tournamentId : string) (d : DB) : list TournamentStanding :=
  foldl (fun m p => setStanding (standingOf tournamentId d p) m) []
    (rowsWhere (fun p : TournamentParticipant => String.eqb (tp_tournamentId p) tournamentId) d).

Definition tallyStandings (tournamentId : string) : Svc (list TournamentStanding) :=
  o <- findUnique (Row := Tournament) tournamentId ;;
  tournament <- orThrow o (NotFoundError "Tournament not found" NOT_FOUND) ;;
  gets (fun w => orderStandings (standingsIn tournamentId (w_db w))).

(** *** Allocations *)

(** [d.toFixed(8)], as a number of units: half away from zero. *)
Definition toFixed8 (d : Q) : Z := toFixed0 (d * 100000000).

(** The doubles 0.5, 0.3 and 0.2. *)
Definition weights : list Q := [f64 (1 # 2); f64 (3 # 10); f64 (2 # 10)].

Definition weightSumOf (n : nat) : Q := foldl addDoubles 0%Q (take n weights).

(** The winners' loop from index [i], with what is allocated so far. *)
Fixpoint allocateFrom (pool : Q) (count : nat) (i : nat) (winners : list TournamentStanding) (allocated : Q)
    : list TournamentPayoutAllocation :=
  match winners with
  | [] => []
  | standing :: rest =>
      let weight := f64 (nth i weights 0%Q / weightSumOf count) in
      let amount := if Nat.eqb i (count - 1) then decSub pool allocated
                    else decMul pool (toDecimal weight) in
      let amount := if Qltb amount 0 then 0%Q else amount in
      mkAllocation (sd_rank standing) (sd_userId standing) (toFixed8 amount)
        :: allocateFrom pool count (S i) rest (decAdd allocated amount)
  end.

Definition computeAllocations (pool : Q) (standings : list TournamentStanding)
    : list TournamentPayoutAllocation :=
  if decLte pool 0 || Nat.eqb (length standings) 0 then []
  else
    let winners := take 3 standings in
    allocateFrom pool (length winners) 0 winners 0.

(** *** Settlement *)

Definition creditWinner (amount : Q) (u : User) : User :=
  u {{ u_virtualBalance := colInc (u_virtualBalance u) (toNumber amount); u_wins := u_wins u + 1 }}.

Definition recordWin (userId : string) (amount : Q) (rank : nat) : Svc unit :=
  id <- newId ;;
  t <- now ;;
  insertRow id (mkTransaction id userId (column amount) TX_WIN
                  (Some ("Tournament payout (rank " +:+ pretty rank +:+ ")")%string) t) ;;;
  ret tt.

(** [totalPaid] is threaded through. *)
Definition payAllocation (totalPaid : Q) (a : TournamentPayoutAllocation) : Svc Q :=
  let amount := unitQ (al_allocation a) in
  update (al_userId a) (creditWinner amount) ;;;
  recordWin (al_userId a) amount (al_rank a) ;;;
  ret (decAdd totalPaid amount).

(** Everything before the transaction. *)
Definition settlePlan (tournamentId : string) : Svc (list TournamentPayoutAllocation) :=
  current <- transitionTournament tournamentId T_COMPLETED ;;
  standings <- tallyStandings tournamentId ;;
  ret (computeAllocations (unitQ (t_prizePool current)) standings).

Definition settlePay (tournamentId : string) (allocations : list TournamentPayoutAllocation)
    : Svc TournamentPayoutResult :=
  transaction
    (update tournamentId (withStatus T_COMPLETED) ;;;
     totalPaid <- foldM payAllocation 0%Q allocations ;;
     ret (mkPayoutOutcome tournamentId (toFixed8 totalPaid) (length allocations) allocations)).

Definition settleTournament (tournamentId : string) : Svc TournamentPayoutResult :=
  allocations <- settlePlan tournamentId ;;
  settlePay tournamentId allocations.
End Service.

(** ** Standings *)

Section Standings.

(** The order the comparator defines: earnings as numbers, wins, then id. *)
Definition before (a b : TournamentStanding) : Prop :=
  let ea := f64 (unitQ (sd_totalEarnings a)) in
  let eb := f64 (unitQ (sd_totalEarnings b)) in
  (eb < ea)%Q \/
  ((ea == eb)%Q /\ (sd_totalWins b < sd_totalWins a \/
     (sd_totalWins a = sd_totalWins b /\ String.le (sd_participantId a) (sd_participantId b)))).

Lemma isDouble_money z : isDouble (f64 (unitQ z)).
Proof. apply f64_double. Qed.

Lemma compare_before a b : num_lt (Fin 0) (compareTournamentStandings a b) = false <-> before a b.
Proof.
  unfold compareTournamentStandings, before, moneyNumber.
  set (ea := f64 (unitQ (sd_totalEarnings a))). set (eb := f64 (unitQ (sd_totalEarnings b))).
  assert (Da : isDouble ea) by apply isDouble_money. assert (Db : isDouble eb) by apply isDouble_money.
  rewrite num_sub_zero by assumption. destruct (Qeq_bool ea eb) eqn:E; cbn [negb].
  - apply Qeq_bool_iff in E.
    destruct (Z.eqb_spec (sd_totalWins b - sd_totalWins a) 0) as [Hw|Hw]; cbn [negb].
    + unfold localeCompare. unfold String.le, String.leb.
      destruct (String.compare (sd_participantId a) (sd_participantId b)); cbn.
      * split; [intros _; right; split; [exact E|]; right; split; [lia | exact I] | reflexivity].
      * split; [intros _; right; split; [exact E|]; right; split; [lia | exact I] | reflexivity].
      * split; [discriminate|]. intros [Hl|[_ [Hl|[_ []]]]]; [lra | lia].
    + cbn [num_lt]. rewrite Qltb_false_iff. change 0%Q with (inject_Z 0). rewrite <- Zle_Qle. split.
      * intros Hle. right. split; [exact E|]. left. lia.
      * intros [Hl|[_ [Hl|[Hl _]]]]; [lra | lia | lia].
  - rewrite num_sub_pos by assumption. rewrite Qltb_false_iff.
    assert (Hne : ~ (ea == eb)%Q) by (intros E'; apply Qeq_bool_iff in E'; congruence).
    split; [intros Hle; left; lra | intros [Hl|[Hl _]]; [lra | contradiction]].
Qed.

#[local] Instance before_trans : Transitive before.
Proof.
  unfold before. intros a b c [H1|[H1 H1']] [H2|[H2 H2']]; try (left; lra). right. split; [lra|].
  destruct H1' as [W1|[W1 S1]], H2' as [W2|[W2 S2]]; try (left; lia). right. split; [lia|].
  etransitivity; eassumption.
Qed.

Lemma before_total a b : before a b \/ before b a.
Proof.
  unfold before. destruct (Q_dec (f64 (unitQ (sd_totalEarnings a))) (f64 (unitQ (sd_totalEarnings b)))) as [[H|H]|H];
    [right; left; exact H | left; left; exact H|].
  destruct (Z.lt_trichotomy (sd_totalWins a) (sd_totalWins b)) as [W|[W|W]].
  - right. right. split; [lra|]. left. lia.
  - destruct (String.le_total (sd_participantId a) (sd_participantId b)) as [S|S];
      [left | right]; right; (split; [lra|]); right; (split; [lia|exact S]).
  - left. right. split; [lra|]. left. lia.
Qed.

Definition outranks (a b : TournamentStanding) : bool := num_lt (Fin 0) (compareTournamentStandings a b).

Lemma sorted_standings l : Sorted before (sortBy outranks l).
Proof.
  assert (Hs : Sorted (fun a b => outranks a b = false) (sortBy outranks l)).
  { apply sortBy_Sorted. intros a b Hab. apply compare_before.
    destruct (before_total a b) as [H|H]; [|exact H].
    apply compare_before in H. unfold outranks in Hab. congruence. }
  induction Hs as [|x s Hs IH Hd]; constructor; [exact IH|].
  inversion Hd; constructor. apply compare_before. assumption.
Qed.

(** Participants with the same position are the same. *)
Lemma before_antisym a b : before a b -> before b a -> sd_participantId a = sd_participantId b.
Proof.
  unfold before. intros [H1|[H1 [W1|[W1 S1]]]] [H2|[H2 [W2|[W2 S2]]]]; try lra; try lia.
  apply String.leb_antisym; apply Is_true_true; assumption.
Qed.

Lemma rank_lookup l i : rankFrom 0 l !! i = (fun s => s {{ sd_rank := (i + 1)%nat }}) <$> l !! i.
Proof. unfold rankFrom. rewrite list_lookup_imap. reflexivity. Qed.

Lemma rank_ids l : map sd_participantId (rankFrom 0 l) = map sd_participantId l.
Proof.
  apply list_eq. intros i. rewrite !list_lookup_fmap, rank_lookup.
  destruct (l !! i) as [[]|]; reflexivity.
Qed.

Lemma before_rank i j a b : before a b -> before (a {{ sd_rank := i }}) (b {{ sd_rank := j }}).
Proof. destruct a, b. exact (fun H => H). Qed.

(** Standings do not depend on the order the database returns. Ordering the
    same participants in any order gives the same list; it holds each of them
    once, with ranks counting from 1, and nobody stands behind a participant
    with less earnings, or as much and fewer wins. *)
Theorem standings_order l :
  (forall l', l ≡ₚ l' -> NoDup (map sd_participantId l) -> orderStandings l = orderStandings l') /\
  map sd_participantId (orderStandings l) ≡ₚ map sd_participantId l /\
  (forall i s, orderStandings l !! i = Some s -> sd_rank s = (i + 1)%nat) /\
  (forall i j a b, (i < j)%nat -> orderStandings l !! i = Some a -> orderStandings l !! j = Some b -> before a b).
Proof.
  unfold orderStandings. change (fun a b => num_lt (Fin 0) (compareTournamentStandings a b)) with outranks.
  split; [|split; [|split]].
  - intros l' Hp Hnd. f_equal. apply (Sorted_unique_strong before); [|apply sorted_standings..|].
    + intros a b Ha Hb H1 H2. apply sortBy_elem in Ha, Hb. rewrite <- Hp in Hb.
      apply (NoDup_map_inj sd_participantId l); auto. apply before_antisym; assumption.
    + rewrite !sortBy_Permutation. exact Hp.
  - rewrite rank_ids. apply fmap_Permutation, sortBy_Permutation.
  - intros i s Hi. rewrite rank_lookup in Hi. destruct (_ !! i) as [x|]; [|discriminate].
    injection Hi as <-. destruct x. reflexivity.
  - intros i j a b Hij Ha Hb. rewrite rank_lookup in Ha, Hb.
    destruct (sortBy outranks l !! i) as [x|] eqn:Ex; [|discriminate].
    destruct (sortBy outranks l !! j) as [y|] eqn:Ey; [|discriminate].
    injection Ha as <-. injection Hb as <-. apply before_rank.
    refine (StronglySorted_lookup before _ i j x y _ Hij Ex Ey).
    apply Sorted_StronglySorted; [apply _ | apply sorted_standings].
Qed.
End Standings.

(** ** Allocations *)

Section Allocations.
Context `{DecimalJs}.

(** [n] units divided by [k], rounded half up. *)
Lemma toFixed8_share n (k : positive) d :
  0 <= n -> (d * 100000000 == n # k)%Q -> toFixed8 d = (2 * n + Zpos k) / (2 * Zpos k).
Proof.
  intros Hn Hd. unfold toFixed8, toFixed0.
  assert (Hpos : (0 <= n # k)%Q) by (unfold Qle; cbn; lia).
  assert (Hfl : nearestHalfUp (d * 100000000) = (2 * n + Zpos k) / (2 * Zpos k)).
  { unfold nearestHalfUp. rewrite Hd.
    change (Qfloor ((n # k) + (1 # 2))) with ((n * 2 + 1 * Zpos k) / Zpos (k * 2)).
    f_equal; lia. }
  destruct (Qcompare_spec (d * 100000000) 0) as [E|E|E]; [exact Hfl | rewrite Hd in E; lra | exact Hfl].
Qed.

(** A decimal operation is exact on a result of at most 20 digits. *)
Lemma D_round_digits x y m (k : nat) :
  (x == y)%Q -> (y == m # 10 ^ Pos.of_nat k)%Q -> (0 < k)%nat -> Z.abs m < 10 ^ 20 -> (D_round x == y)%Q.
Proof.
  intros Hx Hy Hk Hm. rewrite <- Hx. apply (D_round_fix x m (- Z.of_nat k)); [|exact Hm].
  rewrite Hx, Hy. unfold bpow. rewrite Qpower_opp.
  assert (E : (inject_Z 10 ^ Z.of_nat k == inject_Z (10 ^ Z.of_nat k))%Q) by (symmetry; apply Zpower_Qpower; lia).
  rewrite E. assert (Ep : 10 ^ Z.of_nat k = Zpos (10 ^ Pos.of_nat k)).
  { rewrite Pos2Z.inj_pow. f_equal. lia. }
  rewrite Ep. unfold Qeq; cbn. lia.
Qed.

(** One step of the loop, when the amount and the new total are known. *)
Lemma allocate_step pool count i s rest allocated amount total n (k : positive) m :
  ((if Nat.eqb i (count - 1) then decSub pool allocated
    else decMul pool (toDecimal (f64 (nth i weights 0%Q / weightSumOf count)))) == amount)%Q ->
  0 <= n -> (amount * 100000000 == n # k)%Q ->
  (allocated + amount == total)%Q -> (total == m # 10 ^ 11)%Q -> Z.abs m < 10 ^ 20 ->
  exists allocated', (allocated' == total)%Q /\
    allocateFrom pool count i (s :: rest) allocated
    = mkAllocation (sd_rank s) (sd_userId s) ((2 * n + Zpos k) / (2 * Zpos k))
        :: allocateFrom pool count (S i) rest allocated'.
Proof.
  intros Ha Hn Hd Ht Hm Hb. cbn [allocateFrom].
  set (a := if Nat.eqb i (count - 1) then _ else _) in *.
  assert (Hpos : (0 <= n # k)%Q) by (unfold Qle; cbn; lia).
  assert (Hlt : Qltb a 0 = false) by (apply Qltb_false_iff; lra). rewrite Hlt.
  exists (decAdd allocated a). split.
  - unfold decAdd. rewrite D_add_spec. apply (D_round_digits _ total m 11); [|exact Hm | lia | exact Hb].
    rewrite Ha. exact Ht.
  - f_equal. f_equal. apply toFixed8_share; [exact Hn|]. rewrite Ha. exact Hd.
Qed.

(** The shares of the winners, in units: halves and tenths of the pool rounded
    half up, or eighths for two. *)
Definition shares (z : Z) (winners : nat) : list Z :=
  match winners with
  | 1%nat => [z]
  | 2%nat => [(5 * z + 4) / 8; (3 * z + 4) / 8]
  | _ => [(z + 1) / 2; (3 * z + 5) / 10; (2 * z + 5) / 10]
  end.

Lemma weight_half : (toDecimal (f64 (nth 0 weights 0%Q / weightSumOf 3)) == 1 # 2)%Q.
Proof. vm_compute. reflexivity. Qed.
Lemma weight_third : (toDecimal (f64 (nth 1 weights 0%Q / weightSumOf 3)) == 3 # 10)%Q.
Proof. vm_compute. reflexivity. Qed.
Lemma weight_two : (toDecimal (f64 (nth 0 weights 0%Q / weightSumOf 2)) == 5 # 8)%Q.
Proof. vm_compute. reflexivity. Qed.

(** [lia] on quotients by constants. *)
#[local] Ltac Zify.zify_post_hook ::= Z.to_euclidean_division_equations.

(** Lists of integers, entry by entry. *)
Ltac list_lia := repeat (apply (f_equal2 cons); [lia|]); reflexivity.

(** Rational identities between multiples of one integer. *)
Ltac q_units := unfold unitQ, Qeq; cbn; lia.

Lemma mul_exact z w (c : Z) :
  (w == c # 1000)%Q -> 0 < c < 1000 -> 0 < z < 10 ^ 17 -> (decMul (unitQ z) w == c * z # 10 ^ 11)%Q.
Proof.
  intros Hw Hc Hz. unfold decMul. rewrite D_mul_spec.
  apply (D_round_digits _ _ (c * z) 11); [rewrite Hw; q_units | reflexivity | lia | nia].
Qed.

Lemma sub_exact z x (c : Z) :
  (x == c * z # 10 ^ 11)%Q -> 0 <= c <= 1000 -> 0 < z < 10 ^ 17 ->
  (decSub (unitQ z) x == (1000 - c) * z # 10 ^ 11)%Q.
Proof.
  intros Hx Hc Hz. unfold decSub. rewrite D_sub_spec.
  apply (D_round_digits _ _ ((1000 - c) * z) 11); [rewrite Hx; q_units | reflexivity | lia | nia].
Qed.

(** One step for a share of [c] thousandths of the pool, after [c0]. *)
Lemma allocate_share z count i s rest allocated (c0 c n : Z) (k : positive) :
  ((if Nat.eqb i (count - 1) then decSub (unitQ z) allocated
    else decMul (unitQ z) (toDecimal (f64 (nth i weights 0%Q / weightSumOf count)))) == c * z # 10 ^ 11)%Q ->
  (allocated == c0 * z # 10 ^ 11)%Q -> 0 <= c0 -> 0 < c -> c0 + c <= 1000 -> c * Zpos k = 1000 * n ->
  0 < z < 10 ^ 17 ->
  exists allocated', (allocated' == (c0 + c) * z # 10 ^ 11)%Q /\
    allocateFrom (unitQ z) count i (s :: rest) allocated
    = mkAllocation (sd_rank s) (sd_userId s) ((2 * (n * z) + Zpos k) / (2 * Zpos k))
        :: allocateFrom (unitQ z) count (S i) rest allocated'.
Proof.
  intros Ha Hal Hc0 Hc Hsum Hk Hz.
  refine (allocate_step _ _ _ _ _ _ _ _ (n * z) k ((c0 + c) * z) Ha _ _ _ _ _).
  - nia.
  - unfold Qeq, Qmult; cbn. nia.
  - rewrite Hal. q_units.
  - reflexivity.
  - nia.
Qed.

Lemma computeAllocations_shares z l :
  0 < z < 10 ^ 17 -> l <> [] ->
  map al_allocation (computeAllocations (unitQ z) l) = shares z (Nat.min 3 (length l)) /\
  map al_userId (computeAllocations (unitQ z) l) = map sd_userId (take 3 l).
Proof.
  intros Hz Hl. unfold computeAllocations, decLte.
  assert (Hpos : Qle_bool (unitQ z) 0 = false).
  { apply not_true_iff_false. rewrite Qle_bool_iff. unfold unitQ, Qle; cbn. lia. }
  rewrite Hpos. destruct l as [|a [|b [|c rest]]]; [contradiction|..]; cbn [length take Nat.eqb orb Nat.min shares].
  - destruct (allocate_share z 1 0 a [] 0 0 1000 1 1) as (x & _ & E); [|q_units|lia..|].
    { cbn [Nat.eqb Nat.sub]. rewrite (sub_exact z 0 0); [reflexivity | q_units | lia | exact Hz]. }
    rewrite E. cbn [map al_allocation al_userId allocateFrom]. split; [|reflexivity]. list_lia.
  - destruct (allocate_share z 2 0 a [b] 0 0 625 5 8) as (x & Hx & E); [|q_units|lia..|].
    { cbn [Nat.eqb Nat.sub]. apply mul_exact; [rewrite weight_two; reflexivity | lia | exact Hz]. }
    rewrite E. clear E.
    destruct (allocate_share z 2 1 b [] x 625 375 3 8) as (y & _ & E); [|exact Hx|lia..|].
    { cbn [Nat.eqb Nat.sub]. apply (sub_exact z x 625); [exact Hx | lia | exact Hz]. }
    rewrite E. cbn [map al_allocation al_userId allocateFrom]. split; [|reflexivity]. list_lia.
  - change (firstn 0 rest) with (@nil TournamentStanding). cbn [length Nat.eqb].
    destruct (allocate_share z 3 0 a [b; c] 0 0 500 1 2) as (x & Hx & E); [|q_units|lia..|].
    { cbn [Nat.eqb Nat.sub]. apply mul_exact; [rewrite weight_half; reflexivity | lia | exact Hz]. }
    rewrite E. clear E. change (take 3 (a :: b :: c :: rest)) with [a; b; c].
    destruct (allocate_share z 3 1 b [c] x 500 300 3 10) as (y & Hy & E); [|exact Hx|lia..|].
    { cbn [Nat.eqb Nat.sub]. apply mul_exact; [rewrite weight_third; reflexivity | lia | exact Hz]. }
    rewrite E. clear E.
    destruct (allocate_share z 3 2 c [] y 800 200 2 10) as (v & _ & E); [|exact Hy|lia..|].
    { cbn [Nat.eqb Nat.sub]. apply (sub_exact z y 800); [exact Hy | lia | exact Hz]. }
    rewrite E. cbn [map al_allocation al_userId allocateFrom]. split; [|reflexivity]. list_lia.
Qed.

(** The prize pool is paid out up to one unit. For a pool of [z] units of
    1e-8 the allocations go to the first three, none is negative, and they add
    up to [z] or [z + 1]: each share is rounded half up when it is printed, and
    the remainder given to the last winner is taken before that rounding. With
    three winners the extra unit is paid exactly when [z] ends in 3, 5 or 9. *)
Theorem allocations_sum z l :
  0 < z < 10 ^ 17 -> l <> [] ->
  let allocations := computeAllocations (unitQ z) l in
  let s := sumZ al_allocation allocations in
  map al_userId allocations = map sd_userId (take 3 l) /\
  (forall a, a ∈ allocations -> 0 <= al_allocation a) /\
  z <= s <= z + 1 /\ (length l = 1%nat -> s = z) /\
  ((3 <= length l)%nat -> s = z + 1 <-> z mod 10 = 3 \/ z mod 10 = 5 \/ z mod 10 = 9).
Proof.
  intros Hz Hl. destruct (computeAllocations_shares z l Hz Hl) as [Ha Hu]. cbn zeta.
  set (al := computeAllocations (unitQ z) l) in *.
  assert (Hs : sumZ al_allocation al = foldr Z.add 0 (map al_allocation al)).
  { clear. induction al as [|a al IH]; [reflexivity|]. cbn. f_equal. exact IH. }
  rewrite Hs, Ha. split; [exact Hu|]. split.
  - intros a Hin. apply (list_elem_of_fmap_2 al_allocation) in Hin. change (al_allocation <$> al) with (map al_allocation al) in Hin.
    rewrite Ha in Hin. clear -Hin Hz. set (x := al_allocation a) in *. clearbody x.
    destruct (Nat.min 3 (length l)) as [|[|[|n]]]; cbn [shares] in Hin;
      repeat (apply elem_of_cons in Hin as [->|Hin]; [lia|]); inversion Hin.
  - destruct l as [|a [|b [|c rest]]]; [contradiction|..]; cbn [length Nat.min shares foldr];
      (split; [lia|]); (split; [intros; lia|]); intros; lia.
Qed.
End Allocations.

(** ** Registration *)

Section Registration.
Context `{Env}.

Definition entered (tid : string) (p : TournamentParticipant) : Z :=
  if String.eqb (tp_tournamentId p) tid then 1 else 0.

(** The number of participants of a tournament. *)
Definition entries (tid : string) (d : DB) : Z := sumMap (entered tid) (participants (aux d)).

(** The counter of every tournament counts its participants, within its
    capacity, and nobody is in a tournament twice. *)
Record rosterOk (d : DB) : Prop := {
  ro_count : forall k t, tournaments (aux d) !! k = Some t -> t_currentParticipants t = entries k d;
  ro_cap : forall k t, tournaments (aux d) !! k = Some t -> t_currentParticipants t <= t_maxParticipants t;
  ro_unique : forall i j p q, participants (aux d) !! i = Some p -> participants (aux d) !! j = Some q ->
    tp_tournamentId p = tp_tournamentId q -> tp_userId p = tp_userId q -> i = j;
}.

(** The database after the user has joined with row [p]. *)
Definition joined (tid : string) (t : Tournament) (p : TournamentParticipant) (d : DB) : DB :=
  d {{ aux := (aux d) {{ tournaments := <[tid := oneMore t]> (tournaments (aux d));
                         participants := <[tp_id p := p]> (participants (aux d)) }} }}.

(** What must hold for a join, and the row it adds. *)
Record joins (userId tid : string) (t : Tournament) (p : TournamentParticipant) (d : DB) : Prop := {
  jn_tournament : tournaments (aux d) !! tid = Some t;
  jn_open : t_status t = T_UPCOMING \/ t_status t = T_ACTIVE;
  jn_room : t_currentParticipants t < t_maxParticipants t;
  jn_first : forall k q, participants (aux d) !! k = Some q -> isEntry tid userId q = false;
  jn_user : users d !! userId <> None;
  jn_fresh : participants (aux d) !! tp_id p = None;
  jn_row : tp_tournamentId p = tid /\ tp_userId p = userId;
}.

Lemma assertJoinable_inv s w w' :
  assertJoinable s w = (inr tt, w') -> w' = w /\ (s = T_UPCOMING \/ s = T_ACTIVE).
Proof. destruct s; intros Hr; try discriminate; injection Hr as <-; auto. Qed.

Lemma tournaments_participants d x :
  tbl (Row := Tournament) (set_tbl (Row := TournamentParticipant) x d) = tournaments (aux d).
Proof. destruct d as [? ? ? ? ? ? ? ? []]. reflexivity. Qed.

Lemma joinBody_inv userId tid w t' w' :
  joinBody userId tid w = (inr t', w') ->
  exists t p, joins userId tid t p (w_db w) /\ t' = oneMore t /\ w_db w' = joined tid t p (w_db w).
Proof.
  intros Hr. unfold joinBody in Hr.
  apply bind_inr_inv in Hr as (o & w1 & Ho & Hr). injection Ho as Ho <-.
  apply bind_inr_inv in Hr as (t & w1 & Ht & Hr). apply orThrow_inr_inv in Ht as [-> ->].
  apply bind_inr_inv in Hr as ([] & w1 & Ha & Hr). apply assertJoinable_inv in Ha as [-> Hopen].
  destruct (Z.leb_spec (t_maxParticipants t) (t_currentParticipants t)) as [|Hroom]; [discriminate|].
  apply bind_inr_inv in Hr as (e & w1 & He & Hr). apply findFirst_inv in He as [-> Hfirst].
  destruct e; [discriminate|].
  apply bind_inr_inv in Hr as (p & w1 & Hp & Hr). unfold createParticipant in Hp.
  apply bind_inr_inv in Hp as (pid & w2 & Hid & Hp). apply newId_inv in Hid as [D2 _].
  apply bind_inr_inv in Hp as (tm & w3 & Htm & Hp). injection Htm as <- <-.
  apply bind_inr_inv in Hp as (u & w3 & Hu & Hp). injection Hu as Hu <-. cbn in Hu.
  destruct u as [u|]; [|discriminate].
  apply insertRow_inv in Hp as (Hf & -> & ->). apply update_inv in Hr as (t0 & Ht0 & -> & ->).
  rewrite db_put, tournaments_participants in Ht0. rewrite D2 in *. cbn in Hf, Ho.
  rewrite Ho in Ht0. injection Ht0 as <-.
  exists t, (mkParticipant pid tid userId (w_now w2)). split.
  - split; cbn; auto. rewrite Hu. discriminate.
  - split; [reflexivity|]. rewrite !db_put, D2. destruct (w_db w) as [? ? ? ? ? ? ? ? []]. reflexivity.
Qed.

Lemma joins_roster userId tid t p d : joins userId tid t p d -> rosterOk d -> rosterOk (joined tid t p d).
Proof.
  intros [J1 J2 J3 J4 J5 J6 [J7 J8]] [R1 R2 R3].
  assert (He : forall k, entries k (joined tid t p d) = entered k p + entries k d).
  { intros k. unfold entries, joined. destruct d as [? ? ? ? ? ? ? ? []]; cbn in *. apply sumMap_new, J6. }
  assert (Hp : forall k, entered k p = if decide (k = tid) then 1 else 0).
  { intros k. unfold entered. rewrite J7. destruct (String.eqb_spec tid k), (decide (k = tid)); congruence. }
  assert (Ht : tournaments (aux (joined tid t p d)) = <[tid := oneMore t]> (tournaments (aux d)))
    by (destruct d as [? ? ? ? ? ? ? ? []]; reflexivity).
  assert (Hps : participants (aux (joined tid t p d)) = <[tp_id p := p]> (participants (aux d)))
    by (destruct d as [? ? ? ? ? ? ? ? []]; reflexivity).
  split.
  - intros k t1 Hk. rewrite He, Hp. rewrite Ht in Hk. apply lookup_insert_Some in Hk as [[<- <-]|[Hn Hk]].
    + rewrite decide_True by reflexivity. destruct t; cbn in *. rewrite <- (R1 _ _ J1). cbn. lia.
    + rewrite decide_False by congruence. rewrite (R1 _ _ Hk). lia.
  - intros k t1 Hk. rewrite Ht in Hk. apply lookup_insert_Some in Hk as [[<- <-]|[Hn Hk]].
    + destruct t; cbn in *. lia.
    + exact (R2 _ _ Hk).
  - assert (Hnew : forall k q, participants (aux d) !! k = Some q ->
      tp_tournamentId p = tp_tournamentId q -> tp_userId p = tp_userId q -> False).
    { intros k q Hk E1 E2. specialize (J4 k q Hk). unfold isEntry in J4.
      rewrite <- E1, <- E2, J7, J8, !String.eqb_refl in J4. discriminate. }
    rewrite Hps. intros i j q1 q2 Hi Hj E1 E2.
    apply lookup_insert_Some in Hi as [[<- <-]|[Ni Hi]]; apply lookup_insert_Some in Hj as [[<- <-]|[Nj Hj]].
    + reflexivity.
    + destruct (Hnew _ _ Hj E1 E2).
    + destruct (Hnew _ _ Hi (eq_sym E1) (eq_sym E2)).
    + exact (R3 _ _ _ _ Hi Hj E1 E2).
Qed.

Lemma joinTournament_inv userId tid w n w' :
  w_base w = None -> joinTournament userId tid w = (inr n, w') ->
  exists t p, joins userId tid t p (w_db w) /\ n = t_currentParticipants t + 1 /\
    w_db w' = joined tid t p (w_db w).
Proof.
  intros Hb Hr. unfold joinTournament in Hr.
  apply bind_inr_inv in Hr as (o & w1 & Ho & Hr). injection Ho as _ <-.
  apply bind_inr_inv in Hr as (t0 & w1 & Ht & Hr). apply orThrow_inr_inv in Ht as [_ ->].
  apply bind_inr_inv in Hr as ([] & w1 & Ha & Hr). apply assertJoinable_inv in Ha as [-> _].
  apply bind_inr_inv in Hr as (t1 & w1 & Htx & Hr). injection Hr as <- <-.
  apply transaction_commits in Htx as (w2 & w3 & D2 & Hrun & D3 & _); [|exact Hb].
  apply joinBody_inv in Hrun as (t & p & J & -> & D4). rewrite D2 in *. exists t, p.
  split; [exact J|]. split; [destruct t; reflexivity | congruence].
Qed.

Lemma joinBody_base userId tid : respects sameBase (joinBody userId tid).
Proof. unfold joinBody, createParticipant, assertJoinable. respects_auto. Qed.

Lemma joinTournament_err userId tid w e w' :
  w_base w = None -> joinTournament userId tid w = (inl e, w') -> w_db w' = w_db w.
Proof.
  intros Hb Hr. unfold joinTournament in Hr.
  rewrite (bind_ok (findUnique (Row := Tournament) tid) _ w _ w eq_refl) in Hr.
  destruct (tbl (w_db w) !! tid) as [t|]; [|injection Hr as _ <-; reflexivity].
  rewrite (bind_ok (orThrow (Some t) _) _ w t w eq_refl) in Hr.
  destruct (assertJoinable (t_status t) w) as [[e1|[]] w1] eqn:Ea.
  - rewrite (bind_err _ _ _ _ _ Ea) in Hr. injection Hr as _ <-.
    destruct (t_status t); first [discriminate Ea | injection Ea as _ <-; reflexivity].
  - rewrite (bind_ok _ _ _ _ _ Ea) in Hr. apply assertJoinable_inv in Ea as [-> _].
    destruct (transaction (joinBody userId tid) w) as [[e1|t1] w1] eqn:Et.
    + rewrite (bind_err _ _ _ _ _ Et) in Hr. injection Hr as _ <-.
      apply (transaction_inl _ _ _ _ Hb (joinBody_base userId tid) Et).
    + rewrite (bind_ok _ _ _ _ _ Et) in Hr. discriminate.
Qed.

(** Registration. A join that succeeds found the tournament UPCOMING or ACTIVE
    with room left and the user not in it, adds one participant and one to the
    counter, and reports the new count; a join that fails changes nothing.
    Either way the counters keep counting the participants within capacity,
    and nobody is entered twice. *)
Theorem joinTournament_spec userId tid w :
  w_base w = None ->
  (forall n w', joinTournament userId tid w = (inr n, w') ->
     exists t p, joins userId tid t p (w_db w) /\ n = t_currentParticipants t + 1 /\
       w_db w' = joined tid t p (w_db w)) /\
  (forall e w', joinTournament userId tid w = (inl e, w') -> w_db w' = w_db w) /\
  (rosterOk (w_db w) -> rosterOk (w_db (final (joinTournament userId tid) w))).
Proof.
  intros Hb. split; [intros n w'; apply joinTournament_inv, Hb|].
  split; [intros e w'; apply joinTournament_err, Hb|].
  intros Hro. unfold final. destruct (joinTournament userId tid w) as [[e|n] w'] eqn:Er; cbn [snd].
  - rewrite (joinTournament_err _ _ _ _ _ Hb Er). exact Hro.
  - apply joinTournament_inv in Er as (t & p & J & _ & ->); [|exact Hb]. exact (joins_roster _ _ _ _ _ J Hro).
Qed.
End Registration.

(** ** Settlement *)

Section Settlement.
Context `{Env} `{DecimalJs} `{PgNumeric}.

(** The specification: credit the allocations, one after the other. *)
Definition payUser (us : gmap string User) (a : TournamentPayoutAllocation) : gmap string User :=
  match us !! al_userId a with
  | Some u => <[al_userId a := creditWinner (unitQ (al_allocation a)) u]> us
  | None => us
  end.

Definition payUsers (al : list TournamentPayoutAllocation) (us : gmap string User) : gmap string User :=
  foldl payUser us al.

(** The row that records an allocation. *)
Definition winOf (a : TournamentPayoutAllocation) (x : Transaction) : Prop :=
  x_userId x = al_userId a /\ x_amount x = al_allocation a /\ x_type x = TX_WIN /\
  x_description x = Some ("Tournament payout (rank " +:+ pretty (al_rank a) +:+ ")")%string.

Definition addLog (log : list Transaction) (t : gmap string Transaction) : gmap string Transaction :=
  foldl (fun t x => <[x_id x := x]> t) t log.

Definition newRows (log : list Transaction) (t : gmap string Transaction) : Prop :=
  NoDup (map x_id log) /\ Forall (fun x => t !! x_id x = None) log.

(** The database after the payments, recorded by [log]. *)
Definition paidOut (al : list TournamentPayoutAllocation) (log : list Transaction) (d : DB) : DB :=
  d {{ users := payUsers al (users d); aux := (aux d) {{ transactions := addLog log (transactions (aux d)) }} }}.

Lemma payAllocation_inv total a w total' w' :
  payAllocation total a w = (inr total', w') ->
  is_Some (users (w_db w) !! al_userId a) /\
  exists x, winOf a x /\ transactions (aux (w_db w)) !! x_id x = None /\ w_db w' = paidOut [a] [x] (w_db w).
Proof.
  intros Hr. unfold payAllocation in Hr.
  apply bind_inr_inv in Hr as (u1 & w1 & Hu & Hr). apply bind_inr_inv in Hr as ([] & w2 & Hx & Hr).
  injection Hr as _ <-. apply update_inv in Hu as (u & Hu & -> & ->).
  unfold recordWin in Hx. apply bind_inr_inv in Hx as (id & w3 & Hid & Hx).
  apply newId_inv in Hid as [D3 _]. apply bind_inr_inv in Hx as (t & w4 & Ht & Hx). injection Ht as <- <-.
  apply bind_inr_inv in Hx as (x & w4 & Hi & Hx). injection Hx as <-.
  apply insertRow_inv in Hi as (Hf & -> & ->). rewrite D3, db_put in Hf. cbn in Hu.
  set (x := mkTransaction _ _ _ _ _ _).
  split; [by eexists|]. exists x. split; [|split].
  - repeat split. apply column_unit. reflexivity.
  - destruct (w_db w) as [? ? ? ? ? ? ? ? []]. exact Hf.
  - rewrite db_put, D3, db_put. unfold paidOut, payUsers, payUser. cbn [foldl]. rewrite Hu.
    destruct (w_db w) as [? ? ? ? ? ? ? ? []]. reflexivity.
Qed.

(** All payments: one row each, nothing else. *)
Lemma payAll_inv al : forall total w total' w',
  foldM payAllocation total al w = (inr total', w') ->
  (forall a, a ∈ al -> is_Some (users (w_db w) !! al_userId a)) /\
  exists log, Forall2 winOf al log /\ newRows log (transactions (aux (w_db w))) /\ w_db w' = paidOut al log (w_db w).
Proof.
  induction al as [|a al IH]; intros total w total' w' Hr; cbn [foldM] in Hr.
  { injection Hr as _ <-. split; [by intros a ?%not_elem_of_nil|]. exists []. split; [constructor|].
    split; [split; constructor|]. destruct (w_db w) as [? ? ? ? ? ? ? ? []]. reflexivity. }
  apply bind_inr_inv in Hr as (t1 & w1 & Ha & Hr). apply payAllocation_inv in Ha as (P1 & x & X1 & X2 & X3).
  destruct (IH _ _ _ _ Hr) as (I1 & log & L1 & [L2 L2'] & L3). rewrite X3 in I1, L2', L3. split.
  - intros b Hb. apply elem_of_cons in Hb as [->|Hb]; [exact P1|]. specialize (I1 b Hb).
    change (users (paidOut [a] [x] (w_db w))) with (payUser (users (w_db w)) a) in I1.
    unfold payUser in I1. destruct P1 as [u Hu]. rewrite Hu in I1.
    destruct (decide (al_userId b = al_userId a)) as [->|Hn]; [eauto|].
    rewrite lookup_insert_ne in I1 by congruence. exact I1.
  - change (transactions (aux (paidOut [a] [x] (w_db w)))) with (<[x_id x := x]> (transactions (aux (w_db w)))) in L2'.
    rewrite List.Forall_forall in L2'. exists (x :: log). split; [by constructor|]. split; [split|].
    + change (NoDup (x_id x :: map x_id log)). apply NoDup_cons. split; [|exact L2].
      intros (y & Hy & Hin)%list_elem_of_fmap. apply list_elem_of_In, L2' in Hin. rewrite <- Hy, lookup_insert_eq in Hin. discriminate.
    + constructor; [exact X2|]. apply List.Forall_forall. intros y Hy. specialize (L2' y Hy). cbn in L2'.
      apply lookup_insert_None in L2' as [L2' _]. exact L2'.
    + rewrite L3. destruct (w_db w) as [? ? ? ? ? ? ? ? []]. reflexivity.
Qed.

Lemma addLog_totals al log : Forall2 winOf al log -> forall t, newRows log t ->
  sumMap x_amount (addLog log t) = sumMap x_amount t + sumZ al_allocation al.
Proof.
  induction 1 as [|a x al log (_ & Hx & _) Hl IH]; intros t [Hn Hf]; [cbn; lia|].
  change (NoDup (x_id x :: map x_id log)) in Hn. apply NoDup_cons in Hn as [Hnin Hn]. apply Forall_cons in Hf as [Hfx Hf].
  change (addLog (x :: log) t) with (addLog log (<[x_id x := x]> t)). rewrite IH.
  - rewrite sumMap_new by exact Hfx. rewrite Hx.
    change (sumZ al_allocation (a :: al)) with (al_allocation a + sumZ al_allocation al). lia.
  - split; [exact Hn|]. apply Forall_forall. intros y Hy. apply lookup_insert_None.
    split; [exact (proj1 (Forall_forall _ _) Hf y Hy)|]. intros E. apply Hnin. rewrite E. apply list_elem_of_fmap. by exists y.
Qed.

(** Balances grow by exactly what is allocated, below ten million XLM each. *)
Lemma payUsers_total al : forall us,
  (forall a, a ∈ al -> is_Some (us !! al_userId a) /\ Z.abs (al_allocation a) < 10 ^ 15) ->
  sumMap u_virtualBalance (payUsers al us) = sumMap u_virtualBalance us + sumZ al_allocation al.
Proof.
  induction al as [|a al IH]; intros us Hall; [cbn; lia|].
  destruct (Hall a (list_elem_of_here _ _)) as [[u Hu] Ha].
  change (payUsers (a :: al) us) with (payUsers al (payUser us a)). rewrite IH.
  - unfold payUser. rewrite Hu, (sumMap_replace u_virtualBalance us _ u) by exact Hu.
    change (sumZ al_allocation (a :: al)) with (al_allocation a + sumZ al_allocation al).
    assert (E : u_virtualBalance (creditWinner (unitQ (al_allocation a)) u) = u_virtualBalance u + al_allocation a).
    { unfold creditWinner. destruct u. cbn. unfold colInc. apply colIncDec_unit.
      unfold toNumber. rewrite D_toNumber_spec. apply num_to_dec_unit, Ha. }
    rewrite E. lia.
  - intros b Hb. destruct (Hall b (list_elem_of_further _ _ _ Hb)) as [Hi Hs]. split; [|exact Hs].
    unfold payUser. rewrite Hu. destruct (decide (al_userId b = al_userId a)) as [->|Hn].
    + rewrite lookup_insert_eq. eauto.
    + rewrite lookup_insert_ne by congruence. exact Hi.
Qed.

Lemma transition_inv id to w t w' :
  transitionTournament id to w = (inr t, w') ->
  w' = w /\ tournaments (aux (w_db w)) !! id = Some t /\ isLegalTournamentTransition (t_status t) to = true.
Proof.
  intros Hr. unfold transitionTournament in Hr.
  apply bind_inr_inv in Hr as (o & w1 & Ho & Hr). injection Ho as Ho <-.
  apply bind_inr_inv in Hr as (x & w1 & Ht & Hr). apply orThrow_inr_inv in Ht as [-> ->].
  destruct (isLegalTournamentTransition (t_status x) to) eqn:El; [|discriminate].
  injection Hr as <- <-. auto.
Qed.

(** What a settlement plans to pay. *)
Definition planned (id : string) (t : Tournament) (d : DB) : list TournamentPayoutAllocation :=
  computeAllocations (unitQ (t_prizePool t)) (orderStandings (standingsIn id d)).

Lemma settlePlan_inv id w al w' :
  settlePlan id w = (inr al, w') ->
  w' = w /\ exists t, tournaments (aux (w_db w)) !! id = Some t /\ t_status t = T_ACTIVE /\
    al = planned id t (w_db w).
Proof.
  intros Hr. unfold settlePlan in Hr.
  apply bind_inr_inv in Hr as (t & w1 & Ht & Hr). apply transition_inv in Ht as (-> & Ht & Hl).
  apply bind_inr_inv in Hr as (st & w1 & Hs & Hr). injection Hr as <- <-.
  unfold tallyStandings in Hs. apply bind_inr_inv in Hs as (o & w2 & Ho & Hs). injection Ho as _ <-.
  apply bind_inr_inv in Hs as (x & w2 & Hx & Hs). apply orThrow_inr_inv in Hx as [_ ->]. injection Hs as <- <-.
  split; [reflexivity|]. exists t. split; [exact Ht|]. split; [|reflexivity].
  unfold isLegalTournamentTransition in Hl. apply bool_decide_eq_true in Hl. cbn in Hl. set_solver.
Qed.

Lemma settlePay_base id al : respects sameBase
  (update (Row := Tournament) id (withStatus T_COMPLETED) ;;;
   totalPaid <- foldM payAllocation 0%Q al ;;
   ret (mkPayoutOutcome id (toFixed8 totalPaid) (length al) al)).
Proof. unfold payAllocation, recordWin. respects_auto. Qed.

(** What a payment transaction that commits has done, and all it has done: the
    tournament is COMPLETED, the users are credited, and a WIN row of each
    allocation is in the log. *)
Record settled (id : string) (al : list TournamentPayoutAllocation) (d d' : DB) : Prop := {
  se_rows : exists t log, tournaments (aux d) !! id = Some t /\ Forall2 winOf al log /\
    newRows log (transactions (aux d)) /\
    d' = paidOut al log (d {{ aux := (aux d) {{ tournaments := <[id := withStatus T_COMPLETED t]> (tournaments (aux d)) }} }});
  se_exist : forall a, a ∈ al -> is_Some (users d !! al_userId a);
}.

Lemma se_users id al d d' : settled id al d d' -> users d' = payUsers al (users d).
Proof. intros [(t & log & _ & _ & _ & ->) _]. reflexivity. Qed.

Lemma se_sum id al d d' : settled id al d d' ->
  sumMap x_amount (transactions (aux d')) = sumMap x_amount (transactions (aux d)) + sumZ al_allocation al.
Proof. intros [(t & log & _ & Hl & Hn & ->) _]. exact (addLog_totals al log Hl (transactions (aux d)) Hn). Qed.

Lemma settlePay_inv id al w r w' :
  w_base w = None -> settlePay id al w = (inr r, w') ->
  settled id al (w_db w) (w_db w') /\ po_allocations r = al /\ po_winnersCount r = length al /\ w_base w' = None.
Proof.
  intros Hb Hr. apply transaction_commits in Hr as (w0 & w1 & D0 & Hrun & D1 & B1); [|exact Hb].
  apply bind_inr_inv in Hrun as (t1 & w2 & Hu & Hrun). apply update_inv in Hu as (t & Ht & -> & ->).
  apply bind_inr_inv in Hrun as (tot & w3 & Hp & Hrun). injection Hrun as <- <-.
  apply payAll_inv in Hp as (P1 & log & P2 & P3 & P4). rewrite db_put, D0 in *.
  rewrite D1. cbn in Ht. split; [|auto]. split; [|exact P1].
  exists t, log. split; [exact Ht|]. split; [exact P2|]. split; [exact P3|]. exact P4.
Qed.

(** C20. A settlement pays once and says so. When [settleTournament] returns, the
    tournament was ACTIVE and is COMPLETED; the users are those the payment
    specification yields for its standings; the log has one new WIN row for
    each winner, of that user, of the allocated amount and naming the rank;
    nothing else in the database has changed; and the total of all balances has
    grown by exactly the allocations (each below ten million XLM). When it
    fails nothing has changed. *)
Theorem settleTournament_spec id w :
  w_base w = None ->
  (forall r w', settleTournament id w = (inr r, w') ->
     exists t, tournaments (aux (w_db w)) !! id = Some t /\ t_status t = T_ACTIVE /\
       po_allocations r = planned id t (w_db w) /\ po_winnersCount r = length (planned id t (w_db w)) /\
       settled id (planned id t (w_db w)) (w_db w) (w_db w') /\
       ((forall a, a ∈ planned id t (w_db w) -> Z.abs (al_allocation a) < 10 ^ 15) ->
        sumMap u_virtualBalance (users (w_db w'))
        = sumMap u_virtualBalance (users (w_db w)) + sumZ al_allocation (planned id t (w_db w)))) /\
  (forall e w', settleTournament id w = (inl e, w') -> w_db w' = w_db w).
Proof.
  intros Hb. split.
  - intros r w' Hr. unfold settleTournament in Hr.
    apply bind_inr_inv in Hr as (al & w1 & Hp & Hr).
    apply settlePlan_inv in Hp as (-> & t & Ht & Hst & ->).
    apply settlePay_inv in Hr as (Hs & Ha & Hc & _); [|exact Hb].
    exists t. split; [exact Ht|]. split; [exact Hst|]. split; [exact Ha|]. split; [exact Hc|]. split; [exact Hs|].
    intros Hsmall. rewrite (se_users _ _ _ _ Hs). apply payUsers_total. intros a Hin.
    split; [exact (se_exist _ _ _ _ Hs a Hin) | exact (Hsmall a Hin)].
  - intros e w' Hr. unfold settleTournament in Hr.
    destruct (settlePlan id w) as [[e1|al] w1] eqn:Ep.
    + rewrite (bind_err _ _ _ _ _ Ep) in Hr. injection Hr as _ <-.
      assert (Hq : respects (agree (fun d => d)) (settlePlan id)).
      { unfold settlePlan, transitionTournament, tallyStandings. respects_auto. }
      destruct (Hq w) as [E _]. unfold final in E. rewrite Ep in E. exact E.
    + rewrite (bind_ok _ _ _ _ _ Ep) in Hr. apply settlePlan_inv in Ep as [-> _].
      apply (transaction_inl _ _ _ _ Hb (settlePay_base id al) Hr).
Qed.

(** Two settlements of one tournament that both pass the status check before
    either has written. *)
Definition settleTwice (id : string) : Svc (TournamentPayoutResult * TournamentPayoutResult) :=
  first <- settlePlan id ;;
  second <- settlePlan id ;;
  r1 <- settlePay id first ;;
  r2 <- settlePay id second ;;
  ret (r1, r2).

(** Concurrent settlements pay twice. Neither the check nor the transaction
    of [settleTournament] is conditional on the status when it writes: two
    calls that overlap both report success, and together they credit twice the
    prize pool. *)
Theorem settle_race id w r1 r2 w' :
  w_base w = None -> settleTwice id w = (inr (r1, r2), w') ->
  exists t, tournaments (aux (w_db w)) !! id = Some t /\ t_status t = T_ACTIVE /\
    let al := planned id t (w_db w) in
    po_allocations r1 = al /\ po_allocations r2 = al /\
    users (w_db w') = payUsers al (payUsers al (users (w_db w))) /\
    sumMap x_amount (transactions (aux (w_db w')))
    = sumMap x_amount (transactions (aux (w_db w))) + 2 * sumZ al_allocation al.
Proof.
  intros Hb Hr. unfold settleTwice in Hr.
  apply bind_inr_inv in Hr as (al & w1 & Hp & Hr). apply settlePlan_inv in Hp as (-> & t & Ht & Hst & ->).
  apply bind_inr_inv in Hr as (al2 & w1 & Hp & Hr). apply settlePlan_inv in Hp as (-> & t' & Ht' & _ & ->).
  rewrite Ht in Ht'. injection Ht' as <-.
  apply bind_inr_inv in Hr as (p1 & w1 & Hp1 & Hr). apply settlePay_inv in Hp1 as (S1 & A1 & _ & B1); [|exact Hb].
  apply bind_inr_inv in Hr as (p2 & w2 & Hp2 & Hr). apply settlePay_inv in Hp2 as (S2 & A2 & _ & _); [|exact B1].
  injection Hr as <- <- <-. exists t. cbn zeta. split; [exact Ht|]. split; [exact Hst|].
  split; [exact A1|]. split; [exact A2|].
  split; [rewrite (se_users _ _ _ _ S2), (se_users _ _ _ _ S1); reflexivity|].
  rewrite (se_sum _ _ _ _ S2), (se_sum _ _ _ _ S1). lia.
Qed.
End Settlement.

(** ** Lifecycle *)

Section Lifecycle.
Context `{Env}.

(** Check, then write, as [lockTournament] and [cancelTournament] do. *)
Definition moveTo (id : string) (to : TournamentStatus) : Svc string :=
  transitionTournament id to ;;;
  updated <- update id (withStatus to) ;;
  ret (t_id updated).

Lemma moveTo_spec id to w :
  moveTo id to w =
  match tournaments (aux (w_db w)) !! id with
  | None => (inl (NotFoundError "Tournament not found" NOT_FOUND), w)
  | Some t =>
      if isLegalTournamentTransition (t_status t) to
      then (inr (t_id t), final (putRow id (withStatus to t) : Svc unit) w)
      else (inl (TournamentInvalidStateError (TournamentStatus_str (t_status t)) (TournamentStatus_str to)), w)
  end.
Proof.
  unfold moveTo. destruct (tournaments (aux (w_db w)) !! id) as [t|] eqn:Et.
  - assert (Ht : transitionTournament id to w =
      if isLegalTournamentTransition (t_status t) to then (inr t, w)
      else (inl (TournamentInvalidStateError (TournamentStatus_str (t_status t)) (TournamentStatus_str to)), w)).
    { unfold transitionTournament, bind, findUnique, gets. cbn. rewrite Et. cbn.
      destruct (isLegalTournamentTransition _ _); reflexivity. }
    destruct (isLegalTournamentTransition (t_status t) to); [|exact (bind_err _ _ _ _ _ Ht)].
    rewrite (bind_ok _ _ _ _ _ Ht). change (tbl (Row := Tournament) (w_db w) !! id = Some t) in Et.
    rewrite (bind_ok _ _ _ _ _ (update_some (Row := Tournament) id _ w t Et)).
    destruct t. reflexivity.
  - unfold transitionTournament, bind, findUnique, gets. cbn. rewrite Et. reflexivity.
Qed.

(** The tournament lifecycle. Locking succeeds exactly from UPCOMING and
    cancelling exactly from UPCOMING or ACTIVE; each then changes that
    tournament's status and nothing else, and refuses with a structured error
    and no change otherwise. In particular locking an ACTIVE tournament is
    refused. *)
Theorem lifecycle_spec id w :
  lockTournament id w =
  match tournaments (aux (w_db w)) !! id with
  | None => (inl (NotFoundError "Tournament not found" NOT_FOUND), w)
  | Some t =>
      if decide (t_status t = T_UPCOMING)
      then (inr (t_id t), final (putRow id (withStatus T_ACTIVE t) : Svc unit) w)
      else (inl (TournamentInvalidStateError (TournamentStatus_str (t_status t)) "ACTIVE"), w)
  end /\
  cancelTournament id w =
  match tournaments (aux (w_db w)) !! id with
  | None => (inl (NotFoundError "Tournament not found" NOT_FOUND), w)
  | Some t =>
      if decide (t_status t = T_UPCOMING \/ t_status t = T_ACTIVE)
      then (inr (t_id t), final (putRow id (withStatus T_CANCELLED t) : Svc unit) w)
      else (inl (TournamentInvalidStateError (TournamentStatus_str (t_status t)) "CANCELLED"), w)
  end.
Proof.
  change (lockTournament id w) with (moveTo id T_ACTIVE w).
  change (cancelTournament id w) with (moveTo id T_CANCELLED w).
  rewrite !moveTo_spec. destruct (tournaments (aux (w_db w)) !! id) as [t|]; [|auto].
  destruct (t_status t); split; reflexivity.
Qed.
End Lifecycle.
