(* ===== verification/JsonText.v ===== *)
(** * JSON text

    [JSON.stringify] on the values of [Schema.Json]. The printing of a finite
    number and of a date are parameters. *)

From Stdlib Require Import ZArith QArith Ascii.
From stdpp Require Import base strings list.
From S2P Require Import Numeric.
From S2P Require Import Schema.

Class JsonText := {
  numberText : Q -> string;
  dateText : Z -> string;
}.

Definition dquote : ascii := ascii_of_nat 34.

(** One character inside a JSON string literal. *)
Definition hexDigit (n : nat) : ascii := ascii_of_nat (if (n <? 10)%nat then 48 + n else 87 + n).

Definition escapeChar (a : ascii) : string :=
  let n := nat_of_ascii a in
  let bs c := String (ascii_of_nat 92) (String c EmptyString) in
  if (n =? 34)%nat then bs dquote
  else if (n =? 92)%nat then bs (ascii_of_nat 92)
  else if (n =? 8)%nat then bs (ascii_of_nat 98)
  else if (n =? 9)%nat then bs (ascii_of_nat 116)
  else if (n =? 10)%nat then bs (ascii_of_nat 110)
  else if (n =? 12)%nat then bs (ascii_of_nat 102)
  else if (n =? 13)%nat then bs (ascii_of_nat 114)
  else if (n <? 32)%nat then
    String (ascii_of_nat 92) (String (ascii_of_nat 117) (String (ascii_of_nat 48) (String (ascii_of_nat 48)
      (String (hexDigit (n / 16)) (String (hexDigit (n mod 16)) EmptyString)))))
  else String a EmptyString.

Fixpoint escape (s : string) : string :=
  match s with
  | EmptyString => EmptyString
  | String a s' => (escapeChar a +:+ escape s')%string
  end.

(** [JSON.stringify] of a string *)
Definition quoted (s : string) : string :=
  (String dquote (escape s) +:+ String dquote EmptyString)%string.

(** [JSON.stringify] *)
Fixpoint jsonStringify `{JsonText} (value : Json) : string :=
  match value with
  | JNull => "null"
  | JBool b => if b then "true" else "false"
  | JNum (Fin q) => numberText q
  | JNum _ => "null"
  | JStr s => quoted s
  | JDate ms => quoted (dateText ms)
  | JArr l => "[" +:+ String.concat "," (map jsonStringify l) +:+ "]"
  | JObj fields =>
      "{" +:+ String.concat ","
        (map (fun kv => (quoted (fst kv) +:+ ":" +:+ jsonStringify (snd kv))%string) fields) +:+ "}"
  end%string.
