(* ===== verification/Idempotency.v ===== *)
(** * Idempotency keys (src/src/utils/idempotency.util.ts)

    A request that carries an idempotency key takes the key's row as a lock
    before it runs its operation, and stores the response in that row
    afterwards. In the database mode other requests act between any two calls:
    [afterFind], [afterPoll], [createRow] and the other pieces are the code
    between two awaits of [acquireIdempotencyLock], and [istep] interleaves
    them for any number of requests, with time passing, expired rows being
    cleaned up and any call failing. The in-memory mode has no await before its
    decision: [memAcquire] is that decision.

    [createHash] of node's crypto library is a parameter. *)

From Stdlib Require Import ZArith QArith Lia Sorted Ascii.
From stdpp Require Import base gmap strings list sorting.
From S2P Require Import Prelude.
From S2P Require Import Numeric.
From S2P Require Import Schema.
From S2P Require Import JsonText.

#[local] Open Scope Z_scope.

(** ** The hash of a request *)

(** [createHash('sha256')...digest('hex')] *)
Class HashEnv := { sha256 : string -> string }.

Section Hash.
Context `{JsonText} `{HashEnv}.

Definition keyGreater (a b : string * string) : bool := String.ltb (fst b) (fst a).

(** The members are rendered and then put in key order; a date is an object
    without own keys. *)
Fixpoint stableStringify (value : Json) : string :=
  match value with
  | JNull => "null"
  | JBool b => if b then "true" else "false"
  | JNum (Fin q) => numberText q
  | JNum _ => "null"
  | JStr s => quoted s
  | JDate _ => "{}"
  | JArr l => "[" +:+ String.concat "," (map stableStringify l) +:+ "]"
  | JObj fields =>
      "{" +:+ String.concat ","
        (map (fun kv => (quoted (fst kv) +:+ ":" +:+ snd kv)%string)
           (sortBy keyGreater (map (fun kv => (fst kv, stableStringify (snd kv))) fields))) +:+ "}"
  end%string.

Definition hashRequestBody (body : Json) : string := sha256 (stableStringify body).
End Hash.

(** ** Rows and results *)

Record IdempotencyRow : Type := mkIdemRow {
  ik_id : nat;
  ik_requestHash : string;
  ik_responseStatus : Z;
  ik_responseBody : Json;
  ik_expiresAt : Z;
}.

(** [IdempotencyCheckResult], with [lockAcquired]. *)
Record IdempotencyResult : Type := mkIdemResult {
  ir_isIdempotent : bool;
  ir_cachedResponse : option (Z * Json);
  ir_error : option string;
  ir_lockAcquired : bool;
}.

Definition notSeen : IdempotencyResult := mkIdemResult false None None false.
Definition lockTaken : IdempotencyResult := mkIdemResult false None None true.
Definition refuse (e : string) : IdempotencyResult := mkIdemResult true None (Some e) false.
Definition replayRow (row : IdempotencyRow) : IdempotencyResult :=
  mkIdemResult true (Some (ik_responseStatus row, ik_responseBody row)) None false.

Definition IDEMPOTENCY_STORE_UNAVAILABLE : string := "IDEMPOTENCY_STORE_UNAVAILABLE".
Definition MISMATCH : string := "Idempotency key reused with different request body".
Definition IN_PROGRESS : string := "A request with this idempotency key is already in progress.".

(** The branch for a completed row. *)
Definition completed (requestHash : string) (row : IdempotencyRow) : IdempotencyResult :=
  if String.eqb (ik_requestHash row) requestHash then replayRow row else refuse MISMATCH.

(** 102: the request that owns the row is in progress. *)
Definition keyInProgress (row : IdempotencyRow) : bool := ik_responseStatus row =? 102.
Definition keyExpired (now : Z) (row : IdempotencyRow) : bool := ik_expiresAt row <? now.

(** [^[a-zA-Z0-9_-]{8,255}$]; in JavaScript [$] without the multiline flag only
    matches at the end. *)
Definition isKeyChar (a : ascii) : bool :=
  let n := nat_of_ascii a in
  ((48 <=? n) && (n <=? 57) || (65 <=? n) && (n <=? 90) || (97 <=? n) && (n <=? 122)
   || (n =? 95) || (n =? 45))%nat.

Definition isValidIdempotencyKey (key : string) : bool :=
  let n := String.length key in
  ((8 <=? n) && (n <=? 255))%nat && forallb isKeyChar (String.list_ascii_of_string key).

(** ** In-memory mode *)

Definition getStoreKey (userId endpoint idempotencyKey : string) : string :=
  (userId +:+ ":" +:+ endpoint +:+ ":" +:+ idempotencyKey)%string.

Notation MemoryStore := (gmap string IdempotencyRow).

(** The record, and the store after a stale one was dropped. *)
Definition getMemoryRecord (now : Z) (key : string) (m : MemoryStore) : option IdempotencyRow * MemoryStore :=
  match m !! key with
  | Some row => if keyExpired now row then (None, delete key m) else (Some row, m)
  | None => (None, m)
  end.

Definition memCheck (now : Z) (key requestHash : string) (m : MemoryStore) : IdempotencyResult * MemoryStore :=
  match getMemoryRecord now key m with
  | (None, m') => (notSeen, m')
  | (Some row, m') => (completed requestHash row, m')
  end.

Definition memStore (now ttlMs : Z) (key requestHash : string) (status : Z) (body : Json) (m : MemoryStore)
    : MemoryStore :=
  <[key := mkIdemRow 0 requestHash status body (now + ttlMs)]> m.

Definition memCleanup (now : Z) (m : MemoryStore) : nat * MemoryStore :=
  let m' := filter (fun '(_, row) => keyExpired now row = false) m in (size m - size m', m')%nat.

Definition memRelease (key : string) (m : MemoryStore) : MemoryStore :=
  match m !! key with
  | Some row => if keyInProgress row then delete key m else m
  | None => m
  end.

(** Up to the first await: an answer, or [None] when the caller starts to
    poll. *)
Definition memAcquire (now ttlMs : Z) (key requestHash : string) (m : MemoryStore)
    : option IdempotencyResult * MemoryStore :=
  match getMemoryRecord now key m with
  | (Some row, m') =>
      if keyInProgress row then (None, m') else (Some (completed requestHash row), m')
  | (None, m') =>
      (Some lockTaken, <[key := mkIdemRow 0 requestHash 102 (JObj []) (now + ttlMs)]> m')
  end.

(** One iteration of the polling loop, after its sleep, with [attempts] done. *)
Definition POLL_ATTEMPTS : nat := 20.
Definition POLL_MS : Z := 250.

Definition memPoll (now : Z) (key requestHash : string) (attempts : nat) (m : MemoryStore)
    : (IdempotencyResult + nat) * MemoryStore :=
  let '(current, m') := getMemoryRecord now key m in
  match current with
  | Some row =>
      if negb (keyInProgress row) then (inl (completed requestHash row), m')
      else (if (S attempts <? POLL_ATTEMPTS)%nat then inr (S attempts) else inl (refuse IN_PROGRESS), m')
  | None => (if (S attempts <? POLL_ATTEMPTS)%nat then inr (S attempts) else inl (refuse IN_PROGRESS), m')
  end.

(** ** Database mode *)

Notation KeyTriple := (string * string * string)%type.
Notation KeyTable := (gmap KeyTriple IdempotencyRow).

(** After [findUnique] of [acquireIdempotencyLock]. *)
Inductive Found : Type :=
| FoundNothing
| FoundExpired (id : nat)
| FoundPending
| FoundCompleted (r : IdempotencyResult).

Definition afterFind (now : Z) (requestHash : string) (existing : option IdempotencyRow) : Found :=
  match existing with
  | None => FoundNothing
  | Some row =>
      if keyExpired now row then FoundExpired (ik_id row)
      else if keyInProgress row then FoundPending
      else FoundCompleted (completed requestHash row)
  end.

(** After the [findUnique] of the polling loop, with [attempts] done before. *)
Definition afterPoll (requestHash : string) (attempts : nat) (polled : option IdempotencyRow)
    : IdempotencyResult + nat :=
  match polled with
  | Some row =>
      if negb (keyInProgress row) then inl (completed requestHash row)
      else if (S attempts <? POLL_ATTEMPTS)%nat then inr (S attempts) else inl (refuse IN_PROGRESS)
  | None => if (S attempts <? POLL_ATTEMPTS)%nat then inr (S attempts) else inl (refuse IN_PROGRESS)
  end.

(** [delete({ where: { id } })]: [None] when the row is gone (P2025). *)
Definition deleteRow (k : KeyTriple) (id : nat) (t : KeyTable) : option KeyTable :=
  match t !! k with
  | Some row => if (ik_id row =? id)%nat then Some (delete k t) else None
  | None => None
  end.

(** [create]: [None] when the key is taken (P2002). *)
Definition createRow (k : KeyTriple) (id : nat) (requestHash : string) (expiresAt : Z) (t : KeyTable)
    : option KeyTable :=
  match t !! k with
  | Some _ => None
  | None => Some (<[k := mkIdemRow id requestHash 102 (JObj []) expiresAt]> t)
  end.

(** [upsert] of [storeIdempotencyResult]; a new row gets the id [id]. *)
Definition upsertRow (k : KeyTriple) (id : nat) (requestHash : string) (status : Z) (body : Json) (expiresAt : Z)
    (t : KeyTable) : KeyTable :=
  match t !! k with
  | Some row => <[k := mkIdemRow (ik_id row) requestHash status body expiresAt]> t
  | None => <[k := mkIdemRow id requestHash status body expiresAt]> t
  end.

(** [deleteMany] of [releaseIdempotencyLock]. *)
Definition releaseRow (k : KeyTriple) (t : KeyTable) : KeyTable :=
  match t !! k with
  | Some row => if keyInProgress row then delete k t else t
  | None => t
  end.

(** [cleanupExpiredIdempotencyKeys] *)
Definition cleanupRows (now : Z) (t : KeyTable) : KeyTable := filter (fun '(_, row) => keyExpired now row = false) t.

(** [checkIdempotency], its calls succeeding. *)
Definition checkRow (now : Z) (k : KeyTriple) (requestHash : string) (t : KeyTable) : IdempotencyResult * KeyTable :=
  match t !! k with
  | None => (notSeen, t)
  | Some row =>
      if keyExpired now row then (notSeen, delete k t) else (completed requestHash row, t)
  end.

(** *** A request *)

(** Where a request is: before its next database call, or between the calls of
    its operation. *)
Inductive ReqState : Type :=
| QStart
| QFind
| QDelete (id : nat)
| QPoll (attempts : nat)
| QCreate
| QRunning (id : nat)                        (** holds the row [id], runs the operation *)
| QStore (id : nat) (body : Json)            (** operation done, response not yet stored *)
| QRelease (id : nat)                        (** operation failed *)
| QReplied (r : IdempotencyResult)           (** answered without running *)
| QExecuted (stored : bool)                  (** answered after running *)
| QFailed
| QCrashed.                                  (** its process stopped *)

Record Request : Type := mkRequest {
  q_key : KeyTriple;
  q_hash : string;
  q_lockTtl : Z;
  q_resultTtl : Z;
  q_expiresAt : Z;
  q_state : ReqState;
}.

(** A completed operation: whose, with which response, and until when the row
    protects it. *)
Record Execution : Type := mkExecution {
  x_key : KeyTriple;
  x_hash : string;
  x_body : Json;
  x_rowId : nat;
  x_until : Z;
  x_stored : bool;
}.

Record IdemSystem : Type := mkIdemSystem {
  is_now : Z;
  is_table : KeyTable;
  is_nextId : nat;
  is_requests : list Request;
  is_log : list Execution;
}.

Definition setState (q : Request) (s : ReqState) : Request := q {{ q_state := s }}.
Definition setReq (i : nat) (q : Request) (y : IdemSystem) : IdemSystem :=
  y {{ is_requests := <[i := q]> (is_requests y) }}.

(** The response of row [id] has been stored: its execution is protected until
    the stored expiry. *)
Definition markStored (id : nat) (until : Z) (e : Execution) : Execution :=
  if (x_rowId e =? id)%nat then e {{ x_until := until; x_stored := true }} else e.

(** Between the computation of its lock's expiry and its last call: the
    requests of which it is assumed that their lock outlives them. *)
Definition working (q : Request) : bool :=
  match q_state q with
  | QFind | QDelete _ | QCreate | QRunning _ | QStore _ _ | QRelease _ => true
  | _ => false
  end.

(** The row a request holds while it works. *)
Definition holds (q : Request) : option nat :=
  match q_state q with QRunning id | QStore id _ | QRelease id => Some id | _ => None end.

(** A call that fails ends the acquisition. *)
Definition unavailable : ReqState := QReplied (refuse IDEMPOTENCY_STORE_UNAVAILABLE).

(** One database call, or the operation itself, by request [i]. *)
Inductive istep : IdemSystem -> IdemSystem -> Prop :=
| is_start y i q :
    is_requests y !! i = Some q -> q_state q = QStart ->
    istep y (setReq i ((setState q QFind) {{ q_expiresAt := is_now y + q_lockTtl q }}) y)
| is_find y i q :
    is_requests y !! i = Some q -> q_state q = QFind ->
    istep y (setReq i (setState q (match afterFind (is_now y) (q_hash q) (is_table y !! q_key q) with
                                   | FoundNothing => QCreate
                                   | FoundExpired id => QDelete id
                                   | FoundPending => QPoll 0
                                   | FoundCompleted r => QReplied r
                                   end)) y)
| is_delete y i q id t :
    is_requests y !! i = Some q -> q_state q = QDelete id ->
    deleteRow (q_key q) id (is_table y) = Some t ->
    istep y (setReq i (setState q QCreate) (y {{ is_table := t }}))
| is_deleted y i q id :
    is_requests y !! i = Some q -> q_state q = QDelete id ->
    deleteRow (q_key q) id (is_table y) = None ->
    istep y (setReq i (setState q unavailable) y)
| is_poll y i q n :
    is_requests y !! i = Some q -> q_state q = QPoll n ->
    istep y (setReq i (setState q (match afterPoll (q_hash q) n (is_table y !! q_key q) with
                                   | inl r => QReplied r
                                   | inr n' => QPoll n'
                                   end)) y)
| is_create y i q t :
    is_requests y !! i = Some q -> q_state q = QCreate ->
    createRow (q_key q) (is_nextId y) (q_hash q) (q_expiresAt q) (is_table y) = Some t ->
    istep y (setReq i (setState q (QRunning (is_nextId y)))
               (y {{ is_table := t; is_nextId := S (is_nextId y) }}))
| is_lost y i q :
    (** created between the lookup and the insertion: start over *)
    is_requests y !! i = Some q -> q_state q = QCreate ->
    createRow (q_key q) (is_nextId y) (q_hash q) (q_expiresAt q) (is_table y) = None ->
    istep y (setReq i (setState q QStart) y)
| is_executed y i q id body :
    is_requests y !! i = Some q -> q_state q = QRunning id ->
    istep y (setReq i (setState q (QStore id body))
               (y {{ is_log := mkExecution (q_key q) (q_hash q) body id (q_expiresAt q) false :: is_log y }}))
| is_failed y i q id :
    is_requests y !! i = Some q -> q_state q = QRunning id ->
    istep y (setReq i (setState q (QRelease id)) y)
| is_store y i q id body :
    is_requests y !! i = Some q -> q_state q = QStore id body ->
    istep y (setReq i (setState q (QExecuted true))
               (y {{ is_table := upsertRow (q_key q) (is_nextId y) (q_hash q) 200 body
                                   (is_now y + q_resultTtl q) (is_table y);
                     is_nextId := S (is_nextId y);
                     is_log := map (markStored id (is_now y + q_resultTtl q)) (is_log y) }}))
| is_release y i q id :
    is_requests y !! i = Some q -> q_state q = QRelease id ->
    istep y (setReq i (setState q QFailed) (y {{ is_table := releaseRow (q_key q) (is_table y) }}))
(** a call fails, with or without effect *)
| is_fault y i q :
    is_requests y !! i = Some q ->
    match q_state q with QFind | QDelete _ | QPoll _ | QCreate => True | _ => False end ->
    istep y (setReq i (setState q unavailable) y)
| is_delete_fault y i q id t :
    is_requests y !! i = Some q -> q_state q = QDelete id ->
    deleteRow (q_key q) id (is_table y) = Some t ->
    istep y (setReq i (setState q unavailable) (y {{ is_table := t }}))
| is_create_fault y i q t :
    is_requests y !! i = Some q -> q_state q = QCreate ->
    createRow (q_key q) (is_nextId y) (q_hash q) (q_expiresAt q) (is_table y) = Some t ->
    istep y (setReq i (setState q unavailable) (y {{ is_table := t; is_nextId := S (is_nextId y) }}))
| is_store_fault y i q id body :
    is_requests y !! i = Some q -> q_state q = QStore id body ->
    istep y (setReq i (setState q (QExecuted false)) y)
| is_release_fault y i q id :
    is_requests y !! i = Some q -> q_state q = QRelease id ->
    istep y (setReq i (setState q QFailed) y)
(** a process stops *)
| is_crash y i q :
    is_requests y !! i = Some q ->
    istep y (setReq i (setState q QCrashed) y)
(** a new request, the cleanup job, and time *)
| is_arrive y q :
    q_state q = QStart -> 0 <= q_lockTtl q -> 0 <= q_resultTtl q ->
    istep y (y {{ is_requests := is_requests y ++ [q] }})
| is_cleanup y : istep y (y {{ is_table := cleanupRows (is_now y) (is_table y) }})
| is_tick y now' :
    (** a request that has not crashed finishes within the time to live of its
        lock, which is hours for operations of seconds *)
    is_now y <= now' ->
    (forall i q, is_requests y !! i = Some q -> working q = true -> now' <= q_expiresAt q) ->
    istep y (y {{ is_now := now' }}).

Inductive ireachable : IdemSystem -> Prop :=
| ir_init now : ireachable (mkIdemSystem now ∅ 0 [] [])
| ir_step y y' : ireachable y -> istep y y' -> ireachable y'.

(** ** At most one execution per key *)

(** The response of [e] is still replayed. *)
Definition protected (now : Z) (e : Execution) : Prop := now <= x_until e.

(** The row that answers for an execution. *)
Definition answersFor (e : Execution) (row : IdempotencyRow) : Prop :=
  ik_id row = x_rowId e /\ ik_requestHash row = x_hash e /\ ik_expiresAt row = x_until e /\
  (if x_stored e then ik_responseStatus row = 200 /\ ik_responseBody row = x_body e
   else ik_responseStatus row = 102).

Record IdemInv (y : IdemSystem) : Prop := {
  iv_rows : forall k row, is_table y !! k = Some row -> (ik_id row < is_nextId y)%nat;
  iv_ttl : forall i q, is_requests y !! i = Some q -> 0 <= q_lockTtl q /\ 0 <= q_resultTtl q;
  iv_working : forall i q, is_requests y !! i = Some q -> working q = true -> is_now y <= q_expiresAt q;
  iv_holder : forall i q id, is_requests y !! i = Some q -> holds q = Some id ->
    exists row, is_table y !! q_key q = Some row /\ ik_id row = id /\
      ik_requestHash row = q_hash q /\ ik_responseStatus row = 102 /\ ik_expiresAt row = q_expiresAt q;
  iv_alone : forall i j q q' id, is_requests y !! i = Some q -> is_requests y !! j = Some q' ->
    holds q = Some id -> holds q' = Some id -> i = j;
  iv_delete : forall i q id, is_requests y !! i = Some q -> q_state q = QDelete id ->
    (id < is_nextId y)%nat /\
    forall row, is_table y !! q_key q = Some row -> ik_id row = id -> ik_expiresAt row < is_now y;
  iv_log : forall e, e ∈ is_log y -> (x_rowId e < is_nextId y)%nat /\
    (protected (is_now y) e -> exists row, is_table y !! x_key e = Some row /\ answersFor e row);
  iv_logIds : NoDup (map x_rowId (is_log y));
  iv_own : forall i q id e, is_requests y !! i = Some q -> holds q = Some id -> e ∈ is_log y -> x_rowId e = id ->
    q_state q = QStore id (x_body e) /\ x_key e = q_key q /\ x_hash e = q_hash q /\ x_stored e = false;
}.

Lemma setReq_lookup i q y j q' :
  is_requests (setReq i q y) !! j = Some q' -> (i = j /\ q' = q) \/ (i <> j /\ is_requests y !! j = Some q').
Proof. cbn. intros [(?&?&_)|?]%list_lookup_insert_Some; auto. Qed.

Lemma holds_working q id : holds q = Some id -> working q = true.
Proof. unfold holds, working. by destruct (q_state q). Qed.

(** A request moves; what it holds afterwards is a row of its own. *)
Lemma inv_set y i q q' :
  IdemInv y -> is_requests y !! i = Some q ->
  0 <= q_lockTtl q' /\ 0 <= q_resultTtl q' ->
  (working q' = true -> is_now y <= q_expiresAt q') ->
  (forall id, q_state q' = QDelete id -> (id < is_nextId y)%nat /\
     forall row, is_table y !! q_key q' = Some row -> ik_id row = id -> ik_expiresAt row < is_now y) ->
  (forall id, holds q' = Some id ->
     (exists row, is_table y !! q_key q' = Some row /\ ik_id row = id /\
        ik_requestHash row = q_hash q' /\ ik_responseStatus row = 102 /\ ik_expiresAt row = q_expiresAt q') /\
     (forall j p, is_requests y !! j = Some p -> holds p = Some id -> i = j) /\
     (forall e, e ∈ is_log y -> x_rowId e <> id)) ->
  IdemInv (setReq i q' y).
Proof.
  intros I Hi Ht Hw Hd Hh. destruct I. split; cbn -[setReq]; try assumption.
  - intros j q0 [[_ ->]|[_ ?]]%setReq_lookup; eauto.
  - intros j q0 [[_ ->]|[_ ?]]%setReq_lookup; eauto.
  - intros j q0 id [[_ ->]|[_ ?]]%setReq_lookup Hq; [by apply Hh|eauto].
  - intros j k q1 q2 id [[<- ->]|[_ H1]]%setReq_lookup [[<- ->]|[_ H2]]%setReq_lookup Hq1 Hq2; [done| | |eauto].
    + destruct (Hh id Hq1) as (_ & Hu & _). eauto.
    + destruct (Hh id Hq2) as (_ & Hu & _). symmetry. eauto.
  - intros j q0 id [[_ ->]|[_ ?]]%setReq_lookup ?; eauto.
  - intros j q0 id e [[_ ->]|[_ ?]]%setReq_lookup Hq Hin Hx; [|eauto].
    destruct (Hh id Hq) as (_ & _ & Hno). by destruct (Hno e Hin).
Qed.

(** A request moves to a state in which it holds nothing. *)
Lemma inv_req y i q q' :
  IdemInv y -> is_requests y !! i = Some q ->
  0 <= q_lockTtl q' /\ 0 <= q_resultTtl q' -> holds q' = None ->
  (working q' = true -> is_now y <= q_expiresAt q') ->
  (forall id, q_state q' = QDelete id -> (id < is_nextId y)%nat /\
     forall row, is_table y !! q_key q' = Some row -> ik_id row = id -> ik_expiresAt row < is_now y) ->
  IdemInv (setReq i q' y).
Proof. intros I Hi Ht Hh Hw Hd. apply (inv_set y i q); auto. congruence. Qed.

(** Rows that answer for no holder and no protected execution disappear. *)
Lemma inv_shrink y t :
  IdemInv y ->
  (forall k row, t !! k = Some row -> is_table y !! k = Some row) ->
  (forall k row, is_table y !! k = Some row -> t !! k = Some row \/
     (forall i q id, is_requests y !! i = Some q -> holds q = Some id -> q_key q <> k) /\
     (forall e, e ∈ is_log y -> protected (is_now y) e -> x_key e <> k)) ->
  IdemInv (y {{ is_table := t }}).
Proof.
  intros I Hsub Hkeep. destruct I. split; cbn; eauto.
  - intros i q id Hi Hq. destruct (iv_holder0 i q id Hi Hq) as (row & Hrow & ?).
    destruct (Hkeep _ _ Hrow) as [?|[Hno _]]; [eauto|]. destruct (Hno i q id Hi Hq eq_refl).
  - intros i q id Hi Hq. destruct (iv_delete0 i q id Hi Hq) as [? He]. eauto.
  - intros e Hin. destruct (iv_log0 e Hin) as [? Hp]. split; [assumption|]. intros Hpr.
    destruct (Hp Hpr) as (row & Hrow & ?). destruct (Hkeep _ _ Hrow) as [?|[_ Hno]]; [eauto|].
    destruct (Hno e Hin Hpr eq_refl).
Qed.

(** Expired rows are among those. *)
Lemma inv_expired y k row :
  IdemInv y -> is_table y !! k = Some row -> ik_expiresAt row < is_now y ->
  (forall i q id, is_requests y !! i = Some q -> holds q = Some id -> q_key q <> k) /\
  (forall e, e ∈ is_log y -> protected (is_now y) e -> x_key e <> k).
Proof.
  intros I Hrow Hexp. split.
  - intros i q id Hi Hq <-. destruct (iv_holder _ I i q id Hi Hq) as (row' & Hrow' & _ & _ & _ & He).
    pose proof (iv_working _ I i q Hi (holds_working q id Hq)). simplify_eq. lia.
  - intros e Hin Hp <-. destruct (iv_log _ I e Hin) as [_ Hr]. destruct (Hr Hp) as (row' & Hrow' & _ & _ & He & _).
    unfold protected in Hp. simplify_eq. lia.
Qed.

Lemma inv_delete_row y i q id t :
  IdemInv y -> is_requests y !! i = Some q -> q_state q = QDelete id ->
  deleteRow (q_key q) id (is_table y) = Some t -> IdemInv (y {{ is_table := t }}).
Proof.
  intros I Hi Hs Hd. destruct (iv_delete _ I i q id Hi Hs) as [_ He]. unfold deleteRow in Hd.
  destruct (is_table y !! q_key q) as [row|] eqn:Hrow; [|done].
  destruct (Nat.eqb_spec (ik_id row) id) as [Hid|]; [|done]. simplify_eq. apply inv_shrink; [done| |].
  - intros k r [_ ?]%lookup_delete_Some. done.
  - intros k r Hk. destruct (decide (k = q_key q)) as [->|]; [right|left; by rewrite lookup_delete_ne].
    exact (inv_expired y _ row I Hrow (He row eq_refl eq_refl)).
Qed.

Lemma inv_cleanup y : IdemInv y -> IdemInv (y {{ is_table := cleanupRows (is_now y) (is_table y) }}).
Proof.
  intros I. apply inv_shrink; [done| |].
  - by intros k r [? _]%map_lookup_filter_Some.
  - intros k r Hk. destruct (keyExpired (is_now y) r) eqn:He; [right|left; by apply map_lookup_filter_Some].
    unfold keyExpired in He. apply Z.ltb_lt in He. exact (inv_expired y _ r I Hk He).
Qed.

(** A created row is nobody's at first. *)
Lemma inv_create_row y k h e t :
  IdemInv y -> createRow k (is_nextId y) h e (is_table y) = Some t ->
  IdemInv (y {{ is_table := t; is_nextId := S (is_nextId y) }}) /\
  t !! k = Some (mkIdemRow (is_nextId y) h 102 (JObj []) e).
Proof.
  intros I Hc. unfold createRow in Hc. destruct (is_table y !! k) eqn:Hk; [done|]. simplify_eq.
  split; [|by rewrite lookup_insert_eq]. destruct I. split; cbn; try assumption.
  - intros k' row [[<- <-]|[_ Hr]]%lookup_insert_Some; cbn; [lia|]. pose proof (iv_rows0 _ _ Hr). lia.
  - intros i q id Hi Hq. destruct (iv_holder0 i q id Hi Hq) as (row & Hrow & ?). exists row. split; [|done].
    rewrite lookup_insert_ne; [done|]. congruence.
  - intros i q id Hi Hq. destruct (iv_delete0 i q id Hi Hq) as [? He]. split; [lia|].
    intros row [[_ <-]|[_ ?]]%lookup_insert_Some ?; cbn in *; [lia|eauto].
  - intros x Hin. destruct (iv_log0 x Hin) as [? Hp]. split; [lia|]. intros Hpr.
    destruct (Hp Hpr) as (row & Hrow & ?). exists row. split; [|done]. rewrite lookup_insert_ne; [done|congruence].
Qed.

Lemma holder_fresh y : IdemInv y -> forall j q', is_requests y !! j = Some q' -> holds q' <> Some (is_nextId y).
Proof.
  intros I j q' Hj Hq. destruct (iv_holder _ I j q' _ Hj Hq) as (row & Hr & Hid & _).
  pose proof (iv_rows _ I _ _ Hr). lia.
Qed.

Lemma log_fresh y : IdemInv y -> forall e, e ∈ is_log y -> x_rowId e <> is_nextId y.
Proof. intros I e Hin. destruct (iv_log _ I e Hin) as [Hlt _]. lia. Qed.

Lemma inv_create y i q t :
  IdemInv y -> is_requests y !! i = Some q -> q_state q = QCreate ->
  createRow (q_key q) (is_nextId y) (q_hash q) (q_expiresAt q) (is_table y) = Some t ->
  IdemInv (setReq i (setState q (QRunning (is_nextId y))) (y {{ is_table := t; is_nextId := S (is_nextId y) }})).
Proof.
  intros I Hi Hs Hc. destruct (inv_create_row _ _ _ _ _ I Hc) as [I' Ht].
  assert (Hw : working q = true) by (unfold working; by rewrite Hs).
  apply (inv_set (y {{ is_table := t; is_nextId := S (is_nextId y) }}) i q); auto; cbn; [exact (iv_ttl _ I i q Hi)|intros _; exact (iv_working _ I i q Hi Hw)|done|].
  intros id [= <-]. split; [by eauto 8|]. split; [|exact (log_fresh y I)].
  intros j q0 Hj Hq0. by destruct (holder_fresh y I j q0 Hj).
Qed.

(** A holder that has not executed keeps its row. *)
Lemma inv_keep y i q s id :
  IdemInv y -> is_requests y !! i = Some q -> q_state q = QRunning id ->
  holds (setState q s) = Some id -> IdemInv (setReq i (setState q s) y).
Proof.
  intros I Hi Hs Hs'. assert (Hq : holds q = Some id) by (unfold holds; by rewrite Hs).
  apply (inv_set y i q); auto.
  - exact (iv_ttl _ I i q Hi).
  - intros _. exact (iv_working _ I i q Hi (holds_working q id Hq)).
  - intros id' Hd. unfold holds in Hs'. cbn in *. by rewrite Hd in Hs'.
  - intros id' Hq'. replace id' with id by congruence. split; [exact (iv_holder _ I i q id Hi Hq)|]. split.
    + intros j p Hj Hp. exact (iv_alone _ I i j q p id Hi Hj Hq Hp).
    + intros e Hin Hx. destruct (iv_own _ I i q id e Hi Hq Hin Hx). congruence.
Qed.

(** The operation of a holder ends. *)
Lemma inv_log y i q id body :
  IdemInv y -> is_requests y !! i = Some q -> q_state q = QStore id body ->
  (forall e, e ∈ is_log y -> x_rowId e <> id) ->
  IdemInv (y {{ is_log := mkExecution (q_key q) (q_hash q) body id (q_expiresAt q) false :: is_log y }}).
Proof.
  intros I Hi Hs Hnew. assert (Hq : holds q = Some id) by (unfold holds; by rewrite Hs).
  destruct (iv_holder _ I i q id Hi Hq) as (row & Hrow & Hid & Hh & H102 & He).
  pose proof (iv_rows _ I _ _ Hrow) as Hlt0. destruct I. split; cbn; try assumption.
  - intros e [->|Hin]%elem_of_cons; [|auto]. cbn. split; [rewrite <- Hid; exact Hlt0|]. intros _. exists row. split; [done|].
    repeat split; auto.
  - constructor; [|done]. intros Hx. apply list_elem_of_fmap in Hx as (e & Hx & Hin). by destruct (Hnew e Hin).
  - intros j q0 id0 e Hj Hq0 Hin Hx. apply elem_of_cons in Hin as [->|Hin]; [|eauto]. cbn in Hx. subst id0.
    change (is_requests y !! j = Some q0) in Hj. pose proof (iv_alone0 i j q q0 id Hi Hj Hq Hq0). subst j. replace q0 with q by congruence. cbn. auto.
Qed.

Lemma inv_executed y i q id body :
  IdemInv y -> is_requests y !! i = Some q -> q_state q = QRunning id ->
  IdemInv (setReq i (setState q (QStore id body))
             (y {{ is_log := mkExecution (q_key q) (q_hash q) body id (q_expiresAt q) false :: is_log y }})).
Proof.
  intros I Hi Hs. pose proof (inv_keep y i q (QStore id body) id I Hi Hs eq_refl) as I'.
  apply (inv_log (setReq i (setState q (QStore id body)) y) i (setState q (QStore id body)) id body) in I'; [exact I'|..].
  - cbn. apply list_lookup_insert_eq. by eapply lookup_lt_Some.
  - done.
  - intros e Hin Hx. destruct (iv_own _ I i q id e Hi ltac:(unfold holds; by rewrite Hs) Hin Hx). congruence.
Qed.

(** The response is stored: the row of the holder now answers for its
    execution until the stored expiry. *)
Lemma inv_stored y i q id body :
  IdemInv y -> is_requests y !! i = Some q -> q_state q = QStore id body ->
  IdemInv (setReq i (setState q (QExecuted true))
             (y {{ is_table := upsertRow (q_key q) (is_nextId y) (q_hash q) 200 body
                                 (is_now y + q_resultTtl q) (is_table y);
                   is_nextId := S (is_nextId y);
                   is_log := map (markStored id (is_now y + q_resultTtl q)) (is_log y) }})).
Proof.
  intros I Hi Hs. assert (Hq : holds q = Some id) by (unfold holds; by rewrite Hs).
  destruct (iv_holder _ I i q id Hi Hq) as (row & Hrow & Hid & Hh & H102 & He).
  pose proof (iv_working _ I i q Hi (holds_working q id Hq)) as Hnow.
  pose proof (iv_ttl _ I i q Hi) as Httl. pose proof (iv_rows _ I _ _ Hrow) as Hlt.
  assert (Hids : forall k r, upsertRow (q_key q) (is_nextId y) (q_hash q) 200 body (is_now y + q_resultTtl q)
                   (is_table y) !! k = Some r ->
                 (k = q_key q /\ r = mkIdemRow id (q_hash q) 200 body (is_now y + q_resultTtl q)) \/
                 (k <> q_key q /\ is_table y !! k = Some r)).
  { intros k r. unfold upsertRow. rewrite Hrow. intros [[<- <-]|[? ?]]%lookup_insert_Some; subst; auto. }
  assert (Hput : forall k, k <> q_key q -> upsertRow (q_key q) (is_nextId y) (q_hash q) 200 body
                   (is_now y + q_resultTtl q) (is_table y) !! k = is_table y !! k).
  { intros k ?. unfold upsertRow. rewrite Hrow. by rewrite lookup_insert_ne. }
  assert (Hmine : upsertRow (q_key q) (is_nextId y) (q_hash q) 200 body (is_now y + q_resultTtl q) (is_table y)
                   !! q_key q = Some (mkIdemRow id (q_hash q) 200 body (is_now y + q_resultTtl q))).
  { unfold upsertRow. rewrite Hrow, lookup_insert_eq. by rewrite Hid. }
  assert (Hothers : forall j p id', i <> j -> is_requests y !! j = Some p -> holds p = Some id' ->
                    q_key p <> q_key q /\ id' <> id).
  { intros j p id' Hij Hj Hp. destruct (iv_holder _ I j p id' Hj Hp) as (r & Hr & Hid' & _).
    assert (id' <> id) by (intros ->; exact (Hij (iv_alone _ I i j q p id Hi Hj Hq Hp))).
    split; [|done]. intros Hk. rewrite Hk in Hr. congruence. }
  set (t := upsertRow _ _ _ _ _ _ _) in *. clearbody t.
  split; cbn -[setReq].
  - intros k r [[_ ->]|[_ Hr]]%Hids; [change (id < S (is_nextId y))%nat; lia|].
    pose proof (iv_rows _ I _ _ Hr). change (ik_id r < S (is_nextId y))%nat. lia.
  - intros j p [[_ ->]|[_ Hj]]%setReq_lookup; cbn; [done|exact (iv_ttl _ I j p Hj)].
  - intros j p [[_ ->]|[_ Hj]]%setReq_lookup; cbn; [done|exact (iv_working _ I j p Hj)].
  - intros j p id' [[_ ->]|[Hij Hj]]%setReq_lookup Hp; [done|].
    destruct (Hothers j p id' Hij Hj Hp). rewrite Hput by done. exact (iv_holder _ I j p id' Hj Hp).
  - intros j k p1 p2 id' [[_ ->]|[_ H1]]%setReq_lookup [[_ ->]|[_ H2]]%setReq_lookup; try done.
    exact (iv_alone _ I j k p1 p2 id' H1 H2).
  - intros j p id' [[_ ->]|[_ Hj]]%setReq_lookup Hp; [done|].
    destruct (iv_delete _ I j p id' Hj Hp) as [? Hold]. split; [change (id' < S (is_nextId y))%nat; lia|].
    intros r [[Hk ->]|[_ Hr]]%Hids Hid'; [|auto]. cbn in Hid'. subst id'.
    rewrite Hk in Hold. pose proof (Hold row Hrow Hid). lia.
  - intros e (x & -> & Hin)%list_elem_of_fmap. destruct (iv_log _ I x Hin) as [Hx Hp]. unfold markStored.
    destruct (Nat.eqb_spec (x_rowId x) id) as [Hxid|Hxid].
    + split; [change (x_rowId x < S (is_nextId y))%nat; lia|]. intros _. destruct (iv_own _ I i q id x Hi Hq Hin Hxid) as (Hb & Hk & Hxh & _).
      eexists. split; [rewrite <- Hk in Hmine; exact Hmine|]. assert (body = x_body x) as -> by congruence.
      repeat split; first [reflexivity | symmetry; assumption].
    + split; [change (x_rowId x < S (is_nextId y))%nat; lia|]. intros Hpr.
      destruct (Hp Hpr) as (r & Hr & Ha). exists r. split; [|done]. cbn -[setReq].
      rewrite Hput; [done|]. intros Hk. rewrite Hk in Hr. destruct Ha as [Ha _]. congruence.
  - change (NoDup (map x_rowId (map (markStored id (is_now y + q_resultTtl q)) (is_log y)))).
    rewrite map_map, (map_ext _ x_rowId); [exact (iv_logIds _ I)|]. intros x. unfold markStored. by destruct (_ =? _)%nat.
  - intros j p id' e [[_ ->]|[Hij Hj]]%setReq_lookup Hp Hin Hx; [done|].
    apply list_elem_of_fmap in Hin as (x & -> & Hin). destruct (Hothers j p id' Hij Hj Hp) as [_ Hne].
    unfold markStored in *. destruct (Nat.eqb_spec (x_rowId x) id) as [Hxid|Hxid].
    { change (x_rowId x = id') in Hx. congruence. }
    exact (iv_own _ I j p id' x Hj Hp Hin Hx).
Qed.

(** The row of a holder whose operation failed is given up. *)
Lemma inv_release y i q id :
  IdemInv y -> is_requests y !! i = Some q -> q_state q = QRelease id ->
  IdemInv (setReq i (setState q QFailed) (y {{ is_table := releaseRow (q_key q) (is_table y) }})).
Proof.
  intros I Hi Hs. assert (Hq : holds q = Some id) by (unfold holds; by rewrite Hs).
  destruct (iv_holder _ I i q id Hi Hq) as (row & Hrow & Hid & _ & H102 & _).
  assert (I' : IdemInv (setReq i (setState q QFailed) y)).
  { apply (inv_req y i q); try done. exact (iv_ttl _ I i q Hi). }
  assert (Hrel : releaseRow (q_key q) (is_table y) = delete (q_key q) (is_table y)).
  { unfold releaseRow, keyInProgress. by rewrite Hrow, H102. }
  rewrite Hrel. apply (inv_shrink _ (delete (q_key q) (is_table y))) in I'; [exact I'|..]; cbn -[setReq].
  - by intros k r [_ ?]%lookup_delete_Some.
  - intros k r Hk. destruct (decide (k = q_key q)) as [->|]; [right|left; by rewrite lookup_delete_ne]. split.
    + intros j p id' [[_ ->]|[Hij Hj]]%setReq_lookup Hp Hkey; [done|].
      destruct (iv_holder _ I j p id' Hj Hp) as (r' & Hr' & Hid' & _). rewrite Hkey in Hr'.
      replace id' with id in Hp by congruence. exact (Hij (iv_alone _ I i j q p id Hi Hj Hq Hp)).
    + intros e Hin Hpr Hkey. destruct (iv_log _ I e Hin) as [_ Hp]. destruct (Hp Hpr) as (r' & Hr' & Ha & _).
      rewrite Hkey in Hr'. assert (Hx : x_rowId e = id) by congruence.
      destruct (iv_own _ I i q id e Hi Hq Hin Hx). congruence.
Qed.

Lemma inv_tick y now' :
  IdemInv y -> is_now y <= now' ->
  (forall i q, is_requests y !! i = Some q -> working q = true -> now' <= q_expiresAt q) ->
  IdemInv (y {{ is_now := now' }}).
Proof.
  intros I Hle Hw. destruct I. split; cbn; try assumption.
  - intros i q id Hi Hq. destruct (iv_delete0 i q id Hi Hq) as [? Hold]. split; [done|].
    intros r Hr Hid. specialize (Hold r Hr Hid). lia.
  - intros e Hin. destruct (iv_log0 e Hin) as [? Hp]. split; [done|]. unfold protected in *. intros. apply Hp. lia.
Qed.

Lemma inv_arrive y q :
  IdemInv y -> q_state q = QStart -> 0 <= q_lockTtl q -> 0 <= q_resultTtl q ->
  IdemInv (y {{ is_requests := is_requests y ++ [q] }}).
Proof.
  intros I Hs H1 H2. assert (Hlook : forall j p, (is_requests y ++ [q]) !! j = Some p ->
    is_requests y !! j = Some p \/ p = q).
  { intros j p [?|[_ [_ <-]%list_lookup_singleton_Some]]%lookup_app_Some; auto. }
  assert (Hh : holds q = None) by (unfold holds; by rewrite Hs).
  assert (Hwk : working q = false) by (unfold working; by rewrite Hs).
  destruct I. split; cbn; try assumption.
  - intros j p [?| ->]%Hlook; eauto.
  - intros j p [?| ->]%Hlook ?; [eauto|congruence].
  - intros j p id [?| ->]%Hlook ?; [eauto|congruence].
  - intros j k p1 p2 id [?| ->]%Hlook [?| ->]%Hlook ??; try congruence. eauto.
  - intros j p id [?| ->]%Hlook ?; [eauto|congruence].
  - intros j p id e [?| ->]%Hlook ???; [eauto|congruence].
Qed.

Lemma inv_step y y' : IdemInv y -> istep y y' -> IdemInv y'.
Proof.
  intros I Hstep. destruct Hstep as
    [y i q Hi Hs | y i q Hi Hs | y i q id t Hi Hs Hd | y i q id Hi Hs Hd | y i q n Hi Hs | y i q t Hi Hs Hc
    | y i q Hi Hs Hc | y i q id body Hi Hs | y i q id Hi Hs | y i q id body Hi Hs | y i q id Hi Hs | y i q Hi Hs
    | y i q id t Hi Hs Hd | y i q t Hi Hs Hc | y i q id body Hi Hs | y i q id Hi Hs | y i q Hi
    | y q Hs H1 H2 | y | y now' Hle Hw];
    try (pose proof (iv_ttl _ I i q Hi) as Httl);
    try (assert (Hnow : working q = true -> is_now y <= q_expiresAt q) by exact (iv_working _ I i q Hi)).
  - apply (inv_req y i q); try done. intros _. change (is_now y <= is_now y + q_lockTtl q). lia.
  - apply (inv_req y i q); try done.
    + unfold holds. cbn. by destruct (afterFind _ _ _).
    + intros _. apply Hnow. unfold working. by rewrite Hs.
    + intros id. cbn. unfold afterFind. destruct (is_table y !! q_key q) as [row|] eqn:Hrow; [|done].
      destruct (keyExpired _ row) eqn:He; [|by destruct (keyInProgress row)]. intros [= <-].
      split; [exact (iv_rows _ I _ _ Hrow)|]. intros row' Hrow' _.
      change (is_table y !! q_key q = Some row') in Hrow'. apply Z.ltb_lt in He. by simplify_eq.
  - apply (inv_req (y {{ is_table := t }}) i q); try done; [by eapply inv_delete_row|].
    intros _. apply Hnow. unfold working. by rewrite Hs.
  - by apply (inv_req y i q).
  - apply (inv_req y i q); try done; cbn.
    + unfold holds. cbn. by destruct (afterPoll _ _ _).
    + unfold working. cbn. by destruct (afterPoll _ _ _).
    + intros id. by destruct (afterPoll _ _ _).
  - by apply inv_create.
  - by apply (inv_req y i q).
  - by apply inv_executed.
  - by apply (inv_keep y i q _ id).
  - by apply inv_stored.
  - by apply (inv_release y i q id).
  - by apply (inv_req y i q).
  - apply (inv_req (y {{ is_table := t }}) i q); try done. by eapply inv_delete_row.
  - apply (inv_req (y {{ is_table := t; is_nextId := S (is_nextId y) }}) i q); try done.
    exact (proj1 (inv_create_row _ _ _ _ _ I Hc)).
  - by apply (inv_req y i q).
  - by apply (inv_req y i q).
  - by apply (inv_req y i q).
  - by apply inv_arrive.
  - by apply inv_cleanup.
  - by apply inv_tick.
Qed.

Lemma ireachable_inv y : ireachable y -> IdemInv y.
Proof.
  induction 1 as [now|y y' _ I Hs]; [|by eapply inv_step]. split; cbn; try done.
  - intros e Hin. by apply not_elem_of_nil in Hin.
  - constructor.
Qed.

(** What a request that finds the row of [e] is told. *)
Definition answerFor (e : Execution) (requestHash : string) : Found :=
  if x_stored e then
    FoundCompleted (if String.eqb (x_hash e) requestHash then mkIdemResult true (Some (200, x_body e)) None false
                    else refuse MISMATCH)
  else FoundPending.

(** C8. However requests with the same key interleave, processes crash, calls fail
    and rows expire, an operation that was completed under a key is not started
    again as long as its row has not expired: no two completed operations of a
    key are protected at the same time, and while one is, no request of the key
    runs its operation. A request that looks the key up meanwhile is given
    exactly the response of that operation once it is stored, an error when its
    body is another one, and waits before. *)
Theorem executed_once y :
  ireachable y ->
  (forall i j e e', is_log y !! i = Some e -> is_log y !! j = Some e' -> x_key e = x_key e' ->
     protected (is_now y) e -> protected (is_now y) e' -> i = j) /\
  forall e, e ∈ is_log y -> protected (is_now y) e ->
    (forall i q id, is_requests y !! i = Some q -> q_key q = x_key e -> q_state q <> QRunning id) /\
    createRow (x_key e) (is_nextId y) (x_hash e) (x_until e) (is_table y) = None /\
    (forall requestHash, afterFind (is_now y) requestHash (is_table y !! x_key e) = answerFor e requestHash).
Proof.
  intros I%ireachable_inv. split.
  - intros i j e e' Hi Hj Hk Hp Hp'.
    destruct (iv_log _ I e) as [_ Hr]; [by eapply list_elem_of_lookup_2|]. destruct (Hr Hp) as (row & Hrow & Hid & _).
    destruct (iv_log _ I e') as [_ Hr']; [by eapply list_elem_of_lookup_2|].
    destruct (Hr' Hp') as (row' & Hrow' & Hid' & _). rewrite <- Hk in Hrow'.
    apply (NoDup_lookup _ i j (x_rowId e) (iv_logIds _ I)); rewrite list_lookup_fmap; [by rewrite Hi|].
    rewrite Hj. cbn. congruence.
  - intros e Hin Hp. destruct (iv_log _ I e Hin) as [_ Hr].
    destruct (Hr Hp) as (row & Hrow & Hid & Hh & He & Hst). split; [|split].
    + intros i q id Hi Hk Hs. assert (Hq : holds q = Some id) by (unfold holds; by rewrite Hs).
      destruct (iv_holder _ I i q id Hi Hq) as (r & Hr' & Hid' & _).
      rewrite Hk in Hr'. destruct (iv_own _ I i q id e Hi Hq Hin); congruence.
    + unfold createRow. by rewrite Hrow.
    + intros rh. unfold afterFind, answerFor, keyExpired. rewrite Hrow, He. unfold protected in Hp.
      destruct (Z.ltb_spec (x_until e) (is_now y)); [lia|]. unfold keyInProgress, completed, replayRow.
      destruct (x_stored e); [destruct Hst as [-> ->]|rewrite Hst]; cbn; [|done]. by rewrite Hh.
Qed.

(** ** Polling *)

(** The loop over what each lookup finds: the answer, if the loop ended. *)
Fixpoint pollLoop (requestHash : string) (attempts : nat) (seen : list (option IdempotencyRow))
    : option IdempotencyResult :=
  match seen with
  | [] => None
  | polled :: seen' =>
      match afterPoll requestHash attempts polled with
      | inl r => Some r
      | inr attempts' => pollLoop requestHash attempts' seen'
      end
  end.

Fixpoint firstCompleted (seen : list (option IdempotencyRow)) : option IdempotencyRow :=
  match seen with
  | [] => None
  | Some row :: seen' => if keyInProgress row then firstCompleted seen' else Some row
  | None :: seen' => firstCompleted seen'
  end.

Lemma pollLoop_from requestHash seen : forall attempts,
  (attempts < POLL_ATTEMPTS)%nat -> (length seen = POLL_ATTEMPTS - attempts)%nat ->
  pollLoop requestHash attempts seen =
  Some (match firstCompleted seen with Some row => completed requestHash row | None => refuse IN_PROGRESS end).
Proof.
  induction seen as [|o seen IH]; intros n Hn Hl; cbn [length] in Hl; [lia|].
  assert (Hnext : (S n <? POLL_ATTEMPTS)%nat = true /\
                    (S n < POLL_ATTEMPTS /\ length seen = POLL_ATTEMPTS - S n)%nat \/
                  (S n <? POLL_ATTEMPTS)%nat = false /\ seen = []).
  { destruct (Nat.ltb_spec (S n) POLL_ATTEMPTS); [left; repeat split; lia|right; split; [done|]].
    destruct seen; [done|cbn [length] in Hl; lia]. }
  cbn [pollLoop firstCompleted]; unfold afterPoll.
  destruct o as [row|]; [destruct (keyInProgress row); cbn [negb]; [|done]|];
    destruct Hnext as [(-> & ? & ?)|[-> ->]]; auto.
Qed.

(** A request that waits for another one is answered after at most twenty
    lookups, with the response of the first completed row it sees, or with the
    in-progress error: also when the other request has failed and released the
    key, which is not taken again. *)
Theorem poll_ends requestHash seen :
  length seen = POLL_ATTEMPTS ->
  pollLoop requestHash 0 seen =
  Some (match firstCompleted seen with Some row => completed requestHash row | None => refuse IN_PROGRESS end).
Proof. intros Hl. apply pollLoop_from; [unfold POLL_ATTEMPTS; lia|lia]. Qed.

(** ** Which bodies are the same request *)

Section SameBody.
Context `{JsonText} `{HashEnv}.

(** The same value up to the order of object members, at every depth. *)
Inductive sameJson : Json -> Json -> Prop :=
| same_refl v : sameJson v v
| same_arr l l' : Forall2 sameJson l l' -> sameJson (JArr l) (JArr l')
| same_obj fields moved fields' :
    NoDup (map fst fields) ->
    Forall2 (fun kv kv' => fst kv = fst kv' /\ sameJson (snd kv) (snd kv')) fields moved ->
    moved ≡ₚ fields' ->
    sameJson (JObj fields) (JObj fields').

Definition member (kv : string * Json) : string * string := (fst kv, stableStringify (snd kv)).

Definition keyLe (a b : string * string) : Prop := String.le (fst a) (fst b).

#[local] Instance keyLe_trans : Transitive keyLe.
Proof. intros a b c. unfold keyLe. apply transitivity. Qed.

Lemma keyGreater_le a b : keyGreater a b = false -> keyLe a b.
Proof.
  unfold keyLe, keyGreater, String.ltb, String.le, String.leb. rewrite (String.compare_antisym (fst b) (fst a)).
  by destruct (String.compare (fst a) (fst b)).
Qed.

Lemma members_sorted l : Sorted keyLe (sortBy keyGreater l).
Proof.
  assert (Hs : Sorted (fun a b => keyGreater a b = false) (sortBy keyGreater l)).
  { apply sortBy_Sorted. intros a b. unfold keyGreater, String.ltb.
    rewrite (String.compare_antisym (fst a) (fst b)). by destruct (String.compare (fst b) (fst a)). }
  induction Hs as [|x s Hs IH Hd]; constructor; [exact IH|].
  inversion Hd; constructor. by apply keyGreater_le.
Qed.

Lemma members_order (l l' : list (string * string)) :
  NoDup (map fst l) -> l ≡ₚ l' -> sortBy keyGreater l = sortBy keyGreater l'.
Proof.
  intros Hnd Hp. apply (Sorted_unique_strong keyLe);
    [|apply members_sorted..|by rewrite !sortBy_Permutation].
  intros a b Ha Hb H1 H2. apply sortBy_elem in Ha, Hb. rewrite <- Hp in Hb.
  apply (NoDup_map_inj fst l); auto. apply String.leb_antisym; apply Is_true_true; assumption.
Qed.

Lemma sameJson_text v v' : sameJson v v' -> stableStringify v = stableStringify v'.
Proof.
  revert v v'. fix IH 3. intros v v' [u|l l' Hl|fields moved fields' Hnd Hf Hp]; [done|..].
  - assert (E : map stableStringify l = map stableStringify l').
    { induction Hl as [|a b l l' Hab Hl IHl]; cbn; [done|]. by rewrite (IH _ _ Hab), IHl. }
    cbn. by rewrite E.
  - assert (E : map member fields = map member moved).
    { clear Hnd Hp. induction Hf as [|a b l l' [Hk Hab] Hl IHl]; cbn; [done|].
      unfold member at 1 3. by rewrite Hk, (IH _ _ Hab), IHl. }
    cbn. change (fun kv : string * Json => (fst kv, stableStringify (snd kv))) with member.
    rewrite E, (members_order (map member moved) (map member fields')); [done| |by apply fmap_Permutation].
    rewrite <- E, map_map. exact Hnd.
Qed.

(** A retry whose JSON body lists the members of its objects in another order,
    at any depth, is the same request: it has the same hash, and the stored
    response is replayed to it. *)
Theorem hash_member_order body body' now row :
  sameJson body body' ->
  hashRequestBody body = hashRequestBody body' /\
  (ik_requestHash row = hashRequestBody body -> ik_responseStatus row <> 102 -> now <= ik_expiresAt row ->
   afterFind now (hashRequestBody body') (Some row) = FoundCompleted (replayRow row)).
Proof.
  intros Hs. assert (E : hashRequestBody body = hashRequestBody body') by (unfold hashRequestBody; by rewrite (sameJson_text _ _ Hs)).
  split; [exact E|]. intros Hr Hst He. unfold afterFind, keyExpired, keyInProgress, completed.
  destruct (Z.ltb_spec (ik_expiresAt row) now); [lia|]. destruct (Z.eqb_spec (ik_responseStatus row) 102); [done|].
  by rewrite Hr, E, String.eqb_refl.
Qed.
End SameBody.
