(* ===== verification/KeyLock.v ===== *)
(** * Locks on one key (src/src/utils/distributed-idempotency-lock.ts, src/src/utils/room-lock.ts)

    Both modules take a Redis key with SET NX and an expiry, run a callback and
    delete the key if they still own it. They differ in what happens without
    the lock: a bet is refused ([acquireLoop], [withIdempotencyLock]), the
    mutation of a user's rooms runs all the same ([roomLoop]). [kstep] runs any
    number of callers at once on one key, each callback reading the shared state
    in one call and writing it in a later one. *)

From Stdlib Require Import ZArith Lia.
From stdpp Require Import base list strings pretty.
From S2P Require Import Prelude.
From S2P Require Import Errors.
From S2P Require Import DistributedLock.

#[local] Open Scope Z_scope.

(** ** The idempotency lock *)

Record DistributedIdempotencyLockConfig : Type := mkKeyLockConfig {
  kl_ttlSeconds : Z;
  kl_acquireTimeoutMs : Z;
  kl_retryDelayMs : Z;
}.

(** [envPositiveInt]; the parsed number is [None] when it is NaN. *)
Definition envPositiveInt (raw : option string) (parseInt : string -> option Z) (fallback : Z) : Z :=
  match truthy raw with
  | None => fallback
  | Some s => match parseInt s with Some n => if 0 <? n then n else fallback | None => fallback end
  end.

Definition DEFAULT_KEY_LOCK : DistributedIdempotencyLockConfig := mkKeyLockConfig 30 10000 100.

Definition buildDistributedIdempotencyLockKey (userId endpoint idempotencyKey : string) : string :=
  ("xelma:idempotency-lock" +:+ ":" +:+ userId +:+ ":" +:+ endpoint +:+ ":" +:+ idempotencyKey)%string.

Definition DISTRIBUTED_IDEMPOTENCY_LOCK_UNAVAILABLE : string := "DISTRIBUTED_IDEMPOTENCY_LOCK_UNAVAILABLE".

Definition LockUnavailable : Err :=
  mkErr ClsError "Distributed idempotency lock unavailable. Please retry."
    DISTRIBUTED_IDEMPOTENCY_LOCK_UNAVAILABLE 500.

Definition AlreadyInProgress : Err :=
  ConflictError "A request with this idempotency key is already in progress." IDEMPOTENCY_KEY_CONFLICT.

(** What a SET comes back with. *)
Inductive SetReply : Type := SetOk | SetTaken | SetFailed.

(** One round of the loop: when the clock is read, and the reply of the SET
    sent if it is not past the deadline. [None]: the rounds ran out first. *)
Fixpoint acquireLoop (deadline : Z) (rounds : list (Z * SetReply)) : option (Err + unit) :=
  match rounds with
  | [] => None
  | (now, reply) :: rounds' =>
      if now <? deadline then
        match reply with
        | SetOk => Some (inr tt)
        | SetFailed => Some (inl LockUnavailable)
        | SetTaken => acquireLoop deadline rounds'
        end
      else Some (inl AlreadyInProgress)
  end.

(** [acquireDistributedIdempotencyLock] from the time [start], after its
    client is connected or not. *)
Definition acquireDistributedIdempotencyLock (c : DistributedIdempotencyLockConfig) (connected : bool)
    (start : Z) (rounds : list (Z * SetReply)) : option (Err + unit) :=
  if connected then acquireLoop (start + kl_acquireTimeoutMs c) rounds else Some (inl LockUnavailable).

(** [process.env.DATA_STORE] and [config.app.dataStore] *)
Record StoreMode : Type := mkStoreMode { sm_env : option string; sm_config : string; sm_redisConfigured : bool }.

Definition skipsLock (m : StoreMode) : bool :=
  let is_env s := match sm_env m with Some s' => String.eqb s' s | None => false end in
  let isPostgres := is_env "postgres"%string || String.eqb (sm_config m) "postgres" in
  let isMemory := negb isPostgres && (String.eqb (sm_config m) "memory" || is_env "memory"%string) in
  isMemory || negb (sm_redisConfigured m).

(** [withDistributedIdempotencyLock]: how the callback [fn] is run, if it is. *)
Inductive LockUse {A : Type} : Type :=
| RanUnlocked (r : Err + A)
| RanLocked (r : Err + A)
| NotRun (e : Err).
Arguments LockUse : clear implicits.

Definition withDistributedIdempotencyLock {A} (m : StoreMode) (c : DistributedIdempotencyLockConfig)
    (connected : bool) (start : Z) (rounds : list (Z * SetReply)) (fn : Err + A) : option (LockUse A) :=
  if skipsLock m then Some (RanUnlocked fn)
  else
    match acquireDistributedIdempotencyLock c connected start rounds with
    | None => None
    | Some (inl e) => Some (NotRun e)
    | Some (inr _) => Some (RanLocked fn)
    end.

(** ** The room lock *)

Definition LOCK_TTL_MS : Z := 5000.
Definition RETRY_DELAY_MS : Z := 50.
Definition MAX_RETRIES : nat := 10.

(** [acquireLock]: a failed command counts as not acquired. *)
Definition acquireLock (reply : SetReply) : bool := match reply with SetOk => true | _ => false end.

(** The loop of [withRoomLock] over the replies: whether the callback runs
    under the lock. *)
Fixpoint roomLoop (left : nat) (replies : list SetReply) : option bool :=
  match left with
  | O => Some false
  | S left' =>
      match replies with
      | [] => None
      | reply :: replies' => if acquireLock reply then Some true else roomLoop left' replies'
      end
  end.

Definition withRoomLock (redis : bool) (replies : list SetReply) : option bool :=
  if redis then roomLoop MAX_RETRIES replies else Some false.

(** ** Callers at once on one key *)

Section Callers.
Context {server : RedisServer}.
(** The shared state, what a callback reads of it before it writes, and the
    callbacks. *)
Context {S L Op : Type}.
Context (begin : Op -> S -> option L) (commit : Op -> L -> S -> S).
Context (ttl : Z).

Inductive Phase : Type :=
| KWaiting
| KReading
| KWriting (seen : L)
| KLeaving
| KFinished.

(** [kc_lease]: when the key runs out that this caller's SET has set, for a
    caller that runs under the lock. *)
Record KeyCaller : Type := mkKeyCaller {
  kc_token : string;
  kc_op : Op;
  kc_phase : Phase;
  kc_lease : option Z;
}.

Record KeySystem : Type := mkKeySystem {
  ks_now : Z;
  ks_key : rd_key;
  ks_state : S;
  ks_callers : list KeyCaller;
  ks_log : list Op;
}.

Definition inside (c : KeyCaller) : bool :=
  match kc_phase c with KReading | KWriting _ => true | _ => false end.

Definition setCaller (i : nat) (c : KeyCaller) (y : KeySystem) : KeySystem :=
  y {{ ks_callers := <[i := c]> (ks_callers y) }}.

Inductive kstep : KeySystem -> KeySystem -> Prop :=
| k_set y i c key' :
    ks_callers y !! i = Some c -> kc_phase c = KWaiting ->
    setNX (ks_now y) ttl (kc_token c) (ks_key y) = (true, key') ->
    kstep y (setCaller i (c {{ kc_phase := KReading; kc_lease := Some (ks_now y + ttl) }})
               (y {{ ks_key := key' }}))
| k_set_lost y i c ok key' :
    (** the command runs and its reply does not arrive *)
    ks_callers y !! i = Some c -> kc_phase c = KWaiting ->
    setNX (ks_now y) ttl (kc_token c) (ks_key y) = (ok, key') ->
    kstep y (y {{ ks_key := key' }})
| k_give_up y i c :
    ks_callers y !! i = Some c -> kc_phase c = KWaiting ->
    kstep y (setCaller i (c {{ kc_phase := KFinished }}) y)
| k_unlocked y i c :
    (** no client, or too many attempts *)
    ks_callers y !! i = Some c -> kc_phase c = KWaiting ->
    kstep y (setCaller i (c {{ kc_phase := KReading; kc_lease := None }}) y)
| k_read y i c :
    ks_callers y !! i = Some c -> kc_phase c = KReading ->
    kstep y (setCaller i (c {{ kc_phase := match begin (kc_op c) (ks_state y) with
                                           | Some l => KWriting l
                                           | None => KLeaving
                                           end }}) y)
| k_write y i c l :
    ks_callers y !! i = Some c -> kc_phase c = KWriting l ->
    kstep y (setCaller i (c {{ kc_phase := KLeaving }})
               (y {{ ks_state := commit (kc_op c) l (ks_state y); ks_log := kc_op c :: ks_log y }}))
| k_failed y i c :
    (** a call of the callback fails *)
    ks_callers y !! i = Some c -> inside c = true ->
    kstep y (setCaller i (c {{ kc_phase := KLeaving }}) y)
| k_release y i c :
    ks_callers y !! i = Some c -> kc_phase c = KLeaving -> is_Some (kc_lease c) ->
    kstep y (setCaller i (c {{ kc_phase := KFinished }})
               (y {{ ks_key := releaseScript (ks_now y) (kc_token c) (ks_key y) }}))
| k_leave y i c :
    (** without the lock, or with a release that fails *)
    ks_callers y !! i = Some c -> kc_phase c = KLeaving ->
    kstep y (setCaller i (c {{ kc_phase := KFinished }}) y)
| k_tick y now' :
    ks_now y <= now' -> kstep y (y {{ ks_now := now' }}).

(** The callers start with different tokens. *)
Inductive kreachable (s0 : S) : KeySystem -> Prop :=
| kr_init now cs :
    NoDup (map kc_token cs) -> Forall (fun c => kc_phase c = KWaiting /\ kc_lease c = None) cs ->
    kreachable s0 (mkKeySystem now rd_absent s0 cs [])
| kr_step y y' : kreachable s0 y -> kstep y y' -> kreachable s0 y'.

(** Whether a caller inside its callback is covered by the lock: it has it, and
    the key has not run out. *)
Definition covered (now : Z) (c : KeyCaller) : bool :=
  match kc_lease c with Some t => now <? t | None => false end.
End Callers.

(** ** Fail closed *)

Lemma acquireLoop_acquired deadline rounds :
  acquireLoop deadline rounds = Some (inr tt) ->
  exists before now after, rounds = before ++ (now, SetOk) :: after /\ now < deadline /\
    Forall (fun r => snd r = SetTaken) before.
Proof.
  induction rounds as [|[now reply] rounds IH]; cbn; [discriminate|].
  destruct (Z.ltb_spec now deadline); [|discriminate]. destruct reply; try discriminate.
  - intros _. by exists [], now, rounds.
  - intros (before & t & after & -> & Ht & HF)%IH. exists ((now, SetTaken) :: before), t, after. auto.
Qed.

Lemma acquireLoop_refused deadline rounds e :
  acquireLoop deadline rounds = Some (inl e) -> e = LockUnavailable \/ e = AlreadyInProgress.
Proof.
  induction rounds as [|[now reply] rounds IH]; cbn; [discriminate|].
  destruct (now <? deadline); [|intros [= <-]; auto]. destruct reply; try discriminate; [auto|].
  intros [= <-]; auto.
Qed.

Lemma acquireLoop_ends deadline rounds :
  Exists (fun r => deadline <= fst r) rounds -> is_Some (acquireLoop deadline rounds).
Proof.
  induction 1 as [[now reply] rounds Hd|[now reply] rounds _ IH]; cbn in *.
  - destruct (Z.ltb_spec now deadline); [lia|]. eauto.
  - destruct (now <? deadline), reply; eauto.
Qed.

(** A keyed bet is placed only under the lock. The callback runs without it
    only in the memory mode or without a configured Redis; otherwise it runs
    after a SET that succeeded before the deadline, all earlier ones having
    found the key taken, and is refused when the client is not connected, when
    a command fails, and when the deadline passes. The loop ends once the clock
    passes the deadline. *)
Theorem bet_needs_lock {A} m c connected start rounds (fn : Err + A) :
  (forall u, withDistributedIdempotencyLock m c connected start rounds fn = Some u ->
   match u with
   | RanUnlocked r => r = fn /\ skipsLock m = true
   | RanLocked r => r = fn /\ skipsLock m = false /\ connected = true /\
       exists before now after, rounds = before ++ (now, SetOk) :: after /\
         now < start + kl_acquireTimeoutMs c /\ Forall (fun r => snd r = SetTaken) before
   | NotRun e => skipsLock m = false /\ (e = LockUnavailable \/ e = AlreadyInProgress)
   end) /\
  (Exists (fun r => start + kl_acquireTimeoutMs c <= fst r) rounds ->
   is_Some (withDistributedIdempotencyLock m c connected start rounds fn)).
Proof.
  unfold withDistributedIdempotencyLock, acquireDistributedIdempotencyLock.
  destruct (skipsLock m); [split; [by intros u [= <-]|eauto]|]. destruct connected.
  - split.
    + intros u Hu. destruct (acquireLoop _ rounds) as [[e|[]]|] eqn:El; [| |discriminate]; injection Hu as <-.
      * split; [done|]. by eapply acquireLoop_refused.
      * repeat split. by apply acquireLoop_acquired.
    + intros [o Ho]%acquireLoop_ends. rewrite Ho. destruct o; eauto.
  - split; [|eauto]. intros u [= <-]. auto.
Qed.

(** ** One holder at a time *)

Section Exclusion.
Context {server : RedisServer}.
Context {S L Op : Type}.
Context (begin : Op -> S -> option L) (commit : Op -> L -> S -> S).
Context (ttl : Z).

Notation KeyCaller := (@KeyCaller L Op).
Notation KeySystem := (@KeySystem server S L Op).

(** Between a successful SET and the release. *)
Definition owning (c : KeyCaller) : bool :=
  match kc_phase c with KReading | KWriting _ | KLeaving => true | _ => false end.

Record KeyInv (y : KeySystem) : Prop := {
  kv_tokens : NoDup (map kc_token (ks_callers y));
  kv_key : forall i c t, ks_callers y !! i = Some c -> owning c = true -> kc_lease c = Some t -> ks_now y < t ->
    rd_view (ks_key y) = Some (mkRedisKey (kc_token c) t);
}.

Lemma same_token y i j c c' :
  KeyInv y -> ks_callers y !! i = Some c -> ks_callers y !! j = Some c' -> kc_token c = kc_token c' -> i = j.
Proof.
  intros I Hi Hj Ht. apply (NoDup_lookup _ i j (kc_token c) (kv_tokens _ I)); rewrite list_lookup_fmap;
    [by rewrite Hi|rewrite Hj; cbn; by rewrite Ht].
Qed.

Lemma setCaller_lookup i c (y : KeySystem) j c' :
  ks_callers (setCaller i c y) !! j = Some c' -> (i = j /\ c' = c) \/ (i <> j /\ ks_callers y !! j = Some c').
Proof. cbn. intros [(?&?&_)|?]%list_lookup_insert_Some; auto. Qed.

Lemma setCaller_tokens i c c' (y : KeySystem) :
  ks_callers y !! i = Some c -> kc_token c' = kc_token c ->
  map kc_token (ks_callers (setCaller i c' y)) = map kc_token (ks_callers y).
Proof.
  intros Hi Ht. change (kc_token <$> <[i:=c']> (ks_callers y) = kc_token <$> ks_callers y).
  rewrite list_fmap_insert, Ht. apply list_insert_id. by rewrite list_lookup_fmap, Hi.
Qed.

(** A caller moves on, owning no more than before. *)
Lemma keyInv_move i c c' y :
  KeyInv y -> ks_callers y !! i = Some c -> kc_token c' = kc_token c ->
  (forall t, owning c' = true -> kc_lease c' = Some t -> owning c = true /\ kc_lease c = Some t) ->
  KeyInv (setCaller i c' y).
Proof.
  intros I Hi Ht Hown. split; [rewrite (setCaller_tokens i c); [apply I|done..]|].
  intros j x t [[<- ->]|[_ Hj]]%setCaller_lookup Ho Hl Hlt; [|exact (kv_key _ I j x t Hj Ho Hl Hlt)].
  destruct (Hown t Ho Hl) as [Ho' Hl']. rewrite Ht. exact (kv_key _ I i c t Hi Ho' Hl' Hlt).
Qed.

(** A SET while somebody owns the key changes nothing. *)
Lemma set_owned y i c t token :
  KeyInv y -> ks_callers y !! i = Some c -> owning c = true -> kc_lease c = Some t -> ks_now y < t ->
  setNX (ks_now y) ttl token (ks_key y) = (false, ks_key y).
Proof.
  intros I Hi Ho Hl Hlt. pose proof (kv_key _ I i c t Hi Ho Hl Hlt) as Hk.
  apply (rd_set_taken _ _ _ _ (mkRedisKey (kc_token c) t)). rewrite Hk. cbn.
  destruct (Z.ltb_spec (ks_now y) t); [done|lia].
Qed.

Lemma set_view now token (k : rd_key) key' :
  setNX now ttl token k = (true, key') -> rd_view key' = Some (mkRedisKey token (now + ttl)).
Proof.
  unfold setNX. intros Hs. destruct (live now (rd_view k)) as [r|] eqn:Hl.
  - rewrite (rd_set_taken now ttl token k r Hl) in Hs. discriminate.
  - destruct (rd_set_free now ttl token k Hl) as [_ Hv]. by rewrite Hs in Hv.
Qed.

(** The release script leaves another owner's key alone. *)
Lemma release_kept now token k r :
  rd_view k = Some r -> rk_owner r <> token -> releaseScript now token k = k.
Proof.
  intros Hv Hne. unfold releaseScript. rewrite rd_get_live, Hv. cbn. destruct (now <? rk_expiresAt r); [|done].
  cbn. by destruct (String.eqb_spec (rk_owner r) token).
Qed.

Lemma keyInv_step y y' : KeyInv y -> kstep begin commit ttl y y' -> KeyInv y'.
Proof.
  intros I Hs. destruct Hs as
    [y i c key' Hi Hp Hset | y i c ok key' Hi Hp Hset | y i c Hi Hp | y i c Hi Hp | y i c Hi Hp | y i c l Hi Hp
    | y i c Hi Hin | y i c Hi Hp Hl | y i c Hi Hp | y now' Hle].
  - split; [rewrite (setCaller_tokens i c); [apply I|done..]|].
    intros j x t [[<- ->]|[Hij Hj]]%setCaller_lookup Ho Hl Hlt.
    + cbn in Hl. injection Hl as <-. exact (set_view _ _ _ _ Hset).
    + assert (Hx := set_owned y j x t (kc_token c) I Hj Ho Hl Hlt). congruence.
  - split; [apply I|]. intros j x t Hj Ho Hl Hlt.
    assert (Hx := set_owned y j x t (kc_token c) I Hj Ho Hl Hlt). replace key' with (ks_key y) by congruence.
    exact (kv_key _ I j x t Hj Ho Hl Hlt).
  - by apply (keyInv_move i c).
  - by apply (keyInv_move i c).
  - apply (keyInv_move i c); try done. intros t _ Hl. split; [|exact Hl]. unfold owning. by rewrite Hp.
  - apply (keyInv_move i c (c {{ kc_phase := KLeaving }}) y) in I; [split; [exact (kv_tokens _ I)|exact (kv_key _ I)]|done..|].
    intros t _ Hl. split; [|exact Hl]. unfold owning. by rewrite Hp.
  - apply (keyInv_move i c); try done. intros t _ Hl. split; [|exact Hl].
    unfold owning, inside in *. by destruct (kc_phase c).
  - split; [rewrite (setCaller_tokens i c); [apply I|done..]|].
    intros j x t [[<- ->]|[Hij Hj]]%setCaller_lookup Ho Hlx Hlt; [discriminate|].
    pose proof (kv_key _ I j x t Hj Ho Hlx Hlt) as Hk.
    rewrite (release_kept _ _ _ _ Hk); [exact Hk|]. cbn. intros Ht. exact (Hij (same_token y i j c x I Hi Hj (eq_sym Ht))).
  - by apply (keyInv_move i c).
  - split; [apply I|]. intros j x t Hj Ho Hl Hlt. apply (kv_key _ I j x t Hj Ho Hl). cbn in Hlt. lia.
Qed.

Lemma keyInv_reachable s0 y : kreachable begin commit ttl s0 y -> KeyInv y.
Proof.
  induction 1 as [now cs Hnd Hw|y y' _ I Hs]; [|by eapply keyInv_step]. split; [done|].
  intros i c t Hi Ho. apply (Forall_lookup_1 _ _ _ _ Hw) in Hi as [Hp _]. unfold owning in Ho. by rewrite Hp in Ho.
Qed.

(** At most one caller runs under a lock that has not run out. *)
Theorem one_holder s0 y i j c c' :
  kreachable begin commit ttl s0 y ->
  ks_callers y !! i = Some c -> ks_callers y !! j = Some c' ->
  owning c = true -> owning c' = true -> covered (ks_now y) c = true -> covered (ks_now y) c' = true ->
  i = j.
Proof.
  intros I%keyInv_reachable Hi Hj Ho Ho' Hc Hc'. unfold covered in *.
  destruct (kc_lease c) as [t|] eqn:Hl; [|done]. destruct (kc_lease c') as [t'|] eqn:Hl'; [|done].
  apply Z.ltb_lt in Hc, Hc'. pose proof (kv_key _ I i c t Hi Ho Hl Hc) as Hk.
  pose proof (kv_key _ I j c' t' Hj Ho' Hl' Hc') as Hk'. rewrite Hk in Hk'. injection Hk' as Ht _.
  exact (same_token y i j c c' I Hi Hj Ht).
Qed.

(** The recorded callbacks are callers'. *)
Lemma kstep_ops y y' : kstep begin commit ttl y y' -> map kc_op (ks_callers y') = map kc_op (ks_callers y).
Proof.
  assert (Hset : forall (z : KeySystem) i c c', ks_callers z !! i = Some c -> kc_op c' = kc_op c ->
                 map kc_op (ks_callers (setCaller i c' z)) = map kc_op (ks_callers z)).
  { intros z i c c' Hi Ho. change (kc_op <$> <[i:=c']> (ks_callers z) = kc_op <$> ks_callers z).
    rewrite list_fmap_insert, Ho. apply list_insert_id. by rewrite list_lookup_fmap, Hi. }
  destruct 1 as [y i c ? Hi|y i c ? ? Hi|y i c Hi|y i c Hi|y i c Hi|y i c ? Hi|y i c Hi|y i c Hi|y i c Hi|];
    match goal with
    | |- map _ (ks_callers (setCaller _ ?x ?z)) = _ => exact (Hset z i c x Hi eq_refl)
    | _ => reflexivity
    end.
Qed.

Lemma log_from (P : Op -> Prop) s0 y :
  kreachable begin commit ttl s0 y -> Forall P (map kc_op (ks_callers y)) -> Forall P (ks_log y).
Proof.
  induction 1 as [|y y' Hr IH Hs]; intros HP; [constructor|]. rewrite (kstep_ops _ _ Hs) in HP. specialize (IH HP).
  destruct Hs as [| | | | |y i c l Hi Hp| | | |]; try exact IH.
  cbn. constructor; [|exact IH]. apply (Forall_lookup_1 _ _ i _ HP). rewrite list_lookup_fmap. by rewrite Hi.
Qed.

(** ** No update is lost under the lock *)

(** A callback run on its own. *)
Definition whole (op : Op) (s : S) : S := match begin op s with Some l => commit op l s | None => s end.

(** The recorded callbacks, one after the other; the log has the last first. *)
Definition serial (s0 : S) (log : list Op) : S := foldr whole s0 log.

Definition allCovered (y : KeySystem) : Prop :=
  forall i c, ks_callers y !! i = Some c -> inside c = true -> covered (ks_now y) c = true.

(** Runs in which the lock of no caller inside its callback runs out and
    nobody goes without. *)
Inductive covered_run (s0 : S) : KeySystem -> Prop :=
| cr_init now cs :
    NoDup (map kc_token cs) -> Forall (fun c => kc_phase c = KWaiting /\ kc_lease c = None) cs ->
    covered_run s0 (mkKeySystem now rd_absent s0 cs [])
| cr_step y y' : covered_run s0 y -> kstep begin commit ttl y y' -> allCovered y' -> covered_run s0 y'.

Lemma covered_reachable s0 y : covered_run s0 y -> kreachable begin commit ttl s0 y.
Proof. induction 1; [by apply kr_init|by eapply kr_step]. Qed.

Lemma covered_allCovered s0 y : covered_run s0 y -> allCovered y.
Proof.
  induction 1 as [now cs _ Hw|]; [|done]. intros i c Hi Hin.
  apply (Forall_lookup_1 _ _ _ _ Hw) in Hi as [Hp _]. unfold inside in Hin. by rewrite Hp in Hin.
Qed.

Lemma inside_owning (c : KeyCaller) : inside c = true -> owning c = true.
Proof. unfold inside, owning. by destruct (kc_phase c). Qed.

(** What a caller has read is what it would read now. *)
Definition fresh (y : KeySystem) : Prop :=
  forall i c l, ks_callers y !! i = Some c -> kc_phase c = KWriting l -> begin (kc_op c) (ks_state y) = Some l.

Lemma fresh_move i c c' y :
  fresh y -> ks_callers y !! i = Some c ->
  (forall l, kc_phase c' = KWriting l -> begin (kc_op c') (ks_state y) = Some l) ->
  fresh (setCaller i c' y).
Proof. intros F Hi Hc j x l [[_ ->]|[_ Hj]]%setCaller_lookup Hp; [exact (Hc l Hp)|exact (F j x l Hj Hp)]. Qed.

(** Under the lock concurrent callbacks are as good as one after the other: as
    long as no lock runs out before its callback ends and no callback runs
    without one, the shared state is the result of the completed callbacks run
    one at a time, in the order of their writes. *)
Theorem lock_serialises s0 y : covered_run s0 y -> ks_state y = serial s0 (ks_log y).
Proof.
  intros Hr. enough (ks_state y = serial s0 (ks_log y) /\ fresh y) by tauto.
  induction Hr as [now cs Hnd Hw|y y' Hr [IH F] Hs Hall].
  { split; [done|]. intros i c l Hi Hp. apply (Forall_lookup_1 _ _ _ _ Hw) in Hi as [Hp' _]. congruence. }
  pose proof (covered_allCovered _ _ Hr) as Hbefore. pose proof (covered_reachable _ _ Hr) as Hk.
  destruct Hs as
    [y i c key' Hi Hp Hset | y i c ok key' Hi Hp Hset | y i c Hi Hp | y i c Hi Hp | y i c Hi Hp | y i c l Hi Hp
    | y i c Hi Hin | y i c Hi Hp Hl | y i c Hi Hp | y now' Hle];
    try (split; [exact IH|]; first [exact F | apply (fresh_move i c); done]).
  - split; [exact IH|]. apply (fresh_move i c); [done..|]. intros l.
    change (match begin (kc_op c) (ks_state y) with Some l => KWriting l | None => KLeaving end = KWriting l ->
            begin (kc_op c) (ks_state y) = Some l).
    destruct (begin (kc_op c) (ks_state y)); congruence.
  - split.
    + change (commit (kc_op c) l (ks_state y) = whole (kc_op c) (serial s0 (ks_log y))).
      unfold whole. by rewrite <- IH, (F i c l Hi Hp).
    + intros j x l' [[_ ->]|[Hij Hj]]%setCaller_lookup Hp'; [done|]. exfalso. apply Hij.
      assert (Hc : inside c = true) by (unfold inside; by rewrite Hp).
      assert (Hx : inside x = true) by (unfold inside; by rewrite Hp').
      apply (one_holder s0 y i j c x); auto using inside_owning; eauto.
Qed.
End Exclusion.
