(* ===== verification/Sessions.v ===== *)
(** * Multiplayer sessions (src/src/services/multiplayer-session.service.ts)

    One row per user keeps the rooms a socket client is in, so that a
    reconnecting client is put back. Every operation swallows its errors: the
    argument [works] says which of its database calls succeed. The table is
    keyed by the user. The callbacks of [addRoom] and [removeRoom] are cut
    between their two calls ([beginRoom], [commitRoom]) for the callers of
    [KeyLock]; [reconcileRooms] is cut at the same place and takes no lock. *)

From Stdlib Require Import ZArith QArith Lia.
From stdpp Require Import base gmap strings list.
From S2P Require Import Prelude.
From S2P Require Import Schema.
From S2P Require Import JsonText.
From S2P Require Import DistributedLock.
From S2P Require Import KeyLock.

#[local] Open Scope Z_scope.

Definition MAX_PERSISTED_ROOMS : nat := 32.
Definition MAX_METADATA_CHARS : nat := 4096.

Record MultiplayerSession : Type := mkSession {
  ms_walletAddress : string;
  ms_socketId : option string;
  ms_rooms : Json;
  ms_metadata : option Json;
  ms_connectedAt : Z;
  ms_lastSeenAt : Z;
  ms_disconnectedAt : option Z;
}.

Notation SessionTable := (gmap string MultiplayerSession).

Record ResumePayload : Type := mkResume {
  re_rooms : list string;
  re_metadata : option (list (string * Json));
  re_lastSeenAt : option Z;
  re_disconnectedAt : option Z;
}.

Definition EMPTY_RESUME : ResumePayload := mkResume [] None None None.

Definition asString (v : Json) : option string := match v with JStr s => Some s | _ => None end.

Definition asStringArray (value : Json) : list string :=
  match value with JArr l => omap asString l | _ => [] end.

(** A date column is never nested in the JSON columns. *)
Definition asJsonObject (value : option Json) : option (list (string * Json)) :=
  match value with Some (JObj fields) => Some fields | _ => None end.

Definition ofRooms (rooms : list string) : Json := JArr (map JStr rooms).

(** The loop of [clampRooms]; [out] is in reverse. *)
Fixpoint clampFrom (out : list string) (rooms : list string) : list string :=
  match rooms with
  | [] => rev out
  | r :: rooms' =>
      if String.eqb r "" || bool_decide (r ∈ out) then clampFrom out rooms'
      else if (MAX_PERSISTED_ROOMS <=? length (r :: out))%nat then rev (r :: out)
      else clampFrom (r :: out) rooms'
  end.

Definition clampRooms (rooms : list string) : list string := clampFrom [] rooms.

(** Object spread: members of the patch replace or follow the current ones. *)
Fixpoint setMember (k : string) (v : Json) (fields : list (string * Json)) : list (string * Json) :=
  match fields with
  | [] => [(k, v)]
  | (k', v') :: fs => if String.eqb k k' then (k, v) :: fs else (k', v') :: setMember k v fs
  end.

Definition spread (current patch : list (string * Json)) : list (string * Json) :=
  foldl (fun fs kv => setMember (fst kv) (snd kv) fs) current patch.

Section Text.
Context `{JsonText}.

Definition clampMetadata (metadata : list (string * Json)) : option Json :=
  if (MAX_METADATA_CHARS <? String.length (jsonStringify (JObj metadata)))%nat then None else Some (JObj metadata).
End Text.

Definition resumeOf (prior : MultiplayerSession) : ResumePayload :=
  mkResume (asStringArray (ms_rooms prior)) (asJsonObject (ms_metadata prior))
    (Some (ms_lastSeenAt prior)) (ms_disconnectedAt prior).

(** ** Connecting and disconnecting *)

Definition connectRow (now : Z) (walletAddress socketId : string) (prior : option MultiplayerSession)
    : MultiplayerSession :=
  match prior with
  | None => mkSession walletAddress (Some socketId) (ofRooms []) None now now None
  | Some s => s {{ ms_walletAddress := walletAddress; ms_socketId := Some socketId;
                   ms_lastSeenAt := now; ms_disconnectedAt := None }}
  end.

Definition recordConnect (works : nat -> bool) (now : Z) (userId walletAddress socketId : string) (t : SessionTable)
    : ResumePayload * SessionTable :=
  if works 0%nat && works 1%nat then
    (match t !! userId with Some prior => resumeOf prior | None => EMPTY_RESUME end,
     <[userId := connectRow now walletAddress socketId (t !! userId)]> t)
  else (EMPTY_RESUME, t).

Definition disconnectRow (now : Z) (s : MultiplayerSession) : MultiplayerSession :=
  s {{ ms_disconnectedAt := Some now; ms_lastSeenAt := now; ms_socketId := None }}.

Definition recordDisconnect (works : nat -> bool) (now : Z) (userId : string) (t : SessionTable) : SessionTable :=
  if String.eqb userId "" then t
  else if works 0%nat then alter (disconnectRow now) userId t else t.

Definition getResumePayload (works : nat -> bool) (userId : string) (t : SessionTable) : ResumePayload :=
  if String.eqb userId "" then EMPTY_RESUME
  else if works 0%nat then
    match t !! userId with Some s => resumeOf s | None => EMPTY_RESUME end
  else EMPTY_RESUME.

(** ** Rooms *)

Definition setRooms (now : Z) (rooms : list string) (s : MultiplayerSession) : MultiplayerSession :=
  s {{ ms_rooms := ofRooms rooms; ms_lastSeenAt := now }}.

Inductive RoomOp : Type :=
| AddRoom (userId room : string)
| RemoveRoom (userId room : string).

Definition opUser (op : RoomOp) : string := match op with AddRoom u _ | RemoveRoom u _ => u end.
Definition opRoom (op : RoomOp) : string := match op with AddRoom _ r | RemoveRoom _ r => r end.

(** The callback up to its second call: the rooms to be written, if any. *)
Definition beginRoom (op : RoomOp) (t : SessionTable) : option (list string) :=
  match t !! opUser op with
  | None => None
  | Some session =>
      let currentRooms := asStringArray (ms_rooms session) in
      match op with
      | AddRoom _ room =>
          if bool_decide (room ∈ currentRooms) then None else Some (clampRooms (currentRooms ++ [room]))
      | RemoveRoom _ room => Some (filter (fun r => r <> room) currentRooms)
      end
  end.

(** Its second call. *)
Definition commitRoom (now : Z) (op : RoomOp) (next : list string) (t : SessionTable) : SessionTable :=
  alter (setRooms now next) (opUser op) t.

(** [addRoom] and [removeRoom], alone. *)
Definition roomOp (works : nat -> bool) (now : Z) (op : RoomOp) (t : SessionTable) : SessionTable :=
  if String.eqb (opUser op) "" || String.eqb (opRoom op) "" then t
  else if works 0%nat then
    match beginRoom op t with
    | None => t
    | Some next => if works 1%nat then commitRoom now op next t else t
    end
  else t.

Definition addRoom works now userId room t : SessionTable := roomOp works now (AddRoom userId room) t.
Definition removeRoom works now userId room t : SessionTable := roomOp works now (RemoveRoom userId room) t.

(** ** Reconciliation with the socket adapter *)

(** After the lookup: the answer at once, or the list to be written. *)
Definition reconcileRead (userId : string) (adapterRooms : list string) (t : SessionTable)
    : list string + list string :=
  match t !! userId with
  | None => inl adapterRooms
  | Some session =>
      let dbRooms := asStringArray (ms_rooms session) in
      let staleRooms := filter (fun r => r ∉ adapterRooms) dbRooms in
      let missingRooms := filter (fun r => r ∉ dbRooms) adapterRooms in
      match staleRooms, missingRooms with
      | [], [] => inl dbRooms
      | _, _ => inr (clampRooms (filter (fun r => r ∈ adapterRooms) dbRooms ++ adapterRooms))
      end
  end.

Definition reconcileRooms (works : nat -> bool) (now : Z) (userId : string) (adapterRooms : list string)
    (t : SessionTable) : list string * SessionTable :=
  if String.eqb userId "" then ([], t)
  else if works 0%nat then
    match reconcileRead userId adapterRooms t with
    | inl rooms => (rooms, t)
    | inr reconciled =>
        if works 1%nat then (reconciled, alter (setRooms now reconciled) userId t) else (adapterRooms, t)
    end
  else (adapterRooms, t).

(** ** Metadata *)

Definition patchRow `{JsonText} (now : Z) (patch : list (string * Json)) (s : MultiplayerSession) : MultiplayerSession :=
  let current := match asJsonObject (ms_metadata s) with Some fs => fs | None => [] end in
  match clampMetadata (spread current patch) with
  | Some merged => s {{ ms_metadata := Some merged; ms_lastSeenAt := now }}
  | None => s {{ ms_lastSeenAt := now }}
  end.

Definition patchMetadata `{JsonText} (works : nat -> bool) (now : Z) (userId : string) (patch : list (string * Json))
    (t : SessionTable) : SessionTable :=
  if String.eqb userId "" then t
  else if works 0%nat && works 1%nat then alter (patchRow now patch) userId t else t.

(** ** The stored columns keep their types *)

(** Room lists as the service writes them. *)
Record cleanRooms (l : list string) : Prop := {
  cr_distinct : NoDup l;
  cr_named : ""%string ∉ l;
  cr_bounded : (length l <= MAX_PERSISTED_ROOMS)%nat;
}.

Lemma asStringArray_ofRooms l : asStringArray (ofRooms l) = l.
Proof. induction l as [|r l IH]; cbn in *; [done|]. by rewrite IH. Qed.

Lemma elem_of_rev {A} (x : A) l : x ∈ rev l <-> x ∈ l.
Proof. by rewrite <- Permutation_rev. Qed.

(** What the loop of [clampRooms] keeps, continued from [out]. *)
Lemma clampFrom_spec rooms : forall out,
  NoDup out -> ""%string ∉ out -> (length out < MAX_PERSISTED_ROOMS)%nat ->
  cleanRooms (clampFrom out rooms) /\
  (forall r, r ∈ clampFrom out rooms -> r ∈ out \/ r ∈ rooms) /\
  ((length (clampFrom out rooms) < MAX_PERSISTED_ROOMS)%nat ->
   forall r, r ∈ out \/ r ∈ rooms -> r <> ""%string -> r ∈ clampFrom out rooms).
Proof.
  assert (Hrev : forall out : list string, NoDup out -> ""%string ∉ out -> (length out <= MAX_PERSISTED_ROOMS)%nat ->
                 cleanRooms (rev out)).
  { intros out ???. split; [by rewrite <- Permutation_rev|by rewrite elem_of_rev|by rewrite length_rev]. }
  induction rooms as [|r rooms IH]; intros out Hnd Hne Hlen; cbn [clampFrom].
  - split; [apply Hrev; auto; lia|]. split; [intros r Hr; left; by apply elem_of_rev|].
    intros _ r [Hr|Hr] _; [by apply elem_of_rev|by apply not_elem_of_nil in Hr].
  - destruct (String.eqb_spec r "") as [->|Hr]; cbn [orb].
    + destruct (IH out Hnd Hne Hlen) as (H1 & H2 & H3). split; [done|]. split.
      * intros x [?|?]%H2; [auto|right; by right].
      * intros Hl x [?|[->|?]%elem_of_cons] Hx; [apply H3; auto|done|apply H3; auto].
    + case_bool_decide as Hin.
      * destruct (IH out Hnd Hne Hlen) as (H1 & H2 & H3). split; [done|]. split.
        -- intros x [?|?]%H2; [auto|right; by right].
        -- intros Hl x [?|[->|?]%elem_of_cons] Hx; apply H3; auto.
      * assert (Hnd' : NoDup (r :: out)) by (by constructor).
        assert (Hne' : ""%string ∉ r :: out) by (rewrite not_elem_of_cons; auto).
        destruct (Nat.leb_spec MAX_PERSISTED_ROOMS (length (r :: out))) as [Hfull|Hroom].
        -- split; [apply Hrev; auto; cbn [length]; lia|]. split.
           ++ intros x Hx. apply elem_of_rev, elem_of_cons in Hx as [->|Hx]; [right; left|by left].
           ++ rewrite length_rev. lia.
        -- destruct (IH (r :: out) Hnd' Hne' Hroom) as (H1 & H2 & H3). split; [done|]. split.
           ++ intros x [[->|?]%elem_of_cons|?]%H2; [right; left|auto|right; by right].
           ++ intros Hl x Hx Hx'. apply H3; [done| |done]. rewrite !elem_of_cons in *. tauto.
Qed.

Lemma clampRooms_clean rooms : cleanRooms (clampRooms rooms).
Proof. apply clampFrom_spec; [constructor|apply not_elem_of_nil|unfold MAX_PERSISTED_ROOMS; cbn; lia]. Qed.

(** On lists without repetition it only cuts. *)
Lemma clampFrom_take rooms : forall out,
  NoDup (rev out ++ rooms) -> ""%string ∉ rooms -> (length out < MAX_PERSISTED_ROOMS)%nat ->
  clampFrom out rooms = take MAX_PERSISTED_ROOMS (rev out ++ rooms).
Proof.
  induction rooms as [|r rooms IH]; intros out Hnd Hne Hlen; cbn [clampFrom].
  - rewrite take_ge; [by rewrite app_nil_r|]. rewrite length_app, length_rev. cbn [length]. lia.
  - apply not_elem_of_cons in Hne as [Hr Hne]. destruct (String.eqb_spec r ""); [congruence|]. cbn [orb].
    assert (Hout : r ∉ out).
    { intros Hin. apply NoDup_app in Hnd as (_ & Hd & _). apply (Hd r); [by apply elem_of_rev|left]. }
    rewrite bool_decide_eq_false_2 by done.
    assert (E : rev out ++ r :: rooms = rev (r :: out) ++ rooms) by (cbn; by rewrite <- app_assoc). rewrite E in *.
    destruct (Nat.leb_spec MAX_PERSISTED_ROOMS (length (r :: out))); [|by apply IH].
    rewrite take_app_le by (rewrite length_rev; lia). rewrite take_ge; [done|].
    rewrite length_rev. cbn [length] in *. lia.
Qed.

Lemma clampRooms_take rooms :
  NoDup rooms -> ""%string ∉ rooms -> clampRooms rooms = take MAX_PERSISTED_ROOMS rooms.
Proof. intros. apply (clampFrom_take rooms []); auto. unfold MAX_PERSISTED_ROOMS. cbn. lia. Qed.

Section Typed.
Context `{JsonText}.

Record wfSession (s : MultiplayerSession) : Prop := {
  wf_rooms : exists l, ms_rooms s = ofRooms l /\ cleanRooms l;
  wf_metadata : ms_metadata s = None \/
    exists fields, ms_metadata s = Some (JObj fields) /\
      (String.length (jsonStringify (JObj fields)) <= MAX_METADATA_CHARS)%nat;
}.

Definition wfTable (t : SessionTable) : Prop := map_Forall (fun _ s => wfSession s) t.

Lemma wf_alter f u t :
  wfTable t -> (forall s, t !! u = Some s -> wfSession s -> wfSession (f s)) -> wfTable (alter f u t).
Proof.
  intros Ht Hf k s. destruct (decide (u = k)) as [->|Hne].
  - rewrite lookup_alter_eq. destruct (t !! k) as [s0|] eqn:Hk; [|done]. intros [= <-]. eauto.
  - rewrite lookup_alter_ne by done. apply Ht.
Qed.

Lemma wf_same s s' :
  ms_rooms s' = ms_rooms s -> ms_metadata s' = ms_metadata s -> wfSession s -> wfSession s'.
Proof. intros H1 H2 [W1 W2]. split; rewrite ?H1, ?H2; assumption. Qed.

Lemma wf_setRooms now l s : cleanRooms l -> wfSession s -> wfSession (setRooms now l s).
Proof. intros Hl [_ W]. split; [exists l; auto|exact W]. Qed.

Lemma wf_patch now patch s : wfSession s -> wfSession (patchRow now patch s).
Proof.
  intros W. unfold patchRow, clampMetadata. destruct (Nat.ltb_spec MAX_METADATA_CHARS
    (String.length (jsonStringify (JObj (spread (match asJsonObject (ms_metadata s) with Some fs => fs | None => [] end) patch))))).
  - by apply (wf_same s).
  - destruct W as [W _]. split; [exact W|]. right. eexists. split; [reflexivity|]. done.
Qed.

Lemma clean_filter (P : string -> Prop) `{forall x, Decision (P x)} (l : list string) : cleanRooms l -> cleanRooms (filter P l).
Proof.
  intros [H1 H2 H3]. split; [by apply NoDup_filter|rewrite list_elem_of_filter; tauto|].
  pose proof (length_filter P l). lia.
Qed.

Lemma wf_beginRoom op t next : wfTable t -> beginRoom op t = Some next -> cleanRooms next.
Proof.
  intros Ht. unfold beginRoom. destruct (t !! opUser op) as [s|] eqn:Hs; [|done].
  destruct (wf_rooms _ (Ht _ _ Hs)) as (l & Hl & Hc). rewrite Hl, asStringArray_ofRooms.
  destruct op as [u r|u r]; [case_bool_decide; [done|]|]; intros [= <-];
    [apply clampRooms_clean|by apply clean_filter].
Qed.

(** The operations of the service. *)
Inductive SessionCall : Type :=
| CallConnect (userId walletAddress socketId : string)
| CallDisconnect (userId : string)
| CallRoom (op : RoomOp)
| CallReconcile (userId : string) (adapterRooms : list string)
| CallMetadata (userId : string) (patch : list (string * Json)).

Definition runCall (works : nat -> bool) (now : Z) (call : SessionCall) (t : SessionTable) : SessionTable :=
  match call with
  | CallConnect u w s => snd (recordConnect works now u w s t)
  | CallDisconnect u => recordDisconnect works now u t
  | CallRoom op => roomOp works now op t
  | CallReconcile u rooms => snd (reconcileRooms works now u rooms t)
  | CallMetadata u patch => patchMetadata works now u patch t
  end.

(** C24. The two JSON columns keep their type: whichever operations run, with
    whichever of their calls failing, the rooms of every session are an array of
    at most 32 different non-empty strings, and its metadata is absent or an
    object of at most 4096 characters. *)
Theorem session_columns_typed calls t :
  wfTable t -> wfTable (foldl (fun t c => runCall (fst (fst c)) (snd (fst c)) (snd c) t) t calls).
Proof.
  revert t. induction calls as [|[[works now] call] calls IH]; intros t Ht; cbn; [done|]. apply IH.
  destruct call as [u w s|u|op|u rooms|u patch]; cbn.
  - unfold recordConnect. destruct (works 0%nat && works 1%nat); cbn; [|done].
    apply map_Forall_insert_2; [|done]. unfold connectRow. destruct (t !! u) as [s0|] eqn:Hs.
    + by apply (wf_same s0), (Ht u).
    + split; [exists []; split; [done|]|by left]. split; [constructor|apply not_elem_of_nil|cbn; lia].
  - unfold recordDisconnect. destruct (String.eqb u ""); [done|]. destruct (works 0%nat); [|done].
    apply wf_alter; [done|]. intros s _. by apply wf_same.
  - unfold roomOp. destruct (_ || _); [done|]. destruct (works 0%nat); [|done].
    destruct (beginRoom op t) as [next|] eqn:Hb; [|done]. destruct (works 1%nat); [|done].
    apply wf_alter; [done|]. intros s _. apply wf_setRooms. by eapply wf_beginRoom.
  - unfold reconcileRooms. destruct (String.eqb u ""); [done|]. destruct (works 0%nat); [|done].
    destruct (reconcileRead u rooms t) as [l|l] eqn:Hr; [done|]. destruct (works 1%nat); [|done].
    apply wf_alter; [done|]. intros s _. apply wf_setRooms. unfold reconcileRead in Hr.
    destruct (t !! u); [|done]. destruct (filter _ _), (filter _ _); simplify_eq; apply clampRooms_clean.
  - unfold patchMetadata. destruct (String.eqb u ""); [done|]. destruct (_ && _); [|done].
    apply wf_alter; [done|]. intros s _. apply wf_patch.
Qed.
End Typed.

(** ** Reconnecting *)

(** A client that drops and comes back is given what it had: the rooms and
    metadata of its session, and when it was last seen; its row then shows it
    connected on the new socket with the same rooms and metadata, and other
    users' rows are untouched. A user without a session starts with an empty
    one. *)
Theorem reconnect_resumes u w sock t1 t2 t :
  u <> ""%string ->
  let works _ := true in
  let '(payload, t') := recordConnect works t2 u w sock (recordDisconnect works t1 u t) in
  (forall s, t !! u = Some s ->
     payload = mkResume (asStringArray (ms_rooms s)) (asJsonObject (ms_metadata s)) (Some t1) (Some t1) /\
     t' !! u = Some (s {{ ms_walletAddress := w; ms_socketId := Some sock; ms_lastSeenAt := t2;
                          ms_disconnectedAt := None }})) /\
  (t !! u = None -> payload = EMPTY_RESUME /\
     getResumePayload works u t' = mkResume [] None (Some t2) None) /\
  (forall v, v <> u -> t' !! v = t !! v).
Proof.
  intros Hu works. unfold recordConnect, recordDisconnect, getResumePayload. cbn.
  destruct (String.eqb_spec u "") as [|_]; [done|]. cbn. rewrite lookup_alter_eq, lookup_insert_eq.
  split; [|split].
  - intros s ->. cbn. split; reflexivity.
  - intros ->. cbn. done.
  - intros v Hv. by rewrite lookup_insert_ne, lookup_alter_ne.
Qed.

(** ** Reconciliation *)

Lemma filter_none (P : string -> Prop) `{forall x, Decision (P x)} (l : list string) :
  (forall x, x ∈ l -> ~ P x) -> filter P l = [].
Proof.
  intros Hn. destruct (filter P l) as [|x r] eqn:Hf; [done|].
  assert (Hx : x ∈ filter P l) by (rewrite Hf; left). apply list_elem_of_filter in Hx as [Hp Hx].
  destruct (Hn x Hx Hp).
Qed.

Lemma filter_all (P : string -> Prop) `{forall x, Decision (P x)} (l : list string) : (forall x, x ∈ l -> P x) -> filter P l = l.
Proof.
  induction l as [|x l IH]; intros Ha; [done|]. rewrite filter_cons_True by (apply Ha; left).
  f_equal. apply IH. intros y Hy. apply Ha. by right.
Qed.

Lemma clampFrom_extends rooms : forall out, exists added, clampFrom out rooms = rev out ++ added.
Proof.
  induction rooms as [|r rooms IH]; intros out; cbn [clampFrom]; [exists []; by rewrite app_nil_r|].
  destruct (_ || _); [apply IH|]. destruct (_ <=? _)%nat; [exists [r]; done|].
  destruct (IH (r :: out)) as [added ->]. exists (r :: added). cbn. by rewrite <- app_assoc.
Qed.

Lemma clampFrom_keeps rest kept : forall out,
  NoDup (rev out ++ kept) -> ""%string ∉ kept -> (length out + length kept <= MAX_PERSISTED_ROOMS)%nat ->
  exists added, clampFrom out (kept ++ rest) = rev out ++ kept ++ added.
Proof.
  induction kept as [|r kept IH]; intros out Hnd Hne Hlen; cbn [app clampFrom]; [apply clampFrom_extends|].
  apply not_elem_of_cons in Hne as [Hr Hne]. destruct (String.eqb_spec r ""); [congruence|]. cbn [orb].
  assert (Hout : r ∉ out).
  { intros Hin. apply NoDup_app in Hnd as (_ & Hd & _). apply (Hd r); [by apply elem_of_rev|left]. }
  rewrite bool_decide_eq_false_2 by done.
  assert (E : forall l, rev (r :: out) ++ l = rev out ++ r :: l) by (intros; cbn; by rewrite <- app_assoc).
  destruct (Nat.leb_spec MAX_PERSISTED_ROOMS (length (r :: out))) as [Hfull|Hroom].
  - cbn [length] in *. destruct kept; [|cbn [length] in Hlen; lia]. by exists [].
  - destruct (IH (r :: out)) as [added Ha]; [by rewrite E|done|cbn [length] in *; lia|].
    exists added. rewrite Ha. apply (E (kept ++ added)).
Qed.

(** What [reconcileRooms] writes. *)
Lemma merged_rooms adapterRooms l :
  cleanRooms l -> cleanRooms adapterRooms ->
  let merged := clampRooms (filter (fun r => r ∈ adapterRooms) l ++ adapterRooms) in
  merged ≡ₚ adapterRooms /\ exists added, merged = filter (fun r => r ∈ adapterRooms) l ++ added.
Proof.
  intros Hl Ha merged. pose proof (clean_filter (fun r => r ∈ adapterRooms) l Hl) as [F1 F2 F3]. split.
  - destruct (clampFrom_spec (filter (fun r => r ∈ adapterRooms) l ++ adapterRooms) []) as (Hc & Hsub & Hall);
      [constructor|apply not_elem_of_nil|unfold MAX_PERSISTED_ROOMS; cbn; lia|].
    change (clampFrom [] _) with merged in *.
    assert (Hin : merged ⊆ adapterRooms).
    { intros r [Hr|[[Hr _]%list_elem_of_filter|Hr]%elem_of_app]%Hsub; [by apply not_elem_of_nil in Hr|done..]. }
    destruct (Nat.le_gt_cases MAX_PERSISTED_ROOMS (length merged)) as [Hfull|Hroom].
    + apply submseteq_length_Permutation; [apply NoDup_submseteq; [apply Hc|exact Hin]|]. destruct Ha. lia.
    + apply NoDup_Permutation; [apply Hc|apply Ha|]. intros r. split; [apply Hin|]. intros Hr.
      apply Hall; [done|right; apply elem_of_app; by right|]. intros ->. by destruct Ha.
  - apply (clampFrom_keeps adapterRooms (filter (fun r => r ∈ adapterRooms) l) []); cbn; auto.
Qed.

Lemma reconcileRead_agrees u adapterRooms rooms t s :
  rooms ≡ₚ adapterRooms -> t !! u = Some s -> ms_rooms s = ofRooms rooms ->
  reconcileRead u adapterRooms t = inl rooms.
Proof.
  intros Hp Ht Hr. unfold reconcileRead. rewrite Ht, Hr, asStringArray_ofRooms.
  rewrite !filter_none; [done|intros x Hx; rewrite Hp; tauto|intros x Hx; rewrite <- Hp; tauto].
Qed.

Lemma filter_empty (P : string -> Prop) `{forall x, Decision (P x)} (l : list string) x : filter P l = [] -> x ∈ l -> ~ P x.
Proof.
  intros Hf Hx Hp. assert (Hin : x ∈ filter P l) by (by apply list_elem_of_filter).
  rewrite Hf in Hin. by apply not_elem_of_nil in Hin.
Qed.

(** With clean lists on both sides the session ends up in exactly the rooms of
    the adapter, which is also the answer, the rooms it keeps coming first and
    in their order; doing it again changes nothing. *)
Theorem reconcileRooms_spec works now u adapterRooms t s l :
  u <> ""%string -> t !! u = Some s -> ms_rooms s = ofRooms l -> cleanRooms l -> cleanRooms adapterRooms ->
  works 0%nat = true -> works 1%nat = true ->
  exists rooms t', reconcileRooms works now u adapterRooms t = (rooms, t') /\
    rooms ≡ₚ adapterRooms /\ (exists s', t' !! u = Some s' /\ ms_rooms s' = ofRooms rooms) /\
    (exists added, rooms = filter (fun r => r ∈ adapterRooms) l ++ added) /\
    (forall v, v <> u -> t' !! v = t !! v) /\
    reconcileRooms works now u adapterRooms t' = (rooms, t').
Proof.
  intros Hu Hs Hl Hc Ha W0 W1. unfold reconcileRooms. rewrite W0, W1.
  destruct (String.eqb_spec u "") as [|_]; [done|].
  assert (Hcase : (reconcileRead u adapterRooms t = inl l /\ l ≡ₚ adapterRooms) \/
    reconcileRead u adapterRooms t = inr (clampRooms (filter (fun r => r ∈ adapterRooms) l ++ adapterRooms))).
  { unfold reconcileRead. rewrite Hs, Hl, asStringArray_ofRooms.
    destruct (filter (fun r => r ∉ adapterRooms) l) eqn:F1; [|by right].
    destruct (filter (fun r => r ∉ l) adapterRooms) eqn:F2; [|by right]. left. split; [done|].
    apply NoDup_Permutation; [apply Hc|apply Ha|]. intros r.
    pose proof (filter_empty _ _ r F1). pose proof (filter_empty _ _ r F2). cbn in *.
    split; intros; apply dec_stable; tauto. }
  destruct Hcase as [[-> Hp]| ->].
  - exists l, t. split; [done|]. split; [done|]. split; [by eauto|]. split; [|split; [done|]].
    + exists []. rewrite app_nil_r. rewrite filter_all; [done|]. intros r Hr. by rewrite <- Hp.
    + by rewrite (reconcileRead_agrees u adapterRooms l t s).
  - destruct (merged_rooms adapterRooms l Hc Ha) as [Hp Hadd]. cbn in Hp, Hadd.
    set (rooms := clampRooms _) in *. exists rooms, (alter (setRooms now rooms) u t).
    assert (Hrow : alter (setRooms now rooms) u t !! u = Some (setRooms now rooms s)) by (by rewrite lookup_alter_eq, Hs).
    split; [done|]. split; [done|]. split; [eauto|]. split; [done|]. split.
    + intros v Hv. by rewrite lookup_alter_ne.
    + by rewrite (reconcileRead_agrees u adapterRooms rooms _ (setRooms now rooms s)).
Qed.

(** ** Operations at once *)

(** A call of [addRoom] or [removeRoom] that writes at the time [rc_at]. *)
Record RoomCall : Type := mkRoomCall { rc_at : Z; rc_op : RoomOp }.

Definition beginCall (c : RoomCall) (t : SessionTable) : option (list string) := beginRoom (rc_op c) t.
Definition commitCall (c : RoomCall) (next : list string) (t : SessionTable) : SessionTable :=
  commitRoom (rc_at c) (rc_op c) next t.

Definition isAdd (op : RoomOp) : bool := match op with AddRoom _ _ => true | RemoveRoom _ _ => false end.

(** Whether the calls, the last first, leave the user in a room. *)
Fixpoint expected (l : list string) (log : list RoomCall) (r : string) : Prop :=
  match log with
  | [] => r ∈ l
  | c :: log' =>
      match rc_op c with
      | AddRoom _ r' => r = r' \/ expected l log' r
      | RemoveRoom _ r' => r <> r' /\ expected l log' r
      end
  end.

Definition additions (log : list RoomCall) : nat := length (filter (fun c => isAdd (rc_op c) = true) log).

Lemma additions_cons c log : additions (c :: log) = ((if isAdd (rc_op c) then 1 else 0) + additions log)%nat.
Proof.
  unfold additions. destruct (isAdd (rc_op c)) eqn:Ha; [by rewrite filter_cons_True|by rewrite filter_cons_False by congruence].
Qed.

Definition forUser (u : string) (c : RoomCall) : Prop := opUser (rc_op c) = u /\ opRoom (rc_op c) <> ""%string.

Lemma add_fits l r :
  cleanRooms l -> r ∉ l -> r <> ""%string -> (length l < MAX_PERSISTED_ROOMS)%nat ->
  clampRooms (l ++ [r]) = l ++ [r] /\ cleanRooms (l ++ [r]).
Proof.
  intros Hc Hr Hre Hlen. assert (Hnd : NoDup (l ++ [r])).
  { apply NoDup_app. split; [apply Hc|]. split; [|apply NoDup_singleton]. by intros x Hx ->%list_elem_of_singleton. }
  assert (Hne : ""%string ∉ l ++ [r]).
  { rewrite elem_of_app, list_elem_of_singleton. intros [?|?]; [by destruct Hc|congruence]. }
  assert (Hl : (length (l ++ [r]) <= MAX_PERSISTED_ROOMS)%nat) by (rewrite length_app; cbn [length]; lia).
  split; [|by split]. rewrite clampRooms_take by done. by apply take_ge.
Qed.

Lemma begin_add u t s l r now :
  t !! u = Some s -> ms_rooms s = ofRooms l -> cleanRooms l -> r ∉ l -> r <> ""%string ->
  (length l < MAX_PERSISTED_ROOMS)%nat -> beginCall (mkRoomCall now (AddRoom u r)) t = Some (l ++ [r]).
Proof.
  intros Hs Hl Hc Hr Hre Hlen. unfold beginCall, beginRoom. cbn [rc_op opUser]. rewrite Hs, Hl, asStringArray_ofRooms.
  rewrite bool_decide_eq_false_2 by done. f_equal. by apply add_fits.
Qed.

Lemma serial_rooms u t s l log :
  t !! u = Some s -> ms_rooms s = ofRooms l -> cleanRooms l -> Forall (forUser u) log ->
  (length l + additions log <= MAX_PERSISTED_ROOMS)%nat ->
  exists s' l', serial beginCall commitCall t log !! u = Some s' /\ ms_rooms s' = ofRooms l' /\ cleanRooms l' /\
    (length l' <= length l + additions log)%nat /\ forall r, r ∈ l' <-> expected l log r.
Proof.
  intros Hs Hl Hc HF. induction HF as [|c log [Hu Hr] HF IH]; intros Hlen.
  { exists s, l. cbn. split; [done|]. split; [done|]. split; [done|]. split; [lia|done]. }
  rewrite additions_cons in Hlen. destruct IH as (s' & l' & Hs' & Hl' & Hc' & Hlen' & Hin); [lia|].
  cbn [serial foldr]. change (foldr (whole beginCall commitCall) t log) with (serial beginCall commitCall t log).
  set (t' := serial beginCall commitCall t log) in *. unfold whole, beginCall, beginRoom, commitCall, commitRoom.
  rewrite Hu, Hs', Hl', asStringArray_ofRooms. rewrite additions_cons. cbn [expected].
  destruct (rc_op c) as [v r|v r]; cbn [isAdd opRoom] in *.
  - case_bool_decide as Hmem.
    + exists s', l'. split; [done|]. split; [done|]. split; [done|]. split; [lia|]. intros x. rewrite <- Hin.
      split; [auto|intros [->|]; auto].
    + destruct (add_fits l' r Hc' Hmem Hr) as [Hcl Hclean]; [lia|].
      rewrite Hcl, lookup_alter_eq, Hs'. exists (setRooms (rc_at c) (l' ++ [r]) s'), (l' ++ [r]).
      split; [done|]. split; [done|]. rewrite length_app. cbn [length]. split; [done|split; [lia|]].
      intros x. rewrite elem_of_app, list_elem_of_singleton, Hin. tauto.
  - rewrite lookup_alter_eq, Hs'. eexists _, (filter (fun x => x <> r) l').
    split; [reflexivity|]. split; [done|]. split; [by apply clean_filter|].
    split; [pose proof (length_filter (fun x => x <> r) l'); lia|].
    intros x. by rewrite list_elem_of_filter, Hin.
Qed.

Section Concurrent.
Context {server : RedisServer}.

(** C15. While the lock holds, no join and no leave is lost: however calls for the
    rooms of a user overlap, on any number of instances, as long as no lock
    runs out before its call ends and no call runs without it, the user is
    afterwards in exactly the rooms the completed calls leave them in, one
    after the other. Up to 32 rooms, which the list is cut to. *)
Theorem rooms_no_lost_update u t s l y :
  t !! u = Some s -> ms_rooms s = ofRooms l -> cleanRooms l ->
  covered_run beginCall commitCall LOCK_TTL_MS t y ->
  Forall (forUser u) (map kc_op (ks_callers y)) ->
  (length l + additions (ks_log y) <= MAX_PERSISTED_ROOMS)%nat ->
  exists s' l', ks_state y !! u = Some s' /\ ms_rooms s' = ofRooms l' /\ cleanRooms l' /\
    forall r, r ∈ l' <-> expected l (ks_log y) r.
Proof.
  intros Hs Hl Hc Hrun HF Hlen. rewrite (lock_serialises beginCall commitCall LOCK_TTL_MS t y Hrun).
  apply covered_reachable in Hrun as Hk. pose proof (log_from _ _ _ _ _ _ Hk HF) as HF'.
  destruct (serial_rooms u t s l (ks_log y) Hs Hl Hc HF' Hlen) as (s' & l' & H1 & H2 & H3 & _ & H4).
  exists s', l'. auto.
Qed.

(** Without it they are: two additions that both give up on the lock, or find
    no Redis, and both read before either writes leave only the second room,
    though both have completed. *)
Theorem fallback_loses_update u t s l a b now :
  t !! u = Some s -> ms_rooms s = ofRooms l -> cleanRooms l -> (length l < MAX_PERSISTED_ROOMS)%nat ->
  a ∉ l -> b ∉ l -> a <> ""%string -> b <> ""%string -> a <> b ->
  let call r := mkRoomCall now (AddRoom u r) in
  let caller token r p := mkKeyCaller (L := list string) token (call r) p None in
  exists y, kreachable beginCall commitCall LOCK_TTL_MS t y /\
    ks_callers y = [caller "1"%string a KFinished; caller "2"%string b KFinished] /\
    ks_log y = [call b; call a] /\
    exists s', ks_state y !! u = Some s' /\ ms_rooms s' = ofRooms (l ++ [b]).
Proof.
  intros Hs Hl Hc Hlen Ha Hb Hae Hbe Hab call caller.
  assert (Hread : forall r, r ∉ l -> r <> ""%string -> beginCall (call r) t = Some (l ++ [r]))
    by (intros; by apply (begin_add u t s l r now)).
  pose (st p q (m : SessionTable) log := mkKeySystem now rd_absent m [caller "1"%string a p; caller "2"%string b q] log).
  pose (ta := commitCall (call a) (l ++ [a]) t). pose (tb := commitCall (call b) (l ++ [b]) ta).
  assert (H0 : kreachable beginCall commitCall LOCK_TTL_MS t (st KWaiting KWaiting t [])).
  { apply kr_init; [|repeat constructor]. cbn. apply NoDup_cons. split; [|apply NoDup_singleton].
    rewrite list_elem_of_singleton. done. }
  assert (H1 : kreachable beginCall commitCall LOCK_TTL_MS t (st KReading KReading t [])).
  { eapply kr_step; [eapply kr_step; [exact H0|exact (k_unlocked _ _ _ (st KWaiting KWaiting t []) 0 (caller "1"%string a KWaiting) eq_refl eq_refl)]|].
    exact (k_unlocked _ _ _ (st KReading KWaiting t []) 1 (caller "2"%string b KWaiting) eq_refl eq_refl). }
  assert (H2 : kreachable beginCall commitCall LOCK_TTL_MS t (st (KWriting (l ++ [a])) (KWriting (l ++ [b])) t [])).
  { eapply kr_step; [eapply kr_step; [exact H1|]|].
    - assert (Hx := k_read beginCall commitCall LOCK_TTL_MS (st KReading KReading t []) 0
                      (caller "1"%string a KReading) eq_refl eq_refl).
      change (ks_state (st KReading KReading t [])) with t in Hx. cbn [kc_op caller] in Hx.
      rewrite (Hread a Ha Hae) in Hx. exact Hx.
    - assert (Hx := k_read beginCall commitCall LOCK_TTL_MS (st (KWriting (l ++ [a])) KReading t []) 1
                      (caller "2"%string b KReading) eq_refl eq_refl).
      change (ks_state (st (KWriting (l ++ [a])) KReading t [])) with t in Hx. cbn [kc_op caller] in Hx.
      rewrite (Hread b Hb Hbe) in Hx. exact Hx. }
  assert (H3 : kreachable beginCall commitCall LOCK_TTL_MS t (st KLeaving KLeaving tb [call b; call a])).
  { eapply kr_step; [eapply kr_step; [exact H2|]|].
    - exact (k_write beginCall commitCall LOCK_TTL_MS (st (KWriting (l ++ [a])) (KWriting (l ++ [b])) t []) 0
               (caller "1"%string a (KWriting (l ++ [a]))) (l ++ [a]) eq_refl eq_refl).
    - exact (k_write beginCall commitCall LOCK_TTL_MS (st KLeaving (KWriting (l ++ [b])) ta [call a]) 1
               (caller "2"%string b (KWriting (l ++ [b]))) (l ++ [b]) eq_refl eq_refl). }
  exists (st KFinished KFinished tb [call b; call a]). split; [|split; [done|split; [done|]]].
  - eapply kr_step; [eapply kr_step; [exact H3|]|].
    + exact (k_leave beginCall commitCall LOCK_TTL_MS (st KLeaving KLeaving tb [call b; call a]) 0
               (caller "1"%string a KLeaving) eq_refl eq_refl).
    + exact (k_leave beginCall commitCall LOCK_TTL_MS (st KFinished KLeaving tb [call b; call a]) 1
               (caller "2"%string b KLeaving) eq_refl eq_refl).
  - cbn [ks_state st]. unfold tb, ta, commitCall, commitRoom. cbn [rc_op call opUser rc_at].
    rewrite !lookup_alter_eq, Hs. cbn. eexists. split; [reflexivity|done].
Qed.
End Concurrent.
