(* ===== verification/Challenge.v ===== *)
(** * Wallet challenges (src/src/utils/challenge.util.ts)

    The message a wallet signs to log in: written line by line by
    [buildChallengeMessage], read back by [parseChallenge], and accepted only by
    the deployment whose domains it names. Strings are sequences of bytes.
    [AuthEnv] is the environment of one deployment; the URL parser, the
    printing of dates and the reading of numbers and dates are parameters. *)

From Stdlib Require Import ZArith QArith Lia Ascii.
From stdpp Require Import base strings list pretty.
From S2P Require Import Prelude.
From S2P Require Import Numeric.

#[local] Open Scope string_scope.

Definition CHALLENGE_EXPIRY_MINUTES : Z := 5.
Definition DEFAULT_AUTH_DOMAIN : string := "xelma.io".
Definition DEFAULT_HOME_DOMAIN : string := "xelma.io".

(** [new URL(s).hostname], [None] when the constructor throws; [toISOString];
    [Number] and [Date.parse] of a string. A number written in decimal is read
    back as itself. *)
Class JsDates := {
  hostname : string -> option string;
  isoDate : Z -> string;
  numberOf : string -> num;
  parseDate : string -> num;
  numberOf_pretty : forall n : N, numberOf (pretty n) = Fin (inject_Z (Z.of_N n));
}.

Record AuthEnv : Type := mkAuthEnv {
  ae_AUTH_DOMAIN : option string;
  ae_WEB_AUTH_DOMAIN : option string;
  ae_HOME_DOMAIN : option string;
  ae_CLIENT_URL : option string;
  ae_API_BASE_URL : option string;
}.

(** ** Strings *)

Definition newline : ascii := ascii_of_nat 10.
Definition colon : ascii := ":"%char.

(** White space and line terminators below 128. *)
Definition isSpace (a : ascii) : bool :=
  let n := nat_of_ascii a in ((n =? 32) || (9 <=? n) && (n <=? 13))%nat.

Fixpoint trimStart (s : string) : string :=
  match s with
  | "" => ""
  | String a s' => if isSpace a then trimStart s' else s
  end.

Fixpoint trimEnd (s : string) : string :=
  match s with
  | "" => ""
  | String a s' =>
      match trimEnd s' with
      | "" => if isSpace a then "" else String a ""
      | r => String a r
      end
  end.

Definition trim (s : string) : string := trimEnd (trimStart s).

Fixpoint hasChar (c : ascii) (s : string) : bool :=
  match s with "" => false | String a s' => Ascii.eqb a c || hasChar c s' end.

(** [s.split(c)] *)
Fixpoint splitOn (c : ascii) (s : string) : list string :=
  match s with
  | "" => [""]
  | String a s' =>
      if Ascii.eqb a c then "" :: splitOn c s'
      else match splitOn c s' with [] => [String a ""] | l :: ls => String a l :: ls end
  end.

(** [s.slice(0, i)] and [s.slice(i + 1)] for the first [i] with [s[i] = c]. *)
Fixpoint cutAt (c : ascii) (s : string) : option (string * string) :=
  match s with
  | "" => None
  | String a s' =>
      if Ascii.eqb a c then Some ("", s')
      else match cutAt c s' with Some (k, v) => Some (String a k, v) | None => None end
  end.

(** [lines.join('\n')] *)
Definition joinLines (lines : list string) : string := String.concat (String newline "") lines.

(** ** Domains *)

Section Env.
Context `{JsDates} (env : AuthEnv).

(** The host of a configured URL, if it is set and parses. *)
Definition hostOf (url : option string) (default : string) : option string :=
  match truthy url with
  | None => None
  | Some u => match hostname u with
              | None => None
              | Some h => Some (match truthy (Some h) with Some h => h | None => default end)
              end
  end.

Definition getAuthDomain : string :=
  match truthy (ae_AUTH_DOMAIN env) with
  | Some d => trim d
  | None =>
      match truthy (ae_WEB_AUTH_DOMAIN env) with
      | Some d => trim d
      | None =>
          match hostOf (ae_CLIENT_URL env) DEFAULT_AUTH_DOMAIN with
          | Some h => h
          | None => match hostOf (ae_API_BASE_URL env) DEFAULT_AUTH_DOMAIN with
                    | Some h => h
                    | None => DEFAULT_AUTH_DOMAIN
                    end
          end
      end
  end.

Definition getHomeDomain : string :=
  match truthy (ae_HOME_DOMAIN env) with
  | Some d => trim d
  | None =>
      match truthy (ae_AUTH_DOMAIN env) with
      | Some d => trim d
      | None =>
          match truthy (ae_WEB_AUTH_DOMAIN env) with
          | Some d => trim d
          | None =>
              match hostOf (ae_CLIENT_URL env) DEFAULT_HOME_DOMAIN with
              | Some h => h
              | None => match hostOf (ae_API_BASE_URL env) DEFAULT_HOME_DOMAIN with
                        | Some h => h
                        | None => DEFAULT_HOME_DOMAIN
                        end
              end
          end
      end
  end.

(** ** Writing *)

(** [params] of [buildChallengeMessage]; the version is the default. Times are
    milliseconds of the current era. *)
Record ChallengeParams : Type := mkChallengeParams {
  cp_domain : string;
  cp_homeDomain : string;
  cp_nonce : string;
  cp_timestamp : N;
  cp_issuedAt : string;
  cp_walletAddress : option string;
}.

Definition challengeLines (p : ChallengeParams) : list string :=
  ["Xelma Authentication"; "Domain: " +:+ trim (cp_domain p); "Home Domain: " +:+ trim (cp_homeDomain p)]
  ++ match truthy (cp_walletAddress p) with Some w => ["Address: " +:+ w] | None => [] end
  ++ ["Nonce: " +:+ cp_nonce p; "Issued At: " +:+ cp_issuedAt p; "Version: 1";
      "Timestamp: " +:+ pretty (cp_timestamp p)].

Definition buildChallengeMessage (p : ChallengeParams) : string := joinLines (challengeLines p).

(** The time and the random nonce are arguments. *)
Definition generateChallenge (timestamp : N) (nonce : string) (walletAddress : option string) : string :=
  buildChallengeMessage
    (mkChallengeParams getAuthDomain getHomeDomain nonce timestamp (isoDate (Z.of_N timestamp)) walletAddress).

Definition generateLegacyChallenge (timestamp : N) (randomBytes : string) : string :=
  "xelma_auth_" +:+ pretty timestamp +:+ "_" +:+ randomBytes.

(** ** Expiry *)

(** [setMinutes] on a date of the current era adds whole minutes. *)
Definition getChallengeExpiry (now : Z) : Z := (now + CHALLENGE_EXPIRY_MINUTES * 60 * 1000)%Z.
Definition isChallengeExpired (now expiresAt : Z) : bool := (expiresAt <? now)%Z.
Definition getChallengeExpirySeconds : Z := (CHALLENGE_EXPIRY_MINUTES * 60)%Z.

(** ** Reading *)

Definition isDigit (a : ascii) : bool := let n := nat_of_ascii a in ((48 <=? n) && (n <=? 57))%nat.
Definition isHex (a : ascii) : bool :=
  let n := nat_of_ascii a in (isDigit a || (97 <=? n) && (n <=? 102))%nat.

Fixpoint allChars (f : ascii -> bool) (s : string) : bool :=
  match s with "" => true | String a s' => f a && allChars f s' end.

(** The longest prefix of digits, and the rest. *)
Fixpoint spanDigits (s : string) : string * string :=
  match s with
  | "" => ("", "")
  | String a s' => if isDigit a then let '(d, r) := spanDigits s' in (String a d, r) else ("", s)
  end.

(** [challenge.match(LEGACY_CHALLENGE_RE)]: the two groups. *)
Definition legacyMatch (challenge : string) : option (string * string) :=
  if String.prefix "xelma_auth_" challenge then
    let '(digits, rest) := spanDigits (String.substring 11 (String.length challenge - 11) challenge) in
    match digits, rest with
    | String _ _, String u hex =>
        if Ascii.eqb u "_"%char && (String.length hex =? 64)%nat && allChars isHex hex then Some (digits, hex)
        else None
    | _, _ => None
    end
  else None.

Definition isLegacyChallenge (challenge : string) : bool :=
  match legacyMatch challenge with Some _ => true | None => false end.

Record ParsedChallenge : Type := mkParsed {
  pc_raw : string;
  pc_isLegacy : bool;
  pc_domain : option string;
  pc_homeDomain : option string;
  pc_nonce : option string;
  pc_timestamp : option num;
  pc_issuedAt : option string;
  pc_walletAddress : option string;
  pc_version : option num;
}.

(** One line of the message, as an entry of the map. *)
Definition lineEntry (line : string) : option (string * string) :=
  match cutAt colon line with
  | Some (k, v) => Some (toLowerCase (trim k), trim v)
  | None => None
  end.

(** [map.get], the last [set] of a key counting. *)
Definition mapGet (k : string) (entries : list (string * string)) : option string :=
  foldl (fun acc kv => if String.eqb (fst kv) k then Some (snd kv) else acc) None entries.

(** [n && !Number.isNaN(n) ? n : null] *)
Definition usableNumber (n : num) : option num :=
  match n with
  | NaN => None
  | Fin q => if Qeq_bool q 0 then None else Some n
  | _ => Some n
  end.

Definition parseChallenge (challenge : string) : option ParsedChallenge :=
  match truthy (Some challenge) with
  | None => None
  | Some _ =>
      match legacyMatch challenge with
      | Some (ts, nonce) =>
          Some (mkParsed challenge true None None (Some nonce) (Some (numberOf ts)) None None None)
      | None =>
          let map := omap lineEntry (splitOn newline challenge) in
          let issuedAt := mapGet "issued at" map in
          let timestamp := match truthy (mapGet "timestamp" map) with
                           | Some ts => Some (numberOf ts)
                           | None => option_map parseDate (truthy issuedAt)
                           end in
          Some (mkParsed challenge false (mapGet "domain" map)
                  (match mapGet "home domain" map with Some h => Some h | None => mapGet "home_domain" map end)
                  (mapGet "nonce" map)
                  (match timestamp with Some n => usableNumber n | None => None end)
                  issuedAt (mapGet "address" map)
                  (match truthy (mapGet "version" map) with Some v => usableNumber (numberOf v) | None => None end))
      end
  end.

(** ** Checks *)

Definition isValidChallengeDomain (challenge : string) : bool :=
  match parseChallenge challenge with
  | None => false
  | Some parsed =>
      if pc_isLegacy parsed then true
      else
        match truthy (pc_domain parsed) with
        | None => false
        | Some d =>
            String.eqb d getAuthDomain
            && match truthy (pc_homeDomain parsed) with Some h => String.eqb h getHomeDomain | None => true end
        end
  end.

Definition isChallengeWalletBindingValid (challenge walletAddress : string) : bool :=
  match parseChallenge challenge with
  | None => false
  | Some parsed =>
      if pc_isLegacy parsed then true
      else match truthy (pc_walletAddress parsed) with
           | None => true
           | Some w => String.eqb w walletAddress
           end
  end.
End Env.

(** ** Text lemmas *)

Lemma trim_space s : trim (String " "%char s) = trim s.
Proof. reflexivity. Qed.

Lemma trimEnd_cons a s : trimEnd (String a s) = "" \/ exists r, trimEnd (String a s) = String a r.
Proof. cbn. destruct (trimEnd s); [destruct (isSpace a)|]; eauto. Qed.

Lemma trimEnd_idem s : trimEnd (trimEnd s) = trimEnd s.
Proof.
  induction s as [|a s IH]; [done|]. cbn. destruct (trimEnd s) as [|b r] eqn:E.
  - destruct (isSpace a) eqn:Ha; cbn; [done|]. by rewrite Ha.
  - change (match trimEnd (String b r) with
            | "" => if isSpace a then "" else String a ""
            | String c t => String a (String c t)
            end = String a (String b r)). by rewrite IH.
Qed.

Lemma trimStart_head s : trimStart s = "" \/ exists a r, trimStart s = String a r /\ isSpace a = false.
Proof. induction s as [|a s IH]; cbn; [auto|]. destruct (isSpace a) eqn:Ha; [exact IH|]. eauto. Qed.

Lemma trim_idem s : trim (trim s) = trim s.
Proof.
  unfold trim. destruct (trimStart_head s) as [->|(a & r & -> & Ha)]; [done|].
  destruct (trimEnd_cons a r) as [E|[r' E]]; rewrite E; [done|]. cbn [trimStart]. rewrite Ha, <- E. apply trimEnd_idem.
Qed.

(** White space inside a string of other characters. *)
Lemma trim_inert s : allChars (fun a => negb (isSpace a)) s = true -> trim s = s.
Proof.
  intros Hs. assert (Hend : forall t, allChars (fun a => negb (isSpace a)) t = true -> trimEnd t = t).
  { induction t as [|a t IH]; cbn; [done|]. intros [Ha Ht]%andb_prop. rewrite IH by done.
    destruct t; [|done]. by destruct (isSpace a). }
  unfold trim. destruct s as [|a s]; [done|]. cbn in Hs. apply andb_prop in Hs as [Ha Hs].
  cbn [trimStart]. destruct (isSpace a) eqn:E; [done|]. apply Hend. cbn. by rewrite E.
Qed.

Lemma allChars_impl f g s : (forall a, f a = true -> g a = true) -> allChars f s = true -> allChars g s = true.
Proof. intros Hfg. induction s as [|a s IH]; cbn; [done|]. intros [? ?]%andb_prop. by rewrite Hfg, IH. Qed.

Lemma hasChar_app c s t : hasChar c (s +:+ t) = hasChar c s || hasChar c t.
Proof. induction s as [|a s IH]; [done|]. change (Ascii.eqb a c || hasChar c (s +:+ t) = hasChar c (String a s) || hasChar c t).
  rewrite IH. cbn. by rewrite orb_assoc. Qed.

Lemma hasChar_allChars f c s : f c = false -> allChars f s = true -> hasChar c s = false.
Proof.
  intros Hc. induction s as [|a s IH]; cbn; [done|]. intros [Ha ?]%andb_prop. rewrite IH by done.
  destruct (Ascii.eqb_spec a c); [congruence|done].
Qed.

Lemma trimStart_hasChar c s : hasChar c s = false -> hasChar c (trimStart s) = false.
Proof. induction s as [|a s IH]; cbn; [done|]. intros [? ?]%orb_false_elim. destruct (isSpace a); cbn; [auto|]. by apply orb_false_intro. Qed.

Lemma trimEnd_hasChar c s : hasChar c s = false -> hasChar c (trimEnd s) = false.
Proof.
  induction s as [|a s IH]; cbn [trimEnd hasChar]; [done|]. intros [Ha Hs]%orb_false_elim. specialize (IH Hs).
  destruct (trimEnd s) as [|b r]; [destruct (isSpace a); cbn; [done|]; by rewrite Ha|].
  change (Ascii.eqb a c || hasChar c (String b r) = false). by rewrite Ha, IH.
Qed.

Lemma trim_hasChar c s : hasChar c s = false -> hasChar c (trim s) = false.
Proof. intros. by apply trimEnd_hasChar, trimStart_hasChar. Qed.

(** Splitting undoes joining. *)
Lemma splitOn_line c l : hasChar c l = false -> splitOn c l = [l].
Proof.
  induction l as [|a l IH]; cbn; [done|]. intros [Ha Hl]%orb_false_elim. by rewrite Ha, IH.
Qed.

Lemma splitOn_app c l rest : hasChar c l = false -> splitOn c (l +:+ String c rest) = l :: splitOn c rest.
Proof.
  induction l as [|a l IH]; [intros _; change (splitOn c (String c rest) = "" :: splitOn c rest); cbn; by rewrite Ascii.eqb_refl|].
  intros [Ha Hl]%orb_false_elim.
  change (splitOn c (String a (l +:+ String c rest)) = String a l :: splitOn c rest). cbn. by rewrite Ha, IH.
Qed.

Lemma split_join lines :
  lines <> [] -> Forall (fun l => hasChar newline l = false) lines -> splitOn newline (joinLines lines) = lines.
Proof.
  intros Hne. induction lines as [|l lines IH]; [done|]. intros [Hl HF]%Forall_cons.
  destruct lines as [|l' lines]; [by apply splitOn_line|].
  change (splitOn newline (l +:+ String newline (joinLines (l' :: lines))) = l :: l' :: lines).
  rewrite splitOn_app by done. by rewrite IH.
Qed.

(** Decimal numerals *)
Lemma pretty_go_digits x : forall s, allChars isDigit s = true -> allChars isDigit (pretty_N_go x s) = true.
Proof.
  induction (N.lt_wf_0 x) as [x _ IH]. intros s Hs. destruct (N.eq_dec x 0%N) as [->|Hx]; [by rewrite pretty_N_go_0|].
  rewrite pretty_N_go_step by lia. apply IH; [apply N.div_lt; lia|]. cbn [allChars]. rewrite Hs, andb_true_r.
  unfold pretty_N_char. by repeat case_match.
Qed.

Lemma pretty_digits (n : N) : allChars isDigit (pretty n) = true.
Proof.
  unfold pretty, pretty_N. destruct (decide (n = 0%N)); [done|]. by apply pretty_go_digits.
Qed.

Lemma digit_not_space a : isDigit a = true -> negb (isSpace a) = true.
Proof.
  unfold isDigit, isSpace. set (n := nat_of_ascii a). intros [H1%Nat.leb_le H2%Nat.leb_le]%andb_prop.
  destruct (Nat.eqb_spec n 32), (Nat.leb_spec 9 n), (Nat.leb_spec n 13); try done; lia.
Qed.

(** ** The message is read back as written *)

(** One line, not empty, without white space around it. *)
Record oneLine (s : string) : Prop := {
  ol_line : hasChar newline s = false;
  ol_trim : trim s = s;
  ol_some : s <> "";
}.

Lemma truthy_some s : s <> "" -> truthy (Some s) = Some s.
Proof. intros Hs. unfold truthy. destruct (String.eqb_spec s ""); congruence. Qed.

Lemma pretty_oneLine (n : N) : hasChar newline (pretty n) = false /\ trim (pretty n) = pretty n.
Proof.
  pose proof (pretty_digits n) as Hd. split; [by apply (hasChar_allChars isDigit)|].
  apply trim_inert. eapply allChars_impl; [exact digit_not_space|done].
Qed.

Section RoundTrip.
Context `{JsDates}.

(** What a message of [buildChallengeMessage] parses to. *)
Definition parsedOf (p : ChallengeParams) : ParsedChallenge :=
  mkParsed (buildChallengeMessage p) false (Some (cp_domain p)) (Some (cp_homeDomain p)) (Some (cp_nonce p))
    (usableNumber (Fin (inject_Z (Z.of_N (cp_timestamp p))))) (Some (cp_issuedAt p)) (cp_walletAddress p)
    (Some (Fin 1)).

Record wellFormedParams (p : ChallengeParams) : Prop := {
  wp_domain : oneLine (cp_domain p);
  wp_homeDomain : oneLine (cp_homeDomain p);
  wp_nonce : oneLine (cp_nonce p);
  wp_issuedAt : oneLine (cp_issuedAt p);
  wp_wallet : match cp_walletAddress p with Some w => oneLine w | None => True end;
}.

Lemma lines_clean p : wellFormedParams p -> Forall (fun l => hasChar newline l = false) (challengeLines p).
Proof.
  intros W. destruct p as [d h n ts iso w]. destruct W as [Wd Wh Wn Wi Ww]. unfold challengeLines.
  cbn [cp_domain cp_homeDomain cp_walletAddress cp_nonce cp_issuedAt cp_timestamp] in *.
  rewrite (ol_trim _ Wd), (ol_trim _ Wh).
  assert (Hone : forall k v, hasChar newline k = false -> hasChar newline v = false -> hasChar newline (k +:+ v) = false)
    by (intros k v Hk Hv; by rewrite hasChar_app, Hk, Hv).
  pose proof (proj1 (pretty_oneLine ts)). destruct w as [w|];
    [rewrite truthy_some by apply Ww|]; cbn [truthy app]; repeat constructor; try done; apply Hone; try done;
    first [apply Wd|apply Wh|apply Wn|apply Wi|apply Ww].
Qed.

(** The entries the lines are read as. *)
Lemma entries_of p : wellFormedParams p ->
  omap lineEntry (challengeLines p) =
  ([("domain", cp_domain p); ("home domain", cp_homeDomain p)]
  ++ match cp_walletAddress p with Some w => [("address", w)] | None => [] end
  ++ [("nonce", cp_nonce p); ("issued at", cp_issuedAt p); ("version", "1");
      ("timestamp", pretty (cp_timestamp p))])%list.
Proof.
  intros W. destruct p as [d h n ts iso w]. destruct W as [Wd Wh Wn Wi Ww].
  cbn [cp_domain cp_homeDomain cp_walletAddress cp_nonce cp_issuedAt cp_timestamp] in *.
  assert (Hval : forall s, oneLine s -> trim (String " "%char s) = s) by (intros s Hs; rewrite trim_space; apply Hs).
  pose proof (proj2 (pretty_oneLine ts)) as Hts. unfold challengeLines.
  cbn [cp_domain cp_homeDomain cp_walletAddress cp_nonce cp_issuedAt cp_timestamp].
  rewrite (ol_trim _ Wd), (ol_trim _ Wh).
  assert (E1 : lineEntry ("Domain: " +:+ d) = Some ("domain", d)) by (rewrite <- (Hval d Wd) at 2; reflexivity).
  assert (E2 : lineEntry ("Home Domain: " +:+ h) = Some ("home domain", h)) by (rewrite <- (Hval h Wh) at 2; reflexivity).
  assert (E3 : lineEntry ("Nonce: " +:+ n) = Some ("nonce", n)) by (rewrite <- (Hval n Wn) at 2; reflexivity).
  assert (E4 : lineEntry ("Issued At: " +:+ iso) = Some ("issued at", iso)) by (rewrite <- (Hval iso Wi) at 2; reflexivity).
  assert (E5 : lineEntry ("Timestamp: " +:+ pretty ts) = Some ("timestamp", pretty ts))
    by (rewrite <- Hts at 2; rewrite <- trim_space; reflexivity).
  destruct w as [w|].
  - assert (E6 : lineEntry ("Address: " +:+ w) = Some ("address", w)) by (rewrite <- (Hval w Ww) at 2; reflexivity).
    rewrite truthy_some by apply Ww. cbn -[lineEntry String.append]. by rewrite E1, E2, E3, E4, E5, E6.
  - cbn -[lineEntry String.append]. by rewrite E1, E2, E3, E4, E5.
Qed.

Lemma build_not_legacy p : legacyMatch (buildChallengeMessage p) = None.
Proof. unfold legacyMatch, buildChallengeMessage, challengeLines. reflexivity. Qed.

Lemma numberOf_one : numberOf "1" = Fin 1.
Proof. exact (numberOf_pretty 1). Qed.

Lemma pretty_truthy (n : N) : truthy (Some (pretty n)) = Some (pretty n).
Proof.
  apply truthy_some. unfold pretty, pretty_N. destruct (decide (n = 0%N)); [done|].
  rewrite pretty_N_go_step by lia.
  assert (Hne : forall x s, s <> "" -> pretty_N_go x s <> "").
  { intros x. induction (N.lt_wf_0 x) as [x _ IH]. intros s Hs.
    destruct (N.eq_dec x 0%N) as [->|Hx]; [by rewrite pretty_N_go_0|].
    rewrite pretty_N_go_step by lia. apply IH; [apply N.div_lt; lia|done]. }
  by apply Hne.
Qed.

(** A message built for clean fields is parsed back to those fields: both
    domains, the wallet if it names one, the nonce, the time of issue, the
    timestamp and the version. *)
Theorem challenge_roundtrip p :
  wellFormedParams p -> parseChallenge (buildChallengeMessage p) = Some (parsedOf p).
Proof.
  intros W. unfold parsedOf. set (c := buildChallengeMessage p).
  assert (Hc : truthy (Some c) = Some c) by (by apply truthy_some).
  assert (Hleg : legacyMatch c = None) by apply build_not_legacy.
  assert (Hs : omap lineEntry (splitOn newline c) = omap lineEntry (challengeLines p))
    by (unfold c, buildChallengeMessage; by rewrite split_join by (done || by apply lines_clean)).
  clearbody c. unfold parseChallenge. rewrite Hc, Hleg, Hs, (entries_of p W).
  assert (Hv : truthy (Some "1") = Some "1") by done. destruct p as [d h n ts iso w].
  destruct w as [w|]; cbn -[truthy usableNumber]; rewrite pretty_truthy, Hv, numberOf_one, numberOf_pretty; done.
Qed.

(** ** A challenge is good for the deployment that wrote it *)

(** The domains of a deployment and the fields it adds are clean. *)
Definition cleanEnv (env : AuthEnv) : Prop := oneLine (getAuthDomain env) /\ oneLine (getHomeDomain env).

(** C23. Anti-phishing. A challenge another deployment issued is accepted exactly
    when both of its domains are the ones of this deployment, and for exactly
    the wallet it was issued to. *)
Theorem domain_binding env env' timestamp nonce w w' :
  cleanEnv env -> oneLine nonce -> oneLine (isoDate (Z.of_N timestamp)) -> oneLine w ->
  let challenge := generateChallenge env timestamp nonce (Some w) in
  isValidChallengeDomain env' challenge =
    String.eqb (getAuthDomain env) (getAuthDomain env') && String.eqb (getHomeDomain env) (getHomeDomain env') /\
  isChallengeWalletBindingValid challenge w' = String.eqb w w'.
Proof.
  intros [Hd Hh] Hn Hi Hw challenge. unfold isValidChallengeDomain, isChallengeWalletBindingValid.
  assert (Hp : parseChallenge challenge = Some (parsedOf (mkChallengeParams (getAuthDomain env) (getHomeDomain env)
            nonce timestamp (isoDate (Z.of_N timestamp)) (Some w)))) by (by apply challenge_roundtrip).
  rewrite Hp. unfold parsedOf. cbn [pc_isLegacy pc_domain pc_homeDomain pc_walletAddress cp_domain cp_homeDomain cp_walletAddress].
  rewrite !truthy_some by first [apply Hd|apply Hh|apply Hw]. done.
Qed.

(** ** Legacy challenges *)

Lemma spanDigits_app s a rest :
  allChars isDigit s = true -> isDigit a = false -> spanDigits (s +:+ String a rest) = (s, String a rest).
Proof.
  intros Hs Ha. induction s as [|b s IH]; [change (spanDigits (String a rest) = ("", String a rest)); cbn; by rewrite Ha|].
  cbn in Hs. apply andb_prop in Hs as [Hb Hs].
  change (spanDigits (String b (s +:+ String a rest)) = (String b s, String a rest)). cbn. by rewrite Hb, IH.
Qed.

Lemma substring_all s : String.substring 0 (String.length s) s = s.
Proof. induction s as [|a s IH]; cbn; [done|]. by rewrite IH. Qed.

Lemma legacy_match (ts : N) hex :
  String.length hex = 64%nat -> allChars isHex hex = true ->
  legacyMatch (generateLegacyChallenge ts hex) = Some (pretty ts, hex).
Proof.
  intros Hl Hx. unfold generateLegacyChallenge.
  set (rest := pretty ts +:+ "_" +:+ hex).
  assert (Hsub : forall s, String.substring 11 (String.length ("xelma_auth_" +:+ s) - 11) ("xelma_auth_" +:+ s) = s).
  { intros s. change (String.length ("xelma_auth_" +:+ s)) with (11 + String.length s)%nat.
    replace (11 + String.length s - 11)%nat with (String.length s) by lia. apply (substring_all s). }
  unfold legacyMatch. assert (Hpre : String.prefix "xelma_auth_" ("xelma_auth_" +:+ rest) = true) by (by destruct rest).
  rewrite Hpre, Hsub. unfold rest. change ("_" +:+ hex) with (String "_"%char hex).
  rewrite spanDigits_app by (done || apply pretty_digits). pose proof (pretty_truthy ts) as Ht.
  destruct (pretty ts) as [|a s]; [done|]. cbn [Ascii.eqb]. by rewrite Hl, Hx.
Qed.

(** A challenge in the old format parses to its timestamp and nonce, and has no
    domain and no wallet to check: every deployment takes it for any wallet, so
    that only the record of issued challenges protects it. *)
Theorem legacy_unbound env (ts : N) hex w :
  String.length hex = 64%nat -> allChars isHex hex = true ->
  let challenge := generateLegacyChallenge ts hex in
  parseChallenge challenge =
    Some (mkParsed challenge true None None (Some hex) (Some (Fin (inject_Z (Z.of_N ts)))) None None None) /\
  isValidChallengeDomain env challenge = true /\ isChallengeWalletBindingValid challenge w = true.
Proof.
  intros Hl Hx challenge.
  assert (Hp : parseChallenge challenge =
    Some (mkParsed challenge true None None (Some hex) (Some (Fin (inject_Z (Z.of_N ts)))) None None None)).
  { unfold parseChallenge. rewrite truthy_some by done. unfold challenge at 1.
    by rewrite legacy_match, numberOf_pretty. }
  unfold isValidChallengeDomain, isChallengeWalletBindingValid. by rewrite Hp.
Qed.
End RoundTrip.
