(* ===== verification/Auth.v ===== *)
(** * Wallet login (src/src/routes/auth.routes.ts, src/src/services/stellar.service.ts)

    A client asks for a challenge, signs it, and exchanges it for a token. The
    handlers are cut at their database calls: [astep] interleaves any number of
    them, any call of which may fail. The first login creates an account, later
    ones pay a daily bonus ([loginBonus]). Signature checking and the encoding
    of tokens belong to libraries: [sdkVerify], [validAddress] and
    [JwtEnv]. Audit logging, rate limits and the request schemas are left out.
    Money is in units of 1e-8. *)

From Stdlib Require Import ZArith Lia.
From stdpp Require Import base gmap strings list pretty.
From S2P Require Import Prelude.
From S2P Require Import Errors.
From S2P Require Import Challenge.

#[local] Open Scope Z_scope.

(** ** Data *)

Record AuthChallenge : Type := mkAuthChallenge {
  ac_walletAddress : string;
  ac_createdAt : Z;
  ac_expiresAt : Z;
  ac_usedAt : option Z;
  ac_isUsed : bool;
}.

Record Account : Type := mkAccount {
  au_id : string;
  au_walletAddress : string;
  au_lastLoginAt : option Z;
  au_virtualBalance : Z;
  au_streak : Z;
}.

(** A row of the transaction table of type BONUS. *)
Record BonusRow : Type := mkBonusRow {
  bo_userId : string;
  bo_amount : Z;
  bo_description : string;
  bo_at : Z;
}.

(** The unique keys: the challenge text, the wallet address. *)
Notation ChallengeTable := (gmap string AuthChallenge).
Notation AccountTable := (gmap string Account).

(** ** Statements on the challenges *)

(** [deleteMany({ walletAddress, isUsed: false })] *)
Definition isUnused (wallet : string) (r : AuthChallenge) : bool :=
  String.eqb (ac_walletAddress r) wallet && negb (ac_isUsed r).

Definition deleteUnused (wallet : string) (t : ChallengeTable) : ChallengeTable :=
  filter (fun '(_, r) => isUnused wallet r = false) t.

(** [create]: [None] when the challenge exists. *)
Definition createChallenge (now at_ : Z) (wallet challenge : string) (t : ChallengeTable) : option ChallengeTable :=
  match t !! challenge with
  | Some _ => None
  | None => Some (<[challenge := mkAuthChallenge wallet now (getChallengeExpiry at_) None false]> t)
  end.

(** The condition of the consuming [updateMany]. *)
Definition consumable (now : Z) (wallet : string) (r : AuthChallenge) : bool :=
  String.eqb (ac_walletAddress r) wallet && negb (ac_isUsed r) && (now <? ac_expiresAt r).

(** The consuming [updateMany]: whether a row was updated. *)
Definition consume (now : Z) (wallet challenge : string) (t : ChallengeTable) : bool * ChallengeTable :=
  match t !! challenge with
  | Some r =>
      if consumable now wallet r
      then (true, <[challenge := r {{ ac_isUsed := true; ac_usedAt := Some now }}]> t)
      else (false, t)
  | None => (false, t)
  end.

(** The error for a challenge that was not consumed, from its row. *)
Definition consumeError (now : Z) (wallet : string) (existing : option AuthChallenge) : Err :=
  match existing with
  | None => AuthenticationError "Invalid or expired challenge" INVALID_CHALLENGE
  | Some r =>
      if negb (String.eqb (ac_walletAddress r) wallet) then
        AuthenticationError "Invalid or expired challenge" INVALID_CHALLENGE
      else if ac_isUsed r then AuthenticationError "Challenge has already been used" CHALLENGE_USED
      else if isChallengeExpired now (ac_expiresAt r) then
        AuthenticationError "Challenge has expired. Please request a new one." CHALLENGE_EXPIRED
      else AuthenticationError "Invalid or expired challenge" INVALID_CHALLENGE
  end.

Definition DAY_MS : Z := 24 * 60 * 60 * 1000.

(** [deleteMany] of the used challenges of a wallet after a day. *)
Definition isOldUsed (now : Z) (wallet : string) (r : AuthChallenge) : bool :=
  String.eqb (ac_walletAddress r) wallet && ac_isUsed r
  && match ac_usedAt r with Some u => u <? now - DAY_MS | None => false end.

Definition cleanupUsed (now : Z) (wallet : string) (t : ChallengeTable) : ChallengeTable :=
  filter (fun '(_, r) => isOldUsed now wallet r = false) t.

(** The retention policy (retention.service.ts): expired challenges, and those
    created before the cutoff. *)
Definition isStale (now cutoff : Z) (r : AuthChallenge) : bool := (ac_expiresAt r <? now) || (ac_createdAt r <? cutoff).

Definition dropStale (now cutoff : Z) (t : ChallengeTable) : ChallengeTable :=
  filter (fun '(_, r) => isStale now cutoff r = false) t.

(** ** Signatures *)

(** [StrKey.isValidEd25519PublicKey] and [Keypair.verify] of the Stellar SDK;
    [None] when the call throws. *)
Class StellarSdk := {
  validAddress : string -> bool;
  sdkVerify : string -> string -> string -> option bool;
}.

Definition verifySignature `{StellarSdk} `{JsDates} (env : AuthEnv) (walletAddress challenge signature : string) : bool :=
  validAddress walletAddress
  && isValidChallengeDomain env challenge
  && isChallengeWalletBindingValid challenge walletAddress
  && match sdkVerify walletAddress challenge signature with Some b => b | None => false end.

(** ** Bonuses *)

Definition XLM : Z := 100000000.
Definition WELCOME_BONUS : Z := 100 * XLM.
Definition STARTING_BALANCE : Z := 1000 * XLM.

Section Bonus.
(** Midnight of a day, [setHours(0, 0, 0, 0)] in the zone of the host. *)
Context (startOfDay : Z -> Z).

Definition diffDays (now lastLogin : Z) : Z :=
  (Z.abs (startOfDay now - startOfDay lastLogin) + (DAY_MS - 1)) / DAY_MS.

(** The multiplier times two. *)
Definition multiplier2 (streak : Z) : Z := if 7 <=? streak then 4 else if 3 <=? streak then 3 else 2.

(** The streak after the login, and the bonus if it is a new day. *)
Definition loginBonus (now : Z) (user : Account) : Z * option Z :=
  let days := diffDays now (default 0 (au_lastLoginAt user)) in
  if 1 <=? days then
    let newStreak := if days =? 1 then au_streak user + 1 else 1 in
    (newStreak, Some (100 * XLM * multiplier2 newStreak / 2))
  else (au_streak user, None).

(** [update] after a login; [None] when the account is gone. *)
Definition loginUpdate (now : Z) (wallet : string) (streak : Z) (bonus : option Z) (t : AccountTable)
    : option AccountTable :=
  match t !! wallet with
  | None => None
  | Some u => Some (<[wallet := u {{ au_lastLoginAt := Some now; au_streak := streak;
                                     au_virtualBalance := au_virtualBalance u + default 0 bonus }}]> t)
  end.

(** [create] on the first login; [None] when the wallet has an account. *)
Definition signup (now : Z) (id wallet : string) (t : AccountTable) : option AccountTable :=
  match t !! wallet with
  | Some _ => None
  | None => Some (<[wallet := mkAccount id wallet (Some now) (STARTING_BALANCE + WELCOME_BONUS) 1]> t)
  end.
End Bonus.

(** ** Refresh *)

(** [verifyToken]: the claims of a token it accepts. *)
Class JwtEnv := { verifyToken : string -> option (string * string) }.

(** The token of the request: the header, the two body fields. *)
Definition tokenOf (authorization bodyToken bodyRefreshToken : option string) : option string :=
  match truthy authorization with
  | Some h => if String.prefix "Bearer " h then Some (String.substring 7 (String.length h - 7) h)
              else match bodyToken with Some t => Some t | None => bodyRefreshToken end
  | None => match bodyToken with Some t => Some t | None => bodyRefreshToken end
  end.

(** The account a refreshed token is issued for; [find] looks an account up by
    its id. *)
Definition refresh `{JwtEnv} (token : option string) (find : string -> option Account) : Err + Account :=
  match truthy token with
  | None => inl (AuthenticationError "Authentication token is required" AUTHENTICATION_ERROR)
  | Some t =>
      let invalid := inl (AuthenticationError "Invalid or expired token" AUTHENTICATION_ERROR) in
      match verifyToken t with
      | None => invalid
      | Some (userId, walletAddress) =>
          if String.eqb userId "" || String.eqb walletAddress "" then invalid
          else
            match find userId with
            | Some user => if String.eqb (au_walletAddress user) walletAddress then inr user
                           else inl (AuthenticationError "User not found or wallet mismatch" AUTHENTICATION_ERROR)
            | None => inl (AuthenticationError "User not found or wallet mismatch" AUTHENTICATION_ERROR)
            end
      end
  end.

(** ** Requests at once *)

Inductive AuthPhase : Type :=
| AChallenge                                    (** POST /challenge: before [deleteMany] *)
| AIssue                                        (** before [create] *)
| AIssued (challenge : string)
| AConnect (challenge signature : string)       (** POST /connect or /verify *)
| ADiagnose (challenge : string) (at_ : Z)      (** nothing consumed *)
| AVerify (challenge signature : string) (at_ : Z)
| AFindUser (challenge : string) (at_ : Z)
| ASignup (challenge : string) (at_ : Z)
| AWelcome (challenge : string) (at_ : Z) (id : string)
| ABonus (challenge : string) (at_ : Z) (user : Account)
| AUpdate (challenge : string) (at_ : Z) (streak : Z) (bonus : option Z)
| ACleanup (challenge : string) (at_ : Z)
| AToken (challenge : string)
| ARefused (e : Err).

Record AuthRequest : Type := mkAuthRequest { ar_wallet : string; ar_phase : AuthPhase }.

(** [aw_issued], [aw_consumed] and [aw_bonuses] record what has happened, the
    latest first: challenge, wallet and time. *)
Record AuthWorld : Type := mkAuthWorld {
  aw_now : Z;
  aw_challenges : ChallengeTable;
  aw_accounts : AccountTable;
  aw_bonuses : list BonusRow;
  aw_requests : list AuthRequest;
  aw_issued : list (string * string * Z);
  aw_consumed : list (string * string * Z);
}.

Section Steps.
Context `{StellarSdk} `{JsDates} (env : AuthEnv) (startOfDay : Z -> Z).

Definition advance (i : nat) (r : AuthRequest) (p : AuthPhase) (y : AuthWorld) : AuthWorld :=
  y {{ aw_requests := <[i := r {{ ar_phase := p }}]> (aw_requests y) }}.

Inductive astep : AuthWorld -> AuthWorld -> Prop :=
| as_arrive y w p :
    p = AChallenge \/ (exists c s, p = AConnect c s) ->
    astep y (y {{ aw_requests := aw_requests y ++ [mkAuthRequest w p] }})
| as_delete y i r :
    aw_requests y !! i = Some r -> ar_phase r = AChallenge ->
    astep y (advance i r AIssue (y {{ aw_challenges := deleteUnused (ar_wallet r) (aw_challenges y) }}))
| as_issue y i r nonce now at_ t :
    (** the text is made of an earlier time and a random nonce, the expiry is
        counted from a time between *)
    aw_requests y !! i = Some r -> ar_phase r = AIssue -> Z.of_N now <= at_ <= aw_now y ->
    let challenge := generateChallenge env now nonce (Some (ar_wallet r)) in
    challenge ∉ map (fun x => fst (fst x)) (aw_issued y) ->
    createChallenge (aw_now y) at_ (ar_wallet r) challenge (aw_challenges y) = Some t ->
    astep y (advance i r (AIssued challenge)
               (y {{ aw_challenges := t; aw_issued := (challenge, ar_wallet r, at_) :: aw_issued y }}))
| as_consume y i r c s t :
    aw_requests y !! i = Some r -> ar_phase r = AConnect c s ->
    consume (aw_now y) (ar_wallet r) c (aw_challenges y) = (true, t) ->
    astep y (advance i r (AVerify c s (aw_now y))
               (y {{ aw_challenges := t; aw_consumed := (c, ar_wallet r, aw_now y) :: aw_consumed y }}))
| as_not_consumed y i r c s t :
    aw_requests y !! i = Some r -> ar_phase r = AConnect c s ->
    consume (aw_now y) (ar_wallet r) c (aw_challenges y) = (false, t) ->
    astep y (advance i r (ADiagnose c (aw_now y)) y)
| as_diagnose y i r c at_ :
    aw_requests y !! i = Some r -> ar_phase r = ADiagnose c at_ ->
    astep y (advance i r (ARefused (consumeError (aw_now y) (ar_wallet r) (aw_challenges y !! c))) y)
| as_verify y i r c s at_ :
    aw_requests y !! i = Some r -> ar_phase r = AVerify c s at_ ->
    astep y (advance i r (if verifySignature env (ar_wallet r) c s then AFindUser c at_
                          else ARefused (AuthenticationError "Invalid signature" INVALID_SIGNATURE)) y)
| as_find y i r c at_ :
    aw_requests y !! i = Some r -> ar_phase r = AFindUser c at_ ->
    astep y (advance i r (match aw_accounts y !! ar_wallet r with
                          | None => ASignup c at_
                          | Some user => ABonus c at_ user
                          end) y)
| as_signup y i r c at_ id t :
    aw_requests y !! i = Some r -> ar_phase r = ASignup c at_ ->
    signup at_ id (ar_wallet r) (aw_accounts y) = Some t ->
    astep y (advance i r (AWelcome c at_ id) (y {{ aw_accounts := t }}))
| as_welcome y i r c at_ id :
    aw_requests y !! i = Some r -> ar_phase r = AWelcome c at_ id ->
    astep y (advance i r (ACleanup c at_)
               (y {{ aw_bonuses := mkBonusRow id WELCOME_BONUS "Welcome Bonus" (aw_now y) :: aw_bonuses y }}))
| as_bonus y i r c at_ user streak bonus :
    aw_requests y !! i = Some r -> ar_phase r = ABonus c at_ user ->
    loginBonus startOfDay at_ user = (streak, bonus) ->
    astep y (advance i r (AUpdate c at_ streak bonus)
               (y {{ aw_bonuses := match bonus with
                                   | Some b => mkBonusRow (au_id user) b
                                       ("Daily Login Bonus (Day " +:+ pretty streak +:+ ")") (aw_now y) :: aw_bonuses y
                                   | None => aw_bonuses y
                                   end }}))
| as_update y i r c at_ streak bonus t :
    aw_requests y !! i = Some r -> ar_phase r = AUpdate c at_ streak bonus ->
    loginUpdate at_ (ar_wallet r) streak bonus (aw_accounts y) = Some t ->
    astep y (advance i r (ACleanup c at_) (y {{ aw_accounts := t }}))
| as_cleanup y i r c at_ :
    aw_requests y !! i = Some r -> ar_phase r = ACleanup c at_ ->
    astep y (advance i r (AToken c) (y {{ aw_challenges := cleanupUsed (aw_now y) (ar_wallet r) (aw_challenges y) }}))
| as_retention y cutoff :
    (** the retention job on some instance *)
    astep y (y {{ aw_challenges := dropStale (aw_now y) cutoff (aw_challenges y) }})
| as_error y i r e :
    (** a call fails; one that fails after it took effect is its own step
        followed by this one *)
    aw_requests y !! i = Some r -> astep y (advance i r (ARefused e) y)
| as_tick y now' : aw_now y <= now' -> astep y (y {{ aw_now := now' }}).

Inductive areachable : AuthWorld -> Prop :=
| ar_init now accounts : areachable (mkAuthWorld now ∅ accounts [] [] [] [])
| ar_step y y' : areachable y -> astep y y' -> areachable y'.
End Steps.

(** ** A challenge logs in once *)

Definition chal (x : string * string * Z) : string := fst (fst x).

(** The challenge and consumption time a request carries after consuming. *)
Definition carries (p : AuthPhase) : option (string * option Z) :=
  match p with
  | AVerify c _ at_ | AFindUser c at_ | ASignup c at_ | AWelcome c at_ _ | ABonus c at_ _
  | AUpdate c at_ _ _ | ACleanup c at_ => Some (c, Some at_)
  | AToken c => Some (c, None)
  | _ => None
  end.

(** Past the signature check. *)
Definition verified (p : AuthPhase) : bool :=
  match p with
  | AFindUser _ _ | ASignup _ _ | AWelcome _ _ _ | ABonus _ _ _ | AUpdate _ _ _ _ | ACleanup _ _ | AToken _ => true
  | _ => false
  end.

Section SingleUse.
Context `{StellarSdk} `{JsDates} (env : AuthEnv) (startOfDay : Z -> Z).

Record AuthInv (y : AuthWorld) : Prop := {
  av_rows : forall c r, aw_challenges y !! c = Some r ->
    exists t, (c, ac_walletAddress r, t) ∈ aw_issued y /\ t <= aw_now y /\ ac_expiresAt r = getChallengeExpiry t;
  av_issuedNoDup : NoDup (map chal (aw_issued y));
  av_consumed : forall c w t, (c, w, t) ∈ aw_consumed y ->
    (exists t0, (c, w, t0) ∈ aw_issued y /\ t0 <= t /\ t < getChallengeExpiry t0) /\
    (forall r, aw_challenges y !! c = Some r -> ac_isUsed r = true);
  av_consumedNoDup : NoDup (map chal (aw_consumed y));
  av_request : forall i r c o, aw_requests y !! i = Some r -> carries (ar_phase r) = Some (c, o) ->
    (exists t, (c, ar_wallet r, t) ∈ aw_consumed y) /\
    (verified (ar_phase r) = true -> exists s, verifySignature env (ar_wallet r) c s = true);
  av_alone : forall i j r r' c o o', aw_requests y !! i = Some r -> aw_requests y !! j = Some r' ->
    carries (ar_phase r) = Some (c, o) -> carries (ar_phase r') = Some (c, o') -> i = j;
}.

(** A request moves on with the challenge it carries, or without it. *)
Lemma auth_move y y' i r p :
  AuthInv y -> aw_requests y !! i = Some r ->
  aw_requests y' = <[i := r {{ ar_phase := p }}]> (aw_requests y) ->
  aw_now y' = aw_now y -> aw_challenges y' = aw_challenges y -> aw_issued y' = aw_issued y ->
  aw_consumed y' = aw_consumed y ->
  (forall c o, carries p = Some (c, o) -> exists o', carries (ar_phase r) = Some (c, o')) ->
  (forall c o, carries p = Some (c, o) -> verified p = true -> verified (ar_phase r) = true \/
     exists s, verifySignature env (ar_wallet r) c s = true) ->
  AuthInv y'.
Proof.
  intros I Hi Hreq Hnow Hch Hiss Hcon Hc Hv. destruct I.
  assert (Hlook : forall j x, aw_requests y' !! j = Some x ->
    (i = j /\ x = r {{ ar_phase := p }}) \/ (i <> j /\ aw_requests y !! j = Some x)).
  { intros j x. rewrite Hreq. intros [(?&?&_)|?]%list_lookup_insert_Some; auto. }
  split; rewrite ?Hnow, ?Hch, ?Hiss, ?Hcon; try assumption.
  - intros j x c o [[-> ->]|[_ Hj]]%Hlook Hx; [|eauto]. cbn in Hx |- *. destruct (Hc c o Hx) as [o' Ho'].
    destruct (av_request0 j r c o' Hi Ho') as [Hcc Hs]. split; [exact Hcc|]. intros Hvp.
    destruct (Hv c o Hx Hvp) as [?|?]; auto.
  - intros j k x x' c o o' [[<- ->]|[_ Hj]]%Hlook [[<- ->]|[_ Hk]]%Hlook Hx Hx'; [done| | |eauto].
    + cbn in Hx. destruct (Hc c o Hx) as [o2 Ho2]. eauto.
    + cbn in Hx'. destruct (Hc c o' Hx') as [o2 Ho2]. eauto.
Qed.

(** Challenges are deleted. *)
Lemma auth_shrink y t :
  AuthInv y -> (forall c r, t !! c = Some r -> aw_challenges y !! c = Some r) -> AuthInv (y {{ aw_challenges := t }}).
Proof.
  intros I Hsub. destruct I. split; cbn; eauto. intros c w tm Hin. destruct (av_consumed0 c w tm Hin). eauto.
Qed.

Lemma auth_issue y c w at_ t :
  AuthInv y -> c ∉ map chal (aw_issued y) -> at_ <= aw_now y ->
  createChallenge (aw_now y) at_ w c (aw_challenges y) = Some t ->
  AuthInv (y {{ aw_challenges := t; aw_issued := (c, w, at_) :: aw_issued y }}).
Proof.
  intros I Hfresh Hat Hcr. unfold createChallenge in Hcr. destruct (aw_challenges y !! c) eqn:Hc; [done|]. simplify_eq.
  destruct I. split; cbn; try assumption.
  - intros c' r [[<- <-]|[_ Hr]]%lookup_insert_Some.
    + exists at_. split; [left|]. auto.
    + destruct (av_rows0 c' r Hr) as (t & Ht & ?). exists t. split; [by right|done].
  - by constructor.
  - intros c' w' t Hin. destruct (av_consumed0 c' w' t Hin) as [(t0 & H1 & H2) Hu]. split.
    + exists t0. split; [by right|done].
    + intros r [[<- <-]|[_ Hr]]%lookup_insert_Some; [|eauto]. destruct Hfresh.
      apply list_elem_of_fmap. by exists (c, w', t0).
Qed.

Lemma consume_true now w c t t' :
  consume now w c t = (true, t') ->
  exists r, t !! c = Some r /\ ac_walletAddress r = w /\ ac_isUsed r = false /\ now < ac_expiresAt r /\
    t' = <[c := r {{ ac_isUsed := true; ac_usedAt := Some now }}]> t.
Proof.
  unfold consume. destruct (t !! c) as [r|]; [|done]. unfold consumable.
  destruct (String.eqb_spec (ac_walletAddress r) w), (ac_isUsed r) eqn:Hu, (Z.ltb_spec now (ac_expiresAt r)); cbn; try done.
  intros [= <-]. eauto 10.
Qed.

Lemma auth_consume y c w t :
  AuthInv y -> consume (aw_now y) w c (aw_challenges y) = (true, t) ->
  AuthInv (y {{ aw_challenges := t; aw_consumed := (c, w, aw_now y) :: aw_consumed y }}) /\
  (forall j x o, aw_requests y !! j = Some x -> carries (ar_phase x) <> Some (c, o)).
Proof.
  intros I (r & Hr & Hw & Hu & Hexp & ->)%consume_true. destruct I.
  assert (Hno : forall w' t', (c, w', t') ∉ aw_consumed y).
  { intros w' t' Hin. destruct (av_consumed0 c w' t' Hin) as [_ Hused]. specialize (Hused r Hr). congruence. }
  split.
  - split; cbn; try assumption.
    + intros c' r' [[<- <-]|[_ Hr']]%lookup_insert_Some; [|eauto]. exact (av_rows0 c r Hr).
    + intros c' w' t' [[= -> -> ->]|Hin]%elem_of_cons.
      * split; [|intros r' [[_ <-]|[Hne _]]%lookup_insert_Some; [done|congruence]].
        destruct (av_rows0 c r Hr) as (t0 & H1 & H2 & H3). rewrite Hw in H1. exists t0. rewrite <- H3. auto.
      * destruct (av_consumed0 c' w' t' Hin) as [Hi Hused]. split; [exact Hi|].
        intros r' [[<- <-]|[_ Hr']]%lookup_insert_Some; [done|eauto].
    + constructor; [|done]. intros ([[c' w'] t'] & Hc' & Hin)%list_elem_of_fmap. cbn in Hc'. subst c'.
      exact (Hno w' t' Hin).
    + intros j x c' o Hj Hx. destruct (av_request0 j x c' o Hj Hx) as [[t' Ht'] Hv]. split; [|exact Hv].
      exists t'. by right.
  - intros j x o Hj Hx. destruct (av_request0 j x c o Hj Hx) as [[t' Ht'] _]. exact (Hno _ _ Ht').
Qed.

(** The request that consumed takes the challenge along. *)
Lemma auth_carry y i r c s tm :
  AuthInv y -> aw_requests y !! i = Some r -> (c, ar_wallet r, tm) ∈ aw_consumed y ->
  (forall j x o, aw_requests y !! j = Some x -> carries (ar_phase x) <> Some (c, o)) ->
  AuthInv (advance i r (AVerify c s tm) y).
Proof.
  intros I Hi Hcon Hno. destruct I. split; cbn -[insert list_insert]; try assumption.
  - intros j x c' o [(<- & <- & _)|[_ Hj]]%list_lookup_insert_Some Hx; [|eauto].
    cbn in Hx |- *. simplify_eq. split; [eauto|done].
  - intros j k x x' c' o o' [(<- & <- & _)|[_ Hj]]%list_lookup_insert_Some [(<- & <- & _)|[_ Hk]]%list_lookup_insert_Some Hx Hx';
      [done| | |eauto].
    + cbn in Hx. simplify_eq. by destruct (Hno k x' o').
    + cbn in Hx'. simplify_eq. by destruct (Hno j x o).
Qed.

Lemma auth_arrive y w p : AuthInv y -> carries p = None -> AuthInv (y {{ aw_requests := aw_requests y ++ [mkAuthRequest w p] }}).
Proof.
  intros I Hp. assert (Hlook : forall j x, (aw_requests y ++ [mkAuthRequest w p]) !! j = Some x ->
    aw_requests y !! j = Some x \/ carries (ar_phase x) = None).
  { intros j x [?|[_ [_ <-]%list_lookup_singleton_Some]]%lookup_app_Some; auto. }
  destruct I. split; cbn; try assumption.
  - intros j x c o [?|?]%Hlook ?; [eauto|congruence].
  - intros j k x x' c o o' [?|?]%Hlook [?|?]%Hlook ??; try congruence. eauto.
Qed.

Lemma auth_step y y' : AuthInv y -> astep env startOfDay y y' -> AuthInv y'.
Proof.
  intros I Hs. destruct Hs as
    [y w p Hp | y i r Hi Hp | y i r nonce now at_ t Hi Hp Hnow challenge Hfresh Hc | y i r c s t Hi Hp Hc
    | y i r c s t Hi Hp Hc | y i r c at_ Hi Hp | y i r c s at_ Hi Hp | y i r c at_ Hi Hp | y i r c at_ id t Hi Hp Hu
    | y i r c at_ id Hi Hp | y i r c at_ user streak bonus Hi Hp Hb | y i r c at_ streak bonus t Hi Hp Hu
    | y i r c at_ Hi Hp | y cutoff | y i r e Hi | y now' Hle].
  - apply auth_arrive; [done|]. by destruct Hp as [->|(c & s & ->)].
  - apply (auth_move (y {{ aw_challenges := deleteUnused (ar_wallet r) (aw_challenges y) }}) _ i r AIssue); try done.
    apply auth_shrink; [done|]. by intros c r' [? _]%map_lookup_filter_Some.
  - apply (auth_move (y {{ aw_challenges := t; aw_issued := (challenge, ar_wallet r, at_) :: aw_issued y }}) _ i r
             (AIssued challenge)); try done. apply auth_issue; [done|done|lia|done].
  - destruct (auth_consume y c (ar_wallet r) t I Hc) as [I' Hno].
    apply (auth_carry (y {{ aw_challenges := t; aw_consumed := (c, ar_wallet r, aw_now y) :: aw_consumed y }}) i r c s (aw_now y) I' Hi); [left|exact Hno].
  - by apply (auth_move y _ i r (ADiagnose c (aw_now y))).
  - by eapply (auth_move y _ i r).
  - eapply (auth_move y _ i r); try done; destruct (verifySignature env (ar_wallet r) c s) eqn:Hv; try done.
    + intros c' o [= -> <-]. rewrite Hp. eauto.
    + intros c' o [= -> <-] _. eauto.
  - eapply (auth_move y _ i r); try done; rewrite Hp; destruct (aw_accounts y !! ar_wallet r); try done;
      intros c' o [= -> <-]; cbn; eauto.
  - eapply (auth_move y _ i r (AWelcome c at_ id)); try done; rewrite Hp; intros c' o [= -> <-]; cbn; eauto.
  - eapply (auth_move y _ i r (ACleanup c at_)); try done; rewrite Hp; intros c' o [= -> <-]; cbn; eauto.
  - eapply (auth_move y _ i r (AUpdate c at_ streak bonus)); try done; rewrite Hp; intros c' o [= -> <-]; cbn; eauto.
  - eapply (auth_move y _ i r (ACleanup c at_)); try done; rewrite Hp; intros c' o [= -> <-]; cbn; eauto.
  - eapply (auth_move (y {{ aw_challenges := cleanupUsed (aw_now y) (ar_wallet r) (aw_challenges y) }}) _ i r (AToken c));
      try done; [|rewrite Hp; intros c' o [= -> <-]; cbn; eauto..].
    apply auth_shrink; [done|]. by intros c' r' [? _]%map_lookup_filter_Some.
  - apply auth_shrink; [done|]. by intros c r [? _]%map_lookup_filter_Some.
  - by apply (auth_move y _ i r (ARefused e)).
  - destruct I. split; cbn; try assumption. intros c r Hr. destruct (av_rows0 c r Hr) as (t & ? & ? & ?).
    exists t. split; [done|]. split; [lia|done].
Qed.

Lemma auth_reachable y : areachable env startOfDay y -> AuthInv y.
Proof.
  induction 1 as [now accounts|y y' _ I Hs]; [|by eapply auth_step]. split; cbn; try done.
  - constructor.
  - intros c w t Hin. by apply not_elem_of_nil in Hin.
  - constructor.
Qed.

(** C9. A challenge logs in once, its own wallet, in time. However login requests
    interleave, and whatever calls fail, each challenge is consumed at most
    once, by a request for the wallet it was issued to, less than five minutes
    after it was issued; a request that gets past the signature check has
    consumed its challenge, holds a signature that verifies for the challenge
    and the wallet, and no other request carries the same challenge. *)
Theorem challenge_single_use y :
  areachable env startOfDay y ->
  NoDup (map chal (aw_consumed y)) /\
  (forall c w t, (c, w, t) ∈ aw_consumed y ->
     exists t0, (c, w, t0) ∈ aw_issued y /\ t0 <= t < t0 + CHALLENGE_EXPIRY_MINUTES * 60 * 1000) /\
  (forall i r c o, aw_requests y !! i = Some r -> carries (ar_phase r) = Some (c, o) -> verified (ar_phase r) = true ->
     (exists t, (c, ar_wallet r, t) ∈ aw_consumed y) /\
     (exists s, verifySignature env (ar_wallet r) c s = true) /\
     (forall j r' o', aw_requests y !! j = Some r' -> carries (ar_phase r') = Some (c, o') -> i = j)).
Proof.
  intros I%auth_reachable. destruct I. split; [done|]. split.
  - intros c w t Hin. destruct (av_consumed0 c w t Hin) as [(t0 & ? & ? & ?) _]. exists t0. auto.
  - intros i r c o Hi Hc Hv. destruct (av_request0 i r c o Hi Hc) as [H1 H2]. split; [done|]. split; [auto|].
    intros j r' o' Hj Hc'. exact (av_alone0 i j r r' c o o' Hi Hj Hc Hc').
Qed.
End SingleUse.

(** ** Bonuses *)

(** The zone of a host at a fixed offset from UTC. *)
Definition midnight (offset t : Z) : Z := (t + offset) / DAY_MS * DAY_MS - offset.

(** The daily bonus, counting days at a fixed offset: nothing on the day of the
    last login, whose streak it keeps; on the next day the streak grows by one,
    after a longer gap it starts again; and the bonus is 100 XLM, 150 from the
    third day and 200 from the seventh on. *)
Theorem loginBonus_spec offset now user last :
  au_lastLoginAt user = Some last -> last <= now ->
  let days := (now + offset) / DAY_MS - (last + offset) / DAY_MS in
  let streak := fst (loginBonus (midnight offset) now user) in
  let bonus := snd (loginBonus (midnight offset) now user) in
  0 <= days /\
  (days = 0 -> streak = au_streak user /\ bonus = None) /\
  (days = 1 -> streak = au_streak user + 1) /\
  (1 < days -> streak = 1) /\
  (0 < days -> bonus = Some (XLM * (if 7 <=? streak then 200 else if 3 <=? streak then 150 else 100))).
Proof.
  intros Hl Hle days. unfold loginBonus. rewrite Hl. change (default 0 (Some last)) with last.
  assert (Hd0 : 0 <= days) by (unfold days; pose proof (Z.div_le_mono (last + offset) (now + offset) DAY_MS); unfold DAY_MS in *; lia).
  assert (Hdiff : diffDays (midnight offset) now last = days).
  { unfold diffDays, midnight. replace (Z.abs _) with (days * DAY_MS) by (unfold days, DAY_MS in *; lia).
    rewrite Z.div_add_l by done. change ((DAY_MS - 1) / DAY_MS) with 0. lia. }
  rewrite Hdiff. split; [done|].
  destruct (Z.leb_spec 1 days) as [H1|H1]; cbn [fst snd].
  - split; [lia|]. destruct (Z.eqb_spec days 1) as [E|E].
    + split; [done|]. split; [lia|]. intros _. f_equal. unfold multiplier2.
      destruct (7 <=? _); [done|]. by destruct (3 <=? _).
    + split; [lia|]. split; [done|]. intros _. done.
  - split; [done|]. lia.
Qed.

(** ** Refreshing *)

(** A token is refreshed only for the account it names, with the wallet it
    names, and only if the library accepts it. *)
Theorem refresh_spec `{JwtEnv} token find :
  match refresh token find with
  | inr user => exists t userId, token = Some t /\ t <> ""%string /\
      verifyToken t = Some (userId, au_walletAddress user) /\ find userId = Some user /\ userId <> ""%string
  | inl e => err_status e = 401 /\ err_code e = AUTHENTICATION_ERROR
  end.
Proof.
  unfold refresh. destruct token as [t|]; cbn; [|done]. destruct (String.eqb_spec t "") as [|Ht]; [done|].
  destruct (verifyToken t) as [[userId w]|] eqn:Hv; [|done].
  destruct (String.eqb_spec userId "") as [|Hu]; [done|]. destruct (String.eqb w ""); [done|].
  destruct (find userId) as [user|] eqn:Hf; [|done]. cbn [orb].
  destruct (String.eqb_spec (au_walletAddress user) w) as [->|]; [|done]. exists t, userId. auto.
Qed.
