(* ===== verification/Pagination.v ===== *)
(** * Pages (src/src/utils/pagination.util.ts)

    Offset and cursor pages, and the query of a cursor page as Prisma runs it.
    base64, JSON.parse and the texts of decimals and dates are the interface
    [CursorCodec]. *)

From Stdlib Require Import ZArith QArith Lia.
From stdpp Require Import base gmap strings list.
From S2P Require Import Prelude.
From S2P Require Import Numeric.
From S2P Require Import Schema.
From S2P Require Import JsonText.

#[local] Open Scope Z_scope.

(** [Buffer.from(s).toString("base64url")] and back, [JSON.parse], and a money
    column as text and back. *)
Class CursorCodec `{JsonText} := {
  toBase64url : string -> string;
  fromBase64url : string -> string;
  parseJson : string -> option Json;
  decimalText : Z -> string;
  decimalRead : string -> Z;
  base64_back : forall s, fromBase64url (toBase64url s) = s;
  parse_back : forall fields : list (string * string),
    parseJson (jsonStringify (JObj (map (fun kv => (fst kv, JStr (snd kv))) fields))) =
    Some (JObj (map (fun kv => (fst kv, JStr (snd kv))) fields));
  decimal_back : forall z, decimalRead (decimalText z) = z;
  base64_some : forall s, s <> ""%string -> toBase64url s <> ""%string;
}.

Definition jsonTruthy (v : Json) : bool :=
  match v with
  | JNull | JBool false | JStr EmptyString | JNum NaN => false
  | JNum (Fin q) => negb (Qeq_bool q 0)
  | _ => true
  end.

Section Cursors.
Context `{CursorCodec}.

Definition encodeCursor (value : Json) : string := toBase64url (jsonStringify value).

Definition decodeCursor (cursor : option string) : option Json :=
  match truthy cursor with
  | None => None
  | Some c => parseJson (fromBase64url c)
  end.

(** A decoded cursor is used when it is truthy. *)
Definition usedCursor (cursor : option string) : option Json :=
  match decodeCursor cursor with
  | Some v => if jsonTruthy v then Some v else None
  | None => None
  end.
End Cursors.

Record OffsetMeta : Type := mkOffsetMeta {
  om_limit : nat;
  om_offset : nat;
  om_total : nat;
  om_hasNextPage : bool;
}.

Record CursorMeta : Type := mkCursorMeta {
  cm_limit : nat;
  cm_nextCursor : option string;
  cm_hasNextPage : bool;
}.

Definition buildOffsetPage {T} (items : list T) (limit offset total : nat) : list T * (nat * nat * nat) :=
  (items, (limit, offset, total)).

Definition buildOffsetMeta (limit offset total : nat) : OffsetMeta :=
  mkOffsetMeta limit offset total (offset + limit <? total)%nat.

Definition buildCursorMeta `{CursorCodec} {T} (limit : nat) (rows : list T) (makeCursor : T -> Json) : CursorMeta :=
  let hasNextPage := (limit <? length rows)%nat in
  let pageRows := if hasNextPage then take limit rows else rows in
  mkCursorMeta limit
    (if hasNextPage then option_map (fun r => encodeCursor (makeCursor r)) (last pageRows) else None)
    hasNextPage.

Definition trimSentinel {T} (rows : list T) (limit : nat) : list T :=
  if (limit <? length rows)%nat then take limit rows else rows.

(** ** Following the cursors *)

Section Paging.
Context `{CursorCodec} {T : Type}.
(** The identifier of a row, and the members of its cursor. *)
Context (id : T -> string) (cursorOf : T -> list (string * string)).

Definition stringObject (fields : list (string * string)) : Json := JObj (map (fun kv => (fst kv, JStr (snd kv))) fields).

(** [cursor: { id }, skip: 1]: the rows behind the cursor's, none if it does
    not exist. *)
Fixpoint behind (i : string) (rows : list T) : list T :=
  match rows with
  | [] => []
  | r :: rows' => if String.eqb (id r) i then rows' else behind i rows'
  end.

(** A client that follows the cursors; [None] if the fuel runs out. *)
Fixpoint readAll (fuel limit : nat) (fetch : option string -> list T) (cursor : option string) : option (list T) :=
  match fuel with
  | O => None
  | S fuel' =>
      let us := fetch cursor in
      match cm_nextCursor (buildCursorMeta limit us (fun x => stringObject (cursorOf x))) with
      | None => Some (trimSentinel us limit)
      | Some c => option_map (app (trimSentinel us limit)) (readAll fuel' limit fetch (Some c))
      end
  end.

Lemma cursor_back fields :
  usedCursor (Some (encodeCursor (stringObject fields))) = Some (stringObject fields).
Proof.
  unfold usedCursor, decodeCursor, encodeCursor, truthy.
  destruct (String.eqb_spec (toBase64url (jsonStringify (stringObject fields))) "") as [E|_].
  - exfalso. revert E. apply base64_some. discriminate.
  - rewrite base64_back. unfold stringObject. by rewrite parse_back.
Qed.

Lemma behind_drop rows i r :
  NoDup (map id rows) -> rows !! i = Some r -> behind (id r) rows = drop (S i) rows.
Proof.
  revert i. induction rows as [|x rows IH]; intros i Hnd Hi; [done|]. cbn in Hnd. apply NoDup_cons in Hnd as [Hx Hnd].
  destruct i as [|i]; cbn in Hi |- *.
  - injection Hi as <-. rewrite String.eqb_refl. by rewrite drop_0.
  - destruct (String.eqb_spec (id x) (id r)) as [E|_]; [|by apply IH].
    destruct Hx. rewrite E. apply list_elem_of_fmap. exists r. split; [done|]. by eapply list_elem_of_lookup_2.
Qed.

(** One page from the position [i]. *)
Lemma page_meta limit (rows : list T) i : (1 <= limit)%nat ->
  let us := take (limit + 1) (drop i rows) in
  let meta := buildCursorMeta limit us (fun x => stringObject (cursorOf x)) in
  trimSentinel us limit = take limit (drop i rows) /\
  ((length (drop i rows) <= limit)%nat -> cm_nextCursor meta = None) /\
  ((limit < length (drop i rows))%nat -> exists r, rows !! (i + limit - 1)%nat = Some r /\
     cm_nextCursor meta = Some (encodeCursor (stringObject (cursorOf r)))).
Proof.
  intros Hl us meta. unfold trimSentinel, meta, buildCursorMeta. cbn [cm_nextCursor].
  assert (Hlen : length us = Nat.min (limit + 1) (length (drop i rows))) by (unfold us; apply length_take).
  assert (Htake : take limit us = take limit (drop i rows)) by (unfold us; rewrite take_take; f_equal; lia).
  destruct (Nat.ltb_spec limit (length us)) as [Hlt|Hge].
  - split; [exact Htake|]. split; [lia|]. intros Hmore. rewrite Htake.
    assert (Hr : is_Some (rows !! (i + limit - 1)%nat)) by (apply lookup_lt_is_Some; rewrite length_drop in Hmore; lia).
    destruct Hr as [r Hr]. exists r. split; [done|].
    rewrite last_lookup, length_take, lookup_take_lt, lookup_drop by lia.
    replace (i + Nat.pred (Nat.min limit (length (drop i rows))))%nat with (i + limit - 1)%nat by lia. by rewrite Hr.
  - assert (Hshort : (length (drop i rows) <= limit)%nat) by lia. split; [|split; [done|lia]].
    unfold us. rewrite !take_ge by lia. done.
Qed.

(** The pages from a position on, when the cursor of a row yields the rows
    behind it. *)
Lemma readAll_from limit rows (fetch : option string -> list T) : (1 <= limit)%nat ->
  (forall i r, rows !! i = Some r ->
     fetch (Some (encodeCursor (stringObject (cursorOf r)))) = take (limit + 1) (drop (S i) rows)) ->
  forall fuel i cursor, fetch cursor = take (limit + 1) (drop i rows) ->
  (length rows < fuel + i)%nat -> (i <= length rows)%nat ->
  readAll fuel limit fetch cursor = Some (drop i rows).
Proof.
  intros Hl Hfetch. induction fuel as [|fuel IH]; intros i cursor Hf Hfuel Hi; [lia|]. cbn [readAll]. rewrite Hf.
  destruct (page_meta limit rows i Hl) as (Ht & Hlast & Hmore). rewrite Ht.
  destruct (Nat.le_gt_cases (length (drop i rows)) limit) as [Hs|Hm].
  - rewrite (Hlast Hs). by rewrite take_ge.
  - destruct (Hmore Hm) as (r & Hr & ->). rewrite length_drop in Hm.
    rewrite (IH (i + limit)%nat); [|rewrite (Hfetch _ r Hr); do 2 f_equal; lia|lia|lia].
    cbn. f_equal. rewrite <- (take_drop limit (drop i rows)) at 2. by rewrite drop_drop.
Qed.

(** All of them: every row once, in order. *)
Lemma readAll_all limit rows fetch : (1 <= limit)%nat ->
  (forall i r, rows !! i = Some r ->
     fetch (Some (encodeCursor (stringObject (cursorOf r)))) = take (limit + 1) (drop (S i) rows)) ->
  fetch None = take (limit + 1) rows ->
  readAll (S (length rows)) limit fetch None = Some rows.
Proof.
  intros Hl Hfetch Hnone. rewrite (readAll_from limit rows fetch Hl Hfetch _ 0); [by rewrite drop_0|by rewrite drop_0|lia|lia].
Qed.
End Paging.
