(* ===== verification/Leaderboard.v ===== *)
(** * Leaderboard (src/src/services/leaderboard.service.ts)

    Statistics of the users, updated from the confirmed predictions of a closed
    round, and the pages read from them: by offset, from a sorted set in Redis
    or the table, and by cursor. The sorted set and the cached pages are what
    Redis answers, arguments here. *)

From Stdlib Require Import ZArith QArith Qround Lia Sorted.
From stdpp Require Import base gmap strings list sorting.
From S2P Require Import Prelude.
From S2P Require Import Rounding.
From S2P Require Import Numeric.
From S2P Require Import Doubles.
From S2P Require Import Errors.
From S2P Require Import Schema.
From S2P Require Import Store.
From S2P Require Import PriceRange.
From S2P Require Import JsonText.
From S2P Require Import Pagination.

#[local] Open Scope Z_scope.

(** ** Entries *)

Record ModeStats : Type := mkModeStats {
  mo_wins : Z;
  mo_losses : Z;
  mo_earnings : string;
  mo_accuracy : Q;
}.

Record LeaderboardEntry : Type := mkEntry {
  le_rank : nat;
  le_userId : string;
  le_walletAddress : string;
  le_totalEarnings : string;
  le_totalPredictions : Z;
  le_accuracy : Q;
  le_upDown : ModeStats;
  le_legends : ModeStats;
}.

Definition maskWalletAddress (address : string) : string :=
  let n := String.length address in
  if (n <=? 12)%nat then address
  else (String.substring 0 6 address +:+ "..." +:+ String.substring (n - 4) 4 address)%string.

(** Doubles throughout; [Math.round] takes halves up. *)
Definition calculateAccuracy (correct total : Z) : Q :=
  if total =? 0 then 0%Q
  else
    let ratio := f64 (inject_Z correct / inject_Z total) in
    let scaled := f64 (f64 (ratio * 100) * 100) in
    f64 (inject_Z (Qfloor (scaled + (1 # 2))) / 100).

Section Service.
Context `{Env} `{DecimalJs} `{PgNumeric}.

Definition buildEntry (stat : UserStats) (user : User) (rank : nat) : LeaderboardEntry :=
  let money z := serializeMoney (Some (unitQ z)) in
  mkEntry rank (u_id user) (maskWalletAddress (u_walletAddress user)) (money (us_totalEarnings stat))
    (us_totalPredictions stat) (calculateAccuracy (us_correctPredictions stat) (us_totalPredictions stat))
    (mkModeStats (us_upDownWins stat) (us_upDownLosses stat) (money (us_upDownEarnings stat))
       (calculateAccuracy (us_upDownWins stat) (us_upDownWins stat + us_upDownLosses stat)))
    (mkModeStats (us_legendsWins stat) (us_legendsLosses stat) (money (us_legendsEarnings stat))
       (calculateAccuracy (us_legendsWins stat) (us_legendsWins stat + us_legendsLosses stat))).

(** [include: { user }]: the foreign key gives every row its user. *)
Definition withUser (stat : UserStats) (rank : nat) : Svc LeaderboardEntry :=
  o <- findUnique (Row := User) (us_userId stat) ;;
  user <- orThrow o (PrismaError "P2025") ;;
  ret (buildEntry stat user rank).

Definition entriesFrom (rank : nat) (stats : list UserStats) : Svc (list LeaderboardEntry) :=
  foldM (fun l s => e <- withUser s (rank + length l + 1)%nat ;; ret (l ++ [e])) [] stats.

(** [count({ totalEarnings: { gt } })] *)
Definition earnsMore (z : Z) (s : UserStats) : bool := z <? us_totalEarnings s.
Definition countAbove (z : Z) : Svc nat := gets (fun w => length (rowsWhere (earnsMore z) (w_db w))).

(** What the sorted set in Redis answers; [None] when it is unavailable. *)
Record SortedSet : Type := mkSortedSet {
  zs_range : nat -> nat -> option (list string);
  zs_card : option nat;
  zs_rank : string -> option nat;
}.

Definition getUserPosition (zset : SortedSet) (userId : string) : Svc (option LeaderboardEntry) :=
  o <- findUnique (Row := UserStats) userId ;;
  match o with
  | None => ret None
  | Some userStats =>
      rank <- match zs_rank zset userId with
              | Some zRank => ret (zRank + 1)%nat
              | None => n <- countAbove (us_totalEarnings userStats) ;; ret (n + 1)%nat
              end ;;
      e <- withUser userStats rank ;;
      ret (Some e)
  end.

(** [orderBy: { totalEarnings: "desc" }]: rows with equal earnings in no
    particular order. *)
Definition earnsLess (a b : UserStats) : bool := us_totalEarnings a <? us_totalEarnings b.

(** One lookup of a batch: [Promise.allSettled] turns a failure into a value. *)
Definition getBatchUserPositions (zset : SortedSet) (userIds : list string)
    : Svc (list (string * (string + option LeaderboardEntry))) :=
  foldM (fun l userId =>
           r <- catch (p <- getUserPosition zset userId ;; ret (inr p)) (fun e => ret (inl (err_message e))) ;;
           ret (l ++ [(userId, r)])) [] userIds.

Record LeaderboardPage : Type := mkLeaderboardPage {
  lp_leaderboard : list LeaderboardEntry;
  lp_userPosition : option LeaderboardEntry;
  lp_totalUsers : nat;
  lp_pagination : OffsetMeta;
}.

(** The members of the sorted set that have statistics, each with its place in
    the window. *)
Definition zsetEntries (offset : nat) (members : list string) : Svc (list LeaderboardEntry) :=
  foldM (fun l '(index, id) =>
           o <- findUnique (Row := UserStats) id ;;
           match o with
           | None => ret l
           | Some stat => e <- withUser stat (offset + index + 1)%nat ;; ret (l ++ [e])
           end) [] (imap (fun i id => (i, id)) members).

Definition countStats : Svc nat := gets (fun w => length (rowsWhere (fun _ : UserStats => true) (w_db w))).

(** [cached] is the cached page, which is returned as it is. *)
Definition getLeaderboard (zset : SortedSet) (cached : option LeaderboardPage) (limit offset : nat)
    (userId : option string) : Svc LeaderboardPage :=
  match cached with
  | Some page => ret page
  | None =>
      page <- match zs_range zset offset limit with
              | Some ((_ :: _) as members) =>
                  l <- zsetEntries offset members ;;
                  total <- match zs_card zset with Some n => ret n | None => countStats end ;;
                  ret (l, total)
              | _ =>
                  rows <- findMany (fun _ => true) earnsLess ;;
                  l <- entriesFrom offset (take limit (drop offset rows)) ;;
                  total <- countStats ;;
                  ret (l, total)
              end ;;
      let '(leaderboard, totalUsers) := page in
      position <- match truthy userId with
                  | Some u => getUserPosition zset u
                  | None => ret None
                  end ;;
      ret (mkLeaderboardPage leaderboard position totalUsers (buildOffsetMeta limit offset totalUsers))
  end.

(** ** Cursor pages *)

(** [orderBy: [{ totalEarnings: "desc" }, { userId: "asc" }]] *)
Definition ranksAfter (a b : UserStats) : bool :=
  (us_totalEarnings a <? us_totalEarnings b)
  || (us_totalEarnings a =? us_totalEarnings b) && String.ltb (us_userId b) (us_userId a).

Section CursorPage.
Context `{CursorCodec}.

Definition cursorMembers (stat : UserStats) : list (string * string) :=
  [("totalEarnings"%string, decimalText (us_totalEarnings stat)); ("userId"%string, us_userId stat)].

Definition cursorValue (stat : UserStats) : Json := stringObject (cursorMembers stat).

(** The two members of a decoded cursor. Cursors the service has not written
    stand for an error of the query. *)
Definition cursorFields (v : Json) : option (string * string) :=
  match v with
  | JObj fields =>
      match jsonField "totalEarnings" fields, jsonField "userId" fields with
      | Some (JStr e), Some (JStr u) => Some (e, u)
      | _, _ => None
      end
  | _ => None
  end.

Record CursorPage : Type := mkCursorPage {
  cu_leaderboard : list LeaderboardEntry;
  cu_userPosition : option LeaderboardEntry;
  cu_pagination : CursorMeta;
}.

(** The rows a query fetches, and the count ranks start from. *)
Definition fetchPage (limit : nat) (decoded : option (string * string)) (rows : list UserStats)
    : list UserStats * nat :=
  match decoded with
  | None => (take (limit + 1) rows, 0%nat)
  | Some (earnings, userId) =>
      (take (limit + 1) (behind us_userId userId rows), length (filter (fun r => earnsMore (decimalRead earnings) r = true) rows))
  end.

Definition getLeaderboardCursor (zset : SortedSet) (cached : option CursorPage) (limit : nat)
    (cursor userId : option string) : Svc CursorPage :=
  match cached with
  | Some page => ret page
  | None =>
      decoded <- match usedCursor cursor with
                 | None => ret None
                 | Some v => f <- orThrow (cursorFields v) (PrismaError "") ;; ret (Some f)
                 end ;;
      rows <- findMany (fun _ => true) ranksAfter ;;
      let '(userStats, rankOffset) := fetchPage limit decoded rows in
      let pagination := buildCursorMeta limit userStats cursorValue in
      leaderboard <- entriesFrom rankOffset (trimSentinel userStats limit) ;;
      position <- match truthy userId with
                  | Some u => getUserPosition zset u
                  | None => ret None
                  end ;;
      ret (mkCursorPage leaderboard position pagination)
  end.
End CursorPage.

(** ** Statistics *)

Definition calculatePredictionResult (prediction : Prediction) (round : Round) (endPrice : Z) : bool :=
  match r_mode round with
  | UP_DOWN =>
      let priceWentUp := decGt (unitQ endPrice) (unitQ (r_startPrice round)) in
      match p_side prediction with
      | Some UP => priceWentUp
      | Some DOWN => negb priceWentUp
      | None => false
      end
  | LEGENDS =>
      match p_priceRange prediction with
      | JObj fs =>
          match numField "min" fs, numField "max" fs with
          | Some mn, Some mx =>
              let e := Fin (toNumber (unitQ endPrice)) in num_le mn e && num_le e mx
          | _, _ => false
          end
      | _ => false
      end
  end.

Definition one (b : bool) : Z := if b then 1 else 0.

(** [create] of the upsert. *)
Definition firstStats (userId : string) (mode : GameMode) (isCorrect : bool) (earningsNum : Q) : UserStats :=
  let isUpDown := match mode with UP_DOWN => true | LEGENDS => false end in
  let isLegends := match mode with UP_DOWN => false | LEGENDS => true end in
  mkUserStats userId 1 (one isCorrect) (colSet earningsNum)
    (one (isUpDown && isCorrect)) (one (isUpDown && negb isCorrect)) (if isUpDown then colSet earningsNum else 0)
    (one (isLegends && isCorrect)) (one (isLegends && negb isCorrect)) (if isLegends then colSet earningsNum else 0).

(** [update] of the upsert. *)
Definition moreStats (mode : GameMode) (isCorrect : bool) (earningsNum : Q) (s : UserStats) : UserStats :=
  let isUpDown := match mode with UP_DOWN => true | LEGENDS => false end in
  let isLegends := match mode with UP_DOWN => false | LEGENDS => true end in
  s {{ us_totalPredictions := us_totalPredictions s + 1;
       us_correctPredictions := us_correctPredictions s + one isCorrect;
       us_totalEarnings := colInc (us_totalEarnings s) earningsNum;
       us_upDownWins := us_upDownWins s + one (isUpDown && isCorrect);
       us_upDownLosses := us_upDownLosses s + one (isUpDown && negb isCorrect);
       us_upDownEarnings := if isUpDown then colInc (us_upDownEarnings s) earningsNum
                            else colInc (us_upDownEarnings s) 0;
       us_legendsWins := us_legendsWins s + one (isLegends && isCorrect);
       us_legendsLosses := us_legendsLosses s + one (isLegends && negb isCorrect);
       us_legendsEarnings := if isLegends then colInc (us_legendsEarnings s) earningsNum
                             else colInc (us_legendsEarnings s) 0 }}.

(** What a prediction earns: the stake, won or lost. *)
Definition predictionEarnings (isCorrect : bool) (amount : Z) : Q :=
  let stake := toNumber (unitQ amount) in
  toNumber (toDecimal (if isCorrect then stake else - stake)).

(** The loop body; each user's upsert is a transaction of its own. *)
Definition recordPrediction (round : Round) (endPrice : Z) (p : Prediction) : Svc unit :=
  let isCorrect := calculatePredictionResult p round endPrice in
  let earningsNum := predictionEarnings isCorrect (p_amount p) in
  transaction (
    o <- findUnique (Row := UserStats) (p_userId p) ;;
    match o with
    | None => putRow (p_userId p) (firstStats (p_userId p) (r_mode round) isCorrect earningsNum)
    | Some s => putRow (p_userId p) (moreStats (r_mode round) isCorrect earningsNum s)
    end).

Definition countsForStats (roundId : string) (p : Prediction) : bool :=
  String.eqb (p_roundId p) roundId
  && match p_chainStatus p with PC_CONFIRMED | PC_NOT_REQUIRED => true | _ => false end.

Definition updateUserStatsForRound (roundId : string) : Svc unit :=
  o <- findUnique (Row := Round) roundId ;;
  preds <- findMany (countsForStats roundId) unordered ;;
  match o with
  | None => throw (PlainError "Round not found or not closed")
  | Some round =>
      match r_endPrice round with
      | None => throw (PlainError "Round not found or not closed")
      | Some endPrice => forM_ preds (recordPrediction round endPrice)
      end
  end.
End Service.

(** ** Statistics add up *)

Lemma f64_opp q : (f64 (- q) == - f64 q)%Q.
Proof. unfold f64. apply roundTo_opp. Qed.

Section Accounting.
Context `{Env} `{DecimalJs} `{PgNumeric}.

(** Amounts below ten million XLM are added exactly. *)
Lemma earnings_exact b z : Z.abs z < 10 ^ 15 ->
  (num_to_dec (predictionEarnings b z) == unitQ (if b then z else - z))%Q.
Proof.
  intros Hz. unfold predictionEarnings, toNumber, toDecimal. rewrite !D_toNumber_spec.
  assert (Hs : ((if b then f64 (unitQ z) else - f64 (unitQ z)) == f64 (unitQ (if b then z else - z)))%Q).
  { destruct b; [reflexivity|]. rewrite <- f64_opp. apply f64_proper. unfold unitQ, Qeq; cbn. lia. }
  rewrite Hs. assert (Hz' : Z.abs (if b then z else - z) < 10 ^ 15) by (destruct b; lia).
  rewrite (num_to_dec_unit _ Hz'). apply num_to_dec_unit, Hz'.
Qed.

(** The upsert of one prediction, on the table. *)
Definition recordIn (round : Round) (endPrice : Z) (t : gmap string UserStats) (p : Prediction) : gmap string UserStats :=
  let isCorrect := calculatePredictionResult p round endPrice in
  let earningsNum := predictionEarnings isCorrect (p_amount p) in
  <[p_userId p := match t !! p_userId p with
                  | None => firstStats (p_userId p) (r_mode round) isCorrect earningsNum
                  | Some s => moreStats (r_mode round) isCorrect earningsNum s
                  end]> t.

Definition withStats (t : gmap string UserStats) (w : World) : World :=
  w {{ w_db := set_tbl (Row := UserStats) t (w_db w) }}.

Lemma upsert_run round e p w : w_base w = None ->
  recordPrediction round e p w = (inr tt, withStats (recordIn round e (tbl (w_db w)) p) w).
Proof.
  intros Hb. destruct w as [[? ? ? ? ? ? ? ? []] b ? ? ? ? ? ?]. cbn in Hb. subst b.
  unfold recordPrediction, withStats, recordIn, transaction. cbn.
  match goal with |- context [?t !! p_userId p] => destruct (t !! p_userId p) end; reflexivity.
Qed.

Lemma record_all round e preds : forall w, w_base w = None ->
  forM_ preds (recordPrediction round e) w =
  (inr tt, withStats (foldl (recordIn round e) (tbl (w_db w)) preds) w).
Proof.
  induction preds as [|p preds IH]; intros w Hb; cbn [forM_ foldl].
  - unfold ret, withStats. do 2 f_equal. destruct w as [[? ? ? ? ? ? ? ? []] ? ? ? ? ? ? ?]. reflexivity.
  - rewrite (bind_ok _ _ _ _ _ (upsert_run round e p w Hb)). rewrite IH by (destruct w; exact Hb).
    destruct w as [[? ? ? ? ? ? ? ? []] ? ? ? ? ? ? ?]. reflexivity.
Qed.

(** The counters and the money of a row agree with each other. *)
Definition balanced (s : UserStats) : Prop :=
  us_totalPredictions s = us_upDownWins s + us_upDownLosses s + us_legendsWins s + us_legendsLosses s /\
  us_correctPredictions s = us_upDownWins s + us_legendsWins s /\
  us_totalEarnings s = us_upDownEarnings s + us_legendsEarnings s.

(** Predictions, correct ones and earnings of a user. *)
Definition totals (t : gmap string UserStats) (u : string) : Z * Z * Z :=
  match t !! u with
  | Some s => (us_totalPredictions s, us_correctPredictions s, us_totalEarnings s)
  | None => (0, 0, 0)
  end.

Definition addTotals (a b : Z * Z * Z) : Z * Z * Z :=
  let '(x, y, z) := a in let '(x', y', z') := b in (x + x', y + y', z + z').

(** What one prediction adds for a user. *)
Definition contribution (round : Round) (endPrice : Z) (u : string) (p : Prediction) : Z * Z * Z :=
  if String.eqb (p_userId p) u then
    let c := calculatePredictionResult p round endPrice in (1, one c, if c then p_amount p else - p_amount p)
  else (0, 0, 0).

Definition contributions (round : Round) (endPrice : Z) (u : string) (preds : list Prediction) : Z * Z * Z :=
  foldr (fun p acc => addTotals (contribution round endPrice u p) acc) (0, 0, 0) preds.

Lemma colInc_exact c x z : (num_to_dec x == unitQ z)%Q -> colInc c x = c + z.
Proof. intros Hx. apply colIncDec_unit, Hx. Qed.

Lemma colSet_exact x z : (num_to_dec x == unitQ z)%Q -> colSet x = z.
Proof. intros Hx. apply column_unit, Hx. Qed.

Lemma colInc_zero c : colInc c 0 = c.
Proof. rewrite (colInc_exact c 0 0); [lia|vm_compute; reflexivity]. Qed.

Lemma record_totals round e t p u : Z.abs (p_amount p) < 10 ^ 15 ->
  totals (recordIn round e t p) u = addTotals (totals t u) (contribution round e u p).
Proof.
  intros Hz. unfold totals, recordIn, contribution.
  pose proof (earnings_exact (calculatePredictionResult p round e) (p_amount p) Hz) as Hx.
  destruct (String.eqb_spec (p_userId p) u) as [<-|Hne].
  - rewrite lookup_insert_eq. destruct (t !! p_userId p) as [s|].
    + unfold moreStats. cbn -[colInc predictionEarnings]. by rewrite (colInc_exact _ _ _ Hx).
    + unfold firstStats. cbn -[colSet predictionEarnings]. by rewrite (colSet_exact _ _ Hx).
  - rewrite lookup_insert_ne by done. destruct (t !! u) as [s|]; cbn; [|done]. by rewrite !Z.add_0_r.
Qed.

Lemma record_balanced round e t p : Z.abs (p_amount p) < 10 ^ 15 ->
  map_Forall (fun _ => balanced) t -> map_Forall (fun _ => balanced) (recordIn round e t p).
Proof.
  intros Hz Ht. unfold recordIn. apply map_Forall_insert_2; [|done].
  pose proof (earnings_exact (calculatePredictionResult p round e) (p_amount p) Hz) as Hx.
  set (c := calculatePredictionResult p round e) in *. unfold balanced.
  destruct (t !! p_userId p) as [s|] eqn:Hs.
  - destruct (Ht _ _ Hs) as (B1 & B2 & B3). unfold moreStats.
    destruct (r_mode round), c; cbn -[colInc predictionEarnings]; rewrite ?colInc_zero, !(colInc_exact _ _ _ Hx); lia.
  - unfold firstStats. destruct (r_mode round), c; cbn -[colSet predictionEarnings]; rewrite !(colSet_exact _ _ Hx); lia.
Qed.

Lemma addTotals_assoc a b c : addTotals (addTotals a b) c = addTotals a (addTotals b c).
Proof. destruct a as [[? ?] ?], b as [[? ?] ?], c as [[? ?] ?]. cbn. by rewrite !Z.add_assoc. Qed.

Lemma fold_totals round e preds : Forall (fun p => Z.abs (p_amount p) < 10 ^ 15) preds -> forall t,
  (forall u, totals (foldl (recordIn round e) t preds) u = addTotals (totals t u) (contributions round e u preds)) /\
  (map_Forall (fun _ => balanced) t -> map_Forall (fun _ => balanced) (foldl (recordIn round e) t preds)).
Proof.
  induction 1 as [|p preds Hp _ IH]; intros t; cbn [foldl contributions foldr].
  - split; [|done]. intros u. destruct (totals t u) as [[? ?] ?]. cbn. by rewrite !Z.add_0_r.
  - destruct (IH (recordIn round e t p)) as [IH1 IH2]. split.
    + intros u. rewrite IH1, record_totals by done. apply addTotals_assoc.
    + intros Ht. apply IH2, record_balanced; done.
Qed.

(** The confirmed predictions of a round, as read. *)
Definition statPredictions (roundId : string) (w : World) : list Prediction :=
  sortBy unordered (rowsWhere (countsForStats roundId) (w_db w)).

(** Statistics add up. For a closed round each user's predictions, correct
    predictions and earnings grow by what their confirmed predictions in it
    contribute, one count and the stake won or lost each; rows whose counters
    and earnings agree keep agreeing; and nothing but statistics changes. A
    round that is missing or not closed is reported, and nothing changes. *)
Theorem updateUserStats_spec roundId w :
  w_base w = None ->
  Forall (fun p => Z.abs (p_amount p) < 10 ^ 15) (statPredictions roundId w) ->
  match updateUserStatsForRound roundId w with
  | (inr _, w') => exists round e t', rounds (w_db w) !! roundId = Some round /\ r_endPrice round = Some e /\
      w' = withStats t' w /\
      (forall u, totals t' u = addTotals (totals (userStats (aux (w_db w))) u)
                                 (contributions round e u (statPredictions roundId w))) /\
      (map_Forall (fun _ => balanced) (userStats (aux (w_db w))) -> map_Forall (fun _ => balanced) t')
  | (inl err, w') => err = PlainError "Round not found or not closed" /\ w' = w /\
      (forall round, rounds (w_db w) !! roundId = Some round -> r_endPrice round = None)
  end.
Proof.
  intros Hb HF. unfold updateUserStatsForRound.
  rewrite (bind_ok (findUnique (Row := Round) roundId) _ w _ w eq_refl).
  rewrite (bind_ok (findMany (countsForStats roundId) unordered) _ w (statPredictions roundId w) w eq_refl).
  change (tbl (Row := Round) (w_db w)) with (rounds (w_db w)).
  destruct (rounds (w_db w) !! roundId) as [round|] eqn:Hr; [|by repeat split; intros].
  destruct (r_endPrice round) as [e|] eqn:He; [|by repeat split; [intros ? [= <-]]].
  rewrite (record_all round e _ w Hb). destruct (fold_totals round e _ HF (userStats (aux (w_db w)))) as [Ht1 Ht2].
  exists round, e. eexists. split; [done|]. split; [done|]. split; [reflexivity|]. split; [exact Ht1|exact Ht2].
Qed.
End Accounting.

(** ** Cursors *)

Section Paging.
Context `{CursorCodec}.

Lemma cursorValue_back s : usedCursor (Some (encodeCursor (cursorValue s))) = Some (cursorValue s).
Proof. apply cursor_back. Qed.

Definition decoded (cursor : option string) : option (string * string) :=
  match usedCursor cursor with Some v => cursorFields v | None => None end.

Lemma decoded_cursor s :
  decoded (Some (encodeCursor (cursorValue s))) = Some (decimalText (us_totalEarnings s), us_userId s).
Proof. unfold decoded. by rewrite cursorValue_back. Qed.

Lemma earnsMore_filter_none z rows : Forall (fun r => us_totalEarnings r <= z) rows ->
  filter (fun r => earnsMore z r = true) rows = [].
Proof.
  induction 1 as [|r rows Hr _ IH]; [done|]. rewrite filter_cons_False; [done|].
  unfold earnsMore. intros Hlt%Z.ltb_lt. lia.
Qed.

Lemma earnsMore_filter_all z rows : Forall (fun r => z < us_totalEarnings r) rows ->
  filter (fun r => earnsMore z r = true) rows = rows.
Proof.
  induction 1 as [|r rows Hr _ IH]; [done|]. rewrite filter_cons_True; [by rewrite IH|].
  unfold earnsMore. by apply Z.ltb_lt.
Qed.

Definition earnsAtLeast (a b : UserStats) : Prop := us_totalEarnings b <= us_totalEarnings a.

Lemma ranked_sorted rows : StronglySorted earnsAtLeast (sortBy ranksAfter rows).
Proof.
  apply Sorted_StronglySorted; [intros a b c; unfold earnsAtLeast; lia|].
  assert (Hs : Sorted (fun a b => ranksAfter a b = false) (sortBy ranksAfter rows)).
  { apply sortBy_Sorted. intros a b. unfold ranksAfter.
    destruct (Z.ltb_spec (us_totalEarnings a) (us_totalEarnings b)), (Z.eqb_spec (us_totalEarnings a) (us_totalEarnings b)),
      (Z.ltb_spec (us_totalEarnings b) (us_totalEarnings a)), (Z.eqb_spec (us_totalEarnings b) (us_totalEarnings a));
      cbn; try done; try lia. unfold String.ltb. rewrite (String.compare_antisym (us_userId a)).
    by destruct (String.compare (us_userId b) (us_userId a)). }
  induction Hs as [|x s Hs IH Hd]; constructor; [exact IH|].
  inversion Hd as [|y s' Hxy]; constructor. unfold earnsAtLeast, ranksAfter in *.
  apply orb_false_elim in Hxy as [Hxy _]. apply Z.ltb_ge in Hxy. lia.
Qed.

(** C38. Following the cursors reads every user exactly once, in ranking order, in
    at most as many pages as there are users, and ends; but the ranks shown
    lag. The first row behind the cursor row at position [i] is given a rank of
    at most [i + 1], which the cursor row itself already had: exactly that when
    all earnings differ. *)
Theorem cursor_pages stats limit :
  (1 <= limit)%nat -> NoDup (map us_userId stats) ->
  let rows := sortBy ranksAfter stats in
  readAll cursorMembers (S (length rows)) limit (fun c => fst (fetchPage limit (decoded c) rows)) None = Some rows /\
  (forall i c, rows !! i = Some c ->
     let page := fetchPage limit (decoded (Some (encodeCursor (cursorValue c)))) rows in
     fst page = take (limit + 1) (drop (S i) rows) /\ (snd page + 1 <= i + 1)%nat /\
     (NoDup (map us_totalEarnings stats) -> (snd page + 1 = i + 1)%nat)).
Proof.
  intros Hl Hnd rows.
  assert (Hnd' : NoDup (map us_userId rows)) by (unfold rows; by rewrite sortBy_Permutation).
  split.
  - apply readAll_all; [done| |done]. intros i r Hi. change (stringObject (cursorMembers r)) with (cursorValue r).
    rewrite decoded_cursor. cbn [fetchPage fst]. by rewrite (behind_drop us_userId rows i r Hnd' Hi).
  - intros i c Hi page. unfold page. rewrite decoded_cursor. cbn [fetchPage fst snd]. rewrite decimal_back.
    rewrite (behind_drop us_userId rows i c Hnd' Hi). split; [done|].
    pose proof (ranked_sorted stats) as Hs. fold rows in Hs.
    assert (Hlook : forall j k x y, (j < k)%nat -> rows !! j = Some x -> rows !! k = Some y -> earnsAtLeast x y)
      by (intros j k x y; exact (StronglySorted_lookup earnsAtLeast rows j k x y Hs)).
    assert (Hsplit : filter (fun r => earnsMore (us_totalEarnings c) r = true) rows =
                     filter (fun r => earnsMore (us_totalEarnings c) r = true) (take i rows)).
    { rewrite <- (take_drop i rows) at 1. rewrite filter_app.
      rewrite (earnsMore_filter_none _ (drop i rows)); [by rewrite app_nil_r|].
      apply Forall_lookup. intros j r Hj. rewrite lookup_drop in Hj.
      destruct j as [|j]; [rewrite Nat.add_0_r in Hj; simplify_eq; lia|].
      assert (Hij : (i < i + S j)%nat) by lia. exact (Hlook i (i + S j)%nat c r Hij Hi Hj). }
    rewrite Hsplit. pose proof (length_filter (fun r => earnsMore (us_totalEarnings c) r = true) (take i rows)) as Hf.
    apply lookup_lt_Some in Hi as Hlt. rewrite length_take in Hf. split; [lia|]. intros Hdist.
    assert (Hdist' : NoDup (map us_totalEarnings rows)) by (unfold rows; by rewrite sortBy_Permutation).
    rewrite earnsMore_filter_all; [rewrite length_take; lia|]. apply Forall_lookup. intros j r Hj.
    apply lookup_take_Some in Hj as [Hj Hji]. pose proof (Hlook j i r c Hji Hj Hi) as Hge.
    unfold earnsAtLeast in Hge. enough (us_totalEarnings c <> us_totalEarnings r) by lia. intros Heq.
    enough (j = i) by lia. apply (NoDup_lookup _ j i (us_totalEarnings c) Hdist'); rewrite list_lookup_fmap;
      [rewrite Hj; cbn; by rewrite Heq|by rewrite Hi].
Qed.
End Paging.
