(* ===== verification/TextSamples.v ===== *)
(** * Concrete text

    Executable instances of the text interfaces: numerals, the JSON of objects
    of strings read back by a small parser, and identity in place of base64. They
    are not declared as instances: only the witnesses use them. *)

From Stdlib Require Import ZArith QArith Lia Ascii.
From stdpp Require Import base strings list pretty.
From S2P Require Import Prelude.
From S2P Require Import Numeric.
From S2P Require Import Schema.
From S2P Require Import JsonText.
From S2P Require Import Challenge.
From S2P Require Import Pagination.
From S2P Require Import Leaderboard.

#[local] Open Scope string_scope.

(** ** Numerals *)

Definition digitValue (a : ascii) : N := (N.of_nat (nat_of_ascii a) - 48)%N.

Fixpoint readDigits (acc : N) (s : string) : option N :=
  match s with
  | "" => Some acc
  | String a s' => if isDigit a then readDigits (10 * acc + digitValue a) s' else None
  end.

Lemma digit_char (d : N) : (d < 10)%N -> isDigit (pretty_N_char d) = true /\ digitValue (pretty_N_char d) = d.
Proof.
  intros Hd. assert (Hc : In d [0; 1; 2; 3; 4; 5; 6; 7; 8; 9]%N).
  { cbn. lia. }
  cbn in Hc. repeat destruct Hc as [<-|Hc]; done.
Qed.

Lemma readDigits_go (x : N) : forall s, readDigits 0 (pretty_N_go x s) = readDigits x s.
Proof.
  induction (N.lt_wf_0 x) as [x _ IH]. intros s. destruct (N.eq_dec x 0%N) as [->|Hx]; [by rewrite pretty_N_go_0|].
  rewrite pretty_N_go_step by lia. rewrite IH by (apply N.div_lt; lia).
  assert (Hm : (x `mod` 10 < 10)%N) by (apply N.mod_lt; lia). destruct (digit_char _ Hm) as [H1 H2].
  cbn [readDigits]. rewrite H1, H2. f_equal. pose proof (N.div_mod x 10%N). lia.
Qed.

Lemma readDigits_pretty (n : N) : readDigits 0 (pretty n) = Some n.
Proof.
  unfold pretty, pretty_N. destruct (decide (n = 0%N)) as [->|Hn]; [done|]. by rewrite readDigits_go.
Qed.

Definition sampleDates : JsDates.
Proof.
  refine {| hostname s := Some s; isoDate z := pretty z;
            numberOf s := match readDigits 0 s with Some n => Fin (inject_Z (Z.of_N n)) | None => NaN end;
            parseDate s := NaN |}.
  intros n. by rewrite readDigits_pretty.
Defined.

Definition sampleText : JsonText := {| numberText q := pretty (Qnum q); dateText ms := pretty ms |}.

(** ** JSON of objects of strings *)

Definition hexValue (a : ascii) : nat :=
  let n := nat_of_ascii a in if (n <? 58)%nat then n - 48 else n - 87.

Definition unescape (c : ascii) : ascii :=
  match nat_of_ascii c with
  | 98 => ascii_of_nat 8 | 116 => ascii_of_nat 9 | 110 => ascii_of_nat 10
  | 102 => ascii_of_nat 12 | 114 => ascii_of_nat 13 | _ => c
  end.

(** The rest of a string literal, and what follows it. *)
Fixpoint readString (s : string) : option (string * string) :=
  let cons a r := match r with Some (t, rest) => Some (String a t, rest) | None => None end in
  match s with
  | "" => None
  | String a s' =>
      if Ascii.eqb a dquote then Some ("", s')
      else if Ascii.eqb a (ascii_of_nat 92) then
        match s' with
        | "" => None
        | String c s'' =>
            if Ascii.eqb c "u"%char then
              match s'' with
              | String _ (String _ (String h (String l rest))) =>
                  cons (ascii_of_nat (16 * hexValue h + hexValue l)) (readString rest)
              | _ => None
              end
            else cons (unescape c) (readString s'')
        end
      else cons a (readString s')
  end.

Lemma readString_char a tail :
  readString (escapeChar a +:+ tail) =
  match readString tail with Some (t, rest) => Some (String a t, rest) | None => None end.
Proof. destruct a as [[] [] [] [] [] [] [] []]; reflexivity. Qed.

Lemma string_app_assoc (a b c : string) : (a +:+ b) +:+ c = a +:+ (b +:+ c).
Proof. induction a as [|x a IH]; [done|]. change (String x ((a +:+ b) +:+ c) = String x (a +:+ (b +:+ c))). by rewrite IH. Qed.

Lemma string_app_cons a s t : String a s +:+ t = String a (s +:+ t).
Proof. reflexivity. Qed.

Lemma string_app_nil t : "" +:+ t = t.
Proof. reflexivity. Qed.

Lemma readString_escape s rest : readString (escape s +:+ String dquote rest) = Some (s, rest).
Proof.
  induction s as [|a s IH]; [done|]. cbn [escape]. rewrite string_app_assoc, readString_char. by rewrite IH.
Qed.

Definition cons {A} (x : A) (r : option (list A)) : option (list A) := option_map (cons x) r.

Fixpoint readMembers (fuel : nat) (s : string) : option (list (string * string)) :=
  match fuel, s with
  | S fuel', String _ s1 =>
      match readString s1 with
      | Some (k, String _ (String _ s2)) =>
          match readString s2 with
          | Some (v, String c rest) =>
              if Ascii.eqb c ","%char then cons (k, v) (readMembers fuel' rest) else Some [(k, v)]
          | _ => None
          end
      | _ => None
      end
  | _, _ => None
  end.

Definition asObject (fields : list (string * string)) : Json := JObj (map (fun kv => (fst kv, JStr (snd kv))) fields).

Definition parseStrings (s : string) : option Json :=
  if String.eqb s "{}" then Some (JObj [])
  else match s with String _ rest => option_map asObject (readMembers (String.length s) rest) | "" => None end.

Section Parse.
#[local] Existing Instance sampleText.

Definition memberText (kv : string * string) : string := quoted (fst kv) +:+ ":" +:+ quoted (snd kv).

Lemma readMembers_one fuel kv c rest :
  readMembers (S fuel) (memberText kv +:+ String c rest) =
  if Ascii.eqb c ","%char then cons kv (readMembers fuel rest) else Some [kv].
Proof.
  destruct kv as [k v]. unfold memberText, quoted. cbn [fst snd].
  assert (E : ((String dquote (escape k) +:+ String dquote "") +:+ ":" +:+ (String dquote (escape v) +:+ String dquote "")) +:+ String c rest
    = String dquote (escape k +:+ String dquote (String ":"%char (String dquote (escape v +:+ String dquote (String c rest)))))).
  { by repeat rewrite ?string_app_cons, ?string_app_assoc, ?string_app_nil. }
  rewrite E. cbn [readMembers]. rewrite readString_escape. cbn [Ascii.eqb]. rewrite readString_escape. reflexivity.
Qed.

Lemma readMembers_all fields : fields <> [] -> forall fuel, (length fields <= fuel)%nat ->
  readMembers fuel (String.concat "," (map memberText fields) +:+ "}") = Some fields.
Proof.
  induction fields as [|kv fields IH]; [done|]. intros _ fuel Hf. cbn [length] in Hf.
  destruct fuel as [|fuel]; [lia|]. destruct fields as [|kv' fields].
  - cbn [map String.concat]. by rewrite readMembers_one.
  - change (String.concat "," (map memberText (kv :: kv' :: fields))) with
      (memberText kv +:+ "," +:+ String.concat "," (map memberText (kv' :: fields))).
    rewrite !string_app_assoc.
    change ("," +:+ ?x) with (String ","%char x). rewrite readMembers_one. cbn [Ascii.eqb].
    rewrite IH; [done|done|lia].
Qed.

Lemma asObject_text fields :
  jsonStringify (asObject fields) = "{" +:+ String.concat "," (map memberText fields) +:+ "}".
Proof.
  unfold asObject. cbn [jsonStringify]. do 3 f_equal. rewrite map_map. reflexivity.
Qed.

Lemma concat_length fields : fields <> [] -> (length fields <= String.length (String.concat "," (map memberText fields)))%nat.
Proof.
  assert (Happ : forall a b, String.length (a +:+ b) = (String.length a + String.length b)%nat).
  { induction a as [|x a IH]; intros b; [done|]. change (S (String.length (a +:+ b)) = S (String.length a + String.length b)). by rewrite IH. }
  assert (Hpos : forall kv, (1 <= String.length (memberText kv))%nat)
    by (intros kv; unfold memberText; rewrite !Happ; change (String.length ":") with 1%nat; lia).
  induction fields as [|kv fields IH]; [done|]. intros _. destruct fields as [|kv' fields]; [cbn [map String.concat length]; apply Hpos|].
  change (String.concat "," (map memberText (kv :: kv' :: fields))) with
    (memberText kv +:+ "," +:+ String.concat "," (map memberText (kv' :: fields))).
  rewrite !Happ. specialize (IH ltac:(discriminate)). pose proof (Hpos kv). cbn [length] in *. lia.
Qed.

Lemma parse_stringify fields : parseStrings (jsonStringify (asObject fields)) = Some (asObject fields).
Proof.
  rewrite asObject_text. unfold parseStrings. destruct fields as [|kv fields]; [done|].
  set (body := String.concat "," (map memberText (kv :: fields)) +:+ "}").
  change ("{" +:+ body) with (String "{"%char body).
  destruct (String.eqb_spec (String "{"%char body) "{}") as [E|_].
  - injection E as E. exfalso. revert E. unfold body. destruct fields; discriminate.
  - unfold body. rewrite readMembers_all; [done|done|].
    pose proof (concat_length (kv :: fields) ltac:(discriminate)) as Hl.
    assert (Happ : forall a b, (String.length a <= String.length (a +:+ b))%nat).
    { induction a as [|x a IH]; intros b; [cbn; lia|]. change (S (String.length a) <= S (String.length (a +:+ b)))%nat. specialize (IH b). lia. }
    specialize (Happ (String.concat "," (map memberText (kv :: fields))) "}").
    change (String.length (String "{"%char ?x)) with (S (String.length x)). lia.
Qed.
End Parse.

(** Money as text: a sign and a numeral. *)
Definition decimalTextOf (z : Z) : string :=
  if (z <? 0)%Z then "-" +:+ pretty (Z.to_N (- z)) else pretty (Z.to_N z).

Definition decimalReadOf (s : string) : Z :=
  match s with
  | String "-"%char s' => (- Z.of_N (default 0%N (readDigits 0 s')))%Z
  | _ => Z.of_N (default 0%N (readDigits 0 s))
  end.

Lemma decimal_text_back z : decimalReadOf (decimalTextOf z) = z.
Proof.
  unfold decimalTextOf. destruct (Z.ltb_spec z 0).
  - change (decimalReadOf ("-" +:+ ?x)) with (- Z.of_N (default 0%N (readDigits 0 x)))%Z.
    rewrite readDigits_pretty. cbn. lia.
  - pose proof (pretty_digits (Z.to_N z)) as Hd. unfold decimalReadOf.
    destruct (pretty (Z.to_N z)) as [|a s] eqn:E; cbn in Hd.
    + pose proof (readDigits_pretty (Z.to_N z)) as Hr. rewrite E in Hr. injection Hr as Hr. cbn. lia.
    + destruct (decide (a = "-"%char)) as [->|Hne]; [done|].
      assert (Hs : Z.of_N (default 0%N (readDigits 0 (String a s))) = z).
      { rewrite <- E, readDigits_pretty. cbn. lia. }
      destruct a as [[] [] [] [] [] [] [] []]; try exact Hs. done.
Qed.

Definition sampleCodec : @CursorCodec sampleText.
Proof.
  refine (@Build_CursorCodec sampleText (fun s => s) (fun s => s) parseStrings decimalTextOf decimalReadOf _ _ _ _).
  - reflexivity.
  - exact parse_stringify.
  - exact decimal_text_back.
  - auto.
Defined.
