(* ===== verification/Resolution.v ===== *)
(** * Settlement (src/src/services/resolution.service.ts)

    [resolveRound] settles a LOCKED round: freshness guard, snapshot, then one
    transaction that pays predictions by game mode and moves the round to
    RESOLVED through the lifecycle engine. The bet rows are resolved by
    [betService.resolveBet], which opens a transaction of its own on the global
    client. Cache invalidation and the educational tip, which run after the
    commit and whose failures are swallowed, are not modelled. *)

From Stdlib Require Import ZArith QArith Qabs Qround Lqa Lia.
From stdpp Require Import base gmap strings list pretty.
From S2P Require Import Prelude.
From S2P Require Import Rounding.
From S2P Require Import Numeric.
From S2P Require Import Doubles.
From S2P Require Import Payout.
From S2P Require Import Errors.
From S2P Require Import Resilience.
From S2P Require Import Schema.
From S2P Require Import Store.
From S2P Require Import Soroban.
From S2P Require Import PriceRange.
From S2P Require Import RoundLifecycle.
From S2P Require Import RoundService.
From S2P Require Import Prediction.
From S2P Require Import Bet.

#[local] Open Scope Z_scope.

(** [range && Number.isFinite(min) && Number.isFinite(max) && min < max] *)
Definition isValidRange (r : RoundPriceRange) : bool :=
  isFinite (rp_min r) && isFinite (rp_max r) && num_lt (rp_min r) (rp_max r).

Definition rangeMinGreater (a b : RoundPriceRange) : bool :=
  num_lt (Fin 0) (num_sub (rp_min a) (rp_min b)).

(** Value of a finite number; ranges are validated before it is used. *)
Definition numQ (n : num) : Q := match n with Fin q => q | _ => 0 end.

Section Ranges.
Context `{DecimalJs}.

(** The callback of [sortedRanges.find]. *)
Definition inRange (finalPrice : Q) (n : nat) (index : nat) (r : RoundPriceRange) : bool :=
  let isLast := (index =? n - 1)%nat in
  let mn := toDecimal (numQ (rp_min r)) in
  let mx := toDecimal (numQ (rp_max r)) in
  if isLast then decGte finalPrice mn && decLte finalPrice mx
  else decGte finalPrice mn && decLt finalPrice mx.

Definition findWinningRange (finalPrice : Q) (sortedRanges : list RoundPriceRange)
    : option RoundPriceRange :=
  findIndexed (inRange finalPrice (length sortedRanges)) 0 sortedRanges.

(** [sortedRanges.reduce((sum, range) => decAdd(sum, range.pool), 0)] *)
Definition totalPool (ranges : list RoundPriceRange) : Q :=
  foldl (fun sum r => decAdd sum (toDecimal (numQ (rp_pool r)))) 0%Q ranges.
End Ranges.

Inductive ResolveResult : Type :=
| ResNoOp
| ResAlreadyResolved (round : Round)
| ResUpdated (round : Round).

Section Service.
Context `{Env} `{DecimalJs} `{PgNumeric} (requestId : option string).

Definition assertOraclePriceFresh : Svc unit :=
  if negb env_oracleRunning then ret tt
  else if env_oracleStale then
    throw (ExternalServiceError "Cannot resolve round: oracle price data is stale"
             EXTERNAL_SERVICE_ERROR)
  else ret tt.

Definition settleable (roundId : string) (p : Prediction) : bool :=
  String.eqb (p_roundId p) roundId
  && bool_decide (p_chainStatus p = PC_CONFIRMED \/ p_chainStatus p = PC_NOT_REQUIRED).

(** [betService.resolveBet] on the user's CONFIRMED bet for the round. *)
Definition resolveUserBet (userId roundId : string) (won : bool) (payout : Q) : Svc unit :=
  bet <- findFirst (fun b : Bet => String.eqb (b_userId b) userId
                                   && bool_decide (b_roundId b = Some roundId)
                                   && bool_decide (b_status b = BET_CONFIRMED)) unordered ;;
  match bet with
  | Some b => resolveBet (b_id b) won payout requestId ;;; ret tt
  | None => ret tt
  end.

Definition setOutcome (won : option bool) (payout : Q) (p : Prediction) : Prediction :=
  p {{ p_won := won; p_payout := Some (colSet payout) }}.

Definition credit (amount : Q) (u : User) : User :=
  u {{ u_virtualBalance := colInc (u_virtualBalance u) amount }}.

Definition creditResult (won : bool) (payout : Q) (u : User) : User :=
  u {{ u_virtualBalance := colInc (u_virtualBalance u) payout;
       u_wins := u_wins u + (if won then 1 else 0);
       u_streak := if won then u_streak u + 1 else 0 }}.

(** The refund loop of both modes. *)
Definition refundPrediction (roundId : string) (prediction : Prediction) : Svc unit :=
  let refundAmount := toNumber (unitQ (p_amount prediction)) in
  update (p_id prediction) (setOutcome None refundAmount) ;;;
  update (p_userId prediction) (credit refundAmount) ;;;
  resolveUserBet (p_userId prediction) roundId false refundAmount.

Definition winMessage (roundId : string) (won : bool) (payout : Q) : string :=
  if won then "Your prediction was correct! You won " +:+ decFixed payout 2 +:+ " XLM in Round #"
              +:+ slicePrefix 6 roundId +:+ "."
  else "Your prediction in Round #" +:+ slicePrefix 6 roundId +:+ " did not win. Keep trying!".

Definition winTitle (won : bool) : string := if won then "You Won!" else "Prediction Did Not Win".

(** The payloads of the two outbox events of a settled prediction; [amount] is
    absent when nobody had bet on the winning range. *)
Definition resultFields (roundId : string) (won : bool) (message : string) (amount : option Q)
    : list (string * Json) :=
  [("type"%string, JStr (if won then "WIN" else "LOSS")); ("title"%string, JStr (winTitle won));
   ("message"%string, JStr message);
   ("data"%string, JObj (("roundId"%string, JStr roundId)
                 :: match amount with Some a => [("amount"%string, JNum (Fin a))] | None => [] end))].

Definition resultNotification (roundId userId : string) (won : bool) (message : string) (amount : option Q) : Json :=
  JObj (("userId"%string, JStr userId) :: resultFields roundId won message amount).

Definition resultEmission (roundId userId : string) (won : bool) (message : string) (amount : option Q) : Json :=
  JObj [("eventName"%string, JStr "notification:new"); ("room"%string, JStr ("user:" +:+ userId));
        ("userId"%string, JStr userId);
        ("data"%string, JObj (resultFields roundId won message amount ++ [("isRead"%string, JBool false)]))].

Definition announceResult (roundId userId : string) (won : bool) (message : string)
    (amount : option Q) : Svc unit :=
  createOutboxEvent EV_NOTIFICATION_CREATE roundId "round" (resultNotification roundId userId won message amount) ;;;
  createOutboxEvent EV_WEBSOCKET_EMIT roundId "round" (resultEmission roundId userId won message amount) ;;;
  ret tt.

(** The payout loop body of both modes. *)
Definition settlePrediction (roundId : string) (won : bool) (payout : Q) (prediction : Prediction)
    : Svc unit :=
  update (p_id prediction) (setOutcome (Some won) (toNumber payout)) ;;;
  update (p_userId prediction) (creditResult won (toNumber payout)) ;;;
  resolveUserBet (p_userId prediction) roundId won (toNumber payout) ;;;
  announceResult roundId (p_userId prediction) won (winMessage roundId won payout)
    (Some (toNumber payout)).

Definition winningSide (finalPrice startPrice : Q) : option PredictionSide :=
  if decGt finalPrice startPrice then Some UP
  else if decLt finalPrice startPrice then Some DOWN else None.

Definition upDownPayout (side : PredictionSide) (winningPool losingPool : Q) (p : Prediction)
    : bool * Q :=
  let won := bool_decide (p_side p = Some side) in
  (won, if won then calculatePayout (unitQ (p_amount p)) winningPool losingPool else 0%Q).

Definition resolveUpDownRound (round : Round) (preds : list Prediction) (finalPrice : Q) : Svc unit :=
  t <- now ;;
  catch (sorobanResolveRound finalPrice 0 (t / 1000)) applyMoneyPathFailure ;;;
  match winningSide finalPrice (unitQ (r_startPrice round)) with
  | None => forM_ preds (refundPrediction (r_id round))
  | Some side =>
      let winningPool := unitQ (match side with UP => r_poolUp round | DOWN => r_poolDown round end) in
      let losingPool := unitQ (match side with UP => r_poolDown round | DOWN => r_poolUp round end) in
      if decEq winningPool 0 then ret tt
      else forM_ preds (fun p =>
             let '(won, payout) := upDownPayout side winningPool losingPool p in
             settlePrediction (r_id round) won payout p)
  end.

(** LEGENDS, nobody on the winning range: everybody loses. *)
Definition losePrediction (roundId : string) (prediction : Prediction) : Svc unit :=
  update (p_id prediction) (setOutcome (Some false) 0) ;;;
  update (p_userId prediction) (fun u : User => u {{ u_streak := 0 }}) ;;;
  resolveUserBet (p_userId prediction) roundId false 0 ;;;
  announceResult roundId (p_userId prediction) false (winMessage roundId false 0) None.

Definition legendsWon (range : RoundPriceRange) (pr : UserPriceRange) : bool :=
  Qeq_bool (toDecimal (numQ (ur_min pr))) (toDecimal (numQ (rp_min range)))
  && Qeq_bool (toDecimal (numQ (ur_max pr))) (toDecimal (numQ (rp_max range))).

(** A row whose range does not validate is skipped. *)
Definition settleLegends (roundId : string) (range : RoundPriceRange) (winningPool losingPool : Q)
    (p : Prediction) : Svc unit :=
  match validateUserPriceRange (p_priceRange p) with
  | None => ret tt
  | Some pr =>
      let won := legendsWon range pr in
      let payout := if won then calculatePayout (unitQ (p_amount p)) winningPool losingPool else 0%Q in
      settlePrediction roundId won payout p
  end.

Definition resolveLegendsRound (round : Round) (preds : list Prediction) (finalPrice : Q) : Svc unit :=
  priceRanges <- liftE (parseRoundPriceRanges (r_priceRanges round)) ;;
  if (length priceRanges =? 0)%nat then
    throw (ValidationError "LEGENDS round has no configured price ranges")
  else if existsb (fun r => negb (isValidRange r)) priceRanges then
    throw (ValidationError "LEGENDS round has invalid price range data")
  else
    let sortedRanges := sortBy rangeMinGreater priceRanges in
    match findWinningRange finalPrice sortedRanges with
    | None => forM_ preds (refundPrediction (r_id round))
    | Some winningRange =>
        let decWinningPool := toDecimal (numQ (rp_pool winningRange)) in
        let decLosingPool := D_sub (totalPool sortedRanges) decWinningPool in
        if decEq decWinningPool 0 then forM_ preds (losePrediction (r_id round))
        else forM_ preds (settleLegends (r_id round) winningRange decWinningPool decLosingPool)
    end.

(** Lines 135-206: the settlement transaction. *)
Definition settleBody (roundId : string) (finalPriceDec : Q) : Svc ResolveResult :=
  o <- findUnique (Row := Round) roundId ;;
  match o with
  | None => ret ResNoOp
  | Some txRound =>
      preds <- findMany (settleable roundId) unordered ;;
      match r_status txRound with
      | RESOLVED => ret (ResAlreadyResolved txRound)
      | LOCKED =>
          match r_mode txRound with
          | UP_DOWN => resolveUpDownRound txRound preds finalPriceDec
          | LEGENDS => resolveLegendsRound txRound preds finalPriceDec
          end ;;;
          resolvedAt <- now ;;
          updatedRound <- transitionRound roundId RESOLVED
            (mkTransitionData (Some (toNumber finalPriceDec)) (Some resolvedAt)) false ;;
          ret (ResUpdated updatedRound)
      | _ => ret ResNoOp
      end
  end.

Definition resolveRound (roundId : string) (finalPrice : NumberLike) : Svc ResolveResult :=
  assertOraclePriceFresh ;;;
  o <- findUnique (Row := Round) roundId ;;
  match o with
  | None => ret ResNoOp
  | Some round =>
      match r_status round with
      | RESOLVED => ret (ResAlreadyResolved round)
      | LOCKED =>
          result <- transaction (settleBody roundId (toDecimal_any finalPrice)) ;;
          match result with
          | ResUpdated r => emitRoundResolved roundId
          | _ => ret tt
          end ;;;
          ret result
      | _ => ret ResNoOp
      end
  end.
End Service.

(** ** Abstract specification of a settlement

    What a settlement owes: for each prediction in turn, a change to its row
    and a change to its user. Nothing here knows about transactions, the chain,
    bets or events. *)

Record Payment : Type := mkPayment {
  pay_pred : Prediction;
  pay_row : Prediction -> Prediction;
  pay_user : User -> User;
}.

Definition payTables (us : gmap string User) (ps : gmap string Prediction) (l : list Payment)
    : gmap string User * gmap string Prediction :=
  foldl (fun '(us, ps) x => (alter (pay_user x) (p_userId (pay_pred x)) us,
                             alter (pay_row x) (p_id (pay_pred x)) ps)) (us, ps) l.

Section Spec.
Context `{DecimalJs} `{PgNumeric}.

Definition refundOf (p : Prediction) : Payment :=
  let amount := toNumber (unitQ (p_amount p)) in mkPayment p (setOutcome None amount) (credit amount).

Definition resultOf (p : Prediction) (won : bool) (payout : Q) : Payment :=
  mkPayment p (setOutcome (Some won) (toNumber payout)) (creditResult won (toNumber payout)).

Definition upDownPayments (round : Round) (preds : list Prediction) (finalPrice : Q) : list Payment :=
  match winningSide finalPrice (unitQ (r_startPrice round)) with
  | None => map refundOf preds
  | Some side =>
      let winningPool := unitQ (match side with UP => r_poolUp round | DOWN => r_poolDown round end) in
      let losingPool := unitQ (match side with UP => r_poolDown round | DOWN => r_poolUp round end) in
      if decEq winningPool 0 then []
      else map (fun p => let '(won, payout) := upDownPayout side winningPool losingPool p in
                         resultOf p won payout) preds
  end.

Definition lossOf (p : Prediction) : Payment :=
  mkPayment p (setOutcome (Some false) 0) (fun u => u {{ u_streak := 0 }}).

Definition legendsResultOf (range : RoundPriceRange) (winningPool losingPool : Q) (p : Prediction)
    : list Payment :=
  match validateUserPriceRange (p_priceRange p) with
  | None => []
  | Some pr =>
      let won := legendsWon range pr in
      [resultOf p won (if won then calculatePayout (unitQ (p_amount p)) winningPool losingPool else 0%Q)]
  end.

Definition legendsPayments (ranges : list RoundPriceRange) (preds : list Prediction) (finalPrice : Q)
    : list Payment :=
  let sortedRanges := sortBy rangeMinGreater ranges in
  match findWinningRange finalPrice sortedRanges with
  | None => map refundOf preds
  | Some winningRange =>
      let winningPool := toDecimal (numQ (rp_pool winningRange)) in
      let losingPool := D_sub (totalPool sortedRanges) winningPool in
      if decEq winningPool 0 then map lossOf preds
      else flat_map (legendsResultOf winningRange winningPool losingPool) preds
  end.

Definition payments (round : Round) (preds : list Prediction) (finalPrice : Q) : list Payment :=
  match r_mode round with
  | UP_DOWN => upDownPayments round preds finalPrice
  | LEGENDS => match parseRoundPriceRanges (r_priceRanges round) with
               | inr ranges => legendsPayments ranges preds finalPrice
               | inl _ => []
               end
  end.
End Spec.

(** ** The service implements it *)

Section Refinement.
Context `{Env} `{DecimalJs} `{PgNumeric} (requestId : option string).

Definition owes (l : list Payment) (w w' : World) : Prop :=
  (users (w_db w'), predictions (w_db w')) = payTables (users (w_db w)) (predictions (w_db w)) l.

Lemma owes_nil w w' : users (w_db w') = users (w_db w) -> predictions (w_db w') = predictions (w_db w) ->
  owes [] w w'.
Proof. intros E1 E2. unfold owes. cbn. congruence. Qed.

Lemma payTables_app us ps l1 l2 :
  payTables us ps (l1 ++ l2) = let '(us1, ps1) := payTables us ps l1 in payTables us1 ps1 l2.
Proof. unfold payTables. rewrite foldl_app. destruct (foldl _ _ l1). reflexivity. Qed.

Lemma owes_app l1 l2 w1 w2 w3 : owes l1 w1 w2 -> owes l2 w2 w3 -> owes (l1 ++ l2) w1 w3.
Proof. unfold owes. intros E1 E2. rewrite payTables_app, <- E1. exact E2. Qed.

Lemma update_alter {A} (t : gmap string A) k f r : t !! k = Some r -> <[k := f r]> t = alter f k t.
Proof.
  intros Hk. apply map_eq. intros i. destruct (decide (k = i)) as [->|Hn].
  - rewrite lookup_insert_eq, lookup_alter_eq, Hk. reflexivity.
  - rewrite lookup_insert_ne, lookup_alter_ne by exact Hn. reflexivity.
Qed.

(** Row, user, then something that touches neither table. *)
Lemma pay_one x (rest : Svc unit) w w' :
  respects (agree users) rest -> respects (agree predictions) rest ->
  (update (p_id (pay_pred x)) (pay_row x) ;;;
   update (p_userId (pay_pred x)) (pay_user x) ;;; rest) w = (inr tt, w') ->
  owes [x] w w'.
Proof.
  intros Hu Hp Hr. apply bind_inr_inv in Hr as (p1 & w1 & E1 & Hr).
  apply bind_inr_inv in Hr as (u1 & w2 & E2 & Hr).
  apply update_inv in E1 as (p0 & P0 & _ & ->). apply update_inv in E2 as (u0 & U0 & _ & ->).
  set (w1 := final (putRow _ (pay_row x p0)) w) in *. set (w2 := final (putRow _ (pay_user x u0)) w1) in *.
  destruct (Hu w2) as [Fu _], (Hp w2) as [Fp _]. unfold final in Fu, Fp. rewrite Hr in Fu, Fp.
  cbn [snd] in Fu, Fp. unfold owes, payTables. cbn [foldl].
  rewrite <- (update_alter _ _ _ _ P0).
  assert (Hu1 : users (w_db w1) = users (w_db w))
    by (unfold w1; destruct w as [[] ? ? ? ? ? ? ?]; reflexivity).
  change (users (w_db w1) !! p_userId (pay_pred x) = Some u0) in U0. rewrite Hu1 in U0. rewrite <- (update_alter _ _ _ _ U0).
  assert (Hu2 : users (w_db w2) = <[p_userId (pay_pred x) := pay_user x u0]> (users (w_db w1)))
    by apply users_put.
  assert (Hp2 : predictions (w_db w2) = predictions (w_db w1))
    by (unfold w2; destruct w1 as [[] ? ? ? ? ? ? ?]; reflexivity).
  assert (Hp1 : predictions (w_db w1) = <[p_id (pay_pred x) := pay_row x p0]> (predictions (w_db w)))
    by apply predictions_put.
  rewrite Fu, Fp, Hu2, Hp2, Hp1, Hu1. reflexivity.
Qed.

(** A loop over predictions owes the concatenation of what each turn owes. *)
Lemma pay_loop (body : Prediction -> Svc unit) (plan : Prediction -> list Payment) preds : forall w w',
  (forall p w w', body p w = (inr tt, w') -> owes (plan p) w w') ->
  forM_ preds body w = (inr tt, w') -> owes (flat_map plan preds) w w'.
Proof.
  induction preds as [|p preds IH]; intros w w' Hb Hr; cbn in *.
  - injection Hr as <-. apply owes_nil; reflexivity.
  - apply bind_inr_inv in Hr as ([] & w1 & H1' & Hr). eapply owes_app; eauto.
Qed.

Lemma resolveUserBet_agree {T} (proj : DB -> T) u r won pay
    (Hb : forall t d, proj (d {{ bets := t }}) = proj d)
    (Ho : forall t d, proj (d {{ outbox := t }}) = proj d) :
  respects (agree proj) (resolveUserBet requestId u r won pay).
Proof.
  unfold resolveUserBet, resolveBet. respects_auto. apply agree_transaction. respects_auto;
    first [apply agree_update; exact Hb | apply agree_createOutboxEvent; exact Ho].
Qed.

Lemma announceResult_agree {T} (proj : DB -> T) r u won m a
    (Ho : forall t d, proj (d {{ outbox := t }}) = proj d) :
  respects (agree proj) (announceResult r u won m a).
Proof. unfold announceResult. cbv zeta. respects_auto; apply agree_createOutboxEvent; exact Ho. Qed.

Lemma after_agree {T} (proj : DB -> T) r u won pay m a
    (Hb : forall t d, proj (d {{ bets := t }}) = proj d)
    (Ho : forall t d, proj (d {{ outbox := t }}) = proj d) :
  respects (agree proj) (resolveUserBet requestId u r won pay ;;; announceResult r u won m a).
Proof.
  apply respects_bind; [apply _ | apply resolveUserBet_agree; assumption |].
  intros _. apply announceResult_agree. exact Ho.
Qed.

Lemma refund_owes r p w w' : refundPrediction requestId r p w = (inr tt, w') -> owes [refundOf p] w w'.
Proof. intros Hr. eapply (pay_one (refundOf p)); [| |exact Hr]; apply resolveUserBet_agree; reflexivity. Qed.

Lemma settle_owes r won pay p w w' :
  settlePrediction requestId r won pay p w = (inr tt, w') -> owes [resultOf p won pay] w w'.
Proof. intros Hr. eapply (pay_one (resultOf p won pay)); [| |exact Hr]; apply after_agree; reflexivity. Qed.

Lemma lose_owes r p w w' : losePrediction requestId r p w = (inr tt, w') -> owes [lossOf p] w w'.
Proof. intros Hr. eapply (pay_one (lossOf p)); [| |exact Hr]; apply after_agree; reflexivity. Qed.

Lemma flat_map_map {A B} (f : A -> B) l : flat_map (fun x => [f x]) l = map f l.
Proof. induction l; cbn; congruence. Qed.

Lemma resolveUpDown_owes round preds price w w' :
  resolveUpDownRound requestId round preds price w = (inr tt, w') ->
  owes (upDownPayments round preds price) w w'.
Proof.
  unfold resolveUpDownRound, upDownPayments. intros Hr.
  apply bind_inr_inv in Hr as (t & w1 & Ht & Hr). injection Ht as _ <-.
  apply bind_inr_inv in Hr as ([] & w1 & Hc & Hr).
  assert (Hchain : forall T (proj : DB -> T), proj (w_db w1) = proj (w_db w)).
  { intros T proj.
    assert (Hra : respects (agree proj) (catch (sorobanResolveRound price 0 (t / 1000)) applyMoneyPathFailure))
      by respects_auto.
    destruct (Hra w) as [E _]. unfold final in E. rewrite Hc in E. exact E. }
  unfold owes. rewrite <- (Hchain _ users), <- (Hchain _ predictions). 
  match goal with |- _ = payTables _ _ ?l => change (owes l w1 w') end.
  destruct (winningSide price (unitQ (r_startPrice round))) as [side|].
  - cbv zeta in *. destruct (decEq _ 0); [injection Hr as <-; apply owes_nil; reflexivity|].
    rewrite <- flat_map_map. eapply pay_loop; [|exact Hr]. cbv beta. intros p x x' Hx.
    match type of Hx with context [upDownPayout ?a ?b ?c p] => destruct (upDownPayout a b c p) as [won pay] end.
    exact (settle_owes _ _ _ _ _ _ Hx).
  - rewrite <- flat_map_map. eapply pay_loop; [|exact Hr]. intros p x x'. apply refund_owes.
Qed.

Lemma resolveLegends_owes round preds price w w' :
  resolveLegendsRound requestId round preds price w = (inr tt, w') ->
  exists ranges, parseRoundPriceRanges (r_priceRanges round) = inr ranges /\
    Forall (fun r => isValidRange r = true) ranges /\ owes (legendsPayments ranges preds price) w w'.
Proof.
  unfold resolveLegendsRound, legendsPayments. intros Hr.
  apply bind_inr_inv in Hr as (ranges & w1 & Hl & Hr). apply liftE_inv in Hl as [Hl ->].
  exists ranges. split; [exact Hl|]. destruct (length ranges =? 0)%nat; [discriminate|].
  destruct (existsb (fun r => negb (isValidRange r)) ranges) eqn:Ex; [discriminate|].
  split.
  { apply List.Forall_forall. intros r Hin. destruct (isValidRange r) eqn:Ev; [reflexivity|].
    assert (existsb (fun r => negb (isValidRange r)) ranges = true)
      by (apply existsb_exists; exists r; rewrite Ev; auto). congruence. }
  cbv zeta in *. destruct (findWinningRange price (sortBy rangeMinGreater ranges)) as [wr|].
  - destruct (decEq _ 0).
    + rewrite <- flat_map_map. eapply pay_loop; [|exact Hr]. intros p x x'. apply lose_owes.
    + eapply pay_loop; [|exact Hr]. intros p x x' Hx. unfold settleLegends in Hx. unfold legendsResultOf.
      destruct (validateUserPriceRange (p_priceRange p)); [apply (settle_owes _ _ _ _ _ _ Hx)|].
      injection Hx as <-. apply owes_nil; reflexivity.
  - rewrite <- flat_map_map. eapply pay_loop; [|exact Hr]. intros p x x'. apply refund_owes.
Qed.
End Refinement.

Section Settlement.
Context `{Env} `{DecimalJs} `{PgNumeric} (requestId : option string).

Section Frames.
Context {T : Type} (proj : DB -> T).
Context (Hb : forall t d, proj (d {{ bets := t }}) = proj d).
Context (Ho : forall t d, proj (d {{ outbox := t }}) = proj d).

Lemma resolveUserBet_keeps u r won pay : respects (baseKeeps proj) (resolveUserBet requestId u r won pay).
Proof. apply baseKeeps_agree, resolveUserBet_agree; assumption. Qed.

Lemma announceResult_base r u won m a : respects sameBase (announceResult r u won m a).
Proof. unfold announceResult. respects_auto. Qed.

Lemma settleBody_keeps id price : respects (baseKeeps proj) (settleBody requestId id price).
Proof.
  assert (Hs : forall r won pay p, respects (baseKeeps proj) (settlePrediction requestId r won pay p)).
  { intros. unfold settlePrediction. respects_auto;
      first [apply resolveUserBet_keeps | apply baseKeeps_sameBase, announceResult_base]. }
  assert (Hl : forall r p, respects (baseKeeps proj) (losePrediction requestId r p)).
  { intros. unfold losePrediction. respects_auto;
      first [apply resolveUserBet_keeps | apply baseKeeps_sameBase, announceResult_base]. }
  assert (Hr : forall r p, respects (baseKeeps proj) (refundPrediction requestId r p)).
  { intros. unfold refundPrediction. respects_auto; apply resolveUserBet_keeps. }
  assert (Hc : forall p r t, respects (baseKeeps proj) (sorobanResolveRound p r t)).
  { intros. apply baseKeeps_sameBase. eapply sent_base. intros w. apply mutatingCall_sent. }
  assert (Ht : forall id s d e, respects (baseKeeps proj) (transitionRound id s d e)).
  { intros. apply baseKeeps_sameBase. unfold transitionRound, transitionCheck, transitionCas. respects_auto. }
  unfold settleBody, resolveUpDownRound, resolveLegendsRound, settleLegends, liftE, applyMoneyPathFailure.
  respects_auto; first [apply Hs | apply Hl | apply Hr | apply Hc | apply Ht].
Qed.
End Frames.

(** Only a LOCKED round settles. For a missing, pending, open, cancelled
    or already settled round the call changes nothing and says which it was;
    so resolving a settled round again is a no-op. *)
Theorem resolveRound_only_locked roundId price w :
  (env_oracleRunning && env_oracleStale = false) ->
  (forall r, rounds (w_db w) !! roundId = Some r -> r_status r <> LOCKED) ->
  resolveRound requestId roundId price w
  = (inr match rounds (w_db w) !! roundId with
         | Some r => if decide (r_status r = RESOLVED) then ResAlreadyResolved r else ResNoOp
         | None => ResNoOp
         end, w).
Proof.
  intros Hf Hno. unfold resolveRound, assertOraclePriceFresh, bind, findUnique, gets.
  destruct env_oracleRunning; cbn in *; [rewrite Hf|]; cbn;
    (destruct (rounds (w_db w) !! roundId) as [r|]; [|reflexivity]);
    specialize (Hno r eq_refl); destruct (r_status r); try reflexivity; contradiction.
Qed.

(** A settlement that fails leaves the three tables as they were. *)
Lemma resolveRound_failed roundId price w e w' :
  w_base w = None -> resolveRound requestId roundId price w = (inl e, w') ->
  users (w_db w') = users (w_db w) /\ rounds (w_db w') = rounds (w_db w) /\
  predictions (w_db w') = predictions (w_db w) /\ w_base w' = None.
Proof.
  intros Hb Hr. unfold resolveRound in Hr.
  assert (Hfresh : snd (assertOraclePriceFresh w) = w)
    by (unfold assertOraclePriceFresh; destruct (negb _); [|destruct env_oracleStale]; reflexivity).
  unfold bind at 1 in Hr. destruct (assertOraclePriceFresh w) as [[e0|[]] w0]; cbn in Hfresh; subst w0;
    [injection Hr as _ <-; auto|].
  unfold bind at 1, findUnique, gets in Hr. cbn in Hr.
  destruct (rounds (w_db w) !! roundId) as [r|]; [|discriminate].
  destruct (r_status r); try discriminate.
  unfold bind at 1 in Hr.
  destruct (transaction (settleBody requestId roundId (toDecimal_any price)) w) as [[e1|x] w1] eqn:Et.
  - injection Hr as _ <-.
    pose proof (fun T proj Hx Hy => transaction_aborts (T := T) proj _ w e1 w1 Hb
                 (settleBody_keeps proj Hx Hy roundId (toDecimal_any price)) Et) as Hab.
    repeat split; [apply Hab; reflexivity..|]. exact (proj2 (Hab _ users ltac:(reflexivity) ltac:(reflexivity))).
  - exfalso. destruct x; discriminate.
Qed.

(** A settlement that reports UPDATED has paid. *)
Lemma resolveRound_updated roundId price w r' w' :
  w_base w = None -> resolveRound requestId roundId price w = (inr (ResUpdated r'), w') ->
  w_base w' = None /\
  exists r preds,
    rounds (w_db w) !! roundId = Some r /\ r_status r = LOCKED /\
    preds ≡ₚ rowsWhere (settleable roundId) (w_db w) /\
    (users (w_db w'), predictions (w_db w'))
    = payTables (users (w_db w)) (predictions (w_db w)) (payments r preds (toDecimal_any price)) /\
    rounds (w_db w') = <[roundId := r']> (rounds (w_db w)) /\
    r_status r' = RESOLVED /\ r_endPrice r' = Some (colSet (toNumber (toDecimal_any price))) /\
    r_id r' = r_id r.
Proof.
  intros Hb Hr. unfold resolveRound in Hr.
  apply bind_inr_inv in Hr as ([] & w1 & Hf & Hr).
  assert (w1 = w) as ->.
  { unfold assertOraclePriceFresh in Hf. destruct (negb _); [|destruct env_oracleStale];
      try discriminate; injection Hf as <-; reflexivity. }
  apply bind_inr_inv in Hr as (o & w1 & Ho & Hr). injection Ho as Ho <-.
  destruct o as [r|]; [|discriminate]. change (rounds (w_db w) !! roundId = Some r) in Ho.
  destruct (r_status r) eqn:Est; try discriminate.
  apply bind_inr_inv in Hr as (res & w1 & Ht & Hr).
  apply bind_inr_inv in Hr as ([] & w2 & He & Hr). injection Hr as -> <-.
  apply (transaction_commits _ _ _ _ Hb) in Ht as (w0 & w3 & E0 & Hm & E1 & Hb1).
  set (pr := toDecimal_any price) in *.
  assert (Hemit : w_db w2 = w_db w1 /\ w_base w2 = w_base w1).
  { apply bind_inr_inv in He as ([] & w4 & He1 & He2).
    unfold emit, modify in He1, He2. injection He1 as <-. injection He2 as <-. destruct w1; auto. }
  destruct Hemit as [Hemit Hb2]. split; [congruence|]. clear Hb1 Hb2.
  rewrite Hemit, E1. rewrite <- E0 in *. clear Hemit E1 He Hb Hf E0 w w1 w2.
  unfold settleBody in Hm. apply bind_inr_inv in Hm as (o & w1 & Ho1 & Hm). injection Ho1 as Ho1 <-.
  change (rounds (w_db w0) !! roundId = o) in Ho1. rewrite Ho in Ho1. subst o.
  apply bind_inr_inv in Hm as (preds & w1 & Hp & Hm). apply findMany_rows in Hp as [-> Hpreds].
  rewrite Est in Hm. apply bind_inr_inv in Hm as ([] & w1 & Hpay & Hm).
  apply bind_inr_inv in Hm as (t & w2 & Ht & Hm). injection Ht as _ <-.
  apply bind_inr_inv in Hm as (ur & w2 & Htr & Hm). injection Hm as <- <-.
  exists r, preds. split; [exact Ho|]. split; [exact Est|]. split; [exact Hpreds|].
  assert (Hrounds : rounds (w_db w1) = rounds (w_db w0) /\ owes (payments r preds pr) w0 w1).
  { split.
    - assert (Hag : respects (agree rounds) match r_mode r with
                | UP_DOWN => resolveUpDownRound requestId r preds pr
                | LEGENDS => resolveLegendsRound requestId r preds pr end).
      { unfold resolveUpDownRound, resolveLegendsRound, settleLegends, settlePrediction, losePrediction,
          refundPrediction, liftE, applyMoneyPathFailure.
        destruct (r_mode r); respects_auto;
          first [apply resolveUserBet_agree; reflexivity | apply announceResult_agree; reflexivity]. }
      destruct (Hag w0) as [E _]. unfold final in E. rewrite Hpay in E. exact E.
    - unfold payments. destruct (r_mode r); [apply (resolveUpDown_owes requestId), Hpay|].
      apply resolveLegends_owes in Hpay as (ranges & -> & _ & Hw). exact Hw. }
  destruct Hrounds as [Hrounds Howes].
  pose proof (transitionRound_cases roundId RESOLVED (mkTransitionData (Some (toNumber pr)) (Some t)) false w1) as Hc.
  rewrite Hrounds, Ho in Hc. rewrite Est in Hc. change (isLegalRoundTransition LOCKED RESOLVED) with true in Hc.
  unfold value, final in Hc. rewrite Htr in Hc. cbn [fst snd] in Hc. destruct Hc as [Hv Hdb].
  injection Hv as ->. rewrite Hdb.
  split; [unfold owes in Howes; rewrite <- Howes; destruct (w_db w1); reflexivity|].
  split; [rewrite <- Hrounds; destruct (w_db w1); reflexivity|].
  destruct r; repeat split.
Qed.
(** Any other answer changes nothing. *)
Lemma resolveRound_quiet roundId price w res w' :
  w_base w = None -> resolveRound requestId roundId price w = (inr res, w') ->
  (forall r, res <> ResUpdated r) -> w' = w.
Proof.
  intros Hb Hr Hno. unfold resolveRound in Hr.
  apply bind_inr_inv in Hr as ([] & w1 & Hf & Hr).
  assert (w1 = w) as ->.
  { unfold assertOraclePriceFresh in Hf. destruct (negb _); [|destruct env_oracleStale];
      try discriminate; injection Hf as <-; reflexivity. }
  apply bind_inr_inv in Hr as (o & w1 & Ho & Hr). injection Ho as Ho <-.
  destruct o as [r|]; [|by injection Hr]. change (rounds (w_db w) !! roundId = Some r) in Ho.
  destruct (r_status r) eqn:Est; try by injection Hr.
  apply bind_inr_inv in Hr as (x & w1 & Ht & Hr).
  apply (transaction_commits _ _ _ _ Hb) in Ht as (w0 & w3 & E0 & Hm & _).
  exfalso. enough (exists r', x = ResUpdated r') as [r' ->].
  { apply bind_inr_inv in Hr as ([] & w4 & _ & Hr). injection Hr as <- _. by apply (Hno r'). }
  unfold settleBody in Hm. apply bind_inr_inv in Hm as (o & w4 & Ho1 & Hm). injection Ho1 as Ho1 <-.
  change (rounds (w_db w0) !! roundId = o) in Ho1. rewrite E0, Ho in Ho1. subst o.
  apply bind_inr_inv in Hm as (preds & w4 & _ & Hm). rewrite Est in Hm.
  apply bind_inr_inv in Hm as ([] & w5 & _ & Hm). apply bind_inr_inv in Hm as (t & w6 & _ & Hm).
  apply bind_inr_inv in Hm as (ur & w7 & _ & Hm). injection Hm as <- _. eauto.
Qed.

(** C5. A settlement that fails pays nobody: balances, rounds and predictions
    are as before, whatever had been written when the error struck. (The bet
    rows already resolved on their own transactions are not undone.) *)
Theorem resolveRound_error_pays_nobody roundId price w e w' :
  w_base w = None -> resolveRound requestId roundId price w = (inl e, w') ->
  users (w_db w') = users (w_db w) /\ rounds (w_db w') = rounds (w_db w) /\
  predictions (w_db w') = predictions (w_db w).
Proof. intros Hb Hr. destruct (resolveRound_failed _ _ _ _ _ Hb Hr) as (H1' & H2' & H3' & _). auto. Qed.

(** C2. Refinement. A settlement that reports UPDATED started from a LOCKED
    round, has paid exactly what the specification [payments] owes to the
    round's confirmed predictions, each of them once, and left the round
    RESOLVED with the final price; no other round, user or prediction changed. *)
Theorem resolveRound_refines_payments roundId price w r' w' :
  w_base w = None -> resolveRound requestId roundId price w = (inr (ResUpdated r'), w') ->
  exists r preds,
    rounds (w_db w) !! roundId = Some r /\ r_status r = LOCKED /\
    preds ≡ₚ rowsWhere (settleable roundId) (w_db w) /\
    (users (w_db w'), predictions (w_db w'))
    = payTables (users (w_db w)) (predictions (w_db w)) (payments r preds (toDecimal_any price)) /\
    rounds (w_db w') = <[roundId := r']> (rounds (w_db w)) /\
    r_status r' = RESOLVED /\ r_endPrice r' = Some (colSet (toNumber (toDecimal_any price))).
Proof.
  intros Hb Hr.
  destruct (resolveRound_updated _ _ _ _ _ Hb Hr) as (_ & r & preds & H1' & H2' & H3' & H4' & H5' & H6' & H7' & _).
  exists r, preds. auto 10.
Qed.
End Settlement.

(** ** The winning range *)

Section WinningRange.
Context `{DecimalJs}.

Definition boundsOf (r : RoundPriceRange) : LegendsPriceRange := mkLegends (rp_min r) (rp_max r).

Definition doubleBounds (r : RoundPriceRange) : Prop :=
  isDouble (numQ (rp_min r)) /\ isDouble (numQ (rp_max r)).

Lemma disjointFrom_lookup l : forall lo i j ri rj,
  disjointFrom lo l -> l !! i = Some ri -> l !! j = Some rj -> (i < j)%nat ->
  exists b a, lg_max ri = Fin b /\ lg_min rj = Fin a /\ (b <= a)%Q.
Proof.
  assert (Hlow : forall l lo j rj, disjointFrom (Some lo) l -> l !! j = Some rj ->
            exists a, lg_min rj = Fin a /\ (lo <= a)%Q).
  { clear. induction l as [|r l IH]; intros lo j rj Hd Hj; [discriminate|].
    destruct Hd as (a & b & E1 & E2 & Hab & Hlo & Hd). destruct j as [|j].
    - injection Hj as <-. eauto.
    - destruct (IH b j rj Hd Hj) as (a' & E & Hle). exists a'. split; [exact E | lra]. }
  induction l as [|r l IH]; intros lo i j ri rj Hd Hi Hj Hij; [discriminate|].
  destruct Hd as (a & b & E1 & E2 & Hab & Hlo & Hd).
  destruct j as [|j]; [lia|]. destruct i as [|i].
  - injection Hi as <-. destruct (Hlow l b j rj Hd Hj) as (a' & E & Hle). eauto.
  - apply (IH (Some b) i j); [exact Hd | exact Hi | exact Hj | lia].
Qed.

(** Two ranges of a disjoint list never both contain the price. *)
Lemma inRange_exclusive price l i j ri rj :
  disjointFrom None (map boundsOf l) -> Forall doubleBounds l ->
  l !! i = Some ri -> l !! j = Some rj -> (i < j)%nat ->
  inRange price (length l) i ri = true -> inRange price (length l) j rj = true -> False.
Proof.
  intros Hd Hdb Hi Hj Hij H1 H2.
  pose proof (lookup_lt_Some _ _ _ Hj) as Hlt.
  destruct (disjointFrom_lookup _ None i j (boundsOf ri) (boundsOf rj) Hd) as (b & a & Eb & Ea & Hle);
    [change map with (@fmap list _ LegendsPriceRange) || idtac; rewrite list_lookup_fmap, Hi; reflexivity
    |rewrite list_lookup_fmap, Hj; reflexivity | exact Hij |].
  cbn in Eb, Ea.
  assert (Di : doubleBounds ri) by exact (Forall_lookup_1 _ _ _ _ Hdb Hi).
  assert (Dj : doubleBounds rj) by exact (Forall_lookup_1 _ _ _ _ Hdb Hj).
  unfold doubleBounds in Di, Dj. rewrite Eb in Di. rewrite Ea in Dj. cbn in Di, Dj.
  unfold inRange in H1, H2. rewrite Eb in H1. rewrite Ea in H2. cbn [numQ] in H1, H2.
  destruct (Nat.eqb_spec i (length l - 1)) as [|_]; [lia|].
  apply andb_true_iff in H1 as [_ H1]. unfold decLt in H1. apply Qltb_iff in H1.
  assert (H2' : decGte price (toDecimal a) = true).
  { destruct (j =? length l - 1)%nat; apply andb_true_iff in H2 as [H2 _]; exact H2. }
  unfold decGte in H2'. apply Qle_bool_iff in H2'.
  pose proof (num_to_dec_le b a (proj2 Di) (proj1 Dj) Hle) as Hm. unfold toDecimal in *. lra.
Qed.

(** For ranges as round creation validates them (finite, non-empty,
    disjoint once sorted), the settlement's search finds a range exactly when
    the final price lies in one, and then it is the only one: lower bounds
    are inclusive, upper bounds exclusive except the last. *)
Theorem findWinningRange_unique price sorted r :
  disjointFrom None (map boundsOf sorted) -> Forall doubleBounds sorted ->
  findWinningRange price sorted = Some r <->
  exists i, sorted !! i = Some r /\ inRange price (length sorted) i r = true /\
    forall j rj, sorted !! j = Some rj -> inRange price (length sorted) j rj = true -> j = i.
Proof.
  intros Hd Hdb. unfold findWinningRange. split.
  - intros Hf. apply findIndexed_Some in Hf as (i & Hi & Hin & Hmin). exists i.
    split; [exact Hi|]. split; [exact Hin|]. intros j rj Hj Hjn.
    destruct (lt_eq_lt_dec j i) as [[Hlt|He]|Hlt]; [|exact He|].
    + specialize (Hmin j rj Hlt Hj). cbn in Hmin. congruence.
    + exfalso. exact (inRange_exclusive price sorted i j r rj Hd Hdb Hi Hj Hlt Hin Hjn).
  - intros (i & Hi & Hin & Huniq).
    destruct (findIndexed (inRange price (length sorted)) 0 sorted) as [r'|] eqn:Ef.
    + apply findIndexed_Some in Ef as (j & Hj & Hjn & _). rewrite (Huniq j r' Hj Hjn) in Hj. congruence.
    + pose proof (findIndexed_None _ _ _ Ef i r Hi) as Hn. cbn in Hn. congruence.
Qed.

Lemma sortBy_map {A B} (f : A -> B) gtA gtB (l : list A) :
  (forall a b, gtB (f a) (f b) = gtA a b) -> sortBy gtB (map f l) = map f (sortBy gtA l).
Proof.
  intros Hg. induction l as [|a l IH]; [reflexivity|].
  change (insertBy gtB (f a) (sortBy gtB (map f l)) = map f (insertBy gtA a (sortBy gtA l))).
  rewrite IH. generalize (sortBy gtA l). intros s. induction s as [|x s IHs]; cbn; [reflexivity|].
  rewrite Hg. destruct (gtA a x); cbn; [rewrite IHs|]; reflexivity.
Qed.

(** The ranges a round is created with satisfy the hypothesis above. *)
Lemma created_ranges_disjoint l :
  validateLegendsRanges l = inr tt ->
  disjointFrom None (map boundsOf (sortBy rangeMinGreater (map newRange l))).
Proof.
  intros Hv. apply validateLegendsRanges_ok in Hv as [_ Hd].
  rewrite (sortBy_map newRange minGreater) by reflexivity. rewrite map_map.
  rewrite (map_ext _ id) by (intros []; reflexivity). rewrite map_id. exact Hd.
Qed.
End WinningRange.
