(* ===== verification/Simulation.v ===== *)
(** * Simulation (src/src/services/simulation.service.ts)

    What a round would pay at a given price, without writing anything. The
    predictions of a stored round come with the round, as its query includes
    them. The property compares what is reported of a stored round with the rows
    the settlement of [Resolution] then writes. *)

From Stdlib Require Import ZArith QArith Lia.
From stdpp Require Import base gmap strings list.
From S2P Require Import Prelude.
From S2P Require Import Numeric.
From S2P Require Import Payout.
From S2P Require Import Errors.
From S2P Require Import Schema.
From S2P Require Import Store.
From S2P Require Import PriceRange.
From S2P Require Import RoundService.
From S2P Require Import Prediction.
From S2P Require Import Resolution.

#[local] Open Scope Z_scope.

Record SimulationPredictionResult : Type := mkSimPrediction {
  sp_won : option bool;
  sp_payout : Q;
  sp_amount : Q;
  sp_side : option PredictionSide;
}.

Record SimulationSummary : Type := mkSummary {
  sy_totalPredictions : nat;
  sy_winners : nat;
  sy_losers : nat;
  sy_refunded : nat;
  sy_totalPayout : Q;
}.

Record SimulationResult : Type := mkSimulation {
  si_roundId : string;
  si_simulatedPrice : Q;
  si_mode : GameMode;
  si_startPrice : Q;
  si_winningSide : option PredictionSide;
  si_winningRange : option (num * num);
  si_predictions : list SimulationPredictionResult;
  si_summary : SimulationSummary;
}.

Section Simulate.
Context `{DecimalJs}.

Definition simRefund (p : Prediction) : SimulationPredictionResult :=
  mkSimPrediction None (toNumber (unitQ (p_amount p))) (toNumber (unitQ (p_amount p))) (p_side p).

Definition simLoss (p : Prediction) : SimulationPredictionResult :=
  mkSimPrediction (Some false) 0 (toNumber (unitQ (p_amount p))) (p_side p).

Definition simWin (winningPool losingPool : Q) (p : Prediction) : SimulationPredictionResult :=
  mkSimPrediction (Some true) (toNumber (calculatePayout (unitQ (p_amount p)) winningPool losingPool))
    (toNumber (unitQ (p_amount p))) (p_side p).

(** [totalPayout += payout], from zero. *)
Definition totalOf (l : list SimulationPredictionResult) : Q :=
  foldl (fun s p => addDoubles s (sp_payout p)) 0%Q l.

(** Everybody refunded. *)
Definition allRefunded (l : list SimulationPredictionResult) : SimulationSummary :=
  mkSummary (length l) 0 0 (length l) (totalOf l).

(** Everybody lost. *)
Definition allLost (l : list SimulationPredictionResult) : SimulationSummary :=
  mkSummary (length l) 0 (length l) 0 0.

(** The counters of the final loop: losers add nothing to the total. *)
Definition count (s : SimulationSummary) (p : SimulationPredictionResult) : SimulationSummary :=
  match sp_won p with
  | Some true => s {{ sy_winners := S (sy_winners s); sy_totalPayout := addDoubles (sy_totalPayout s) (sp_payout p) }}
  | _ => s {{ sy_losers := S (sy_losers s) }}
  end.

Definition summaryOf (l : list SimulationPredictionResult) : SimulationSummary :=
  foldl count (mkSummary (length l) 0 0 0 0) l.

Definition simulateUpDown (round : Round) (preds : list Prediction) (finalPriceDec finalPriceNum : Q)
    : SimulationResult :=
  let side := winningSide finalPriceDec (unitQ (r_startPrice round)) in
  let result := mkSimulation (r_id round) finalPriceNum UP_DOWN (toNumber (unitQ (r_startPrice round))) side None in
  match side with
  | None => let l := map simRefund preds in result l (allRefunded l)
  | Some side =>
      let winningPool := unitQ (match side with UP => r_poolUp round | DOWN => r_poolDown round end) in
      let losingPool := unitQ (match side with UP => r_poolDown round | DOWN => r_poolUp round end) in
      if decEq winningPool 0 then let l := map simLoss preds in result l (allLost l)
      else
        let l := map (fun p => if decide (p_side p = Some side) then simWin winningPool losingPool p
                               else simLoss p) preds in
        result l (summaryOf l)
  end.

Definition badRange : Err := PlainError "Cannot read properties of undefined (reading 'toString')".

(** [predictionRange && min equal && max equal] on the stored value: [null] is
    no range, an object without the bound makes [toDecimal] throw. Stored
    bounds are numbers. *)
Definition rangeMatches (range : RoundPriceRange) (value : Json) : Err + bool :=
  match value with
  | JNull | JBool false => inr false
  | JObj fs =>
      match numField "min" fs with
      | None => inl badRange
      | Some mn =>
          if Qeq_bool (toDecimal (numQ mn)) (toDecimal (numQ (rp_min range))) then
            match numField "max" fs with
            | None => inl badRange
            | Some mx => inr (Qeq_bool (toDecimal (numQ mx)) (toDecimal (numQ (rp_max range))))
            end
          else inr false
      end
  | _ => inl badRange
  end.

(** [map] with a callback that may throw. *)
Fixpoint mapE {A B} (f : A -> Err + B) (l : list A) : Err + list B :=
  match l with
  | [] => inr []
  | x :: l' => match f x with
               | inl e => inl e
               | inr y => match mapE f l' with inl e => inl e | inr ys => inr (y :: ys) end
               end
  end.

Definition simLegendsOne (range : RoundPriceRange) (winningPool losingPool : Q) (p : Prediction)
    : Err + SimulationPredictionResult :=
  match rangeMatches range (p_priceRange p) with
  | inl e => inl e
  | inr true => inr (simWin winningPool losingPool p)
  | inr false => inr (simLoss p)
  end.

Definition simulateLegends (round : Round) (preds : list Prediction) (finalPriceDec finalPriceNum : Q)
    : Err + SimulationResult :=
  match parseRoundPriceRanges (r_priceRanges round) with
  | inl e => inl e
  | inr priceRanges =>
      let sortedRanges := sortBy rangeMinGreater priceRanges in
      let result := mkSimulation (r_id round) finalPriceNum LEGENDS (toNumber (unitQ (r_startPrice round))) None in
      match findWinningRange finalPriceDec sortedRanges with
      | None => let l := map simRefund preds in inr (result None l (allRefunded l))
      | Some winningRange =>
          let bounds := Some (rp_min winningRange, rp_max winningRange) in
          let decWinningPool := toDecimal (numQ (rp_pool winningRange)) in
          let decLosingPool := D_sub (totalPool sortedRanges) decWinningPool in
          if decEq decWinningPool 0 then let l := map simLoss preds in inr (result bounds l (allLost l))
          else
            match mapE (simLegendsOne winningRange decWinningPool decLosingPool) preds with
            | inl e => inl e
            | inr l => inr (result bounds l (summaryOf l))
            end
      end
  end.

Definition simulate (round : Round) (preds : list Prediction) (finalPrice : Q) : Err + SimulationResult :=
  match r_mode round with
  | UP_DOWN => inr (simulateUpDown round preds (toDecimal finalPrice) finalPrice)
  | LEGENDS => simulateLegends round preds (toDecimal finalPrice) finalPrice
  end.

Definition simulateRound (roundId : string) (finalPrice : Q) : Svc (option SimulationResult) :=
  o <- findUnique (Row := Round) roundId ;;
  match o with
  | None => ret None
  | Some round =>
      preds <- gets (fun w => rowsWhere (fun p : Prediction => String.eqb (p_roundId p) roundId) (w_db w)) ;;
      r <- liftE (simulate round preds finalPrice) ;;
      ret (Some r)
  end.
End Simulate.

(** ** Properties *)

Section Agreement.
Context `{DecimalJs} `{PgNumeric}.

(** What the simulation says of a prediction, as a change of its row. *)
Definition outcomeRow (s : SimulationPredictionResult) : Prediction -> Prediction :=
  setOutcome (sp_won s) (sp_payout s).

Lemma toNumber_zero : toNumber 0 = 0%Q.
Proof. unfold toNumber. rewrite D_toNumber_spec. reflexivity. Qed.

(** A range that validates is compared as the settlement compares it. *)
Lemma rangeMatches_valid range value pr :
  validateUserPriceRange value = Some pr -> rangeMatches range value = inr (legendsWon range pr).
Proof.
  unfold validateUserPriceRange, rangeMatches, legendsWon. destruct value; try discriminate.
  destruct (numField "min" fields) as [mn|], (numField "max" fields) as [mx|]; try discriminate.
  destruct (_ && _); [|discriminate]. intros [= <-]. cbn [ur_min ur_max].
  destruct (Qeq_bool (toDecimal (numQ mn)) _); reflexivity.
Qed.

(** A prediction whose range is readable. *)
Definition readable (p : Prediction) : Prop := is_Some (validateUserPriceRange (p_priceRange p)).

Definition legendsOutcome (range : RoundPriceRange) (wp lp : Q) (p : Prediction) : SimulationPredictionResult :=
  match validateUserPriceRange (p_priceRange p) with
  | Some pr => if legendsWon range pr then simWin wp lp p else simLoss p
  | None => simLoss p
  end.

Lemma mapE_pure {A B} (f : A -> Err + B) (g : A -> B) l :
  Forall (fun x => f x = inr (g x)) l -> mapE f l = inr (map g l).
Proof. induction 1 as [|x l Hx HF IH]; cbn; [reflexivity|]. by rewrite Hx, IH. Qed.

Lemma legends_outcomes range wp lp preds : Forall readable preds ->
  mapE (simLegendsOne range wp lp) preds = inr (map (legendsOutcome range wp lp) preds).
Proof.
  intros HF. apply mapE_pure. eapply Forall_impl; [exact HF|]. intros p [pr Hp]. unfold simLegendsOne, legendsOutcome.
  rewrite Hp, (rangeMatches_valid _ _ _ Hp). by destruct (legendsWon range pr).
Qed.

Definition isWin (s : SimulationPredictionResult) : bool := match sp_won s with Some true => true | _ => false end.

(** Every prediction is summaryOf once. *)
Definition accounted (n : nat) (r : SimulationResult) : Prop :=
  let s := si_summary r in
  sy_totalPredictions s = n /\ (sy_winners s + sy_losers s + sy_refunded s = n)%nat /\
  sy_winners s = length (List.filter isWin (si_predictions r)).

Lemma count_fold l : forall s, let s' := foldl count s l in
  sy_totalPredictions s' = sy_totalPredictions s /\ sy_refunded s' = sy_refunded s /\
  (sy_winners s' + sy_losers s' = sy_winners s + sy_losers s + length l)%nat /\
  sy_winners s' = (sy_winners s + length (List.filter isWin l))%nat.
Proof.
  induction l as [|p l IH]; intros s; cbn [foldl List.filter length]; [cbn; lia|].
  destruct (IH (count s p)) as (E1 & E2 & E3 & E4). cbn zeta. rewrite E1, E2, E3, E4. unfold count, isWin.
  destruct s, (sp_won p) as [[]|]; cbn; lia.
Qed.

Lemma accounted_counted n l : length l = n -> forall r, si_predictions r = l -> si_summary r = summaryOf l -> accounted n r.
Proof.
  intros Hl r Hp Hs. unfold accounted. cbn zeta. rewrite Hp, Hs. unfold summaryOf.
  destruct (count_fold l (mkSummary (length l) 0 0 0 0)) as (E1 & E2 & E3 & E4).
  cbn [sy_totalPredictions sy_winners sy_losers sy_refunded] in *. lia.
Qed.

Lemma no_winner_filter (f : Prediction -> SimulationPredictionResult) l :
  (forall p, isWin (f p) = false) ->
  length (List.filter isWin (map f l)) = 0%nat.
Proof.
  intros Hf. induction l as [|p l IH]; [reflexivity|]. cbn. rewrite Hf. exact IH.
Qed.

Lemma accounted_refunds preds r :
  si_predictions r = map simRefund preds -> si_summary r = allRefunded (map simRefund preds) ->
  accounted (length preds) r.
Proof.
  intros Hp Hs. unfold accounted. cbn zeta. rewrite Hp, Hs, no_winner_filter by reflexivity.
  cbn. rewrite length_map. lia.
Qed.

Lemma accounted_losses preds r :
  si_predictions r = map simLoss preds -> si_summary r = allLost (map simLoss preds) ->
  accounted (length preds) r.
Proof.
  intros Hp Hs. unfold accounted. cbn zeta. rewrite Hp, Hs, no_winner_filter by reflexivity.
  cbn. rewrite length_map. lia.
Qed.

Lemma mapE_length {A B} (f : A -> Err + B) l : forall l', mapE f l = inr l' -> length l' = length l.
Proof.
  induction l as [|x l IH]; cbn; intros l' Hl; [injection Hl as <-; reflexivity|].
  destruct (f x); [discriminate|]. destruct (mapE f l); [discriminate|]. injection Hl as <-.
  cbn. f_equal. apply IH. reflexivity.
Qed.

Lemma simulate_accounted round preds finalPrice r :
  simulate round preds finalPrice = inr r -> accounted (length preds) r.
Proof.
  unfold simulate. destruct (r_mode round).
  - intros [= <-]. unfold simulateUpDown. destruct (winningSide _ _); [destruct (decEq _ 0)|].
    + apply accounted_losses; reflexivity.
    + eapply accounted_counted; [apply length_map | reflexivity | reflexivity].
    + apply accounted_refunds; reflexivity.
  - unfold simulateLegends. destruct (parseRoundPriceRanges _); [discriminate|].
    destruct (findWinningRange _ _); [destruct (decEq _ 0)|].
    + intros [= <-]. apply accounted_losses; reflexivity.
    + destruct (mapE _ preds) as [e|outs] eqn:El; [discriminate|]. intros [= <-].
      eapply accounted_counted; [exact (mapE_length _ _ _ El) | reflexivity | reflexivity].
    + intros [= <-]. apply accounted_refunds; reflexivity.
Qed.

(** Nobody staked on the winning side of an UP_DOWN round. *)
Definition nobodyWon (round : Round) (finalPrice : Q) : bool :=
  match r_mode round with
  | UP_DOWN =>
      match winningSide finalPrice (unitQ (r_startPrice round)) with
      | Some side => decEq (unitQ (match side with UP => r_poolUp round | DOWN => r_poolDown round end)) 0
      | None => false
      end
  | LEGENDS => false
  end.

(** What a settlement of the predictions [preds] pays, if the simulation says
    [f] of each of them. *)
Definition paysAs (f : Prediction -> SimulationPredictionResult) (preds : list Prediction) (l : list Payment) : Prop :=
  map (fun x => (pay_pred x, pay_row x)) l = map (fun p => (p, outcomeRow (f p))) preds.

Lemma paysAs_map f (g : Prediction -> Payment) preds :
  (forall p, pay_pred (g p) = p /\ pay_row (g p) = outcomeRow (f p)) -> paysAs f preds (map g preds).
Proof. intros Hg. unfold paysAs. rewrite map_map. apply map_ext. intros p. by destruct (Hg p) as [-> ->]. Qed.

Lemma paysAs_legends range wp lp preds : Forall readable preds ->
  paysAs (legendsOutcome range wp lp) preds (flat_map (legendsResultOf range wp lp) preds).
Proof.
  unfold paysAs. induction 1 as [|p preds [pr Hp] HF IH]; [reflexivity|]. cbn [flat_map]. rewrite map_app, IH.
  unfold legendsResultOf at 1. rewrite Hp. cbn [map app].
  assert (E : legendsOutcome range wp lp p = if legendsWon range pr then simWin wp lp p else simLoss p)
    by (unfold legendsOutcome; by rewrite Hp).
  rewrite E. unfold resultOf, outcomeRow. cbn [pay_pred pay_row].
  destruct (legendsWon range pr); cbn; rewrite ?toNumber_zero; reflexivity.
Qed.

(** The simulation says of each prediction what depends on it and the round
    alone, and a settlement writes the same. *)
Lemma simulate_pays round finalPrice :
  (r_mode round = LEGENDS -> exists ranges, parseRoundPriceRanges (r_priceRanges round) = inr ranges) ->
  exists f,
    (forall preds, (r_mode round = LEGENDS -> Forall readable preds) ->
       exists r, simulate round preds finalPrice = inr r /\ si_predictions r = map f preds) /\
    (forall preds, (r_mode round = LEGENDS -> Forall readable preds) -> nobodyWon round (toDecimal finalPrice) = false ->
       paysAs f preds (payments round preds (toDecimal finalPrice))) /\
    (nobodyWon round (toDecimal finalPrice) = true ->
       (forall p, f p = simLoss p) /\ forall preds, payments round preds (toDecimal finalPrice) = []).
Proof.
  unfold simulate, payments, nobodyWon. destruct (r_mode round).
  - intros _. unfold simulateUpDown, upDownPayments.
    destruct (winningSide (toDecimal finalPrice) (unitQ (r_startPrice round))) as [side|]; [destruct (decEq _ 0)|].
    + exists simLoss. split; [by eauto|]. split; [discriminate|done].
    + exists (fun p => if decide (p_side p = Some side)
        then simWin (unitQ (match side with UP => r_poolUp round | DOWN => r_poolDown round end))
               (unitQ (match side with UP => r_poolDown round | DOWN => r_poolUp round end)) p else simLoss p).
      split; [by eauto|]. split; [|discriminate]. intros preds _ _. apply paysAs_map. intros p.
      unfold upDownPayout, resultOf, outcomeRow. destruct (decide (p_side p = Some side)) as [E|E].
      * by rewrite bool_decide_true.
      * rewrite bool_decide_false by done. cbn. by rewrite toNumber_zero.
    + exists simRefund. split; [by eauto|]. split; [|discriminate]. intros preds _ _. apply paysAs_map. intros p. split; reflexivity.
  - intros [ranges Hp]; [done|]. unfold simulateLegends, legendsPayments. rewrite Hp.
    destruct (findWinningRange _ _) as [range|]; [destruct (decEq _ 0)|].
    + exists simLoss. split; [by eauto|]. split; [|discriminate]. intros preds _ _. apply paysAs_map. intros p. split; reflexivity.
    + eexists. split; [|split; [intros preds HF _; exact (paysAs_legends _ _ _ _ (HF eq_refl))|discriminate]].
      intros preds HF. rewrite (legends_outcomes _ _ _ _ (HF eq_refl)). by eauto.
    + exists simRefund. split; [by eauto|]. split; [|discriminate]. intros preds _ _. apply paysAs_map. intros p. split; reflexivity.
Qed.

(** The rows after payments to different predictions. *)
Lemma payTables_rows (f : Prediction -> SimulationPredictionResult) preds : forall l us ps,
  paysAs f preds l -> NoDup (map p_id preds) -> forall k p, ps !! k = Some p ->
  snd (payTables us ps l) !! k
  = Some (match find (fun q => String.eqb (p_id q) k) preds with Some q => outcomeRow (f q) p | None => p end).
Proof.
  induction preds as [|q preds IH]; intros [|x l] us ps Hl Hnd k p Hk; try discriminate Hl; [exact Hk|].
  injection Hl as Hq Hx Hl. change (NoDup (p_id q :: map p_id preds)) in Hnd. apply NoDup_cons in Hnd as [Hnin Hnd].
  change (payTables us ps (x :: l)) with
    (payTables (alter (pay_user x) (p_userId (pay_pred x)) us) (alter (pay_row x) (p_id (pay_pred x)) ps) l).
  rewrite Hq, Hx. cbn [find]. destruct (String.eqb_spec (p_id q) k) as [E|E].
  - subst k. rewrite (IH l _ _ Hl Hnd (p_id q) (outcomeRow (f q) p)) by (by rewrite lookup_alter_eq, Hk).
    destruct (find (fun q0 => String.eqb (p_id q0) (p_id q)) preds) as [q'|] eqn:Ef; [|reflexivity].
    apply find_some in Ef as [Hin E%String.eqb_eq]. destruct Hnin. rewrite <- E. apply list_elem_of_In, in_map, Hin.
  - apply (IH l _ _ Hl Hnd). by rewrite lookup_alter_ne.
Qed.

Lemma find_member preds p : NoDup (map p_id preds) -> p ∈ preds ->
  find (fun q => String.eqb (p_id q) (p_id p)) preds = Some p.
Proof.
  intros Hnd Hin.
  induction preds as [|q preds IH]; [by apply not_elem_of_nil in Hin|].
  change (NoDup (p_id q :: map p_id preds)) in Hnd. apply NoDup_cons in Hnd as [Hnin Hnd]. cbn [find].
  apply elem_of_cons in Hin as [<-|Hin]; [by rewrite String.eqb_refl|].
  destruct (String.eqb_spec (p_id q) (p_id p)) as [E|]; [|by apply IH].
  destruct Hnin. rewrite E. apply list_elem_of_fmap. by exists p.
Qed.
End Agreement.

Section Operations.
Context `{Env} `{DecimalJs} `{PgNumeric} (requestId : option string).

Definition predictionsOf (roundId : string) (w : World) : list Prediction :=
  rowsWhere (fun p : Prediction => String.eqb (p_roundId p) roundId) (w_db w).

(** C25. The simulation agrees with the settlement. When a settlement of a round
    at a price succeeds, the simulation of the round at the same price, run
    before it on the same database, changes nothing and returns a result that
    counts each prediction once (in LEGENDS rounds, for predictions with readable
    ranges); and row by row the settlement has written the [won] and [payout]
    the simulation reports, with two exceptions, in which it has left the row as
    it was: predictions that are not confirmed, of which the simulation reports
    an outcome all the same, and the rows of an UP_DOWN round with nobody on the
    winning side, which the simulation reports as lost. *)
Theorem simulate_agrees roundId finalPrice w round r' w' :
  w_base w = None -> idsMatch (predictions (w_db w)) -> rounds (w_db w) !! roundId = Some round ->
  (r_mode round = LEGENDS ->
     (exists ranges, parseRoundPriceRanges (r_priceRanges round) = inr ranges) /\
     Forall readable (predictionsOf roundId w)) ->
  resolveRound requestId roundId (NumberArg finalPrice) w = (inr (ResUpdated r'), w') ->
  exists res, simulateRound roundId finalPrice w = (inr (Some res), w) /\
    accounted (length (predictionsOf roundId w)) res /\
    forall i p, predictionsOf roundId w !! i = Some p -> exists s, si_predictions res !! i = Some s /\
      (nobodyWon round (toDecimal finalPrice) = true -> s = simLoss p) /\
      predictions (w_db w') !! p_id p
      = Some (if settleable roundId p && negb (nobodyWon round (toDecimal finalPrice)) then outcomeRow s p else p).
Proof.
  intros Hb Hids Hround Hleg Hr.
  destruct (resolveRound_updated requestId _ _ _ _ _ Hb Hr) as (_ & round' & preds & Hround' & _ & Hpreds & Hpay & _).
  rewrite Hround in Hround'. injection Hround' as <-. change (toDecimal_any (NumberArg finalPrice)) with (toDecimal finalPrice) in Hpay.
  destruct (simulate_pays round finalPrice (fun E => proj1 (Hleg E))) as (f & Hsim & Hpays & Hnone).
  destruct (Hsim (predictionsOf roundId w) (fun E => proj2 (Hleg E))) as (res & Hres & Hrows). exists res. split; [|split].
  { unfold simulateRound, bind, findUnique, gets. change (tbl (w_db w) !! roundId) with (rounds (w_db w) !! roundId).
    rewrite Hround. fold (predictionsOf roundId w). unfold liftE, ret. by rewrite Hres. }
  { exact (simulate_accounted _ _ _ _ Hres). }
  intros i p Hi. exists (f p). rewrite Hrows. split; [exact (map_nth_error f i _ Hi) || by rewrite list_lookup_fmap, Hi|].
  split; [intros Hn; apply (proj1 (Hnone Hn))|].
  apply list_elem_of_lookup_2, rowsWhere_spec in Hi as [[k Hk] Hin]. cbn in Hk. pose proof (Hids _ _ Hk) as <-.
  rewrite (f_equal snd Hpay : predictions (w_db w') = _).
  destruct (nobodyWon round (toDecimal finalPrice)) eqn:En.
  { rewrite (proj2 (Hnone eq_refl)), andb_false_r. exact Hk. }
  assert (Hnd : NoDup (map p_id preds)) by (rewrite Hpreds; apply rows_ids_NoDup, Hids).
  assert (Hmem : forall q, q ∈ preds <-> (exists k, predictions (w_db w) !! k = Some q) /\ settleable roundId q = true)
    by (intros q; rewrite Hpreds; exact (rowsWhere_spec (Row := Prediction) (settleable roundId) (w_db w) q)).
  assert (Hread : r_mode round = LEGENDS -> Forall readable preds).
  { intros E. apply Forall_forall. intros q [[k Hq] Hs]%Hmem.
    apply (proj1 (Forall_forall _ _) (proj2 (Hleg E))), rowsWhere_spec. split; [by exists k|].
    unfold settleable in Hs. by apply andb_prop in Hs as [-> _]. }
  rewrite (payTables_rows f preds _ _ _ (Hpays preds Hread eq_refl) Hnd (p_id p) p Hk).
  f_equal. rewrite andb_true_r. destruct (settleable roundId p) eqn:Es.
  - rewrite find_member; [reflexivity|exact Hnd|]. apply Hmem. by eauto.
  - destruct (find _ preds) as [q|] eqn:Ef; [|reflexivity]. apply find_some in Ef as [Hq E%String.eqb_eq].
    apply list_elem_of_In in Hq. destruct (proj1 (Hmem q) Hq) as [[kq Hkq] Hsq]. rewrite <- (Hids _ _ Hkq), E, Hk in Hkq. congruence.
Qed.
End Operations.
