(* ===== verification/Scheduler.v ===== *)
(** * Scheduled jobs (src/src/services/scheduler.service.ts, src/src/services/round-scheduler.service.ts)

    Each job runs under the single-leader lock and asks it, at checkpoints,
    whether it is still held. The heartbeat answers from outside the job, so the
    lock is a function from the number of the checkpoint to the reason it has
    been lost by then, if it has. A job ends with the outcomes it adds to the
    two metrics, with the round an item stands for. Timers are left out. *)

From Stdlib Require Import ZArith QArith Lia.
From stdpp Require Import base gmap strings list pretty.
From S2P Require Import Prelude.
From S2P Require Import Numeric.
From S2P Require Import Errors.
From S2P Require Import DistributedLock.
From S2P Require Import Schema.
From S2P Require Import Store.
From S2P Require Import PriceRange.
From S2P Require Import Outbox.
From S2P Require Import RoundLifecycle.
From S2P Require Import RoundService.
From S2P Require Import Prediction.
From S2P Require Import Bet.
From S2P Require Import BetReconciliation.
From S2P Require Import PayoutReconciliation.
From S2P Require Import PredictionReconciliation.
From S2P Require Import Resolution.

#[local] Open Scope Z_scope.

(** ** Locks and reports *)

Definition LockHandle : Type := nat -> option LockLostReason.

Inductive JobOutcome : Type :=
| job_success | job_failure | job_skipped | job_no_op | job_aborted | job_flagged.

(** What a run adds to schedulerRunsTotal and to schedulerItemsProcessedTotal. *)
Record JobReport : Type := mkReport {
  jr_run : option JobOutcome;
  jr_items : list (string * JobOutcome);
}.

Inductive Job : Type :=
| AutoResolveRounds | CleanupOldNotifications | RunRetentionPolicies | OutboxPoll | OutboxCleanup
| ReconcileBets | ReconcilePredictions | PayoutReconciliation | CreateRound | CloseEligibleRounds.

Definition lockName (job : Job) : string :=
  match job with
  | AutoResolveRounds => "auto-resolve-rounds"
  | CleanupOldNotifications => "cleanup-old-notifications"
  | RunRetentionPolicies => "run-retention-policies"
  | OutboxPoll => "outbox-poll"
  | OutboxCleanup => "outbox-cleanup"
  | ReconcileBets => "reconcile-bets"
  | ReconcilePredictions => "reconcile-predictions"
  | PayoutReconciliation => "payout-reconciliation"
  | CreateRound => "create-round"
  | CloseEligibleRounds => "close-eligible-rounds"
  end.

Definition lockOptions (ttl maxHold : Z) : DistributedLockConfig :=
  (defaultLockConfig ttl) {{ maxHoldSeconds := Some maxHold }}.

(** [poll] is the configured interval of the outbox poller, in seconds. *)
Definition jobLock (poll : Z) (job : Job) : DistributedLockConfig :=
  match job with
  | AutoResolveRounds => lockOptions 30 600
  | CleanupOldNotifications => lockOptions 60 900
  | RunRetentionPolicies => lockOptions 60 1800
  | OutboxPoll => lockOptions (poll + 5) 300
  | OutboxCleanup => lockOptions 60 900
  | ReconcileBets | ReconcilePredictions => lockOptions 70 600
  | PayoutReconciliation => lockOptions 120 900
  | CreateRound | CloseEligibleRounds => lockOptions 30 180
  end.

(** [withDistributedLock]: the job is not run unless the lock is granted. *)
Definition withDistributedLock {A} (granted : option LockHandle) (job : LockHandle -> Svc A) : Svc (option A) :=
  match granted with
  | None => ret None
  | Some lock => r <- job lock ;; ret (Some r)
  end.

(** [try { return m } catch] as a value. *)
Definition attempt {A} (m : Svc A) : Svc (Err + A) := fun w => let '(r, w') := m w in (inr r, w').

Section Jobs.
Context `{Env} `{DecimalJs} `{PgNumeric}.

Definition checkpoint (job : Job) (lock : LockHandle) (i : nat) : Svc unit :=
  match lock i with
  | Some reason => throw (LockLostError (lockName job) reason)
  | None => ret tt
  end.

(** The catch clause of a job that has counted no items. *)
Definition onJobError (e : Err) : Svc JobReport :=
  ret (mkReport (Some (if isLockLostError e then job_aborted else job_failure)) []).

(** The catch clause of the jobs without metrics. *)
Definition onQuietError (_ : Err) : Svc JobReport := ret (mkReport None []).

(** ** Rounds that have ended *)

Definition RESOLVE_BUFFER_MS : Z := 15000.

Definition endedRound (bufferTime : Z) (r : Round) : bool :=
  bool_decide (r_status r = ACTIVE \/ r_status r = LOCKED) && (r_endTime r <=? bufferTime).

(** The loop over the ended rounds; an error that leaves it is returned with
    the items counted so far. *)
Fixpoint resolveBatch (lock : LockHandle) (i : nat) (price : Q) (batch : list Round)
    (items : list (string * JobOutcome)) : Svc (list (string * JobOutcome) * option Err) :=
  match batch with
  | [] => ret (items, None)
  | round :: rest =>
      match lock i with
      | Some reason => ret (items, Some (LockLostError (lockName AutoResolveRounds) reason))
      | None =>
          r <- attempt (resolveRound None (r_id round) (DecimalArg price)) ;;
          match r with
          | inl e =>
              if isLockLostError e then ret (items, Some e)
              else resolveBatch lock (S i) price rest (items ++ [(r_id round, job_failure)])
          | inr (ResUpdated _) => resolveBatch lock (S i) price rest (items ++ [(r_id round, job_success)])
          | inr (ResAlreadyResolved _) => resolveBatch lock (S i) price rest (items ++ [(r_id round, job_no_op)])
          | inr ResNoOp => resolveBatch lock (S i) price rest items
          end
      end
  end.

(** A usable price of the oracle: there is one, it is positive and fresh. *)
Definition usablePrice (price : option Q) : option Q :=
  match price with
  | None => None
  | Some p => if Qle_bool p 0 then None else if env_oracleStale then None else Some p
  end.

Definition autoResolveRounds (price : option Q) (lock : LockHandle) : Svc JobReport :=
  t <- now ;;
  expiredRounds <- findMany (endedRound (t - RESOLVE_BUFFER_MS)) unordered ;;
  match expiredRounds with
  | [] => ret (mkReport (Some job_no_op) [])
  | _ =>
      match usablePrice price with
      | None => ret (mkReport (Some job_skipped) [])
      | Some currentPrice =>
          r <- resolveBatch lock 0 currentPrice expiredRounds [] ;;
          let '(items, error) := r in
          ret (mkReport (Some (match error with
                               | None => job_success
                               | Some e => if isLockLostError e then job_aborted else job_failure
                               end)) items)
      end
  end.

(** ** Opening and locking rounds *)

(** [process.env.ROUND_SCHEDULER_MODE] *)
Definition getMode (env : option string) : GameMode :=
  match truthy env with
  | Some m => if String.eqb m "LEGENDS" then LEGENDS else UP_DOWN
  | None => UP_DOWN
  end.

Definition createRoundJob (mode : option string) (price : option Q) (lock : LockHandle) : Svc JobReport :=
  match usablePrice price with
  | None => ret (mkReport (Some job_skipped) [])
  | Some startPrice =>
      catch
        (existingActiveRound <- findFirst (isActiveOf (getMode mode)) unordered ;;
         match existingActiveRound with
         | Some _ => ret (mkReport (Some job_no_op) [])
         | None =>
             checkpoint CreateRound lock 0 ;;;
             round <- startRound (getMode mode) (NumberArg (toNumber startPrice)) 1 [] ;;
             ret (mkReport (Some job_success) [(r_id round, job_success)])
         end)
        (fun error =>
           if isLockLostError error then ret (mkReport (Some job_aborted) [])
           else ret (mkReport (Some (if String.eqb (err_code error) ACTIVE_ROUND_EXISTS then job_no_op
                                     else job_failure)) []))
  end.

(** The metric counts the rounds found, not the rounds locked. *)
Definition closeEligibleRounds (lock : LockHandle) : Svc JobReport :=
  catch
    (t <- now ;;
     expiredRounds <- findMany (RoundService.expired t) unordered ;;
     match expiredRounds with
     | [] => ret (mkReport (Some job_no_op) [])
     | _ =>
         checkpoint CloseEligibleRounds lock 0 ;;;
         autoLockExpiredRounds ;;;
         ret (mkReport (Some job_success) (map (fun r => (r_id r, job_success)) expiredRounds))
     end)
    onJobError.

(** ** The outbox *)

Definition replayEmit (eventName room : option string) : Svc unit :=
  match truthy eventName, truthy room with
  | Some e, Some r => emit e r
  | None, _ => throw (PlainError "Missing eventName for websocket replay")
  | Some _, None => throw (PlainError "Missing room for websocket replay")
  end.

Definition field (k : string) (payload : Json) : option Json :=
  match payload with JObj fs => jsonField k fs | _ => None end.

Definition notificationTypeOf (s : string) : option NotificationType :=
  find (fun t => String.eqb (NotificationType_str t) s)
    [N_WIN; N_LOSS; N_ROUND_START; N_BONUS_AVAILABLE; N_ANNOUNCEMENT].

(** [payload as CreateNotificationInput]; the database refuses other shapes. *)
Definition notificationInputOf (payload : Json) : option CreateNotificationInput :=
  match payloadString "userId" payload, payloadString "type" payload, payloadString "title" payload,
        payloadString "message" payload with
  | Some u, Some t, Some title, Some m =>
      option_map (fun t => mkNotificationInput u t title m (default JNull (field "data" payload))) (notificationTypeOf t)
  | _, _, _, _ => None
  end.

(** [emitBetAccepted]: to the general room, then to the round's own. *)
Definition emitBetAccepted (roundId : option string) : Svc unit :=
  emit "bet:accepted" "round" ;;;
  match truthy roundId with
  | Some r => emit "bet:accepted" ("round:" +:+ r)
  | None => ret tt
  end.

(** The text of a template literal with a member that is there. *)
Definition userRoom (payload : Json) : option string :=
  Some ("user:" +:+ default "undefined"%string (payloadString "userId" payload))%string.

Definition buildOutboxHandlers : OutboxDispatchHandlers := {|
  oh_notificationCreate payload :=
    input <- orThrow (notificationInputOf payload) (PrismaError "") ;;
    createNotificationForRetry input ;;;
    ret tt;
  oh_websocketEmit payload := replayEmit (payloadString "eventName" payload) (payloadString "room" payload);
  oh_betAccepted payload :=
    orThrow (field "amount" payload) (PlainError "Cannot read properties of undefined (reading 'toString')") ;;;
    emitBetAccepted (payloadString "roundId" payload);
  oh_betConfirmed payload :=
    replayEmit (Some "bet:confirmed"%string) (Some "round"%string) ;;;
    match truthy (payloadString "roundId" payload) with
    | Some r => replayEmit (Some "bet:confirmed"%string) (Some ("round:" +:+ r)%string)
    | None => ret tt
    end;
  oh_betResolved payload := replayEmit (Some "bet:resolved"%string) (userRoom payload);
  oh_betFailed payload := replayEmit (Some "bet:failed"%string) (userRoom payload);
|}.

Definition pollOutbox (batchSize : nat) (maxAttempts : Z) (lock : LockHandle) : Svc JobReport :=
  catch
    (checkpoint OutboxPoll lock 0 ;;;
     processOutbox buildOutboxHandlers batchSize maxAttempts ;;;
     ret (mkReport None []))
    onQuietError.

Definition cleanupOutbox (retentionDays : Z) (lock : LockHandle) : Svc JobReport :=
  catch
    (checkpoint OutboxCleanup lock 0 ;;;
     cleanupProcessed retentionDays ;;;
     ret (mkReport None []))
    onQuietError.

(** ** Housekeeping and reconciliation *)

(** notification.service.ts *)
Definition deleteOldNotifications (daysOld : Z) : Svc nat :=
  t <- now ;;
  deleteMany (fun n : Notification => n_createdAt n <? t - daysOld * DAY_MS).

Definition cleanupOldNotifications (retentionDays : Z) (lock : LockHandle) : Svc JobReport :=
  catch
    (checkpoint CleanupOldNotifications lock 0 ;;;
     n <- deleteOldNotifications retentionDays ;;
     ret (mkReport (Some job_success) (replicate n ("notification"%string, job_success))))
    onJobError.

(** The items of the reconciliations: one for each row checked. *)
Definition checkedItems (kind : string) (n : nat) : list (string * JobOutcome) := replicate n (kind, job_success).

Definition onErrors (errors : nat) : JobOutcome := if (0 <? errors)%nat then job_failure else job_success.

Definition reconcileBets (cfg : ReconciliationConfig) (lock : LockHandle) : Svc JobReport :=
  catch
    (checkpoint ReconcileBets lock 0 ;;;
     result <- reconcileSubmittedBets cfg ;;
     ret (mkReport (Some (onErrors (rc_errors result))) (checkedItems "bet" (rc_checked result))))
    onJobError.

Definition reconcilePredictionsJob (cfg : PredictionReconciliationConfig) (lock : LockHandle) : Svc JobReport :=
  catch
    (checkpoint ReconcilePredictions lock 0 ;;;
     result <- reconcilePredictions cfg ;;
     ret (mkReport (Some (onErrors (rr_errors result))) (checkedItems "prediction" (rr_checked result))))
    onJobError.

Definition reconcilePayouts (cfg : PayoutReconciliationConfig) (lock : LockHandle) : Svc JobReport :=
  catch
    (checkpoint PayoutReconciliation lock 0 ;;;
     result <- run cfg ;;
     ret (mkReport (Some (if (0 <? pr_flagged result)%nat then job_flagged else onErrors (pr_errors result)))
            (checkedItems "payout" (pr_checked result))))
    onJobError.

(** ** Which code a job runs *)

Record JobSettings : Type := mkJobSettings {
  js_price : option Q;
  js_mode : option string;
  js_notificationDays : Z;
  js_outboxBatch : nat;
  js_outboxAttempts : Z;
  js_outboxDays : Z;
  js_bets : ReconciliationConfig;
  js_predictions : PredictionReconciliationConfig;
  js_payouts : PayoutReconciliationConfig;
}.

(** The retention policies work on tables of their own ([Retention]). *)
Definition runJob (cfg : JobSettings) (job : Job) : option (LockHandle -> Svc JobReport) :=
  match job with
  | AutoResolveRounds => Some (autoResolveRounds (js_price cfg))
  | CleanupOldNotifications => Some (cleanupOldNotifications (js_notificationDays cfg))
  | RunRetentionPolicies => None
  | OutboxPoll => Some (pollOutbox (js_outboxBatch cfg) (js_outboxAttempts cfg))
  | OutboxCleanup => Some (cleanupOutbox (js_outboxDays cfg))
  | ReconcileBets => Some (reconcileBets (js_bets cfg))
  | ReconcilePredictions => Some (reconcilePredictionsJob (js_predictions cfg))
  | PayoutReconciliation => Some (reconcilePayouts (js_payouts cfg))
  | CreateRound => Some (createRoundJob (js_mode cfg) (js_price cfg))
  | CloseEligibleRounds => Some closeEligibleRounds
  end.
End Jobs.

(** ** A lost lock stops the job *)

Section FailClosed.
Context `{Env} `{DecimalJs} `{PgNumeric}.

(** The lock is never lost. *)
Definition heldThroughout : LockHandle := fun _ => None.

(** From the first checkpoint at which the lock is lost nothing is resolved:
    the batch is cut there. *)
Lemma batch_cut lock price reason batch : forall n i items w,
  (forall j, (i <= j < i + n)%nat -> lock j = None) -> lock (i + n)%nat = Some reason -> (n < length batch)%nat ->
  resolveBatch lock i price batch items w =
  match resolveBatch heldThroughout i price (take n batch) items w with
  | (inr (items', None), w') => (inr (items', Some (LockLostError (lockName AutoResolveRounds) reason)), w')
  | r => r
  end.
Proof.
  induction batch as [|round rest IH]; intros n i items w Hbefore Hlost Hlen; [cbn in Hlen; lia|].
  destruct n as [|n].
  - rewrite Nat.add_0_r in Hlost. cbn [resolveBatch take]. by rewrite Hlost.
  - cbn [resolveBatch take]. rewrite (Hbefore i) by lia. unfold heldThroughout at 1, bind, attempt.
    cbn [length] in Hlen. destruct (resolveRound None (r_id round) (DecimalArg price) w) as [[e|[| |r']] w1];
      [destruct (isLockLostError e); [reflexivity|]|..];
      (apply IH; [intros j Hj; apply Hbefore; lia|by rewrite Nat.add_succ_comm|lia]).
Qed.

(** No job does anything once its lock is lost. With the lock lost at the first
    checkpoint a job leaves the world as it found it; the batch of ended
    rounds, losing it at a later one, has resolved exactly the rounds before
    that, and reports that it was aborted unless it failed earlier. *)
Theorem lost_lock_stops cfg lock reason w :
  (forall job run, lock 0%nat = Some reason -> runJob cfg job = Some run -> final (run lock) w = w) /\
  (forall n price batch,
     (forall j, (j < n)%nat -> lock j = None) -> lock n = Some reason -> (n < length batch)%nat ->
     final (resolveBatch lock 0 price batch []) w = final (resolveBatch heldThroughout 0 price (take n batch) []) w /\
     exists items e, value (resolveBatch lock 0 price batch []) w = inr (items, Some e) /\ isLockLostError e = true).
Proof.
  split.
  - intros job run Hl Hr. destruct job; try discriminate Hr; injection Hr as <-;
      try (unfold cleanupOldNotifications, pollOutbox, cleanupOutbox, reconcileBets, reconcilePredictionsJob, reconcilePayouts,
             final, catch, checkpoint, bind, throw; rewrite Hl; reflexivity).
    + unfold autoResolveRounds, final, bind, now, findMany, gets.
      match goal with |- context [sortBy unordered ?l] => destruct (sortBy unordered l) as [|r rest] end; [reflexivity|].
      destruct (usablePrice (js_price cfg)); [|reflexivity]. cbn [resolveBatch]. by rewrite Hl.
    + unfold createRoundJob. destruct (usablePrice (js_price cfg)); [|reflexivity].
      unfold final, catch, bind at 1, findFirst, gets.
      match goal with |- context [head ?l] => destruct (head l) end; [reflexivity|].
      unfold checkpoint, bind, throw. rewrite Hl. reflexivity.
    + unfold closeEligibleRounds, final, catch, bind, now, findMany, gets.
      match goal with |- context [sortBy unordered ?l] => destruct (sortBy unordered l) as [|r rest] end; [reflexivity|].
      unfold checkpoint, throw. rewrite Hl. reflexivity.
  - intros n price batch Hb Hl Hlen. unfold final, value.
    rewrite (batch_cut lock price reason batch n 0 [] w); [|intros; apply Hb; lia|done|done].
    assert (Hinr : forall i items batch w', exists r, resolveBatch heldThroughout i price batch items w' = r /\
      match fst r with inr (_, Some e) => isLockLostError e = true | inr (_, None) => True | inl _ => False end).
    { clear. intros i items batch. revert i items. induction batch as [|r rest IH]; intros i items w; cbn [resolveBatch];
        [eexists; split; [reflexivity|done]|].
      unfold heldThroughout at 1, bind, attempt.
      destruct (resolveRound None (r_id r) (DecimalArg price) w) as [[e|[| |r']] w1]; try apply IH.
      destruct (isLockLostError e) eqn:He; [|apply IH]. eexists. split; [reflexivity|exact He]. }
    destruct (Hinr 0%nat [] (take n batch) w) as (r & -> & Hr).
    destruct r as [[e|[items [e|]]] w']; [done|..]; split; try reflexivity; eauto.
Qed.
End FailClosed.

(** ** Settlements one after the other *)

Section Batch.
Context `{Env} `{DecimalJs} `{PgNumeric}.

(** A payment leaves the row's identifier and round alone. *)
Definition keepsRow (x : Payment) : Prop :=
  forall p, p_id (pay_row x p) = p_id p /\ p_roundId (pay_row x p) = p_roundId p.

Lemma setOutcome_keeps p won payout f : keepsRow (mkPayment p (setOutcome won payout) f).
Proof. intros q. split; reflexivity. Qed.

Lemma payments_rows r preds price x :
  x ∈ payments r preds price -> pay_pred x ∈ preds /\ keepsRow x.
Proof.
  assert (Hmap : forall f : Prediction -> Payment, (forall p, pay_pred (f p) = p /\ keepsRow (f p)) ->
            x ∈ map f preds -> pay_pred x ∈ preds /\ keepsRow x).
  { intros f Hf (p & -> & Hp)%list_elem_of_fmap. destruct (Hf p) as [-> ?]. auto. }
  unfold payments, upDownPayments, legendsPayments. destruct (r_mode r).
  - destruct (winningSide _ _) as [side|]; [destruct (decEq _ _); [by intros ?%not_elem_of_nil|]|];
      apply Hmap; intros p; split; try reflexivity; try apply setOutcome_keeps.
  - destruct (parseRoundPriceRanges _) as [e|ranges]; [by intros ?%not_elem_of_nil|].
    destruct (findWinningRange _ _) as [win|];
      [destruct (decEq _ _)|]; try (apply Hmap; intros p; split; [reflexivity|apply setOutcome_keeps]).
    rewrite list_elem_of_In, in_flat_map. intros (p & Hp & Hx). apply list_elem_of_In in Hp.
    unfold legendsResultOf in Hx. destruct (validateUserPriceRange _); [|destruct Hx].
    destruct Hx as [<-|[]]. split; [exact Hp|apply setOutcome_keeps].
Qed.

(** Paying the predictions of one round touches no row of another. *)
Lemma payTables_round rid l : forall us ps,
  Forall keepsRow l -> Forall (fun x => forall q, ps !! p_id (pay_pred x) = Some q -> p_roundId q = rid) l ->
  let ps' := snd (payTables us ps l) in
  (forall k p, p_roundId p <> rid -> ps' !! k = Some p <-> ps !! k = Some p) /\
  (idsMatch ps -> idsMatch ps').
Proof.
  induction l as [|x l IH]; intros us ps Hk Hr ps'; [split; [done|auto]|].
  apply Forall_cons in Hk as [Hx Hk]. apply Forall_cons in Hr as [Hrx Hr].
  set (ps1 := alter (pay_row x) (p_id (pay_pred x)) ps).
  assert (Hr1 : Forall (fun y => forall q, ps1 !! p_id (pay_pred y) = Some q -> p_roundId q = rid) l).
  { eapply Forall_impl; [exact Hr|]. cbn. intros y Hy q. unfold ps1.
    destruct (decide (p_id (pay_pred x) = p_id (pay_pred y))) as [E|Hne].
    - rewrite <- E, lookup_alter_eq. intros (q0 & Hq0 & ->)%fmap_Some. rewrite (proj2 (Hx q0)). by apply Hrx.
    - rewrite lookup_alter_ne by done. apply Hy. }
  destruct (IH (alter (pay_user x) (p_userId (pay_pred x)) us) ps1 Hk Hr1) as [IH1 IH2].
  change ps' with (snd (payTables (alter (pay_user x) (p_userId (pay_pred x)) us) ps1 l)). split.
  - intros k p Hp. rewrite (IH1 k p Hp). unfold ps1.
    destruct (decide (p_id (pay_pred x) = k)) as [<-|Hne]; [|by rewrite lookup_alter_ne].
    rewrite lookup_alter_eq. destruct (ps !! p_id (pay_pred x)) as [q|] eqn:Hq; [|done]. cbn.
    specialize (Hrx q eq_refl). split; intros [= <-]; [|done]. rewrite (proj2 (Hx q)) in Hp. done.
  - intros Hid. apply IH2. intros k p. unfold ps1.
    destruct (decide (p_id (pay_pred x) = k)) as [<-|Hne]; [|rewrite lookup_alter_ne by done; apply Hid].
    rewrite lookup_alter_eq. intros (q & Hq & ->)%fmap_Some. rewrite (proj1 (Hx q)). by apply Hid.
Qed.

(** Rows stored under their identifiers. *)
Record keyed (d : DB) : Prop := {
  keyed_rounds : forall k r, rounds d !! k = Some r -> r_id r = k;
  keyed_predictions : idsMatch (predictions d);
}.

(** A settlement the batch has made: the round and its predictions. *)
Definition Settlement : Type := Round * list Prediction.

Definition settledId (s : Settlement) : string := r_id (fst s).

Definition owed (price : Q) (l : list Settlement) : list Payment :=
  flat_map (fun s => payments (fst s) (snd s) price) l.

(** The round was LOCKED and the predictions are its confirmed ones, each once. *)
Definition settlementOf (d : DB) (s : Settlement) : Prop :=
  rounds d !! settledId s = Some (fst s) /\ r_status (fst s) = LOCKED /\
  snd s ≡ₚ rowsWhere (settleable (settledId s)) d.

Lemma settlementOf_same d d' s :
  rounds d' = rounds d -> predictions d' = predictions d -> settlementOf d' s -> settlementOf d s.
Proof. intros Hr Hp. unfold settlementOf, rowsWhere, tbl, Table_Prediction. by rewrite Hr, Hp. Qed.

Definition succeeded (items : list (string * JobOutcome)) : list string :=
  omap (fun x => match snd x with job_success => Some (fst x) | _ => None end) items.

(** What a batch has done to the tables. *)
Record batchDone (price : Q) (d d' : DB) (items : list (string * JobOutcome)) (paid : list Settlement) : Prop := {
  bd_items : succeeded items = map settledId paid;
  bd_paid : Forall (settlementOf d) paid;
  bd_money : (users d', predictions d') = payTables (users d) (predictions d) (owed price paid);
  bd_rounds : forall k, k ∉ map settledId paid -> rounds d' !! k = rounds d !! k;
  bd_resolved : forall k, k ∈ map settledId paid -> exists r', rounds d' !! k = Some r' /\ r_status r' = RESOLVED;
  bd_others : forall k p, p_roundId p ∉ map settledId paid -> predictions d' !! k = Some p <-> predictions d !! k = Some p;
  bd_keyed : keyed d';
}.

Lemma batchDone_same price d d' : keyed d ->
  users d' = users d -> predictions d' = predictions d -> rounds d' = rounds d ->
  forall items, succeeded items = [] -> batchDone price d d' items [].
Proof.
  intros [K1 K2] Hu Hp Hr items Hi. split; rewrite ?Hu, ?Hp, ?Hr; try done.
  - intros k ?%not_elem_of_nil. done.
  - split; rewrite ?Hr, ?Hp; assumption.
Qed.

Lemma settleable_round rid p : settleable rid p = true -> p_roundId p = rid.
Proof. unfold settleable. intros [E _]%andb_prop. by apply String.eqb_eq. Qed.

(** One settlement of the batch. *)
Lemma one_settlement price roundId w r' w1 :
  w_base w = None -> keyed (w_db w) -> resolveRound None roundId (DecimalArg price) w = (inr (ResUpdated r'), w1) ->
  w_base w1 = None /\ exists s, settledId s = roundId /\ settlementOf (w_db w) s /\
    (users (w_db w1), predictions (w_db w1)) = payTables (users (w_db w)) (predictions (w_db w)) (payments (fst s) (snd s) price) /\
    rounds (w_db w1) = <[roundId := r']> (rounds (w_db w)) /\ r_status r' = RESOLVED /\ keyed (w_db w1) /\
    (forall k p, p_roundId p <> roundId -> predictions (w_db w1) !! k = Some p <-> predictions (w_db w) !! k = Some p).
Proof.
  intros Hb [K1 K2] Hr. destruct (resolveRound_updated None roundId (DecimalArg price) w r' w1 Hb Hr)
    as (Hb1 & r & preds & Hround & Hst & Hpreds & Hpay & Hrounds & Hst' & _ & Hid').
  change (toDecimal_any (DecimalArg price)) with price in Hpay.
  split; [exact Hb1|]. exists (r, preds). pose proof (K1 _ _ Hround) as Hid. unfold settledId; cbn [fst snd].
  split; [exact Hid|]. unfold settlementOf, settledId; cbn [fst snd]. rewrite Hid.
  split; [split; [exact Hround|split; [exact Hst|exact Hpreds]]|]. split; [exact Hpay|]. split; [exact Hrounds|].
  split; [exact Hst'|].
  assert (Hrows : Forall keepsRow (payments r preds price) /\
    Forall (fun x => forall q, predictions (w_db w) !! p_id (pay_pred x) = Some q -> p_roundId q = roundId) (payments r preds price)).
  { split; apply Forall_forall; intros x [Hin Hk]%payments_rows; [exact Hk|]. intros q Hq.
    rewrite Hpreds in Hin. apply rowsWhere_spec in Hin as [[k Hk'] Hs]. cbn in Hk'. rewrite (K2 _ _ Hk') in Hq. rewrite Hk' in Hq. injection Hq as <-.
    by apply settleable_round. }
  destruct (payTables_round roundId (payments r preds price) (users (w_db w)) (predictions (w_db w)) (proj1 Hrows) (proj2 Hrows))
    as [Hother Hidm]. rewrite <- Hpay in Hother, Hidm. cbn [snd] in Hother, Hidm. split; [|exact Hother]. split; [|by apply Hidm].
  rewrite Hrounds. intros k x [[<- <-]|[_ Hk]]%lookup_insert_Some; [congruence|by apply K1].
Qed.

(** The settlements made later are settlements of the earlier database. *)
Lemma settlementOf_back d d1 s :
  rounds d1 !! settledId s = rounds d !! settledId s ->
  (forall k p, p_roundId p = settledId s -> predictions d1 !! k = Some p <-> predictions d !! k = Some p) ->
  settlementOf d1 s -> settlementOf d s.
Proof.
  intros Hr Hp (H1' & H2' & H3'). split; [by rewrite <- Hr|]. split; [exact H2'|]. rewrite H3'.
  apply (rowsWhere_ext (Row := Prediction)). intros k p Hs%settleable_round. by apply Hp.
Qed.

Lemma batch_step price d d1 d2 s items paid name :
  settlementOf d s -> keyed d1 -> settledId s ∉ map settledId paid ->
  (users d1, predictions d1) = payTables (users d) (predictions d) (payments (fst s) (snd s) price) ->
  (exists r', rounds d1 = <[settledId s := r']> (rounds d) /\ r_status r' = RESOLVED) ->
  (forall k p, p_roundId p <> settledId s -> predictions d1 !! k = Some p <-> predictions d !! k = Some p) ->
  batchDone price d1 d2 items paid -> name = settledId s ->
  batchDone price d d2 ((name, job_success) :: items) (s :: paid).
Proof.
  intros Hs K1 Hnin Hpay (r' & Hr & Hst) Hp [B1 B2 B3 B4 B5 B6 B7] ->.
  assert (Hne : forall k, k <> settledId s -> rounds d1 !! k = rounds d !! k)
    by (intros k Hk; rewrite Hr; by apply lookup_insert_ne).
  split; [change (settledId s :: succeeded items = settledId s :: map settledId paid); by rewrite B1| | | | | |exact B7].
  - constructor; [exact Hs|]. apply Forall_forall. intros x Hx. pose proof (proj1 (Forall_forall _ _) B2 x Hx) as Hx'.
    assert (Hx1 : settledId x <> settledId s) by (intros E; apply Hnin; rewrite <- E; apply list_elem_of_fmap; by exists x).
    apply (settlementOf_back d d1); [by apply Hne| |done]. intros k p Hk. apply Hp. congruence.
  - unfold owed in *. cbn [flat_map]. rewrite payTables_app, <- Hpay. exact B3.
  - intros k Hk. cbn [map] in Hk. apply not_elem_of_cons in Hk as [Hk1 Hk2]. by rewrite B4, Hne.
  - intros k Hk. cbn [map] in Hk. destruct (decide (k ∈ map settledId paid)) as [Hin|Hin]; [by apply B5|].
    apply elem_of_cons in Hk as [->|Hk]; [|done]. exists r'. split; [|exact Hst]. rewrite B4 by done. rewrite Hr.
    apply lookup_insert_eq.
  - intros k p Hk. cbn [map] in Hk. apply not_elem_of_cons in Hk as [Hk1 Hk2]. by rewrite B6, Hp.
Qed.

Lemma batch_pays lock price batch : forall i items w,
  w_base w = None -> keyed (w_db w) -> NoDup (map r_id batch) ->
  exists done error w' paid,
    resolveBatch lock i price batch items w = (inr (items ++ done, error), w') /\ w_base w' = None /\
    batchDone price (w_db w) (w_db w') done paid /\ NoDup (map settledId paid) /\
    (forall k, k ∈ map settledId paid -> k ∈ map r_id batch).
Proof.
  induction batch as [|round rest IH]; intros i items w Hb K Hnd; cbn [resolveBatch].
  { exists [], None, w, []. rewrite app_nil_r. split; [done|]. split; [done|]. split; [by apply batchDone_same|]. split; [constructor|done]. }
  change (NoDup (r_id round :: map r_id rest)) in Hnd. apply NoDup_cons in Hnd as [Hnin Hnd].
  assert (Hstop : forall error, exists done error' w' paid,
    (ret (items, error) : Svc (list (string * JobOutcome) * option Err)) w = (inr (items ++ done, error'), w') /\ w_base w' = None /\ batchDone price (w_db w) (w_db w') done paid /\
    NoDup (map settledId paid) /\ (forall k, k ∈ map settledId paid -> k ∈ map r_id (round :: rest))).
  { intros error. exists [], error, w, []. rewrite app_nil_r. split; [done|]. split; [done|]. split; [by apply batchDone_same|].
    split; [constructor|]. by intros k ?%not_elem_of_nil. }
  destruct (lock i) as [reason|]; [apply Hstop|]. unfold bind, attempt.
  destruct (resolveRound None (r_id round) (DecimalArg price) w) as [r w1] eqn:E.
  (* an item that pays nothing *)
  assert (Hskip : forall new, succeeded new = [] -> w_base w1 = None -> users (w_db w1) = users (w_db w) ->
    predictions (w_db w1) = predictions (w_db w) -> rounds (w_db w1) = rounds (w_db w) ->
    exists done error w' paid, resolveBatch lock (S i) price rest (items ++ new) w1 = (inr (items ++ done, error), w') /\ w_base w' = None /\
      batchDone price (w_db w) (w_db w') done paid /\ NoDup (map settledId paid) /\
      (forall k, k ∈ map settledId paid -> k ∈ map r_id (round :: rest))).
  { intros new Hnew Hb1 Hu Hp Hr. assert (K1 : keyed (w_db w1)) by (destruct K; split; rewrite ?Hr, ?Hp; assumption).
    destruct (IH (S i) (items ++ new) w1 Hb1 K1 Hnd) as (done & error & w' & paid & Ho & Hb' & [B1 B2 B3 B4 B5 B6 B7] & Hnp & Hin).
    exists (new ++ done), error, w', paid. rewrite Ho, <- app_assoc. split; [done|]. split; [exact Hb'|]. split; [split|].
    - unfold succeeded in *. rewrite omap_app, Hnew. exact B1.
    - eapply Forall_impl; [exact B2|]. cbn. intros s. by apply settlementOf_same.
    - by rewrite <- Hu, <- Hp.
    - by rewrite <- Hr.
    - exact B5.
    - intros k p Hk. by rewrite B6, Hp.
    - exact B7.
    - split; [exact Hnp|]. intros k Hk. right. by apply Hin. }
  destruct r as [e|[|r'|r']].
  - destruct (resolveRound_failed None _ _ _ _ _ Hb E) as (Hu & Hr & Hp & Hb1).
    destruct (isLockLostError e); [|by apply Hskip]. exists [], (Some e), w1, []. rewrite app_nil_r. split; [done|]. split; [done|].
    split; [by apply batchDone_same|]. split; [constructor|]. by intros k ?%not_elem_of_nil.
  - apply (resolveRound_quiet None _ _ _ _ _ Hb) in E as ->; [|done]. 
    pose proof (Hskip [] eq_refl Hb eq_refl eq_refl eq_refl) as Hn. rewrite app_nil_r in Hn. exact Hn.
  - apply (resolveRound_quiet None _ _ _ _ _ Hb) in E as ->; [|done]. by apply Hskip.
  - destruct (one_settlement _ _ _ _ _ Hb K E) as (Hb1 & s & Hid & Hs & Hpay & Hr & Hst & K1 & Hother).
    destruct (IH (S i) (items ++ [(r_id round, job_success)]) w1 Hb1 K1 Hnd) as (done & error & w' & paid & Ho & Hb' & HB & Hnp & Hin).
    exists ((r_id round, job_success) :: done), error, w', (s :: paid). rewrite Ho, <- app_assoc. split; [done|]. split; [exact Hb'|].
    assert (Hfresh : settledId s ∉ map settledId paid) by (rewrite Hid; intros Hk%Hin; done).
    rewrite <- Hid in Hr, Hother. split; [|split].
    + eapply batch_step; eauto.
    + cbn [map]. by constructor.
    + intros k Hk. cbn [map] in *. apply elem_of_cons in Hk as [->|Hk]; [rewrite Hid; left|right; by apply Hin].
Qed.

Lemma due_rounds gt t d : keyed d -> let batch := sortBy gt (rowsWhere (endedRound (t - RESOLVE_BUFFER_MS)) d) in
  NoDup (map r_id batch) /\
  forall s, settlementOf d s -> settledId s ∈ map r_id batch -> r_endTime (fst s) <= t - RESOLVE_BUFFER_MS.
Proof.
  intros [K1 K2] batch. split.
  - unfold batch. rewrite sortBy_Permutation. apply rows_ids_NoDup. exact K1.
  - intros s (Hs & _) (r & Hid & Hin)%list_elem_of_fmap. apply sorted_rows, rowsWhere_spec in Hin as [[k Hk] Hend].
    change (rounds d !! k = Some r) in Hk. rewrite <- (K1 _ _ Hk), <- Hid, Hs in Hk. injection Hk as ->.
    unfold endedRound in Hend. apply andb_prop in Hend as [_ Hend]. by apply Z.leb_le in Hend.
Qed.

(** A run of the job: it pays nothing without a usable price. *)
Lemma autoResolve_run price lock w : w_base w = None -> keyed (w_db w) ->
  exists report w' paid, autoResolveRounds price lock w = (inr report, w') /\ w_base w' = None /\
    batchDone (default 0%Q price) (w_db w) (w_db w') (jr_items report) paid /\ NoDup (map settledId paid) /\
    Forall (fun s => settlementOf (w_db w) s /\ r_endTime (fst s) <= w_now w - RESOLVE_BUFFER_MS) paid /\
    (paid <> [] -> usablePrice price = Some (default 0%Q price)).
Proof.
  intros Hb K. unfold autoResolveRounds. destruct (due_rounds unordered (w_now w) (w_db w) K) as [Hnd Hdue].
  unfold bind at 1, now, gets. cbn iota. unfold bind at 1, findMany, gets. cbn iota.
  destruct (sortBy unordered _) as [|r0 rest] eqn:Eb; [|destruct (usablePrice price) as [p|] eqn:Ep].
  1, 3: (eexists _, w, []; split; [reflexivity|]; split; [done|]; split; [by apply batchDone_same|]; split; [constructor|];
         split; [constructor|]; done).
  assert (Hp : price = Some p).
  { unfold usablePrice in Ep. destruct price as [q|]; [|done]. destruct (Qle_bool q 0); [done|]. destruct env_oracleStale; [done|]. congruence. }
  destruct (batch_pays lock p (r0 :: rest) 0 [] w Hb K Hnd) as (items & error & w' & paid & Hr & Hb' & HB & Hnp & Hin).
  rewrite (bind_ok _ _ _ _ _ Hr). eexists _, w', paid. split; [reflexivity|]. split; [exact Hb'|]. rewrite Hp. cbn [default].
  split; [exact HB|]. split; [exact Hnp|]. split; [|by intros _].
  apply Forall_forall. intros s Hs. pose proof (proj1 (Forall_forall _ _) (bd_paid _ _ _ _ _ HB) s Hs) as Hset. split; [exact Hset|].
  apply Hdue; [exact Hset|]. apply Hin. apply list_elem_of_fmap. by exists s.
Qed.

Lemma usablePrice_spec price p : usablePrice price = Some p -> price = Some p /\ Qle_bool p 0 = false /\ env_oracleStale = false.
Proof.
  unfold usablePrice. destruct price as [q|]; [|done]. destruct (Qle_bool q 0) eqn:Eq; [done|].
  destruct env_oracleStale; [done|]. by intros [= <-].
Qed.

(** C6. The automatic resolution pays what it owes, once. It never throws; the
    rounds it reports as successes were LOCKED, had ended fifteen seconds ago
    and are all different; balances and predictions are exactly those after
    paying what the specification [payments] owes to each of their confirmed
    predictions once, in order, at a positive and fresh price; these rounds are RESOLVED afterwards and no
    other round has changed. So it is whatever becomes of the lock and however
    many of the settlements fail. *)
Theorem autoResolve_pays price lock w :
  w_base w = None -> keyed (w_db w) ->
  exists report w' paid, autoResolveRounds price lock w = (inr report, w') /\
    succeeded (jr_items report) = map settledId paid /\ NoDup (map settledId paid) /\
    Forall (fun s => settlementOf (w_db w) s /\ r_endTime (fst s) <= w_now w - RESOLVE_BUFFER_MS) paid /\
    (users (w_db w'), predictions (w_db w'))
      = payTables (users (w_db w)) (predictions (w_db w)) (owed (default 0%Q price) paid) /\
    (paid <> [] -> exists p, price = Some p /\ Qle_bool p 0 = false /\ env_oracleStale = false) /\
    (forall k, k ∉ map settledId paid -> rounds (w_db w') !! k = rounds (w_db w) !! k) /\
    (forall k, k ∈ map settledId paid -> exists r', rounds (w_db w') !! k = Some r' /\ r_status r' = RESOLVED).
Proof.
  intros Hb K. destruct (autoResolve_run price lock w Hb K)
    as (report & w' & paid & Hr & _ & [B1 B2 B3 B4 B5 B6 B7] & Hnp & Hset & Hp).
  exists report, w', paid. do 3 (split; [done|]). split; [exact Hset|]. split; [exact B3|]. split; [|auto].
  intros Hne%Hp%usablePrice_spec. by exists (default 0%Q price).
Qed.

(** ** Locking *)

Definition lockIfExpired (t : Z) (r : Round) : Round :=
  if RoundService.expired t r then r {{ r_status := LOCKED }} else r.

Lemma lock_each l : forall n w, NoDup (map r_id l) ->
  Forall (fun r => rounds (w_db w) !! r_id r = Some r /\ r_status r = ACTIVE) l ->
  exists w', foldM (fun n round => outcome <- serviceLockRound (r_id round) ;;
                                   ret (match outcome with UPDATED => S n | _ => n end)) n l w
             = (inr (n + length l)%nat, w') /\
    (forall r, r ∈ l -> rounds (w_db w') !! r_id r = Some (r {{ r_status := LOCKED }})) /\
    (forall k, k ∉ map r_id l -> rounds (w_db w') !! k = rounds (w_db w) !! k).
Proof.
  induction l as [|r l IH]; intros n w Hnd HF; cbn [foldM length].
  { exists w. rewrite Nat.add_0_r. split; [done|]. split; [by intros r ?%not_elem_of_nil|done]. }
  change (NoDup (r_id r :: map r_id l)) in Hnd. apply NoDup_cons in Hnd as [Hnin Hnd].
  apply Forall_cons in HF as [[Hr Hact] HF]. pose proof (lockRound_spec (r_id r) w) as Hs. cbv zeta in Hs.
  rewrite Hr, Hact in Hs. destruct Hs as [Hv [Hrounds _]]. unfold value, final in *.
  unfold serviceLockRound, bind at 1 2. destruct (lockRound (r_id r) w) as [res w1]. cbn in Hv, Hrounds. subst res. unfold ret.
  assert (Hne : forall k, k <> r_id r -> rounds (w_db w1) !! k = rounds (w_db w) !! k)
    by (intros k Hk; rewrite Hrounds; by apply lookup_insert_ne).
  destruct (IH (S n) w1 Hnd) as (w' & Hf & Hin & Hout).
  { eapply Forall_impl; [apply Forall_and; split; [exact HF|]|cbn; intros x [[Hx Ha] Hid]; split; [rewrite Hne; [exact Hx|exact Hid]|exact Ha]].
    apply Forall_forall. intros x Hx E. apply Hnin. rewrite <- E. apply list_elem_of_fmap. by exists x. }
  exists w'. rewrite Nat.add_succ_r. split; [exact Hf|]. split.
  - intros x [->|Hx]%elem_of_cons; [|by apply Hin]. rewrite Hout by done. rewrite Hrounds. apply lookup_insert_eq.
  - intros k Hk. change (k ∉ r_id r :: map r_id l) in Hk. apply not_elem_of_cons in Hk as [Hk1 Hk2]. by rewrite Hout, Hne.
Qed.

(** The closing job locks exactly the rounds that have ended: with the lock
    held every ACTIVE round whose end time has passed is LOCKED afterwards,
    otherwise as it was, no other round changes, and the report counts them. *)
Theorem closeEligibleRounds_spec lock w :
  keyed (w_db w) -> lock 0%nat = None ->
  exists report w', closeEligibleRounds lock w = (inr report, w') /\
    (forall k, rounds (w_db w') !! k = lockIfExpired (w_now w) <$> rounds (w_db w) !! k) /\
    length (jr_items report) = length (rowsWhere (RoundService.expired (w_now w)) (w_db w)).
Proof.
  intros [K1 K2] Hl. unfold closeEligibleRounds, catch.
  unfold bind at 1, now, gets. cbn iota. unfold bind at 1, findMany, gets. cbn iota.
  set (rows := rowsWhere (RoundService.expired (w_now w)) (w_db w)).
  assert (Hrows : forall r, r ∈ sortBy unordered rows <-> rounds (w_db w) !! r_id r = Some r /\ RoundService.expired (w_now w) r = true).
  { intros r. unfold rows. rewrite sorted_rows, rowsWhere_spec. split; intros [Hk He]; (split; [|exact He]).
    - destruct Hk as [k Hk]. change (rounds (w_db w) !! k = Some r) in Hk. by rewrite (K1 _ _ Hk).
    - by exists (r_id r). }
  assert (Hlen : length (sortBy unordered rows) = length rows) by (by rewrite sortBy_Permutation).
  assert (Hnd : NoDup (map r_id (sortBy unordered rows))) by (rewrite sortBy_Permutation; apply rows_ids_NoDup; exact K1).
  assert (Hother : forall k, k ∉ map r_id (sortBy unordered rows) ->
    rounds (w_db w) !! k = lockIfExpired (w_now w) <$> rounds (w_db w) !! k).
  { intros k Hk. destruct (rounds (w_db w) !! k) as [r|] eqn:Hr; [|done]. cbn. f_equal. unfold lockIfExpired.
    destruct (RoundService.expired (w_now w) r) eqn:He; [|done]. destruct Hk. apply list_elem_of_fmap. exists r.
    pose proof (K1 _ _ Hr) as Hid. split; [done|]. apply Hrows. by rewrite Hid. }
  destruct (sortBy unordered rows) as [|r0 rest] eqn:Eb.
  { eexists _, w. split; [reflexivity|]. split; [|by rewrite <- Hlen]. intros k. apply Hother, not_elem_of_nil. }
  rewrite <- Eb in *. unfold checkpoint. rewrite Hl. unfold bind at 1, ret at 1. cbn iota.
  assert (Hlock : exists w', autoLockExpiredRounds w = (inr (length rows), w') /\
    (forall r, r ∈ sortBy unordered rows -> rounds (w_db w') !! r_id r = Some (r {{ r_status := LOCKED }})) /\
    (forall k, k ∉ map r_id (sortBy unordered rows) -> rounds (w_db w') !! k = rounds (w_db w) !! k)).
  { destruct (lock_each (sortBy unordered rows) 0 w Hnd) as (w' & Hf & Hin & Hout).
    { apply Forall_forall. intros r [Hr He]%Hrows. split; [exact Hr|]. unfold RoundService.expired in He.
      apply andb_prop in He as [He _]. by apply bool_decide_eq_true in He. }
    exists w'. rewrite <- Hlen. split; [|auto]. unfold autoLockExpiredRounds, catch.
    unfold bind at 1, now, gets. cbn iota. unfold bind at 1, findMany, gets. cbn iota. fold rows. by rewrite Hf. }
  destruct Hlock as (w' & Ha & Hin & Hout). unfold bind at 1. rewrite Ha. eexists _, w'. split; [reflexivity|].
  split; [|cbn [jr_items]; by rewrite length_map].
  intros k. destruct (decide (k ∈ map r_id (sortBy unordered rows))) as [Hk|Hk]; [|rewrite Hout by done; by apply Hother].
  apply list_elem_of_fmap in Hk as (r & -> & Hr). rewrite (Hin r Hr). apply Hrows in Hr as [-> He]. cbn.
  unfold lockIfExpired. by rewrite He.
Qed.
End Batch.

(** ** What the services announce is delivered *)

Section Delivery.
Context `{Env} `{DecimalJs} `{PgNumeric}.

(** Emissions, the first one first. *)
Definition emitted (l : list (string * string)) (w : World) : World :=
  w {{ w_emits := rev l ++ w_emits w }}.

(** The rooms of a bet: the general one and, when known, its round's. *)
Definition betRooms (b : Bet) : list string :=
  "round"%string :: match truthy (b_roundId b) with Some r => [("round:" +:+ r)%string] | None => [] end.

Lemma truthy_room r : truthy (Some ("round:" +:+ r)%string) = Some ("round:" +:+ r)%string.
Proof. reflexivity. Qed.

Lemma truthy_user u : truthy (Some ("user:" +:+ u)%string) = Some ("user:" +:+ u)%string.
Proof. reflexivity. Qed.

(** C21. The events the bet service and the settlement write are events the poller
    can deliver: each payload has the members its handler reads. Bet events are
    emitted to the rooms of the bet or of its user, whatever optional members
    they carry; a settled prediction becomes a notification of the user with
    the type, title and message of its outcome, given that the user exists and
    the new identifier is free, and an emission to the user's room. *)
Theorem outbox_delivers row b won payout reason txHash tx req userId roundId message amount user input pinput w :
  let deliver ty payload := dispatch (row {{ o_eventType := ty; o_payload := payload }}) buildOutboxHandlers w in
  let accepted request := deliver EV_BET_ACCEPTED (betAcceptedPayload b request tx req) in
  let toRooms event := (inr tt, emitted (map (pair event) (betRooms b)) w) in
  let toUser event u := (inr tt, emitted [(event, ("user:" +:+ u)%string)] w) in
  users (w_db w) !! userId = Some user -> notifications (w_db w) !! env_newid (w_nonce w) = None ->
  accepted (upDownRequest input) = toRooms "bet:accepted"%string /\
  accepted (precisionRequest pinput) = toRooms "bet:accepted"%string /\
  deliver EV_BET_CONFIRMED (betConfirmedPayload b txHash req) = toRooms "bet:confirmed"%string /\
  deliver EV_BET_RESOLVED (betResolvedPayload b won payout req) = toUser "bet:resolved"%string (b_userId b) /\
  deliver EV_BET_FAILED (betFailedPayload b reason req) = toUser "bet:failed"%string (b_userId b) /\
  deliver EV_WEBSOCKET_EMIT (resultEmission roundId userId won message amount) = toUser "notification:new"%string userId /\
  exists w', deliver EV_NOTIFICATION_CREATE (resultNotification roundId userId won message amount) = (inr tt, w') /\
    exists n, notifications (w_db w') = <[env_newid (w_nonce w) := n]> (notifications (w_db w)) /\
      n_userId n = userId /\ n_type n = (if won then N_WIN else N_LOSS) /\ n_title n = winTitle won /\
      n_message n = message /\ n_isRead n = false.
Proof.
  intros deliver accepted toRooms toUser Hu Hn.
  assert (Hrid : forall P : option string -> Prop, P None -> P (Some ""%string) -> (forall c s, P (Some (String c s))) ->
            P (b_roundId b)) by (intros P; destruct (b_roundId b) as [[|]|]; auto).
  unfold toRooms, accepted, deliver, betRooms, betAcceptedPayload, betConfirmedPayload.
  do 3 (split; [revert Hrid; generalize (b_roundId b); intros rid Hrid; apply Hrid; [..|intros c s]; destruct w; reflexivity|]).
  split; [|split; [|split]].
  - destruct w; reflexivity.
  - destruct w; reflexivity.
  - unfold dispatch. cbn [o_eventType o_payload oh_websocketEmit buildOutboxHandlers].
    change (payloadString "eventName" _) with (Some "notification:new"%string).
    change (payloadString "room" _) with (Some ("user:" +:+ userId)%string).
    unfold replayEmit. rewrite truthy_user. destruct w; reflexivity.
  - set (i := mkNotificationInput userId (if won then N_WIN else N_LOSS) (winTitle won) message
                (JObj (("roundId"%string, JStr roundId) :: match amount with Some a => [("amount"%string, JNum (Fin a))] | None => [] end))).
    assert (Hh : forall w', (createNotificationForRetry i ;;; ret tt) w = (inr tt, w') ->
              dispatch (row {{ o_eventType := EV_NOTIFICATION_CREATE; o_payload := resultNotification roundId userId won message amount }})
                buildOutboxHandlers w = (inr tt, w')) by (intros w' <-; unfold i; destruct won; reflexivity).
    unfold createNotificationForRetry, i in Hh. cbn [ni_userId] in Hh.
    destruct w as [[? ? ? ? ? ? ns ? ?] ? ? ? ? ? ? ?]. cbn in Hu, Hn.
    eexists. split.
    + apply Hh. unfold bind, ret, newId, now, findUnique, gets, modify, insertRow. cbn. rewrite Hu. cbn. rewrite Hn. reflexivity.
    + eexists. split; [reflexivity|]. by repeat split.
Qed.
End Delivery.

