(* ===== verification/Retention.v ===== *)
(** * Data retention (src/src/services/retention.service.ts)

    The policies for login challenges, chat messages, audit logs and
    idempotency keys, and the nightly job that runs them. The tables are the
    columns the policies read. The answer of each deletion is [None] when the
    call fails; execution times and logs are left out. *)

From Stdlib Require Import ZArith Lia.
From stdpp Require Import base gmap strings list.
From S2P Require Import Prelude.
From S2P Require Import Errors.
From S2P Require Import DistributedLock.
From S2P Require Import Schema.
From S2P Require Import Outbox.
From S2P Require Import Idempotency.
From S2P Require Import Auth.
From S2P Require Import Resolution.
From S2P Require Import Scheduler.

#[local] Open Scope Z_scope.

Record RetentionPolicy : Type := mkPolicy {
  rp_enabled : bool;
  rp_ttlDays : Z;
  rp_batchSize : Z;
}.

Record RetentionConfig : Type := mkRetentionConfig {
  rt_authChallenges : RetentionPolicy;
  rt_chatMessages : RetentionPolicy;
  rt_auditLogs : RetentionPolicy;
}.

(** [parseInt(raw || fallback, 10)], NaN being [None]; a policy is enabled
    unless the variable is "false". *)
Definition envPolicy (parseInt : string -> option Z) (enabled ttlDays batchSize : option string) (fallbackDays : Z)
    : option RetentionPolicy :=
  let read raw fallback := match truthy raw with Some s => parseInt s | None => Some fallback end in
  match read ttlDays fallbackDays, read batchSize 1000 with
  | Some d, Some b => Some (mkPolicy (negb (bool_decide (enabled = Some "false"%string))) d b)
  | _, _ => None
  end.

Record RetentionResult : Type := mkRetentionResult {
  re_entity : string;
  re_deletedCount : nat;
}.

(** Messages and audit logs by identifier, with the time that counts. *)
Record RetentionWorld : Type := mkRetentionWorld {
  rw_now : Z;
  rw_challenges : gmap string AuthChallenge;
  rw_messages : gmap string Z;
  rw_auditLogs : gmap string Z;
  rw_keys : KeyTable;
}.

Definition Ret (A : Type) : Type := M RetentionWorld Err A.

Definition cutoffDate (policy : RetentionPolicy) (now : Z) : Z := now - rp_ttlDays policy * DAY_MS.

Section Policies.
(** Which of the four deletions succeed. *)
Context (works : nat -> bool) (failure : Err).

(** A deletion that keeps the rows without the mark. *)
Definition deleting {K} `{Countable K} {A} (call : nat) (proj : RetentionWorld -> gmap K A)
    (set : gmap K A -> RetentionWorld -> RetentionWorld) (mark : A -> bool) : Ret nat := fun w =>
  if works call then
    let kept := filter (fun '(_, r) => mark r = false) (proj w) in
    (inr (size (proj w) - size kept)%nat, set kept w)
  else (inl failure, w).

Definition cleanupAuthChallenges (policy : RetentionPolicy) : Ret RetentionResult :=
  if negb (rp_enabled policy) then ret (mkRetentionResult "authChallenges" 0)
  else
    t <- gets rw_now ;;
    n <- deleting 0 rw_challenges (fun m w => w {{ rw_challenges := m }}) (isStale t (cutoffDate policy t)) ;;
    ret (mkRetentionResult "authChallenges" n).

Definition cleanupChatMessages (policy : RetentionPolicy) : Ret RetentionResult :=
  if negb (rp_enabled policy) then ret (mkRetentionResult "chatMessages" 0)
  else
    t <- gets rw_now ;;
    n <- deleting 1 rw_messages (fun m w => w {{ rw_messages := m }}) (fun createdAt => createdAt <? cutoffDate policy t) ;;
    ret (mkRetentionResult "chatMessages" n).

Definition cleanupAuditLogs (policy : RetentionPolicy) : Ret RetentionResult :=
  if negb (rp_enabled policy) then ret (mkRetentionResult "auditLogs" 0)
  else
    t <- gets rw_now ;;
    n <- deleting 2 rw_auditLogs (fun m w => w {{ rw_auditLogs := m }}) (fun timestamp => timestamp <? cutoffDate policy t) ;;
    ret (mkRetentionResult "auditLogs" n).

(** [cleanupExpiredIdempotencyKeys] reports a failure as 0. *)
Definition cleanupKeys : Ret nat :=
  t <- gets rw_now ;;
  catch (deleting 3 rw_keys (fun m w => w {{ rw_keys := m }}) (keyExpired t)) (fun _ => ret 0%nat).

Definition runAllPolicies (cfg : RetentionConfig) : Ret (list RetentionResult) :=
  authResult <- cleanupAuthChallenges (rt_authChallenges cfg) ;;
  chatResult <- cleanupChatMessages (rt_chatMessages cfg) ;;
  auditResult <- cleanupAuditLogs (rt_auditLogs cfg) ;;
  deletedIdempotencyKeys <- cleanupKeys ;;
  ret [authResult; chatResult; auditResult; mkRetentionResult "idempotencyKeys" deletedIdempotencyKeys].

(** The job of the scheduler. *)
Definition runRetentionPolicies (cfg : RetentionConfig) (lock : LockHandle) : Ret JobReport :=
  catch
    (match lock 0%nat with
     | Some reason => throw (LockLostError (lockName RunRetentionPolicies) reason)
     | None => ret tt
     end ;;;
     results <- runAllPolicies cfg ;;
     ret (mkReport (Some job_success)
            (flat_map (fun r => replicate (re_deletedCount r) (re_entity r, job_success)) results)))
    (fun e => ret (mkReport (Some (if isLockLostError e then job_aborted else job_failure)) [])).
End Policies.

(** What a run would delete. *)
Definition getDeletionPreview (cfg : RetentionConfig) (w : RetentionWorld) : nat * nat * nat :=
  let old policy t := t <? cutoffDate policy (rw_now w) in
  (size (filter (fun '(_, r) => isStale (rw_now w) (cutoffDate (rt_authChallenges cfg) (rw_now w)) r = true) (rw_challenges w)),
   size (filter (fun '(_, t) => old (rt_chatMessages cfg) t = true) (rw_messages w)),
   size (filter (fun '(_, t) => old (rt_auditLogs cfg) t = true) (rw_auditLogs w))).

Definition validateConfig (cfg : RetentionConfig) : list string :=
  (if rp_ttlDays (rt_authChallenges cfg) <? 1 then ["Auth challenges TTL must be at least 1 day"%string] else [])
  ++ (if rp_ttlDays (rt_chatMessages cfg) <? 1 then ["Chat messages TTL must be at least 1 day"%string] else [])
  ++ (if rp_ttlDays (rt_auditLogs cfg) <? 1 then ["Audit logs TTL must be at least 1 day"%string] else [])
  ++ (if rp_batchSize (rt_authChallenges cfg) <? 1 then ["Batch size must be at least 1"%string] else []).

(** ** Properties *)

Lemma size_split {K} `{Countable K} {A} (mark : A -> bool) (m : gmap K A) :
  (size m - size (filter (fun '(_, r) => mark r = false) m))%nat = size (filter (fun '(_, r) => mark r = true) m).
Proof.
  assert (E : size m = (size (filter (fun '(_, r) => mark r = true) m) + size (filter (fun '(_, r) => mark r = false) m))%nat).
  { rewrite <- (map_filter_union_complement (fun '(_, r) => mark r = true) m) at 1. rewrite map_size_disj_union by apply map_disjoint_filter_complement.
    f_equal. f_equal. apply map_filter_ext. intros k r _. by destruct (mark r). }
  lia.
Qed.

(** Whether a policy runs its deletion: it and the ones before it are disabled
    or succeed. *)
Definition reaches (works : nat -> bool) (cfg : RetentionConfig) (call : nat) : bool :=
  let passed policy i := negb (rp_enabled policy) || works i in
  match call with
  | 0%nat => rp_enabled (rt_authChallenges cfg) && works 0%nat
  | 1%nat => passed (rt_authChallenges cfg) 0%nat && rp_enabled (rt_chatMessages cfg) && works 1%nat
  | 2%nat => passed (rt_authChallenges cfg) 0%nat && passed (rt_chatMessages cfg) 1%nat
             && rp_enabled (rt_auditLogs cfg) && works 2%nat
  | _ => passed (rt_authChallenges cfg) 0%nat && passed (rt_chatMessages cfg) 1%nat
         && passed (rt_auditLogs cfg) 2%nat && works 3%nat
  end.

(** The rows with the mark are gone if [b], and all others are kept. *)
Definition trimmedIf {K} `{Countable K} {A} (b : bool) (mark : A -> bool) (m m' : gmap K A) : Prop :=
  forall k r, m' !! k = Some r <-> m !! k = Some r /\ (b = true -> mark r = false).

Lemma trimmed_same {K} `{Countable K} {A} (mark : A -> bool) (m : gmap K A) : trimmedIf false mark m m.
Proof. intros k r. split; [done|tauto]. Qed.

Lemma trimmed_filter {K} `{Countable K} {A} (mark : A -> bool) (m : gmap K A) :
  trimmedIf true mark m (filter (fun '(_, r) => mark r = false) m).
Proof. intros k r. rewrite map_lookup_filter_Some. split; intros [? ?]; auto. Qed.

(** A run deletes what is due and nothing else, whatever fails. Challenges go
    when they have expired or are older than their policy allows, messages and
    audit logs when they are older, idempotency keys when they have expired;
    each policy acts exactly when it is enabled, its call succeeds and no
    earlier one has failed, and a failure of the first three is reported while
    the deletions before it stand. A run that ends normally has deleted from
    the first three tables exactly what the preview counted for the enabled
    policies. The job does nothing once its lock is lost. *)
Theorem retention_spec works failure cfg w :
  let r := fst (runAllPolicies works failure cfg w) in
  let w' := snd (runAllPolicies works failure cfg w) in
  let cutoff policy := cutoffDate policy (rw_now w) in
  let old policy t := t <? cutoff policy in
  trimmedIf (reaches works cfg 0) (isStale (rw_now w) (cutoff (rt_authChallenges cfg))) (rw_challenges w) (rw_challenges w') /\
  trimmedIf (reaches works cfg 1) (old (rt_chatMessages cfg)) (rw_messages w) (rw_messages w') /\
  trimmedIf (reaches works cfg 2) (old (rt_auditLogs cfg)) (rw_auditLogs w) (rw_auditLogs w') /\
  trimmedIf (reaches works cfg 3) (keyExpired (rw_now w)) (rw_keys w) (rw_keys w') /\
  match r with
  | inl e => e = failure
  | inr results =>
      let '(a, m, l) := getDeletionPreview cfg w in
      let counted policy n := if rp_enabled policy then n else 0%nat in
      map re_deletedCount (take 3 results) =
        [counted (rt_authChallenges cfg) a; counted (rt_chatMessages cfg) m; counted (rt_auditLogs cfg) l]
  end /\
  forall lock reason, lock 0%nat = Some reason -> snd (runRetentionPolicies works failure cfg lock w) = w.
Proof.
  destruct w as [now cs ms ls ks]. destruct cfg as [[e0 d0 b0] [e1 d1 b1] [e2 d2 b2]]. cbv zeta.
  unfold runAllPolicies, cleanupAuthChallenges, cleanupChatMessages, cleanupAuditLogs, cleanupKeys, deleting, reaches,
    getDeletionPreview, bind, catch, ret, gets.
  cbn [rt_authChallenges rt_chatMessages rt_auditLogs rp_enabled rw_now rw_challenges rw_messages rw_auditLogs rw_keys].
  destruct e0, e1, e2, (works 0%nat), (works 1%nat), (works 2%nat), (works 3%nat);
    cbn [negb orb andb rw_challenges rw_messages rw_auditLogs rw_keys rw_now fst snd];
    (do 4 (split; [first [apply trimmed_same | apply trimmed_filter]|]));
    (split; [first [reflexivity | cbn [take map re_deletedCount]; rewrite ?size_split; reflexivity]|]);
    intros lock reason Hl; unfold runRetentionPolicies, catch, bind, throw; rewrite Hl; reflexivity.
Qed.
