(* ===== verification/NotificationCenter.v ===== *)
(** * A user's notifications (src/src/services/notification.service.ts)

    Reading, marking and deleting them: the pages of the list, and the checks
    that keep users to their own. Their creation is in [RoundService] and
    [Scheduler]. What Prisma answers to [cursor: { id }, skip: 1] is a
    parameter: its documentation only covers a cursor row that is among the
    rows of the query. *)

From Stdlib Require Import ZArith QArith Lia Sorting.Sorted.
From stdpp Require Import base gmap strings list.
From S2P Require Import Prelude.
From S2P Require Import Errors.
From S2P Require Import Schema.
From S2P Require Import Store.
From S2P Require Import JsonText.
From S2P Require Import Pagination.

#[local] Open Scope Z_scope.

Record NotificationDto : Type := mkNotificationDto {
  nd_id : string;
  nd_type : NotificationType;
  nd_title : string;
  nd_message : string;
  nd_data : Json;
  nd_isRead : bool;
  nd_createdAt : string;
}.

Definition toDto `{JsonText} (n : Notification) : NotificationDto :=
  mkNotificationDto (n_id n) (n_type n) (n_title n) (n_message n) (n_data n) (n_isRead n) (dateText (n_createdAt n)).

Definition ownedBy (userId : string) (n : Notification) : bool := String.eqb (n_userId n) userId.

(** [unreadOnly ? { userId, isRead: false } : { userId }] *)
Definition listed (userId : string) (unreadOnly : bool) (n : Notification) : bool :=
  ownedBy userId n && (negb unreadOnly || negb (n_isRead n)).

(** [orderBy: { createdAt: "desc" }], and with [{ id: "desc" }] behind it. *)
Definition olderThan (a b : Notification) : bool := n_createdAt a <? n_createdAt b.

Definition listedAfter (a b : Notification) : bool :=
  (n_createdAt a <? n_createdAt b) || ((n_createdAt a =? n_createdAt b) && String.ltb (n_id a) (n_id b)).

Definition readOne (n : Notification) : Notification := n {{ n_isRead := true }}.

#[local] Arguments ownedBy : simpl never.
#[local] Arguments readOne : simpl never.

(** ** Lists *)

Section Pages.
Context `{CursorCodec}.
(** [findMany] with [cursor: { id }, skip: 1] over the ordered rows. *)
Context (seek : string -> list Notification -> list Notification).

Definition countListed (f : Notification -> bool) : Svc nat := gets (fun w => length (rowsWhere f (w_db w))).

Definition getUserNotifications (userId : string) (limit offset : nat) (unreadOnly : bool)
    : Svc (list Notification * (nat * nat * nat)) :=
  let finalLimit := Nat.min limit 100 in
  rows <- findMany (listed userId unreadOnly) olderThan ;;
  total <- countListed (listed userId unreadOnly) ;;
  ret (take finalLimit (drop offset rows), (total, finalLimit, offset)).

Definition getUserNotificationsOffset (userId : string) (limit offset : nat) (unreadOnly : bool)
    : Svc (list NotificationDto * OffsetMeta) :=
  rows <- findMany (listed userId unreadOnly) olderThan ;;
  total <- countListed (listed userId unreadOnly) ;;
  ret (map toDto (take limit (drop offset rows)), buildOffsetMeta limit offset total).

(** [decoded.id]: Prisma refuses a cursor without a text there. *)
Definition cursorId (v : Json) : option string :=
  match v with
  | JObj fields => match jsonField "id" fields with Some (JStr i) => Some i | _ => None end
  | _ => None
  end.

Definition notificationCursor (n : Notification) : list (string * string) :=
  [("createdAt"%string, dateText (n_createdAt n)); ("id"%string, n_id n)].

Definition getUserNotificationsCursor (userId : string) (limit : nat) (cursor : option string) (unreadOnly : bool)
    : Svc (list NotificationDto * CursorMeta) :=
  decoded <- match usedCursor cursor with
             | None => ret None
             | Some v => i <- orThrow (cursorId v) (PrismaError "") ;; ret (Some i)
             end ;;
  all <- findMany (listed userId unreadOnly) listedAfter ;;
  let rows := take (limit + 1) (match decoded with Some i => seek i all | None => all end) in
  ret (map toDto (trimSentinel rows limit), buildCursorMeta limit rows (fun n => stringObject (notificationCursor n))).
End Pages.

(** ** Single notifications and whole inboxes *)

Definition ownUnread (userId : string) (n : Notification) : bool := ownedBy userId n && negb (n_isRead n).
Definition ownRead (userId : string) (n : Notification) : bool := ownedBy userId n && n_isRead n.

Definition markAsRead (notificationId userId : string) : Svc (option Notification) :=
  notification <- findUnique notificationId ;;
  match notification with
  | None => ret None
  | Some n =>
      if negb (ownedBy userId n) then ret None
      else updated <- update notificationId readOne ;; ret (Some updated)
  end.

Definition markAllAsRead (userId : string) : Svc nat := updateMany (ownUnread userId) readOne.

Definition deleteNotification (notificationId userId : string) : Svc bool :=
  notification <- findUnique notificationId ;;
  match notification with
  | None => ret false
  | Some n =>
      if negb (ownedBy userId n) then ret false
      else deleteById (Row := Notification) notificationId ;;; ret true
  end.

Definition deleteAllRead (userId : string) : Svc nat := deleteMany (ownRead userId).

Definition getNotification (notificationId userId : string) : Svc (option Notification) :=
  notification <- findUnique notificationId ;;
  ret match notification with
      | Some n => if ownedBy userId n then Some n else None
      | None => None
      end.

Definition getUnreadCount (userId : string) : Svc nat := countListed (ownUnread userId).

(** ** Requests *)

Inductive InboxRequest : Type :=
| MarkAsRead (notificationId : string)
| MarkAllAsRead
| DeleteNotification (notificationId : string)
| DeleteAllRead
| GetNotification (notificationId : string)
| GetUnreadCount
| ListPlain (limit offset : nat) (unreadOnly : bool)
| ListByOffset (limit offset : nat) (unreadOnly : bool)
| ListByCursor (limit : nat) (cursor : option string) (unreadOnly : bool).

Inductive InboxResponse : Type :=
| RNotification (n : option Notification)
| RFlag (b : bool)
| RCount (n : nat)
| RList (page : list Notification * (nat * nat * nat))
| ROffsetPage (page : list NotificationDto * OffsetMeta)
| RCursorPage (page : list NotificationDto * CursorMeta).

Section Serving.
Context `{CursorCodec} (seek : string -> list Notification -> list Notification).

Definition serve (userId : string) (request : InboxRequest) : Svc InboxResponse :=
  match request with
  | MarkAsRead i => n <- markAsRead i userId ;; ret (RNotification n)
  | MarkAllAsRead => c <- markAllAsRead userId ;; ret (RCount c)
  | DeleteNotification i => b <- deleteNotification i userId ;; ret (RFlag b)
  | DeleteAllRead => c <- deleteAllRead userId ;; ret (RCount c)
  | GetNotification i => n <- getNotification i userId ;; ret (RNotification n)
  | GetUnreadCount => c <- getUnreadCount userId ;; ret (RCount c)
  | ListPlain limit offset unreadOnly => p <- getUserNotifications userId limit offset unreadOnly ;; ret (RList p)
  | ListByOffset limit offset unreadOnly => p <- getUserNotificationsOffset userId limit offset unreadOnly ;; ret (ROffsetPage p)
  | ListByCursor limit cursor unreadOnly => p <- getUserNotificationsCursor seek userId limit cursor unreadOnly ;; ret (RCursorPage p)
  end.

(** Requests of any users, one after the other, each answer, or error, with its
    user. *)
Fixpoint serveAll (requests : list (string * InboxRequest)) : Svc (list (string * (Err + InboxResponse))) :=
  match requests with
  | [] => ret []
  | (userId, request) :: requests' =>
      a <- catch (r <- serve userId request ;; ret (inr r)) (fun e => ret (inl e)) ;;
      answers <- serveAll requests' ;;
      ret ((userId, a) :: answers)
  end.
End Serving.

(** *** The private inbox a user is promised *)

Notation Inbox := (gmap string Notification).

Definition unread (I : Inbox) : Inbox := filter (fun '(_, n) => n_isRead n = false) I.

(** The inbox after a request. *)
Definition after (request : InboxRequest) (I : Inbox) : Inbox :=
  match request with
  | MarkAsRead i => alter readOne i I
  | MarkAllAsRead => readOne <$> I
  | DeleteNotification i => delete i I
  | DeleteAllRead => unread I
  | _ => I
  end.

(** The rows of a list: the inbox or what is unread in it, each notification
    once, in the order [gt]. *)
Definition listing (gt : Notification -> Notification -> bool) (unreadOnly : bool) (I : Inbox) (rows : list Notification) : Prop :=
  rows ≡ₚ (map_to_list (if unreadOnly then unread I else I)).*2 /\ Sorted (fun a b => gt a b = false) rows.

Section Promise.
Context `{CursorCodec} (seek : string -> list Notification -> list Notification).

(** The answers a private inbox allows; notifications of the same instant come
    in any order in the lists that sort by it alone. *)
Definition permitted (request : InboxRequest) (I : Inbox) (a : Err + InboxResponse) : Prop :=
  match request with
  | MarkAsRead i => a = inr (RNotification (readOne <$> I !! i))
  | MarkAllAsRead => a = inr (RCount (size (unread I)))
  | DeleteNotification i => a = inr (RFlag (bool_decide (is_Some (I !! i))))
  | DeleteAllRead => a = inr (RCount (size I - size (unread I)))
  | GetNotification i => a = inr (RNotification (I !! i))
  | GetUnreadCount => a = inr (RCount (size (unread I)))
  | ListPlain limit offset unreadOnly => exists rows, listing olderThan unreadOnly I rows /\
      a = inr (RList (take (Nat.min limit 100) (drop offset rows), (length rows, Nat.min limit 100, offset)))
  | ListByOffset limit offset unreadOnly => exists rows, listing olderThan unreadOnly I rows /\
      a = inr (ROffsetPage (map toDto (take limit (drop offset rows)), buildOffsetMeta limit offset (length rows)))
  | ListByCursor limit cursor unreadOnly => exists rows, listing listedAfter unreadOnly I rows /\
      let page rows := inr (RCursorPage (map toDto (trimSentinel (take (limit + 1) rows) limit),
                         buildCursorMeta limit (take (limit + 1) rows) (fun n => stringObject (notificationCursor n)))) in
      match usedCursor cursor with
      | None => a = page rows
      | Some v => match cursorId v with
                  | Some i => a = page (seek i rows)
                  | None => a = inl (PrismaError "")
                  end
      end
  end.

(** A user's requests and their answers take the inbox [I] to [I']. *)
Fixpoint privateRun (requests : list InboxRequest) (answers : list (Err + InboxResponse)) (I I' : Inbox) : Prop :=
  match requests, answers with
  | [], [] => I' = I
  | r :: requests', a :: answers' => permitted r I a /\ privateRun requests' answers' (after r I) I'
  | _, _ => False
  end.
End Promise.

(** The part of a trace that is a user's. *)
Definition own {A} (userId : string) (l : list (string * A)) : list A :=
  omap (fun x => if String.eqb (fst x) userId then Some (snd x) else None) l.

Definition inbox (userId : string) (t : gmap string Notification) : Inbox :=
  filter (fun '(_, n) => ownedBy userId n = true) t.

(** ** The inbox is private *)

Definition withNotifications (t : gmap string Notification) (w : World) : World :=
  w {{ w_db := (w_db w) {{ notifications := t }} }}.

#[local] Arguments withNotifications : simpl never.

Lemma ownedBy_true userId n : ownedBy userId n = true <-> n_userId n = userId.
Proof. apply String.eqb_eq. Qed.

Lemma inbox_lookup u t i : inbox u t !! i = match t !! i with Some n => if ownedBy u n then Some n else None | None => None end.
Proof. unfold inbox. rewrite map_lookup_filter. destruct (t !! i) as [n|]; [|done]. cbn. by case_guard; destruct (ownedBy u n). Qed.

Lemma readOne_read n : n_isRead n = true -> readOne n = n.
Proof. destruct n. cbn. by intros ->. Qed.

Lemma count_own u g w :
  length (rowsWhere (fun n => ownedBy u n && g n) (w_db w))
  = size (filter (fun '(_, n) => g n = true) (inbox u (notifications (w_db w)))).
Proof.
  rewrite rowsWhere_length. unfold inbox. rewrite map_filter_filter. f_equal. apply map_filter_ext.
  intros i n _. rewrite andb_true_iff. tauto.
Qed.

(** What a request does to the table of notifications. *)
Definition effect (u : string) (request : InboxRequest) (t : gmap string Notification) : gmap string Notification :=
  match request with
  | MarkAsRead i => if inbox u t !! i then alter readOne i t else t
  | MarkAllAsRead => (fun n => if ownUnread u n then readOne n else n) <$> t
  | DeleteNotification i => if inbox u t !! i then delete i t else t
  | DeleteAllRead => filter (fun '(_, n) => ownRead u n = false) t
  | _ => t
  end.

Lemma owned_readOne u n : ownedBy u (readOne n) = ownedBy u n.
Proof. reflexivity. Qed.

(** Its own user's inbox changes as the private one. *)
Lemma effect_own u request t : inbox u (effect u request t) = after request (inbox u t).
Proof.
  apply map_eq. intros j. rewrite inbox_lookup.
  destruct request; cbn [effect after]; [rename notificationId into i| |rename notificationId into i| |by rewrite inbox_lookup..].
  - destruct (inbox u t !! i) as [x|] eqn:Hi.
    + destruct (decide (i = j)) as [<-|Hne].
      * rewrite !lookup_alter_eq, inbox_lookup. destruct (t !! i) as [n|]; [|done]. cbn. rewrite owned_readOne.
        by destruct (ownedBy u n).
      * by rewrite !lookup_alter_ne, inbox_lookup.
    + rewrite <- inbox_lookup. destruct (decide (i = j)) as [<-|Hne].
      * by rewrite lookup_alter_eq, Hi.
      * by rewrite lookup_alter_ne.
  - rewrite !lookup_fmap, inbox_lookup. destruct (t !! j) as [n|]; [|done]. cbn.
    replace (ownedBy u (if ownUnread u n then readOne n else n)) with (ownedBy u n) by (by destruct (ownUnread u n)).
    unfold ownUnread. destruct (ownedBy u n); [|done]. cbn. destruct (n_isRead n) eqn:Hr; [|done]. cbn.
    by rewrite (readOne_read n Hr).
  - destruct (inbox u t !! i) as [x|] eqn:Hi; (destruct (decide (i = j)) as [<-|Hne];
      [rewrite lookup_delete_eq|rewrite (lookup_delete_ne _ i j Hne)]).
    + by rewrite lookup_delete_eq.
    + by rewrite lookup_delete_ne, inbox_lookup.
    + by rewrite <- inbox_lookup, Hi.
    + by rewrite inbox_lookup.
  - unfold unread. rewrite !map_lookup_filter, inbox_lookup. destruct (t !! j) as [n|]; [|done]. cbn. unfold ownRead.
    destruct (ownedBy u n) eqn:Ho; cbn; destruct (n_isRead n); cbn; repeat case_guard; cbn; rewrite ?Ho; done.
Qed.

(** The others' do not. *)
Lemma effect_other u v request t : u <> v -> inbox v (effect u request t) = inbox v t.
Proof.
  intros Hne. assert (Hx : forall n, ownedBy v n = true -> ownedBy u n = false).
  { unfold ownedBy. intros n Hv%String.eqb_eq. apply String.eqb_neq. congruence. }
  apply map_eq. intros j. rewrite !inbox_lookup. destruct request as [i| |i| | | | | |]; cbn [effect]; try done.
  - destruct (inbox u t !! i) as [x|] eqn:Hi; [|done]. destruct (decide (i = j)) as [<-|Hij]; [|by rewrite lookup_alter_ne].
    rewrite inbox_lookup in Hi. rewrite lookup_alter_eq. destruct (t !! i) as [n|]; [|done]. cbn. rewrite owned_readOne.
    destruct (ownedBy v n) eqn:Hv; [|done]. by rewrite (Hx n Hv) in Hi.
  - rewrite lookup_fmap. destruct (t !! j) as [n|]; [|done]. cbn. unfold ownUnread.
    destruct (ownedBy v n) eqn:Hv.
    + rewrite (Hx n Hv). cbn. by rewrite Hv.
    + by destruct (ownedBy u n && negb (n_isRead n)); rewrite ?owned_readOne, Hv.
  - destruct (inbox u t !! i) as [x|] eqn:Hi; [|done]. destruct (decide (i = j)) as [<-|Hij]; [|by rewrite lookup_delete_ne].
    rewrite inbox_lookup in Hi. rewrite lookup_delete_eq. destruct (t !! i) as [n|]; [|done].
    destruct (ownedBy v n) eqn:Hv; [|done]. by rewrite (Hx n Hv) in Hi.
  - rewrite map_lookup_filter. destruct (t !! j) as [n|]; [|done]. cbn. destruct (ownedBy v n) eqn:Hv.
    + unfold ownRead. rewrite (Hx n Hv). cbn. case_guard; [|done]. cbn. by rewrite Hv.
    + case_guard; cbn; by rewrite ?Hv.
Qed.

Lemma sizes (I : Inbox) : size (filter (fun '(_, n) => n_isRead n = true) I) = (size I - size (unread I))%nat.
Proof.
  assert (E : size I = (size (filter (fun '(_, n) => n_isRead n = true) I) + size (unread I))%nat); [|lia].
  rewrite <- (map_filter_union_complement (fun '(_, n) => n_isRead n = true) I) at 1.
  rewrite map_size_disj_union by apply map_disjoint_filter_complement. do 2 f_equal.
  apply map_filter_ext. intros k n _. by destruct (n_isRead n).
Qed.

Lemma same_notifications w : withNotifications (notifications (w_db w)) w = w.
Proof. by destruct w as [[] ? ? ? ? ? ? ?]. Qed.

Lemma listed_rows gt u unreadOnly w :
  (forall a b, gt a b = true -> gt b a = false) ->
  listing gt unreadOnly (inbox u (notifications (w_db w))) (sortBy gt (rowsWhere (listed u unreadOnly) (w_db w))).
Proof.
  intros Hasym. split; [|by apply sortBy_Sorted]. rewrite sortBy_Permutation, rowsWhere_filter.
  change (tbl (Row := Notification) (w_db w)) with (notifications (w_db w)).
  enough (E : filter (fun '(_, n) => listed u unreadOnly n = true) (notifications (w_db w))
              = if unreadOnly then unread (inbox u (notifications (w_db w))) else inbox u (notifications (w_db w))) by (by rewrite E).
  unfold unread, inbox. destruct unreadOnly; rewrite ?map_filter_filter; apply map_filter_ext; intros k n _; unfold listed.
  - rewrite andb_true_iff. destruct (n_isRead n); cbn; intuition.
  - by rewrite andb_true_r.
Qed.

Lemma olderThan_asym a b : olderThan a b = true -> olderThan b a = false.
Proof. unfold olderThan. intros Hab%Z.ltb_lt. apply Z.ltb_ge. lia. Qed.

Lemma listedAfter_asym a b : listedAfter a b = true -> listedAfter b a = false.
Proof.
  unfold listedAfter.
  destruct (Z.ltb_spec (n_createdAt a) (n_createdAt b)), (Z.eqb_spec (n_createdAt a) (n_createdAt b)),
    (Z.ltb_spec (n_createdAt b) (n_createdAt a)), (Z.eqb_spec (n_createdAt b) (n_createdAt a));
    cbn; try done; try lia. unfold String.ltb. rewrite (String.compare_antisym (n_id a)).
  by destruct (String.compare (n_id b) (n_id a)).
Qed.

Lemma count_listed u unreadOnly gt w :
  length (rowsWhere (listed u unreadOnly) (w_db w)) = length (sortBy gt (rowsWhere (listed u unreadOnly) (w_db w))).
Proof. by rewrite sortBy_Permutation. Qed.

Section Private.
Context `{CursorCodec} (seek : string -> list Notification -> list Notification).

(** One request: the answer is one the private inbox allows. *)
Lemma serve_effect u request w : let t := notifications (w_db w) in
  exists a, serve seek u request w = (a, withNotifications (effect u request t) w) /\ permitted seek request (inbox u t) a.
Proof.
  intros t. assert (Hsame : withNotifications t w = w) by apply same_notifications.
  pose proof (count_own u (fun n => negb (n_isRead n)) w) as Hun. pose proof (count_own u n_isRead w) as Hre.
  fold t in Hun, Hre. rewrite sizes in Hre.
  replace (filter (fun '(_, n) => negb (n_isRead n) = true) (inbox u t)) with (unread (inbox u t)) in Hun
    by (apply map_filter_ext; intros k n _; by destruct (n_isRead n)).
  assert (Hw : forall (f : gmap string Notification -> gmap string Notification),
    (modifyDB (fun d => set_tbl (Row := Notification) (f (tbl d)) d) : Svc unit) w = (inr tt, withNotifications (f t) w))
    by (intros f; by destruct w as [[] ? ? ? ? ? ? ?]).
  destruct request as [i| |i| |i| |limit offset uo|limit offset uo|limit cursor uo]; cbn [serve effect permitted].
  - unfold markAsRead, bind, findUnique, gets, ret.
    change (tbl (Row := Notification) (w_db w)) with t. rewrite !inbox_lookup. eexists. split; [|reflexivity].
    destruct (t !! i) as [n|] eqn:Hn; [|by rewrite Hsame]. destruct (ownedBy u n); cbn [negb]; [|by rewrite Hsame].
    assert (Hn' : tbl (w_db w) !! i = Some n) by exact Hn. rewrite (update_some i readOne w n Hn'). unfold final, putRow. rewrite (Hw (<[i := readOne n]>)).
    enough (E : <[i := readOne n]> t = alter readOne i t) by (cbn [snd]; by rewrite E).
    apply map_eq. intros j. destruct (decide (i = j)) as [<-|Hne].
    + by rewrite lookup_insert_eq, lookup_alter_eq, Hn.
    + by rewrite lookup_insert_ne, lookup_alter_ne.
  - unfold markAllAsRead, updateMany, bind, gets, ret. rewrite (Hw (fmap _)). unfold ownUnread at 1. rewrite Hun. by eexists.
  - unfold deleteNotification, deleteById, bind, findUnique, gets, ret.
    change (tbl (Row := Notification) (w_db w)) with t. rewrite !inbox_lookup. eexists. split; [|reflexivity].
    destruct (t !! i) as [n|] eqn:Hn; [|by rewrite Hsame]. destruct (ownedBy u n); cbn [negb]; [|by rewrite Hsame].
    unfold bind. change (tbl (Row := Notification) (w_db w)) with t. by rewrite Hn, (Hw (delete i)).
  - unfold deleteAllRead, deleteMany, bind, gets, ret. rewrite (Hw (filter _)). unfold ownRead at 1. rewrite Hre. by eexists.
  - unfold getNotification, bind, findUnique, gets, ret. rewrite Hsame, inbox_lookup.
    change (tbl (Row := Notification) (w_db w)) with t. eexists. split; [|reflexivity]. by destruct (t !! i).
  - unfold getUnreadCount, countListed, bind, gets, ret. rewrite Hsame. unfold ownUnread. rewrite Hun. by eexists.
  - rewrite Hsame. unfold getUserNotifications, countListed, bind, findMany, gets, ret. eexists. split; [reflexivity|].
    eexists. split; [exact (listed_rows olderThan u uo w olderThan_asym)|]. by rewrite (count_listed u uo olderThan).
  - rewrite Hsame. unfold getUserNotificationsOffset, countListed, bind, findMany, gets, ret. eexists. split; [reflexivity|].
    eexists. split; [exact (listed_rows olderThan u uo w olderThan_asym)|]. by rewrite (count_listed u uo olderThan).
  - rewrite Hsame. unfold getUserNotificationsCursor, orThrow, bind, findMany, gets, ret.
    destruct (usedCursor cursor) as [v|] eqn:Ec; [destruct (cursorId v) as [i|] eqn:Ei|];
      (eexists; split; [reflexivity|]; eexists; split; [exact (listed_rows listedAfter u uo w listedAfter_asym)|]; rewrite ?Ei; reflexivity).
Qed.

End Private.

(** ** Reading the list *)

Section Reading.
Context `{CursorCodec} (seek : string -> list Notification -> list Notification).

(** A client that follows the cursors; [None] if the fuel runs out. *)
Fixpoint readInbox (fuel : nat) (userId : string) (limit : nat) (cursor : option string) (unreadOnly : bool)
    : Svc (option (list NotificationDto)) :=
  match fuel with
  | O => ret None
  | S fuel' =>
      page <- getUserNotificationsCursor seek userId limit cursor unreadOnly ;;
      match cm_nextCursor (snd page) with
      | None => ret (Some (fst page))
      | Some c =>
          more <- readInbox fuel' userId limit (Some c) unreadOnly ;;
          ret (option_map (app (fst page)) more)
      end
  end.

(** The rows one request selects. *)
Definition fetched (limit : nat) (rows : list Notification) (cursor : option string) : list Notification :=
  take (limit + 1)
    match usedCursor cursor with
    | None => rows
    | Some v => match cursorId v with Some i => seek i rows | None => [] end
    end.

(** The cursor is none, or one the service has written. *)
Definition written (cursor : option string) : Prop :=
  cursor = None \/ exists n, cursor = Some (encodeCursor (stringObject (notificationCursor n))).

Lemma written_id cursor : written cursor ->
  usedCursor cursor = None \/ exists v i, usedCursor cursor = Some v /\ cursorId v = Some i.
Proof.
  intros [->|[n ->]]; [by left|]. right. rewrite cursor_back. by exists (stringObject (notificationCursor n)), (n_id n).
Qed.

Lemma page_fetched userId limit cursor unreadOnly w : written cursor ->
  let us := fetched limit (sortBy listedAfter (rowsWhere (listed userId unreadOnly) (w_db w))) cursor in
  getUserNotificationsCursor seek userId limit cursor unreadOnly w =
    (inr (map toDto (trimSentinel us limit), buildCursorMeta limit us (fun n => stringObject (notificationCursor n))), w).
Proof.
  intros [Hc|(v & i & Hv & Hi)]%written_id us; unfold us, fetched, getUserNotificationsCursor, bind, ret, findMany, gets;
    [by rewrite Hc|by rewrite Hv, Hi].
Qed.

Lemma next_written limit us c :
  cm_nextCursor (buildCursorMeta limit us (fun n => stringObject (notificationCursor n))) = Some c -> written (Some c).
Proof.
  unfold buildCursorMeta, written. cbn [cm_nextCursor]. destruct (limit <? length us)%nat; [|done].
  destruct (last _) as [n|]; cbn; [|done]. intros [= <-]. right. by exists n.
Qed.

Lemma readInbox_readAll userId limit unreadOnly w : forall fuel cursor, written cursor ->
  let rows := sortBy listedAfter (rowsWhere (listed userId unreadOnly) (w_db w)) in
  readInbox fuel userId limit cursor unreadOnly w =
    (inr (option_map (map toDto) (readAll notificationCursor fuel limit (fetched limit rows) cursor)), w).
Proof.
  induction fuel as [|fuel IH]; intros cursor Hc rows; [done|]. cbn [readInbox readAll].
  rewrite (bind_ok _ _ _ _ _ (page_fetched userId limit cursor unreadOnly w Hc)). cbn [fst snd]. fold rows.
  destruct (cm_nextCursor _) as [c|] eqn:Hn; [|done].
  rewrite (bind_ok _ _ _ _ _ (IH (Some c) (next_written _ _ _ Hn))). unfold ret. fold rows. do 2 f_equal.
  destruct (readAll _ fuel _ _ _) as [l|]; cbn; [|done]. by rewrite map_app.
Qed.

Lemma listed_sorted rows : StronglySorted (fun a b => n_createdAt b <= n_createdAt a) (sortBy listedAfter rows).
Proof.
  apply Sorted_StronglySorted; [intros a b c; lia|].
  assert (Hs : Sorted (fun a b => listedAfter a b = false) (sortBy listedAfter rows)).
  { apply sortBy_Sorted, listedAfter_asym. }
  induction Hs as [|x s Hs IH Hd]; constructor; [exact IH|].
  inversion Hd as [|y s' Hxy]; constructor. unfold listedAfter in Hxy.
  apply orb_false_elim in Hxy as [Hxy _]. by apply Z.ltb_ge in Hxy.
Qed.

(** Where the row of a cursor is among the rows of the query, Prisma continues
    behind it. *)
Hypothesis seek_present : forall rows i r,
  NoDup (map n_id rows) -> rows !! i = Some r -> seek (n_id r) rows = drop (S i) rows.

(** A client that follows the cursors reads every notification of the list once,
    the newest first, whatever the size of its pages, and gets to the end; the
    list is the user's, all of it or what is unread; and the pages by offset
    are slices of a list of the same length, which say whether rows follow. *)
Theorem notification_pages userId limit unreadOnly w :
  (1 <= limit)%nat -> (forall k n, notifications (w_db w) !! k = Some n -> n_id n = k) ->
  let rows := sortBy listedAfter (rowsWhere (listed userId unreadOnly) (w_db w)) in
  readInbox (S (length rows)) userId limit None unreadOnly w = (inr (Some (map toDto rows)), w) /\
  StronglySorted (fun a b => n_createdAt b <= n_createdAt a) rows /\
  NoDup (map n_id rows) /\
  (forall n, n ∈ rows <-> (exists k, notifications (w_db w) !! k = Some n) /\ n_userId n = userId /\
                          (unreadOnly = true -> n_isRead n = false)) /\
  (forall offset, exists page meta, getUserNotificationsOffset userId limit offset unreadOnly w = (inr (page, meta), w) /\
     length page = Nat.min limit (length rows - offset) /\ om_total meta = length rows /\
     (om_hasNextPage meta = true <-> (offset + limit < length rows)%nat)).
Proof.
  intros Hl Hkey rows.
  assert (Hnd : NoDup (map n_id rows)) by (unfold rows; rewrite sortBy_Permutation; by apply rows_ids_NoDup).
  split; [|split; [apply listed_sorted|split; [exact Hnd|split]]].
  - rewrite readInbox_readAll by (by left). fold rows.
    rewrite (readAll_all notificationCursor limit rows (fetched limit rows) Hl); [done| |done].
    intros i r Hr. unfold fetched. rewrite cursor_back.
    change (cursorId (stringObject (notificationCursor r))) with (Some (n_id r)). cbn iota. by rewrite (seek_present rows i r Hnd Hr).
  - intros n. unfold rows. rewrite sorted_rows, rowsWhere_spec. change (tbl (Row := Notification) (w_db w)) with (notifications (w_db w)).
    unfold listed. rewrite andb_true_iff, ownedBy_true, orb_true_iff, !negb_true_iff.
    destruct unreadOnly, (n_isRead n); intuition congruence.
  - intros offset. eexists _, _. split; [reflexivity|]. unfold rows. cbn [om_total om_hasNextPage buildOffsetMeta].
    rewrite length_map, length_take, length_drop, !sortBy_Permutation. split; [done|]. split; [done|].
    by rewrite Nat.ltb_lt.
Qed.
End Reading.
