(* ===== verification/RateLimit.v ===== *)
(** * Rate limiting (src/src/socket.ts, src/src/lib/redis.ts, src/src/middleware/rateLimiter.middleware.ts)

    The sliding window of chat messages, and the store of fixed windows behind
    the HTTP limiters: counters that all replicas share in Redis, and windows of
    each process while Redis does not answer. Redis is the interface
    [RedisHash]; replicas and server read one clock. *)

From Stdlib Require Import ZArith Lia Sorting.Sorted.
From stdpp Require Import base gmap strings list.
From S2P Require Import Prelude.
From S2P Require Import Errors.

#[local] Open Scope Z_scope.

(** ** SocketRateLimiter *)

Notation Windows := (gmap string (list Z)).

Section Sliding.
Context (max : nat) (windowMs : Z).

Definition recent (now : Z) (timestamps : list Z) : list Z := filter (fun t => now - t < windowMs) timestamps.

Definition isAllowed (now : Z) (key : string) (windows : Windows) : bool * Windows :=
  let timestamps := recent now (default [] (windows !! key)) in
  if (max <=? length timestamps)%nat then (false, <[key := timestamps]> windows)
  else (true, <[key := timestamps ++ [now]]> windows).

(** Calls one after the other, each at its time, and their answers. *)
Definition answer (acc : list bool * Windows) (call : Z * string) : list bool * Windows :=
  let '(allowed, windows') := isAllowed (fst call) (snd call) (snd acc) in (fst acc ++ [allowed], windows').

Definition runCalls (calls : list (Z * string)) : list bool * Windows := foldl answer ([], ∅) calls.
End Sliding.

Definition resetWindows (key : option string) (windows : Windows) : Windows :=
  match key with
  | Some k => delete k windows
  | None => ∅
  end.

(** 5 messages per 60 seconds *)
Definition CHAT_MAX : nat := 5.
Definition CHAT_WINDOW_MS : Z := 60000.

(** ** RedisRateLimitStore *)

(** A hash and when it expires. *)
Record HashValue : Type := mkHash {
  hv_fields : gmap string Z;
  hv_expiresAt : option Z;
}.

Definition hlive (now : Z) (v : option HashValue) : option HashValue :=
  match v with
  | Some h => match hv_expiresAt h with
              | Some e => if now <? e then Some h else None
              | None => Some h
              end
  | None => None
  end.

Definition hfield (now : Z) (f : string) (v : option HashValue) : option Z := hlive now v ≫= fun h => hv_fields h !! f.

(** Writing a field creates the hash; the expiry of one that is there stays. *)
Definition hwrite (now : Z) (f : string) (z : Z) (v : option HashValue) : HashValue :=
  match hlive now v with
  | Some h => h {{ hv_fields := <[f := z]> (hv_fields h) }}
  | None => mkHash {[f := z]} None
  end.

(** One key of the server, through HGET, HSET, HINCRBY, PEXPIRE and DEL. *)
Class RedisHash : Type := {
  rh_key : Type;
  rh_absent : rh_key;
  rh_view : rh_key -> option HashValue;
  rh_hget : Z -> string -> rh_key -> option Z;
  rh_hset : Z -> string -> Z -> rh_key -> rh_key;
  rh_hincrby : Z -> string -> Z -> rh_key -> Z * rh_key;
  rh_pexpire : Z -> Z -> rh_key -> rh_key;
  rh_del : rh_key -> rh_key;
  rh_absent_view : rh_view rh_absent = None;
  rh_hget_view : forall now f k, rh_hget now f k = hfield now f (rh_view k);
  rh_hset_view : forall now f z k, rh_view (rh_hset now f z k) = Some (hwrite now f z (rh_view k));
  rh_hincrby_view : forall now f d k, let z := default 0 (hfield now f (rh_view k)) + d in
    fst (rh_hincrby now f d k) = z /\ rh_view (snd (rh_hincrby now f d k)) = Some (hwrite now f z (rh_view k));
  rh_pexpire_view : forall now px k h, hlive now (rh_view k) = Some h ->
    rh_view (rh_pexpire now px k) = Some (h {{ hv_expiresAt := Some (now + px) }});
  rh_del_view : forall k, rh_view (rh_del k) = None;
}.

Section Scripts.
Context `{RedisHash} (windowMs : Z).

(** RATE_LIMIT_INCREMENT_SCRIPT after its condition, and [hits] and [reset] of
    its reply. *)
Definition countHit (now : Z) (k : rh_key) : (Z * option Z) * rh_key :=
  let '(hits, k) := rh_hincrby now "count" 1 k in
  let k := rh_pexpire now windowMs k in
  ((hits, rh_hget now "reset" k), k).

(** RATE_LIMIT_INCREMENT_SCRIPT *)
Definition incrementScript (now : Z) (k : rh_key) : (Z * option Z) * rh_key :=
  let stale := match rh_hget now "reset" k with Some reset => reset <=? now | None => true end in
  countHit now (if stale then rh_hset now "reset" (now + windowMs) (rh_hset now "count" 0 k) else k).

(** RATE_LIMIT_DECREMENT_SCRIPT *)
Definition decrementScript (now : Z) (k : rh_key) : Z * rh_key :=
  let '(hits, k) := rh_hincrby now "count" (-1) k in
  if hits <? 0 then (0, rh_hset now "count" 0 k) else (hits, k).
End Scripts.

(** [{ count, resetAtMs }] *)
Record LocalWindow : Type := mkWindow { lw_count : Z; lw_resetAtMs : Z }.

Section Local.
Context (windowMs : Z).

Definition incrementLocal (now : Z) (entry : option LocalWindow) : LocalWindow :=
  match entry with
  | Some w => if lw_resetAtMs w <=? now then mkWindow 1 (now + windowMs) else w {{ lw_count := lw_count w + 1 }}
  | None => mkWindow 1 (now + windowMs)
  end.

Definition decrementLocal (entry : option LocalWindow) : option LocalWindow :=
  match entry with
  | Some w => Some (if 0 <? lw_count w then w {{ lw_count := lw_count w - 1 }} else w)
  | None => None
  end.
End Local.

(** How Redis answers one command: not at all, with an error, or by running it. *)
Inductive RedisReach : Type := Unreachable | CommandFails (e : Err) | Answers.

#[export] Instance RedisReach_dec (r : RedisReach) : Decision (r = Answers).
Proof. destruct r; [right|right|left]; done. Defined.

Record RedisRateLimitStoreOptions : Type := mkStoreOptions {
  rs_prefix : string;
  rs_failOpen : bool;
  rs_windowMs : Z;
}.

Record IncrementResponse : Type := mkIncrement { totalHits : Z; resetTime : Z }.

(** A process with its store: [outages] counts the calls of onOutage,
    [warned] the times of the warnings, the latest first. *)
Record RateStore : Type := mkRateStore {
  localWindows : gmap string LocalWindow;
  lastOutageWarnAtMs : Z;
  outages : nat;
  warned : list Z;
}.

Definition newRateStore : RateStore := mkRateStore ∅ 0 0 [].

(** What a call works on: the time, the keys of the server, the own store. *)
Record StoreWorld `{RedisHash} : Type := mkStoreWorld {
  sw_now : Z;
  sw_redis : gmap string rh_key;
  sw_store : RateStore;
}.

Section Store.
Context `{RedisHash} (options : RedisRateLimitStoreOptions).

Definition keyFor (key : string) : string := (rs_prefix options +:+ key)%string.

Definition serverKey (redis : gmap string rh_key) (storeKey : string) : rh_key := default rh_absent (redis !! storeKey).

Definition noteOutage : M StoreWorld Err unit := modify (fun w =>
  let s := sw_store w in
  let s := if 30000 <? sw_now w - lastOutageWarnAtMs s
           then s {{ lastOutageWarnAtMs := sw_now w; warned := sw_now w :: warned s }} else s in
  w {{ sw_store := s {{ outages := S (outages s) }} }}).

Definition setLocal (storeKey : string) (entry : option LocalWindow) (w : StoreWorld) : StoreWorld :=
  w {{ sw_store := (sw_store w) {{ localWindows := partial_alter (fun _ => entry) storeKey (localWindows (sw_store w)) }} }}.

Definition handleOutage (storeKey : string) (cause : Err) : M StoreWorld Err IncrementResponse :=
  noteOutage ;;;
  if negb (rs_failOpen options) then throw cause
  else fun w =>
    let entry := incrementLocal (rs_windowMs options) (sw_now w) (localWindows (sw_store w) !! storeKey) in
    (inr (mkIncrement (lw_count entry) (lw_resetAtMs entry)), setLocal storeKey (Some entry) w).

Definition notReachable : Err := PlainError "Redis is not configured or unreachable".

Definition increment (key : string) (redis : RedisReach) : M StoreWorld Err IncrementResponse :=
  let storeKey := keyFor key in
  match redis with
  | Unreachable => handleOutage storeKey notReachable
  | CommandFails e => handleOutage storeKey e
  | Answers => fun w =>
      let '((hits, reset), k) := incrementScript (rs_windowMs options) (sw_now w) (serverKey (sw_redis w) storeKey) in
      (inr (mkIncrement hits (default 0 reset)), w {{ sw_redis := <[storeKey := k]> (sw_redis w) }})
  end.

(** The common part of [decrement] and [resetKey]. *)
Definition withOutagePolicy (redis : RedisReach) (remote : StoreWorld -> StoreWorld) (local : StoreWorld -> StoreWorld)
    : M StoreWorld Err unit :=
  match redis with
  | Answers => modify remote
  | CommandFails e => noteOutage ;;; if negb (rs_failOpen options) then throw e else modify local
  | Unreachable => noteOutage ;;; if negb (rs_failOpen options) then throw notReachable else modify local
  end.

Definition decrement (key : string) (redis : RedisReach) : M StoreWorld Err unit :=
  let storeKey := keyFor key in
  withOutagePolicy redis
    (fun w => w {{ sw_redis := <[storeKey := snd (decrementScript (sw_now w) (serverKey (sw_redis w) storeKey))]> (sw_redis w) }})
    (fun w => setLocal storeKey (decrementLocal (localWindows (sw_store w) !! storeKey)) w).

Definition resetKey (key : string) (redis : RedisReach) : M StoreWorld Err unit :=
  let storeKey := keyFor key in
  withOutagePolicy redis
    (fun w => w {{ sw_redis := <[storeKey := rh_del (serverKey (sw_redis w) storeKey)]> (sw_redis w) }})
    (fun w => setLocal storeKey None w).

(** ** Many processes on one server *)

Record RateRequest : Type := mkRateRequest {
  rq_at : Z;
  rq_process : nat;
  rq_key : string;
  rq_redis : RedisReach;
}.

Record RateSystem : Type := mkRateSystem {
  ry_redis : gmap string rh_key;
  ry_stores : gmap nat RateStore;
}.

Definition storeOf (y : RateSystem) (process : nat) : RateStore := default newRateStore (ry_stores y !! process).

Definition serveRate (y : RateSystem) (q : RateRequest) : (Err + IncrementResponse) * RateSystem :=
  let '(r, w) := increment (rq_key q) (rq_redis q) (mkStoreWorld _ (rq_at q) (ry_redis y) (storeOf y (rq_process q))) in
  (r, mkRateSystem (sw_redis w) (<[rq_process q := sw_store w]> (ry_stores y))).

Definition serveNext (acc : list (Err + IncrementResponse) * RateSystem) (q : RateRequest)
    : list (Err + IncrementResponse) * RateSystem :=
  let '(r, y) := serveRate (snd acc) q in (fst acc ++ [r], y).

Definition serveRequests (requests : list RateRequest) : list (Err + IncrementResponse) * RateSystem :=
  foldl serveNext ([], mkRateSystem ∅ ∅) requests.

(** The counter that counts a request: the server's, or its process's. *)
Definition counterOf (q : RateRequest) : option nat :=
  match rq_redis q with Answers => None | _ => Some (rq_process q) end.

(** express-rate-limit lets a request pass up to its limit. *)
Definition passes (max : Z) (r : Err + IncrementResponse) : bool :=
  match r with inr i => totalHits i <=? max | inl _ => false end.

(** When requests of a key have passed on a counter. *)
Definition passedAt (max : Z) (counter : option nat) (key : string) (requests : list RateRequest)
    (responses : list (Err + IncrementResponse)) : list Z :=
  omap (fun '(q, r) => if bool_decide (counterOf q = counter) && String.eqb (rq_key q) key && passes max r
                       then Some (rq_at q) else None) (zip requests responses).
End Store.

(** ** The middleware (rateLimiter.middleware.ts) *)

Definition parseBooleanEnv (value : option string) (fallback : bool) : bool :=
  match truthy value with
  | Some v => negb (String.eqb (toLowerCase v) "false")
  | None => fallback
  end.

(** [redisStoreFor]: no store of its own without REDIS_URL. *)
Definition redisStoreFor (redisUrl failOpen : option string) (prefix name : string) (windowMs : Z)
    : option RedisRateLimitStoreOptions :=
  match redisUrl with
  | Some _ => Some (mkStoreOptions (prefix +:+ ":" +:+ name +:+ ":")%string (parseBooleanEnv failOpen true) windowMs)
  | None => None
  end.

(** [retryAfter] of the 429 answer, in seconds. *)
Definition retryAfter (windowMs : Z) : Z := - (- windowMs / 1000).

(** [skip] of the limiter of writes *)
Definition skipsWrite (httpMethod : string) : bool := bool_decide (httpMethod ∈ ["GET"; "HEAD"; "OPTIONS"]%string).

(** ** The sliding window is exact *)

(** The times of a key's calls that were allowed. *)
Definition allowedAt (key : string) (calls : list (Z * string)) (answers : list bool) : list Z :=
  omap (fun '(call, allowed) => if String.eqb (snd call) key && allowed then Some (fst call) else None) (zip calls answers).

(** The times in a period of a given length. *)
Definition during (a period : Z) (l : list Z) : list Z := filter (fun t => a <= t < a + period) l.

#[local] Arguments recent : simpl never.

Section SlidingProofs.
Context (max : nat) (windowMs : Z).

Lemma recent_later now now' l : now <= now' -> recent windowMs now' (recent windowMs now l) = recent windowMs now' l.
Proof.
  intros Hle. unfold recent. rewrite list_filter_filter. apply list_filter_iff. intros t. lia.
Qed.

Lemma recent_app now l l' : recent windowMs now (l ++ l') = recent windowMs now l ++ recent windowMs now l'.
Proof. apply filter_app. Qed.

(** Up to now, a period that now lies in is recent. *)
Lemma during_recent now a l : a <= now < a + windowMs -> (forall t, t ∈ l -> t <= now) ->
  (length (during a windowMs l) <= length (recent windowMs now l))%nat.
Proof.
  intros Ha. unfold during, recent. induction l as [|t l IH]; intros Hl; [done|]. rewrite !filter_cons.
  pose proof (Hl t ltac:(left)) as Ht. specialize (IH (fun x Hx => Hl x (list_elem_of_further _ _ _ Hx))).
  repeat case_decide; cbn; lia.
Qed.

Lemma zip_snoc {A B} (l : list A) (k : list B) x y : length l = length k -> zip (l ++ [x]) (k ++ [y]) = zip l k ++ [(x, y)].
Proof. intros Hl. by rewrite zip_with_app. Qed.

Lemma allowedAt_snoc key calls answers now k b : length calls = length answers ->
  allowedAt key (calls ++ [(now, k)]) (answers ++ [b]) =
  allowedAt key calls answers ++ (if String.eqb k key && b then [now] else []).
Proof.
  intros Hl. unfold allowedAt. rewrite zip_snoc by done. rewrite omap_app. cbn. by destruct (String.eqb k key && b).
Qed.

(** Between calls the table holds, as far as any later call can tell, all that
    was allowed. *)
Record slid (now : Z) (calls : list (Z * string)) (answers : list bool) (windows : Windows) : Prop := {
  sl_length : length calls = length answers;
  sl_kept : forall key now', now <= now' ->
    recent windowMs now' (default [] (windows !! key)) = recent windowMs now' (allowedAt key calls answers);
  sl_past : forall key t, t ∈ allowedAt key calls answers -> t <= now;
  sl_bound : forall key a, (length (during a windowMs (allowedAt key calls answers)) <= max)%nat;
}.

Lemma slid_answer now calls answers windows now' key : now <= now' -> slid now calls answers windows ->
  let '(b, windows') := isAllowed max windowMs now' key windows in
  b = bool_decide (length (recent windowMs now' (allowedAt key calls answers)) < max)%nat /\
  slid now' (calls ++ [(now', key)]) (answers ++ [b]) windows'.
Proof.
  intros Hle [Hlen Hkept Hpast Hbound]. unfold isAllowed. rewrite (Hkept key now' Hle).
  set (old := allowedAt key calls answers). pose proof (Hkept key now' Hle) as Hk. fold old in Hk.
  assert (Hlate : forall k t, t ∈ allowedAt k calls answers -> t <= now') by (intros k t Ht%Hpast; lia).
  assert (Hother : forall k ts, k <> key -> forall now'', now' <= now'' ->
    recent windowMs now'' (default [] (<[key := ts]> windows !! k)) = recent windowMs now'' (allowedAt k calls answers)).
  { intros k ts Hne now'' Hle'. rewrite lookup_insert_ne by done. apply Hkept. lia. }
  destruct (Nat.leb_spec max (length (recent windowMs now' old))) as [Hfull|Hroom];
    (split; [symmetry; first [apply bool_decide_eq_true_2; lia | apply bool_decide_eq_false_2; lia]|]).
  - split.
    + rewrite !length_app. cbn. lia.
    + intros k now'' Hle'. rewrite allowedAt_snoc, andb_false_r, app_nil_r by done.
      destruct (decide (k = key)) as [->|Hne]; [|by apply Hother].
      rewrite lookup_insert_eq. cbn. by apply recent_later.
    + intros k t. rewrite allowedAt_snoc, andb_false_r, app_nil_r by done. apply Hlate.
    + intros k a. rewrite allowedAt_snoc, andb_false_r, app_nil_r by done. apply Hbound.
  - split.
    + rewrite !length_app. cbn. lia.
    + intros k now'' Hle'. rewrite allowedAt_snoc, andb_true_r by done.
      destruct (String.eqb_spec key k) as [<-|Hne]; [|rewrite app_nil_r; by apply Hother].
      rewrite lookup_insert_eq. cbn. rewrite !recent_app. by rewrite recent_later.
    + intros k t. rewrite allowedAt_snoc, andb_true_r by done. intros [Ht|Ht]%elem_of_app; [by apply (Hlate k)|].
      destruct (String.eqb key k); [|by apply not_elem_of_nil in Ht]. apply list_elem_of_singleton in Ht. lia.
    + intros k a. rewrite allowedAt_snoc, andb_true_r by done. unfold during. rewrite filter_app, length_app.
      destruct (String.eqb_spec key k) as [<-|Hne]; [|cbn; rewrite Nat.add_0_r; apply Hbound]. fold old.
      rewrite filter_cons, filter_nil. case_decide as Ha; [|cbn; rewrite Nat.add_0_r; apply Hbound]. cbn.
      pose proof (during_recent now' a old Ha (Hlate key)). unfold during in *. lia.
Qed.

Lemma runCalls_snoc calls call : runCalls max windowMs (calls ++ [call]) = answer max windowMs (runCalls max windowMs calls) call.
Proof. unfold runCalls. by rewrite foldl_app. Qed.

Lemma sorted_snoc l (t : Z) : StronglySorted Z.le (l ++ [t]) -> StronglySorted Z.le l /\ forall x, x ∈ l -> x <= t.
Proof.
  induction l as [|y l IH]; cbn; intros Hs.
  - split; [constructor|]. by intros x ?%not_elem_of_nil.
  - inversion Hs as [|? ? Hs' Hall]; subst. destruct (IH Hs') as [IH1 IH2]. split.
    + constructor; [exact IH1|]. rewrite Forall_app in Hall. apply Hall.
    + intros x [->|Hx]%elem_of_cons; [|by apply IH2]. rewrite Forall_app, Forall_singleton in Hall. apply Hall.
Qed.

Lemma run_slid calls : forall now, StronglySorted Z.le (map fst calls) -> (forall t, t ∈ map fst calls -> t <= now) ->
  slid now calls (fst (runCalls max windowMs calls)) (snd (runCalls max windowMs calls)).
Proof.
  induction calls as [|[t key] calls IH] using rev_ind; intros now Hs Hnow.
  - split; cbn; [done| | |]; intros; rewrite ?lookup_empty; cbn; [done|by apply not_elem_of_nil in H|lia].
  - rewrite map_app in Hs, Hnow. apply sorted_snoc in Hs as [Hs Hbefore]. cbn in Hbefore.
    assert (Ht : t <= now) by (apply Hnow, elem_of_app; right; by left).
    rewrite runCalls_snoc. unfold answer. cbn [fst snd].
    pose proof (slid_answer t calls _ _ t key (Z.le_refl t) (IH t Hs Hbefore)) as Hstep.
    destruct (isAllowed _ _ _ _ _) as [b windows']. destruct Hstep as [_ [H1 H2 H3 H4]]. split; cbn [fst snd].
    + exact H1.
    + intros k now' Hle. apply H2. lia.
    + intros k x Hx%H3. lia.
    + exact H4.
Qed.
End SlidingProofs.

(** The chat limiter is exact. With a clock that does not go back, a call is
    allowed if and only if fewer than [max] calls of its key have been allowed
    in the last [windowMs] milliseconds, whatever other keys do; so no period of
    that length, wherever it begins, contains more than [max] allowed calls of a
    key, and what is forgotten is never missed. *)
Theorem isAllowed_exact max windowMs calls :
  StronglySorted Z.le (map fst calls) ->
  let answers := fst (runCalls max windowMs calls) in
  (forall i now key, calls !! i = Some (now, key) ->
     answers !! i = Some (bool_decide
       (length (recent windowMs now (allowedAt key (take i calls) (take i answers))) < max)%nat)) /\
  (forall key a, (length (during a windowMs (allowedAt key calls answers)) <= max)%nat).
Proof.
  intros Hs answers. split.
  - unfold answers. clear answers. induction calls as [|[t k] calls IH] using rev_ind; intros i now key Hi; [done|].
    rewrite map_app in Hs. apply sorted_snoc in Hs as [Hs Hbefore]. cbn in Hbefore. specialize (IH Hs).
    pose proof (run_slid max windowMs calls t Hs Hbefore) as Hrun. pose proof (sl_length _ _ _ _ _ _ Hrun) as Hlen.
    rewrite runCalls_snoc. unfold answer. cbn [fst snd].
    pose proof (slid_answer max windowMs t calls _ _ t k (Z.le_refl t) Hrun) as Hstep.
    destruct (isAllowed _ _ _ _ _) as [b windows']. destruct Hstep as [Hb _]. cbn [fst].
    apply lookup_app_Some in Hi as [Hi|[Hge Hi]].
    + pose proof (lookup_lt_Some _ _ _ Hi) as Hlt. rewrite lookup_app_l by lia. rewrite (IH _ _ _ Hi).
      by rewrite !take_app_le by lia.
    + destruct (i - length calls)%nat as [|n] eqn:Hn; [|done]. injection Hi as <- <-.
      assert (i = length calls) as -> by lia. rewrite Hlen at 1. rewrite lookup_app_r, Nat.sub_diag by lia. cbn.
      rewrite Hb, take_app_length. rewrite Hlen. by rewrite take_app_length.
  - intros key a. refine (sl_bound _ _ _ _ _ _ (run_slid max windowMs calls (foldr Z.max 0 (map fst calls)) Hs _) key a).
    intros t Ht. clear -Ht. induction (map fst calls) as [|x l IH]; [by apply not_elem_of_nil in Ht|].
    cbn. apply elem_of_cons in Ht as [->|Ht]; [lia|]. specialize (IH Ht). lia.
Qed.

(** ** Fixed windows *)

(** What a counter promises: the number of requests of its current window and
    when that ends. *)
Notation Counter := (option (Z * Z)).

Definition current (now : Z) (c : Counter) : Counter :=
  match c with Some (n, reset) => if now <? reset then Some (n, reset) else None | None => None end.

(** A request is counted in the window it falls into, or opens the next. *)
Definition hit (windowMs now : Z) (c : Counter) : Z * Z :=
  match current now c with Some (n, reset) => (n + 1, reset) | None => (1, now + windowMs) end.

(** The times from a start on, and those of the window's length before it. *)
Definition since (start : Z) (l : list Z) : list Z := filter (fun t => start <= t) l.
Definition before (start period : Z) (l : list Z) : list Z := filter (fun t => start - period < t < start) l.

Section WindowProofs.
Context (windowMs max : Z) (Hw : 0 < windowMs) (Hm : 0 <= max).

Lemma current_later now now' c : now <= now' -> current now' (current now c) = current now' c.
Proof.
  intros Hle. destruct c as [[n r]|]; cbn; [|done]. destruct (Z.ltb_spec now r); cbn; [done|].
  destruct (Z.ltb_spec now' r); [lia|done].
Qed.

Lemma hit_current now c : hit windowMs now (current now c) = hit windowMs now c.
Proof. unfold hit. by rewrite current_later. Qed.

(** The requests that have passed so far, given the counter now: those of the
    window that begins at [start] are all of its first [max]; the ones before
    it, close enough to matter, are of one window. *)
Record windowed (now : Z) (c : Counter) (passed : list Z) : Prop := {
  wi_past : forall t, t ∈ passed -> t <= now;
  wi_bound : forall a, Z.of_nat (length (during a windowMs passed)) <= 2 * max;
  wi_window : exists start n, 0 <= n /\ start <= now /\
    current now c = (if now <? start + windowMs then Some (n, start + windowMs) else None) /\
    (now < start + windowMs -> 1 <= n) /\ (forall t, t ∈ passed -> t < start + windowMs) /\
    Z.of_nat (length (since start passed)) = Z.min n max /\
    Z.of_nat (length (before start windowMs passed)) <= max;
}.

Lemma windowed_fresh now : windowed now None [].
Proof.
  split; [by intros t ?%not_elem_of_nil|cbn; lia|]. exists (now - windowMs), 0. cbn.
  destruct (Z.ltb_spec now (now - windowMs + windowMs)); [lia|].
  repeat split; try lia; by intros t ?%not_elem_of_nil.
Qed.

Lemma windowed_later now now' c passed : now <= now' -> windowed now c passed -> windowed now' c passed.
Proof.
  intros Hle [H1 H2 (start & n & Hn & Hs & Hc & Hone & Hend & Hcur & Hprev)]. split; [intros t Ht%H1; lia|exact H2|].
  exists start, n. split; [exact Hn|]. split; [lia|]. split; [|split; [lia|done]].
  rewrite <- (current_later now now' c Hle), Hc.
  destruct (Z.ltb_spec now (start + windowMs)), (Z.ltb_spec now' (start + windowMs)); cbn; try lia; try done.
  - by destruct (Z.ltb_spec now' (start + windowMs)); [|lia].
  - by destruct (Z.ltb_spec now' (start + windowMs)); [lia|].
Qed.

Lemma length_filter_le {A} (P Q : A -> Prop) `{forall x, Decision (P x)} `{forall x, Decision (Q x)} l :
  (forall x, x ∈ l -> P x -> Q x) -> (length (filter P l) <= length (filter Q l))%nat.
Proof.
  induction l as [|x l IH]; intros Hx; [done|]. rewrite !filter_cons.
  assert (length (filter P l) <= length (filter Q l))%nat by (apply IH; intros y Hy; apply Hx; by right).
  destruct (decide (P x)) as [HP|], (decide (Q x)) as [|HQ]; cbn; try lia. destruct HQ. apply Hx; [left|done].
Qed.

(** A period that ends after [start] meets at most two windows. *)
Lemma during_split a start l : start - windowMs < a ->
  (length (during a windowMs l) <=
   length (before start windowMs l) + length (since start l))%nat.
Proof.
  intros Ha. unfold during, before, since. induction l as [|t l IH]; [done|]. rewrite !filter_cons. repeat case_decide; cbn; lia.
Qed.

Lemma windowed_hit now c passed : windowed now c passed ->
  let '(n, reset) := hit windowMs now c in
  windowed now (Some (n, reset)) (if n <=? max then passed ++ [now] else passed) /\
  (max < n -> (Z.to_nat max <= length (during (now - windowMs + 1) windowMs passed))%nat) /\
  now < reset <= now + windowMs.
Proof.
  intros [H1 H2 (start & n & Hn & Hs & Hc & Hone & Hend & Hcur & Hprev)]. unfold hit. rewrite Hc.
  destruct (Z.ltb_spec now (start + windowMs)) as [Hin|Hout].
  - specialize (Hone Hin). split; [|split; [|lia]].
    + split.
      * intros t Ht. destruct (n + 1 <=? max); [|by apply H1].
        apply elem_of_app in Ht as [Ht|Ht]; [by apply H1|]. apply list_elem_of_singleton in Ht. lia.
      * intros a. destruct (Z.leb_spec (n + 1) max) as [Hle|]; [|apply H2].
        unfold during. rewrite filter_app, length_app, filter_cons, filter_nil. case_decide as Ha.
        -- pose proof (during_split a start passed ltac:(lia)) as Hd. unfold during in Hd. cbn. lia.
        -- cbn. rewrite Nat.add_0_r. apply H2.
      * exists start, (n + 1). cbn. destruct (Z.ltb_spec now (start + windowMs)); [|lia].
        split; [lia|]. split; [lia|]. split; [done|]. split; [lia|]. split.
        { intros t Ht. destruct (n + 1 <=? max); [|by apply Hend].
          apply elem_of_app in Ht as [Ht|Ht]; [by apply Hend|]. apply list_elem_of_singleton in Ht. lia. }
        destruct (Z.leb_spec (n + 1) max); [|lia]. unfold since, before in *. rewrite !filter_app, !length_app, !filter_cons, !filter_nil.
        repeat case_decide; cbn; lia.
    + intros Hfull. assert (Hmax : Z.of_nat (length (since start passed)) = max) by lia.
      enough (length (since start passed) <= length (during (now - windowMs + 1) windowMs passed))%nat by lia.
      apply length_filter_le. intros t Ht%H1 Hst. lia.
  - split; [|split; [|lia]].
    + assert (Hnone : forall P : Z -> Prop, forall D : forall x, Decision (P x), (forall t, P t -> start + windowMs <= t) -> filter P passed = []).
      { intros P D HP. destruct (filter P passed) as [|t l] eqn:E; [done|]. exfalso.
        assert (Hin : t ∈ filter P passed) by (rewrite E; left). apply list_elem_of_filter in Hin as [HPt Ht]. specialize (Hend t Ht). specialize (HP t HPt). lia. }
      assert (Hold : (length (before now windowMs passed) <= length (since start passed))%nat)
        by (apply length_filter_le; intros t _; lia).
      assert (Hfresh : forall t, t ∈ (if 1 <=? max then passed ++ [now] else passed) -> t <= now).
      { intros t Ht. destruct (1 <=? max); [|by apply H1]. apply elem_of_app in Ht as [Ht|Ht]; [by apply H1|].
        apply list_elem_of_singleton in Ht. lia. }
      split.
      * exact Hfresh.
      * intros a. destruct (Z.leb_spec 1 max) as [Hle|]; [|apply H2].
        unfold during. rewrite filter_app, length_app, filter_cons, filter_nil. case_decide as Ha.
        -- pose proof (during_split a now passed ltac:(lia)) as Hd. unfold during in Hd.
           unfold since in Hd. rewrite (Hnone (fun t => now <= t)) in Hd by lia. cbn in *. lia.
        -- cbn. rewrite Nat.add_0_r. apply H2.
      * exists now, 1. cbn. destruct (Z.ltb_spec now (now + windowMs)); [|lia].
        split; [lia|]. split; [lia|]. split; [done|]. split; [lia|]. split; [intros t Ht%Hfresh; lia|].
        unfold since, before in *. destruct (Z.leb_spec 1 max); rewrite ?filter_app, ?length_app, ?filter_cons, ?filter_nil;
          rewrite (Hnone (fun t => now <= t)) by lia; repeat case_decide; cbn; lia.
    + intros Hfull. replace (Z.to_nat max) with 0%nat by lia. lia.
Qed.
End WindowProofs.

(** ** The store counts fixed windows *)

Definition counterOfLocal (entry : option LocalWindow) : Counter :=
  (fun w => (lw_count w, lw_resetAtMs w)) <$> entry.

Definition counterOfHash (v : option HashValue) : Counter :=
  h ← v; n ← hv_fields h !! "count"%string; r ← hv_fields h !! "reset"%string; Some (n, r).

(** A hash the script has written, if any, lives to the end of its window. *)
Definition hashOK (v : option HashValue) : Prop :=
  forall h, v = Some h -> exists n r e,
    hv_fields h !! "count"%string = Some n /\ hv_fields h !! "reset"%string = Some r /\ hv_expiresAt h = Some e /\ r <= e.

Section StoreProofs.
Context `{RedisHash} (windowMs : Z) (Hw : 0 < windowMs).

Lemma local_hits now entry : counterOfLocal (Some (incrementLocal windowMs now entry)) = Some (hit windowMs now (counterOfLocal entry)).
Proof.
  destruct entry as [[n r]|]; [|done]. unfold incrementLocal, hit, current. cbn.
  destruct (Z.leb_spec r now), (Z.ltb_spec now r); try lia; done.
Qed.

Lemma hwrite_live now f z v h : hlive now v = Some h -> hwrite now f z v = h {{ hv_fields := <[f := z]> (hv_fields h) }}.
Proof. intros Hl. unfold hwrite. by rewrite Hl. Qed.

Lemma hfield_live now f v h : hlive now v = Some h -> hfield now f v = hv_fields h !! f.
Proof. intros Hl. unfold hfield. by rewrite Hl. Qed.

Lemma hlive_idem now v h : hlive now v = Some h -> hlive now (Some h) = Some h.
Proof.
  destruct v as [h'|]; [|done]. cbn. destruct (hv_expiresAt h') as [e|] eqn:He; [destruct (now <? e) eqn:Hlt; [|done]|];
    intros [= <-]; by rewrite He, ?Hlt.
Qed.

Lemma live_write now f z v : exists h, hlive now (Some (hwrite now f z v)) = Some h /\ hwrite now f z v = h.
Proof.
  exists (hwrite now f z v). split; [|done]. unfold hwrite. destruct (hlive now v) as [h|] eqn:Hl; [|done].
  apply hlive_idem in Hl. revert Hl. destruct h as [fields [e|]]; cbn; [|done]. by destruct (now <? e).
Qed.

(** The last two commands, on a hash that is there. *)
Lemma script_tail now k h n r : rh_view k = Some h -> hlive now (Some h) = Some h ->
  hv_fields h !! "count"%string = Some n -> hv_fields h !! "reset"%string = Some r -> r <= now + windowMs ->
  let '(reply, k2) := countHit windowMs now k in
  reply = (n + 1, Some r) /\ counterOfHash (rh_view k2) = Some (n + 1, r) /\ hashOK (rh_view k2).
Proof.
  intros Hv Hl Hn Hr Hle. unfold countHit. pose proof (rh_hincrby_view now "count" 1 k) as Hi. cbv zeta in Hi.
  rewrite Hv, (hfield_live _ _ _ _ Hl), Hn, (hwrite_live _ _ _ _ _ Hl) in Hi.
  destruct (rh_hincrby now "count" 1 k) as [hits k1]. cbn in Hi. destruct Hi as [-> Hk1].
  set (h1 := h {{ hv_fields := <["count"%string := n + 1]> (hv_fields h) }}) in *.
  assert (Hl1 : hlive now (rh_view k1) = Some h1).
  { rewrite Hk1. revert Hl. unfold h1. destruct h as [fields [e|]]; cbn; [|done]. by destruct (now <? e). }
  pose proof (rh_pexpire_view now windowMs k1 h1 Hl1) as Hk2.
  assert (Hreset : hv_fields h1 !! "reset"%string = Some r) by (cbn; by rewrite lookup_insert_ne).
  split.
  - f_equal. rewrite rh_hget_view, Hk2. unfold hfield. cbn. destruct (Z.ltb_spec now (now + windowMs)); [|lia]. exact Hreset.
  - rewrite Hk2. split.
    + unfold counterOfHash. cbn. rewrite lookup_insert_eq, lookup_insert_ne by done. cbn. by rewrite Hr.
    + intros h2 [= <-]. exists (n + 1), r, (now + windowMs). cbn. by rewrite lookup_insert_eq, lookup_insert_ne.
Qed.

Lemma script_hits now k : hashOK (rh_view k) ->
  (forall n r, counterOfHash (rh_view k) = Some (n, r) -> r <= now + windowMs) ->
  let '((n, reset), k') := incrementScript windowMs now k in
  (n, default 0 reset) = hit windowMs now (counterOfHash (rh_view k)) /\
  counterOfHash (rh_view k') = Some (hit windowMs now (counterOfHash (rh_view k))) /\ hashOK (rh_view k').
Proof.
  intros Hok Hle. unfold incrementScript. rewrite rh_hget_view.
  assert (Hopen : current now (counterOfHash (rh_view k)) = None ->
    let k0 := rh_hset now "reset" (now + windowMs) (rh_hset now "count" 0 k) in
    let '((n, reset), k2) := countHit windowMs now k0 in
    (n, default 0 reset) = hit windowMs now (counterOfHash (rh_view k)) /\
    counterOfHash (rh_view k2) = Some (hit windowMs now (counterOfHash (rh_view k))) /\ hashOK (rh_view k2)).
  { intros Hc k0. unfold hit. rewrite Hc.
    destruct (live_write now "count" 0 (rh_view k)) as (h1 & Hl1 & He1).
    assert (Hv1 : rh_view (rh_hset now "count" 0 k) = Some h1) by (by rewrite rh_hset_view, He1).
    destruct (live_write now "reset" (now + windowMs) (rh_view (rh_hset now "count" 0 k))) as (h2 & Hl2 & He2).
    assert (Hv2 : rh_view k0 = Some h2) by (unfold k0; by rewrite rh_hset_view, He2).
    rewrite He1 in Hl1. rewrite He2 in Hl2. rewrite Hv1, (hwrite_live _ _ _ _ _ Hl1) in He2.
    assert (Hn : hv_fields h1 !! "count"%string = Some 0).
    { rewrite <- He1. unfold hwrite. destruct (hlive now (rh_view k)); cbn; [apply lookup_insert_eq|apply lookup_singleton_eq]. }
    pose proof (script_tail now k0 h2 0 (now + windowMs) Hv2 Hl2) as Ht. subst h2. cbn in Ht.
    rewrite lookup_insert_eq, lookup_insert_ne in Ht by done. specialize (Ht Hn eq_refl ltac:(lia)).
    destruct (countHit windowMs now k0) as [reply k2]. by destruct Ht as (-> & -> & Ht). }
  destruct (rh_view k) as [h|] eqn:Hv; [|by apply Hopen].
  destruct (Hok h eq_refl) as (n & r & e & Hn & Hr & He & Hre).
  assert (Hc : counterOfHash (Some h) = Some (n, r)) by (unfold counterOfHash; cbn; by rewrite Hn, Hr).
  rewrite Hc in *. unfold hfield, hlive. rewrite He. destruct (Z.ltb_spec now e) as [Hlive|Hdead].
  - cbn. rewrite Hr. destruct (Z.leb_spec r now) as [Hstale|Hfresh].
    + apply Hopen. cbn. by destruct (Z.ltb_spec now r); [lia|].
    + pose proof (script_tail now k h n r Hv) as Ht. cbn in Ht. rewrite He in Ht.
      destruct (Z.ltb_spec now e); [|lia]. specialize (Ht eq_refl Hn Hr (Hle n r eq_refl)).
      destruct (countHit windowMs now k) as [reply k2]. destruct Ht as (-> & -> & Ht).
      unfold hit, current. by destruct (Z.ltb_spec now r); [|lia].
  - apply Hopen. cbn. by destruct (Z.ltb_spec now r); [lia|].
Qed.
End StoreProofs.

(** Decrementing a counter whose hash has expired leaves one that never does. *)
Lemma decrement_no_expiry `{RedisHash} now k : hlive now (rh_view k) = None ->
  (rh_view (snd (decrementScript now k)) ≫= hv_expiresAt) = None /\ rh_view (snd (decrementScript now k)) <> None.
Proof.
  intros Hl. unfold decrementScript. pose proof (rh_hincrby_view now "count" (-1) k) as Hi. cbv zeta in Hi.
  unfold hfield, hwrite in Hi. rewrite Hl in Hi. cbn in Hi. destruct (rh_hincrby now "count" (-1) k) as [hits k1].
  cbn in Hi. destruct Hi as [-> Hk1]. change (0 + -1 <? 0) with true. cbn iota. cbn [snd]. rewrite rh_hset_view, Hk1. unfold hwrite. cbn. done.
Qed.

(** ** All counters of a deployment *)

Section SystemProofs.
Context `{RedisHash} (options : RedisRateLimitStoreOptions) (max : Z).
Context (Hw : 0 < rs_windowMs options) (Hm : 0 <= max).
#[local] Notation windowMs := (rs_windowMs options).

Definition counterAt (y : RateSystem) (counter : option nat) (key : string) : Counter :=
  match counter with
  | None => counterOfHash (rh_view (serverKey (ry_redis y) (keyFor options key)))
  | Some process => counterOfLocal (localWindows (storeOf y process) !! keyFor options key)
  end.

Record counted (now : Z) (requests : list RateRequest) (responses : list (Err + IncrementResponse)) (y : RateSystem) : Prop := {
  ct_length : length requests = length responses;
  ct_hash : forall storeKey, hashOK (rh_view (serverKey (ry_redis y) storeKey));
  ct_reset : forall counter key n r, counterAt y counter key = Some (n, r) -> r <= now + windowMs;
  ct_windows : forall counter key, windowed windowMs max now (counterAt y counter key) (passedAt max counter key requests responses);
}.

Lemma keyFor_inj key key' : keyFor options key = keyFor options key' -> key = key'.
Proof. unfold keyFor. by intros ?%(inj (String.append _)). Qed.

Lemma noteOutage_windows w : localWindows (sw_store (final noteOutage w)) = localWindows (sw_store w) /\
  sw_redis (final noteOutage w) = sw_redis w /\ sw_now (final noteOutage w) = sw_now w.
Proof. unfold final, noteOutage, modify. cbn. by destruct (30000 <? sw_now w - lastOutageWarnAtMs (sw_store w)). Qed.

Lemma handleOutage_local storeKey cause w :
  let entry := incrementLocal windowMs (sw_now w) (localWindows (sw_store w) !! storeKey) in
  let '(r, w') := handleOutage options storeKey cause w in
  sw_redis w' = sw_redis w /\
  if rs_failOpen options
  then r = inr (mkIncrement (lw_count entry) (lw_resetAtMs entry)) /\
       localWindows (sw_store w') = <[storeKey := entry]> (localWindows (sw_store w))
  else r = inl cause /\ localWindows (sw_store w') = localWindows (sw_store w).
Proof.
  unfold handleOutage, bind. pose proof (noteOutage_windows w) as Hn. unfold final in Hn.
  change (noteOutage w) with (inr tt : Err + unit, snd (noteOutage w)). destruct Hn as (Hl & Hr & Ht).
  destruct (rs_failOpen options); cbn [negb]; [|done]. rewrite Hl, Ht. unfold setLocal.
  destruct (snd (noteOutage w)) as [n rd [lw la ou wa]]. by cbn in *; subst.
Qed.

Lemma storeOf_same y process redis : forall p,
  storeOf (mkRateSystem redis (<[process := storeOf y process]> (ry_stores y))) p = storeOf y p.
Proof.
  intros p. unfold storeOf. cbn. destruct (decide (process = p)) as [<-|Hne]; [by rewrite lookup_insert_eq|].
  by rewrite lookup_insert_ne.
Qed.

Lemma serverKey_insert redis storeKey k key :
  serverKey (<[storeKey := k]> redis) key = if String.eqb storeKey key then k else serverKey redis key.
Proof.
  unfold serverKey. destruct (String.eqb_spec storeKey key) as [<-|Hne]; [by rewrite lookup_insert_eq|].
  by rewrite lookup_insert_ne.
Qed.

(** One request: its counter is hit, the others are left alone. *)
Lemma serveRate_hits y q : (forall storeKey, hashOK (rh_view (serverKey (ry_redis y) storeKey))) ->
  (forall counter key n r, counterAt y counter key = Some (n, r) -> r <= rq_at q + windowMs) ->
  let c := counterAt y (counterOf q) (rq_key q) in
  let '(r, y') := serveRate options y q in
  (forall storeKey, hashOK (rh_view (serverKey (ry_redis y') storeKey))) /\
  (forall counter key, (counter, key) <> (counterOf q, rq_key q) -> counterAt y' counter key = counterAt y counter key) /\
  match r with
  | inr i => (totalHits i, resetTime i) = hit windowMs (rq_at q) c /\ counterAt y' (counterOf q) (rq_key q) = Some (hit windowMs (rq_at q) c)
  | inl _ => rs_failOpen options = false /\ rq_redis q <> Answers /\ counterAt y' (counterOf q) (rq_key q) = c
  end.
Proof.
  intros Hok Hr c. unfold serveRate, increment.
  set (w := mkStoreWorld _ (rq_at q) (ry_redis y) (storeOf y (rq_process q))).
  assert (Hout : forall cause, rq_redis q <> Answers -> 
    let '(r, w') := handleOutage options (keyFor options (rq_key q)) cause w in
    let y' := mkRateSystem (sw_redis w') (<[rq_process q := sw_store w']> (ry_stores y)) in
    (forall storeKey, hashOK (rh_view (serverKey (ry_redis y') storeKey))) /\
    (forall counter key, (counter, key) <> (counterOf q, rq_key q) -> counterAt y' counter key = counterAt y counter key) /\
    match r with
    | inr i => (totalHits i, resetTime i) = hit windowMs (rq_at q) c /\ counterAt y' (counterOf q) (rq_key q) = Some (hit windowMs (rq_at q) c)
    | inl _ => rs_failOpen options = false /\ rq_redis q <> Answers /\ counterAt y' (counterOf q) (rq_key q) = c
    end).
  { intros cause Hq. pose proof (handleOutage_local (keyFor options (rq_key q)) cause w) as Hl. cbv zeta in Hl.
    destruct (handleOutage _ _ _ w) as [r w']. destruct Hl as [Hre Hl]. cbn in Hre. cbv zeta. cbn [ry_redis].
    rewrite Hre. split; [exact Hok|].
    assert (Hc : counterOf q = Some (rq_process q)) by (unfold counterOf; by destruct (rq_redis q)).
    unfold c. rewrite Hc. cbn [counterAt ry_redis].
    assert (Hstore : forall p, storeOf (mkRateSystem (ry_redis y) (<[rq_process q := sw_store w']> (ry_stores y))) p =
      if bool_decide (rq_process q = p) then sw_store w' else storeOf y p).
    { intros p. unfold storeOf. cbn. case_bool_decide as Hp; [by rewrite Hp, lookup_insert_eq|by rewrite lookup_insert_ne]. }
    rewrite !Hstore, bool_decide_eq_true_2 by done. cbn [w sw_store sw_now] in Hl.
    destruct (rs_failOpen options); destruct Hl as [-> Hl]; rewrite Hl.
    - split; [|rewrite lookup_insert_eq; pose proof (local_hits windowMs (rq_at q)
        (localWindows (storeOf y (rq_process q)) !! keyFor options (rq_key q))) as [= Hh]; by rewrite <- Hh].
      intros [p|] key Hne; [|done]. cbn. rewrite Hstore. case_bool_decide as Hp; [|done]. rewrite Hl, lookup_insert_ne; [by rewrite Hp|].
      intros Hk%keyFor_inj. congruence.
    - split; [|done]. intros [p|] key Hne; [|done]. cbn. rewrite Hstore. case_bool_decide as Hp; [|done]. by rewrite Hl, Hp. }
  destruct (rq_redis q) eqn:Hq.
  - specialize (Hout notReachable ltac:(done)). destruct (handleOutage _ _ _ w) as [r w']. exact Hout.
  - specialize (Hout e ltac:(done)). destruct (handleOutage _ _ _ w) as [r w']. exact Hout.
  - cbn [w sw_now sw_redis]. unfold c, counterOf. rewrite Hq. cbn [counterAt].
    pose proof (script_hits windowMs Hw (rq_at q) (serverKey (ry_redis y) (keyFor options (rq_key q))) (Hok _)
                  (fun n r Hn => Hr None (rq_key q) n r Hn)) as Hs.
    destruct (incrementScript _ _ _) as [[hits reset] k']. destruct Hs as (Hh & Hk & Hok').
    cbn. split; [|split].
    + intros storeKey. rewrite serverKey_insert. by destruct (String.eqb _ storeKey).
    + intros [p|] key Hne; cbn; [by rewrite storeOf_same|]. rewrite serverKey_insert.
      destruct (String.eqb_spec (keyFor options (rq_key q)) (keyFor options key)) as [Hk'%keyFor_inj|]; [congruence|done].
    + split; [exact Hh|]. by rewrite serverKey_insert, String.eqb_refl.
Qed.
Lemma passedAt_snoc counter key requests responses q r : length requests = length responses ->
  passedAt max counter key (requests ++ [q]) (responses ++ [r]) =
  passedAt max counter key requests responses ++
    (if bool_decide (counterOf q = counter) && String.eqb (rq_key q) key && passes max r then [rq_at q] else []).
Proof.
  intros Hl. unfold passedAt. rewrite zip_snoc by done. rewrite omap_app. cbn.
  by destruct (bool_decide (counterOf q = counter) && String.eqb (rq_key q) key && passes max r).
Qed.

Lemma counted_serve now requests responses y q : now <= rq_at q -> counted now requests responses y ->
  let '(r, y') := serveRate options y q in
  counted (rq_at q) (requests ++ [q]) (responses ++ [r]) y' /\
  (match r with
   | inr i => max < totalHits i ->
       (Z.to_nat max <= length (during (rq_at q - windowMs + 1) windowMs (passedAt max (counterOf q) (rq_key q) requests responses)))%nat
   | inl _ => rs_failOpen options = false /\ rq_redis q <> Answers
   end).
Proof.
  intros Hle [Hlen Hok Hr Hwin].
  pose proof (serveRate_hits y q Hok (fun c k n r Hc => ltac:(pose proof (Hr c k n r Hc); lia))) as Hs. cbv zeta in Hs.
  destruct (serveRate options y q) as [r y']. destruct Hs as (Hok' & Hother & Hmine).
  assert (Hwin' : forall counter key, windowed windowMs max (rq_at q) (counterAt y counter key)
                                        (passedAt max counter key requests responses))
    by (intros counter key; apply (windowed_later _ _ Hw now); [done|apply Hwin]).
  pose proof (windowed_hit windowMs max Hw (rq_at q) _ _ (Hwin' (counterOf q) (rq_key q))) as Hhit.
  assert (Hcount : counted (rq_at q) (requests ++ [q]) (responses ++ [r]) y').
  { split; [rewrite !length_app; cbn; lia|exact Hok'| |].
    - intros counter key n reset Hc. destruct (decide ((counter, key) = (counterOf q, rq_key q))) as [[= -> ->]|Hne].
      + destruct r as [e|i]; [destruct Hmine as (_ & _ & Hm'); rewrite Hm' in Hc; pose proof (Hr _ _ _ _ Hc); lia|].
        destruct Hmine as [_ Hm']. rewrite Hm' in Hc. destruct (hit _ _ _) as [n' r']. injection Hc as <- <-. lia.
      + rewrite (Hother _ _ Hne) in Hc. pose proof (Hr _ _ _ _ Hc). lia.
    - intros counter key. rewrite passedAt_snoc by done. destruct (decide ((counter, key) = (counterOf q, rq_key q))) as [[= -> ->]|Hne].
      + rewrite bool_decide_eq_true_2, String.eqb_refl by done. cbn [andb].
        destruct r as [e|i]; [destruct Hmine as (_ & _ & ->); cbn; rewrite app_nil_r; apply Hwin'|].
        destruct Hmine as [Hi ->]. destruct (hit _ _ _) as [n' r']. injection Hi as Hn' _. cbn [passes]. rewrite Hn'.
        destruct Hhit as (Hhit & _). destruct (n' <=? max); [exact Hhit|]. by rewrite app_nil_r.
      + rewrite (Hother _ _ Hne).
        assert (Hf : bool_decide (counterOf q = counter) && String.eqb (rq_key q) key = false).
        { case_bool_decide as Hc; [|done]. destruct (String.eqb_spec (rq_key q) key); [|done]. congruence. }
        rewrite Hf. cbn. rewrite app_nil_r. apply Hwin'. }
  split; [exact Hcount|]. destruct r as [e|i]; [tauto|]. destruct Hmine as [Hi _]. destruct (hit _ _ _) as [n' r'].
  injection Hi as -> _. apply Hhit.
Qed.

Lemma serveRequests_snoc requests q :
  serveRequests options (requests ++ [q]) = serveNext options (serveRequests options requests) q.
Proof. unfold serveRequests. by rewrite foldl_app. Qed.

Lemma serve_counted requests : forall now, StronglySorted Z.le (map rq_at requests) ->
  (forall t, t ∈ map rq_at requests -> t <= now) ->
  counted now requests (fst (serveRequests options requests)) (snd (serveRequests options requests)).
Proof.
  induction requests as [|q requests IH] using rev_ind; intros now Hs Hnow.
  - assert (Hfresh : forall counter key, counterAt (mkRateSystem ∅ ∅) counter key = None).
    { intros [p|] key; unfold counterAt, serverKey, storeOf; cbn; rewrite !lookup_empty; cbn.
      - by rewrite lookup_empty.
      - by rewrite rh_absent_view. }
    split; cbn.
    + done.
    + intros k. unfold serverKey. rewrite lookup_empty. cbn. rewrite rh_absent_view. done.
    + intros counter key n r. by rewrite Hfresh.
    + intros counter key. rewrite Hfresh. by apply windowed_fresh.
  - rewrite map_app in Hs, Hnow. apply sorted_snoc in Hs as [Hs Hbefore]. cbn in Hbefore.
    assert (Ht : rq_at q <= now) by (apply Hnow, elem_of_app; right; by left).
    rewrite serveRequests_snoc. unfold serveNext.
    pose proof (counted_serve (rq_at q) requests _ _ q (Z.le_refl _) (IH (rq_at q) Hs Hbefore)) as Hstep.
    destruct (serveRate _ _ _) as [r y']. destruct Hstep as [[H1' H2' H3' H4'] _]. split; cbn [fst snd].
    + exact H1'.
    + exact H2'.
    + intros counter key n reset Hc. pose proof (H3' _ _ _ _ Hc). lia.
    + intros counter key. apply (windowed_later _ _ Hw (rq_at q)); [done|apply H4'].
Qed.

(** C17. The limits hold across processes. For every key, the server's counter lets
    at most [2 * max] requests pass in any period of the window's length,
    whichever processes they arrive at, and so does each process's own counter
    for those it serves while Redis does not answer; a request is refused only
    if its counter has let [max] requests of the key pass in that period before
    it; and only a store that fails closed, when Redis does not answer, fails. *)
Theorem store_throttles requests :
  StronglySorted Z.le (map rq_at requests) ->
  let responses := fst (serveRequests options requests) in
  (forall counter key a, Z.of_nat (length (during a windowMs (passedAt max counter key requests responses))) <= 2 * max) /\
  (forall i q r, requests !! i = Some q -> responses !! i = Some r ->
     match r with
     | inr response => max < totalHits response ->
         (Z.to_nat max <= length (during (rq_at q - windowMs + 1) windowMs
            (passedAt max (counterOf q) (rq_key q) (take i requests) (take i responses))))%nat
     | inl _ => rs_failOpen options = false /\ rq_redis q <> Answers
     end).
Proof.
  intros Hs responses. split.
  - intros counter key a. refine (wi_bound _ _ _ _ _ (ct_windows _ _ _ _ (serve_counted requests (foldr Z.max 0 (map rq_at requests)) Hs _) counter key) a).
    intros t Ht. clear -Ht. induction (map rq_at requests) as [|x l IH]; [by apply not_elem_of_nil in Ht|].
    cbn. apply elem_of_cons in Ht as [->|Ht]; [lia|]. specialize (IH Ht). lia.
  - unfold responses. clear responses. induction requests as [|q0 requests IH] using rev_ind; intros i q r Hi Hr; [done|].
    rewrite map_app in Hs. apply sorted_snoc in Hs as [Hs Hbefore]. cbn in Hbefore. specialize (IH Hs).
    pose proof (serve_counted requests (rq_at q0) Hs Hbefore) as Hc. pose proof (ct_length _ _ _ _ Hc) as Hlen.
    rewrite serveRequests_snoc in *. unfold serveNext in *.
    pose proof (counted_serve (rq_at q0) requests _ _ q0 (Z.le_refl _) Hc) as Hstep.
    destruct (serveRate _ _ q0) as [r0 y']. destruct Hstep as [_ Hstep]. cbn [fst] in *.
    apply lookup_app_Some in Hi as [Hi|[Hge Hi]].
    + pose proof (lookup_lt_Some _ _ _ Hi) as Hlt. rewrite lookup_app_l in Hr by lia.
      rewrite !take_app_le by lia. exact (IH _ _ _ Hi Hr).
    + destruct (i - length requests)%nat as [|n] eqn:Hn; [|done]. injection Hi as <-.
      assert (i = length requests) as -> by lia. rewrite lookup_app_r in Hr by lia.
      rewrite Hlen, Nat.sub_diag in Hr. injection Hr as <-. rewrite take_app_length. rewrite Hlen, take_app_length. exact Hstep.
Qed.
End SystemProofs.
