(* ===== verification/Oracle.v ===== *)
(** * Prices (src/src/services/oracle.ts, src/src/services/providers/, src/src/services/priceService.ts)

    The polled oracle and the price list share a chain of two providers. What
    the providers' servers answer is the parameter [PriceFeed]; reading a
    decimal from its text is the parameter [DecimalText]. A fetch that outlasts
    the polling interval overlaps the next one; here fetches follow each other. *)

From Stdlib Require Import ZArith QArith Lia.
From stdpp Require Import base gmap strings list.
From S2P Require Import Prelude.
From S2P Require Import Numeric.
From S2P Require Import Errors.
From S2P Require Import CircuitBreaker.
From S2P Require Import Resilience.
From S2P Require Import Schema.

#[local] Open Scope Z_scope.

(** ** What the code is given *)

Record OracleConfig : Type := mkOracleConfig {
  requestTimeoutMs : Z;
  stalenessThresholdMs : Z;
  maxRetries : nat;
  coinGeckoUrl : string;
  coinCapUrl : string;
  coinGeckoMultiUrl : string;
  coinCapMultiUrl : string;
}.

(** What the server of an address answers, given all requests sent so far (its
    own first), and how long it takes. *)
Class PriceFeed : Type := {
  feed : list string -> Outcome Json;
  feed_elapsed : list string -> Z;
  feed_elapsed_nonneg : forall sent, 0 <= feed_elapsed sent;
}.

(** [new Decimal(text)], [None] where it throws, and [toString] of a value that
    is neither a number nor a string. *)
Class DecimalText : Type := {
  newDecimal : string -> option Q;
  otherText : Json -> string;
}.

(** ** The state *)

Inductive PriceProvider : Type := CoinGecko | CoinCap.

#[export] Instance PriceProvider_eq_dec : EqDecision PriceProvider.
Proof. solve_decision. Defined.

Definition providerName (p : PriceProvider) : string :=
  match p with CoinGecko => "coingecko" | CoinCap => "coincap" end.

Record OracleHealthSnapshot : Type := mkHealth {
  oh_running : bool;
  oh_hasPrice : bool;
  oh_stale : bool;
  oh_stalenessSeconds : option Z;
  oh_lastUpdateUnixSeconds : option Z;
}.

Record AssetPriceSet : Type := mkAssets { ap_BTC : Q; ap_ETH : Q; ap_XLM : Q }.

(** Prices as numbers; [lastUpdatedAt] in milliseconds. *)
Record PriceResponse : Type := mkPrices {
  pr_BTC : Q;
  pr_ETH : Q;
  pr_XLM : Q;
  pr_stale : bool;
  pr_lastUpdatedAt : option Z;
}.

Record CacheEntry : Type := mkCacheEntry { ce_data : PriceResponse; ce_fetchedAt : Z }.

(** The fields of PriceOracle and the cache of the price list, with the clock,
    the requests sent (the latest first, with the time each ended) and the two
    metrics of the oracle. *)
Record OracleWorld : Type := mkOracleWorld {
  ow_now : Z;
  ow_requests : list (string * Z);
  ow_breakers : gmap string Breaker;
  ow_price : option Q;
  ow_lastProvider : option string;
  ow_activeSource : option string;
  ow_lastUpdatedAt : option Z;
  ow_running : bool;
  ow_health : option OracleHealthSnapshot;
  ow_failures : list (string * string);
  ow_cache : option CacheEntry;
}.

Definition newOracle (t : Z) : OracleWorld := mkOracleWorld t [] ∅ None None None None false None [] None.

#[export] Instance OracleWorld_clock : HasClock OracleWorld := {
  clock := ow_now;
  sleep ms w := w {{ ow_now := ow_now w + ms }};
}.

(** Each provider of the chain has a breaker of its own. *)
Definition providerBreaker (p : PriceProvider) : HasBreaker OracleWorld := {|
  getBreaker w := default newBreaker (ow_breakers w !! providerName p);
  setBreaker b w := w {{ ow_breakers := <[providerName p := b]> (ow_breakers w) }};
  breakerClock := ow_now;
|}.

Definition breakerOptions (p : PriceProvider) : CircuitBreakerOptions := {|
  bo_name := (providerName p +:+ "-price-oracle")%string;
  failureThreshold := 3;
  openBackoffMs := 30000;
  halfOpenMaxCalls := 1;
|}.

(** ** Reading an answer *)

(** [v?.k] on what JSON holds. *)
Definition member (k : string) (v : option Json) : option Json :=
  match v with Some (JObj fields) => jsonField k fields | _ => None end.

Definition present (v : option Json) : option Json :=
  match v with Some JNull => None | _ => v end.

Definition invalidResponse (p : PriceProvider) : Err :=
  PlainError (match p with
              | CoinGecko => "Invalid response from CoinGecko: missing stellar.usd"
              | CoinCap => "Invalid response from CoinCap: missing data.priceUsd"
              end).

Definition invalidAssets (p : PriceProvider) : Err :=
  PlainError (match p with
              | CoinGecko => "Invalid response from CoinGecko: missing BTC, ETH, or XLM price"
              | CoinCap => "Invalid response from CoinCap: missing BTC, ETH, or XLM price"
              end).

(** The answer of a request, read further. *)
Definition mapAnswer {W A B} (read : A -> Err + B) (op : Attempt W A) : Attempt W B := fun w =>
  match op w with
  | (Resolves a, w') => (match read a with inr b => Resolves b | inl e => Rejects e end, w')
  | (Rejects e, w') => (Rejects e, w')
  | (Hangs, w') => (Hangs, w')
  end.

Section Providers.
Context `{DecimalText}.

(** [toDecimal] of a member of an answer. *)
Definition decimalOf (v : Json) : Err + Q :=
  match v with
  | JNum (Fin x) => inr (toDecimal x)
  | _ =>
      let text := match v with JStr s => s | _ => otherText v end in
      match newDecimal text with
      | Some d => inr d
      | None => inl (PlainError ("[DecimalError] Invalid argument: " +:+ text)%string)
      end
  end.

(** [response.data?.stellar?.usd] and [response.data?.data?.priceUsd] *)
Definition rawPrice (p : PriceProvider) (body : Json) : option Json :=
  match p with
  | CoinGecko => member "usd" (member "stellar" (Some body))
  | CoinCap => member "priceUsd" (member "data" (Some body))
  end.

Definition readPrice (p : PriceProvider) (body : Json) : Err + Q :=
  match present (rawPrice p body) with
  | None => inl (invalidResponse p)
  | Some v => decimalOf v
  end.

(** [byId.get(id)] of the map of an array of assets: the last one counts. *)
Fixpoint assetById (id : string) (assets : list Json) : option Json :=
  match assets with
  | [] => None
  | asset :: rest =>
      match assetById id rest, member "id" (Some asset) with
      | Some v, _ => Some v
      | None, Some (JStr i) => if String.eqb i id then Some (default JNull (member "priceUsd" (Some asset))) else None
      | None, _ => None
      end
  end.

(** The three members; [new Map(assets.map(...))] needs an array of values
    other than null. *)
Definition rawAssets (p : PriceProvider) (body : Json) : Err + (option Json * option Json * option Json) :=
  match p with
  | CoinGecko =>
      let usd coin := member "usd" (member coin (Some body)) in
      inr (usd "bitcoin"%string, usd "ethereum"%string, usd "stellar"%string)
  | CoinCap =>
      match present (member "data" (Some body)) with
      | None => inr (None, None, None)
      | Some (JArr assets) =>
          if existsb (fun a => match a with JNull => true | _ => false end) assets
          then inl (PlainError "Cannot read properties of null (reading 'id')")
          else let byId id := assetById id assets in inr (byId "bitcoin"%string, byId "ethereum"%string, byId "stellar"%string)
      | Some _ => inl (PlainError "assets.map is not a function")
      end
  end.

Definition readAssets (p : PriceProvider) (body : Json) : Err + AssetPriceSet :=
  match rawAssets p body with
  | inl e => inl e
  | inr (btc, eth, xlm) =>
      match present btc, present eth, present xlm with
      | Some btc, Some eth, Some xlm =>
          match decimalOf btc, decimalOf eth, decimalOf xlm with
          | inl e, _, _ | inr _, inl e, _ | inr _, inr _, inl e => inl e
          | inr b, inr e, inr x => inr (mkAssets b e x)
          end
      | _, _, _ => inl (invalidAssets p)
      end
  end.
End Providers.

Section Oracle.
Context `{DecimalJs} `{DecimalText} `{PriceFeed} (cfg : OracleConfig).

Definition providerUrl (p : PriceProvider) : string :=
  match p with CoinGecko => coinGeckoUrl cfg | CoinCap => coinCapUrl cfg end.

Definition assetsUrl (p : PriceProvider) : string :=
  match p with CoinGecko => coinGeckoMultiUrl cfg | CoinCap => coinCapMultiUrl cfg end.

Definition axiosGet (url : string) : Attempt OracleWorld Json := fun w =>
  let sent := url :: map fst (ow_requests w) in
  let t := ow_now w + feed_elapsed sent in
  (feed sent, w {{ ow_now := t; ow_requests := (url, t) :: ow_requests w }}).

Definition providerFetchPrice (p : PriceProvider) : Attempt OracleWorld Q := mapAnswer (readPrice p) (axiosGet (providerUrl p)).

Definition fetchAssetPrices (p : PriceProvider) : Attempt OracleWorld AssetPriceSet :=
  mapAnswer (readAssets p) (axiosGet (assetsUrl p)).

Definition createDefaultProviders : list PriceProvider := [CoinGecko; CoinCap].

(** ** PriceOracle *)

Definition getStalenessMs (w : OracleWorld) : option Z := (fun t => ow_now w - t) <$> ow_lastUpdatedAt w.

Definition getStalenessSeconds (w : OracleWorld) : option Z := (fun ms => ms / 1000) <$> getStalenessMs w.

Definition isStale (w : OracleWorld) : bool :=
  match ow_lastUpdatedAt w with
  | None => true
  | Some t => stalenessThresholdMs cfg <? ow_now w - t
  end.

Definition getHealthSnapshot (w : OracleWorld) : OracleHealthSnapshot := {|
  oh_running := ow_running w;
  oh_hasPrice := bool_decide (is_Some (ow_price w));
  oh_stale := isStale w;
  oh_stalenessSeconds := getStalenessSeconds w;
  oh_lastUpdateUnixSeconds := (fun t => t / 1000) <$> ow_lastUpdatedAt w;
|}.

Definition publishHealthMetrics (w : OracleWorld) : OracleWorld := w {{ ow_health := Some (getHealthSnapshot w) }}.

(** The operation the breaker guards. *)
Definition attemptProvider (p : PriceProvider) : M OracleWorld Err (TimeoutResult Q) := fun w =>
  let '(r, w') := withTimeout (timeoutOptions (requestTimeoutMs cfg) (maxRetries cfg)) (providerFetchPrice p) w in
  if tr_success r then (inr r, w')
  else (inl (default (PlainError ("Failed to fetch price from " +:+ providerName p)%string) (tr_error r)), w').

Definition tryProvider (p : PriceProvider) (w : OracleWorld) : TimeoutResult Q * OracleWorld :=
  match execute (H := providerBreaker p) (breakerOptions p) (attemptProvider p) w with
  | (inr r, w') => (r, w')
  | (inl e, w') =>
      if decide (err_class e = ClsCircuitBreakerOpen)
      then (mkTimeoutResult false None (Some (PlainError ("Circuit breaker open for " +:+ providerName p)%string)) 0 0 false, w')
      else (mkTimeoutResult false None (Some e) 0 0 (includes (err_message e) "timeout"), w')
  end.

Definition acceptPrice (p : PriceProvider) (data : Q) (w : OracleWorld) : OracleWorld :=
  publishHealthMetrics (w {{ ow_price := Some data; ow_lastProvider := Some (providerName p);
                             ow_activeSource := Some (providerName p); ow_lastUpdatedAt := Some (ow_now w) }}).

Definition countFailure (p : PriceProvider) (timedOut : bool) (w : OracleWorld) : OracleWorld :=
  w {{ ow_failures := ((if timedOut then "timeout" else "upstream_error")%string, providerName p) :: ow_failures w }}.

Fixpoint fetchFrom (chain : list PriceProvider) (w : OracleWorld) : OracleWorld :=
  match chain with
  | [] => publishHealthMetrics w
  | p :: rest =>
      let '(result, w') := tryProvider p w in
      match tr_success result, tr_data result with
      | true, Some data => acceptPrice p data w'
      | _, _ => fetchFrom rest (countFailure p (tr_timedOut result) w')
      end
  end.

Definition fetchPrice (w : OracleWorld) : OracleWorld := fetchFrom createDefaultProviders w.

(** Starting fetches at once; the interval is an event of its own below. *)
Definition startPolling (w : OracleWorld) : OracleWorld :=
  if ow_running w then w else fetchPrice (publishHealthMetrics (w {{ ow_running := true }})).

Definition stopPolling (w : OracleWorld) : OracleWorld :=
  if ow_running w then publishHealthMetrics (w {{ ow_running := false }}) else w.

Definition getPriceNumber (w : OracleWorld) : option Q := toNumber <$> ow_price w.

Definition getPriceString (places : nat) (w : OracleWorld) : option string := (fun d => decFixed d places) <$> ow_price w.

(** ** The price list (priceService.ts) *)

Definition CACHE_TTL_MS : Z := 30000.

(** [mockPrices]: the prices of bitcoin and ethereum in the mock data, if any. *)
Definition getMockPrices (mockPrices : option Q * option Q) (w : OracleWorld) : PriceResponse :=
  mkPrices (default 60000%Q (fst mockPrices)) (default 3000%Q (snd mockPrices)) (f64 (2891 # 10000)) false (Some (ow_now w)).

Definition toPriceResponse (a : AssetPriceSet) (w : OracleWorld) : PriceResponse :=
  mkPrices (toNumber (ap_BTC a)) (toNumber (ap_ETH a)) (toNumber (ap_XLM a)) false (Some (ow_now w)).

Definition withStaleFlag (data : PriceResponse) : PriceResponse := data {{ pr_stale := true }}.

Definition fallbackPrices : PriceResponse := mkPrices 60000 3000 (f64 (2891 # 10000)) true None.

(** A request that never ends leaves the caller waiting: [None]. *)
Fixpoint fetchAssetsFrom (chain : list PriceProvider) (lastError : Err) (w : OracleWorld)
    : option (Err + AssetPriceSet) * OracleWorld :=
  match chain with
  | [] => (Some (inl lastError), w)
  | p :: rest =>
      match fetchAssetPrices p w with
      | (Resolves a, w') => (Some (inr a), w')
      | (Rejects e, w') => fetchAssetsFrom rest e w'
      | (Hangs, w') => (None, w')
      end
  end.

Definition fetchAssetPricesWithFailover (w : OracleWorld) : option (Err + AssetPriceSet) * OracleWorld :=
  fetchAssetsFrom createDefaultProviders (PlainError "All configured price providers failed") w.

Definition getPrices (mockMode : bool) (mockPrices : option Q * option Q) (w : OracleWorld)
    : option PriceResponse * OracleWorld :=
  if mockMode then (Some (getMockPrices mockPrices w), w)
  else
    let now := ow_now w in
    let refetch :=
      match fetchAssetPricesWithFailover w with
      | (None, w') => (None, w')
      | (Some (inr assetPrices), w') =>
          let fresh := toPriceResponse assetPrices w' in
          (Some fresh, w' {{ ow_cache := Some (mkCacheEntry fresh now) }})
      | (Some (inl _), w') =>
          match ow_cache w' with
          | Some c => (Some (withStaleFlag (ce_data c)), w')
          | None => (Some fallbackPrices, w')
          end
      end in
    match ow_cache w with
    | Some c => if now - ce_fetchedAt c <? CACHE_TTL_MS then (Some (ce_data c), w) else refetch
    | None => refetch
    end.

(** ** A process that polls and answers *)

(** A tick of the polling interval does nothing once polling is stopped. *)
Inductive OracleEvent : Type :=
| StartPolling | StopPolling | PollTick | PriceList (mockMode : bool) (mockPrices : option Q * option Q) | Elapse (ms : nat).

Definition oracleStep (w : OracleWorld) (e : OracleEvent) : OracleWorld :=
  match e with
  | StartPolling => startPolling w
  | StopPolling => stopPolling w
  | PollTick => if ow_running w then fetchPrice w else w
  | PriceList mockMode mockPrices => snd (getPrices mockMode mockPrices w)
  | Elapse ms => sleep (Z.of_nat ms) w
  end.

Definition runOracle (t0 : Z) (events : list OracleEvent) : OracleWorld := foldl oracleStep (newOracle t0) events.

(** [GET /api/price] (routes/prices.ts) *)
Record XlmPriceAnswer : Type := mkXlmPrice {
  xp_price_usd : option string;
  xp_stale : bool;
  xp_provider : option string;
  xp_lastUpdatedAt : option Z;
  xp_source : option string;
  xp_timestamp : Z;
}.

Definition xlmPrice (w : OracleWorld) : XlmPriceAnswer :=
  mkXlmPrice (getPriceString 8 w) (isStale w) (ow_lastProvider w) (ow_lastUpdatedAt w) (ow_activeSource w) (ow_now w).
End Oracle.

(** ** What a fetch does *)

Section OracleProofs.
Context `{DecimalJs} `{DecimalText} `{PriceFeed} (cfg : OracleConfig).
Context (Htimeout : 0 <= requestTimeoutMs cfg).

(** The last request was answered now, by [url], with [body]. *)
Definition answeredNow (url : string) (body : Json) (w : OracleWorld) : Prop :=
  exists earlier, ow_requests w = (url, ow_now w) :: earlier /\ feed (url :: map fst earlier) = Resolves body.

(** Requests and time have passed, at most [n] requests, all to addresses in [P]. *)
Record waited (P : string -> Prop) (n : nat) (w w' : OracleWorld) : Prop := {
  wt_price : ow_price w' = ow_price w;
  wt_lastProvider : ow_lastProvider w' = ow_lastProvider w;
  wt_activeSource : ow_activeSource w' = ow_activeSource w;
  wt_lastUpdatedAt : ow_lastUpdatedAt w' = ow_lastUpdatedAt w;
  wt_running : ow_running w' = ow_running w;
  wt_cache : ow_cache w' = ow_cache w;
  wt_failures : ow_failures w' = ow_failures w;
  wt_now : ow_now w <= ow_now w';
  wt_requests : exists l, ow_requests w' = l ++ ow_requests w /\ (length l <= n)%nat /\ Forall (fun r => P (fst r)) l;
}.

Lemma waited_refl P w : waited P 0 w w.
Proof. split; try done; try lia. exists []. by split. Qed.

Lemma waited_trans P n n' w w' w'' : waited P n w w' -> waited P n' w' w'' -> waited P (n + n') w w''.
Proof.
  intros [A1 A2 A3 A4 A5 A6 A7 A8 (l & A9 & A10 & A11)] [B1 B2 B3 B4 B5 B6 B7 B8 (l' & B9 & B10 & B11)].
  split; try congruence; [lia|]. exists (l' ++ l). rewrite B9, A9, app_assoc, length_app. split; [done|].
  split; [lia|by apply Forall_app].
Qed.

Lemma waited_more P n n' w w' : (n <= n')%nat -> waited P n w w' -> waited P n' w w'.
Proof. intros Hn [? ? ? ? ? ? ? ? (l & ? & ? & ?)]. split; try done. exists l. split; [done|]. split; [lia|done]. Qed.

Lemma waited_sleep P ms w : 0 <= ms -> waited P 0 w (sleep ms w).
Proof. intros Hms. split; try done; [cbn; lia|]. by exists []. Qed.

Lemma waited_get url w : let '(r, w') := axiosGet url w in
  waited (eq url) 1 w w' /\ match r with Resolves body => answeredNow url body w' | _ => True end.
Proof.
  unfold axiosGet. set (sent := url :: _). pose proof (feed_elapsed_nonneg sent). split.
  - split; try done; cbn; [lia|]. exists [(url, ow_now w + feed_elapsed sent)]. split; [done|]. split; [done|]. by constructor.
  - destruct (feed sent) as [body| |] eqn:Hf; try done. exists (ow_requests w). by split.
Qed.

Lemma waited_race p w : let '(r, w') := race (requestTimeoutMs cfg) (providerFetchPrice cfg p) w in
  waited (eq (providerUrl cfg p)) 1 w w' /\
  match r with inr d => exists body, answeredNow (providerUrl cfg p) body w' /\ readPrice p body = inr d | inl _ => True end.
Proof.
  unfold race, providerFetchPrice, mapAnswer. pose proof (waited_get (providerUrl cfg p) w) as Hg.
  destruct (axiosGet _ w) as [[body|e|] w1]; destruct Hg as [Hw Ha].
  - destruct (readPrice p body) as [e|d] eqn:Hd; [done|]. split; [done|]. by exists body.
  - done.
  - split; [|done]. exact (waited_trans _ 1 0 _ _ _ Hw (waited_sleep _ _ _ Htimeout)).
Qed.

Lemma backoff_nonneg n k : 0 <= backoffMs (timeoutOptions (requestTimeoutMs cfg) n) k.
Proof. unfold backoffMs. cbn. apply Z.min_glb; [|lia]. apply Z.mul_nonneg_nonneg; [lia|]. apply Z.pow_nonneg. lia. Qed.

Lemma waited_attempts p start left : forall attempt last w,
  let '(r, w') := withTimeoutFrom (timeoutOptions (requestTimeoutMs cfg) (maxRetries cfg)) (providerFetchPrice cfg p) start left attempt last w in
  waited (eq (providerUrl cfg p)) left w w' /\
  (tr_success r = true -> exists d body, tr_data r = Some d /\ answeredNow (providerUrl cfg p) body w' /\ readPrice p body = inr d).
Proof.
  induction left as [|left IH]; intros attempt last w; cbn [withTimeoutFrom]; [split; [apply waited_refl|done]|].
  change (timeoutMs _) with (requestTimeoutMs cfg). pose proof (waited_race p w) as Hr.
  destruct (race _ _ w) as [[e|d] w1]; destruct Hr as [Hw Ha].
  - destruct left as [|left]; [by split|].
    specialize (IH (S attempt) (Some e) (sleep (backoffMs (timeoutOptions (requestTimeoutMs cfg) (maxRetries cfg)) attempt) w1)).
    destruct (withTimeoutFrom _ _ _ _ _ _ _) as [r w2]. destruct IH as [Hw2 Hs]. split; [|exact Hs].
    change (S (S left)) with (1 + (0 + S left))%nat. eapply waited_trans; [exact Hw|].
    eapply waited_trans; [apply waited_sleep, backoff_nonneg|exact Hw2].
  - split; [by apply (waited_more _ 1); [lia|]|]. intros _. destruct Ha as (body & Ha & Hd). by exists d, body.
Qed.

Lemma waited_setBreaker P p b w w' n : waited P n w w' -> waited P n w (setBreaker (HasBreaker := providerBreaker p) b w').
Proof. by intros [? ? ? ? ? ? ? ? ?]. Qed.

(** One provider: at most [maxRetries] requests, to this provider only, and a
    price only if the last of them has just been answered with it. *)
Lemma tryProvider_spec p w : let '(r, w') := tryProvider cfg p w in
  waited (eq (providerUrl cfg p)) (maxRetries cfg) w w' /\
  (tr_success r = true -> exists d body, tr_data r = Some d /\ answeredNow (providerUrl cfg p) body w' /\ readPrice p body = inr d).
Proof.
  unfold tryProvider, execute.
  assert (Hwait : forall b, waited (eq (providerUrl cfg p)) 0 w (setBreaker (HasBreaker := providerBreaker p) b w))
    by (intros b; apply waited_setBreaker, waited_refl).
  destruct (beforeCall _ _ _) as [[e|[]] b].
  { case_decide; (split; [|done]); apply (waited_more _ 0); [lia|apply Hwait|lia|apply Hwait]. }
  unfold attemptProvider, withTimeout.
  pose proof (waited_attempts p (clock (setBreaker (HasBreaker := providerBreaker p) b w)) (maxRetries cfg) 0 None
                (setBreaker (HasBreaker := providerBreaker p) b w)) as Ha.
  change (retries _) with (maxRetries cfg). destruct (withTimeoutFrom _ _ _ _ _ _ _) as [r w1]. destruct Ha as [Hw Hs].
  assert (Hw1 : forall b', waited (eq (providerUrl cfg p)) (maxRetries cfg) w (setBreaker (HasBreaker := providerBreaker p) b' w1)).
  { intros b'. apply waited_setBreaker. exact (waited_trans _ 0 _ _ _ _ (Hwait b) Hw). }
  destruct (tr_success r) eqn:Er; [split; [apply Hw1|]; intros _; by destruct Hs as (d & body & ? & ? & ?); [|exists d, body]|].
  case_decide; (split; [apply Hw1|done]).
Qed.

Lemma waited_any P n w w' : waited P n w w' -> waited (fun _ => True) n w w'.
Proof. intros [? ? ? ? ? ? ? ? (l & ? & ? & ?)]. split; try done. exists l. split; [done|]. split; [done|]. by apply Forall_true. Qed.

(** A provider's price is the oracle's price. *)
Definition accepted (p : PriceProvider) (w : OracleWorld) : Prop :=
  exists d body, answeredNow (providerUrl cfg p) body w /\ readPrice p body = inr d /\
    ow_price w = Some d /\ ow_lastProvider w = Some (providerName p) /\ ow_activeSource w = Some (providerName p) /\
    ow_lastUpdatedAt w = Some (ow_now w).

(** The price and what is known of it. *)
Definition quote (w : OracleWorld) : option Q * option string * option string * option Z :=
  (ow_price w, ow_lastProvider w, ow_activeSource w, ow_lastUpdatedAt w).

Record fetched (chain : list PriceProvider) (w w' : OracleWorld) : Prop := {
  fe_running : ow_running w' = ow_running w;
  fe_cache : ow_cache w' = ow_cache w;
  fe_now : ow_now w <= ow_now w';
  fe_health : ow_health w' = Some (getHealthSnapshot cfg w');
  fe_requests : exists l, ow_requests w' = l ++ ow_requests w /\ (length l <= length chain * maxRetries cfg)%nat;
  fe_result : exists failed, ow_failures w' = failed ++ ow_failures w /\
    ((quote w' = quote w /\ map snd failed = rev (map providerName chain)) \/
     exists before p after, chain = before ++ p :: after /\ accepted p w' /\ map snd failed = rev (map providerName before));
}.

Lemma fetchFrom_spec chain : forall w, fetched chain w (fetchFrom cfg chain w).
Proof.
  induction chain as [|p rest IH]; intros w; cbn [fetchFrom].
  { split; try done; [exists []; by split|]. exists []. split; [done|]. by left. }
  pose proof (tryProvider_spec p w) as Ht. destruct (tryProvider cfg p w) as [result w1].
  destruct Ht as [[A1 A2 A3 A4 A5 A6 A7 A8 (l & A9 & A10 & _)] Hs].
  assert (Hnext : fetched (p :: rest) w (fetchFrom cfg rest (countFailure p (tr_timedOut result) w1))).
  { destruct (IH (countFailure p (tr_timedOut result) w1)) as [B1 B2 B3 B4 (l' & B5 & B6) (failed & B7 & B8)].
    set (w2 := countFailure p (tr_timedOut result) w1) in *.
    change (ow_running w2) with (ow_running w1) in B1. change (ow_cache w2) with (ow_cache w1) in B2.
    change (ow_now w2) with (ow_now w1) in B3. change (ow_requests w2) with (ow_requests w1) in B5.
    change (quote w2) with (quote w1) in B8.
    change (ow_failures w2) with (((if tr_timedOut result then "timeout" else "upstream_error")%string, providerName p) :: ow_failures w1) in B7.
    unfold quote in B8. rewrite A9 in B5. rewrite A7 in B7. split; try congruence; [lia| |].
    - exists (l' ++ l). rewrite <- app_assoc. split; [exact B5|]. rewrite length_app. cbn [length]. lia.
    - exists (failed ++ [((if tr_timedOut result then "timeout" else "upstream_error")%string, providerName p)]).
      rewrite <- app_assoc, map_app. cbn. split; [exact B7|].
      destruct B8 as [[Hq Hf]|(before & p' & after & Hc & Ha & Hf)].
      + left. split; [|by rewrite Hf]. rewrite A1, A2, A3, A4 in Hq. exact Hq.
      + right. exists (p :: before), p', after. split; [by rewrite Hc|]. split; [exact Ha|]. cbn [map rev]. by rewrite Hf. }
  destruct (tr_success result); [|exact Hnext]. destruct Hs as (d & body & Hd & (earlier & Ha & Hfeed) & Hread); [done|].
  rewrite Hd. split; try done.
  - exists l. split; [done|]. cbn [length]. lia.
  - exists []. split; [done|]. right. exists [], p, rest. split; [done|]. split; [|done]. exists d, body.
    split; [by exists earlier|]. by split.
Qed.

(** Failover. A fetch asks the providers in order, a skipped or failing one at
    most [maxRetries] times and counted once as a failure. It ends with the
    price that the first provider to succeed has just given, with its name and
    the present time, or, all having failed, with the price, the source and the
    time it had before. The health published is that of the end. *)
Theorem fetchPrice_failover w :
  let w' := fetchPrice cfg w in
  ow_health w' = Some (getHealthSnapshot cfg w') /\
  (exists l, ow_requests w' = l ++ ow_requests w /\ (length l <= 2 * maxRetries cfg)%nat) /\
  exists failed, ow_failures w' = failed ++ ow_failures w /\
    ((quote w' = quote w /\ map snd failed = ["coincap"; "coingecko"]%string) \/
     (accepted CoinGecko w' /\ failed = []) \/
     (accepted CoinCap w' /\ map snd failed = ["coingecko"]%string)).
Proof.
  intros w'. destruct (fetchFrom_spec createDefaultProviders w) as [_ _ _ Hh Hr (failed & Hf & Hres)].
  split; [exact Hh|]. split; [exact Hr|]. exists failed. split; [exact Hf|].
  destruct Hres as [[Hq Hn]|(before & p & after & Hc & Ha & Hn)]; [by left|]. right.
  destruct before as [|p0 [|p1 [|]]]; try discriminate; injection Hc as; subst.
  - left. split; [exact Ha|]. by destruct failed.
  - right. by split.
Qed.

(** Without a single attempt configured nobody is asked. *)
Lemma no_attempts w : maxRetries cfg = 0%nat -> ow_requests (fetchPrice cfg w) = ow_requests w.
Proof.
  intros Hm. destruct (fetchFrom_spec createDefaultProviders w) as [_ _ _ _ (l & Hr & Hl) _]. rewrite Hm in Hl.
  destruct l; [exact Hr|cbn in Hl; lia].
Qed.

(** ** What a running process knows *)

(** At [t] the server of [url] has answered with [body]. *)
Definition answeredAt (url : string) (t : Z) (body : Json) (w : OracleWorld) : Prop :=
  t <= ow_now w /\
  exists later earlier, ow_requests w = later ++ (url, t) :: earlier /\ feed (url :: map fst earlier) = Resolves body.

(** Where the price comes from. *)
Definition quoted (w : OracleWorld) : Prop :=
  match ow_price w with
  | None => ow_lastProvider w = None /\ ow_activeSource w = None /\ ow_lastUpdatedAt w = None
  | Some d => exists p t body, ow_lastProvider w = Some (providerName p) /\ ow_activeSource w = Some (providerName p) /\
      ow_lastUpdatedAt w = Some t /\ answeredAt (providerUrl cfg p) t body w /\ readPrice p body = inr d
  end.

(** The prices of one answer, given at [t]. *)
Definition listed (t : Z) (data : PriceResponse) (w : OracleWorld) : Prop :=
  exists p body a, answeredAt (assetsUrl cfg p) t body w /\ readAssets p body = inr a /\
    data = mkPrices (toNumber (ap_BTC a)) (toNumber (ap_ETH a)) (toNumber (ap_XLM a)) false (Some t).

Record knows (w : OracleWorld) : Prop := {
  kn_quote : quoted w;
  kn_cache : forall c, ow_cache w = Some c -> exists t, ce_fetchedAt c <= t /\ listed t (ce_data c) w;
}.

(** Later on. *)
Definition later_than (w w' : OracleWorld) : Prop :=
  ow_now w <= ow_now w' /\ exists l, ow_requests w' = l ++ ow_requests w.

Lemma answeredAt_later url t body w w' : later_than w w' -> answeredAt url t body w -> answeredAt url t body w'.
Proof.
  intros [Hle (l & Hl)] [Ht (later & earlier & Hr & Hf)]. split; [lia|]. exists (l ++ later), earlier.
  split; [|done]. by rewrite Hl, Hr, app_assoc.
Qed.

Lemma answeredNow_at url body w : answeredNow url body w -> answeredAt url (ow_now w) body w.
Proof. intros (earlier & Hr & Hf). split; [done|]. by exists [], earlier. Qed.

Lemma quoted_later w w' : later_than w w' -> quote w' = quote w -> quoted w -> quoted w'.
Proof.
  intros Hl. unfold quote, quoted. intros [= -> -> -> ->]. destruct (ow_price w) as [d|]; [|done].
  intros (p & t & body & Hp & Hs & Ht & Ha & Hr). exists p, t, body. repeat (split; [done|]). split; [|done].
  by apply (answeredAt_later _ _ _ w).
Qed.

Lemma listed_later t data w w' : later_than w w' -> listed t data w -> listed t data w'.
Proof. intros Hl (p & body & a & Ha & Hr & Hd). exists p, body, a. split; [|done]. by apply (answeredAt_later _ _ _ w). Qed.

Lemma knows_later w w' : later_than w w' -> quote w' = quote w -> ow_cache w' = ow_cache w -> knows w -> knows w'.
Proof.
  intros Hl Hq Hc [K1 K2]. split; [by apply (quoted_later w)|]. rewrite Hc. intros c (t & Ht & Hd)%K2. exists t.
  split; [done|]. by apply (listed_later _ _ w).
Qed.

Lemma knows_fetchPrice w : knows w -> knows (fetchPrice cfg w).
Proof.
  intros K. destruct (fetchFrom_spec createDefaultProviders w) as [_ Hc Hn _ (l & Hr & _) (failed & _ & Hres)].
  fold (fetchPrice cfg w) in *. assert (Hl : later_than w (fetchPrice cfg w)) by (split; [done|by exists l]).
  destruct Hres as [[Hq _]|(before & p & after & _ & (d & body & Ha & Hd & Hp & Hn1 & Hn2 & Ht) & _)];
    [by apply (knows_later w)|].
  split.
  - unfold quoted. rewrite Hp. exists p, (ow_now (fetchPrice cfg w)), body. repeat (split; [done|]).
    split; [by apply answeredNow_at|done].
  - destruct K as [_ K2]. rewrite Hc. intros c (t & Hct & Hd')%K2. exists t. split; [done|]. by apply (listed_later _ _ w).
Qed.

(** The providers in order: an answer that has just been given, or an error. *)
Lemma fetchAssetsFrom_spec chain : forall lastError w, let '(r, w') := fetchAssetsFrom cfg chain lastError w in
  waited (fun _ => True) (length chain) w w' /\
  match r with
  | Some (inr a) => exists p body, answeredNow (assetsUrl cfg p) body w' /\ readAssets p body = inr a
  | _ => True
  end.
Proof.
  induction chain as [|p rest IH]; intros lastError w; cbn [fetchAssetsFrom]; [split; [apply waited_refl|done]|].
  unfold fetchAssetPrices, mapAnswer. pose proof (waited_get (assetsUrl cfg p) w) as Hg.
  destruct (axiosGet _ w) as [r w1]. destruct Hg as [Hw%waited_any Ha].
  assert (Hnext : forall e, let '(r, w') := fetchAssetsFrom cfg rest e w1 in
    waited (fun _ => True) (length (p :: rest)) w w' /\
    match r with Some (inr a) => exists p body, answeredNow (assetsUrl cfg p) body w' /\ readAssets p body = inr a | _ => True end).
  { intros e. specialize (IH e w1). destruct (fetchAssetsFrom _ _ _ w1) as [r' w2]. destruct IH as [Hw2 Hr].
    split; [exact (waited_trans _ 1 _ _ _ _ Hw Hw2)|exact Hr]. }
  destruct r as [body|e|]; [destruct (readAssets p body) as [e|a] eqn:Hr|apply Hnext|]; [apply Hnext| |];
    (split; [by apply (waited_more _ 1); [cbn; lia|]|]); [by exists p, body|done].
Qed.

Lemma waited_later P n w w' : waited P n w w' -> later_than w w' /\ quote w' = quote w /\ ow_cache w' = ow_cache w.
Proof. intros [A1 A2 A3 A4 A5 A6 A7 A8 (l & A9 & _)]. split; [split; [done|by exists l]|]. unfold quote. by rewrite A1, A2, A3, A4. Qed.

(** What one request for the list gets. *)
Definition served (w w' : OracleWorld) (data : PriceResponse) : Prop :=
  (exists t, listed t data w' /\ ow_now w' - t < CACHE_TTL_MS) \/
  (exists t old, listed t old w' /\ data = withStaleFlag old) \/
  (data = fallbackPrices /\ ow_cache w = None).

Lemma getPrices_step mockPrices w : knows w ->
  let '(r, w') := getPrices cfg false mockPrices w in
  knows w' /\ later_than w w' /\ quote w' = quote w /\ forall data, r = Some data -> served w w' data.
Proof.
  intros K. unfold getPrices.
  pose proof (fetchAssetsFrom_spec createDefaultProviders (PlainError "All configured price providers failed") w) as Hf.
  fold (fetchAssetPricesWithFailover cfg w) in Hf. destruct (fetchAssetPricesWithFailover cfg w) as [r w1].
  destruct Hf as [Hw Hr]. apply waited_later in Hw as (Hl & Hq & Hc). pose proof (knows_later w w1 Hl Hq Hc K) as K1.
  assert (Hrefetch : let '(r, w') := match r with
      | Some (inr a) => (Some (toPriceResponse a w1), w1 {{ ow_cache := Some (mkCacheEntry (toPriceResponse a w1) (ow_now w)) }})
      | Some (inl _) => (match ow_cache w1 with Some c => Some (withStaleFlag (ce_data c)) | None => Some fallbackPrices end, w1)
      | None => (None, w1)
      end in
    knows w' /\ later_than w w' /\ quote w' = quote w /\ forall data, r = Some data -> served w w' data).
  { destruct r as [[e|a]|]; [| |split; [exact K1|split; [exact Hl|split; [exact Hq|intros data Hd; discriminate Hd]]]].
    - split; [exact K1|]. split; [exact Hl|]. split; [exact Hq|]. intros data. destruct (ow_cache w1) as [c|] eqn:Ec; intros [= <-]; right.
      + left. destruct (kn_cache _ K1 c Ec) as (t & _ & Hd). by exists t, (ce_data c).
      + right. by rewrite <- Hc.
    - destruct Hr as (p & body & Ha & Hr).
      assert (Hd : listed (ow_now w1) (toPriceResponse a w1) w1)
        by (exists p, body, a; split; [by apply answeredNow_at|done]).
      assert (Hl' : later_than w1 (w1 {{ ow_cache := Some (mkCacheEntry (toPriceResponse a w1) (ow_now w)) }}))
        by (split; [done|by exists []]).
      split; [|split; [exact Hl|split; [exact Hq|]]].
      + split; [exact (quoted_later w1 _ Hl' eq_refl (kn_quote _ K1))|]. intros c [= <-]. exists (ow_now w1).
        split; [apply Hl|]. exact (listed_later _ _ w1 _ Hl' Hd).
      + intros data [= <-]. left. exists (ow_now w1). split; [exact (listed_later _ _ w1 _ Hl' Hd)|]. change (ow_now w1 - ow_now w1 < 30000). lia. }
  destruct (ow_cache w) as [c|] eqn:Ec; [destruct (Z.ltb_spec (ow_now w - ce_fetchedAt c) CACHE_TTL_MS)|].
  - split; [exact K|]. split; [split; [done|by exists []]|]. split; [done|]. intros data [= <-]. left.
    destruct (kn_cache _ K c Ec) as (t & Ht & Hd). exists t. split; [exact Hd|lia].
  - destruct r as [[e|a]|]; [|exact Hrefetch..]. by destruct (ow_cache w1).
  - destruct r as [[e|a]|]; [|exact Hrefetch..]. by destruct (ow_cache w1).
Qed.

Lemma knows_step w e : knows w -> knows (oracleStep cfg w e).
Proof.
  intros K. assert (Hsame : forall f : OracleWorld -> OracleWorld, ow_now (f w) = ow_now w -> ow_requests (f w) = ow_requests w ->
    quote (f w) = quote w -> ow_cache (f w) = ow_cache w -> knows (f w)).
  { intros f Hn Hr Hq Hc. apply (knows_later w); [split; [lia|by exists []]|done..]. }
  destruct e as [| | |mockMode mockPrices|ms]; cbn [oracleStep].
  - unfold startPolling. destruct (ow_running w); [done|]. apply knows_fetchPrice.
    apply (Hsame (fun w => publishHealthMetrics cfg (w {{ ow_running := true }}))); by destruct w.
  - unfold stopPolling. destruct (ow_running w); [|done].
    apply (Hsame (fun w => publishHealthMetrics cfg (w {{ ow_running := false }}))); by destruct w.
  - destruct (ow_running w); [by apply knows_fetchPrice|done].
  - destruct mockMode; [exact K|]. pose proof (getPrices_step mockPrices w K) as Hg. destruct (getPrices _ _ _ w) as [r w']. apply Hg.
  - apply (knows_later w); [split; [cbn; lia|by exists []]|done..].
Qed.

Lemma knows_run t0 events : knows (runOracle cfg t0 events).
Proof.
  unfold runOracle. assert (K : knows (newOracle t0)) by (split; [by repeat split|done]).
  revert K. generalize (newOracle t0). induction events as [|e events IH]; intros w K; [exact K|]. apply IH, knows_step, K.
Qed.

(** C13. A price is never older than it is said to be. Whatever a process has polled
    and served: the oracle's price, once there is one, is what the provider it
    names answered at the time it names; if it is not stale there is a price,
    answered within the threshold; and a list of prices, outside mock mode, is
    one answer of one provider, given less than thirty seconds ago, or marked
    stale, and then an older answer or, none having ever been cached, the
    fixed prices. *)
Theorem price_provenance t0 events :
  let w := runOracle cfg t0 events in
  (forall d, ow_price w = Some d -> exists p t body, ow_lastProvider w = Some (providerName p) /\
     ow_lastUpdatedAt w = Some t /\ answeredAt (providerUrl cfg p) t body w /\ readPrice p body = inr d) /\
  (isStale cfg w = false -> exists d t, ow_price w = Some d /\ ow_lastUpdatedAt w = Some t /\
     ow_now w - t <= stalenessThresholdMs cfg) /\
  (forall mockPrices data w', getPrices cfg false mockPrices w = (Some data, w') ->
     (pr_stale data = false -> exists t, listed t data w' /\ ow_now w' - t < CACHE_TTL_MS) /\
     (pr_stale data = true -> (exists t old, listed t old w' /\ data = withStaleFlag old) \/
                              (data = fallbackPrices /\ ow_cache w = None))).
Proof.
  intros w. pose proof (knows_run t0 events) as K. fold w in K. split; [|split].
  - intros d Hd. pose proof (kn_quote _ K) as Hq. unfold quoted in Hq. rewrite Hd in Hq.
    destruct Hq as (p & t & body & Hp & _ & Ht & Ha & Hr). by exists p, t, body.
  - unfold isStale. intros Hs. pose proof (kn_quote _ K) as Hq. unfold quoted in Hq.
    destruct (ow_lastUpdatedAt w) as [t|] eqn:Et; [|done]. destruct (ow_price w) as [d|]; [|by destruct Hq as (_ & _ & [=])].
    exists d, t. split; [done|]. split; [done|]. by apply Z.ltb_ge in Hs.
  - intros mockPrices data w' Hg. pose proof (getPrices_step mockPrices w K) as Hs. rewrite Hg in Hs.
    destruct Hs as (_ & _ & _ & Hs). destruct (Hs data eq_refl) as [(t & Hd & Ht)|[(t & old & Ho & ->)|[-> Hc]]].
    + split; [by exists t|]. destruct Hd as (p & body & a & _ & _ & ->). done.
    + split; [destruct old; done|]. intros _. left. by exists t, old.
    + split; [done|]. intros _. by right.
Qed.
End OracleProofs.
