(* ===== verification/OracleService.v ===== *)
(** * Resolution by the oracle service (src/src/services/oracle.service.ts)

    The service resolves the rounds that ended fifteen seconds ago at the
    oracle's price, each with up to three attempts and a pause between them.
    As in [Scheduler] the lock is a function from the number of a checkpoint;
    what a run has done is returned with the error that ended it. The oracle it
    reads is a state of [Oracle]. *)

From Stdlib Require Import ZArith QArith Lia.
From stdpp Require Import base gmap strings list.
From S2P Require Import Prelude.
From S2P Require Import Numeric.
From S2P Require Import Errors.
From S2P Require Import Resilience.
From S2P Require Import DistributedLock.
From S2P Require Import Schema.
From S2P Require Import Store.
From S2P Require Import Resolution.
From S2P Require Import Scheduler.
From S2P Require Import Oracle.

#[local] Open Scope Z_scope.

Definition MAX_RESOLVE_RETRIES : nat := 3.
Definition RETRY_DELAY_MS : Z := 5000.

(** The options of its lock *)
Definition oracleLockName : string := "oracle-resolve-rounds".
Definition oracleLock : DistributedLockConfig := lockOptions 60 600.

(** What the services read of an oracle. *)
Definition readingOracle (cfg : OracleConfig) (w : OracleWorld) (E : Env) : Env := {|
  env_client := env_client; env_newid := env_newid; env_sorobanReady := env_sorobanReady;
  env_failClosed := env_failClosed; env_betStubMode := env_betStubMode; env_breakerOptions := env_breakerOptions;
  env_oracleRunning := ow_running w; env_oracleStale := isStale cfg w; env_stack := env_stack;
|}.

Section OracleService.
Context `{Env} `{DecimalJs} `{PgNumeric}.

Definition pause (ms : Z) : Svc unit := modify (sleep ms).

(** How the attempts at one round end, with the number of the next checkpoint:
    a result of the settlement, none after the last attempt, or the loss of the
    lock, which ends the batch. *)
Inductive RetryEnd : Type := Settled (r : ResolveResult) | Exhausted | LockGone (e : Err).

(** The loop from [attempt] on, [left] attempts before its end. *)
Fixpoint resolveWithRetryFrom (lock : LockHandle) (roundId : string) (price : Q) (left n i : nat)
    : Svc (RetryEnd * nat) :=
  match left with
  | O => ret (Exhausted, i)
  | S left' =>
      match lock i with
      | Some reason => ret (LockGone (LockLostError oracleLockName reason), S i)
      | None =>
          r <- attempt (resolveRound None roundId (DecimalArg price)) ;;
          match r with
          | inr result => ret (Settled result, S i)
          | inl e =>
              if isLockLostError e then ret (LockGone e, S i)
              else
                when (n <? MAX_RESOLVE_RETRIES)%nat (pause (RETRY_DELAY_MS * Z.of_nat n)) ;;;
                resolveWithRetryFrom lock roundId price left' (S n) (S i)
          end
      end
  end.

Definition resolveWithRetry (lock : LockHandle) (roundId : string) (price : Q) (i : nat) : Svc (RetryEnd * nat) :=
  resolveWithRetryFrom lock roundId price MAX_RESOLVE_RETRIES 1 i.

(** The loop over the eligible rounds; what is logged for each is its item. *)
Fixpoint resolveEach (lock : LockHandle) (price : Q) (batch : list Round) (i : nat) (items : list (string * JobOutcome))
    : Svc (list (string * JobOutcome) * option Err) :=
  match batch with
  | [] => ret (items, None)
  | round :: rest =>
      match lock i with
      | Some reason => ret (items, Some (LockLostError oracleLockName reason))
      | None =>
          r <- resolveWithRetry lock (r_id round) price (S i) ;;
          match r with
          | (LockGone e, _) => ret (items, Some e)
          | (Settled (ResUpdated _), i') => resolveEach lock price rest i' (items ++ [(r_id round, job_success)])
          | (Settled _, i') => resolveEach lock price rest i' (items ++ [(r_id round, job_no_op)])
          | (Exhausted, i') => resolveEach lock price rest i' (items ++ [(r_id round, job_failure)])
          end
      end
  end.

(** [resolveEligibleRoundsInternal]; the errors it catches are logged. *)
Definition resolveEligible (price : option Q) (lock : LockHandle) : Svc (list (string * JobOutcome) * option Err) :=
  match usablePrice price with
  | None => ret ([], None)
  | Some currentPrice =>
      t <- now ;;
      eligibleRounds <- findMany (endedRound (t - RESOLVE_BUFFER_MS)) (fun a b => r_endTime b <? r_endTime a) ;;
      resolveEach lock currentPrice eligibleRounds 0 []
  end.

(** One run after the other, of either resolver, each at the oracle's state of
    its time; [rr_after] milliseconds pass before the next. *)
Record ResolverRun : Type := mkResolverRun {
  rr_service : bool;
  rr_oracle : OracleWorld;
  rr_lock : LockHandle;
  rr_after : nat;
}.

Definition resolveEligibleRounds (price : option Q) (granted : option LockHandle)
    : Svc (option (list (string * JobOutcome) * option Err)) := withDistributedLock granted (resolveEligible price).
End OracleService.

Section Runs.
Context `{E : Env} `{DecimalJs} `{PgNumeric} (cfg : OracleConfig).

(** The price the run reads and what it logs for each round. *)
Definition runResolver (x : ResolverRun) : Svc (list (string * JobOutcome)) :=
  let price := ow_price (rr_oracle x) in
  let E' := readingOracle cfg (rr_oracle x) E in
  items <- (if rr_service x then r <- @resolveEligible E' _ _ price (rr_lock x) ;; ret (fst r)
            else report <- @autoResolveRounds E' _ _ price (rr_lock x) ;; ret (jr_items report)) ;;
  pause (Z.of_nat (rr_after x)) ;;;
  ret items.

Fixpoint runResolvers (l : list ResolverRun) : Svc (list (string * JobOutcome)) :=
  match l with
  | [] => ret []
  | x :: rest =>
      items <- runResolver x ;;
      more <- runResolvers rest ;;
      ret (items ++ more)
  end.
End Runs.

(** ** What a run pays *)

Section Batches.
Context `{Env} `{DecimalJs} `{PgNumeric}.

(** Three attempts at one round: nothing has changed in the tables that hold
    money and rounds, or one settlement was made. *)
Lemma retry_pays lock roundId price left : forall n i w, w_base w = None -> keyed (w_db w) ->
  exists r i' w', resolveWithRetryFrom lock roundId price left n i w = (inr (r, i'), w') /\ w_base w' = None /\
    (i <= i' <= i + left + 1)%nat /\
    match r with
    | Settled (ResUpdated r') => exists s, settledId s = roundId /\ settlementOf (w_db w) s /\
        (users (w_db w'), predictions (w_db w')) = payTables (users (w_db w)) (predictions (w_db w)) (payments (fst s) (snd s) price) /\
        rounds (w_db w') = <[roundId := r']> (rounds (w_db w)) /\ r_status r' = RESOLVED /\ keyed (w_db w') /\
        (forall k p, p_roundId p <> roundId -> predictions (w_db w') !! k = Some p <-> predictions (w_db w) !! k = Some p)
    | _ => users (w_db w') = users (w_db w) /\ predictions (w_db w') = predictions (w_db w) /\ rounds (w_db w') = rounds (w_db w)
    end.
Proof.
  induction left as [|left IH]; intros n i w Hb K; cbn [resolveWithRetryFrom].
  { exists Exhausted, i, w. split; [done|]. split; [done|]. split; [lia|done]. }
  destruct (lock i) as [reason|]; [eexists _, (S i), w; split; [done|]; split; [done|]; split; [lia|done]|].
  unfold bind at 1, attempt. destruct (resolveRound None roundId (DecimalArg price) w) as [r w1] eqn:E.
  destruct r as [e|[|r'|r']].
  - destruct (resolveRound_failed None _ _ _ _ _ Hb E) as (Hu & Hr & Hp & Hb1).
    destruct (isLockLostError e); [eexists _, (S i), w1; split; [done|]; split; [done|]; split; [lia|done]|].
    set (w2 := if (n <? MAX_RESOLVE_RETRIES)%nat then sleep (RETRY_DELAY_MS * Z.of_nat n) w1 else w1).
    assert (Hw2 : when (n <? MAX_RESOLVE_RETRIES)%nat (pause (RETRY_DELAY_MS * Z.of_nat n)) w1 = (inr tt, w2))
      by (unfold w2; by destruct (n <? MAX_RESOLVE_RETRIES)%nat).
    assert (Hdb : w_db w2 = w_db w1 /\ w_base w2 = None) by (unfold w2; by destruct (n <? MAX_RESOLVE_RETRIES)%nat).
    destruct Hdb as [Hdb Hb2]. rewrite (bind_ok _ _ _ _ _ Hw2).
    assert (K2 : keyed (w_db w2)) by (rewrite Hdb; destruct K; split; rewrite ?Hr, ?Hp; assumption).
    destruct (IH (S n) (S i) w2 Hb2 K2) as (r & i' & w' & Hrun & Hb' & Hi & Hres). exists r, i', w'.
    split; [exact Hrun|]. split; [exact Hb'|]. split; [lia|].
    unfold settlementOf, rowsWhere, tbl, Table_Prediction in *. by rewrite Hdb, Hu, Hp, Hr in Hres.
  - apply (resolveRound_quiet None _ _ _ _ _ Hb) in E as ->; [|done]. eexists _, (S i), w. split; [done|]. split; [done|]. split; [lia|done].
  - apply (resolveRound_quiet None _ _ _ _ _ Hb) in E as ->; [|done]. eexists _, (S i), w. split; [done|]. split; [done|]. split; [lia|done].
  - destruct (one_settlement _ _ _ _ _ Hb K E) as (Hb1 & s & Hid & Hs & Hpay & Hr & Hst & K1 & Hother).
    eexists (Settled (ResUpdated r')), (S i), w1. split; [done|]. split; [done|]. split; [lia|]. exists s. by repeat (split; [done|]).
Qed.

Lemma each_pays lock price batch : forall i items w, w_base w = None -> keyed (w_db w) -> NoDup (map r_id batch) ->
  exists done error w' paid, resolveEach lock price batch i items w = (inr (items ++ done, error), w') /\ w_base w' = None /\
    batchDone price (w_db w) (w_db w') done paid /\ NoDup (map settledId paid) /\
    (forall k, k ∈ map settledId paid -> k ∈ map r_id batch).
Proof.
  induction batch as [|round rest IH]; intros i items w Hb K Hnd; cbn [resolveEach].
  { exists [], None, w, []. rewrite app_nil_r. split; [done|]. split; [done|]. split; [by apply batchDone_same|]. split; [constructor|done]. }
  change (NoDup (r_id round :: map r_id rest)) in Hnd. apply NoDup_cons in Hnd as [Hnin Hnd].
  destruct (lock i) as [reason|].
  { exists [], (Some (LockLostError oracleLockName reason)), w, []. rewrite app_nil_r. split; [done|]. split; [done|].
    split; [by apply batchDone_same|]. split; [constructor|]. by intros k ?%not_elem_of_nil. }
  destruct (retry_pays lock (r_id round) price MAX_RESOLVE_RETRIES 1 (S i) w Hb K) as (r & i' & w1 & Hrun & Hb1 & _ & Hres).
  fold (resolveWithRetry lock (r_id round) price (S i)) in Hrun. rewrite (bind_ok _ _ _ _ _ Hrun).
  assert (Hskip : forall new, succeeded new = [] ->
    users (w_db w1) = users (w_db w) /\ predictions (w_db w1) = predictions (w_db w) /\ rounds (w_db w1) = rounds (w_db w) ->
    exists done error w' paid, resolveEach lock price rest i' (items ++ new) w1 = (inr (items ++ done, error), w') /\ w_base w' = None /\
      batchDone price (w_db w) (w_db w') done paid /\ NoDup (map settledId paid) /\
      (forall k, k ∈ map settledId paid -> k ∈ map r_id (round :: rest))).
  { intros new Hnew (Hu & Hp & Hr). assert (K1 : keyed (w_db w1)) by (destruct K; split; rewrite ?Hr, ?Hp; assumption).
    destruct (IH i' (items ++ new) w1 Hb1 K1 Hnd) as (done & error & w' & paid & Ho & Hb' & [B1 B2 B3 B4 B5 B6 B7] & Hnp & Hin).
    exists (new ++ done), error, w', paid. rewrite Ho, <- app_assoc. split; [done|]. split; [done|]. split; [split|].
    - unfold succeeded in *. rewrite omap_app, Hnew. exact B1.
    - eapply Forall_impl; [exact B2|]. cbn. intros s. by apply settlementOf_same.
    - by rewrite <- Hu, <- Hp.
    - by rewrite <- Hr.
    - exact B5.
    - intros k p Hk. by rewrite B6, Hp.
    - exact B7.
    - split; [exact Hnp|]. intros k Hk. right. by apply Hin. }
  destruct r as [[|r'|r']| |e]; [by apply Hskip|by apply Hskip| |by apply Hskip|].
  - destruct Hres as (s & Hid & Hs & Hpay & Hr & Hst & K1 & Hother).
    destruct (IH i' (items ++ [(r_id round, job_success)]) w1 Hb1 K1 Hnd) as (done & error & w' & paid & Ho & Hb' & HB & Hnp & Hin).
    exists ((r_id round, job_success) :: done), error, w', (s :: paid). rewrite Ho, <- app_assoc. split; [done|]. split; [done|].
    assert (Hfresh : settledId s ∉ map settledId paid) by (rewrite Hid; intros Hk%Hin; done).
    rewrite <- Hid in Hr, Hother. split; [|split].
    + eapply batch_step; eauto.
    + cbn [map]. by constructor.
    + intros k Hk. cbn [map] in *. apply elem_of_cons in Hk as [->|Hk]; [rewrite Hid; left|right; by apply Hin].
  - destruct Hres as (Hu & Hp & Hr). exists [], (Some e), w1, []. rewrite app_nil_r. split; [done|]. split; [done|].
    split; [by apply batchDone_same|]. split; [constructor|]. by intros k ?%not_elem_of_nil.
Qed.

(** A run of the service, like one of the scheduler's job. *)
Lemma resolveEligible_run price lock w : w_base w = None -> keyed (w_db w) ->
  exists done error w' paid, resolveEligible price lock w = (inr (done, error), w') /\ w_base w' = None /\
    batchDone (default 0%Q price) (w_db w) (w_db w') done paid /\ NoDup (map settledId paid) /\
    Forall (fun s => settlementOf (w_db w) s /\ r_endTime (fst s) <= w_now w - RESOLVE_BUFFER_MS) paid /\
    (paid <> [] -> usablePrice price = Some (default 0%Q price)).
Proof.
  intros Hb K. unfold resolveEligible. destruct (usablePrice price) as [p|] eqn:Ep.
  2: { exists [], None, w, []. split; [done|]. split; [done|]. split; [by apply batchDone_same|]. split; [constructor|]. split; [constructor|done]. }
  destruct (usablePrice_spec _ _ Ep) as [-> _]. cbn [default].
  destruct (due_rounds (fun a b => r_endTime b <? r_endTime a) (w_now w) (w_db w) K) as [Hnd Hdue].
  unfold bind at 1, now, gets. cbn iota. unfold bind at 1, findMany, gets. cbn iota.
  destruct (each_pays lock p _ 0 [] w Hb K Hnd) as (done & error & w' & paid & Hr & Hb' & HB & Hnp & Hin).
  exists done, error, w', paid. split; [exact Hr|]. split; [exact Hb'|]. split; [exact HB|]. split; [exact Hnp|]. split; [|done].
  apply Forall_forall. intros s Hs. pose proof (proj1 (Forall_forall _ _) (bd_paid _ _ _ _ _ HB) s Hs) as Hset. split; [exact Hset|].
  apply Hdue; [exact Hset|]. apply Hin. apply list_elem_of_fmap. by exists s.
Qed.
End Batches.

Section Resolvers.
Context `{E : Env} `{DecimalJs} `{PgNumeric} (cfg : OracleConfig).

(** A settlement with the price it was made at. *)
Definition PricedSettlement : Type := Q * Settlement.

Definition pricedOwed (l : list PricedSettlement) : list Payment :=
  flat_map (fun x => payments (fst (snd x)) (snd (snd x)) (fst x)) l.

Definition pricedId (x : PricedSettlement) : string := settledId (snd x).

(** What a sequence of runs has done to the tables. *)
Record resolversDone (d d' : DB) (items : list (string * JobOutcome)) (paid : list PricedSettlement) : Prop := {
  rd_items : succeeded items = map pricedId paid;
  rd_once : NoDup (map pricedId paid);
  rd_settled : Forall (fun x => settlementOf d (snd x)) paid;
  rd_money : (users d', predictions d') = payTables (users d) (predictions d) (pricedOwed paid);
  rd_rounds : forall k, k ∉ map pricedId paid -> rounds d' !! k = rounds d !! k;
  rd_resolved : forall k, k ∈ map pricedId paid -> exists r', rounds d' !! k = Some r' /\ r_status r' = RESOLVED;
}.

Lemma priced_map price l : map pricedId (map (pair price) l) = map settledId l.
Proof. rewrite map_map. by apply map_ext. Qed.

Lemma priced_owed price l : pricedOwed (map (pair price) l) = owed price l.
Proof. unfold pricedOwed, owed. induction l as [|s l IH]; cbn; [done|]. by rewrite IH. Qed.

Lemma resolversDone_step price d d1 d2 items paid items' paid' :
  NoDup (map settledId paid) -> batchDone price d d1 items paid -> resolversDone d1 d2 items' paid' ->
  resolversDone d d2 (items ++ items') (map (pair price) paid ++ paid').
Proof.
  intros Hnd [B1 B2 B3 B4 B5 B6 _] [R1 R2 R3 R4 R5 R6].
  assert (Hdisj : forall x, x ∈ paid' -> pricedId x ∉ map settledId paid).
  { intros x Hx Hin. destruct (B5 _ Hin) as (r' & Hr' & Hst). pose proof (proj1 (Forall_forall _ _) R3 x Hx) as (Hr & Hl & _). unfold pricedId in *.
    rewrite Hr' in Hr. injection Hr as ->. congruence. }
  split.
  - unfold succeeded in *. by rewrite omap_app, B1, R1, map_app, priced_map.
  - rewrite map_app, priced_map. apply NoDup_app. split; [exact Hnd|]. split; [|exact R2].
    intros k Hk (x & -> & Hx)%list_elem_of_fmap. by apply (Hdisj x Hx).
  - apply Forall_app. split.
    + apply Forall_forall. intros x (s & -> & Hs)%list_elem_of_fmap. exact (proj1 (Forall_forall _ _) B2 s Hs).
    + apply Forall_forall. intros x Hx. pose proof (proj1 (Forall_forall _ _) R3 x Hx) as Hs. pose proof (Hdisj x Hx) as Hnin.
      unfold pricedId in Hnin. apply (settlementOf_back d d1); [by apply B4| |exact Hs].
      intros k p Hk. apply B6. by rewrite Hk.
  - unfold pricedOwed. rewrite flat_map_app. fold (pricedOwed (map (pair price) paid)) (pricedOwed paid').
    rewrite priced_owed, payTables_app, <- B3. exact R4.
  - intros k Hk. rewrite map_app, priced_map in Hk. apply not_elem_of_app in Hk as [Hk1 Hk2]. by rewrite R5, B4.
  - intros k Hk. destruct (decide (k ∈ map pricedId paid')) as [Hin|Hin]; [by apply R6|].
    rewrite map_app, priced_map in Hk. apply elem_of_app in Hk as [Hk|Hk]; [|done]. destruct (B5 k Hk) as (r' & Hr' & Hst).
    exists r'. by rewrite R5.
Qed.

Lemma runResolver_run x w : w_base w = None -> keyed (w_db w) ->
  exists items w' paid, runResolver cfg x w = (inr items, w') /\ w_base w' = None /\
    batchDone (default 0%Q (ow_price (rr_oracle x))) (w_db w) (w_db w') items paid /\ NoDup (map settledId paid) /\
    (paid <> [] -> exists p, ow_price (rr_oracle x) = Some p /\ Qle_bool p 0 = false /\ isStale cfg (rr_oracle x) = false).
Proof.
  intros Hb K. unfold runResolver. destruct (rr_service x).
  - destruct (@resolveEligible_run (readingOracle cfg (rr_oracle x) E) _ _ (ow_price (rr_oracle x)) (rr_lock x) w Hb K)
      as (items & error & w' & paid & Hr & Hb' & HB & Hnd & _ & Hp).
    eexists items, _, paid. unfold bind. rewrite Hr. split; [reflexivity|]. split; [exact Hb'|]. split; [exact HB|].
    split; [exact Hnd|]. intros Hne%Hp. apply usablePrice_spec in Hne. by eexists.
  - destruct (@autoResolve_run (readingOracle cfg (rr_oracle x) E) _ _ (ow_price (rr_oracle x)) (rr_lock x) w Hb K)
      as (report & w' & paid & Hr & Hb' & HB & Hnd & _ & Hp).
    eexists (jr_items report), _, paid. unfold bind. rewrite Hr. split; [reflexivity|]. split; [exact Hb'|]. split; [exact HB|].
    split; [exact Hnd|]. intros Hne%Hp. apply usablePrice_spec in Hne. by eexists.
Qed.

(** C7. Two resolvers, one payment. The scheduler's job and the oracle service
    resolve the same rounds under different locks. However many runs of either
    follow each other, whatever the oracle shows, whichever locks are lost and
    whichever attempts fail: no run throws; over all of them each round they
    report as resolved is reported once, was LOCKED at the start and is
    RESOLVED at the end, no other round changes, and balances and predictions
    are exactly those after paying what the specification [payments] owes to
    the predictions of each of these rounds that were confirmed at the start,
    each prediction once, at the price of its run, a positive price that was
    fresh. *)
Theorem resolvers_pay_once runs : forall w, w_base w = None -> keyed (w_db w) ->
  exists items w' paid, runResolvers cfg runs w = (inr items, w') /\ resolversDone (w_db w) (w_db w') items paid /\
    forall x, x ∈ paid -> exists run, run ∈ runs /\ ow_price (rr_oracle run) = Some (fst x) /\
      Qle_bool (fst x) 0 = false /\ isStale cfg (rr_oracle run) = false.
Proof.
  induction runs as [|x rest IH]; intros w Hb K; cbn [runResolvers].
  { exists [], w, []. split; [done|]. split; [|by intros x ?%not_elem_of_nil].
    split; [done|by apply NoDup_nil|by apply Forall_nil|done|done|by intros k ?%not_elem_of_nil]. }
  destruct (runResolver_run x w Hb K) as (items & w1 & paid & Hr & Hb1 & HB & Hnd & Hp).
  destruct (IH w1 Hb1 (bd_keyed _ _ _ _ _ HB)) as (items' & w' & paid' & Hr' & HR & Hp').
  exists (items ++ items'), w', (map (pair (default 0%Q (ow_price (rr_oracle x)))) paid ++ paid').
  rewrite (bind_ok _ _ _ _ _ Hr), (bind_ok _ _ _ _ _ Hr'). split; [done|]. split; [by apply (resolversDone_step _ _ (w_db w1))|].
  intros y [(s & -> & Hs)%list_elem_of_fmap|Hy]%elem_of_app.
  - destruct Hp as (p & Hpr & Hpos & Hst); [by destruct paid; [apply not_elem_of_nil in Hs|]|].
    exists x. split; [left|]. cbn. by rewrite Hpr.
  - destruct (Hp' y Hy) as (run & Hin & Hrest). exists run. split; [by right|exact Hrest].
Qed.
End Resolvers.
