(* ===== verification/MemoryStore.v ===== *)
(** * The in-memory database (src/src/lib/memory-prisma.ts)

    The Prisma-shaped client of the demo mode: its query engine on untyped rows,
    the collections, and the client that names them. A Map is the list of its
    entries in the order of insertion. JavaScript's reading of numbers and
    dates from text is the parameter [JsText]. *)

From Stdlib Require Import ZArith QArith Lia.
From stdpp Require Import base gmap strings list pretty.
From S2P Require Import Prelude.
From S2P Require Import Numeric.
From S2P Require Import Errors.
From S2P Require Import Schema.

#[local] Open Scope Z_scope.

(** ** Values *)

Inductive Prim : Type :=
| PNull
| PBool (b : bool)
| PNum (n : num)
| PStr (s : string)
| PDate (ms : Z).

(** A decimal, or an array or object that is compared by identity. *)
Inductive Val : Type := VPrim (p : Prim) | VDec (d : Q) | VOther (j : Json).

Coercion VPrim : Prim >-> Val.

(** An absent member is [undefined]. *)
Notation Row := (gmap string Val).

(** The entries of a collection's Map, and what an operation on them returns
    with the entries after it. *)
Notation Rows := (list (string * Row)).
Notation OnRows A := (M Rows Err A).

(** [Number(text)], [Date.parse(text)], [new Decimal(text)] ([None] where it
    throws) and [String(value)] of a value that is not a string. *)
Class JsText : Type := {
  numberOfText : string -> num;
  dateOfText : string -> num;
  decimalOfText : string -> option Q;
  textOfValue : Val -> string;
}.

Definition memoryError (message : string) : Err := PlainError ("[memory data store] " +:+ message)%string.

(** Members of an object in the order they were set. *)
Fixpoint setMember {A} (k : string) (v : A) (l : list (string * A)) : list (string * A) :=
  match l with
  | [] => [(k, v)]
  | (k', v') :: rest => if String.eqb k k' then (k, v) :: rest else (k', v') :: setMember k v rest
  end.

(** [every] and [some] of a predicate that may throw. *)
Fixpoint everyM {A} (f : A -> Err + bool) (l : list A) : Err + bool :=
  match l with
  | [] => inr true
  | x :: rest => match f x with inr true => everyM f rest | r => r end
  end.

Fixpoint someM {A} (f : A -> Err + bool) (l : list A) : Err + bool :=
  match l with
  | [] => inr false
  | x :: rest => match f x with inr false => someM f rest | r => r end
  end.

Fixpoint filterM {A} (f : A -> Err + bool) (l : list A) : Err + list A :=
  match l with
  | [] => inr []
  | x :: rest =>
      match f x, filterM f rest with
      | inl e, _ => inl e
      | inr _, inl e => inl e
      | inr b, inr l' => inr (if b then x :: l' else l')
      end
  end.

(** ** Conditions *)

Inductive Cond : Type :=
| CUndefined
| CPrim (p : Prim)
| CDec (d : Q)
| CList (l : list Cond)
| CObj (fields : list (string * Cond)).

Notation Where := (list (string * Cond)).

Definition WHERE_OPERATORS : list string :=
  ["equals"; "not"; "in"; "notIn"; "gt"; "gte"; "lt"; "lte"; "contains"; "startsWith"; "endsWith"]%string.

(** The value of a condition; objects are none of a row's. *)
Definition condValue (c : Cond) : option Val :=
  match c with
  | CUndefined => None
  | CPrim p => Some (VPrim p)
  | CDec d => Some (VDec d)
  | CList _ | CObj _ => Some (VOther JNull)
  end.

Section Engine.
Context `{JsText}.

Definition stringOf (v : option Val) : string :=
  match v with
  | Some (VPrim (PStr s)) => s
  | Some v => textOfValue v
  | None => "undefined"
  end.

(** [Number(value)], dates and decimals by their own method *)
Definition toComparable (v : option Val) : num :=
  match v with
  | None => NaN
  | Some (VPrim PNull) => Fin 0
  | Some (VPrim (PBool b)) => Fin (if b then 1 else 0)
  | Some (VPrim (PNum n)) => n
  | Some (VPrim (PStr s)) => numberOfText s
  | Some (VPrim (PDate ms)) => Fin (inject_Z ms)
  | Some (VDec d) => num_of_Q d
  | Some (VOther j) => numberOfText (textOfValue (VOther j))
  end.

(** [new Date(v).getTime()] *)
Definition dateMs (v : option Val) : num :=
  match v with
  | Some (VPrim (PDate ms)) => Fin (inject_Z ms)
  | None => NaN
  | Some (VPrim PNull) => Fin 0
  | Some (VPrim (PBool b)) => Fin (if b then 1 else 0)
  | Some (VPrim (PNum (Fin q))) =>
      let t := Z.quot (Qnum q) (Zpos (Qden q)) in
      if Z.abs t <=? 8640000000000000 then Fin (inject_Z t) else NaN
  | Some (VPrim (PNum _)) => NaN
  | Some v => dateOfText (stringOf (Some v))
  end.

Definition isDate (v : option Val) : bool := match v with Some (VPrim (PDate _)) => true | _ => false end.

(** [decimal.equals(v)] *)
Definition decimalEquals (d : Q) (v : option Val) : Err + bool :=
  match v with
  | Some (VDec d') => inr (Qeq_bool d d')
  | Some (VPrim (PNum (Fin q))) => inr (Qeq_bool d (num_to_dec q))
  | Some (VPrim (PNum _)) => inr false
  | Some (VPrim (PStr s)) =>
      match decimalOfText s with
      | Some d' => inr (Qeq_bool d d')
      | None => inl (PlainError ("[DecimalError] Invalid argument: " +:+ s)%string)
      end
  | v => inl (PlainError ("[DecimalError] Invalid argument: " +:+ stringOf v)%string)
  end.

(** [a === b] for values that are no objects *)
Definition strictEqual (a b : option Val) : bool :=
  match a, b with
  | None, None => true
  | Some (VPrim PNull), Some (VPrim PNull) => true
  | Some (VPrim (PBool x)), Some (VPrim (PBool y)) => Bool.eqb x y
  | Some (VPrim (PNum x)), Some (VPrim (PNum y)) => num_eq x y
  | Some (VPrim (PStr x)), Some (VPrim (PStr y)) => String.eqb x y
  | _, _ => false
  end.

Definition valuesEqual (a b : option Val) : Err + bool :=
  if isDate a || isDate b then inr (num_eq (dateMs a) (dateMs b))
  else match a with
       | Some (VDec d) => decimalEquals d b
       | _ => inr (strictEqual a b)
       end.

Definition negM (r : Err + bool) : Err + bool := match r with inl e => inl e | inr b => inr (negb b) end.

(** [opValue.some(v => valuesEqual(value, v))] *)
Definition amongValues (value : option Val) (opValue : Cond) : Err + bool :=
  match opValue with
  | CList l => someM (fun c => valuesEqual value (condValue c)) l
  | _ => inl (PlainError "opValue.some is not a function")
  end.

Definition onText (f : string -> string -> bool) (value opValue : option Val) : Err + bool :=
  inr (match value with Some (VPrim (PStr s)) => f s (stringOf opValue) | _ => false end).

Definition endsWith (s t : string) : bool :=
  let n := String.length s in
  let m := String.length t in
  (m <=? n)%nat && String.eqb (String.substring (n - m) m s) t.

Definition matchOperator (value : option Val) (op : string) (opValue : Cond) : Err + bool :=
  let v := condValue opValue in
  if String.eqb op "equals" then valuesEqual value v
  else if String.eqb op "not" then negM (valuesEqual value v)
  else if String.eqb op "in" then amongValues value opValue
  else if String.eqb op "notIn" then negM (amongValues value opValue)
  else if String.eqb op "gt" then inr (num_lt (toComparable v) (toComparable value))
  else if String.eqb op "gte" then inr (num_le (toComparable v) (toComparable value))
  else if String.eqb op "lt" then inr (num_lt (toComparable value) (toComparable v))
  else if String.eqb op "lte" then inr (num_le (toComparable value) (toComparable v))
  else if String.eqb op "contains" then onText includes value v
  else if String.eqb op "startsWith" then onText (fun s t => String.prefix t s) value v
  else if String.eqb op "endsWith" then onText endsWith value v
  else inl (memoryError ("unsupported where operator " +:+ op)%string).

(** A decimal as a condition of its own is taken for an object whose members,
    which no row has, are the conditions. *)
Definition matchField (value : option Val) (condition : Cond) : Err + bool :=
  match condition with
  | CUndefined => inr true
  | CPrim p => valuesEqual value (Some (VPrim p))
  | CDec _ => inr false
  | CList [] => inr true
  | CList _ => inl (memoryError "unsupported where operator 0")
  | CObj fields => everyM (fun '(op, opValue) => matchOperator value op opValue) fields
  end.

Definition isLogical (key : string) : bool := bool_decide (key ∈ ["AND"; "OR"; "NOT"]%string).

Definition isOperatorObject (fields : list (string * Cond)) : bool :=
  existsb (fun f => bool_decide (fst f ∈ WHERE_OPERATORS)) fields.

(** The members of a compound key become members of the condition. *)
Definition assignAll (flat fields : Where) : Where := foldl (fun flat '(k, v) => setMember k v flat) flat fields.

Definition flattenMember (flat : Where) (member : string * Cond) : Where :=
  let '(key, value) := member in
  match value with
  | CObj fields => if isLogical key || isOperatorObject fields then setMember key value flat else assignAll flat fields
  | _ => setMember key value flat
  end.

Definition normalizeWhere (w : Where) : Where := foldl flattenMember [] w.

Definition tooDeep : Err := memoryError "condition nested deeper than the fuel".

Definition notArray : Err := PlainError "condition is not an array of conditions".

(** [fuel] bounds the nesting of AND, OR and NOT. *)
Fixpoint matchWhereN (fuel : nat) (row : Row) (w : Where) : Err + bool :=
  match fuel with
  | O => inl tooDeep
  | S fuel' =>
      let nested c := match c with CObj fields => matchWhereN fuel' row fields | _ => inl notArray end in
      everyM (fun '(key, condition) =>
        if String.eqb key "AND" then match condition with CList l => everyM nested l | _ => inl notArray end
        else if String.eqb key "OR" then match condition with CList l => someM nested l | _ => inl notArray end
        else if String.eqb key "NOT" then negM (nested condition)
        else matchField (row !! key) condition) (normalizeWhere w)
  end.

Fixpoint condDepth (c : Cond) : nat :=
  match c with
  | CList l => S (list_max (map condDepth l))
  | CObj fields => S (list_max (map (fun f => condDepth (snd f)) fields))
  | _ => 1
  end.

Definition whereDepth (w : Where) : nat := S (list_max (map (fun f => condDepth (snd f)) w)).

Definition matchWhere (row : Row) (w : option Where) : Err + bool :=
  match w with
  | None => inr true
  | Some w => matchWhereN (S (whereDepth w)) row w
  end.

(** ** Updates *)

Inductive UpdateOp : Type := OpIncrement | OpDecrement | OpMultiply | OpDivide | OpSet.

(** A member of the data of an update: the operator object's first operator
    in the order of the code, with its operand. *)
Inductive UpdateVal : Type :=
| UUndefined
| UVal (v : Val)
| UOp (op : UpdateOp) (operand : option Val).

(** [current] of a member: absent and null count as zero. *)
Definition currentNumber (v : option Val) : num :=
  match v with
  | None | Some (VPrim PNull) => Fin 0
  | _ => toComparable v
  end.

Definition applyMember (row : Row) (key : string) (u : UpdateVal) : Row :=
  match u with
  | UUndefined => row
  | UVal v => <[key := v]> row
  | UOp OpSet operand => partial_alter (fun _ => operand) key row
  | UOp op operand =>
      let current := currentNumber (row !! key) in
      let x := toComparable operand in
      let result := match op with
                    | OpIncrement => num_add current x
                    | OpDecrement => num_sub current x
                    | OpMultiply => num_mul current x
                    | _ => num_div current x
                    end in
      <[key := VPrim (PNum result)]> row
  end.

Definition applyUpdateData (now : Z) (row : Row) (data : list (string * UpdateVal)) : Row :=
  let next := foldl (fun next '(key, u) => applyMember next key u) row data in
  if bool_decide (is_Some (row !! "updatedAt"%string)) then <["updatedAt"%string := VPrim (PDate now)]> next else next.

(** ** Projection and order *)

Definition applySelect (row : Row) (select : option (list (string * bool))) : Row :=
  match select with
  | None => row
  | Some fields =>
      foldl (fun projected '(key, included) =>
        if included : bool then partial_alter (fun _ => row !! key) key projected else projected) ∅ fields
  end.

(** The comparison of [sortRows]: the first difference that is not zero; a
    difference that is no number ends it too. *)
Fixpoint compareRows (specs : list (string * bool)) (a b : Row) : num :=
  match specs with
  | [] => Fin 0
  | (field, desc) :: rest =>
      let cmp := num_sub (toComparable (a !! field)) (toComparable (b !! field)) in
      if num_eq cmp (Fin 0) then compareRows rest a b else if desc : bool then num_neg cmp else cmp
  end.

(** [rows.sort(...)], which takes a comparison that is no number for zero. *)
Definition sortRows (orderBy : option (list (string * bool))) (rows : list Row) : list Row :=
  match orderBy with
  | None => rows
  | Some specs => sortBy (fun a b => num_lt (Fin 0) (compareRows specs a b)) rows
  end.

(** ** A collection *)

Record CollectionSpec : Type := mkCollection {
  co_idField : string;
  co_defaults : list (string * Val);
}.

Definition mapSet (k : string) (row : Row) (rows : Rows) : Rows := setMember k row rows.

Definition mapDelete (k : string) (rows : Rows) : Rows := List.filter (fun e => negb (String.eqb (fst e) k)) rows.

Record QueryArgs : Type := mkQuery {
  qa_where : option Where;
  qa_orderBy : option (list (string * bool));
  qa_take : option nat;
  qa_skip : nat;
  qa_cursor : option Where;
  qa_select : option (list (string * bool));
}.

Definition query (w : option Where) : QueryArgs := mkQuery w None None 0 None None.

Definition lift {W A} (r : Err + A) : M W Err A := fun w => (r, w).

Section Collection.
Context (spec : CollectionSpec).

Definition filtered (w : option Where) : OnRows (list Row) := fun rows =>
  (filterM (fun row => matchWhere row w) (map snd rows), rows).

Definition keyOf (row : Row) : string := stringOf (row !! co_idField spec).

Definition assignRow (data : list (string * option Val)) (row : Row) : Row :=
  foldl (fun row '(k, v) => partial_alter (fun _ => v) k row) row data.

(** The row [create] stores; [newId] is what [generateId] returns. *)
Definition createdRow (now : Z) (newId : Val) (data : list (string * option Val)) : Row :=
  let id := match assignRow data ∅ !! co_idField spec with None | Some (VPrim PNull) => newId | Some v => v end in
  let start := assignRow (map (fun '(k, v) => (k, Some v)) (co_defaults spec)) ∅ in
  let row := <["updatedAt"%string := VPrim (PDate now)]> (<["createdAt"%string := VPrim (PDate now)]> start) in
  <[co_idField spec := id]> (assignRow data row).

Definition create (now : Z) (newId : Val) (data : list (string * option Val)) : OnRows Row := fun rows =>
  let row := createdRow now newId data in
  (inr row, mapSet (keyOf row) row rows).

Definition findUnique (w : option Where) (select : option (list (string * bool))) : OnRows (option Row) :=
  rows <- filtered w ;;
  ret ((fun row => applySelect row select) <$> head rows).

Definition findFirst (w : option Where) (orderBy select : option (list (string * bool))) : OnRows (option Row) :=
  rows <- filtered w ;;
  ret ((fun row => applySelect row select) <$> head (sortRows orderBy rows)).

Fixpoint findIndexM {A} (f : A -> Err + bool) (i : nat) (l : list A) : Err + option nat :=
  match l with
  | [] => inr None
  | x :: rest => match f x with inl e => inl e | inr true => inr (Some i) | inr false => findIndexM f (S i) rest end
  end.

Definition atCursor (cursor : Where) (row : Row) : Err + bool :=
  everyM (fun '(k, c) => valuesEqual (row !! k) (condValue c)) cursor.

Definition findMany (args : QueryArgs) : OnRows (list Row) :=
  matches <- filtered (qa_where args) ;;
  let rows := sortRows (qa_orderBy args) matches in
  start <- match qa_cursor args with
           | None => ret (qa_skip args)
           | Some cursor =>
               idx <- lift (findIndexM (atCursor (normalizeWhere cursor)) 0 rows) ;;
               ret (match idx with None => length rows | Some i => i + qa_skip args end)%nat
           end ;;
  let page := drop start rows in
  let page := match qa_take args with Some n => take n page | None => page end in
  ret (map (fun row => applySelect row (qa_select args)) page).

Definition storeUpdated (now : Z) (data : list (string * UpdateVal)) (row : Row) : OnRows Row :=
  let updated := applyUpdateData now row data in
  modify (mapSet (keyOf updated) updated) ;;;
  ret updated.

Definition update (now : Z) (w : Where) (data : list (string * UpdateVal)) : OnRows Row :=
  matches <- filtered (Some w) ;;
  match matches with
  | [] => throw (memoryError "record not found for update")
  | existing :: _ => storeUpdated now data existing
  end.

Definition updateMany (now : Z) (w : option Where) (data : list (string * UpdateVal)) : OnRows nat :=
  matches <- filtered w ;;
  forM_ matches (fun row => storeUpdated now data row ;;; ret tt) ;;;
  ret (length matches).

Definition upsert (now : Z) (newId : Val) (w : Where) (data : list (string * option Val))
    (changes : list (string * UpdateVal)) : OnRows Row :=
  matches <- filtered (Some w) ;;
  match matches with
  | existing :: _ => storeUpdated now changes existing
  | [] => create now newId data
  end.

Definition delete (w : Where) : OnRows Row :=
  matches <- filtered (Some w) ;;
  match matches with
  | [] => throw (memoryError "record not found for delete")
  | existing :: _ => modify (mapDelete (keyOf existing)) ;;; ret existing
  end.

Definition deleteMany (w : option Where) : OnRows nat :=
  matches <- filtered w ;;
  forM_ matches (fun row => modify (mapDelete (keyOf row))) ;;;
  ret (length matches).

Definition count (w : option Where) : OnRows nat := matches <- filtered w ;; ret (length matches).

(** The keys of a Map are the same up to SameValueZero; NaN is one of them. *)
Definition sameKey (a b : option Val) : bool :=
  match a, b with
  | Some (VPrim (PNum NaN)), Some (VPrim (PNum NaN)) => true
  | _, _ => strictEqual a b
  end.

Fixpoint countGroup (key : option Val) (groups : list (option Val * nat)) : list (option Val * nat) :=
  match groups with
  | [] => [(key, 1%nat)]
  | (k, n) :: rest => if sameKey k key then (k, S n) :: rest else (k, n) :: countGroup key rest
  end.

Definition groupBy (by_ : list string) : OnRows (list (option Val * nat)) :=
  match by_ with
  | [field] => gets (fun rows => foldl (fun groups e => countGroup (snd e !! field) groups) [] rows)
  | _ => throw (memoryError "groupBy is only supported for a single field in memory mode")
  end.

Definition peek (id : string) (rows : Rows) : option Row := snd <$> find (fun e => String.eqb (fst e) id) rows.

Definition seed (fixtures : list Row) (rows : Rows) : Rows := foldl (fun rows row => mapSet (keyOf row) row rows) rows fixtures.
End Collection.
End Engine.

(** ** The nesting allowed is enough *)

Section Depth.
Context `{JsText}.

Lemma everyM_ext {A} (f g : A -> Err + bool) l : (forall x, x ∈ l -> f x = g x) -> everyM f l = everyM g l.
Proof.
  induction l as [|x l IH]; intros Hf; cbn; [done|]. rewrite (Hf x) by left.
  destruct (g x) as [e|[]]; try done. apply IH. intros y Hy. apply Hf. by right.
Qed.

Lemma someM_ext {A} (f g : A -> Err + bool) l : (forall x, x ∈ l -> f x = g x) -> someM f l = someM g l.
Proof.
  induction l as [|x l IH]; intros Hf; cbn; [done|]. rewrite (Hf x) by left.
  destruct (g x) as [e|[]]; try done. apply IH. intros y Hy. apply Hf. by right.
Qed.

Lemma setMember_elem {A} k (v : A) l x : x ∈ setMember k v l -> x = (k, v) \/ x ∈ l.
Proof.
  induction l as [|[k' v'] l IH]; cbn; [by intros ->%list_elem_of_singleton; left|].
  destruct (String.eqb k k'); intros [->|Hx]%elem_of_cons; [by left|right; by right|right; by left|].
  destruct (IH Hx) as [->|Hl]; [by left|right; by right].
Qed.

(** The conditions of a normalized object are among the given ones and the
    members of its compound keys. *)
Lemma normalizeWhere_elem w x : x ∈ normalizeWhere w ->
  x ∈ w \/ exists key fields, (key, CObj fields) ∈ w /\ x ∈ fields.
Proof.
  assert (Hmerge : forall fields flat y, y ∈ assignAll flat fields -> y ∈ flat \/ y ∈ fields).
  { induction fields as [|[k v] fields IH]; intros flat y Hy; [by left|]. apply IH in Hy as [Hy|Hy]; [|right; by right].
    apply setMember_elem in Hy as [->|Hy]; [right; left|by left]. }
  enough (Hg : forall flat, x ∈ foldl flattenMember flat w -> x ∈ flat \/ x ∈ w \/ exists key fields, (key, CObj fields) ∈ w /\ x ∈ fields).
  { intros Hx. destruct (Hg [] Hx) as [Hn|Hn]; [by apply not_elem_of_nil in Hn|exact Hn]. }
  induction w as [|[key value] w IH]; intros flat Hx; [by left|]. cbn [foldl] in Hx.
  apply IH in Hx as [Hx|[Hx|(k & fields & Hin & Hx)]]; [|right; left; by right|right; right; exists k, fields; split; [by right|done]].
  unfold flattenMember in Hx.
  assert (Hset : x ∈ setMember key value flat -> x ∈ flat \/ x ∈ (key, value) :: w \/
            exists key0 fields, (key0, CObj fields) ∈ (key, value) :: w /\ x ∈ fields)
    by (intros [->|Hf]%setMember_elem; [right; left; left|by left]).
  destruct value as [|p|d|l|fields]; try by apply Hset. destruct (isLogical key || isOperatorObject fields); [by apply Hset|].
  apply Hmerge in Hx as [Hx|Hx]; [by left|]. right; right. exists key, fields. split; [left|done].
Qed.

Lemma depth_elem {A} (f : A -> nat) l x : x ∈ l -> (f x <= list_max (map f l))%nat.
Proof.
  intros Hx. pose proof (proj1 (list_max_le (map f l) (list_max (map f l))) (le_n _)) as Hall.
  rewrite Forall_forall in Hall. apply Hall. apply list_elem_of_fmap. by exists x.
Qed.

Lemma normalizeWhere_depth w x : x ∈ normalizeWhere w -> (condDepth (snd x) < whereDepth w)%nat.
Proof.
  unfold whereDepth. intros [Hx|(key & fields & Hin & Hx)]%normalizeWhere_elem.
  - pose proof (depth_elem (fun f => condDepth (snd f)) w x Hx). cbn in *. lia.
  - pose proof (depth_elem (fun f => condDepth (snd f)) w _ Hin) as Hd. cbn in Hd.
    pose proof (depth_elem (fun f => condDepth (snd f)) fields x Hx). cbn in *. lia.
Qed.

Lemma matchWhereN_enough n : forall m row w, (whereDepth w <= n)%nat -> (whereDepth w <= m)%nat ->
  matchWhereN n row w = matchWhereN m row w.
Proof.
  induction n as [|n IH]; intros m row w Hn Hm; [unfold whereDepth in Hn; lia|].
  destruct m as [|m]; [unfold whereDepth in Hm; lia|]. cbn [matchWhereN].
  apply everyM_ext. intros [key condition] Hx%normalizeWhere_depth. cbn [snd] in Hx.
  assert (Hnested : forall c, (condDepth c <= condDepth condition)%nat ->
    match c with CObj fields => matchWhereN n row fields | _ => inl notArray end =
    match c with CObj fields => matchWhereN m row fields | _ => inl notArray end).
  { intros c Hc. destruct c; try done. apply IH; unfold whereDepth in *; cbn in Hc; lia. }
  assert (Hlist : forall l c, condition = CList l -> c ∈ l -> (condDepth c <= condDepth condition)%nat).
  { intros l c -> Hc. pose proof (depth_elem condDepth l c Hc). cbn. lia. }
  destruct (String.eqb key "AND"); [|destruct (String.eqb key "OR"); [|destruct (String.eqb key "NOT"); [|done]]].
  - destruct condition as [|p|d|l|fields]; try done. apply everyM_ext. intros c Hc. by apply Hnested, (Hlist l).
  - destruct condition as [|p|d|l|fields]; try done. apply someM_ext. intros c Hc. by apply Hnested, (Hlist l).
  - f_equal. by apply Hnested.
Qed.
End Depth.

(** ** A collection is a table *)

Section Refinement.
Context `{JsText} (spec : CollectionSpec).
Context {A : Type} (encode : A -> Row) (idOf : A -> string).
Context (encode_id : forall a, encode a !! co_idField spec = Some (VPrim (PStr (idOf a)))).

(** The abstract state: the rows in the order they were created. *)
Definition entry (a : A) : string * Row := (idOf a, encode a).

Definition holdsTable (l : list A) (rows : Rows) : Prop := rows = map entry l /\ NoDup (map idOf l).

Definition decides (w : option Where) (P : A -> bool) : Prop := forall a, matchWhere (encode a) w = inr (P a).

Definition acts (now : Z) (data : list (string * UpdateVal)) (f : A -> A) : Prop :=
  forall a, applyUpdateData now (encode a) data = encode (f a) /\ idOf (f a) = idOf a.

(** In place if the identifier is taken, otherwise at the end. *)
Fixpoint putRow (a : A) (l : list A) : list A :=
  match l with
  | [] => [a]
  | b :: rest => if String.eqb (idOf a) (idOf b) then a :: rest else b :: putRow a rest
  end.

Lemma keyOf_encode a : keyOf spec (encode a) = idOf a.
Proof. unfold keyOf. by rewrite encode_id. Qed.

Lemma mapSet_entries a l : mapSet (idOf a) (encode a) (map entry l) = map entry (putRow a l).
Proof. unfold mapSet. induction l as [|b l IH]; cbn; [done|]. destruct (String.eqb (idOf a) (idOf b)); cbn; [done|]. by rewrite IH. Qed.

Lemma putRow_ids a l : map idOf (putRow a l) = if decide (idOf a ∈ map idOf l) then map idOf l else map idOf l ++ [idOf a].
Proof.
  induction l as [|b l IH]; cbn; [done|]. destruct (String.eqb_spec (idOf a) (idOf b)) as [E|Hne]; cbn.
  - rewrite decide_True by (rewrite E; left). by rewrite E.
  - rewrite IH. destruct (decide (idOf a ∈ map idOf l)) as [Hin|Hin].
    + by rewrite decide_True by (by right).
    + rewrite decide_False; [done|]. by intros [?|?]%elem_of_cons.
Qed.

Lemma putRow_NoDup a l : NoDup (map idOf l) -> NoDup (map idOf (putRow a l)).
Proof.
  intros Hnd. rewrite putRow_ids. destruct (decide _); [done|]. apply NoDup_app. split; [done|]. split; [|by apply NoDup_singleton].
  intros x Hx ->%list_elem_of_singleton. done.
Qed.

Lemma filterM_pure {B} (f : B -> Err + bool) (P : B -> bool) l : (forall x, f x = inr (P x)) -> filterM f l = inr (List.filter P l).
Proof. intros Hf. induction l as [|x l IH]; cbn; [done|]. rewrite Hf, IH. by destruct (P x). Qed.

Lemma filtered_table w P l rows : holdsTable l rows -> decides w P ->
  filtered w rows = (inr (map encode (List.filter P l)), rows).
Proof.
  intros [-> _] Hw. unfold filtered. rewrite map_map. cbn [entry snd]. f_equal.
  induction l as [|a l IH]; cbn; [done|]. rewrite Hw, IH. by destruct (P a).
Qed.

Lemma sortBy_images {B C} (f : B -> C) gt l : sortBy gt (map f l) = map f (sortBy (fun a b => gt (f a) (f b)) l).
Proof.
  assert (Hins : forall x l, insertBy gt (f x) (map f l) = map f (insertBy (fun a b => gt (f a) (f b)) x l)).
  { intros x k. induction k as [|y k IH]; cbn; [done|]. destruct (gt (f x) (f y)); cbn; [by rewrite IH|done]. }
  unfold sortBy. induction l as [|x l IH]; cbn; [done|]. by rewrite IH, Hins.
Qed.

(** The order of the rows a query asks for. *)
Definition orderRows (orderBy : option (list (string * bool))) (l : list A) : list A :=
  match orderBy with
  | None => l
  | Some specs => sortBy (fun a b => num_lt (Fin 0) (compareRows specs (encode a) (encode b))) l
  end.

Lemma sortRows_table orderBy l : sortRows orderBy (map encode l) = map encode (orderRows orderBy l).
Proof. destruct orderBy as [specs|]; [|done]. cbn. apply sortBy_images. Qed.

(** What the rows are after updating those of [m]. *)
Definition updateThose (f : A -> A) (m : list A) (a : A) : A := if decide (idOf a ∈ map idOf m) then f a else a.

Lemma putRow_update f x l : idOf (f x) = idOf x -> x ∈ l -> NoDup (map idOf l) -> putRow (f x) l = map (updateThose f [x]) l.
Proof.
  intros Hf. induction l as [|b l IH]; intros Hx Hnd; [by apply not_elem_of_nil in Hx|]. cbn [putRow map] in *.
  apply NoDup_cons in Hnd as [Hnin Hnd]. rewrite Hf. unfold updateThose at 1. cbn [map].
  destruct (String.eqb_spec (idOf x) (idOf b)) as [E|Hne].
  - rewrite decide_True by (rewrite E; left).
    apply elem_of_cons in Hx as [->|Hx]; [|by destruct Hnin; rewrite <- E; apply list_elem_of_fmap; exists x].
    f_equal. rewrite <- (map_id l) at 1. apply map_ext_in. intros a Ha%list_elem_of_In. unfold updateThose.
    rewrite decide_False; [done|]. cbn. intros Hid%list_elem_of_singleton. apply Hnin. rewrite <- Hid. apply list_elem_of_fmap. by exists a.
  - rewrite decide_False by (by intros ?%list_elem_of_singleton).
    apply elem_of_cons in Hx as [->|Hx]; [done|]. by rewrite IH.
Qed.

Lemma update_rows now data f m : acts now data f -> forall l rows, holdsTable l rows -> (forall a, a ∈ m -> a ∈ l) -> NoDup (map idOf m) ->
  exists rows', forM_ (map encode m) (fun row => storeUpdated spec now data row ;;; ret tt) rows = (inr tt, rows') /\
    holdsTable (map (updateThose f m) l) rows'.
Proof.
  intros Hact. induction m as [|x m IH]; intros l rows [-> Hnd] Hm Hndm; cbn [map forM_].
  { eexists. split; [reflexivity|]. unfold updateThose. rewrite map_id. by split. }
  apply NoDup_cons in Hndm as [Hnin Hndm]. destruct (Hact x) as [Hx Hidx].
  assert (Hstep : (storeUpdated spec now data (encode x) ;;; ret tt) (map entry l) = (inr tt, map entry (map (updateThose f [x]) l))).
  { unfold storeUpdated, bind, modify, ret. rewrite Hx. cbn. rewrite keyOf_encode, mapSet_entries.
    rewrite putRow_update; [done|exact Hidx|apply Hm; left|exact Hnd]. }
  rewrite (bind_ok _ _ _ _ _ Hstep).
  assert (Hkeep : forall a, a ∈ m -> updateThose f [x] a = a).
  { intros a Ha. unfold updateThose. rewrite decide_False; [done|]. cbn. intros Hid%list_elem_of_singleton.
    apply Hnin. rewrite <- Hid. apply list_elem_of_fmap. by exists a. }
  assert (Hids : map idOf (map (updateThose f [x]) l) = map idOf l).
  { rewrite map_map. apply map_ext. intros a. unfold updateThose. destruct (decide _); [apply Hact|done]. }
  destruct (IH (map (updateThose f [x]) l) (map entry (map (updateThose f [x]) l))) as (rows' & Hr & Ht).
  - split; [done|]. by rewrite Hids.
  - intros a Ha. rewrite <- (Hkeep a Ha). apply list_elem_of_fmap. exists a. split; [done|]. apply Hm. by right.
  - exact Hndm.
  - exists rows'. split; [exact Hr|]. rewrite map_map in Ht. 
    replace (map (updateThose f (x :: m)) l) with (map (fun a => updateThose f m (updateThose f [x] a)) l); [exact Ht|].
    apply map_ext. intros a. unfold updateThose. cbn [map]. destruct (decide (idOf a ∈ [idOf x])) as [Hin|Hin].
    + apply list_elem_of_singleton in Hin as Hid. rewrite (decide_True _ _ (P := idOf a ∈ idOf x :: _)) by (rewrite Hid; left).
      rewrite decide_False; [done|]. by rewrite (proj2 (Hact a)), Hid.
    + destruct (decide (idOf a ∈ map idOf m)) as [Hm'|Hm'].
      * by rewrite decide_True by (by right).
      * rewrite decide_False; [done|]. intros [?|?]%elem_of_cons; [|done]. apply Hin. by apply list_elem_of_singleton.
Qed.

Lemma updateThose_filter f P l : NoDup (map idOf l) ->
  map (updateThose f (List.filter P l)) l = map (fun a => if P a then f a else a) l.
Proof.
  intros Hnd. apply map_ext_in. intros a Ha%list_elem_of_In. unfold updateThose. destruct (P a) eqn:Ep.
  - rewrite decide_True; [done|]. apply list_elem_of_fmap. exists a. split; [done|]. by apply list_elem_of_In, filter_In; rewrite <- list_elem_of_In.
  - rewrite decide_False; [done|]. intros (b & Hid & Hb)%list_elem_of_fmap. apply list_elem_of_In, filter_In in Hb as [Hb%list_elem_of_In Hpb].
    rewrite (NoDup_map_inj idOf l a b Hnd Ha Hb Hid) in Ep. congruence.
Qed.

Lemma filter_NoDup (P : A -> bool) l : NoDup (map idOf l) -> NoDup (map idOf (List.filter P l)).
Proof.
  induction l as [|a l IH]; cbn; [done|]. intros [Hnin Hnd]%NoDup_cons. destruct (P a); [|by apply IH]. cbn. apply NoDup_cons.
  split; [|by apply IH]. intros (b & Hid & Hb)%list_elem_of_fmap. apply Hnin. rewrite Hid. apply list_elem_of_fmap. exists b. split; [done|].
  apply list_elem_of_In, filter_In in Hb as [Hb _]. by apply list_elem_of_In.
Qed.

Lemma orderRows_Permutation orderBy l : orderRows orderBy l ≡ₚ l.
Proof. destruct orderBy; [apply sortBy_Permutation|done]. Qed.

Lemma delete_rows m : forall l rows, holdsTable l rows ->
  exists rows', forM_ (map encode m) (fun row => modify (mapDelete (keyOf spec row))) rows = (inr tt : Err + unit, rows') /\
    holdsTable (List.filter (fun a => bool_decide (idOf a ∉ map idOf m)) l) rows'.
Proof.
  induction m as [|x m IH]; intros l rows [-> Hnd]; cbn [map forM_].
  { eexists. split; [reflexivity|]. rewrite (List.forallb_filter_id _ l); [by split|]. apply forallb_forall. intros a _.
    apply bool_decide_eq_true, not_elem_of_nil. }
  unfold bind at 1, modify at 1. rewrite keyOf_encode.
  assert (Hd : mapDelete (idOf x) (map entry l) = map entry (List.filter (fun a => negb (String.eqb (idOf a) (idOf x))) l)).
  { unfold mapDelete. induction l as [|a l IHl]; cbn; [done|]. apply NoDup_cons in Hnd as [_ Hnd].
    destruct (negb _); cbn; by rewrite IHl. }
  rewrite Hd. destruct (IH (List.filter (fun a => negb (String.eqb (idOf a) (idOf x))) l) _ (conj eq_refl (filter_NoDup _ _ Hnd)))
    as (rows' & Hr & Ht). exists rows'. split; [exact Hr|].
  replace (List.filter (fun a => bool_decide (idOf a ∉ idOf x :: map idOf m)) l)
    with (List.filter (fun a => bool_decide (idOf a ∉ map idOf m)) (List.filter (fun a => negb (String.eqb (idOf a) (idOf x))) l)); [exact Ht|].
  clear. induction l as [|a l IHl]; cbn; [done|]. destruct (String.eqb_spec (idOf a) (idOf x)) as [E|Hne]; cbn.
  - rewrite IHl, (bool_decide_eq_false_2 (idOf a ∉ idOf x :: _)); [done|]. rewrite E. intros Hn. apply Hn. left.
  - rewrite IHl. case_bool_decide as Hm; [rewrite bool_decide_eq_true_2; [done|]|rewrite bool_decide_eq_false_2; [done|]].
    + by intros [?|?]%elem_of_cons.
    + intros Hn. apply Hn. by right.
Qed.

Lemma deleted_filter (P : A -> bool) l : NoDup (map idOf l) ->
  List.filter (fun a => bool_decide (idOf a ∉ map idOf (List.filter P l))) l = List.filter (fun a => negb (P a)) l.
Proof.
  intros Hnd. apply filter_ext_in. intros a Ha%list_elem_of_In. destruct (P a) eqn:Ep; cbn.
  - apply bool_decide_eq_false. intros Hn. apply Hn, list_elem_of_fmap. exists a. split; [done|].
    by apply list_elem_of_In, filter_In; rewrite <- list_elem_of_In.
  - apply bool_decide_eq_true. intros (b & Hid & Hb)%list_elem_of_fmap. apply list_elem_of_In, filter_In in Hb as [Hb%list_elem_of_In Hpb].
    rewrite (NoDup_map_inj idOf l a b Hnd Ha Hb Hid) in Ep. congruence.
Qed.

(** The cursor of a row stands at that row. *)
Lemma cursor_at before a after : NoDup (map idOf (before ++ a :: after)) -> forall i,
  findIndexM (atCursor [(co_idField spec, CPrim (PStr (idOf a)))]) i (map encode (before ++ a :: after)) = inr (Some (i + length before)%nat).
Proof.
  induction before as [|b before IH]; cbn [app map findIndexM]; intros Hnd i.
  - unfold atCursor. cbn. rewrite encode_id. cbn. rewrite String.eqb_refl. by rewrite Nat.add_0_r.
  - apply NoDup_cons in Hnd as [Hnin Hnd]. unfold atCursor at 1. cbn. rewrite encode_id. cbn.
    destruct (String.eqb_spec (idOf b) (idOf a)) as [E|Hne].
    + destruct Hnin. rewrite E, map_app. apply elem_of_app. right. left.
    + rewrite IH by done. by rewrite Nat.add_succ_comm.
Qed.

Lemma findMany_table w P orderBy n skip rows l : holdsTable l rows -> decides w P ->
  findMany (mkQuery w orderBy n skip None None) rows =
  (inr (map encode (let page := drop skip (orderRows orderBy (List.filter P l)) in match n with Some n => take n page | None => page end)), rows).
Proof.
  intros Ht Hw. unfold findMany. cbn [qa_where qa_orderBy qa_cursor qa_skip qa_take qa_select].
  rewrite (bind_ok _ _ _ _ _ (filtered_table w P l rows Ht Hw)). unfold bind, ret. rewrite sortRows_table.
  cbn [applySelect]. rewrite map_id. destruct n; cbn zeta; [by rewrite fmap_take, fmap_drop|by rewrite fmap_drop].
Qed.

Lemma update_table w P data f now rows l : holdsTable l rows -> decides (Some w) P -> acts now data f ->
  match List.filter P l with
  | [] => update spec now w data rows = (inl (memoryError "record not found for update"), rows)
  | a :: _ => exists rows', update spec now w data rows = (inr (encode (f a)), rows') /\ holdsTable (map (updateThose f [a]) l) rows'
  end.
Proof.
  intros Ht Hw Hact. pose proof Ht as [Hrows Hnd]. unfold update. rewrite (bind_ok _ _ _ _ _ (filtered_table (Some w) P l rows Ht Hw)).
  destruct (List.filter P l) as [|a m] eqn:Ef; cbn [map]; [done|].
  assert (Ha : a ∈ l). { apply list_elem_of_In. apply (filter_In P). rewrite Ef. left. done. }
  destruct (Hact a) as [Hx Hid].
  unfold storeUpdated, bind, modify, ret. rewrite Hx, keyOf_encode, Hrows, mapSet_entries. eexists. split; [reflexivity|].
  rewrite (putRow_update f a l Hid Ha Hnd). split; [done|].
  rewrite map_map, (map_ext _ idOf); [done|]. intros b. unfold updateThose. destruct (decide _); [apply Hact|done].
Qed.

(** C19. A collection is a table. While it holds the rows of a table, in the order
    of their creation, every operation does to them what its condition and its
    data say of the rows: queries return the matching rows in the requested
    order, a page after a cursor the rows that follow it; [create] adds a row
    or, if the identifier is taken, replaces that row; updates change the rows
    matched and no others, deletions remove them; and the collection holds a
    table afterwards, with one row for each identifier. *)
Theorem collection_refines_table l rows now :
  holdsTable l rows ->
  (forall w P orderBy n skip, decides w P ->
     findMany (mkQuery w orderBy n skip None None) rows =
     (inr (map encode (let page := drop skip (orderRows orderBy (List.filter P l)) in match n with Some n => take n page | None => page end)), rows)) /\
  (forall w P orderBy n before a after, decides w P -> orderRows orderBy (List.filter P l) = before ++ a :: after ->
     findMany (mkQuery w orderBy (Some n) 1 (Some [(co_idField spec, CPrim (PStr (idOf a)))]) None) rows = (inr (map encode (take n after)), rows)) /\
  (forall w P orderBy, decides w P ->
     findFirst w orderBy None rows = (inr (encode <$> head (orderRows orderBy (List.filter P l))), rows) /\
     count w rows = (inr (length (List.filter P l)), rows)) /\
  (forall newId data a, createdRow spec now newId data = encode a ->
     exists rows', create spec now newId data rows = (inr (encode a), rows') /\ holdsTable (putRow a l) rows') /\
  (forall w P data f, decides (Some w) P -> acts now data f ->
     match List.filter P l with
     | [] => update spec now w data rows = (inl (memoryError "record not found for update"), rows)
     | a :: _ => exists rows', update spec now w data rows = (inr (encode (f a)), rows') /\ holdsTable (map (updateThose f [a]) l) rows'
     end) /\
  (forall w P data f, decides w P -> acts now data f ->
     exists rows', updateMany spec now w data rows = (inr (length (List.filter P l)), rows') /\
       holdsTable (map (fun a => if P a then f a else a) l) rows') /\
  (forall w P, decides w P ->
     exists rows', deleteMany spec w rows = (inr (length (List.filter P l)), rows') /\
       holdsTable (List.filter (fun a => negb (P a)) l) rows').
Proof.
  intros Ht. pose proof Ht as [Hrows Hnd].
  assert (Hin : forall (P : A -> bool) a, a ∈ List.filter P l -> a ∈ l) by (intros P a Ha%list_elem_of_In; apply filter_In in Ha as [Ha _]; by apply list_elem_of_In).
  split; [|split; [|split; [|split; [|split; [|split]]]]].
  - intros w P orderBy n skip Hw. by apply findMany_table.
  - intros w P orderBy n before a after Hw Ho. unfold findMany. cbn [qa_where qa_orderBy qa_cursor qa_skip qa_take qa_select].
    rewrite (bind_ok _ _ _ _ _ (filtered_table w P l rows Ht Hw)). rewrite sortRows_table, Ho.
    assert (Hnd' : NoDup (map idOf (before ++ a :: after))) by (rewrite <- Ho, orderRows_Permutation; by apply filter_NoDup).
    change (normalizeWhere _) with [(co_idField spec, CPrim (PStr (idOf a)))]. unfold bind, ret, lift.
    rewrite cursor_at by done. cbn [applySelect]. rewrite map_id, Nat.add_0_l, <- fmap_drop, <- fmap_take.
    replace (length before + 1)%nat with (length (before ++ [a])) by (rewrite length_app; cbn; lia).
    change (a :: after) with ([a] ++ after). by rewrite app_assoc, drop_app_length.
  - intros w P orderBy Hw. unfold findFirst, count. rewrite !(bind_ok _ _ _ _ _ (filtered_table w P l rows Ht Hw)), sortRows_table.
    unfold ret. rewrite length_map. split; [|done]. by destruct (orderRows orderBy (List.filter P l)).
  - intros newId data a Ha. unfold create. rewrite Ha, keyOf_encode, Hrows, mapSet_entries. eexists. split; [reflexivity|].
    split; [done|]. by apply putRow_NoDup.
  - intros w P data f Hw Hact. by apply update_table.
  - intros w P data f Hw Hact. unfold updateMany. rewrite (bind_ok _ _ _ _ _ (filtered_table w P l rows Ht Hw)).
    destruct (update_rows now data f (List.filter P l) Hact l rows Ht (Hin P) (filter_NoDup P l Hnd)) as (rows' & Hr & Ht').
    rewrite (bind_ok _ _ _ _ _ Hr). rewrite updateThose_filter in Ht' by done. exists rows'. unfold ret. by rewrite length_map.
  - intros w P Hw. unfold deleteMany. rewrite (bind_ok _ _ _ _ _ (filtered_table w P l rows Ht Hw)).
    destruct (delete_rows (List.filter P l) l rows Ht) as (rows' & Hr & Ht'). rewrite (bind_ok _ _ _ _ _ Hr).
    rewrite deleted_filter in Ht' by done. exists rows'. unfold ret. by rewrite length_map.
Qed.
End Refinement.

(** ** Rows by identifier *)

Section ById.
Context `{JsText} (spec : CollectionSpec).

(** Each row is stored under its identifier, a string. *)
Definition wellKeyed (rows : Rows) : Prop :=
  NoDup (map fst rows) /\ forall k row, (k, row) ∈ rows -> row !! co_idField spec = Some (VPrim (PStr k)).

Definition withId (e : string * Row) : Row := <[co_idField spec := VPrim (PStr (fst e))]> (snd e).

Definition byId (k : string) : Where := [(co_idField spec, CPrim (PStr k))].

Lemma withId_id e : withId e !! co_idField spec = Some (VPrim (PStr (fst e))).
Proof. apply lookup_insert_eq. Qed.

Lemma wellKeyed_holds rows : wellKeyed rows -> holdsTable withId fst rows rows.
Proof.
  intros [Hnd Hid]. split; [|done]. unfold entry. clear Hnd. induction rows as [|[k row] rows IH]; cbn; [done|].
  rewrite <- IH by (intros ? ? ?; apply Hid; by right). do 2 f_equal. unfold withId. cbn. rewrite insert_id; [done|]. apply Hid. left.
Qed.

Lemma holds_wellKeyed l rows : holdsTable withId fst l rows -> wellKeyed rows.
Proof.
  intros [-> Hnd]. split.
  - rewrite map_map. exact Hnd.
  - intros k row (e & [= -> ->] & _)%list_elem_of_fmap. apply withId_id.
Qed.

Lemma holds_peek l rows k : holdsTable withId fst l rows -> peek k rows = withId <$> find (fun e => String.eqb (fst e) k) l.
Proof.
  intros [-> _]. unfold peek. induction l as [|e l IH]; cbn; [done|]. destruct (String.eqb (fst e) k); [done|exact IH].
Qed.

Lemma peek_wellKeyed rows k row : wellKeyed rows -> peek k rows = Some row -> row !! co_idField spec = Some (VPrim (PStr k)).
Proof.
  intros [_ Hid] Hp. unfold peek in Hp. destruct (find _ rows) as [[k' r]|] eqn:Ef; [|done]. injection Hp as <-.
  apply find_some in Ef as [Hin Hk%String.eqb_eq]. cbn in Hk. subst k'. by apply Hid, list_elem_of_In.
Qed.

Definition hasId (k : string) (e : string * Row) : bool := String.eqb (fst e) k.

Context (Hfield : isLogical (co_idField spec) = false).

Lemma byId_decides k : decides withId (Some (byId k)) (hasId k).
Proof.
  intros e. unfold matchWhere, byId. cbn [whereDepth map condDepth snd list_max]. cbn [matchWhereN].
  unfold isLogical in Hfield. apply bool_decide_eq_false in Hfield.
  change (normalizeWhere [(co_idField spec, CPrim (PStr k))]) with [(co_idField spec, CPrim (PStr k))]. cbn [everyM].
  rewrite withId_id. unfold matchField, valuesEqual. cbn [isDate orb strictEqual].
  repeat match goal with |- context [String.eqb (co_idField spec) ?x] =>
    destruct (String.eqb_spec (co_idField spec) x) as [Hx|_]; [destruct Hfield; rewrite Hx; set_solver|] end.
  unfold hasId. by destruct (String.eqb (fst e) k).
Qed.

Lemma findUnique_byId k rows : wellKeyed rows -> findUnique (Some (byId k)) None rows = (inr (peek k rows), rows).
Proof.
  intros Hw%wellKeyed_holds. unfold findUnique. rewrite (bind_ok _ _ _ _ _ (filtered_table withId fst _ _ _ _ Hw (byId_decides k))).
  rewrite (holds_peek _ _ k Hw). unfold ret, hasId. do 2 f_equal. clear Hw.
  induction rows as [|e rows IH]; cbn; [done|]. destruct (String.eqb (fst e) k); [done|exact IH].
Qed.

Lemma applyMember_keep row key u k : key <> k -> applyMember row key u !! k = row !! k.
Proof. intros Hne. destruct u as [|v|[] v]; cbn; try done; try (by rewrite lookup_insert_ne); by rewrite lookup_partial_alter_ne. Qed.

Lemma applyUpdateData_keep now row data k : k ∉ map fst data -> k <> "updatedAt"%string -> applyUpdateData now row data !! k = row !! k.
Proof.
  intros Hk Hu. unfold applyUpdateData.
  assert (Hf : forall r, foldl (fun next '(key, u) => applyMember next key u) r data !! k = r !! k).
  { induction data as [|[key u] data IH]; intros r; [done|]. cbn [map fst] in Hk. apply not_elem_of_cons in Hk as [Hne Hk].
    cbn [foldl]. rewrite IH by done. by apply applyMember_keep. }
  case_bool_decide; [rewrite lookup_insert_ne by done|]; apply Hf.
Qed.

Lemma find_keep {B} (g : string * B -> string * B) k l : (forall x, fst (g x) = fst x) ->
  find (fun x => String.eqb (fst x) k) (map g l) = g <$> find (fun x => String.eqb (fst x) k) l.
Proof. intros Hg. induction l as [|x l IH]; cbn; [done|]. rewrite Hg. destruct (String.eqb (fst x) k); [done|exact IH]. Qed.

(** The update of one row. *)
Definition updated (now : Z) (data : list (string * UpdateVal)) (e : string * Row) : string * Row :=
  (fst e, applyUpdateData now (withId e) data).

Context (Hstamp : co_idField spec <> "updatedAt"%string).

Lemma updated_acts now data : co_idField spec ∉ map fst data -> acts withId fst now data (updated now data).
Proof.
  intros Hk e. split; [|done]. unfold updated, withId at 2. cbn [fst snd]. rewrite insert_id; [done|].
  rewrite applyUpdateData_keep by done. apply withId_id.
Qed.

(** The update of the row with an identifier, if a test of the row allows it. *)
Lemma update_one w now k (test : Row -> bool) data rows :
  decides withId (Some w) (fun e => hasId k e && test (withId e)) -> wellKeyed rows -> co_idField spec ∉ map fst data ->
  match peek k rows with
  | Some row =>
      if test row
      then exists rows', update spec now w data rows = (inr (applyUpdateData now row data), rows') /\ wellKeyed rows' /\
             forall k', peek k' rows' = if String.eqb k k' then Some (applyUpdateData now row data) else peek k' rows
      else update spec now w data rows = (inl (memoryError "record not found for update"), rows)
  | None => update spec now w data rows = (inl (memoryError "record not found for update"), rows)
  end.
Proof.
  intros Hwhere Hw%wellKeyed_holds Hk. set (P := fun e => hasId k e && test (withId e)).
  pose proof (update_table spec withId fst withId_id w P data (updated now data) now rows rows Hw Hwhere (updated_acts now data Hk)) as Hu.
  destruct Hw as [Hrows Hnd]. assert (Hone : List.filter P rows = match find (hasId k) rows with
    | Some e => if test (withId e) then [e] else [] | None => [] end).
  { clear -Hnd. unfold P. induction rows as [|e rows IH]; cbn; [done|]. apply NoDup_cons in Hnd as [Hnin Hnd].
    destruct (hasId k e) eqn:He; cbn; [|by apply IH]. apply String.eqb_eq in He.
    assert (Hnil : List.filter (fun e => hasId k e && test (withId e)) rows = []).
    { destruct (List.filter _ rows) as [|x l] eqn:Ef; [done|]. assert (Hx : In x (x :: l)) by by left. rewrite <- Ef in Hx.
      apply filter_In in Hx as [Hx Hp]. apply andb_prop in Hp as [Hp _]. apply String.eqb_eq in Hp. destruct Hnin.
      rewrite He, <- Hp. apply list_elem_of_fmap. exists x. split; [done|]. by apply list_elem_of_In. }
    rewrite Hnil. by destruct (test (withId e)). }
  assert (Hpeek : peek k rows = withId <$> find (hasId k) rows) by (by rewrite (holds_peek _ _ k (conj Hrows Hnd))).
  rewrite Hpeek. rewrite Hone in Hu. destruct (find (hasId k) rows) as [e|] eqn:Ef; cbn [fmap option_fmap option_map]; [|exact Hu].
  destruct (test (withId e)); [|exact Hu]. destruct Hu as (rows' & Hr & Ht). exists rows'.
  assert (Hact : withId (updated now data e) = applyUpdateData now (withId e) data) by (symmetry; by apply (updated_acts now data Hk e)).
  rewrite Hact in Hr. split; [exact Hr|]. split; [by apply (holds_wellKeyed _ _ Ht)|]. intros k'.
  apply find_some in Ef as [Hin He%String.eqb_eq].
  rewrite (holds_peek _ _ k' Ht), (holds_peek _ _ k' (conj Hrows Hnd)), find_keep
    by (intros x; unfold updateThose; by destruct (decide _)).
  destruct (find (fun x => String.eqb (fst x) k') rows) as [x|] eqn:Ex; cbn [fmap option_fmap option_map].
  - apply find_some in Ex as [Hx Hk'%String.eqb_eq]. unfold updateThose. cbn [map].
    destruct (String.eqb_spec k k') as [<-|Hne].
    + rewrite decide_True by (apply list_elem_of_singleton; congruence).
      rewrite (NoDup_map_inj fst rows x e Hnd) by (try (by apply list_elem_of_In); congruence). by rewrite Hact.
    + rewrite decide_False; [done|]. intros Hs%list_elem_of_singleton. congruence.
  - destruct (String.eqb_spec k k') as [<-|Hne]; [|done].
    pose proof (find_none _ _ Ex e Hin) as Hno. cbn in Hno. by rewrite He, String.eqb_refl in Hno.
Qed.

Lemma update_byId now k data rows : wellKeyed rows -> co_idField spec ∉ map fst data ->
  match peek k rows with
  | None => update spec now (byId k) data rows = (inl (memoryError "record not found for update"), rows)
  | Some row => exists rows', update spec now (byId k) data rows = (inr (applyUpdateData now row data), rows') /\ wellKeyed rows' /\
      forall k', peek k' rows' = if String.eqb k k' then Some (applyUpdateData now row data) else peek k' rows
  end.
Proof.
  intros Hw Hk. pose proof (update_one (byId k) now k (fun _ => true) data rows) as Hu. cbn beta in Hu.
  apply Hu; [|done|done]. intros e. rewrite andb_true_r. apply byId_decides.
Qed.

Lemma setMember_keys (k : string) (row : Row) rows x : x ∈ map fst (setMember k row rows) <-> x = k \/ x ∈ map fst rows.
Proof.
  induction rows as [|[k' r] rows IH]; cbn.
  - rewrite list_elem_of_singleton, elem_of_nil. tauto.
  - destruct (String.eqb_spec k k') as [<-|]; cbn; rewrite !elem_of_cons; [tauto|]. rewrite IH. tauto.
Qed.

Lemma mapSet_wellKeyed k row rows : wellKeyed rows -> row !! co_idField spec = Some (VPrim (PStr k)) -> wellKeyed (mapSet k row rows).
Proof.
  intros [Hnd Hid] Hk. split.
  - unfold mapSet. clear Hid. induction rows as [|[k' r] rows IH]; cbn; [by apply NoDup_singleton|]. apply NoDup_cons in Hnd as [Hn Hnd].
    destruct (String.eqb_spec k k') as [<-|Hne]; cbn; apply NoDup_cons; [by split|]. split; [|by apply IH].
    rewrite setMember_keys. by intros [->|?].
  - intros x r [[= -> ->]|Hin]%setMember_elem; [done|]. by apply Hid.
Qed.

Lemma peek_mapSet k row rows k' : peek k' (mapSet k row rows) = if String.eqb k k' then Some row else peek k' rows.
Proof.
  unfold peek, mapSet. induction rows as [|[k0 r] rows IH]; cbn; [by destruct (String.eqb k k')|].
  destruct (String.eqb_spec k k0) as [<-|Hne]; cbn; [by destruct (String.eqb k k')|].
  destruct (String.eqb_spec k0 k') as [<-|]; [|exact IH]. by destruct (String.eqb_spec k k0).
Qed.

Lemma create_byId now newId data k rows : wellKeyed rows -> createdRow spec now newId data !! co_idField spec = Some (VPrim (PStr k)) ->
  let row := createdRow spec now newId data in
  create spec now newId data rows = (inr row, mapSet k row rows) /\ wellKeyed (mapSet k row rows).
Proof. intros Hw Hk. unfold create, keyOf. cbv zeta. rewrite Hk. split; [done|]. by apply mapSet_wellKeyed. Qed.
End ById.

(** ** The client *)

Section Client.
Context `{JsText} (newUuid : nat -> string).

Definition absent : Val := VPrim PNull.
Definition zero : Val := VPrim (PNum (Fin 0)).
Definition text (s : string) : Val := VPrim (PStr s).
Definition flag (b : bool) : Val := VPrim (PBool b).

Definition DEFAULT_NOTIFICATION_PREFS : Val :=
  VOther (JObj [("win"%string, JBool true); ("loss"%string, JBool true); ("roundStart"%string, JBool false);
                ("bonus"%string, JBool true); ("announcement"%string, JBool true)]).

Definition userDefaults : list (string * Val) :=
  [("publicKey"%string, absent); ("nickname"%string, absent); ("avatarUrl"%string, absent); ("preferences"%string, absent);
   ("virtualBalance"%string, VPrim (PNum (Fin 1000))); ("wins"%string, zero); ("streak"%string, zero);
   ("role"%string, text "USER"); ("notificationPreferences"%string, DEFAULT_NOTIFICATION_PREFS); ("lastLoginAt"%string, absent)].

Definition roundDefaults : list (string * Val) :=
  [("status"%string, text "PENDING"); ("endPrice"%string, absent); ("sorobanRoundId"%string, absent);
   ("isSoroban"%string, flag false); ("poolUp"%string, zero); ("poolDown"%string, zero);
   ("priceRanges"%string, absent); ("resolvedAt"%string, absent)].

(** [started] is when the process started. *)
Definition predictionDefaults (started : Z) : list (string * Val) :=
  [("side"%string, absent); ("priceRange"%string, absent); ("won"%string, absent); ("payout"%string, absent);
   ("chainStatus"%string, text "PENDING"); ("txHash"%string, absent); ("chainAttemptCount"%string, zero);
   ("chainFailureReason"%string, absent); ("chainSubmittedAt"%string, absent); ("chainConfirmedAt"%string, absent);
   ("chainFailedAt"%string, absent); ("compensatedAt"%string, absent); ("updatedAt"%string, VPrim (PDate started))].

Definition betDefaults : list (string * Val) :=
  [("roundId"%string, absent); ("side"%string, absent); ("predictedPrice"%string, absent); ("status"%string, text "ACCEPTED");
   ("txHash"%string, absent); ("failureReason"%string, absent); ("submittedAt"%string, absent); ("confirmedAt"%string, absent);
   ("resolvedAt"%string, absent); ("failedAt"%string, absent)].

Definition userStatsDefaults : list (string * Val) :=
  [("totalPredictions"%string, zero); ("correctPredictions"%string, zero); ("totalEarnings"%string, zero);
   ("upDownWins"%string, zero); ("upDownLosses"%string, zero); ("upDownEarnings"%string, zero);
   ("legendsWins"%string, zero); ("legendsLosses"%string, zero); ("legendsEarnings"%string, zero)].

(** [modelClients]; the defaults are functions, but none depends on the time of
    the call except that of multiplayerSession. *)
Definition modelSpec (started now : Z) (model : string) : option CollectionSpec :=
  let named s := String.eqb model s in
  let plain := mkCollection "id" in
  if named "user"%string then Some (plain userDefaults)
  else if named "authChallenge"%string then Some (plain [("userId"%string, absent); ("usedAt"%string, absent); ("isUsed"%string, flag false)])
  else if named "transaction"%string then Some (plain [("description"%string, absent); ("roundId"%string, absent)])
  else if named "round"%string then Some (plain roundDefaults)
  else if named "prediction"%string then Some (plain (predictionDefaults started))
  else if named "bet"%string then Some (plain betDefaults)
  else if named "notification"%string then Some (plain [("data"%string, absent); ("isRead"%string, flag false)])
  else if named "userStats"%string then Some (plain userStatsDefaults)
  else if named "message"%string then Some (plain [])
  else if named "tournament"%string then
    Some (plain [("status"%string, text "UPCOMING"); ("currentParticipants"%string, zero); ("rounds"%string, VPrim (PNum (Fin 1)))])
  else if named "tournamentParticipant"%string then Some (plain [])
  else if named "multiplayerSession"%string then
    Some (plain [("rooms"%string, VOther (JArr [])); ("metadata"%string, absent); ("disconnectedAt"%string, absent);
                 ("lastSeenAt"%string, VPrim (PDate now))])
  else if named "auditLog"%string then Some (plain [])
  else if named "outboxEvent"%string then
    Some (plain [("status"%string, text "PENDING"); ("attempts"%string, zero); ("lastError"%string, absent); ("processedAt"%string, absent)])
  else if named "mockRound"%string then Some (plain [])
  else if named "mockLeaderboard"%string then Some (mkCollection "address" [])
  else if named "mockBet"%string then Some (plain [])
  else if named "mockPlatformStat"%string then Some (plain [])
  else None.

Record MemWorld : Type := mkMemWorld {
  mw_now : Z;
  mw_started : Z;
  mw_uuids : nat;
  mw_mockBetAutoId : Z;
  mw_tables : gmap string Rows;
}.

(** *** The fixtures *)

Definition numberVal (z : Z) : Val := VPrim (PNum (Fin (inject_Z z))).

Definition objectRow (members : list (string * Val)) : Row := assignRow (map (fun '(k, v) => (k, Some v)) members) ∅.

Definition minutesFromNow (toISOString : Z -> string) (started minutes : Z) : Val := text (toISOString (started + minutes * 60000)).

Definition mockRoundSeeds (toISOString : Z -> string) (started : Z) : list Row :=
  let round id asset mode status startPrice poolUp poolDown totalPool predictionCount minutes :=
    objectRow [("id"%string, text id); ("asset"%string, text asset); ("mode"%string, text mode); ("status"%string, text status);
               ("startPrice"%string, startPrice); ("poolUp"%string, poolUp); ("poolDown"%string, poolDown);
               ("totalPool"%string, totalPool); ("predictionCount"%string, predictionCount);
               ("closesAt"%string, minutesFromNow toISOString started minutes)] in
  [round "btc-updown-live" "BTC" "updown" "live" (numberVal 67420) (numberVal 2800) (numberVal 1400) absent absent 3;
   round "eth-precision-live" "ETH" "precision" "live" (numberVal 3241) absent absent (numberVal 1800) (numberVal 22) 12;
   round "xlm-updown-new" "XLM" "updown" "new" (VPrim (PNum (Fin (f64 (2891 # 10000)%Q)))) (numberVal 200) zero absent absent 20]%string.

Definition leaderSeed (rank : Z) (address : string) (totalWins totalLosses winStreak xp : Z) (rankTitle : string) : Row :=
  objectRow [("rank"%string, numberVal rank); ("address"%string, text address); ("totalWins"%string, numberVal totalWins);
             ("totalLosses"%string, numberVal totalLosses); ("winStreak"%string, numberVal winStreak); ("xp"%string, numberVal xp);
             ("rankTitle"%string, text rankTitle); ("balance"%string, numberVal 1000); ("pendingWinnings"%string, zero)].

Definition mockLeaderboardSeeds : list Row :=
  [leaderSeed 1 "GBZX...9QRA" 42 8 9 18400 "Oracle";
   leaderSeed 2 "GDK4...2LXM" 37 10 6 15950 "Market Sage";
   leaderSeed 3 "GAV7...8PQN" 35 13 4 14820 "Trend Master";
   leaderSeed 4 "GC9M...5VTE" 31 14 3 13210 "Signal Hunter";
   leaderSeed 5 "GCB2...7KDW" 29 15 5 12490 "Pool Climber";
   leaderSeed 6 "GDPT...4NLA" 26 16 2 11160 "Price Reader";
   leaderSeed 7 "GB7N...6XHF" 24 18 1 10240 "Streak Keeper";
   leaderSeed 8 "GCR8...3MLB" 22 20 2 9480 "Chart Scout";
   leaderSeed 9 "GAF5...1ZQH" 19 17 1 8360 "Breakout Seeker";
   leaderSeed 10 "GDT6...8RCV" 17 19 0 7540 "Rookie Prophet"]%string.

Definition mockPlatformStatSeeds : list Row :=
  [objectRow [("id"%string, numberVal 1); ("totalRounds"%string, numberVal 1247); ("totalVxlmDistributed"%string, numberVal 4200000);
              ("activePlayers"%string, numberVal 893); ("totalBetsPlaced"%string, numberVal 8432)]].

(** The collections when the module is loaded. *)
Definition newMemWorld (toISOString : Z -> string) (started : Z) : MemWorld :=
  mkMemWorld started started 0 1
    (<["mockRound"%string := seed (mkCollection "id" []) (mockRoundSeeds toISOString started) []]>
     (<["mockLeaderboard"%string := seed (mkCollection "address" []) mockLeaderboardSeeds []]>
      {["mockPlatformStat"%string := seed (mkCollection "id" []) mockPlatformStatSeeds []]})).

Definition tableOf (model : string) (w : MemWorld) : Rows := default [] (mw_tables w !! model).

(** [client[model].op(...)]; the proxy refuses an unknown model. *)
Definition onModel {A} (model : string) (op : CollectionSpec -> Z -> OnRows A) : M MemWorld Err A := fun w =>
  match modelSpec (mw_started w) (mw_now w) model with
  | None => (inl (memoryError ("model " +:+ model +:+ " has no in-memory stub")%string), w)
  | Some spec =>
      let '(r, rows) := op spec (mw_now w) (tableOf model w) in
      (r, w {{ mw_tables := <[model := rows]> (mw_tables w) }})
  end.

(** An identifier is generated when the data has none. *)
Definition generateId (model : string) (data : list (string * option Val)) : M MemWorld Err Val := fun w =>
  match modelSpec (mw_started w) (mw_now w) model ≫= fun spec => assignRow data ∅ !! co_idField spec with
  | None | Some (VPrim PNull) =>
      if String.eqb model "mockBet"
      then (inr (VPrim (PNum (Fin (inject_Z (mw_mockBetAutoId w))))), w {{ mw_mockBetAutoId := mw_mockBetAutoId w + 1 }})
      else (inr (text (newUuid (mw_uuids w))), w {{ mw_uuids := S (mw_uuids w) }})
  | Some v => (inr v, w)
  end.

Definition memCreate (model : string) (data : list (string * option Val)) : M MemWorld Err Row :=
  id <- generateId model data ;;
  onModel model (fun spec now => create spec now id data).

Definition memFindUnique (model : string) (w : Where) (select : option (list (string * bool))) : M MemWorld Err (option Row) :=
  onModel model (fun _ _ => findUnique (Some w) select).

Definition memFindMany (model : string) (args : QueryArgs) : M MemWorld Err (list Row) := onModel model (fun _ _ => findMany args).

Definition memUpdate (model : string) (w : Where) (data : list (string * UpdateVal)) : M MemWorld Err Row :=
  onModel model (fun spec now => update spec now w data).

(** [$transaction] with a callback runs it on the client itself: what it has
    done stays when it throws. *)
Definition memTransaction {A} (callback : M MemWorld Err A) : M MemWorld Err A := callback.

(** [withUserInclude] and [withRoundInclude]: the row and, if asked for, the
    row it refers to. *)
Definition withInclude (model key : string) (include : option (option (list (string * bool)))) (row : Row) (w : MemWorld)
    : Row * option (option Row) :=
  match include with
  | None => (row, None)
  | Some select => (row, Some ((fun r => applySelect r select) <$> peek (stringOf (row !! key)) (tableOf model w)))
  end.

Definition messageCreate (data : list (string * option Val)) (include : option (option (list (string * bool))))
    : M MemWorld Err (Row * option (option Row)) :=
  row <- memCreate "message" data ;;
  gets (withInclude "user" "userId" include row).

Definition messageFindMany (args : QueryArgs) (include : option (option (list (string * bool))))
    : M MemWorld Err (list (Row * option (option Row))) :=
  rows <- memFindMany "message" args ;;
  gets (fun w => map (fun row => withInclude "user" "userId" include row w) rows).

Definition predictionFindMany (args : QueryArgs) (include : option (option (list (string * bool))))
    : M MemWorld Err (list (Row * option (option Row))) :=
  rows <- memFindMany "prediction" args ;;
  gets (fun w => map (fun row => withInclude "round" "roundId" include row w) rows).
End Client.
