(* ===== verification/Hackathon.v ===== *)
(** * The demo mode (src/src/services/hackathon.service.ts, src/src/data/bet-store.ts)

    [HackathonService] on the in-memory database of [MemoryStore], and the store
    of bets behind the in-memory repositories. *)

From Stdlib Require Import ZArith QArith Lia.
From stdpp Require Import base gmap strings list pretty.
From S2P Require Import Prelude.
From S2P Require Import Numeric.
From S2P Require Import Errors.
From S2P Require Import Schema.
From S2P Require Import MemoryStore.

#[local] Open Scope Z_scope.

(** ** HackathonService *)

Record PlaceBetInput : Type := mkPlaceBet {
  hb_userId : string;
  hb_roundId : string;
  hb_amount : Q;
  hb_up : bool;
}.

Record HackathonBetResult : Type := mkHackathonResult {
  hr_amount : Q;
  hr_newBalance : option Val;
  hr_poolUp : option Val;
  hr_poolDown : option Val;
}.

Section Hackathon.
Context `{JsText} (newUuid : nat -> string).

Definition isText (s : string) (v : option Val) : bool := strictEqual v (Some (text s)).

Definition idWhere (id : string) : Where := [("id"%string, CPrim (PStr id))].

Definition insufficientBalance : Err := BusinessRuleError "Insufficient balance" INSUFFICIENT_FUNDS.

Definition placeTransactionalBet (input : PlaceBetInput) : M MemWorld Err HackathonBetResult :=
  let decimalAmount := toDecimal (hb_amount input) in
  memTransaction (
    round <- memFindUnique "round" (idWhere (hb_roundId input)) None ;;
    match round with
    | None => throw (BusinessRuleError "Round not found" NOT_FOUND)
    | Some round =>
        if negb (isText "ACTIVE" (round !! "status"%string)) then throw (BusinessRuleError "Round is not active" ROUND_NOT_ACTIVE)
        else
          user <- catch
                    (memUpdate "user"
                       [("id"%string, CPrim (PStr (hb_userId input))); ("virtualBalance"%string, CObj [("gte"%string, CDec decimalAmount)])]
                       [("virtualBalance"%string, UOp OpDecrement (Some (VDec decimalAmount)))])
                    (fun e => throw (if String.eqb (err_code e) "P2025" then insufficientBalance else e)) ;;
          memUpdate "round" (idWhere (hb_roundId input))
            [((if hb_up input then "poolUp" else "poolDown")%string, UOp OpIncrement (Some (VDec decimalAmount)))] ;;;
          updatedRound <- memFindUnique "round" (idWhere (hb_roundId input)) None ;;
          match updatedRound with
          | None => throw (PlainError "Cannot read properties of null (reading 'poolUp')")
          | Some r => ret (mkHackathonResult decimalAmount (user !! "virtualBalance"%string) (r !! "poolUp"%string) (r !! "poolDown"%string))
          end
    end).

(** The members of a round of either mode. *)
Definition roundView (r : Row) : Row :=
  let shared := ["id"; "asset"; "mode"; "status"; "startPrice"; "closesAt"]%string in
  let own := if isText "updown" (r !! "mode"%string) then ["poolUp"; "poolDown"]%string else ["totalPool"; "predictionCount"]%string in
  applySelect r (Some (map (fun k => (k, true)) (shared ++ own))).

Definition getRounds : M MemWorld Err (list Row) :=
  rounds <- memFindMany "mockRound" (query None) ;;
  ret (map roundView rounds).

Definition leaderMembers : list (string * bool) :=
  map (fun k => (k, true)) ["address"; "totalWins"; "totalLosses"; "winStreak"; "xp"; "rankTitle"]%string.

(** Each with its rank. *)
Definition getLeaderboard : M MemWorld Err (list (nat * Row)) :=
  users <- memFindMany "mockLeaderboard" (mkQuery None (Some [("xp"%string, true)]) None 0 None None) ;;
  ret (imap (fun index u => (S index, applySelect u (Some leaderMembers))) (take 10 users)).

Definition rookie (address rankTitle : string) (wins losses streak xp : Z) : list (string * option Val) :=
  [("address"%string, Some (text address)); ("rank"%string, Some zero); ("balance"%string, Some (numberVal 1000));
   ("pendingWinnings"%string, Some zero); ("totalWins"%string, Some (numberVal wins)); ("totalLosses"%string, Some (numberVal losses));
   ("winStreak"%string, Some (numberVal streak)); ("xp"%string, Some (numberVal xp)); ("rankTitle"%string, Some (text rankTitle))].

Definition defaultPlayer (address : string) : list (string * option Val) := rookie address "Rookie" 3 1 3 410.

Definition addressWhere (address : string) : Where := [("address"%string, CPrim (PStr address))].

(** [address], [balance], [pendingWinnings], [totalWins], [totalLosses],
    [currentStreak], [xp], [rankTitle] *)
Definition statsOf (r : Row) : list (string * option Val) :=
  map (fun '(name, key) => (name, r !! key))
    [("address", "address"); ("balance", "balance"); ("pendingWinnings", "pendingWinnings"); ("totalWins", "totalWins");
     ("totalLosses", "totalLosses"); ("currentStreak", "winStreak"); ("xp", "xp"); ("rankTitle", "rankTitle")]%string.

Definition getUserStats (address : string) : M MemWorld Err (list (string * option Val)) :=
  existing <- memFindUnique "mockLeaderboard" (addressWhere address) None ;;
  match existing with
  | Some existing => ret (statsOf existing)
  | None =>
      memCreate newUuid "mockLeaderboard" (defaultPlayer address) ;;;
      ret (statsOf (assignRow (defaultPlayer address) ∅))
  end.

(** The change to the round of a bet, by its mode. *)
Definition poolChange (r : Row) (amount : num) (side : option bool) : option (list (string * UpdateVal)) :=
  let inc k x := (k, UOp OpIncrement (Some (VPrim (PNum x)))) in
  if isText "updown" (r !! "mode"%string) && bool_decide (is_Some side)
  then Some [inc (if default false side then "poolUp" else "poolDown")%string amount]
  else if isText "precision" (r !! "mode"%string)
  then Some [inc "totalPool"%string amount; inc "predictionCount"%string (Fin 1)]
  else None.

Definition sideVal (side : option bool) : option Val := (fun up : bool => text (if up then "UP" else "DOWN")) <$> side.

Definition mockBetData (roundId address : string) (amount : num) (side : option bool) (predictedPrice : option num)
    : list (string * option Val) :=
  [("roundId"%string, Some (text roundId)); ("address"%string, Some (text address)); ("amount"%string, Some (VPrim (PNum amount)));
   ("side"%string, sideVal side); ("predictedPrice"%string, (fun n => VPrim (PNum n)) <$> predictedPrice)].

Definition placeMockBet (roundId address : string) (amount : num) (side : option bool) (predictedPrice : option num) : M MemWorld Err unit :=
  memTransaction (
    existing <- memFindUnique "mockLeaderboard" (addressWhere address) None ;;
    match existing with
    | None => memCreate newUuid "mockLeaderboard" (defaultPlayer address) ;;; ret tt
    | Some _ => ret tt
    end ;;;
    memCreate newUuid "mockBet" (mockBetData roundId address amount side predictedPrice) ;;;
    memUpdate "mockLeaderboard" (addressWhere address) [("balance"%string, UOp OpDecrement (Some (VPrim (PNum amount))))] ;;;
    round <- memFindUnique "mockRound" (idWhere roundId) None ;;
    match round ≫= fun r => poolChange r amount side with
    | None => ret tt
    | Some data => memUpdate "mockRound" (idWhere roundId) data ;;; ret tt
    end).
End Hackathon.

(** ** One step on one table *)

Section Steps.
Context `{JsText} (newUuid : nat -> string).

Definition setTable (model : string) (rows : Rows) (w : MemWorld) : MemWorld := w {{ mw_tables := <[model := rows]> (mw_tables w) }}.

Lemma tableOf_set model rows w m : tableOf m (setTable model rows w) = if String.eqb model m then rows else tableOf m w.
Proof.
  unfold tableOf. change (mw_tables (setTable model rows w)) with (<[model := rows]> (mw_tables w)). destruct (String.eqb_spec model m) as [<-|Hne]; [by rewrite lookup_insert_eq|].
  by rewrite lookup_insert_ne.
Qed.

Lemma onModel_step {A} model (op : CollectionSpec -> Z -> OnRows A) w spec r rows :
  modelSpec (mw_started w) (mw_now w) model = Some spec -> op spec (mw_now w) (tableOf model w) = (r, rows) ->
  onModel model op w = (r, setTable model rows w).
Proof. intros Hs Ho. unfold onModel. by rewrite Hs, Ho. Qed.

Definition leaderSpec : CollectionSpec := mkCollection "address" [].
Definition idSpec (defaults : list (string * Val)) : CollectionSpec := mkCollection "id" defaults.

Definition leaders (w : MemWorld) : Rows := tableOf "mockLeaderboard" w.
Definition demoRounds (w : MemWorld) : Rows := tableOf "mockRound" w.
Definition demoBets (w : MemWorld) : Rows := tableOf "mockBet" w.

(** Everything but one table is the same. *)
Record onlyTable (model : string) (w w' : MemWorld) : Prop := {
  ot_now : mw_now w' = mw_now w;
  ot_started : mw_started w' = mw_started w;
  ot_autoId : mw_mockBetAutoId w' = mw_mockBetAutoId w;
  ot_tables : forall m, m <> model -> tableOf m w' = tableOf m w;
}.

Lemma onlyTable_set model rows w : onlyTable model w (setTable model rows w).
Proof. split; try done. intros m Hm. rewrite tableOf_set. by destruct (String.eqb_spec model m) as [<-|]. Qed.

Lemma find_step model spec k w : modelSpec (mw_started w) (mw_now w) model = Some spec -> isLogical (co_idField spec) = false ->
  wellKeyed spec (tableOf model w) -> exists w', memFindUnique model (byId spec k) None w = (inr (peek k (tableOf model w)), w') /\
    onlyTable model w w' /\ tableOf model w' = tableOf model w.
Proof.
  intros Hs Hf Hk. eexists. split; [eapply onModel_step; [exact Hs|apply (findUnique_byId spec Hf); exact Hk]|].
  split; [apply onlyTable_set|]. by rewrite tableOf_set, String.eqb_refl.
Qed.

Lemma update_step model spec k data w : modelSpec (mw_started w) (mw_now w) model = Some spec -> isLogical (co_idField spec) = false ->
  co_idField spec <> "updatedAt"%string -> wellKeyed spec (tableOf model w) -> co_idField spec ∉ map fst data ->
  match peek k (tableOf model w) with
  | None => exists w', memUpdate model (byId spec k) data w = (inl (memoryError "record not found for update"), w') /\
      onlyTable model w w' /\ tableOf model w' = tableOf model w
  | Some row => exists w', memUpdate model (byId spec k) data w = (inr (applyUpdateData (mw_now w) row data), w') /\ onlyTable model w w' /\
      wellKeyed spec (tableOf model w') /\
      forall k', peek k' (tableOf model w') = if String.eqb k k' then Some (applyUpdateData (mw_now w) row data) else peek k' (tableOf model w)
  end.
Proof.
  intros Hs Hf Hu Hk Hd. pose proof (update_byId spec Hf Hu (mw_now w) k data (tableOf model w) Hk Hd) as Hb.
  destruct (peek k (tableOf model w)) as [row|].
  - destruct Hb as (rows' & Hb & Hk' & Hp). eexists. split; [eapply onModel_step; [exact Hs|exact Hb]|].
    split; [apply onlyTable_set|]. by rewrite tableOf_set, String.eqb_refl.
  - eexists. split; [eapply onModel_step; [exact Hs|exact Hb]|]. split; [apply onlyTable_set|]. by rewrite tableOf_set, String.eqb_refl.
Qed.

(** A member of a row after an update of others. *)
Lemma applyUpdateData_member now row k op x :
  op <> OpSet -> k <> "updatedAt"%string ->
  let f := match op with OpIncrement => num_add | OpDecrement => num_sub | OpMultiply => num_mul | _ => num_div end in
  applyUpdateData now row [(k, UOp op (Some x))] !! k = Some (VPrim (PNum (f (currentNumber (row !! k)) (toComparable (Some x))))) /\
  forall k', k' <> k -> k' <> "updatedAt"%string -> applyUpdateData now row [(k, UOp op (Some x))] !! k' = row !! k'.
Proof.
  intros Hop Hk f. split.
  - unfold applyUpdateData. cbn [foldl].
    assert (Hm : applyMember row k (UOp op (Some x)) !! k = Some (VPrim (PNum (f (currentNumber (row !! k)) (toComparable (Some x))))))
      by (unfold f; destruct op; [..|done]; apply lookup_insert_eq).
    case_bool_decide; [|exact Hm]. rewrite lookup_insert_ne by done. exact Hm.
  - intros k' Hne Hu. apply applyUpdateData_keep; [|done]. cbn. by intros E%list_elem_of_singleton.
Qed.
End Steps.

(** ** A bet of the demo *)

Section MockBet.
Context `{JsText} (newUuid : nat -> string).
Context (roundId address : string) (amount : num) (side : option bool) (predictedPrice : option num).

(** The player's row before the bet, created if there was none. *)
Definition playerRow (w : MemWorld) : Row :=
  default (createdRow leaderSpec (mw_now w) (text address) (defaultPlayer address)) (peek address (leaders w)).

Definition betRow (w : MemWorld) : Row :=
  createdRow (idSpec []) (mw_now w) (VPrim (PNum (Fin (inject_Z (mw_mockBetAutoId w)))))
    (mockBetData roundId address amount side predictedPrice).

Definition roundAfter (w : MemWorld) (r : Row) : Row :=
  match poolChange r amount side with Some data => applyUpdateData (mw_now w) r data | None => r end.

Lemma createdRow_id spec now newId data v : assignRow data ∅ !! co_idField spec = Some v -> v <> VPrim PNull ->
  createdRow spec now newId data !! co_idField spec = Some v /\ createdRow spec now newId data = createdRow spec now v data.
Proof.
  intros Hv Hn. unfold createdRow. rewrite Hv. destruct v as [[]| |]; try done; (split; [apply lookup_insert_eq|done]).
Qed.

Lemma poolChange_id r data : poolChange r amount side = Some data -> "id"%string ∉ map fst data /\ "updatedAt"%string ∉ map fst data.
Proof.
  unfold poolChange. destruct (isText _ _ && _); [intros [= <-]|destruct (isText _ _); [intros [= <-]|done]];
    split; cbn; try (destruct (default false side)); set_solver.
Qed.

Lemma assignRow_keep data k : forall row, k ∉ map fst data -> assignRow data row !! k = row !! k.
Proof.
  induction data as [|[key v] data IH]; intros row Hk; [done|]. cbn [map fst] in Hk. apply not_elem_of_cons in Hk as [Hne Hk].
  change (assignRow data (partial_alter (fun _ => v) key row) !! k = row !! k). rewrite IH by done. by rewrite lookup_partial_alter_ne.
Qed.

Lemma create_bet w : memCreate newUuid "mockBet" (mockBetData roundId address amount side predictedPrice) w =
  (inr (betRow w), setTable "mockBet" (mapSet (keyOf (idSpec []) (betRow w)) (betRow w) (demoBets w))
                     (w {{ mw_mockBetAutoId := mw_mockBetAutoId w + 1 }})).
Proof.
  assert (Hg : generateId newUuid "mockBet" (mockBetData roundId address amount side predictedPrice) w =
    (inr (VPrim (PNum (Fin (inject_Z (mw_mockBetAutoId w))))), w {{ mw_mockBetAutoId := mw_mockBetAutoId w + 1 }})).
  { unfold generateId. change (modelSpec (mw_started w) (mw_now w) "mockBet") with (Some (idSpec [])). cbn [mbind option_bind].
    rewrite assignRow_keep by (cbn; set_solver). reflexivity. }
  unfold memCreate. rewrite (bind_ok _ _ _ _ _ Hg). reflexivity.
Qed.

(** The player is there, created if need be. *)
Lemma ensurePlayer w w0 : wellKeyed leaderSpec (leaders w) -> mw_now w0 = mw_now w -> mw_started w0 = mw_started w ->
  mw_mockBetAutoId w0 = mw_mockBetAutoId w -> tableOf "mockLeaderboard" w0 = leaders w ->
  exists w1, match peek address (leaders w) with
    | None => memCreate newUuid "mockLeaderboard" (defaultPlayer address) ;;; ret tt
    | Some _ => ret tt
    end w0 = (inr tt, w1) /\ wellKeyed leaderSpec (leaders w1) /\
    (forall a, peek a (leaders w1) = if String.eqb address a then Some (playerRow w) else peek a (leaders w)) /\
    onlyTable "mockLeaderboard" w0 w1.
Proof.
  intros Hl Hn Hs Ha Ht. unfold playerRow. destruct (peek address (leaders w)) as [row|] eqn:Ep.
  - exists w0. unfold leaders at 1 2. rewrite Ht. split; [done|]. split; [exact Hl|]. split; [|by split].
    intros a. destruct (String.eqb_spec address a) as [<-|]; [exact Ep|done].
  - destruct (createdRow_id leaderSpec (mw_now w) (text address) (defaultPlayer address) (text address)) as [Hid _]; [done..|].
    destruct (create_byId leaderSpec (mw_now w) (text address) (defaultPlayer address) address (leaders w) Hl Hid) as [Hc Hk].
    eexists. split; [|split; [|split; [|apply onlyTable_set]]].
    + assert (Hm : memCreate newUuid "mockLeaderboard" (defaultPlayer address) w0 =
        (inr (createdRow leaderSpec (mw_now w) (text address) (defaultPlayer address)),
         setTable "mockLeaderboard" (mapSet address (createdRow leaderSpec (mw_now w) (text address) (defaultPlayer address)) (leaders w)) w0)).
      { unfold memCreate.
        assert (Hg : generateId newUuid "mockLeaderboard" (defaultPlayer address) w0 = (inr (text address), w0)) by done.
        rewrite (bind_ok _ _ _ _ _ Hg). eapply (onModel_step _ _ w0 leaderSpec); [done|]. by rewrite Hn, Ht. }
      by rewrite (bind_ok _ _ _ _ _ Hm).
    + unfold leaders. by rewrite tableOf_set.
    + intros a. unfold leaders at 1. rewrite tableOf_set. cbn [String.eqb Ascii.eqb Bool.eqb]. apply peek_mapSet.
Qed.

(** What a bet of the demo does, whoever places it on whatever round. It never
    fails. The player, created with the starting balance if unknown, loses the
    amount, without a look at the balance; the bet is recorded under the next
    number; the round, if there is one, gains the amount in the pool its mode
    and the side select, a precision round also one prediction; no other player
    and no other round changes. *)
Theorem placeMockBet_spec w :
  wellKeyed leaderSpec (leaders w) -> wellKeyed (idSpec []) (demoRounds w) ->
  let '(r, w') := placeMockBet newUuid roundId address amount side predictedPrice w in
  r = inr tt /\ wellKeyed leaderSpec (leaders w') /\ wellKeyed (idSpec []) (demoRounds w') /\
  (exists row', peek address (leaders w') = Some row' /\
     row' !! "balance"%string = Some (VPrim (PNum (num_sub (currentNumber (playerRow w !! "balance"%string)) amount))) /\
     forall k, k <> "balance"%string -> k <> "updatedAt"%string -> row' !! k = playerRow w !! k) /\
  (forall a, a <> address -> peek a (leaders w') = peek a (leaders w)) /\
  (forall k, peek k (demoRounds w') = if String.eqb roundId k then roundAfter w <$> peek k (demoRounds w) else peek k (demoRounds w)) /\
  demoBets w' = mapSet (keyOf (idSpec []) (betRow w)) (betRow w) (demoBets w) /\ mw_mockBetAutoId w' = mw_mockBetAutoId w + 1.
Proof.
  intros Hl Hr. unfold placeMockBet, memTransaction.
  destruct (find_step "mockLeaderboard" leaderSpec address w eq_refl eq_refl Hl) as (w0 & Hfind & [N0 S0 A0 T0] & L0).
  rewrite (bind_ok _ _ _ _ _ Hfind). fold (leaders w) in *.
  destruct (ensurePlayer w w0 Hl N0 S0 A0 L0) as (w1 & Hplayer & Hl1 & Hp1 & [N1 S1 A1 T1]).
  rewrite (bind_ok _ _ _ _ _ Hplayer).
  assert (Hb : memCreate newUuid "mockBet" (mockBetData roundId address amount side predictedPrice) w1 =
    (inr (betRow w), setTable "mockBet" (mapSet (keyOf (idSpec []) (betRow w)) (betRow w) (demoBets w))
                       (w1 {{ mw_mockBetAutoId := mw_mockBetAutoId w1 + 1 }}))).
  { rewrite create_bet. unfold betRow, demoBets. rewrite A1, A0, N1, N0, (T1 "mockBet"%string), (T0 "mockBet"%string) by done. done. }
  rewrite (bind_ok _ _ _ _ _ Hb).
  set (w2 := setTable "mockBet" _ _).
  assert (T2 : forall m, m <> "mockBet"%string -> tableOf m w2 = tableOf m w1)
    by (intros m Hm; unfold w2; rewrite tableOf_set; by destruct (String.eqb_spec "mockBet" m) as [<-|]).
  assert (Hl2 : leaders w2 = leaders w1) by (by apply T2).
  assert (Hr2 : demoRounds w2 = demoRounds w) by (unfold demoRounds; by rewrite T2, T1, T0).
  pose proof (update_step "mockLeaderboard" leaderSpec address [("balance"%string, UOp OpDecrement (Some (VPrim (PNum amount))))] w2
    eq_refl eq_refl ltac:(done)) as Hu.
  fold (leaders w2) in Hu. rewrite Hl2 in Hu. specialize (Hu Hl1 ltac:(cbn; set_solver)). rewrite Hp1, String.eqb_refl in Hu.
  destruct Hu as (w3 & Hu & [N3 S3 A3 T3] & Hl3 & Hp3). fold (leaders w3) in Hl3, Hp3. rewrite (bind_ok _ _ _ _ _ Hu).
  assert (Hr3 : demoRounds w3 = demoRounds w) by (unfold demoRounds; rewrite T3 by done; exact Hr2).
  destruct (find_step "mockRound" (idSpec []) roundId w3 eq_refl eq_refl) as (w4 & Hf4 & [N4 S4 A4 T4] & R4); [fold (demoRounds w3); by rewrite Hr3|].
  fold (demoRounds w3) in Hf4, R4. rewrite Hr3 in Hf4, R4. change (byId (idSpec []) roundId) with (idWhere roundId) in Hf4.
  rewrite (bind_ok _ _ _ _ _ Hf4).
  pose proof (applyUpdateData_member (mw_now w2) (playerRow w) "balance" OpDecrement (VPrim (PNum amount)) ltac:(done) ltac:(done)) as [Hbal Hkeep].
  set (row' := applyUpdateData _ _ _) in *.
  assert (Hnow : mw_now w4 = mw_now w) by (rewrite N4, N3; change (mw_now w2) with (mw_now w1); congruence).
  assert (Hauto : mw_mockBetAutoId w4 = mw_mockBetAutoId w + 1) by (rewrite A4, A3; change (mw_mockBetAutoId w2) with (mw_mockBetAutoId w1 + 1); congruence).
  assert (Hbets4 : demoBets w4 = mapSet (keyOf (idSpec []) (betRow w)) (betRow w) (demoBets w))
    by (unfold demoBets; rewrite T4, T3 by done; unfold w2; by rewrite tableOf_set).
  assert (Hl4 : leaders w4 = leaders w3) by (unfold leaders; by rewrite T4).
  assert (Hpeek : forall a, peek a (leaders w3) = if String.eqb address a then Some row' else peek a (leaders w))
    by (intros a; rewrite Hp3, Hp1; by destruct (String.eqb address a)).
  destruct (peek roundId (demoRounds w) ≫= fun r => poolChange r amount side) as [data|] eqn:Eq.
  2: { split; [done|]. rewrite Hl4. unfold demoRounds at 1 2 3. rewrite R4. split; [exact Hl3|]. split; [exact Hr|].
       split; [exists row'; rewrite Hpeek, String.eqb_refl; auto|]. split; [|split; [|by split]].
       - intros a Hne. rewrite Hpeek. by destruct (String.eqb_spec address a) as [<-|].
       - intros k. destruct (String.eqb_spec roundId k) as [<-|]; [|done]. fold (demoRounds w).
         destruct (peek roundId (demoRounds w)) as [r|]; [|done]. cbn in Eq |- *. unfold roundAfter. by rewrite Eq. }
  destruct (peek roundId (demoRounds w)) as [r|] eqn:Er; [|done]. cbn [mbind option_bind] in Eq.
  destruct (poolChange_id r data Eq) as [Hid Hst].
  pose proof (update_step "mockRound" (idSpec []) roundId data w4 eq_refl eq_refl ltac:(done)) as Hu4. rewrite R4 in Hu4.
  specialize (Hu4 Hr Hid). rewrite Er in Hu4. destruct Hu4 as (w5 & Hu4 & [N5 S5 A5 T5] & Hr5 & Hp5). rewrite (bind_ok _ _ _ _ _ Hu4).
  assert (Hl5 : leaders w5 = leaders w3) by (unfold leaders; rewrite T5 by done; exact Hl4).
  split; [done|]. rewrite Hl5. split; [exact Hl3|]. split; [exact Hr5|].
  split; [exists row'; rewrite Hpeek, String.eqb_refl; auto|]. split; [|split; [|split]].
  - intros a Hne. rewrite Hpeek. by destruct (String.eqb_spec address a) as [<-|].
  - intros k. unfold demoRounds at 1. rewrite Hp5. destruct (String.eqb_spec roundId k) as [<-|]; [|done]. rewrite Er. cbn.
    unfold roundAfter. by rewrite Eq, Hnow.
  - unfold demoBets. rewrite T5 by done. exact Hbets4.
  - by rewrite A5.
Qed.
End MockBet.

(** ** A bet against the accounts *)

Section TransactionalBet.
Context `{JsText} (input : PlaceBetInput).
#[local] Notation amount := (toDecimal (hb_amount input)).

Definition userSpec : CollectionSpec := idSpec userDefaults.
Definition roundSpec : CollectionSpec := idSpec roundDefaults.

Definition accounts (w : MemWorld) : Rows := tableOf "user" w.
Definition gameRounds (w : MemWorld) : Rows := tableOf "round" w.

Definition coversAmount (row : Row) : bool := num_le (num_of_Q amount) (toComparable (row !! "virtualBalance"%string)).

Definition debitWhere : Where :=
  [("id"%string, CPrim (PStr (hb_userId input))); ("virtualBalance"%string, CObj [("gte"%string, CDec amount)])].

Lemma debitWhere_decides : decides (withId userSpec) (Some debitWhere) (fun e => hasId (hb_userId input) e && coversAmount (withId userSpec e)).
Proof.
  intros e. unfold matchWhere, debitWhere. cbn [whereDepth map condDepth snd list_max foldr Nat.max]. cbn [matchWhereN].
  match goal with |- context [normalizeWhere ?x] => change (normalizeWhere x) with x end. cbn [everyM].
  rewrite (withId_id userSpec e : withId userSpec e !! "id"%string = _). unfold matchField at 1, valuesEqual. cbn [isDate orb strictEqual].
  unfold hasId. cbn. destruct (String.eqb (fst e) (hb_userId input)); [|done]. cbn. unfold coversAmount. by destruct (num_le _ _).
Qed.

(** The row of an account, or of a round, after the bet. *)
Definition debitedRow (now : Z) (row : Row) : Row :=
  applyUpdateData now row [("virtualBalance"%string, UOp OpDecrement (Some (VDec amount)))].

Definition poolKey : string := if hb_up input then "poolUp" else "poolDown".

Definition fundedRow (now : Z) (row : Row) : Row := applyUpdateData now row [(poolKey, UOp OpIncrement (Some (VDec amount)))].

Definition unchanged (w w' : MemWorld) : Prop := forall m, tableOf m w' = tableOf m w.

(** A bet against an account, in memory. It is refused, with nothing changed,
    if there is no such round, if the round is not ACTIVE, and if the account
    is missing or does not cover the amount; otherwise the balance is less by
    the amount, the pool of the side more by it, and no other row changes. No
    bet is recorded. The refusal for want of money is the store's own error,
    not the business error the handler of a missing record makes of it. *)
Theorem placeTransactionalBet_spec w :
  wellKeyed roundSpec (gameRounds w) -> wellKeyed userSpec (accounts w) ->
  let '(r, w') := placeTransactionalBet input w in
  match peek (hb_roundId input) (gameRounds w) with
  | None => r = inl (BusinessRuleError "Round not found" NOT_FOUND) /\ unchanged w w'
  | Some round =>
      if isText "ACTIVE" (round !! "status"%string) then
        match peek (hb_userId input) (accounts w) with
        | Some user =>
            if coversAmount user then
              let user' := debitedRow (mw_now w) user in
              let round' := fundedRow (mw_now w) round in
              r = inr (mkHackathonResult amount (user' !! "virtualBalance"%string) (round' !! "poolUp"%string) (round' !! "poolDown"%string)) /\
              (forall k, peek k (accounts w') = if String.eqb (hb_userId input) k then Some user' else peek k (accounts w)) /\
              (forall k, peek k (gameRounds w') = if String.eqb (hb_roundId input) k then Some round' else peek k (gameRounds w)) /\
              (forall m, m <> "user"%string -> m <> "round"%string -> tableOf m w' = tableOf m w)
            else r = inl (memoryError "record not found for update") /\ unchanged w w'
        | None => r = inl (memoryError "record not found for update") /\ unchanged w w'
        end
      else r = inl (BusinessRuleError "Round is not active" ROUND_NOT_ACTIVE) /\ unchanged w w'
  end.
Proof.
  intros Hr Hu. unfold placeTransactionalBet, memTransaction.
  destruct (find_step "round" roundSpec (hb_roundId input) w eq_refl eq_refl Hr) as (w0 & Hfind & [N0 S0 A0 T0] & R0).
  rewrite (bind_ok _ _ _ _ _ Hfind). fold (gameRounds w) in *.
  assert (Hsame0 : unchanged w w0) by (intros m; destruct (decide (m = "round"%string)) as [->|]; [exact R0|by apply T0]).
  destruct (peek (hb_roundId input) (gameRounds w)) as [round|] eqn:Er; [|by split].
  destruct (isText "ACTIVE" (round !! "status"%string)); [|by split]. cbn [negb].
  pose proof (update_one userSpec ltac:(done) debitWhere (mw_now w) (hb_userId input) coversAmount
    [("virtualBalance"%string, UOp OpDecrement (Some (VDec amount)))] (accounts w) debitWhere_decides Hu ltac:(cbn; set_solver)) as Hd.
  assert (Hstep : forall r rows, update userSpec (mw_now w) debitWhere [("virtualBalance"%string, UOp OpDecrement (Some (VDec amount)))] (accounts w) = (r, rows) ->
    memUpdate "user" debitWhere [("virtualBalance"%string, UOp OpDecrement (Some (VDec amount)))] w0 = (r, setTable "user" rows w0)).
  { intros r rows Hup. eapply (onModel_step _ _ w0 userSpec); [done|]. by rewrite N0, Hsame0. }
  assert (Hfail : update userSpec (mw_now w) debitWhere [("virtualBalance"%string, UOp OpDecrement (Some (VDec amount)))] (accounts w) =
      (inl (memoryError "record not found for update"), accounts w) -> unchanged w (setTable "user" (accounts w) w0)).
  { intros _ m. rewrite tableOf_set. destruct (String.eqb_spec "user" m) as [<-|]; [done|]. apply Hsame0. }
  fold debitWhere. destruct (peek (hb_userId input) (accounts w)) as [user|]; [destruct (coversAmount user)|];
    [|unfold bind, catch; rewrite (Hstep _ _ Hd); by split; [|apply Hfail]..].
  destruct Hd as (users & Hd & Hku & Hpu). unfold bind at 1, catch. rewrite (Hstep _ _ Hd).
  set (w1 := setTable "user" users w0).
  assert (R1 : tableOf "round" w1 = gameRounds w) by (unfold w1; rewrite tableOf_set; exact R0).
  pose proof (update_step "round" roundSpec (hb_roundId input) [(poolKey, UOp OpIncrement (Some (VDec amount)))] w1 eq_refl eq_refl ltac:(done)) as Hp.
  rewrite R1 in Hp. specialize (Hp Hr ltac:(unfold poolKey; cbn; destruct (hb_up input); set_solver)). rewrite Er in Hp.
  destruct Hp as (w2 & Hp & [N2 S2 A2 T2] & Hk2 & Hp2). change (byId roundSpec (hb_roundId input)) with (idWhere (hb_roundId input)) in Hp.
  fold poolKey. rewrite (bind_ok _ _ _ _ _ Hp).
  destruct (find_step "round" roundSpec (hb_roundId input) w2 eq_refl eq_refl Hk2) as (w3 & Hf3 & [N3 S3 A3 T3] & R3).
  change (byId roundSpec (hb_roundId input)) with (idWhere (hb_roundId input)) in Hf3. rewrite (bind_ok _ _ _ _ _ Hf3).
  rewrite Hp2, String.eqb_refl. change (mw_now w1) with (mw_now w0) in Hp2 |- *. rewrite N0 in Hp2 |- *. cbn zeta. unfold ret.
  split; [reflexivity|]. split; [|split].
  - intros k. unfold accounts at 1. rewrite T3, T2 by done. unfold w1. rewrite tableOf_set. apply Hpu.
  - intros k. unfold gameRounds at 1. rewrite R3. apply Hp2.
  - intros m Hmu Hmr. rewrite T3, T2 by done. unfold w1. rewrite tableOf_set. destruct (String.eqb_spec "user" m) as [<-|]; [done|]. by apply T0.
Qed.
End TransactionalBet.
