(* ===== verification/BetStore.v ===== *)
(** * The store of demo bets (src/src/data/bet-store.ts, src/src/repositories/in-memory.repositories.ts)

    Pools and amounts are texts with eight decimals; what such a text denotes is
    the parameter [MoneyText]. Maps are lists of entries in the order of
    insertion; timestamps are milliseconds, whose ISO texts sort as they do. *)

From Stdlib Require Import ZArith QArith Qabs Lqa Lia.
From stdpp Require Import base strings list pretty.
From S2P Require Import Prelude.
From S2P Require Import Rounding.
From S2P Require Import Numeric.

#[local] Open Scope Z_scope.

Inductive BetStatus : Type := STUB | SUBMITTED | CONFIRMED | FAILED.

#[export] Instance BetStatus_eq_dec : EqDecision BetStatus.
Proof. solve_decision. Defined.

(** ['updown' | 'precision'] *)
Inductive BetMode : Type := updown | precision.

#[export] Instance BetMode_eq_dec : EqDecision BetMode.
Proof. solve_decision. Defined.

Inductive Side : Type := UP | DOWN.

#[export] Instance Side_eq_dec : EqDecision Side.
Proof. solve_decision. Defined.

Record StoredBet : Type := mkStoredBet {
  sb_id : string;
  sb_address : string;
  sb_amount : string;
  sb_side : option Side;
  sb_predictedPrice : option Q;
  sb_mode : BetMode;
  sb_roundId : option string;
  sb_timestamp : Z;
  sb_status : BetStatus;
  sb_txHash : option string;
  sb_submittedAt : option Z;
  sb_confirmedAt : option Z;
  sb_failedAt : option Z;
  sb_failureReason : option string;
}.

(** [live] is the status ['live'], its negation ['new']. *)
Record StoredRound : Type := mkStoredRound {
  sr_asset : string;
  sr_mode : BetMode;
  sr_live : bool;
  sr_startPrice : Q;
  sr_poolUp : string;
  sr_poolDown : string;
  sr_totalPool : string;
  sr_predictionCount : Z;
  sr_closesAt : Z;
}.

Record BetQuery : Type := mkBetQuery {
  bq_address : option string;
  bq_roundId : option string;
  bq_status : option BetStatus;
}.

(** The store; [bs_seededAt] is when the module was loaded. *)
Record BetStore : Type := mkBetStore {
  bs_rounds : list (string * StoredRound);
  bs_bets : list (string * StoredBet);
  bs_totalBetsCount : Z;
  bs_betSequence : Z;
}.

(** What the text of a decimal denotes: [new Decimal(text)]. Written with eight
    decimals, a decimal is rounded to a nearest unit. *)
Class MoneyText `{DecimalJs} : Type := {
  readMoney : string -> Q;
  readMoney_fixed : forall d, exists z, (readMoney (D_toFixed MONEY_SCALE d) == unitQ z)%Q /\
    (Qabs (inject_Z z - d * 100000000) <= 1 # 2)%Q;
}.

Section Store.
Context `{MoneyText} (seededAt : Z).

Definition MINUTES_FROM_NOW (minutes : Z) : Z := seededAt + minutes * 60000.

Definition SEED_ROUNDS : list (string * StoredRound) :=
  [("btc-updown-live"%string, mkStoredRound "BTC" updown true 67420 "2800.00000000" "1400.00000000" "4200.00000000" 0 (MINUTES_FROM_NOW 3));
   ("eth-precision-live"%string, mkStoredRound "ETH" precision true 3241 "0.00000000" "0.00000000" "1800.00000000" 22 (MINUTES_FROM_NOW 12));
   ("xlm-updown-new"%string, mkStoredRound "XLM" updown false (f64 (2891 # 10000)) "200.00000000" "0.00000000" "200.00000000" 0 (MINUTES_FROM_NOW 20))].

Definition newBetStore : BetStore := mkBetStore SEED_ROUNDS [] 0 0.

(** [rounds.get(id)] and [bets.get(id)] *)
Definition getKey {A} (k : string) (l : list (string * A)) : option A := snd <$> find (fun e => String.eqb (fst e) k) l.

(** An object of a Map changed in place. *)
Definition alterKey {A} (k : string) (f : A -> A) (l : list (string * A)) : list (string * A) :=
  map (fun e => if String.eqb (fst e) k then (fst e, f (snd e)) else e) l.

Definition setKey {A} (k : string) (v : A) (l : list (string * A)) : list (string * A) :=
  match getKey k l with
  | Some _ => alterKey k (fun _ => v) l
  | None => l ++ [(k, v)]
  end.

(** [decFixed(decAdd(toDecimal(a), toDecimal(b)), MONEY_SCALE)] *)
Definition addMoney (a b : string) : string := decFixed (decAdd (readMoney a) (readMoney b)) MONEY_SCALE.

Definition betId (n : Z) : string := ("bet-" +:+ pretty n)%string.

(** [recordBet]; [bet] is the input, its identifier and time to be filled in. *)
Definition recordBet (now : Z) (bet : StoredBet) (s : BetStore) : StoredBet * BetStore :=
  let n := bs_betSequence s + 1 in
  let bet := bet {{ sb_id := betId n; sb_timestamp := now }} in
  (bet, mkBetStore (bs_rounds s) (setKey (betId n) bet (bs_bets s)) (bs_totalBetsCount s + 1) n).

(** The input of [recordBet]. *)
Definition betInput (address amount : string) (side : option Side) (predictedPrice : option Q) (mode : BetMode)
    (roundId : option string) (status : BetStatus) (now : Z) : StoredBet :=
  mkStoredBet "" address amount side predictedPrice mode roundId 0 status None
    (if decide (status = SUBMITTED) then Some now else None) None None None.

(** The round of an identifier, if it is one of the mode. *)
Definition roundOfMode (roundId : string) (mode : BetMode) (s : BetStore) : option StoredRound :=
  match getKey roundId (bs_rounds s) with
  | Some round => if decide (sr_mode round = mode) then Some round else None
  | None => None
  end.

(** Adding to the pool of a side. *)
Definition fundSide (side : Side) (amount : string) (r : StoredRound) : StoredRound :=
  let r := match side with
           | UP => r {{ sr_poolUp := addMoney (sr_poolUp r) amount }}
           | DOWN => r {{ sr_poolDown := addMoney (sr_poolDown r) amount }}
           end in
  r {{ sr_totalPool := addMoney (sr_poolUp r) (sr_poolDown r) }}.

Definition addUpDownBet (now : Z) (roundId address : string) (amount : NumberLike) (side : Side) (status : BetStatus)
    (s : BetStore) : StoredBet * BetStore :=
  let strAmount := decFixed (toDecimal_any amount) MONEY_SCALE in
  let round := roundOfMode roundId updown s in
  let s := if round then s {{ bs_rounds := alterKey roundId (fundSide side strAmount) (bs_rounds s) }} else s in
  recordBet now (betInput address strAmount (Some side) None updown (if round then Some roundId else None) status now) s.

Definition fundTotal (amount : string) (r : StoredRound) : StoredRound :=
  r {{ sr_totalPool := addMoney (sr_totalPool r) amount; sr_predictionCount := sr_predictionCount r + 1 }}.

Definition addPrecisionBet (now : Z) (roundId address : string) (amount : NumberLike) (predictedPrice : Q) (status : BetStatus)
    (s : BetStore) : StoredBet * BetStore :=
  let strAmount := decFixed (toDecimal_any amount) MONEY_SCALE in
  let round := roundOfMode roundId precision s in
  let s := if round then s {{ bs_rounds := alterKey roundId (fundTotal strAmount) (bs_rounds s) }} else s in
  recordBet now (betInput address strAmount None (Some predictedPrice) precision (if round then Some roundId else None) status now) s.

(** The change of a bet that is there; the changed bet. *)
Definition markBet (id : string) (f : StoredBet -> StoredBet) (s : BetStore) : option StoredBet * BetStore :=
  (f <$> getKey id (bs_bets s), s {{ bs_bets := alterKey id f (bs_bets s) }}).

Definition firstTime (t : option Z) (now : Z) : option Z := match t with Some t => Some t | None => Some now end.

Definition markSubmitted (now : Z) (id : string) : BetStore -> option StoredBet * BetStore :=
  markBet id (fun b => b {{ sb_status := SUBMITTED; sb_submittedAt := firstTime (sb_submittedAt b) now }}).

Definition markConfirmed (now : Z) (id txHash : string) : BetStore -> option StoredBet * BetStore :=
  markBet id (fun b => b {{ sb_status := CONFIRMED; sb_txHash := Some txHash; sb_submittedAt := firstTime (sb_submittedAt b) now;
                            sb_confirmedAt := Some now; sb_failedAt := None; sb_failureReason := None }}).

Definition markFailed (now : Z) (id reason : string) : BetStore -> option StoredBet * BetStore :=
  markBet id (fun b => b {{ sb_status := FAILED; sb_failedAt := Some now; sb_failureReason := Some reason }}).

Definition getBet (id : string) (s : BetStore) : option StoredBet := getKey id (bs_bets s).

(** A member of a query that is not empty must agree. *)
Definition matchesQuery (q : BetQuery) (b : StoredBet) : bool :=
  match truthy (bq_address q) with Some a => String.eqb (sb_address b) a | None => true end &&
  match truthy (bq_roundId q) with Some r => bool_decide (sb_roundId b = Some r) | None => true end &&
  match bq_status q with Some t => bool_decide (sb_status b = t) | None => true end.

(** Later times first, then identifiers, as texts, from the greatest down. *)
Definition shownAfter (a b : StoredBet) : bool :=
  (sb_timestamp a <? sb_timestamp b) ||
  ((sb_timestamp a =? sb_timestamp b) && String.ltb (sb_id a) (sb_id b)).

Definition getBets (q : BetQuery) (s : BetStore) : list StoredBet :=
  sortBy shownAfter (List.filter (matchesQuery q) (map snd (bs_bets s))).

Definition getReconciliationSummary (s : BetStore) : BetStatus -> nat :=
  fun t => length (List.filter (fun e => bool_decide (sb_status (snd e) = t)) (bs_bets s)).

Definition getActiveRound (mode : BetMode) (s : BetStore) : option (string * StoredRound) :=
  find (fun e => bool_decide (sr_mode (snd e) = mode) && sr_live (snd e)) (bs_rounds s).

Definition resetStore (s : BetStore) : BetStore := newBetStore.

(** The repository: a side makes it an up-down bet, otherwise a price makes it
    a precision bet, and with neither nothing happens. *)
Definition repositoryPlaceBet (now : Z) (roundId address : string) (amount : NumberLike) (side : option Side) (predictedPrice : option Q)
    (s : BetStore) : BetStore :=
  match side, predictedPrice with
  | Some side, _ => snd (addUpDownBet now roundId address amount side STUB s)
  | None, Some p => snd (addPrecisionBet now roundId address amount p STUB s)
  | None, None => s
  end.

(** ** Calls one after the other *)

Inductive StoreCall : Type :=
| PlaceUpDown (now : Z) (roundId address : string) (amount : NumberLike) (side : Side) (status : BetStatus)
| PlacePrecision (now : Z) (roundId address : string) (amount : NumberLike) (predictedPrice : Q) (status : BetStatus)
| Submitted (now : Z) (id : string)
| Confirmed (now : Z) (id txHash : string)
| Failed (now : Z) (id reason : string)
| ResetStore.

Definition callStore (s : BetStore) (c : StoreCall) : BetStore :=
  match c with
  | PlaceUpDown now r a amount side status => snd (addUpDownBet now r a amount side status s)
  | PlacePrecision now r a amount p status => snd (addPrecisionBet now r a amount p status s)
  | Submitted now id => snd (markSubmitted now id s)
  | Confirmed now id h => snd (markConfirmed now id h s)
  | Failed now id reason => snd (markFailed now id reason s)
  | ResetStore => resetStore s
  end.

Definition runStore (calls : list StoreCall) : BetStore := foldl callStore newBetStore calls.
End Store.

(** ** The pools are the seed and the bets *)

Section StoreProofs.
Context `{MoneyText} (seededAt : Z).

Definition readUnits (s : string) (z : Z) : Prop := (readMoney s == unitQ z)%Q.

(** The texts of the seed denote what they say. *)
Definition seedReads : Prop :=
  readUnits "0.00000000" 0 /\ readUnits "200.00000000" 20000000000 /\ readUnits "1400.00000000" 140000000000 /\
  readUnits "1800.00000000" 180000000000 /\ readUnits "2800.00000000" 280000000000 /\ readUnits "4200.00000000" 420000000000.

Definition MONEY_BOUND : Z := 10 ^ 20.

Lemma unitQ_inj y z : (unitQ y == unitQ z)%Q -> y = z.
Proof. unfold unitQ, Qeq. cbn. lia. Qed.

(** Up to the bound money is added exactly. *)
Lemma addMoney_exact a b x y : readUnits a x -> readUnits b y -> Z.abs (x + y) < MONEY_BOUND -> readUnits (addMoney a b) (x + y).
Proof.
  unfold readUnits, addMoney, decFixed, decAdd. intros Ha Hb Hxy. rewrite D_add_spec.
  destruct (readMoney_fixed (D_round (readMoney a + readMoney b))) as (z & Hz & Herr). rewrite Hz.
  assert (Hsum : (readMoney a + readMoney b == unitQ (x + y))%Q) by (rewrite Ha, Hb; unfold unitQ, Qeq; cbn; lia).
  assert (Hround : (D_round (readMoney a + readMoney b) == unitQ (x + y))%Q).
  { rewrite <- Hsum. apply (D_round_fix _ (x + y) (-8)); [|exact Hxy]. rewrite Hsum.
    assert (E : (bpow 10 (-8) == 1 # 100000000)%Q) by reflexivity. rewrite E. unfold unitQ, inject_Z, Qeq. cbn. lia. }
  rewrite Hround in Herr. assert (z = x + y) as ->; [|done].
  assert (Hd : (Qabs (inject_Z (z - (x + y))) <= 1 # 2)%Q).
  { assert (E : (inject_Z (z - (x + y)) == inject_Z z - unitQ (x + y) * 100000000)%Q)
      by (unfold unitQ, inject_Z, Qeq, Qminus, Qplus, Qmult, Qopp; cbn; lia). by rewrite E. }
  unfold Qabs, inject_Z, Qle in Hd. cbn in Hd. lia.
Qed.
Lemma fixed_reads d : exists z, readUnits (decFixed d MONEY_SCALE) z.
Proof. destruct (readMoney_fixed d) as (z & Hz & _). by exists z. Qed.

(** The units a text denotes. *)
Definition unitsOf (s : string) : Z := Qround.Qfloor (readMoney s * 100000000).

Lemma unitsOf_reads s z : readUnits s z -> unitsOf s = z.
Proof.
  unfold readUnits, unitsOf. intros Hz. rewrite Hz.
  assert (E : (unitQ z * 100000000 == inject_Z z)%Q) by (unfold unitQ, inject_Z, Qeq, Qmult; cbn; lia). rewrite E. apply Qround.Qfloor_Z.
Qed.

Definition onSide (k : string) (side : Side) (b : StoredBet) : bool := bool_decide (sb_roundId b = Some k /\ sb_side b = Some side).

Definition onRound (k : string) (b : StoredBet) : bool := bool_decide (sb_roundId b = Some k).

(** The amounts of the bets selected, and of all, without their sign. *)
Definition betted (P : StoredBet -> bool) (bets : list (string * StoredBet)) : Z :=
  sumZ (fun e => if P (snd e) then unitsOf (sb_amount (snd e)) else 0) bets.

Definition turnover (bets : list (string * StoredBet)) : Z := sumZ (fun e => Z.abs (unitsOf (sb_amount (snd e)))) bets.

Definition betsOn (k : string) (bets : list (string * StoredBet)) : nat := length (List.filter (fun e => onRound k (snd e)) bets).

(** A round next to its seed. *)
Definition accounts (bets : list (string * StoredBet)) (e0 e : string * StoredRound) : Prop :=
  let '(k, r0) := e0 in
  let r := snd e in
  fst e = k /\ sr_mode r = sr_mode r0 /\
  match sr_mode r0 with
  | updown =>
      let up := unitsOf (sr_poolUp r0) + betted (onSide k UP) bets in
      let down := unitsOf (sr_poolDown r0) + betted (onSide k DOWN) bets in
      readUnits (sr_poolUp r) up /\ readUnits (sr_poolDown r) down /\ readUnits (sr_totalPool r) (up + down) /\
      sr_predictionCount r = sr_predictionCount r0
  | precision =>
      sr_poolUp r = sr_poolUp r0 /\ sr_poolDown r = sr_poolDown r0 /\
      readUnits (sr_totalPool r) (unitsOf (sr_totalPool r0) + betted (onRound k) bets) /\
      sr_predictionCount r = sr_predictionCount r0 + Z.of_nat (betsOn k bets)
  end.

Record stored (s : BetStore) : Prop := {
  st_keys : map fst (bs_bets s) = map (fun i => betId (Z.of_nat i)) (seq 1 (length (bs_bets s)));
  st_ids : Forall (fun e => sb_id (snd e) = fst e) (bs_bets s);
  st_sequence : bs_betSequence s = Z.of_nat (length (bs_bets s));
  st_count : bs_totalBetsCount s = Z.of_nat (length (bs_bets s));
  st_amounts : Forall (fun e => readUnits (sb_amount (snd e)) (unitsOf (sb_amount (snd e)))) (bs_bets s);
  st_seed : map fst (bs_rounds s) = map fst (SEED_ROUNDS seededAt) /\
    map (fun e => sr_mode (snd e)) (bs_rounds s) = map (fun e => sr_mode (snd e)) (SEED_ROUNDS seededAt);
  st_rounds : turnover (bs_bets s) + 10 ^ 12 < MONEY_BOUND -> Forall2 (accounts (bs_bets s)) (SEED_ROUNDS seededAt) (bs_rounds s);
}.

Lemma sumZ_snoc {A} (f : A -> Z) l x : sumZ f (l ++ [x]) = sumZ f l + f x.
Proof. rewrite sumZ_app. cbn. lia. Qed.

Lemma sumZ_cons {A} (f : A -> Z) x l : sumZ f (x :: l) = f x + sumZ f l.
Proof. reflexivity. Qed.

Lemma betted_turnover P bets : Z.abs (betted P bets) <= turnover bets.
Proof. unfold betted, turnover. induction bets as [|e bets IH]; [done|]. rewrite !sumZ_cons. destruct (P (snd e)); lia. Qed.

Lemma betted_two P Q bets : (forall b, P b = true -> Q b = false) -> Z.abs (betted P bets + betted Q bets) <= turnover bets.
Proof.
  intros HPQ. unfold betted, turnover. induction bets as [|e bets IH]; [done|]. rewrite !sumZ_cons.
  destruct (P (snd e)) eqn:Ep; [rewrite (HPQ _ Ep)|]; [lia|]. destruct (Q (snd e)); lia.
Qed.

Lemma turnover_nonneg bets : 0 <= turnover bets.
Proof. apply sumZ_nonneg. lia. Qed.

Lemma betId_inj m n : betId m = betId n -> m = n.
Proof. unfold betId. intros E%(inj (String.append _)). by apply (inj pretty) in E. Qed.

Lemma getKey_None {A} k (l : list (string * A)) : k ∉ map fst l -> getKey k l = None.
Proof.
  unfold getKey. induction l as [|[k' v] l IH]; cbn; [done|]. intros [Hne Hk]%not_elem_of_cons.
  destruct (String.eqb_spec k' k) as [->|]; [done|by apply IH].
Qed.

Lemma alterKey_keys {A} k (f : A -> A) l : map fst (alterKey k f l) = map fst l.
Proof. unfold alterKey. rewrite map_map. apply map_ext. intros e. by destruct (String.eqb (fst e) k). Qed.

(** A bet recorded is the next one. *)
Lemma record_append now bet s : stored s ->
  let b := bet {{ sb_id := betId (bs_betSequence s + 1); sb_timestamp := now }} in
  recordBet now bet s = (b, mkBetStore (bs_rounds s) (bs_bets s ++ [(betId (bs_betSequence s + 1), b)]) (bs_totalBetsCount s + 1) (bs_betSequence s + 1)).
Proof.
  intros [K1 _ K3 _ _ _ _] b. unfold recordBet. do 2 f_equal. unfold setKey. rewrite getKey_None; [done|].
  rewrite K1, K3. intros (i & Hi & Hin)%list_elem_of_fmap. apply betId_inj in Hi.
  apply list_elem_of_In, in_seq in Hin. lia.
Qed.

Lemma Forall2_with_elem {A B} (P : A -> B -> Prop) l k : Forall2 P l k -> Forall2 (fun x y => P x y /\ x ∈ l /\ y ∈ k) l k.
Proof.
  induction 1 as [|x y l k Hxy HF IH]; constructor; [split; [done|split; left]|].
  eapply Forall2_impl; [exact IH|]. intros a b (? & ? & ?). split; [done|]. split; by right.
Qed.

Context (Hseed : seedReads).

Lemma seed_small k r0 : (k, r0) ∈ SEED_ROUNDS seededAt ->
  Z.abs (unitsOf (sr_poolUp r0)) + Z.abs (unitsOf (sr_poolDown r0)) < 10 ^ 12 /\ Z.abs (unitsOf (sr_totalPool r0)) < 10 ^ 12.
Proof.
  destruct Hseed as (S0 & S1 & S2 & S3 & S4 & S5). unfold SEED_ROUNDS. rewrite !elem_of_cons, elem_of_nil.
  intros [[= -> ->]|[[= -> ->]|[[= -> ->]|[]]]]; cbn [sr_poolUp sr_poolDown sr_totalPool];
    rewrite ?(unitsOf_reads _ _ S0), ?(unitsOf_reads _ _ S1), ?(unitsOf_reads _ _ S2), ?(unitsOf_reads _ _ S3),
      ?(unitsOf_reads _ _ S4), ?(unitsOf_reads _ _ S5); lia.
Qed.

Lemma betted_snoc P bets id b : betted P (bets ++ [(id, b)]) = betted P bets + (if P b then unitsOf (sb_amount b) else 0).
Proof. unfold betted. by rewrite sumZ_snoc. Qed.

Lemma accounts_other bets id b e0 e : sb_roundId b <> Some (fst e0) -> accounts bets e0 e -> accounts (bets ++ [(id, b)]) e0 e.
Proof.
  destruct e0 as [k r0]. cbn [fst]. intros Hk. unfold accounts.
  assert (Hs : forall side, betted (onSide k side) (bets ++ [(id, b)]) = betted (onSide k side) bets).
  { intros side. rewrite betted_snoc. unfold onSide at 2. rewrite bool_decide_eq_false_2 by (by intros [? _]). lia. }
  assert (Hr : onRound k b = false) by (by apply bool_decide_eq_false).
  rewrite !Hs, betted_snoc, Hr, Z.add_0_r. unfold betsOn. rewrite List.filter_app. cbn. by rewrite Hr, app_nil_r.
Qed.

Lemma accounts_side bets id b k r0 e side : accounts bets (k, r0) e -> (k, r0) ∈ SEED_ROUNDS seededAt -> sr_mode r0 = updown ->
  sb_roundId b = Some k -> sb_side b = Some side -> readUnits (sb_amount b) (unitsOf (sb_amount b)) ->
  turnover (bets ++ [(id, b)]) + 10 ^ 12 < MONEY_BOUND ->
  accounts (bets ++ [(id, b)]) (k, r0) (fst e, fundSide side (sb_amount b) (snd e)).
Proof.
  intros (Hk & Hm & Hpools) Hin Hmode Hrb Hsb Hamt Hbound. rewrite Hmode in Hm, Hpools. cbv zeta in Hpools.
  destruct Hpools as (Hup & Hdown & Htot & Hcount). destruct (seed_small _ _ Hin) as [Hsmall _].
  assert (Hon : forall side', onSide k side' b = bool_decide (side = side')).
  { intros side'. unfold onSide. apply bool_decide_ext. rewrite Hrb, Hsb. split; [by intros [_ [= ->]]|by intros ->]. }
  assert (Hexcl : forall b, onSide k UP b = true -> onSide k DOWN b = false).
  { intros b' [_ E]%bool_decide_eq_true. apply bool_decide_eq_false. rewrite E. by intros [_ ?]. }
  pose proof (betted_turnover (onSide k UP) (bets ++ [(id, b)])) as B1. pose proof (betted_turnover (onSide k DOWN) (bets ++ [(id, b)])) as B2.
  pose proof (betted_two _ _ (bets ++ [(id, b)]) Hexcl) as B3. pose proof (turnover_nonneg (bets ++ [(id, b)])) as B4.
  unfold accounts. cbn [snd fst]. split; [exact Hk|]. rewrite Hmode. cbv zeta. rewrite !betted_snoc in *.
  destruct (snd e) as [as_ mo li st pu pd tp pc cl]. cbn [sr_poolUp sr_poolDown sr_totalPool sr_predictionCount sr_mode] in *.
  destruct side.
  - assert (HU : onSide k UP b = true) by (rewrite Hon; by apply bool_decide_eq_true).
    assert (HD : onSide k DOWN b = false) by (rewrite Hon; by apply bool_decide_eq_false).
    rewrite HU, HD in *. rewrite !Z.add_0_r in *.
    pose proof (addMoney_exact _ _ _ _ Hup Hamt ltac:(lia)) as Hnew.
    pose proof (addMoney_exact _ _ _ _ Hnew Hdown ltac:(lia)) as Hall. rewrite !Z.add_assoc in *.
    split; [exact Hm|]. split; [exact Hnew|]. split; [exact Hdown|]. split; [exact Hall|exact Hcount].
  - assert (HU : onSide k UP b = false) by (rewrite Hon; by apply bool_decide_eq_false).
    assert (HD : onSide k DOWN b = true) by (rewrite Hon; by apply bool_decide_eq_true).
    rewrite HU, HD in *. rewrite !Z.add_0_r in *.
    pose proof (addMoney_exact _ _ _ _ Hdown Hamt ltac:(lia)) as Hnew.
    pose proof (addMoney_exact _ _ _ _ Hup Hnew ltac:(lia)) as Hall. rewrite (Z.add_assoc (unitsOf (sr_poolDown r0))).
    split; [exact Hm|]. split; [exact Hup|]. split; [exact Hnew|]. split; [exact Hall|exact Hcount].
Qed.

Lemma accounts_total bets id b k r0 e : accounts bets (k, r0) e -> (k, r0) ∈ SEED_ROUNDS seededAt -> sr_mode r0 = precision ->
  sb_roundId b = Some k -> readUnits (sb_amount b) (unitsOf (sb_amount b)) ->
  turnover (bets ++ [(id, b)]) + 10 ^ 12 < MONEY_BOUND ->
  accounts (bets ++ [(id, b)]) (k, r0) (fst e, fundTotal (sb_amount b) (snd e)).
Proof.
  intros (Hk & Hm & Hpools) Hin Hmode Hrb Hamt Hbound. rewrite Hmode in Hm, Hpools. destruct Hpools as (Hup & Hdown & Htot & Hcount).
  destruct (seed_small _ _ Hin) as [_ Hsmall]. assert (Hon : onRound k b = true) by (by apply bool_decide_eq_true).
  pose proof (betted_turnover (onRound k) (bets ++ [(id, b)])) as B1.
  unfold accounts. cbn [snd fst]. split; [exact Hk|]. rewrite Hmode. rewrite !betted_snoc, Hon in *.
  unfold betsOn in *. rewrite List.filter_app. cbn [List.filter snd]. rewrite Hon, length_app. cbn [length].
  destruct (snd e) as [as_ mo li st pu pd tp pc cl]. cbn in *. split; [exact Hm|]. split; [exact Hup|]. split; [exact Hdown|].
  split; [|lia]. rewrite Z.add_assoc. apply addMoney_exact; [exact Htot|exact Hamt|lia].
Qed.

(** One more bet, and the round it is on changed with it. *)
Lemma stored_place now bet s rounds' :
  stored s -> (exists d, sb_amount bet = decFixed d MONEY_SCALE) ->
  map fst rounds' = map fst (bs_rounds s) -> map (fun e => sr_mode (snd e)) rounds' = map (fun e => sr_mode (snd e)) (bs_rounds s) ->
  (forall bets' id b, bets' = bs_bets s ++ [(id, b)] -> sb_amount b = sb_amount bet -> sb_roundId b = sb_roundId bet ->
     sb_side b = sb_side bet -> readUnits (sb_amount b) (unitsOf (sb_amount b)) -> turnover bets' + 10 ^ 12 < MONEY_BOUND ->
     Forall2 (accounts (bs_bets s)) (SEED_ROUNDS seededAt) (bs_rounds s) -> Forall2 (accounts bets') (SEED_ROUNDS seededAt) rounds') ->
  stored (snd (recordBet now bet (s {{ bs_rounds := rounds' }}))).
Proof.
  intros Hs (d & Hd) Hkeys Hmodes Hrounds. pose proof Hs as [K1 K2 K3 K4 K5 [K6 K6'] K7].
  assert (Hs' : forall b, sb_amount b = sb_amount bet -> readUnits (sb_amount b) (unitsOf (sb_amount b))).
  { intros b ->. rewrite Hd. destruct (fixed_reads d) as (z & Hz). by rewrite (unitsOf_reads _ _ Hz). }
  unfold recordBet. cbn [bs_betSequence bs_bets bs_totalBetsCount bs_rounds].
  set (b := bet {{ sb_id := _ ; sb_timestamp := now }}). set (id := betId (bs_betSequence s + 1)) in *.
  assert (Hset : setKey id b (bs_bets s) = bs_bets s ++ [(id, b)]).
  { pose proof (record_append now bet s Hs) as Hr. unfold recordBet in Hr. injection Hr as Hr. exact Hr. }
  change (stored (mkBetStore rounds' (setKey id b (bs_bets s)) (bs_totalBetsCount s + 1) (bs_betSequence s + 1))). rewrite Hset.
  assert (Hturn : turnover (bs_bets s) <= turnover (bs_bets s ++ [(id, b)])) by (unfold turnover; rewrite sumZ_snoc; lia).
  split; cbn [bs_betSequence bs_bets bs_totalBetsCount bs_rounds]; rewrite ?length_app; cbn [length].
  - rewrite map_app, K1, Nat.add_1_r, seq_S, map_app. cbn. unfold id. rewrite K3. do 3 f_equal. lia.
  - apply Forall_app. split; [exact K2|]. by repeat constructor.
  - lia.
  - lia.
  - apply Forall_app. split; [exact K5|]. constructor; [|constructor]. by apply Hs'.
  - split; [by rewrite Hkeys|by rewrite Hmodes].
  - intros Hb. eapply Hrounds; try done; [by apply Hs'|]. apply K7. lia.
Qed.

Lemma stored_mark id f s : stored s ->
  (forall b, sb_id (f b) = sb_id b /\ sb_amount (f b) = sb_amount b /\ sb_roundId (f b) = sb_roundId b /\ sb_side (f b) = sb_side b) ->
  stored (snd (markBet id f s)).
Proof.
  intros [K1 K2 K3 K4 K5 K6 K7] Hf. unfold markBet. cbn [snd].
  change (stored (mkBetStore (bs_rounds s) (alterKey id f (bs_bets s)) (bs_totalBetsCount s) (bs_betSequence s))).
  assert (Hlen : length (alterKey id f (bs_bets s)) = length (bs_bets s)) by apply length_map.
  assert (Hsum : forall g : StoredBet -> Z, (forall b, g (f b) = g b) -> sumZ (fun e => g (snd e)) (alterKey id f (bs_bets s)) = sumZ (fun e => g (snd e)) (bs_bets s)).
  { intros g Hg. unfold alterKey. generalize (bs_bets s). intros l. induction l as [|e l IH]; [done|]. cbn [map]. rewrite !sumZ_cons, IH.
    destruct (String.eqb (fst e) id); [|done]. cbn. by rewrite Hg. }
  assert (Hturn : turnover (alterKey id f (bs_bets s)) = turnover (bs_bets s)).
  { apply (Hsum (fun b => Z.abs (unitsOf (sb_amount b)))). intros b. by rewrite (proj1 (proj2 (Hf b))). }
  assert (Hbet : forall P, (forall b, P (f b) = P b) -> betted P (alterKey id f (bs_bets s)) = betted P (bs_bets s)).
  { intros P HP. apply (Hsum (fun b => if P b then unitsOf (sb_amount b) else 0)). intros b. by rewrite HP, (proj1 (proj2 (Hf b))). }
  assert (Hside : forall k side b, onSide k side (f b) = onSide k side b)
    by (intros k side b; unfold onSide; destruct (Hf b) as (_ & _ & -> & ->); done).
  assert (Hon : forall k b, onRound k (f b) = onRound k b) by (intros k b; unfold onRound; destruct (Hf b) as (_ & _ & -> & _); done).
  assert (Hcount : forall k, betsOn k (alterKey id f (bs_bets s)) = betsOn k (bs_bets s)).
  { intros k. unfold betsOn, alterKey. generalize (bs_bets s). intros l. induction l as [|e l IH]; [done|]. cbn [map List.filter].
    destruct (String.eqb (fst e) id); cbn [snd]; rewrite ?Hon; destruct (onRound k (snd e)); cbn [length]; by rewrite IH. }
  split; cbn [bs_betSequence bs_bets bs_totalBetsCount bs_rounds]; rewrite ?Hlen; try done.
  - by rewrite alterKey_keys.
  - unfold alterKey. apply Forall_map. eapply Forall_impl; [exact K2|]. intros e He. destruct (String.eqb (fst e) id); [|done].
    cbn. by rewrite (proj1 (Hf (snd e))).
  - unfold alterKey. apply Forall_map. eapply Forall_impl; [exact K5|]. intros e He. destruct (String.eqb (fst e) id); [|done].
    cbn. by rewrite (proj1 (proj2 (Hf (snd e)))).
  - rewrite Hturn. intros Hb. eapply Forall2_impl; [exact (K7 Hb)|]. intros [k r0] e. unfold accounts.
    by rewrite !Hbet, Hcount by auto.
Qed.

Lemma seed_keys_NoDup : NoDup (map fst (SEED_ROUNDS seededAt)).
Proof. apply (bool_decide_unpack _). by vm_compute. Qed.

Lemma roundOfMode_key k mode s r e : stored s -> roundOfMode k mode s = Some r -> e ∈ bs_rounds s -> fst e = k -> sr_mode (snd e) = mode.
Proof.
  intros [_ _ _ _ _ [K6 _] _] Hr Hin He. unfold roundOfMode, getKey in Hr. destruct (find _ (bs_rounds s)) as [e'|] eqn:Ef; [|done].
  cbn in Hr. destruct (decide (sr_mode (snd e') = mode)) as [Hm|]; [|done]. apply find_some in Ef as [Hin' Hk%String.eqb_eq].
  rewrite (NoDup_map_inj fst (bs_rounds s) e e'); [done| |done|by apply list_elem_of_In|congruence].
  rewrite K6. apply seed_keys_NoDup.
Qed.

(** The two kinds of bet change the round they are on alike. *)
Lemma stored_bet now mode bet roundId g s :
  stored s -> (exists d, sb_amount bet = decFixed d MONEY_SCALE) -> (forall r, sr_mode (g r) = sr_mode r) ->
  sb_roundId bet = (if roundOfMode roundId mode s then Some roundId else None) ->
  (forall bets id b k r0 e, sb_amount b = sb_amount bet -> sb_side b = sb_side bet -> sb_roundId b = Some k ->
     readUnits (sb_amount b) (unitsOf (sb_amount b)) -> turnover (bets ++ [(id, b)]) + 10 ^ 12 < MONEY_BOUND ->
     (k, r0) ∈ SEED_ROUNDS seededAt -> sr_mode r0 = mode -> accounts bets (k, r0) e ->
     accounts (bets ++ [(id, b)]) (k, r0) (fst e, g (snd e))) ->
  stored (snd (recordBet now bet (if roundOfMode roundId mode s then s {{ bs_rounds := alterKey roundId g (bs_rounds s) }} else s))).
Proof.
  intros Hs Hd Hmode Hr Hstep. destruct (roundOfMode roundId mode s) as [round|] eqn:Er.
  - apply stored_place; [done|done|apply alterKey_keys| |].
    + unfold alterKey. rewrite map_map. apply map_ext. intros e. destruct (String.eqb (fst e) roundId); [apply Hmode|done].
    + intros bets' id b -> Ha Hb Hside Hread Hbound HF. unfold alterKey. apply Forall2_fmap_r.
      eapply Forall2_impl; [apply Forall2_with_elem, HF|]. intros [k r0] e (Hacc & Hin0 & Hin).
      pose proof Hacc as (Hk & Hm & _). cbn in Hk.
      change (accounts (bs_bets s ++ [(id, b)]) (k, r0) (if String.eqb (fst e) roundId then (fst e, g (snd e)) else e)).
      destruct (String.eqb_spec (fst e) roundId) as [Ee|Hne].
      * assert (Hmo : sr_mode r0 = mode) by (rewrite <- Hm; by apply (roundOfMode_key roundId mode s round)).
        apply Hstep; try done. rewrite Hb, Hr. congruence.
      * apply accounts_other; [|exact Hacc]. rewrite Hb, Hr. cbn. congruence.
  - pose proof (stored_place now bet s (bs_rounds s) Hs Hd eq_refl eq_refl) as Hp.
    replace (s {{ bs_rounds := bs_rounds s }}) with s in Hp by (by destruct s). apply Hp.
    intros bets' id b -> Ha Hb Hside Hread Hbound HF. eapply Forall2_impl; [exact HF|]. intros e0 e Hacc.
    apply accounts_other; [|exact Hacc]. by rewrite Hb, Hr.
Qed.

Lemma stored_new : stored (newBetStore seededAt).
Proof.
  destruct Hseed as (S0 & S1 & S2 & S3 & S4 & S5).
  split; [reflexivity|apply Forall_nil_2|reflexivity|reflexivity|apply Forall_nil_2|split; reflexivity|].
  intros _. cbn [newBetStore bs_rounds bs_bets]. unfold SEED_ROUNDS.
  repeat (apply Forall2_cons; split); [..|apply Forall2_nil_2]; unfold accounts;
    cbn [snd fst sr_mode sr_poolUp sr_poolDown sr_totalPool sr_predictionCount];
    change (betted _ []) with 0; change (betsOn _ []) with 0%nat; rewrite !Z.add_0_r;
    rewrite ?(unitsOf_reads _ _ S0), ?(unitsOf_reads _ _ S1), ?(unitsOf_reads _ _ S2), ?(unitsOf_reads _ _ S3),
      ?(unitsOf_reads _ _ S4), ?(unitsOf_reads _ _ S5); repeat split; assumption.
Qed.

Lemma stored_call s c : stored s -> stored (callStore seededAt s c).
Proof.
  intros Hs. destruct c as [now r a amount side status|now r a amount p status|now id|now id h|now id reason|]; cbn [callStore].
  - unfold addUpDownBet. set (str := decFixed (toDecimal_any amount) MONEY_SCALE).
    apply (stored_bet now updown _ r (fundSide side str)); [exact Hs|by exists (toDecimal_any amount)|by intros []; destruct side|done|].
    intros bets id b k r0 e Ha Hsb Hrb Hread Hbound Hin Hm Hacc. cbn in Ha. rewrite <- Ha. by apply accounts_side.
  - unfold addPrecisionBet. set (str := decFixed (toDecimal_any amount) MONEY_SCALE).
    apply (stored_bet now precision _ r (fundTotal str)); [exact Hs|by exists (toDecimal_any amount)|by intros []|done|].
    intros bets id b k r0 e Ha Hsb Hrb Hread Hbound Hin Hm Hacc. cbn in Ha. rewrite <- Ha. by apply accounts_total.
  - apply stored_mark; [done|]. by intros [].
  - apply stored_mark; [done|]. by intros [].
  - apply stored_mark; [done|]. by intros [].
  - apply stored_new.
Qed.

(** C36. The pools are the seed and the bets. Whatever is placed, marked and reset,
    as long as the amounts of the bets add up to less than 10^12, in the last
    decimal: the pool of a side is its seed and the bets on that side, the
    total of an up-down round the sum of its two pools, the total of a
    precision round its seed and its bets, which are counted; and the bets are
    numbered from one without a gap. *)
Theorem pools_add_up calls :
  let s := runStore seededAt calls in
  map fst (bs_bets s) = map (fun i => betId (Z.of_nat i)) (seq 1 (length (bs_bets s))) /\
  bs_totalBetsCount s = Z.of_nat (length (bs_bets s)) /\
  (turnover (bs_bets s) + 10 ^ 12 < MONEY_BOUND -> Forall2 (accounts (bs_bets s)) (SEED_ROUNDS seededAt) (bs_rounds s)).
Proof.
  intros s. assert (Hs : stored s).
  { unfold s, runStore. generalize stored_new. generalize (newBetStore seededAt). induction calls as [|c calls IH]; intros s0 H0'; [exact H0'|].
    apply IH, stored_call, H0'. }
  destruct Hs as [K1 _ _ K4 _ _ K7]. by split.
Qed.

(** Of two bets of one millisecond the tenth is listed after the ninth. *)
Lemma ties_by_text a b : sb_timestamp a = sb_timestamp b -> sb_id a = betId 10 -> sb_id b = betId 9 -> shownAfter a b = true.
Proof. intros Ht Ha Hb. unfold shownAfter. rewrite Ht, Ha, Hb, Z.ltb_irrefl, Z.eqb_refl. by vm_compute. Qed.
End StoreProofs.
