(* ===== verification/Socket.v ===== *)
(** * Socket connections (src/src/socket.ts)

    The handlers of one Socket.IO server, over the sockets it holds, the registry
    of connections and the sessions of [Sessions]. Socket.IO puts a socket in a
    room named by its identifier and reports a disconnection at once. The calls
    to the session service that a handler does not wait for are [sk_pending];
    they run, or fail, one at a time in any order. Verifying a token is the
    parameter [verifyTokenDetailed]. *)

From Stdlib Require Import ZArith Lia.
From stdpp Require Import base gmap sets strings list.
From S2P Require Import Prelude.
From S2P Require Import Schema.
From S2P Require Import JsonText.
From S2P Require Import Challenge.
From S2P Require Import RateLimit.
From S2P Require Import Sessions.

#[local] Open Scope Z_scope.

Definition PING_INTERVAL : Z := 25000.
Definition PING_TIMEOUT : Z := 10000.
Definition AUTH_TOKEN_EXPIRED : string := "AUTH_TOKEN_EXPIRED".
Definition AUTH_TOKEN_INVALID : string := "AUTH_TOKEN_INVALID".

(** ** The state *)

(** An [AuthenticatedSocket] and the rooms it is in. *)
Record Sock : Type := mkSock {
  so_userId : option string;
  so_walletAddress : option string;
  so_tokenExpiresAt : option Z;
  so_rooms : gset string;
}.

Record ConnectionRecord : Type := mkConnection {
  cn_userId : option string;
  cn_walletAddress : option string;
  cn_connectedAt : Z;
  cn_lastSeenAt : Z;
  cn_tokenExpiresAt : option Z;
}.

Inductive SocketEvent : Type :=
| EvHello (authenticated : bool) (userId : option string)
| EvJoined (room : string)
| EvLeft (room : string)
| EvError (message : string)
| EvAuthError (code : string)
| EvResume (rooms : list string).

(** A call to the session service, with the socket whose handler made it. *)
Inductive SessionJob : Type :=
| JobConnect (sid userId walletAddress : string)
| JobRoom (sid : string) (op : RoomOp)
| JobReconcile (userId : string) (adapterRooms : list string)
| JobMetadata (userId : string) (patch : list (string * Json))
| JobDisconnect (userId : string).

(** [sk_sent] are the events sent to each socket, the latest first. *)
Record SocketWorld : Type := mkSocketWorld {
  sk_now : Z;
  sk_sockets : gmap string Sock;
  sk_registry : gmap string ConnectionRecord;
  sk_sessions : SessionTable;
  sk_pending : list SessionJob;
  sk_chat : gmap string (list Z);
  sk_sent : list (string * SocketEvent);
}.

Definition newServer (now : Z) : SocketWorld := mkSocketWorld now ∅ ∅ ∅ [] ∅ [].

(** ** Authentication *)

Inductive TokenVerifyResult : Type :=
| TokenValid (userId walletAddress : string) (exp : option Z)
| TokenExpired
| TokenInvalid.

(** [header.replace('Bearer ', '')]: the first occurrence only. *)
Definition stripBearer (header : string) : string :=
  match String.index 0 "Bearer " header with
  | Some i => (String.substring 0 i header +:+ String.substring (i + 7) (String.length header) header)%string
  | None => header
  end.

Definition handshakeToken (authToken authorization : option string) : option string :=
  match truthy authToken with
  | Some t => Some t
  | None => truthy (stripBearer <$> authorization)
  end.

(** What the middleware attaches to a socket. *)
Record SocketAuth : Type := mkAuth {
  au_userId : option string;
  au_walletAddress : option string;
  au_tokenExpiresAt : option Z;
}.

Definition noAuth : SocketAuth := mkAuth None None None.

(** [exp * 1000], if [exp] is a number other than zero *)
Definition expiryMs (exp : option Z) : option Z :=
  match exp with Some e => if e =? 0 then None else Some (e * 1000) | None => None end.

Section Middleware.
Context (verifyTokenDetailed : string -> TokenVerifyResult) (socketDemoMode : bool).

(** [userWallet id] is the wallet of the user with an identifier, [inl tt] if
    the lookup fails. *)
Definition authenticate (authToken authorization : option string) (userWallet : string -> unit + option string)
    : string + SocketAuth :=
  match handshakeToken authToken authorization with
  | None => inr noAuth
  | Some token =>
      match verifyTokenDetailed token with
      | TokenExpired => inl AUTH_TOKEN_EXPIRED
      | TokenInvalid => inl AUTH_TOKEN_INVALID
      | TokenValid userId walletAddress exp =>
          if socketDemoMode then inr (mkAuth (Some userId) (Some walletAddress) (expiryMs exp))
          else match userWallet userId with
               | inl _ => inl "Authentication error"%string
               | inr None => inl "User not found"%string
               | inr (Some wallet) => inr (mkAuth (Some userId) (Some wallet) (expiryMs exp))
               end
      end
  end.
End Middleware.

(** ** Steps on the state *)

Definition send (sid : string) (e : SocketEvent) (w : SocketWorld) : SocketWorld := w {{ sk_sent := (sid, e) :: sk_sent w }}.

Definition onSocket (sid : string) (f : Sock -> Sock) (w : SocketWorld) : SocketWorld := w {{ sk_sockets := alter f sid (sk_sockets w) }}.

Definition join (room sid : string) : SocketWorld -> SocketWorld := onSocket sid (fun s => s {{ so_rooms := {[room]} ∪ so_rooms s }}).

Definition leave (room sid : string) : SocketWorld -> SocketWorld := onSocket sid (fun s => s {{ so_rooms := so_rooms s ∖ {[room]} }}).

Definition enqueue (job : SessionJob) (w : SocketWorld) : SocketWorld := w {{ sk_pending := sk_pending w ++ [job] }}.

(** [socket.onAny] and the pong of the engine *)
Definition touch (sid : string) (w : SocketWorld) : SocketWorld :=
  w {{ sk_registry := alter (fun r => r {{ cn_lastSeenAt := sk_now w }}) sid (sk_registry w) }}.

Definition userRoom (userId : string) : string := ("user:" +:+ userId)%string.

Definition isPrivate (room : string) : bool := String.prefix "user:" room.

Definition isAuthorizedPrivateRoomJoin (userId : option string) (room : string) : bool :=
  if negb (isPrivate room) then true
  else match truthy userId with
       | None => false
       | Some u => String.eqb room (userRoom u)
       end.

(** The rooms of a socket other than its own. *)
Definition adapterRooms (sid : string) (w : SocketWorld) : list string :=
  match sk_sockets w !! sid with
  | Some s => elements (so_rooms s ∖ {[sid]})
  | None => []
  end.

Section Handlers.
Context (socketDemoMode : bool).

Definition onConnection (sid : string) (auth : SocketAuth) (w : SocketWorld) : SocketWorld :=
  let s := mkSock (au_userId auth) (au_walletAddress auth) (au_tokenExpiresAt auth) {[sid]} in
  let record := mkConnection (au_userId auth) (au_walletAddress auth) (sk_now w) (sk_now w) (au_tokenExpiresAt auth) in
  let w := w {{ sk_sockets := <[sid := s]> (sk_sockets w); sk_registry := <[sid := record]> (sk_registry w) }} in
  let w := send sid (EvHello (bool_decide (is_Some (truthy (au_userId auth)))) (au_userId auth)) w in
  match truthy (au_userId auth) with
  | None => w
  | Some u =>
      let w := join (userRoom u) sid w in
      if socketDemoMode then w else enqueue (JobConnect sid u (default ""%string (au_walletAddress auth))) w
  end.

(** The user of a socket that is connected. *)
Definition userOf (sid : string) (w : SocketWorld) : option string := sk_sockets w !! sid ≫= fun s => truthy (so_userId s).

Definition forUser (sid : string) (w : SocketWorld) (f : string -> SocketWorld -> SocketWorld) : SocketWorld :=
  match userOf sid w with Some u => f u w | None => w end.

Definition roundRoom (roundId : option string) : string :=
  match truthy roundId with Some r => ("round:" +:+ r)%string | None => "round" end.

Definition joinRound (sid : string) (roundId : option string) (w : SocketWorld) : SocketWorld :=
  let room := roundRoom roundId in
  let w := send sid (EvJoined room) (join room sid w) in
  forUser sid w (fun u => enqueue (JobRoom sid (AddRoom u room))).

(** [leave:round] and [leave:chat] *)
Definition leaveRoom (sid room : string) (w : SocketWorld) : SocketWorld :=
  let w := send sid (EvLeft room) (leave room sid w) in
  forUser sid w (fun u => enqueue (JobRoom sid (RemoveRoom u room))).

Definition joinChat (sid : string) (w : SocketWorld) : SocketWorld :=
  if socketDemoMode then send sid (EvError "Chat is unavailable in socket demo mode") w
  else match userOf sid w with
       | None => send sid (EvError "Authentication required to join chat") w
       | Some u => enqueue (JobRoom sid (AddRoom u "chat")) (send sid (EvJoined "chat") (join "chat" sid w))
       end.

Definition joinNotifications (sid : string) (room : option string) (w : SocketWorld) : SocketWorld :=
  match userOf sid w with
  | None => send sid (EvError "Authentication required for notifications") w
  | Some u =>
      let targetRoom := match truthy (trim <$> room) with Some r => r | None => userRoom u end in
      if negb (isAuthorizedPrivateRoomJoin (Some u) targetRoom)
      then send sid (EvError ("Unauthorized room join: " +:+ targetRoom +:+ ". You can only join your own private room.")%string) w
      else
        let ackRoom := if String.eqb targetRoom (userRoom u) then "notifications"%string else targetRoom in
        enqueue (JobRoom sid (AddRoom u targetRoom)) (send sid (EvJoined ackRoom) (join targetRoom sid w))
  end.

(** [None] is a patch that is no object. *)
Definition checkpointSession (sid : string) (patch : option (list (string * Json))) (w : SocketWorld) : SocketWorld :=
  match patch with
  | None => w
  | Some patch => forUser sid w (fun u => enqueue (JobMetadata u patch))
  end.

(** ** chat:send *)

Inductive ChatAck : Type := AckOk (messageId : string) | AckError (error code : string).

(** [message] is what [chatService.sendMessage] comes to, [None] if it throws. *)
Definition chatSend (sid : string) (content : option string) (message : option string) (w : SocketWorld) : ChatAck * SocketWorld :=
  if socketDemoMode then (AckError "Chat is unavailable in socket demo mode" "SEND_FAILED", w)
  else match userOf sid w, (sk_sockets w !! sid ≫= fun s => truthy (so_walletAddress s)) with
       | Some u, Some _ =>
           let '(allowed, chat) := isAllowed CHAT_MAX CHAT_WINDOW_MS (sk_now w) u (sk_chat w) in
           let w := w {{ sk_chat := chat }} in
           if negb allowed then (AckError "Too many messages. Please wait before sending another." "RATE_LIMITED", w)
           else match truthy content with
                | Some c =>
                    if String.eqb (trim c) "" then (AckError "Message content is required" "INVALID_CONTENT", w)
                    else if (500 <? String.length c)%nat then (AckError "Message too long (max 500 characters)" "INVALID_CONTENT", w)
                    else match message with
                         | Some id => (AckOk id, w)
                         | None => (AckError "Failed to send message" "SEND_FAILED", w)
                         end
                | None => (AckError "Message content is required" "INVALID_CONTENT", w)
                end
       | _, _ => (AckError "Authentication required to send messages" "AUTH_REQUIRED", w)
       end.

(** ** Disconnection *)

Definition onDisconnect (sid : string) (w : SocketWorld) : SocketWorld :=
  match sk_sockets w !! sid with
  | None => w
  | Some s =>
      let w := w {{ sk_sockets := delete sid (sk_sockets w); sk_registry := delete sid (sk_registry w) }} in
      match truthy (so_userId s) with
      | Some u => if socketDemoMode then w else enqueue (JobDisconnect u) w
      | None => w
      end
  end.

(** One entry of the registry: the socket is disconnected, or, if it is gone
    already, its entry is removed. *)
Definition evict (sid : string) (w : SocketWorld) : SocketWorld :=
  match sk_sockets w !! sid with
  | Some _ => onDisconnect sid w
  | None => w {{ sk_registry := delete sid (sk_registry w) }}
  end.

Definition STALE_THRESHOLD_MS : Z := PING_INTERVAL + PING_TIMEOUT + 5000.

Definition isStaleRecord (staleThresholdMs now : Z) (r : ConnectionRecord) : bool := negb (now - cn_lastSeenAt r <=? staleThresholdMs).

Definition checkStaleConnections (staleThresholdMs : Z) (w : SocketWorld) : nat * SocketWorld :=
  let stale := filter (fun e => isStaleRecord staleThresholdMs (sk_now w) (snd e) = true) (map_to_list (sk_registry w)) in
  (length stale, foldl (fun w e => evict (fst e) w) w stale).

Definition hasExpired (now : Z) (r : ConnectionRecord) : bool :=
  match cn_tokenExpiresAt r with
  | Some t => negb (t =? 0) && (t <=? now)
  | None => false
  end.

Definition notifyExpired (sid : string) (w : SocketWorld) : SocketWorld :=
  match sk_sockets w !! sid with
  | Some _ => evict sid (send sid (EvAuthError AUTH_TOKEN_EXPIRED) w)
  | None => evict sid w
  end.

Definition checkExpiredTokenSockets (nowMs : Z) (w : SocketWorld) : nat * SocketWorld :=
  let expired := filter (fun e => hasExpired nowMs (snd e) = true) (map_to_list (sk_registry w)) in
  (length expired, foldl (fun w e => notifyExpired (fst e) w) w expired).

(** ** The calls to the session service *)

(** With what follows the call in the handler, whether or not the socket is
    still there: a socket that is gone joins nothing and is in no room. [works]
    says which database calls of the service succeed; the service reports no
    failure. *)
Definition runSessionJob `{JsonText} (works : nat -> bool) (job : SessionJob) (w : SocketWorld) : SocketWorld :=
  let now := sk_now w in
  match job with
  | JobConnect sid u wallet =>
      let '(resume, t) := recordConnect works now u wallet sid (sk_sessions w) in
      let w := w {{ sk_sessions := t }} in
      let w := send sid (EvResume (re_rooms resume)) (foldl (fun w room => join room sid w) w (re_rooms resume)) in
      enqueue (JobReconcile u (adapterRooms sid w)) w
  | JobRoom sid op =>
      let w := w {{ sk_sessions := roomOp works now op (sk_sessions w) }} in
      match op with
      | AddRoom _ _ => w
      | RemoveRoom u _ => enqueue (JobReconcile u (adapterRooms sid w)) w
      end
  | JobReconcile u rooms => w {{ sk_sessions := snd (reconcileRooms works now u rooms (sk_sessions w)) }}
  | JobMetadata u patch => w {{ sk_sessions := patchMetadata works now u patch (sk_sessions w) }}
  | JobDisconnect u => w {{ sk_sessions := recordDisconnect works now u (sk_sessions w) }}
  end.
End Handlers.

(** ** A server at work *)

Inductive ClientAction : Type :=
| ActJoinRound (roundId : option string)
| ActLeaveRound (roundId : option string)
| ActJoinChat
| ActLeaveChat
| ActChatSend (content message : option string)
| ActJoinNotifications (room : option string)
| ActCheckpoint (patch : option (list (string * Json)))
| ActPong.

Definition onAction (demo : bool) (sid : string) (a : ClientAction) (w : SocketWorld) : SocketWorld :=
  let w := touch sid w in
  match a with
  | ActJoinRound r => joinRound sid r w
  | ActLeaveRound r => leaveRoom sid (roundRoom r) w
  | ActJoinChat => joinChat demo sid w
  | ActLeaveChat => leaveRoom sid "chat" w
  | ActChatSend content message => snd (chatSend demo sid content message w)
  | ActJoinNotifications room => joinNotifications sid room w
  | ActCheckpoint patch => checkpointSession sid patch w
  | ActPong => w
  end.

Definition jobSocket (job : SessionJob) : option string :=
  match job with
  | JobConnect sid _ _ | JobRoom sid _ => Some sid
  | _ => None
  end.

(** One step of the server. Socket.IO gives each socket a fresh identifier, the
    name of nobody's private room; a connection may be lost without the handler
    being told. *)
Inductive serverStep `{JsonText} (verify : string -> TokenVerifyResult) (demo : bool) : SocketWorld -> SocketWorld -> Prop :=
| st_connect w sid authToken authorization userWallet auth :
    authenticate verify demo authToken authorization userWallet = inr auth ->
    sk_sockets w !! sid = None -> (forall job, job ∈ sk_pending w -> jobSocket job <> Some sid) -> isPrivate sid = false ->
    serverStep verify demo w (onConnection demo sid auth w)
| st_action w sid s a : sk_sockets w !! sid = Some s -> serverStep verify demo w (onAction demo sid a w)
| st_disconnect w sid : serverStep verify demo w (onDisconnect demo sid w)
| st_lost w sid : serverStep verify demo w (w {{ sk_sockets := delete sid (sk_sockets w) }})
| st_stale w : serverStep verify demo w (snd (checkStaleConnections demo STALE_THRESHOLD_MS w))
| st_expired w : serverStep verify demo w (snd (checkExpiredTokenSockets demo (sk_now w) w))
| st_job w before job after works :
    sk_pending w = before ++ job :: after ->
    serverStep verify demo w (runSessionJob works job (w {{ sk_pending := before ++ after }}))
| st_time w ms : serverStep verify demo w (w {{ sk_now := sk_now w + Z.of_nat ms }}).

Inductive serverReaches `{JsonText} (verify : string -> TokenVerifyResult) (demo : bool) (t0 : Z) : SocketWorld -> Prop :=
| sr_start : serverReaches verify demo t0 (newServer t0)
| sr_step w w' : serverReaches verify demo t0 w -> serverStep verify demo w w' -> serverReaches verify demo t0 w'.


(** ** Private rooms *)

(** What [isAuthorizedPrivateRoomJoin] is for, given the user of a socket. *)
Definition mayEnter (u : option string) (room : string) : Prop :=
  isPrivate room = true -> exists u', u = Some u' /\ room = userRoom u'.

Lemma authorized_mayEnter u room : u <> ""%string -> isAuthorizedPrivateRoomJoin (Some u) room = true -> mayEnter (Some u) room.
Proof.
  intros Hu Ha Hp. unfold isAuthorizedPrivateRoomJoin in Ha. rewrite Hp, truthy_some in Ha by done.
  apply String.eqb_eq in Ha. eauto.
Qed.

Lemma mayEnter_own u : mayEnter (Some u) (userRoom u).
Proof. intros _. eauto. Qed.

Lemma mayEnter_public u room : isPrivate room = false -> mayEnter u room.
Proof. intros H1 H2. congruence. Qed.

Lemma public_round roundId : isPrivate (roundRoom roundId) = false.
Proof. unfold roundRoom. by destruct (truthy roundId). Qed.

Lemma truthy_nonempty o u : truthy o = Some u -> u <> ""%string.
Proof. intros E ->. destruct o as [[|c s]|]; done. Qed.

Lemma userRoom_inj u v : userRoom u = userRoom v -> u = v.
Proof. intros E. by injection E. Qed.

Lemma userRoom_private u : isPrivate (userRoom u) = true.
Proof. unfold isPrivate, userRoom. cbn. by destruct u. Qed.

Section Privacy.
Context `{JsonText} (verify : string -> TokenVerifyResult) (demo : bool).

(** Who may be called the user of a socket. *)
Definition identified (o : option string) : Prop :=
  forall u, o = Some u -> exists token wallet exp, verify token = TokenValid u wallet exp.

Record sockOk (s : Sock) : Prop := {
  ok_user : identified (so_userId s);
  ok_rooms : forall room, room ∈ so_rooms s -> mayEnter (truthy (so_userId s)) room;
}.

Definition sessionOk (u : string) (s : MultiplayerSession) : Prop :=
  forall room, room ∈ asStringArray (ms_rooms s) -> mayEnter (Some u) room.

(** A call made for [u] by a handler of socket [sid]. *)
Definition madeFor (socks : gmap string Sock) (sid u : string) : Prop :=
  u <> ""%string /\ forall s, socks !! sid = Some s -> truthy (so_userId s) = Some u.

Definition jobOk (socks : gmap string Sock) (job : SessionJob) : Prop :=
  match job with
  | JobConnect sid u _ => madeFor socks sid u
  | JobRoom sid op => madeFor socks sid (opUser op) /\ mayEnter (Some (opUser op)) (opRoom op)
  | JobReconcile u rooms => forall room, room ∈ rooms -> mayEnter (Some u) room
  | JobMetadata _ _ | JobDisconnect _ => True
  end.

Record private (w : SocketWorld) : Prop := {
  pr_sockets : map_Forall (fun _ => sockOk) (sk_sockets w);
  pr_sessions : map_Forall sessionOk (sk_sessions w);
  pr_pending : Forall (jobOk (sk_sockets w)) (sk_pending w);
}.

(** *** What keeps it *)

(** Sockets that go away or gain a room keep the calls well made. *)
Definition sameUsers (socks socks' : gmap string Sock) : Prop :=
  forall sid s', socks' !! sid = Some s' -> exists s, socks !! sid = Some s /\ so_userId s = so_userId s'.

Lemma jobOk_mono socks socks' job : sameUsers socks socks' -> jobOk socks job -> jobOk socks' job.
Proof.
  intros Hm. assert (Hf : forall sid u, madeFor socks sid u -> madeFor socks' sid u).
  { intros sid u [Hu Hs]. split; [done|]. intros s' (s & Hl & <-)%Hm. by apply Hs. }
  destruct job; cbn; try done; [apply Hf|intros [H1 H2]; split; auto].
Qed.

Lemma sameUsers_delete socks sid : sameUsers socks (delete sid socks).
Proof. intros k s [_ Hl]%lookup_delete_Some. eauto. Qed.

Lemma sameUsers_alter socks sid f : (forall s, so_userId (f s) = so_userId s) -> sameUsers socks (alter f sid socks).
Proof.
  intros Hf k s. destruct (decide (sid = k)) as [->|Hne]; [rewrite lookup_alter_eq|rewrite lookup_alter_ne by done; eauto].
  destruct (socks !! k) as [s0|]; [|done]. intros [= <-]. exists s0. by rewrite Hf.
Qed.

Lemma private_sockets w socks' :
  private w -> sameUsers (sk_sockets w) socks' -> map_Forall (fun _ => sockOk) socks' -> private (w {{ sk_sockets := socks' }}).
Proof.
  intros [H1 H2 H3] Hm Hs. split; cbn; [done..|]. eapply Forall_impl; [exact H3|]. intros job. by apply jobOk_mono.
Qed.

Lemma private_sessions w t : private w -> map_Forall sessionOk t -> private (w {{ sk_sessions := t }}).
Proof. intros [H1 H2 H3] Ht. by split. Qed.

Lemma private_enqueue w job : private w -> jobOk (sk_sockets w) job -> private (enqueue job w).
Proof. intros [H1 H2 H3] Hj. split; cbn; [done..|]. apply Forall_app. auto. Qed.

Lemma private_join w sid room :
  private w -> (forall s, sk_sockets w !! sid = Some s -> mayEnter (truthy (so_userId s)) room) -> private (join room sid w).
Proof.
  intros Hw Hr. apply private_sockets; [done|by apply sameUsers_alter|]. intros k s.
  destruct (decide (sid = k)) as [->|Hne].
  - rewrite lookup_alter_eq. destruct (sk_sockets w !! k) as [s0|] eqn:Hl; [|done]. intros [= <-].
    destruct (pr_sockets w Hw k s0 Hl) as [U R]. split; cbn; [done|]. intros r [->%elem_of_singleton|Hi]%elem_of_union; [by apply Hr|by apply R].
  - rewrite lookup_alter_ne by done. apply (pr_sockets w Hw).
Qed.

Lemma private_leave w sid room : private w -> private (leave room sid w).
Proof.
  intros Hw. apply private_sockets; [done|by apply sameUsers_alter|]. intros k s.
  destruct (decide (sid = k)) as [->|Hne].
  - rewrite lookup_alter_eq. destruct (sk_sockets w !! k) as [s0|] eqn:Hl; [|done]. intros [= <-].
    destruct (pr_sockets w Hw k s0 Hl) as [U R]. split; cbn; [done|]. intros r [Hi _]%elem_of_difference. by apply R.
  - rewrite lookup_alter_ne by done. apply (pr_sockets w Hw).
Qed.

Lemma private_delete w sid : private w -> private (w {{ sk_sockets := delete sid (sk_sockets w) }}).
Proof.
  intros Hw. apply private_sockets; [done|apply sameUsers_delete|]. intros k s [_ Hl]%lookup_delete_Some. by apply (pr_sockets w Hw k).
Qed.

(** The other parts of the state do not matter. *)
Lemma private_same w w' :
  sk_sockets w' = sk_sockets w -> sk_sessions w' = sk_sessions w -> sk_pending w' = sk_pending w -> private w -> private w'.
Proof. intros E1 E2 E3 [H1 H2 H3]. split; rewrite ?E1, ?E2, ?E3; assumption. Qed.

Lemma private_forUser w sid f :
  private w -> (forall u, userOf sid w = Some u -> madeFor (sk_sockets w) sid u -> private (f u w)) -> private (forUser sid w f).
Proof.
  intros Hw Hf. unfold forUser. destruct (userOf sid w) as [u|] eqn:Hu; [|done]. apply Hf; [done|].
  unfold userOf in Hu. destruct (sk_sockets w !! sid) as [s|] eqn:Hs; [|done]. cbn in Hu.
  split; [by eapply truthy_nonempty|]. intros s' Hs'. congruence.
Qed.

(** *** The handlers *)

Lemma private_onConnection sid auth w :
  identified (au_userId auth) -> sk_sockets w !! sid = None -> (forall job, job ∈ sk_pending w -> jobSocket job <> Some sid) ->
  isPrivate sid = false -> private w -> private (onConnection demo sid auth w).
Proof.
  intros Hi Hfresh Hpend Hpub Hw. unfold onConnection.
  set (s := mkSock _ _ _ _). set (w1 := w {{ sk_sockets := _; sk_registry := _ }}).
  assert (H1 : private w1).
  { split; cbn; [|apply Hw|].
    - apply map_Forall_insert_2; [|apply Hw]. split; [done|]. cbn. intros room ->%elem_of_singleton. by apply mayEnter_public.
    - apply Forall_forall. intros job Hj. pose proof (pr_pending w Hw) as Hall. rewrite Forall_forall in Hall.
      specialize (Hall job Hj). specialize (Hpend job Hj).
      assert (Hf : forall sid' u, sid' <> sid -> madeFor (sk_sockets w) sid' u -> madeFor (<[sid:=s]> (sk_sockets w)) sid' u).
      { intros sid' u Hne [Hu Hs]. split; [done|]. intros s'. rewrite lookup_insert_ne by done. apply Hs. }
      destruct job; cbn in *; try done; [apply Hf; congruence|destruct Hall; split; [apply Hf; congruence|done]]. }
  destruct (truthy (au_userId auth)) as [u|] eqn:Hu; [|by apply (private_same w1)].
  assert (Hne : u <> ""%string) by (by eapply truthy_nonempty).
  assert (H2 : private (join (userRoom u) sid (send sid (EvHello (bool_decide (is_Some (Some u))) (au_userId auth)) w1))).
  { apply private_join; [by apply (private_same w1)|]. cbn. rewrite lookup_insert_eq. intros s' [= <-]. cbn.
    rewrite Hu. apply mayEnter_own. }
  destruct demo; [exact H2|]. apply private_enqueue; [exact H2|]. cbn.
  split; [done|]. rewrite lookup_alter_eq, lookup_insert_eq. intros s' [= <-]. exact Hu.
Qed.

Lemma private_joinedJob w sid room u :
  madeFor (sk_sockets w) sid u -> mayEnter (Some u) room -> private w -> private (enqueue (JobRoom sid (AddRoom u room)) w).
Proof. intros Hm Hr Hw. by apply private_enqueue. Qed.

Lemma private_publicRoom w sid room :
  isPrivate room = false -> private w ->
  private (forUser sid (send sid (EvJoined room) (join room sid w)) (fun u => enqueue (JobRoom sid (AddRoom u room)))).
Proof.
  intros Hp Hw. assert (H1 : private (send sid (EvJoined room) (join room sid w))).
  { apply (private_same (join room sid w)); try done. apply private_join; [done|]. intros. by apply mayEnter_public. }
  apply private_forUser; [done|]. intros u _ Hm. apply private_joinedJob; [done|by apply mayEnter_public|done].
Qed.

Lemma private_leaveRoom w sid room : isPrivate room = false -> private w -> private (leaveRoom sid room w).
Proof.
  intros Hp Hw. assert (H1 : private (send sid (EvLeft room) (leave room sid w))).
  { apply (private_same (leave room sid w)); try done. by apply private_leave. }
  apply private_forUser; [done|]. intros u _ Hm. apply private_enqueue; [done|]. split; [done|by apply mayEnter_public].
Qed.

Lemma userOf_madeFor w sid u : userOf sid w = Some u -> madeFor (sk_sockets w) sid u.
Proof.
  unfold userOf. destruct (sk_sockets w !! sid) as [s|] eqn:Hs; [|done]. cbn. intros Hu.
  split; [by eapply truthy_nonempty|]. intros s' Hs'. congruence.
Qed.

(** A socket joins a room its user may enter, which is then recorded. *)
Lemma private_entry w sid u room ack :
  userOf sid w = Some u -> mayEnter (Some u) room -> private w ->
  private (enqueue (JobRoom sid (AddRoom u room)) (send sid (EvJoined ack) (join room sid w))).
Proof.
  intros Hu Hr Hw. destruct (userOf_madeFor _ _ _ Hu) as [Hne Hs]. apply private_joinedJob; [|done|].
  - split; [done|]. intros s' Hl'. cbn in Hl'.
    apply sameUsers_alter in Hl' as (s & Hl & <-); [by apply Hs|done].
  - apply (private_same (join room sid w)); try done. apply private_join; [done|]. intros s Hl. by rewrite (Hs s Hl).
Qed.

Lemma chatSend_state sid content message w : exists chat, snd (chatSend demo sid content message w) = w {{ sk_chat := chat }}.
Proof.
  assert (Hsame : exists chat, w = w {{ sk_chat := chat }}) by (exists (sk_chat w); by destruct w).
  unfold chatSend. destruct demo; [done|]. repeat case_match; simplify_eq; cbn; eauto.
Qed.

Lemma private_onAction w sid a : private w -> private (onAction demo sid a w).
Proof.
  intros Hw0. assert (Hw : private (touch sid w)) by (by apply (private_same w)). unfold onAction. clear Hw0. revert Hw.
  generalize (touch sid w). clear w. intros w Hw. destruct a as [r|r| | |content message|room|patch|].
  - apply private_publicRoom; [apply public_round|done].
  - apply private_leaveRoom; [apply public_round|done].
  - unfold joinChat. destruct demo; [by apply (private_same w)|].
    destruct (userOf sid w) as [u|] eqn:Hu; [|by apply (private_same w)]. apply private_entry; [done|by apply mayEnter_public|done].
  - by apply private_leaveRoom.
  - destruct (chatSend_state sid content message w) as [chat E]. rewrite E. by apply (private_same w).
  - unfold joinNotifications. destruct (userOf sid w) as [u|] eqn:Hu; [|by apply (private_same w)].
    destruct (negb _) eqn:Ha; [by apply (private_same w)|]. apply negb_false_iff in Ha. apply private_entry; [done| |done].
    apply authorized_mayEnter; [|done]. by destruct (userOf_madeFor _ _ _ Hu).
  - unfold checkpointSession. destruct patch as [patch|]; [|done]. apply private_forUser; [done|]. intros. by apply private_enqueue.
  - done.
Qed.

Lemma private_onDisconnect w sid : private w -> private (onDisconnect demo sid w).
Proof.
  intros Hw. unfold onDisconnect. destruct (sk_sockets w !! sid) as [s|]; [|done].
  set (w1 := w {{ sk_sockets := _; sk_registry := _ }}).
  assert (H1 : private w1) by (apply (private_same (w {{ sk_sockets := delete sid (sk_sockets w) }})); try done; by apply private_delete).
  destruct (truthy (so_userId s)); [|done]. destruct demo; [done|]. by apply private_enqueue.
Qed.

Lemma private_evict w sid : private w -> private (evict demo sid w).
Proof.
  intros Hw. unfold evict. destruct (sk_sockets w !! sid); [by apply private_onDisconnect|by apply (private_same w)].
Qed.

Lemma private_sweep {A} (f : A -> SocketWorld -> SocketWorld) l w :
  (forall x w, private w -> private (f x w)) -> private w -> private (foldl (fun w x => f x w) w l).
Proof. intros Hf. revert w. induction l as [|x l IH]; intros w Hw; cbn; auto. Qed.

Lemma private_notifyExpired w sid : private w -> private (notifyExpired demo sid w).
Proof.
  intros Hw. unfold notifyExpired. destruct (sk_sockets w !! sid); apply private_evict; [by apply (private_same w)|done].
Qed.

(** *** The session service *)

Lemma sessionOk_setRooms u now rooms s : (forall room, room ∈ rooms -> mayEnter (Some u) room) -> sessionOk u (setRooms now rooms s).
Proof. intros Hr room. cbn -[asStringArray ofRooms]. rewrite asStringArray_ofRooms. apply Hr. Qed.

Lemma sessions_alter (t : SessionTable) u f :
  (forall s, t !! u = Some s -> sessionOk u s -> sessionOk u (f s)) -> map_Forall sessionOk t -> map_Forall sessionOk (alter f u t).
Proof.
  intros Hf Ht k s. destruct (decide (u = k)) as [->|Hne]; [rewrite lookup_alter_eq|rewrite lookup_alter_ne by done; apply Ht].
  destruct (t !! k) as [s0|] eqn:Hk; [|done]. intros [= <-]. apply Hf; [done|by apply Ht].
Qed.

Lemma clampRooms_from rooms room : room ∈ clampRooms rooms -> room ∈ rooms.
Proof.
  destruct (clampFrom_spec rooms []) as (_ & Hsub & _); [constructor|apply not_elem_of_nil|unfold MAX_PERSISTED_ROOMS; cbn; lia|].
  intros [Hn|Hr]%Hsub; [by apply not_elem_of_nil in Hn|done].
Qed.

Lemma sessions_roomOp works now op t :
  mayEnter (Some (opUser op)) (opRoom op) -> map_Forall sessionOk t -> map_Forall sessionOk (roomOp works now op t).
Proof.
  intros Hop Ht. unfold roomOp. destruct (_ || _); [done|]. destruct (works 0%nat); [|done].
  destruct (beginRoom op t) as [next|] eqn:Hb; [|done]. destruct (works 1%nat); [|done].
  apply sessions_alter; [|done]. intros s Hs Hok. apply sessionOk_setRooms. revert Hb. unfold beginRoom. rewrite Hs.
  destruct op as [u r|u r]; cbn [opUser opRoom] in *.
  - case_bool_decide; [done|]. intros [= <-] room [Hr| ->%list_elem_of_singleton]%clampRooms_from%elem_of_app; [by apply Hok|done].
  - intros [= <-] room [_ Hr]%list_elem_of_filter. by apply Hok.
Qed.

Lemma sessions_reconcile works now u rooms t :
  (forall room, room ∈ rooms -> mayEnter (Some u) room) -> map_Forall sessionOk t ->
  map_Forall sessionOk (snd (reconcileRooms works now u rooms t)).
Proof.
  intros Hr Ht. unfold reconcileRooms. destruct (String.eqb u ""); [done|]. destruct (works 0%nat); [|done].
  unfold reconcileRead. destruct (t !! u) as [s|] eqn:Hs; [|done].
  assert (Hm : forall room, room ∈ clampRooms (filter (fun r => r ∈ rooms) (asStringArray (ms_rooms s)) ++ rooms) -> mayEnter (Some u) room).
  { intros room [[_ Hi]%list_elem_of_filter|Hi]%clampRooms_from%elem_of_app; [by apply (Ht u s Hs)|auto]. }
  repeat case_match; simplify_eq; try done; cbn; apply sessions_alter; try done; intros; by apply sessionOk_setRooms.
Qed.

Lemma private_joins w sid rooms :
  private w -> (forall s room, sk_sockets w !! sid = Some s -> room ∈ rooms -> mayEnter (truthy (so_userId s)) room) ->
  private (foldl (fun w room => join room sid w) w rooms).
Proof.
  revert w. induction rooms as [|room rooms IH]; intros w Hw Hr; cbn; [done|]. apply IH.
  - apply private_join; [done|]. intros s Hs. apply (Hr s room Hs). left.
  - intros s r Hs Hi. apply sameUsers_alter in Hs as (s0 & Hs & <-); [|done]. apply (Hr s0 r Hs). by right.
Qed.

Lemma adapterRooms_mayEnter w sid u room :
  private w -> madeFor (sk_sockets w) sid u -> room ∈ adapterRooms sid w -> mayEnter (Some u) room.
Proof.
  intros Hw [_ Hs]. unfold adapterRooms. destruct (sk_sockets w !! sid) as [s|] eqn:Hl; [|by intros ?%not_elem_of_nil].
  intros [Hi _]%elem_of_elements%elem_of_difference. rewrite <- (Hs s eq_refl). by apply (ok_rooms s (pr_sockets w Hw sid s Hl)).
Qed.

Lemma resumed_mayEnter works now u wallet sid t room :
  map_Forall sessionOk t -> room ∈ re_rooms (fst (recordConnect works now u wallet sid t)) -> mayEnter (Some u) room.
Proof.
  intros Ht. unfold recordConnect. destruct (works 0%nat && works 1%nat); cbn; [|by intros ?%not_elem_of_nil].
  destruct (t !! u) as [s|] eqn:Hs; cbn; [by apply (Ht u s Hs)|by intros ?%not_elem_of_nil].
Qed.

Lemma sessions_connect works now u wallet sid t :
  map_Forall sessionOk t -> map_Forall sessionOk (snd (recordConnect works now u wallet sid t)).
Proof.
  intros Ht. unfold recordConnect. destruct (works 0%nat && works 1%nat); cbn; [|done].
  apply map_Forall_insert_2; [|done]. destruct (t !! u) as [s|] eqn:Hs; cbn; [by apply (Ht u s Hs)|].
  by intros room ?%not_elem_of_nil.
Qed.

Lemma joins_users w sid rooms : sameUsers (sk_sockets w) (sk_sockets (foldl (fun w room => join room sid w) w rooms)).
Proof.
  revert w. induction rooms as [|room rooms IH]; intros w; cbn; [by intros k s Hs; eauto|].
  intros k s (s1 & (s0 & H0 & E0)%sameUsers_alter & E1)%IH; [|done]. exists s0. split; [done|congruence].
Qed.

Lemma madeFor_mono socks socks' sid u : sameUsers socks socks' -> madeFor socks sid u -> madeFor socks' sid u.
Proof. intros Hm [Hu Hs]. split; [done|]. intros s' (s & Hl & <-)%Hm. by apply Hs. Qed.

Lemma private_job works job w : jobOk (sk_sockets w) job -> private w -> private (runSessionJob works job w).
Proof.
  intros Hj Hw. destruct job as [sid u wallet|sid op|u rooms|u patch|u]; cbn [runSessionJob].
  - pose proof (sessions_connect works (sk_now w) u wallet sid _ (pr_sessions w Hw)) as Ht.
    pose proof (resumed_mayEnter works (sk_now w) u wallet sid (sk_sessions w)) as Hr.
    destruct (recordConnect _ _ _ _ _ _) as [resume t]. cbn [fst snd] in *.
    set (w1 := foldl _ _ _). assert (H1 : private w1).
    { apply private_joins; [by apply private_sessions|]. intros s room Hs Hi. destruct Hj as [_ Hj]. rewrite (Hj s Hs).
      apply Hr; [apply Hw|done]. }
    assert (Hm : madeFor (sk_sockets w1) sid u) by (eapply madeFor_mono; [apply joins_users|exact Hj]).
    apply private_enqueue; [by apply (private_same w1)|]. cbn. intros room. by apply (adapterRooms_mayEnter w1).
  - destruct Hj as [Hm Hr].
    assert (H1 : private (w {{ sk_sessions := roomOp works (sk_now w) op (sk_sessions w) }})).
    { apply private_sessions; [done|]. apply sessions_roomOp; [done|apply Hw]. }
    destruct op as [u r|u r]; [exact H1|]. apply private_enqueue; [exact H1|]. cbn. intros room.
    by apply (adapterRooms_mayEnter w sid).
  - apply private_sessions; [done|]. apply sessions_reconcile; [exact Hj|apply Hw].
  - apply private_sessions; [done|]. unfold patchMetadata. destruct (String.eqb u ""); [apply Hw|].
    destruct (works 0%nat && works 1%nat); [|apply Hw]. apply sessions_alter; [|apply Hw]. intros s _ Hok room.
    unfold patchRow. destruct (clampMetadata _); apply Hok.
  - apply private_sessions; [done|]. unfold recordDisconnect. destruct (String.eqb u ""); [apply Hw|].
    destruct (works 0%nat); [|apply Hw]. by apply sessions_alter; [|apply Hw].
Qed.

Lemma authenticate_identified authToken authorization userWallet auth :
  authenticate verify demo authToken authorization userWallet = inr auth -> identified (au_userId auth).
Proof.
  unfold authenticate, identified. destruct (handshakeToken _ _) as [token|]; [|by intros [= <-]].
  destruct (verify token) as [u wallet exp| |] eqn:Hv; try done. intros Ha u' Hu. exists token, wallet, exp.
  destruct demo; [|destruct (userWallet u) as [|[]]]; simplify_eq; cbn in *; congruence.
Qed.

Lemma private_step w w' : serverStep verify demo w w' -> private w -> private w'.
Proof.
  intros Hs Hw. destruct Hs.
  - apply private_onConnection; try done. by eapply authenticate_identified.
  - by apply private_onAction.
  - by apply private_onDisconnect.
  - by apply private_delete.
  - apply private_sweep; [|done]. intros [sid r] w'. apply private_evict.
  - apply private_sweep; [|done]. intros [sid r] w'. apply private_notifyExpired.
  - destruct Hw as [H1 H2 H3]. rewrite H0, Forall_app, Forall_cons in H3. destruct H3 as (Hb & Hj & Ha).
    apply private_job; [done|]. split; [done..|]. by apply Forall_app.
  - by apply (private_same w).
Qed.

Lemma private_reaches t0 w : serverReaches verify demo t0 w -> private w.
Proof.
  induction 1; [|by eapply private_step]. split; [apply map_Forall_empty..|constructor].
Qed.
End Privacy.

(** C10. A socket is in the private room of a user only as that user, whose
    token it presented: however connections, requests, disconnections, both
    checks and the calls to the session service, failing or not, follow each
    other, every socket in [user:u] was let in with a token that verifies as a
    token of [u]; nor does the session of another user hold that room, so no
    reconnection resumes it. *)
Theorem rooms_private `{JsonText} verify demo t0 w u :
  serverReaches verify demo t0 w ->
  (forall sid s, sk_sockets w !! sid = Some s -> userRoom u ∈ so_rooms s ->
     so_userId s = Some u /\ exists token wallet exp, verify token = TokenValid u wallet exp) /\
  (forall v s, sk_sessions w !! v = Some s -> userRoom u ∈ asStringArray (ms_rooms s) -> v = u).
Proof.
  intros [H1 H2 _]%private_reaches. split.
  - intros sid s Hs Hr. destruct (H1 sid s Hs) as [Hi Ho].
    destruct (Ho _ Hr (userRoom_private u)) as (v & Hv & <-%userRoom_inj).
    assert (E : so_userId s = Some u) by (destruct (so_userId s) as [[|]|]; done). split; [done|by apply Hi].
  - intros v s Hs Hr. destruct (H2 v s Hs _ Hr (userRoom_private u)) as (v' & [= <-] & E%userRoom_inj). done.
Qed.

(** ** The periodic checks *)

Section Sweeps.
Context (demo : bool).

(** What both checks do to an entry. *)
Record evicts (f : string -> SocketWorld -> SocketWorld) : Prop := {
  ev_registry : forall sid w, sk_registry (f sid w) = delete sid (sk_registry w);
  ev_sockets : forall sid w, sk_sockets (f sid w) = delete sid (sk_sockets w);
  ev_sent : forall sid w e, e ∈ sk_sent w -> e ∈ sk_sent (f sid w);
}.

Lemma evict_evicts : evicts (evict demo).
Proof.
  split; intros sid w; unfold evict, onDisconnect; destruct (sk_sockets w !! sid) as [s|] eqn:Hs; cbn;
    try (destruct (truthy (so_userId s)), demo; done); try done.
  by rewrite delete_id.
Qed.

Lemma notifyExpired_evicts : evicts (notifyExpired demo).
Proof.
  destruct evict_evicts as [E1 E2 E3]. split; intros sid w; unfold notifyExpired; destruct (sk_sockets w !! sid);
    rewrite ?E1, ?E2; try done; intros e He; apply E3; [by right|done].
Qed.

Lemma sweep_effect f l w :
  evicts f ->
  let w' := foldl (fun w (e : string * ConnectionRecord) => f (fst e) w) w l in
  (forall sid, sk_registry w' !! sid = if bool_decide (sid ∈ l.*1) then None else sk_registry w !! sid) /\
  (forall sid, sk_sockets w' !! sid = if bool_decide (sid ∈ l.*1) then None else sk_sockets w !! sid) /\
  (forall e, e ∈ sk_sent w -> e ∈ sk_sent w').
Proof.
  intros [E1 E2 E3]. revert w. induction l as [|[k r] l IH]; intros w; cbn; [done|].
  destruct (IH (f k w)) as (H1 & H2 & H3). assert (Hd : forall A (m : gmap string A) sid,
    (if bool_decide (sid ∈ l.*1) then None else delete k m !! sid) = if bool_decide (sid ∈ k :: l.*1) then None else m !! sid).
  { intros A m sid. rewrite !bool_decide_decide. repeat case_decide; try done.
    - exfalso. set_solver.
    - assert (sid = k) as -> by set_solver. by rewrite lookup_delete_eq.
    - rewrite lookup_delete_ne; [done|]. intros ->. set_solver. }
  split; [|split].
  - intros sid. by rewrite H1, E1, Hd.
  - intros sid. by rewrite H2, E2, Hd.
  - auto.
Qed.

Lemma selected (P : ConnectionRecord -> bool) (m : gmap string ConnectionRecord) sid :
  sid ∈ (filter (fun e => P (snd e) = true) (map_to_list m)).*1 <-> exists r, m !! sid = Some r /\ P r = true.
Proof.
  rewrite list_elem_of_fmap. split.
  - intros ([k r] & -> & [Hp Hi]%list_elem_of_filter). apply elem_of_map_to_list in Hi. eauto.
  - intros (r & Hm & Hp). exists (sid, r). split; [done|]. apply list_elem_of_filter. split; [done|]. by apply elem_of_map_to_list.
Qed.

Lemma filter_listed (P : string * ConnectionRecord -> Prop) `{forall e, Decision (P e)} (m : gmap string ConnectionRecord) :
  map_to_list (filter P m) ≡ₚ filter P (map_to_list m).
Proof.
  apply NoDup_Permutation; [apply NoDup_map_to_list|apply NoDup_filter, NoDup_map_to_list|].
  intros [k r]. rewrite list_elem_of_filter, !elem_of_map_to_list, map_lookup_filter_Some. tauto.
Qed.

(** The check that disconnects the entries that satisfy [P]. *)
Lemma sweep_effects (P : ConnectionRecord -> bool) f w :
  evicts f ->
  let l := filter (fun e => P (snd e) = true) (map_to_list (sk_registry w)) in
  let w' := foldl (fun w e => f (fst e) w) w l in
  sk_registry w' = filter (fun e => P (snd e) = false) (sk_registry w) /\
  (forall sid, sk_sockets w' !! sid = if from_option P false (sk_registry w !! sid) then None else sk_sockets w !! sid) /\
  (length l + size (sk_registry w') = size (sk_registry w))%nat.
Proof.
  intros Hf l w'. destruct (sweep_effect f l w Hf) as (H1 & H2 & _). change (foldl _ _ _) with w' in H1, H2.
  assert (Hb : forall sid, bool_decide (sid ∈ l.*1) = from_option P false (sk_registry w !! sid)).
  { intros sid. destruct (sk_registry w !! sid) as [r|] eqn:Hr; cbn.
    - destruct (P r) eqn:Hp; [apply bool_decide_eq_true_2, selected; eauto|].
      apply bool_decide_eq_false_2. intros (r' & ? & ?)%selected. congruence.
    - apply bool_decide_eq_false_2. intros (r' & ? & ?)%selected. congruence. }
  assert (Hreg : sk_registry w' = filter (fun e => P (snd e) = false) (sk_registry w)).
  { apply map_eq. intros sid. rewrite H1, Hb, map_lookup_filter. destruct (sk_registry w !! sid) as [r|]; cbn; [|done].
    destruct (P r) eqn:Hp; cbn; case_guard; done || congruence. }
  split; [exact Hreg|]. split; [intros sid; by rewrite H2, Hb|].
  rewrite Hreg. unfold l. clear. rewrite <- !length_map_to_list, filter_listed.
  induction (map_to_list (sk_registry w)) as [|[k r] rest IH]; [done|]. rewrite !filter_cons. cbn [snd].
  destruct (P r); repeat (case_decide; try congruence); cbn [length]; lia.
Qed.

Lemma notified f l w sid :
  evicts f -> (forall w, is_Some (sk_sockets w !! sid) -> (sid, EvAuthError AUTH_TOKEN_EXPIRED) ∈ sk_sent (f sid w)) ->
  is_Some (sk_sockets w !! sid) -> sid ∈ l.*1 ->
  (sid, EvAuthError AUTH_TOKEN_EXPIRED) ∈ sk_sent (foldl (fun w (e : string * ConnectionRecord) => f (fst e) w) w l).
Proof.
  intros Hf Ht. revert w. induction l as [|[k r] l IH]; intros w Hs Hi; [by apply not_elem_of_nil in Hi|]. cbn.
  destruct (decide (k = sid)) as [->|Hne].
  - apply (sweep_effect f l (f sid w) Hf). by apply Ht.
  - apply IH; [by rewrite (ev_sockets f Hf), lookup_delete_ne|]. by apply elem_of_cons in Hi as [->|Hi].
Qed.

(** The two checks remove what they are for and nothing else: afterwards the
    registry holds exactly the connections seen within the threshold, or whose
    token is still valid; the sockets of the removed entries are disconnected,
    all others stay, the answer is the number of entries removed, and a socket
    cut off for its token was told so. *)
Theorem checks_disconnect w :
  (let '(removed, w') := checkStaleConnections demo STALE_THRESHOLD_MS w in
   sk_registry w' = filter (fun e => sk_now w - cn_lastSeenAt (snd e) <= STALE_THRESHOLD_MS) (sk_registry w) /\
   (forall sid, sk_sockets w' !! sid =
      if from_option (isStaleRecord STALE_THRESHOLD_MS (sk_now w)) false (sk_registry w !! sid) then None else sk_sockets w !! sid) /\
   (removed + size (sk_registry w') = size (sk_registry w))%nat) /\
  (let '(removed, w') := checkExpiredTokenSockets demo (sk_now w) w in
   sk_registry w' = filter (fun e => hasExpired (sk_now w) (snd e) = false) (sk_registry w) /\
   (forall sid, sk_sockets w' !! sid =
      if from_option (hasExpired (sk_now w)) false (sk_registry w !! sid) then None else sk_sockets w !! sid) /\
   (removed + size (sk_registry w') = size (sk_registry w))%nat /\
   (forall sid r s, sk_registry w !! sid = Some r -> hasExpired (sk_now w) r = true -> sk_sockets w !! sid = Some s ->
      (sid, EvAuthError AUTH_TOKEN_EXPIRED) ∈ sk_sent w')).
Proof.
  split.
  - destruct (sweep_effects (isStaleRecord STALE_THRESHOLD_MS (sk_now w)) (evict demo) w evict_evicts) as (H1 & H2 & H3).
    cbv [checkStaleConnections]. split; [|split; [exact H2|exact H3]]. rewrite H1. apply map_filter_ext. intros k r _. cbn [snd].
    unfold isStaleRecord. rewrite negb_false_iff. apply Z.leb_le.
  - destruct (sweep_effects (hasExpired (sk_now w)) (notifyExpired demo) w notifyExpired_evicts) as (H1 & H2 & H3).
    cbv [checkExpiredTokenSockets]. split; [exact H1|]. split; [exact H2|]. split; [exact H3|]. intros sid r s Hr He Hs.
    apply notified; [apply notifyExpired_evicts| |by exists s|apply selected; eauto].
    intros w0 [s0 Hs0]. unfold notifyExpired. rewrite Hs0. apply (ev_sent _ evict_evicts). by left.
Qed.
End Sweeps.

(** A call that ends after its socket is gone takes the rooms of nobody for the
    rooms of the user: what [leave:round], [leave:chat] and a connection do last
    then empties the session that a reconnection would resume. *)
Lemma reconcile_after_drop `{JsonText} works w sid u s :
  u <> ""%string -> works 0%nat = true -> works 1%nat = true ->
  sk_sockets w !! sid = None -> sk_sessions w !! u = Some s ->
  exists s', sk_sessions (runSessionJob works (JobReconcile u (adapterRooms sid w)) w) !! u = Some s' /\
    asStringArray (ms_rooms s') = [].
Proof.
  intros Hu W0 W1 Hgone Hs. unfold adapterRooms. rewrite Hgone. cbn [runSessionJob sk_sessions].
  unfold reconcileRooms. rewrite W0, W1. destruct (String.eqb_spec u "") as [|_]; [done|].
  unfold reconcileRead. rewrite Hs. rewrite (filter_none (fun r => r ∈ [])) by (intros ? _; apply not_elem_of_nil).
  cbn [filter list_filter app]. destruct (filter (fun r => r ∉ []) (asStringArray (ms_rooms s))) as [|r rest] eqn:Hf.
  - exists s. split; [exact Hs|]. destruct (asStringArray (ms_rooms s)) as [|r rest]; [done|].
    exfalso. apply (filter_empty (fun r => r ∉ []) (r :: rest) r Hf); [left|apply not_elem_of_nil].
  - cbn. rewrite lookup_alter_eq, Hs. eauto.
Qed.
