(* ===== verification/Digits.v ===== *)
(** * Numbers written in text

    [parseInt] and the numerals it reads back, and texts joined with a separator. *)

From Stdlib Require Import ZArith QArith Qabs Qround Lia Ascii.
From stdpp Require Import base strings list pretty.
From S2P Require Import Rounding.
From S2P Require Import Numeric.
From S2P Require Import Challenge.

#[local] Open Scope Z_scope.

(** The number the digits of a text make, other characters skipped. *)
Fixpoint digitsFrom (acc : N) (s : string) : N :=
  match s with
  | EmptyString => acc
  | String c s => digitsFrom (if isDigit c then acc * 10 + (N_of_ascii c - 48) else acc)%N s
  end.

(** [parseInt(s, 10)], while it is exact: a sign and the digits in front. *)
Definition parseIntZ (s : string) : option Z :=
  let '(sign, body) := match trimStart s with
                       | String c rest => if Ascii.eqb c "-" then (-1, rest) else if Ascii.eqb c "+" then (1, rest) else (1, String c rest)
                       | EmptyString => (1, EmptyString)
                       end in
  let digits := fst (spanDigits body) in
  if String.eqb digits "" then None else Some (sign * Z.of_N (digitsFrom 0 digits)).

Definition parseInt (s : string) : num :=
  match parseIntZ s with Some z => num_of_Q (inject_Z z) | None => NaN end.

(** [process.env] *)
Notation ProcessEnv := (string -> option string).

Definition isNaN (x : num) : bool := match x with NaN => true | _ => false end.

Definition int (z : Z) : num := Fin (inject_Z z).

Lemma digitsFrom_app s t acc : digitsFrom acc (s +:+ t) = digitsFrom (digitsFrom acc s) t.
Proof.
  revert acc. induction s as [|c s IH]; intros acc; [done|]. apply IH.
Qed.

Lemma digitsFrom_digit acc d s : (d < 10)%N -> digitsFrom acc (String (pretty_N_char d) s) = digitsFrom (acc * 10 + d) s.
Proof.
  intros Hd. assert (Hc : (d = 0 \/ d = 1 \/ d = 2 \/ d = 3 \/ d = 4 \/ d = 5 \/ d = 6 \/ d = 7 \/ d = 8 \/ d = 9)%N) by lia.
  repeat (destruct Hc as [->|Hc]; [reflexivity|]). by subst.
Qed.

Lemma pretty_N_go_value x : forall s, digitsFrom 0 (pretty_N_go x s) = digitsFrom x s.
Proof.
  induction (N.lt_wf_0 x) as [x _ IH]; intros s. destruct (decide (x = 0)%N) as [->|Hx]; [done|].
  rewrite pretty_N_go_step by lia. rewrite IH by (apply N.div_lt; lia).
  rewrite digitsFrom_digit by (apply N.mod_lt; lia). f_equal. pose proof (N.div_mod x 10 ltac:(lia)). lia.
Qed.

Lemma pretty_value n : digitsFrom 0 (pretty n) = n.
Proof. unfold pretty, pretty_N. case_decide; [by subst|]. by rewrite pretty_N_go_value. Qed.

Lemma digitsFrom_shift s : forall acc, allChars isDigit s = true ->
  digitsFrom acc s = (acc * 10 ^ N.of_nat (String.length s) + digitsFrom 0 s)%N.
Proof.
  induction s as [|c s IH]; intros acc; [cbn; lia|]. cbn [allChars]. intros [Hc Hs]%andb_true_iff. cbn [digitsFrom String.length].
  rewrite Hc, (IH _ Hs), (IH (0 * 10 + _)%N Hs), Nat2N.inj_succ, N.pow_succ_r'. lia.
Qed.

Lemma spanDigits_all s : allChars isDigit s = true -> spanDigits s = (s, ""%string).
Proof.
  induction s as [|c s IH]; [done|]. cbn [allChars spanDigits]. intros [Hc Hs]%andb_true_iff. by rewrite Hc, IH.
Qed.

(** A numeral is read back. *)
Lemma parseIntZ_pretty (n : N) : parseIntZ (pretty n) = Some (Z.of_N n).
Proof.
  pose proof (pretty_digits n) as Hd. pose proof (pretty_truthy n) as Ht. unfold parseIntZ.
  assert (Hne : pretty n <> ""%string) by (intros E; rewrite E in Ht; discriminate).
  destruct (pretty n) as [|c s] eqn:E; [done|]. cbn [allChars] in Hd. apply andb_true_iff in Hd as [Hc Hs].
  cbn [trimStart]. assert (Hsp : isSpace c = false) by (apply negb_true_iff, digit_not_space, Hc). rewrite Hsp.
  assert (Hm : Ascii.eqb c "-" = false /\ Ascii.eqb c "+" = false).
  { split; destruct (Ascii.eqb_spec c "-"), (Ascii.eqb_spec c "+"); subst; try done. }
  destruct Hm as [-> ->]. cbv beta iota zeta. rewrite spanDigits_all by (cbn; by rewrite Hc). cbn [fst].
  destruct (String.eqb_spec (String c s) ""); [done|]. rewrite <- E, pretty_value. by rewrite Z.mul_1_l.
Qed.

Lemma split_unique c s s' t t' : hasChar c s = false -> hasChar c s' = false ->
  (s +:+ String c t = s' +:+ String c t')%string -> s = s' /\ t = t'.
Proof.
  revert s'. induction s as [|a s IH]; intros [|a' s'] Hs Hs' E; cbn in *.
  - by injection E.
  - injection E as -> _. by rewrite Ascii.eqb_refl in Hs'.
  - injection E as -> _. by rewrite Ascii.eqb_refl in Hs.
  - injection E as -> E. apply orb_false_iff in Hs as [_ Hs], Hs' as [_ Hs']. destruct (IH s' Hs Hs' E) as [-> ->]. done.
Qed.

Lemma pretty_of_N n : pretty (Z.of_N n) = pretty n.
Proof. by destruct n. Qed.

(** ** [toFixed] *)

Definition num_abs (x : num) : num :=
  match x with Fin q => Fin (Qabs q) | Inf _ => Inf false | NaN => NaN end.

Fixpoint dropZeros (fuel : nat) (n : Z) : Z :=
  match fuel with
  | O => n
  | S fuel => if (n mod 10 =? 0)%Z then dropZeros fuel (n / 10) else n
  end.

(** [String(x)] for a finite [x] of at least 1e21, whose numeral has an
    exponent. *)
Definition exponentText (x : Q) : string :=
  let d := num_to_dec x in
  let e := expo 10 d in
  match pretty (dropZeros 16 (Qfloor (d / inject_Z (10 ^ (e - 16))))) with
  | String c "" => String c ("e+" +:+ pretty e)
  | String c rest => String c ("." +:+ rest +:+ "e+" +:+ pretty e)
  | s => s
  end.

(** The integer [toFixed] writes: the nearest, and the larger of two. *)
Definition fixedInt (places : nat) (x : Q) : Z := nearestHalfUp (x * inject_Z (10 ^ Z.of_nat places)).

Definition fixedText (places : nat) (x : Q) : string :=
  if Qle_bool (inject_Z (10 ^ 21)) x then exponentText x
  else let n := fixedInt places x in
       let s := (10 ^ Z.of_nat places)%Z in
       match places with
       | O => pretty n
       | _ => pretty (n / s) +:+ "." +:+ Concrete.padLeft places (pretty (n mod s))
       end.

(** [x.toFixed(places)] *)
Definition toFixed (places : nat) (x : num) : string :=
  match x with
  | Fin q => if Qltb q 0 then "-" +:+ fixedText places (- q) else fixedText places q
  | Inf s => if s then "-Infinity" else "Infinity"
  | NaN => "NaN"
  end.

(** [parseFloat(x.toFixed(places))] *)
Definition roundFixed (places : nat) (x : num) : num :=
  match x with
  | Fin q =>
      if Qle_bool (inject_Z (10 ^ 21)) (Qabs q) then x
      else let v := (inject_Z (fixedInt places (Qabs q)) / inject_Z (10 ^ Z.of_nat places))%Q in
           num_of_Q (if Qltb q 0 then - v else v)
  | _ => x
  end.

Example toFixed_half : toFixed 2 (Fin (1 # 200)) = "0.01"%string /\ toFixed 1 (Fin (5 # 2)) = "2.5"%string /\
  toFixed 2 (Fin (- (1 # 1000))) = "-0.00"%string /\ toFixed 2 (Fin (inject_Z (15 * 10 ^ 21))) = "1.5e+22"%string.
Proof. vm_compute. done. Qed.
