(* ===== verification/Cache.v ===== *)
(** * The shared cache (src/src/lib/redis.ts, src/src/middleware/cache.middleware.ts)

    The Redis client of a process with its cool-down after a failed connection,
    the JSON cache with a version per namespace, the sorted set of the
    leaderboard, and the middleware that answers from the cache. The commands of
    the server are the interface [RedisStrings]; an attempt to connect is over
    before the next call, and a version is an integer below 2^53. *)

From Stdlib Require Import ZArith QArith Qround Lia Ascii.
From stdpp Require Import base gmap strings list pretty.
From S2P Require Import Prelude.
From S2P Require Import Numeric.
From S2P Require Import Errors.
From S2P Require Import Schema.
From S2P Require Import JsonText.
From S2P Require Import Challenge.
From S2P Require Import Pagination.
From S2P Require Import Digits.

#[local] Open Scope Z_scope.

(** GET, SET with EX and INCR, and the commands of a sorted set, the range from
    the highest score on. [rd_counts k db n]: key [k] was incremented [n]
    times and not written otherwise. *)
Class RedisStrings : Type := {
  rd_db : Type;
  rd_empty : rd_db;
  rd_get : Z -> string -> rd_db -> option string;
  rd_setEX : Z -> string -> string -> Z -> rd_db -> rd_db;
  rd_incr : Z -> string -> rd_db -> rd_db;
  rd_counts : string -> rd_db -> N -> Prop;
  rd_zAdd : string -> num -> string -> rd_db -> rd_db;
  rd_zRem : string -> string -> rd_db -> rd_db;
  rd_del : string -> rd_db -> rd_db;
  rd_zCard : string -> rd_db -> Z;
  rd_zRange : string -> Z -> Z -> rd_db -> list (string * num);
  rd_zRevRank : string -> string -> rd_db -> option Z;
  rd_get_empty : forall now k, rd_get now k rd_empty = None;
  rd_get_set : forall t now k v ex db,
    rd_get t k (rd_setEX now k v ex db) = if t <? now + ex * 1000 then Some v else None;
  rd_get_set_ne : forall t now k k' v ex db, k <> k' -> rd_get t k (rd_setEX now k' v ex db) = rd_get t k db;
  rd_get_incr_ne : forall t now k k' db, k <> k' -> rd_get t k (rd_incr now k' db) = rd_get t k db;
  rd_counts_empty : forall k, rd_counts k rd_empty 0;
  rd_counts_get : forall now k db n, rd_counts k db n -> rd_get now k db = if (n =? 0)%N then None else Some (pretty n);
  rd_counts_incr : forall now k db n, rd_counts k db n -> rd_counts k (rd_incr now k db) (n + 1);
  rd_counts_incr_ne : forall now k k' db n, k <> k' -> rd_counts k db n -> rd_counts k (rd_incr now k' db) n;
  rd_counts_set_ne : forall now k k' v ex db n, k <> k' -> rd_counts k db n -> rd_counts k (rd_setEX now k' v ex db) n;
}.

(** ** The client *)

Record CacheMetrics : Type := mkCacheMetrics {
  cm_enabled : bool;
  cm_hits : nat;
  cm_misses : nat;
  cm_sets : nat;
  cm_invalidations : nat;
  cm_bypasses : nat;
  cm_errors : nat;
}.

(** The module variables of a process. *)
Record RedisProcess : Type := mkRedisProcess {
  rp_client : bool;
  rp_lastRedisFailureAtMs : Z;
  rp_metrics : CacheMetrics;
}.

Definition newRedisProcess : RedisProcess := mkRedisProcess false 0 (mkCacheMetrics false 0 0 0 0 0 0).

Definition isFalseWord (value : option string) : bool :=
  match truthy value with Some v => String.eqb (toLowerCase v) "false" | None => false end.

Section Environment.
Context (env : ProcessEnv).

Definition getRedisUrl : option string :=
  match truthy (env "REDIS_URL") with
  | Some url => if (0 <? String.length (trim url))%nat then Some (trim url) else None
  | None => None
  end.

Definition getRedisCacheEnabled : bool :=
  if isFalseWord (env "REDIS_CACHE_ENABLED") then false else bool_decide (is_Some getRedisUrl).

Definition getRedisCachePrefix : string := default "xelma:cache"%string (truthy (trim <$> env "REDIS_CACHE_PREFIX")).

Definition cooldownMs : num := parseInt (default "10000"%string (truthy (env "REDIS_FAIL_COOLDOWN_MS"))).

Definition isRedisCacheEnabled : bool := getRedisCacheEnabled.

Definition isRedisConfigured : bool := bool_decide (is_Some getRedisUrl).
End Environment.

(** What a call works on. *)
Record CacheWorld `{RedisStrings} : Type := mkCacheWorld {
  cw_now : Z;
  cw_db : rd_db;
  cw_proc : RedisProcess;
}.

(** How a command ends: with its reply, or with an error, before or after the
    server has run it. *)
Inductive Reply : Type := Replied | Lost (ran : bool).

Definition ran (r : Reply) : bool := match r with Replied => true | Lost b => b end.

Section Calls.
Context `{RedisStrings} (env : ProcessEnv).

#[local] Notation Call A := (M CacheWorld Err A).

Definition setProc (f : RedisProcess -> RedisProcess) : Call unit := modify (fun w => w {{ cw_proc := f (cw_proc w) }}).

Definition bump (f : CacheMetrics -> CacheMetrics) : Call unit := setProc (fun p => p {{ rp_metrics := f (rp_metrics p) }}).

Definition noteBypass : Call unit := bump (fun m => m {{ cm_bypasses := S (cm_bypasses m) }}).
Definition noteError : Call unit := bump (fun m => m {{ cm_errors := S (cm_errors m) }}).
Definition noteMiss : Call unit := bump (fun m => m {{ cm_misses := S (cm_misses m) }}).
Definition noteHit : Call unit := bump (fun m => m {{ cm_hits := S (cm_hits m) }}).
Definition noteSet : Call unit := bump (fun m => m {{ cm_sets := S (cm_sets m) }}).
Definition noteInvalidation : Call unit := bump (fun m => m {{ cm_invalidations := S (cm_invalidations m) }}).
Definition setEnabled (b : bool) : Call unit := bump (fun m => m {{ cm_enabled := b }}).

(** The previous failure is too recent. *)
Definition coolingDown (w : CacheWorld) : bool :=
  let last := rp_lastRedisFailureAtMs (cw_proc w) in
  (0 <? last) && num_lt (int (cw_now w - last)) (cooldownMs env).

(** Is there a client? [connects]: an attempt to connect succeeds. *)
Definition ensureClient (respectCacheFlag connects : bool) : Call bool :=
  let shouldEnable := if respectCacheFlag then getRedisCacheEnabled env else true in
  if negb shouldEnable || negb (isRedisConfigured env) then setEnabled false ;;; ret false
  else
    cooling <- gets coolingDown ;;
    if cooling : bool then setEnabled false ;;; noteBypass ;;; ret false
    else
      connected <- gets (fun w => rp_client (cw_proc w)) ;;
      if connected : bool then ret true
      else
        setEnabled true ;;;
        if connects then setProc (fun p => p {{ rp_client := true; rp_lastRedisFailureAtMs := 0 }}) ;;; ret true
        else
          setEnabled false ;;; noteError ;;;
          (fun w => (inr tt, w {{ cw_proc := (cw_proc w) {{ rp_lastRedisFailureAtMs := cw_now w; rp_client := false }} }})) ;;;
          ret false.

Definition getConnectedRedisClient (connects : bool) : Call bool := ensureClient false connects.

Definition closeRedisClient : Call unit := setProc (fun p => p {{ rp_client := false; rp_lastRedisFailureAtMs := 0 }}).

(** A command on the server; [onError] when it fails. *)
Definition command {A} (reply : Reply) (run : CacheWorld -> rd_db) (answer : CacheWorld -> A) (onError : Call A) : Call A :=
  fun w =>
    let a := answer w in
    let w := if ran reply then w {{ cw_db := run w }} else w in
    match reply with
    | Replied => (inr a, w)
    | Lost _ => onError w
    end.

Definition readKey (reply : Reply) (key : string) (onError : Call (option string)) : Call (option string) :=
  command reply cw_db (fun w => rd_get (cw_now w) key (cw_db w)) onError.

(** ** Namespaces *)

Definition namespaceVersionKey (namespace : string) : string :=
  (getRedisCachePrefix env +:+ ":ns:" +:+ namespace +:+ ":version")%string.

Definition getNamespaceVersion (namespace : string) (connects : bool) (reply : Reply) : Call Z :=
  connected <- ensureClient true connects ;;
  if negb connected then ret 0
  else
    raw <- readKey reply (namespaceVersionKey namespace) (noteError ;;; ret None) ;;
    match truthy raw with
    | None => ret 0
    | Some raw => ret (default 0 (parseIntZ raw))
    end.

Definition versionedKey (namespace : string) (version : Z) (rawKey : string) : string :=
  (getRedisCachePrefix env +:+ ":" +:+ namespace +:+ ":v" +:+ pretty version +:+ ":" +:+ rawKey)%string.

Definition makeNamespacedKey (namespace rawKey : string) (connects : bool) (reply : Reply) : Call string :=
  version <- getNamespaceVersion namespace connects reply ;;
  ret (versionedKey namespace version rawKey).

(** What happens to a call before its own command: the attempts to connect, and
    the reading of the version. *)
Record Opening : Type := mkOpening {
  op_connects : bool;
  op_connectsAgain : bool;
  op_version : Reply;
}.

(** The common beginning of reading and writing an entry. *)
Definition openEntry (namespace rawKey : string) (o : Opening) : Call (option string) :=
  connected <- ensureClient true (op_connects o) ;;
  if negb connected then noteBypass ;;; ret None
  else
    key <- makeNamespacedKey namespace rawKey (op_connectsAgain o) (op_version o) ;;
    ret (Some key).

Definition invalidateNamespace (namespace : string) (connects : bool) (reply : Reply) : Call unit :=
  connected <- ensureClient true connects ;;
  if negb connected then noteBypass
  else
    failed <- command reply (fun w => rd_incr (cw_now w) (namespaceVersionKey namespace) (cw_db w)) (fun _ => false) (ret true) ;;
    if failed : bool then noteError else noteInvalidation.

Section Entries.
Context `{JsonText} (parseJson : string -> option Json).

(** [JSON.parse], which may throw, and a text that is not there or empty. *)
Definition finishGet (key : string) (reply : Reply) : Call (option Json) :=
  let failed := noteError ;;; noteMiss ;;; ret None in
  found <- readKey reply key (ret None) ;;
  match reply with
  | Lost _ => failed
  | Replied =>
      match truthy found with
      | None => noteMiss ;;; ret None
      | Some raw =>
          noteHit ;;;
          match parseJson raw with
          | Some value => ret (Some value)
          | None => failed
          end
      end
  end.

Definition getJsonFromCache (namespace rawKey : string) (o : Opening) (reply : Reply) : Call (option Json) :=
  key <- openEntry namespace rawKey o ;;
  match key with
  | None => ret None
  | Some key => finishGet key reply
  end.

Definition safeTtlSeconds (ttlSeconds : num) : Z :=
  match ttlSeconds with
  | Fin q => Z.max 1 (Qfloor q)
  | _ => 60
  end.

Definition finishSet (key : string) (value : Json) (ttlSeconds : num) (reply : Reply) : Call unit :=
  failed <- command reply (fun w => rd_setEX (cw_now w) key (jsonStringify value) (safeTtlSeconds ttlSeconds) (cw_db w))
              (fun _ => false) (ret true) ;;
  if failed : bool then noteError else noteSet.

Definition setJsonToCache (namespace rawKey : string) (value : Json) (ttlSeconds : num) (o : Opening) (reply : Reply) : Call unit :=
  key <- openEntry namespace rawKey o ;;
  match key with
  | None => ret tt
  | Some key => finishSet key value ttlSeconds reply
  end.
End Entries.

(** ** The sorted set of the leaderboard *)

Definition leaderboardZSetKey : string := (getRedisCachePrefix env +:+ ":leaderboard:zset")%string.

(** The shape of its operations: bypass, command, and what is done after it. *)
Definition zsetCommand {A} (connects : bool) (reply : Reply) (run : CacheWorld -> rd_db) (answer : CacheWorld -> A)
    (missing : A) (after : Call unit) : Call A :=
  connected <- ensureClient true connects ;;
  if negb connected then noteBypass ;;; ret missing
  else
    r <- command reply run (fun w => Some (answer w)) (ret None) ;;
    match r with
    | Some a => after ;;; ret a
    | None => noteError ;;; ret missing
    end.

Definition zsetAdd (userId : string) (score : num) (connects : bool) (reply : Reply) : Call unit :=
  zsetCommand connects reply (fun w => rd_zAdd leaderboardZSetKey score userId (cw_db w)) (fun _ => tt) tt (ret tt).

Definition zsetRemove (userId : string) (connects : bool) (reply : Reply) : Call unit :=
  zsetCommand connects reply (fun w => rd_zRem leaderboardZSetKey userId (cw_db w)) (fun _ => tt) tt (ret tt).

Definition zsetCard (connects : bool) (reply : Reply) : Call (option Z) :=
  zsetCommand connects reply cw_db (fun w => Some (rd_zCard leaderboardZSetKey (cw_db w))) None (ret tt).

Definition zsetRangeWithScores (offset limit : Z) (connects : bool) (reply : Reply) : Call (option (list (string * num))) :=
  zsetCommand connects reply cw_db (fun w => Some (rd_zRange leaderboardZSetKey offset (offset + limit - 1) (cw_db w))) None noteHit.

Definition zsetRank (userId : string) (connects : bool) (reply : Reply) : Call (option Z) :=
  zsetCommand connects reply cw_db (fun w => rd_zRevRank leaderboardZSetKey userId (cw_db w)) None (ret tt).

Definition invalidateLeaderboardSortedSet (connects : bool) (reply : Reply) : Call unit :=
  zsetCommand connects reply (fun w => rd_del leaderboardZSetKey (cw_db w)) (fun _ => tt) tt noteInvalidation.
End Calls.

(** ** The middleware *)

Section Middleware.
Context `{RedisStrings} `{JsonText} (env : ProcessEnv) (parseJson : string -> option Json).

(** A request whose answer may come from the cache: [handler] gives status and
    body; what is sent is stored, which nobody waits for. *)
Definition cacheJsonResponse (namespace rawKey : string) (ttlSeconds : num) (oGet oSet : Opening) (get set : Reply)
    (handler : M CacheWorld Err (Z * Json)) : M CacheWorld Err (Z * Json) :=
  if negb (isRedisCacheEnabled env) then handler
  else
    cached <- getJsonFromCache env parseJson namespace rawKey oGet get ;;
    let uncached :=
      r <- handler ;;
      when ((200 <=? fst r) && (fst r <? 300)) (setJsonToCache env namespace rawKey (snd r) ttlSeconds oSet set) ;;;
      ret r in
    match cached with
    | Some value => if jsonTruthy value then ret (200, value) else uncached
    | None => uncached
    end.
End Middleware.

(** ** Calls at the same time

    A call is cut between its opening, which fixes the key, and its command;
    [id] names the call. Any number of processes share the server. *)

Inductive CacheEvent : Type :=
| BeginGet (id process : nat) (namespace rawKey : string) (o : Opening)
| EndGet (id : nat) (reply : Reply)
| BeginSet (id process : nat) (namespace rawKey : string) (value : Json) (ttlSeconds : num) (o : Opening)
| EndSet (id : nat) (reply : Reply)
| Invalidate (process : nat) (namespace : string) (connects : bool) (reply : Reply)
| Close (process : nat)
| PassTime (ms : nat).

(** A call before its command; [at_] is the number of events before it began. *)
Inductive OpenCall : Type :=
| OpenGet (process at_ : nat) (namespace rawKey key : string)
| OpenSet (process : nat) (key : string) (value : Json) (ttlSeconds : num).

(** A value that was read by a call between two events. *)
Record CacheAnswer : Type := mkAnswer {
  an_at : nat;
  an_until : nat;
  an_namespace : string;
  an_rawKey : string;
  an_key : string;
  an_value : Json;
}.

Record CacheSystem `{RedisStrings} : Type := mkCacheSystem {
  cs_now : Z;
  cs_db : rd_db;
  cs_procs : gmap nat RedisProcess;
  cs_open : gmap nat OpenCall;
  cs_answers : list CacheAnswer;
  cs_steps : nat;
}.

Section System.
Context `{RedisStrings} `{JsonText} (env : ProcessEnv) (parseJson : string -> option Json).

Definition newCacheSystem (now : Z) : CacheSystem := mkCacheSystem _ now rd_empty ∅ ∅ [] 0.

Definition onProcess {A} (p : nat) (m : M CacheWorld Err A) (y : CacheSystem) : (Err + A) * CacheSystem :=
  let '(r, w) := m (mkCacheWorld _ (cs_now y) (cs_db y) (default newRedisProcess (cs_procs y !! p))) in
  (r, y {{ cs_db := cw_db w; cs_procs := <[p := cw_proc w]> (cs_procs y) }}).

Definition openCall (id : nat) (c : OpenCall) (y : CacheSystem) : CacheSystem := y {{ cs_open := <[id := c]> (cs_open y) }}.

Definition doneCall (id : nat) (y : CacheSystem) : CacheSystem := y {{ cs_open := delete id (cs_open y) }}.

Definition doCache (e : CacheEvent) (y : CacheSystem) : CacheSystem :=
  match e with
  | BeginGet id p namespace rawKey o =>
      match onProcess p (openEntry env namespace rawKey o) y with
      | (inr (Some key), y) => openCall id (OpenGet p (cs_steps y) namespace rawKey key) y
      | (_, y) => y
      end
  | EndGet id reply =>
      match cs_open y !! id with
      | Some (OpenGet p at_ namespace rawKey key) =>
          match onProcess p (finishGet parseJson key reply) y with
          | (inr (Some value), y) => doneCall id (y {{ cs_answers := cs_answers y ++ [mkAnswer at_ (cs_steps y) namespace rawKey key value] }})
          | (_, y) => doneCall id y
          end
      | _ => y
      end
  | BeginSet id p namespace rawKey value ttlSeconds o =>
      match onProcess p (openEntry env namespace rawKey o) y with
      | (inr (Some key), y) => openCall id (OpenSet p key value ttlSeconds) y
      | (_, y) => y
      end
  | EndSet id reply =>
      match cs_open y !! id with
      | Some (OpenSet p key value ttlSeconds) => doneCall id (snd (onProcess p (finishSet key value ttlSeconds reply) y))
      | _ => y
      end
  | Invalidate p namespace connects reply => snd (onProcess p (invalidateNamespace env namespace connects reply) y)
  | Close p => snd (onProcess p closeRedisClient y)
  | PassTime ms => y {{ cs_now := cs_now y + Z.of_nat ms }}
  end.

Definition cacheStep (y : CacheSystem) (e : CacheEvent) : CacheSystem :=
  let y := doCache e y in y {{ cs_steps := S (cs_steps y) }}.

Definition runCache (now : Z) (events : list CacheEvent) : CacheSystem := foldl cacheStep (newCacheSystem now) events.

(** The version the server has for a namespace: how often it was invalidated. *)
Definition servedVersion (namespace : string) (y : CacheSystem) : Z :=
  match truthy (rd_get (cs_now y) (namespaceVersionKey env namespace) (cs_db y)) with
  | Some raw => default 0 (parseIntZ raw)
  | None => 0
  end.
End System.

(** A namespace that keys can be told apart by. *)
Definition plainNamespace (namespace : string) : bool :=
  negb (hasChar ":" namespace) && negb (String.eqb namespace "ns").

Definition plainEvent (e : CacheEvent) : bool :=
  match e with
  | BeginGet _ _ namespace _ _ | BeginSet _ _ namespace _ _ _ _ | Invalidate _ namespace _ _ => plainNamespace namespace
  | _ => true
  end.

(** ** Keys *)

Section Keys.
Context (env : ProcessEnv).

Local Open Scope string_scope.

Lemma versionedKey_eq ns ns' n n' raw raw' : plainNamespace ns = true -> plainNamespace ns' = true ->
  versionedKey env ns (Z.of_N n) raw = versionedKey env ns' (Z.of_N n') raw' -> ns = ns' /\ n = n' /\ raw = raw'.
Proof.
  intros [Hc%negb_true_iff _]%andb_true_iff [Hc'%negb_true_iff _]%andb_true_iff E. unfold versionedKey in E.
  rewrite !pretty_of_N in E. apply (inj (String.append _)) in E. cbn in E. injection E as E.
  apply split_unique in E as [-> E]; [|done..]. split; [done|]. injection E as E.
  apply split_unique in E as [E ->]; try (apply (hasChar_allChars isDigit); [done|apply pretty_digits]).
  split; [by apply (inj pretty)|done].
Qed.

Lemma versionKey_eq ns ns' : namespaceVersionKey env ns = namespaceVersionKey env ns' -> plainNamespace ns = true ->
  plainNamespace ns' = true -> ns = ns'.
Proof.
  intros E [Hc%negb_true_iff _]%andb_true_iff [Hc'%negb_true_iff _]%andb_true_iff. unfold namespaceVersionKey in E.
  apply (inj (String.append _)), (inj (String.append _)) in E. by apply split_unique in E as [-> _].
Qed.

Lemma versionedKey_versionKey ns ns' n raw : plainNamespace ns = true -> versionedKey env ns n raw <> namespaceVersionKey env ns'.
Proof.
  intros [Hc%negb_true_iff Hns%negb_true_iff]%andb_true_iff E. unfold versionedKey, namespaceVersionKey in E.
  apply (inj (String.append _)) in E. cbn in E. injection E as E.
  change ("ns:" +:+ ns' +:+ ":version") with ("ns" +:+ String ":" (ns' +:+ ":version")) in E.
  apply split_unique in E as [-> _]; done.
Qed.
End Keys.

(** ** What a call does to the server *)

Section Effects.
Context `{RedisStrings} (env : ProcessEnv).

(** [m] returns something [P] holds of and leaves the server alone. *)
Definition quiet {A} (m : M CacheWorld Err A) (P : CacheWorld -> A -> Prop) : Prop :=
  forall w, exists a w', m w = (inr a, w') /\ cw_db w' = cw_db w /\ cw_now w' = cw_now w /\ P w a.

Lemma quiet_ret {A} (a : A) (P : CacheWorld -> A -> Prop) : (forall w, P w a) -> quiet (ret a) P.
Proof. intros Ha w. by exists a, w. Qed.

Lemma quiet_gets {A} (f : CacheWorld -> A) : quiet (gets f) (fun w a => a = f w).
Proof. intros w. by exists (f w), w. Qed.

Lemma quiet_setProc f : quiet (setProc f) (fun _ _ => True).
Proof. intros w. by eexists tt, _. Qed.

Lemma quiet_bind {A B} (m : M CacheWorld Err A) (k : A -> M CacheWorld Err B) P Q :
  quiet m P -> (forall a, quiet (k a) (fun w b => forall w0, cw_db w = cw_db w0 -> cw_now w = cw_now w0 -> P w0 a -> Q w0 b)) ->
  quiet (bind m k) Q.
Proof.
  intros Hm Hk w. destruct (Hm w) as (a & w1 & E1 & Hd1 & Ht1 & HP). destruct (Hk a w1) as (b & w2 & E2 & Hd2 & Ht2 & HQ).
  exists b, w2. rewrite (bind_ok _ _ _ _ _ E1). split_and!; [done|congruence|congruence|]. by apply HQ.
Qed.

Lemma quiet_seq {A B} (m : M CacheWorld Err A) (k : A -> M CacheWorld Err B) (Q : CacheWorld -> B -> Prop) :
  (forall w w' b, cw_db w = cw_db w' -> cw_now w = cw_now w' -> Q w b -> Q w' b) ->
  quiet m (fun _ _ => True) -> (forall a, quiet (k a) Q) -> quiet (bind m k) Q.
Proof.
  intros HQ Hm Hk. eapply quiet_bind; [exact Hm|]. intros a w. destruct (Hk a w) as (b & w' & E & Hd & Ht & Hb).
  exists b, w'. split_and!; [done..|]. intros w0 E1 E2 _. by eapply HQ.
Qed.

Lemma quiet_weaken {A} (m : M CacheWorld Err A) (P Q : CacheWorld -> A -> Prop) : quiet m P -> (forall w a, P w a -> Q w a) -> quiet m Q.
Proof. intros Hm Hpq w. destruct (Hm w) as (a & w' & ? & ? & ? & ?). exists a, w'. auto. Qed.

Lemma quiet_any {A} (m : M CacheWorld Err A) P : quiet m P -> quiet m (fun _ _ => True).
Proof. intros Hm. by eapply quiet_weaken. Qed.

(** The steps that count, and what follows them. *)
Ltac quietly := repeat first
  [ apply quiet_ret; done
  | apply (quiet_any _ _ (quiet_gets _))
  | apply quiet_setProc
  | apply quiet_seq; [done| |intros ?]
  | case_match ].

Lemma ensureClient_quiet flag connects : quiet (ensureClient env flag connects) (fun _ _ => True).
Proof.
  unfold ensureClient, setEnabled, noteBypass, noteError, bump. quietly. all: intros w; by eexists tt, _.
Qed.

Lemma bump_quiet f : quiet (bump f) (fun _ _ => True).
Proof. apply quiet_setProc. Qed.

Lemma readKey_quiet reply key onError (P : CacheWorld -> option string -> Prop) :
  (forall w, P w (rd_get (cw_now w) key (cw_db w))) -> quiet onError P -> quiet (readKey reply key onError) P.
Proof.
  intros HP He w. unfold readKey, command. pose proof (HP w). destruct w. destruct reply as [|[]]; cbn in *.
  - eexists _, _. by split_and!.
  - apply He.
  - apply He.
Qed.

(** The version the server has, as a call sees it. *)
Definition versionIn (namespace : string) (w : CacheWorld) : Z :=
  match truthy (rd_get (cw_now w) (namespaceVersionKey env namespace) (cw_db w)) with
  | Some raw => default 0 (parseIntZ raw)
  | None => 0
  end.

Lemma getNamespaceVersion_quiet ns connects reply :
  quiet (getNamespaceVersion env ns connects reply) (fun w v => v = 0 \/ v = versionIn ns w).
Proof.
  unfold getNamespaceVersion. apply quiet_seq; [|apply ensureClient_quiet|].
  { intros w w' b Hd Ht Hv. unfold versionIn in *. by rewrite <- Hd, <- Ht. }
  intros [|]; cbn [negb]; [|by apply quiet_ret; left].
  eapply (quiet_bind _ _ (fun w raw => raw = None \/ raw = rd_get (cw_now w) (namespaceVersionKey env ns) (cw_db w))).
  - apply readKey_quiet; [by right|]. unfold noteError. apply quiet_seq; [|apply bump_quiet|intros _; by apply quiet_ret; left].
    intros w w' b -> ->. done.
  - intros raw. destruct (truthy raw) as [s|] eqn:Er; apply quiet_ret; intros w w0 Hd Ht [->| ->].
    + done.
    + right. unfold versionIn. by rewrite Er.
    + by left.
    + by left.
Qed.

Lemma openEntry_quiet ns rawKey o : quiet (openEntry env ns rawKey o) (fun w key =>
  forall k, key = Some k -> exists v, k = versionedKey env ns v rawKey /\ (v = 0 \/ v = versionIn ns w)).
Proof.
  unfold openEntry. apply quiet_seq; [|apply ensureClient_quiet|].
  { intros w w' b Hd Ht Hv. unfold versionIn in *. by rewrite <- Hd, <- Ht. }
  intros [|]; cbn [negb].
  - eapply quiet_bind.
    + unfold makeNamespacedKey. eapply (quiet_bind _ _ _ (fun w k => exists v, k = versionedKey env ns v rawKey /\ (v = 0 \/ v = versionIn ns w))).
      * apply getNamespaceVersion_quiet.
      * intros v. apply quiet_ret. intros w w0 Hd Ht Hv. eauto.
    + intros k. apply quiet_ret. intros w w0 Hd Ht (v & -> & Hv) k' [= <-]. eauto.
  - unfold noteBypass. apply quiet_seq; [|apply bump_quiet|intros _; by apply quiet_ret].
    intros w w' b Hd Ht Hv. unfold versionIn in *. by rewrite <- Hd, <- Ht.
Qed.

Section Texts.
Context `{JsonText} (parseJson : string -> option Json).

Lemma finishGet_quiet key reply : quiet (finishGet parseJson key reply) (fun w r =>
  forall value, r = Some value -> exists raw, rd_get (cw_now w) key (cw_db w) = Some raw /\ parseJson raw = Some value).
Proof.
  unfold finishGet. eapply (quiet_bind _ _ (fun w found => found = None \/ found = rd_get (cw_now w) key (cw_db w))).
  { apply readKey_quiet; [by right|]. by apply quiet_ret; left. }
  intros found.
  assert (Hfailed : forall P : CacheWorld -> option Json -> Prop, (forall w, P w None) ->
            (forall w w' b, cw_db w = cw_db w' -> cw_now w = cw_now w' -> P w b -> P w' b) ->
            quiet (noteError ;;; noteMiss ;;; ret None) P).
  { intros P Hn Hc. apply quiet_seq; [done|apply bump_quiet|intros _]. apply quiet_seq; [done|apply bump_quiet|intros _]. by apply quiet_ret. }
  assert (Hinv : forall (w w' : CacheWorld) (b : option Json), cw_db w = cw_db w' -> cw_now w = cw_now w' ->
    (forall w0, cw_db w = cw_db w0 -> cw_now w = cw_now w0 -> found = None \/ found = rd_get (cw_now w0) key (cw_db w0) ->
      forall value, b = Some value -> exists raw, rd_get (cw_now w0) key (cw_db w0) = Some raw /\ parseJson raw = Some value) ->
    forall w0, cw_db w' = cw_db w0 -> cw_now w' = cw_now w0 -> found = None \/ found = rd_get (cw_now w0) key (cw_db w0) ->
      forall value, b = Some value -> exists raw, rd_get (cw_now w0) key (cw_db w0) = Some raw /\ parseJson raw = Some value).
  { intros w w' b Hd Ht Hb w0 E1 E2. apply Hb; congruence. }
  destruct reply; [|by apply Hfailed].
  destruct (truthy found) as [raw|] eqn:Ef.
  - apply quiet_seq; [exact Hinv|apply bump_quiet|intros _]. destruct (parseJson raw) as [value|] eqn:Ep; [|by apply Hfailed].
    apply quiet_ret. intros w w0 _ _ [->|Hf] ? [= <-]; [done|]. exists raw. split; [|done]. rewrite <- Hf.
    unfold truthy in Ef. destruct found as [s|]; [|done]. by destruct (String.eqb s ""); simplify_eq.
  - apply quiet_seq; [exact Hinv|apply bump_quiet|intros _]. by apply quiet_ret.
Qed.

(** A command that is followed by counting only. *)
Lemma command_spec {A} reply run (answer : CacheWorld -> A) onError (k : A -> M CacheWorld Err unit) w :
  (forall w, exists a, onError w = (inr a, w)) -> (forall a, quiet (k a) (fun _ _ => True)) ->
  exists w', (a <- command reply run answer onError ;; k a) w = (inr tt, w') /\
    cw_db w' = (if ran reply then run w else cw_db w) /\ cw_now w' = cw_now w.
Proof.
  intros He Hk. assert (exists a w1, command reply run answer onError w = (inr a, w1) /\
    cw_db w1 = (if ran reply then run w else cw_db w) /\ cw_now w1 = cw_now w) as (a & w1 & E & Hd & Ht).
  { unfold command. destruct reply as [|[]]; cbn; [by eexists _, _| |];
      match goal with |- context [onError ?x] => destruct (He x) as [a ->] end; by eexists _, _. }
  rewrite (bind_ok _ _ _ _ _ E). destruct (Hk a w1) as ([] & w2 & E2 & Hd2 & Ht2 & _). exists w2. split_and!; congruence.
Qed.

Lemma finishSet_spec key value ttl reply w : exists w', finishSet key value ttl reply w = (inr tt, w') /\ cw_now w' = cw_now w /\
  cw_db w' = if ran reply then rd_setEX (cw_now w) key (jsonStringify value) (safeTtlSeconds ttl) (cw_db w) else cw_db w.
Proof.
  destruct (command_spec reply (fun w => rd_setEX (cw_now w) key (jsonStringify value) (safeTtlSeconds ttl) (cw_db w)) (fun _ => false)
    (ret true) (fun failed : bool => if failed then noteError else noteSet) w) as (w' & E & Hd & Ht).
  - intros w1. by exists true.
  - intros []; apply bump_quiet.
  - by exists w'.
Qed.
End Texts.

Lemma invalidateNamespace_spec ns connects reply w : exists w', invalidateNamespace env ns connects reply w = (inr tt, w') /\
  cw_now w' = cw_now w /\ (cw_db w' = cw_db w \/ cw_db w' = rd_incr (cw_now w) (namespaceVersionKey env ns) (cw_db w)).
Proof.
  unfold invalidateNamespace. destruct (ensureClient_quiet true connects w) as (b & w1 & E & Hd & Ht & _).
  rewrite (bind_ok _ _ _ _ _ E). destruct b; cbn [negb].
  - destruct (command_spec reply (fun w => rd_incr (cw_now w) (namespaceVersionKey env ns) (cw_db w)) (fun _ => false)
      (ret true) (fun failed : bool => if failed then noteError else noteInvalidation) w1) as (w' & E' & Hd' & Ht').
    + intros w2. by exists true.
    + intros []; apply bump_quiet.
    + exists w'. rewrite E', Hd'. split_and!; [done|congruence|]. destruct (ran reply); [right|left]; congruence.
  - destruct (bump_quiet (fun m => m {{ cm_bypasses := S (cm_bypasses m) }}) w1) as ([] & w' & E' & Hd' & Ht' & _).
    exists w'. split_and!; [done|congruence|left; congruence].
Qed.
End Effects.

(** ** What is read was stored since the last invalidation *)

Section Fresh.
Context `{RedisStrings} `{JsonText} (env : ProcessEnv) (parseJson : string -> option Json) (now0 : Z).

#[local] Notation run := (runCache env parseJson now0).
#[local] Notation step := (cacheStep env parseJson).

(** The version of a namespace when [n] of the events had happened. *)
Definition versionAt (events : list CacheEvent) (n : nat) (ns : string) : Z := servedVersion env ns (run (take n events)).

(** Event [q] is a call that stores [value]. *)
Definition storesAt (events : list CacheEvent) (q : nat) (ns rawKey : string) (value : Json) : Prop :=
  exists id p ttl o, events !! q = Some (BeginSet id p ns rawKey value ttl o).

(** [value] was stored for a version that was not yet superseded. *)
Definition storedFor (events : list CacheEvent) (before : nat) (ns rawKey : string) (version : Z) (text : string) : Prop :=
  exists q value, (q < before)%nat /\ storesAt events q ns rawKey value /\ text = jsonStringify value /\ version <= versionAt events q ns.

Definition answerOk (events : list CacheEvent) (a : CacheAnswer) : Prop :=
  plainNamespace (an_namespace a) = true /\ (an_at a <= length events)%nat /\
  exists n text, an_key a = versionedKey env (an_namespace a) (Z.of_N n) (an_rawKey a) /\
    parseJson text = Some (an_value a) /\ storedFor events (an_until a) (an_namespace a) (an_rawKey a) (Z.of_N n) text.

Record cacheInv (events : list CacheEvent) (y : CacheSystem) : Prop := {
  ci_steps : cs_steps y = length events;
  ci_counts : forall ns, plainNamespace ns = true -> exists n, rd_counts (namespaceVersionKey env ns) (cs_db y) n;
  ci_entries : forall t ns n rawKey text, plainNamespace ns = true ->
    rd_get t (versionedKey env ns (Z.of_N n) rawKey) (cs_db y) = Some text -> storedFor events (length events) ns rawKey (Z.of_N n) text;
  ci_sets : forall id p key value ttl, cs_open y !! id = Some (OpenSet p key value ttl) ->
    exists ns n rawKey, plainNamespace ns = true /\ key = versionedKey env ns (Z.of_N n) rawKey /\
      storedFor events (length events) ns rawKey (Z.of_N n) (jsonStringify value);
  ci_gets : forall id p at_ ns rawKey key, cs_open y !! id = Some (OpenGet p at_ ns rawKey key) ->
    plainNamespace ns = true /\ (at_ <= length events)%nat /\ exists n, key = versionedKey env ns (Z.of_N n) rawKey;
  ci_answers : Forall (answerOk events) (cs_answers y);
}.

Lemma counts_version k db n t : rd_counts k db n ->
  match truthy (rd_get t k db) with Some raw => default 0 (parseIntZ raw) | None => 0 end = Z.of_N n.
Proof.
  intros Hn. rewrite (rd_counts_get t _ _ _ Hn). destruct (N.eqb_spec n 0) as [->|]; [done|].
  by rewrite pretty_truthy, parseIntZ_pretty.
Qed.

Lemma served_count events y ns : cacheInv events y -> plainNamespace ns = true -> exists n, servedVersion env ns y = Z.of_N n.
Proof. intros Hi Hns. destruct (ci_counts _ _ Hi ns Hns) as [n Hn]. exists n. by apply counts_version. Qed.

Lemma storedFor_snoc events e b b' ns rawKey v text : storedFor events b ns rawKey v text -> (b <= b')%nat ->
  storedFor (events ++ [e]) b' ns rawKey v text.
Proof.
  intros (q & value & Hb & (id & p & ttl & o & Hq) & -> & Hv) Hle. exists q, value. pose proof (lookup_lt_Some _ _ _ Hq).
  split_and!; [lia| |done|].
  - exists id, p, ttl, o. by rewrite lookup_app_l.
  - unfold versionAt in *. by rewrite take_app_le by lia.
Qed.

Lemma openEntry_system events y ns rawKey o p : cacheInv events y -> plainNamespace ns = true ->
  exists key proc', onProcess p (openEntry env ns rawKey o) y = (inr key, y {{ cs_procs := <[p := proc']> (cs_procs y) }}) /\
    forall k, key = Some k -> exists n, k = versionedKey env ns (Z.of_N n) rawKey /\ Z.of_N n <= servedVersion env ns y.
Proof.
  intros Hi Hns. unfold onProcess.
  destruct (openEntry_quiet env ns rawKey o (mkCacheWorld _ (cs_now y) (cs_db y) (default newRedisProcess (cs_procs y !! p))))
    as (key & w' & E & Hd & _ & Hk). exists key, (cw_proc w'). rewrite E, Hd. split; [by destruct y|].
  intros k Ek. destruct (Hk k Ek) as (v & -> & Hv). destruct (served_count _ _ _ Hi Hns) as [n Hn].
  change (versionIn env ns _) with (servedVersion env ns y) in Hv. destruct Hv as [->| ->]; [exists 0%N; split; [done|lia]|].
  exists n. rewrite Hn. split; [done|lia].
Qed.

(** What was stored stays stored. *)
Lemma storedFor_grows events e ns rawKey v text : storedFor events (length events) ns rawKey v text ->
  storedFor (events ++ [e]) (length (events ++ [e])) ns rawKey v text.
Proof. intros Hs. eapply storedFor_snoc; [exact Hs|]. rewrite length_app. lia. Qed.

Lemma answerOk_snoc events e a : answerOk events a -> answerOk (events ++ [e]) a.
Proof.
  intros (? & ? & n & text & ? & ? & ?). split_and!; [done|rewrite length_app; lia|]. exists n, text. eauto using storedFor_snoc.
Qed.

(** Everything but the server and the calls may change freely. *)
Lemma cacheInv_same events y y' e : cacheInv events y -> cs_steps y' = S (cs_steps y) -> cs_db y' = cs_db y ->
  (forall id c, cs_open y' !! id = Some c -> cs_open y !! id = Some c) -> cs_answers y' = cs_answers y ->
  cacheInv (events ++ [e]) y'.
Proof.
  intros [H1 H2 H3 H4 H5 H6] Hs Hd Ho Ha. split.
  - by rewrite Hs, H1, length_app, Nat.add_comm.
  - by rewrite Hd.
  - intros *. rewrite Hd. intros Hns Hg. eapply storedFor_grows, H3; eauto.
  - intros * Hg%Ho. destruct (H4 _ _ _ _ _ Hg) as (ns & n & rawKey & ? & ? & ?). exists ns, n, rawKey. eauto using storedFor_grows.
  - intros * Hg%Ho. rewrite length_app. destruct (H5 _ _ _ _ _ _ Hg) as (? & ? & ?). split_and!; [done|lia|done].
  - rewrite Ha. eapply Forall_impl; [exact H6|]. intros a. apply answerOk_snoc.
Qed.
(** A value begins to be stored at the version the server has. *)
Lemma storedFor_now events y id p ns rawKey value ttl o v : y = run events -> plainNamespace ns = true -> v <= servedVersion env ns y ->
  storedFor (events ++ [BeginSet id p ns rawKey value ttl o]) (length (events ++ [BeginSet id p ns rawKey value ttl o]))
    ns rawKey v (jsonStringify value).
Proof.
  intros -> Hns Hv. exists (length events), value. split_and!.
  - rewrite length_app. cbn. lia.
  - exists id, p, ttl, o. by rewrite lookup_app_r, Nat.sub_diag by lia.
  - done.
  - unfold versionAt. by rewrite take_app_length.
Qed.

Lemma cacheInv_begin events y e id c proc' p : cacheInv events y ->
  match c with
  | OpenSet _ key value _ => exists ns n rawKey, plainNamespace ns = true /\ key = versionedKey env ns (Z.of_N n) rawKey /\
      storedFor (events ++ [e]) (length (events ++ [e])) ns rawKey (Z.of_N n) (jsonStringify value)
  | OpenGet _ at_ ns rawKey key =>
      plainNamespace ns = true /\ at_ = length events /\ exists n, key = versionedKey env ns (Z.of_N n) rawKey
  end ->
  cacheInv (events ++ [e])
    (let y := openCall id c (y {{ cs_procs := <[p := proc']> (cs_procs y) }}) in y {{ cs_steps := S (cs_steps y) }}).
Proof.
  intros Hi Hc. pose proof (cacheInv_same events y (y {{ cs_steps := S (cs_steps y) }}) e Hi eq_refl eq_refl ltac:(done) eq_refl)
    as [H1 H2 H3 H4 H5 H6].
  split; cbn in *; try done.
  - intros id' p' key value ttl Hl. destruct (decide (id' = id)) as [->|Hne]; [|rewrite lookup_insert_ne in Hl by done; eauto].
    rewrite lookup_insert_eq in Hl. by simplify_eq.
  - intros id' p' at_ ns rawKey key Hl. destruct (decide (id' = id)) as [->|Hne]; [|rewrite lookup_insert_ne in Hl by done; eauto].
    rewrite lookup_insert_eq in Hl. simplify_eq. destruct Hc as (? & -> & ?). split_and!; [done|rewrite length_app; lia|done].
Qed.

(** Ending a call leaves the other calls open. *)
Lemma done_open (y : CacheSystem) id id' c : delete id (cs_open y) !! id' = Some c -> cs_open y !! id' = Some c.
Proof. rewrite lookup_delete_Some. by intros []. Qed.

#[local] Notation stepped y := (y {{ cs_steps := S (cs_steps y) }}).

(** The invariant of a step that only ends a call. *)
Lemma cacheInv_done events y e id : cacheInv events y -> cacheInv (events ++ [e]) (doneCall id (stepped y)).
Proof. intros Hi. apply (cacheInv_same _ y); [done..| |done]. intros id' c. exact (done_open y id id' c). Qed.

Lemma cacheInv_endGet events y id reply : cacheInv events y -> cacheInv (events ++ [EndGet id reply]) (step y (EndGet id reply)).
Proof.
  intros Hi. unfold cacheStep. cbn [doCache].
  destruct (cs_open y !! id) as [[p at_ ns rawKey key|]|] eqn:Eo; [|by apply (cacheInv_same _ y)..]. unfold onProcess.
  destruct (finishGet_quiet parseJson key reply (mkCacheWorld _ (cs_now y) (cs_db y) (default newRedisProcess (cs_procs y !! p))))
    as (r & w' & -> & Hd & _ & Hr). destruct (ci_gets _ _ Hi _ _ _ _ _ _ Eo) as (Hns & Hat & n & ->). cbn in Hd.
  destruct r as [value|]; [|apply (cacheInv_same _ y); [done..| |done]; intros id' c; exact (done_open y id id' c)].
  destruct (Hr value eq_refl) as (text & Hget & Hparse). cbn in Hget.
  destruct (cacheInv_done events y (EndGet id reply) id Hi) as [H1 H2 H3 H4 H5 H6].
  split; cbn in *; rewrite ?Hd; try done. apply Forall_app. split; [done|]. apply Forall_singleton.
  pose proof (ci_entries _ _ Hi _ _ _ _ _ Hns Hget) as Hst. split_and!; cbn; [done|rewrite length_app; lia|].
  exists n, text. split_and!; [done..|]. eapply storedFor_snoc; [exact Hst|]. pose proof (ci_steps _ _ Hi) as Hst2. unfold cs_steps in *. by rewrite Hst2.
Qed.

Lemma cacheInv_endSet events y id reply : cacheInv events y -> cacheInv (events ++ [EndSet id reply]) (step y (EndSet id reply)).
Proof.
  intros Hi. unfold cacheStep. cbn [doCache].
  destruct (cs_open y !! id) as [[|p key value ttl]|] eqn:Eo; [by apply (cacheInv_same _ y)| |by apply (cacheInv_same _ y)]. unfold onProcess.
  destruct (finishSet_spec key value ttl reply (mkCacheWorld _ (cs_now y) (cs_db y) (default newRedisProcess (cs_procs y !! p))))
    as (w' & -> & _ & Hd). cbn [snd cw_now cw_db] in *.
  destruct (cacheInv_done events y (EndSet id reply) id Hi) as [H1 H2 H3 H4 H5 H6].
  destruct (ci_sets _ _ Hi _ _ _ _ _ Eo) as (ns & n & rawKey & Hns & -> & Hst).
  split; cbn in *; rewrite ?Hd; try done; destruct (ran reply); try done.
  - intros ns' Hns'. destruct (H2 ns' Hns') as [m Hm]. exists m. apply rd_counts_set_ne; [|done].
    intros Ek. symmetry in Ek. by eapply versionedKey_versionKey in Ek.
  - intros t ns' n' rawKey' text Hns' Hget.
    destruct (decide (versionedKey env ns' (Z.of_N n') rawKey' = versionedKey env ns (Z.of_N n) rawKey)) as [Ek|Hne].
    + apply versionedKey_eq in Ek as (-> & -> & ->); [|done..]. rewrite rd_get_set in Hget.
      destruct (_ <? _); [|done]. injection Hget as <-. by apply storedFor_grows.
    + rewrite rd_get_set_ne in Hget by done. eauto.
Qed.

Lemma cacheInv_invalidate events y p ns connects reply : cacheInv events y -> plainNamespace ns = true ->
  cacheInv (events ++ [Invalidate p ns connects reply]) (step y (Invalidate p ns connects reply)).
Proof.
  intros Hi Hp. unfold cacheStep. cbn [doCache]. unfold onProcess.
  destruct (invalidateNamespace_spec env ns connects reply (mkCacheWorld _ (cs_now y) (cs_db y) (default newRedisProcess (cs_procs y !! p))))
    as (w' & -> & _ & Hd). cbn [snd cw_now cw_db] in *.
  assert (Hs : cacheInv (events ++ [Invalidate p ns connects reply]) (stepped y)) by by apply (cacheInv_same _ y).
  destruct Hs as [H1 H2 H3 H4 H5 H6].
  destruct Hd as [Hd|Hd]; split; cbn in *; rewrite ?Hd; try done.
  - intros ns' Hns'. destruct (H2 ns' Hns') as [m Hm].
    destruct (decide (ns' = ns)) as [->|Hne]; [eexists; by apply rd_counts_incr|]. exists m. apply rd_counts_incr_ne; [|done].
    intros Ek. by apply versionKey_eq in Ek.
  - intros t ns' n' rawKey' text Hns' Hget. rewrite rd_get_incr_ne in Hget by (by apply versionedKey_versionKey). eauto.
Qed.

Lemma cacheInv_step events e : plainEvent e = true -> cacheInv events (run events) -> cacheInv (events ++ [e]) (run (events ++ [e])).
Proof.
  intros Hp Hi. assert (Er : run (events ++ [e]) = step (run events) e) by (unfold runCache; by rewrite foldl_app). rewrite Er. clear Er.
  remember (run events) as y eqn:Ey.
  destruct e as [id p ns rawKey o|id reply|id p ns rawKey value ttl o|id reply|p ns connects reply|p|ms].
  - unfold cacheStep. cbn [doCache]. destruct (openEntry_system events y ns rawKey o p Hi Hp) as (key & proc' & -> & Hk).
    destruct key as [key|]; [|by apply (cacheInv_same _ y)].
    apply (cacheInv_begin _ y); [exact Hi|]. destruct (Hk key eq_refl) as (n & -> & _).
    split_and!; [done|apply (ci_steps _ _ Hi)|eauto].
  - by apply cacheInv_endGet.
  - unfold cacheStep. cbn [doCache]. destruct (openEntry_system events y ns rawKey o p Hi Hp) as (key & proc' & -> & Hk).
    destruct key as [key|]; [|by apply (cacheInv_same _ y)].
    apply (cacheInv_begin _ y); [exact Hi|]. destruct (Hk key eq_refl) as (n & -> & Hn).
    exists ns, n, rawKey. split_and!; [done..|]. by apply (storedFor_now _ y).
  - by apply cacheInv_endSet.
  - by apply cacheInv_invalidate.
  - by apply (cacheInv_same _ y).
  - by apply (cacheInv_same _ y).
Qed.

Lemma cacheInv_run events : Forall (fun e => plainEvent e = true) events -> cacheInv events (run events).
Proof.
  induction events as [|e events IH] using rev_ind.
  - intros _. split; cbn; try done.
    + intros ns _. exists 0%N. apply rd_counts_empty.
    + intros *. by rewrite rd_get_empty.
  - intros [Hs [He _]%Forall_cons]%Forall_app. apply cacheInv_step; auto.
Qed.

(** C16. However calls of any processes overlap, fail, or reach the server and
    lose the reply: what a call reads under the version the server had when it
    began was stored, in this namespace and under this key, by a call that
    began before the reading ended and after every invalidation that was done
    when the reading began. *)
Theorem cache_fresh events a : Forall (fun e => plainEvent e = true) events -> a ∈ cs_answers (run events) ->
  an_key a = versionedKey env (an_namespace a) (versionAt events (an_at a) (an_namespace a)) (an_rawKey a) ->
  exists q value, (q < an_until a)%nat /\ storesAt events q (an_namespace a) (an_rawKey a) value /\
    parseJson (jsonStringify value) = Some (an_value a) /\
    versionAt events (an_at a) (an_namespace a) <= versionAt events q (an_namespace a).
Proof.
  intros Hp Ha Hkey. pose proof (cacheInv_run events Hp) as Hi.
  pose proof (proj1 (Forall_forall _ _) (ci_answers _ _ Hi) a Ha) as (Hns & Hat & n & text & Ek & Hparse & q & value & Hq & Hst & -> & Hv).
  exists q, value. split_and!; [done..|].
  destruct (served_count (take (an_at a) events) (run (take (an_at a) events)) (an_namespace a)) as [m Hm]; [|done|].
  { apply cacheInv_run, Forall_take, Hp. }
  assert (E : versionAt events (an_at a) (an_namespace a) = Z.of_N m) by exact Hm. rewrite E in *.
  rewrite Ek in Hkey. apply versionedKey_eq in Hkey as (_ & <- & _); done.
Qed.
End Fresh.

(** ** The client and the middleware *)

Section Client.
Context `{RedisStrings} `{JsonText} (env : ProcessEnv) (parseJson : string -> option Json).

(** A client once connected is kept, whatever its commands come to. *)
Lemma client_kept flag connects w :
  rp_client (cw_proc w) = true -> rp_client (cw_proc (final (ensureClient env flag connects) w)) = true.
Proof.
  intros Hc. unfold final, ensureClient, setEnabled, noteBypass, noteError, bump, setProc, modify, bind, gets, ret.
  destruct (negb _ || _); [by destruct w as [? ? []]|]. destruct (coolingDown env w); [by destruct w as [? ? []]|]. by rewrite !Hc.
Qed.

(** A request is answered by the handler, or with a value of the cache. *)
Lemma cacheJsonResponse_transparent ns rawKey ttl oGet oSet get set handler w :
  (exists w', fst (cacheJsonResponse env parseJson ns rawKey ttl oGet oSet get set handler w) = fst (handler w')) \/
  exists found w', getJsonFromCache env parseJson ns rawKey oGet get w = (inr (Some found), w') /\ jsonTruthy found = true /\
    fst (cacheJsonResponse env parseJson ns rawKey ttl oGet oSet get set handler w) = inr (200, found).
Proof.
  unfold cacheJsonResponse. destruct (isRedisCacheEnabled env); cbn [negb]; [|left; by exists w].
  assert (exists r w1, getJsonFromCache env parseJson ns rawKey oGet get w = (inr r, w1)) as (r & w1 & E).
  { unfold getJsonFromCache. destruct (openEntry_quiet env ns rawKey oGet w) as (key & w2 & E & _). rewrite (bind_ok _ _ _ _ _ E).
    destruct key as [key|]; [|eexists _, _; reflexivity].
    destruct (finishGet_quiet parseJson key get w2) as (r & w3 & E' & _). eauto. }
  rewrite (bind_ok _ _ _ _ _ E).
  set (uncached := bind handler _). assert (Hu : fst (uncached w1) = fst (handler w1)).
  { unfold uncached. unfold bind at 1. destruct (handler w1) as [[e|a] w2]; [done|].
    assert (exists w3, when ((200 <=? fst a) && (fst a <? 300)) (setJsonToCache env ns rawKey (snd a) ttl oSet set) w2 = (inr tt, w3))
      as (w3 & E3); [|by rewrite (bind_ok _ _ _ _ _ E3)].
    destruct (_ && _); [|by exists w2]. unfold when, setJsonToCache.
    destruct (openEntry_quiet env ns rawKey oSet w2) as (key & w3 & E' & _). rewrite (bind_ok _ _ _ _ _ E').
    destruct key as [key|]; [|by exists w3]. destruct (finishSet_spec key (snd a) ttl set w3) as (w4 & -> & _). by exists w4. }
  destruct r as [found|]; [|left; by exists w1]. destruct (jsonTruthy found) eqn:Et; [|left; by exists w1].
  right. by exists found, w1.
Qed.
End Client.
