(* ===== verification/JsMap.v ===== *)
(** * Maps filled from a list

    A JavaScript Map with string keys is the list of its entries in the order
    of insertion. The services group rows by looking a key up and then either
    changing the entry or adding one. *)

From Stdlib Require Import ZArith Lia.
From stdpp Require Import base strings list.
From S2P Require Import Prelude.

Section Upsert.
Context {V : Type}.

(** [map.get(k)] decides between [update] and a new entry. *)
Fixpoint putEntry (k : string) (new : V) (update : V -> V) (m : list (string * V)) : list (string * V) :=
  match m with
  | [] => [(k, new)]
  | (k', v) :: m => if String.eqb k' k then (k', update v) :: m else (k', v) :: putEntry k new update m
  end.

Fixpoint entryFor (k : string) (m : list (string * V)) : option V :=
  match m with
  | [] => None
  | (k', v) :: m => if String.eqb k' k then Some v else entryFor k m
  end.

Lemma entryFor_putEntry k new update m k' :
  entryFor k' (putEntry k new update m) =
  if String.eqb k k' then Some (match entryFor k m with Some v => update v | None => new end) else entryFor k' m.
Proof.
  induction m as [|[j v] m IH]; cbn; [done|]. destruct (String.eqb_spec j k) as [->|Hj]; cbn.
  - by destruct (String.eqb_spec k k').
  - rewrite IH. destruct (String.eqb_spec j k') as [->|Hj']; [|done]. by destruct (String.eqb_spec k k'); [subst|].
Qed.

Lemma putEntry_keys k new update m : (putEntry k new update m).*1 = if bool_decide (k ∈ m.*1) then m.*1 else m.*1 ++ [k].
Proof.
  induction m as [|[j v] m IH]; [done|]. cbn. destruct (String.eqb_spec j k) as [->|Hj]; cbn.
  - by rewrite bool_decide_true by left.
  - rewrite IH. repeat case_bool_decide; try done.
    + by exfalso; apply H0; right.
    + match goal with Hin : k ∈ j :: _ |- _ => apply elem_of_cons in Hin as [->|Hin] end; done.
Qed.

Lemma putEntry_NoDup k new update m : NoDup m.*1 -> NoDup (putEntry k new update m).*1.
Proof.
  intros Hnd. rewrite putEntry_keys. case_bool_decide as Hk; [done|]. apply NoDup_app. split_and!; [done| |apply NoDup_singleton].
  intros x Hx ->%list_elem_of_singleton. done.
Qed.

Lemma entryFor_elem m k v : NoDup m.*1 -> (k, v) ∈ m <-> entryFor k m = Some v.
Proof.
  induction m as [|[j u] m IH]; cbn; [by split; [intros Hn%not_elem_of_nil|]|]. intros [Hj Hnd]%NoDup_cons.
  rewrite elem_of_cons, (IH Hnd). destruct (String.eqb_spec j k) as [->|Hne]; split; intros Hm.
  - destruct Hm as [[= ->]|Hm]; [done|]. exfalso. apply Hj. apply (IH Hnd) in Hm. apply (list_elem_of_fmap_2 fst) in Hm. done.
  - injection Hm as ->. by left.
  - destruct Hm as [[= -> ->]|Hm]; done.
  - by right.
Qed.
End Upsert.

(** Grouping: [start x] is the entry of the first [x] of its key, [extend x]
    what a further one does. *)
Section Groups.
Context {A V : Type} (key : A -> string) (start : A -> V) (extend : A -> V -> V).

Definition addTo (m : list (string * V)) (x : A) : list (string * V) := putEntry (key x) (start x) (extend x) m.

Definition groupAll (l : list A) : list (string * V) := foldl addTo [] l.

(** The entry the elements of one key make. *)
Definition entryOf (l : list A) : option V :=
  match l with
  | [] => None
  | x :: l => Some (foldl (fun v y => extend y v) (start x) l)
  end.

Lemma entryOf_snoc l x : entryOf (l ++ [x]) = Some (match entryOf l with Some v => extend x v | None => start x end).
Proof. destruct l as [|y l]; [done|]. cbn. by rewrite foldl_app. Qed.

Lemma groupAll_snoc l x : groupAll (l ++ [x]) = addTo (groupAll l) x.
Proof. unfold groupAll. by rewrite foldl_app. Qed.

Lemma groupAll_get l k : entryFor k (groupAll l) = entryOf (filter (fun x => key x = k) l).
Proof.
  induction l as [|x l IH] using rev_ind; [done|]. rewrite groupAll_snoc. unfold addTo. rewrite entryFor_putEntry, filter_app, filter_cons.
  destruct (String.eqb_spec (key x) k) as [E|E].
  - rewrite decide_True by done. cbn. by rewrite entryOf_snoc, <- IH, E.
  - rewrite decide_False by done. cbn. by rewrite app_nil_r.
Qed.

Lemma groupAll_NoDup l : NoDup (groupAll l).*1.
Proof.
  induction l as [|x l IH] using rev_ind; [constructor|]. rewrite groupAll_snoc. by apply putEntry_NoDup.
Qed.

(** An entry is what the elements of its key make. *)
Lemma groupAll_elem l k v : (k, v) ∈ groupAll l <-> entryOf (filter (fun x => key x = k) l) = Some v.
Proof. by rewrite entryFor_elem, groupAll_get by apply groupAll_NoDup. Qed.

Lemma groupAll_length l : length (groupAll l) <= length l.
Proof.
  induction l as [|x l IH] using rev_ind; [done|]. rewrite groupAll_snoc, length_app. unfold addTo.
  rewrite <- (length_fmap fst). rewrite putEntry_keys. case_bool_decide; rewrite ?length_app, length_fmap; cbn; lia.
Qed.
End Groups.
