(* ===== verification/AbuseMetrics.v ===== *)
(** * The record of refused requests (src/src/services/rate-limit-metrics.service.ts, src/src/security/rate-limit-endpoints.ts)

    Every request a limiter refuses is recorded in memory and in the database,
    and operators read summaries and suspicious actors from both. A date is a
    number of milliseconds and an hour has 3600000 of them; what Prisma's
    [groupBy] answers is an argument. *)

From Stdlib Require Import ZArith Lia Sorted Ascii.
From stdpp Require Import base strings list.
From S2P Require Import Prelude.
From S2P Require Import Errors.
From S2P Require Import Challenge.
From S2P Require Import Digits.
From S2P Require Import JsMap.

#[local] Open Scope Z_scope.

(** ** Categories *)

Inductive RateLimitCategory : Type := Cat_auth | Cat_prediction | Cat_chat | Cat_admin | Cat_oracle | Cat_other.

#[export] Instance RateLimitCategory_EqDecision : EqDecision RateLimitCategory.
Proof. solve_decision. Defined.

Definition RATE_LIMIT_ENDPOINT_CATEGORIES : list (string * RateLimitCategory) :=
  [("auth/challenge", Cat_auth); ("auth/connect", Cat_auth); ("auth/general", Cat_auth); ("chat/message", Cat_chat);
   ("prediction/submit", Cat_prediction); ("prediction/batch-submit", Cat_prediction); ("api/bet", Cat_prediction);
   ("admin/round-create", Cat_admin); ("oracle/round-resolve", Cat_oracle); ("leaderboard/batch", Cat_other)]%string.

Definition getRateLimitCategory (endpoint : string) : RateLimitCategory :=
  default Cat_other (entryFor endpoint RATE_LIMIT_ENDPOINT_CATEGORIES).

Definition OPERATOR_MONITORED_CATEGORIES : list RateLimitCategory := [Cat_auth; Cat_prediction; Cat_chat].

(** ** Records *)

Definition parsePositiveInt (value : option string) (fallback : Z) : Z :=
  match truthy value with
  | None => fallback
  | Some v => match parseIntZ v with Some n => if 0 <? n then n else fallback | None => fallback end
  end.

Record MetricRecord : Type := mkMetric {
  mr_endpoint : string;
  mr_key : string;
  mr_ip : option string;
  mr_userId : option string;
  mr_timestamp : Z;
}.

(** The time, the records of the process and those of the database. *)
Record MetricWorld : Type := mkMetricWorld {
  mw_now : Z;
  mw_memory : list MetricRecord;
  mw_table : list MetricRecord;
}.

(** A call to the database that may fail. *)
Definition withPrismaFallback {A} (reachable : bool) (prismaFn fallback : A) : A := if reachable then prismaFn else fallback.

Definition combineWithMemoryRecords (w : MetricWorld) (dbRecords : list MetricRecord) : list MetricRecord := mw_memory w ++ dbRecords.

(** [recordHit]; [stored]: the row is created. *)
Definition recordHit (endpoint key : string) (ip userId : option string) (stored : bool) (w : MetricWorld) : MetricWorld :=
  let record := mkMetric endpoint key ip userId (mw_now w) in
  let w := w {{ mw_memory := mw_memory w ++ [record] }} in
  if stored then w {{ mw_table := mw_table w ++ [record] }} else w.

(** [timestamp: 'desc'] *)
Definition newestFirst (l : list MetricRecord) : list MetricRecord := sortBy (fun a b => mr_timestamp a <? mr_timestamp b) l.

(** ** Counting *)

Record EndpointHits : Type := mkEndpointHits { eh_endpoint : string; eh_hits : Z }.

Definition byHits (l : list EndpointHits) : list EndpointHits := sortBy (fun a b => eh_hits a <? eh_hits b) l.

Definition countEndpoints (records : list MetricRecord) : list (string * Z) := groupAll mr_endpoint (fun _ => 1) (fun _ n => n + 1) records.

Definition topEndpoints (limit : nat) (counts : list (string * Z)) : list EndpointHits :=
  take limit (byHits (map (fun c => mkEndpointHits (fst c) (snd c)) counts)).

Record AbuserHits : Type := mkAbuserHits { ah_key : string; ah_endpoint : string; ah_hits : Z }.

Definition byAbuserHits (l : list AbuserHits) : list AbuserHits := sortBy (fun a b => ah_hits a <? ah_hits b) l.

Definition abuserKey (key endpoint : string) : string := (key +:+ "::" +:+ endpoint)%string.

Definition countAbusers (records : list MetricRecord) : list (string * AbuserHits) :=
  groupAll (fun r => abuserKey (mr_key r) (mr_endpoint r)) (fun r => mkAbuserHits (mr_key r) (mr_endpoint r) 1)
    (fun _ a => a {{ ah_hits := ah_hits a + 1 }}) records.

Definition mergeTopEntries (a b : list EndpointHits) (limit : nat) : list EndpointHits :=
  topEndpoints limit (groupAll eh_endpoint eh_hits (fun e n => n + eh_hits e) (a ++ b)).

Definition mergeTopAbusers (a b : list AbuserHits) (limit : nat) : list AbuserHits :=
  take limit (byAbuserHits (map snd (groupAll (fun e => abuserKey (ah_key e) (ah_endpoint e)) id
    (fun e x => x {{ ah_hits := ah_hits x + ah_hits e }}) (a ++ b)))).

(** ** Suspicious actors *)

Record CategoryActivitySummary : Type := mkCategorySummary {
  ca_category : RateLimitCategory;
  ca_hits : Z;
  ca_uniqueKeys : nat;
  ca_topEndpoints : list EndpointHits;
}.

Record SuspiciousActor : Type := mkActor {
  sa_key : string;
  sa_endpoint : string;
  sa_hits : Z;
  sa_category : RateLimitCategory;
  sa_userId : option string;
  sa_ip : option string;
  sa_lastSeenAt : Z;
}.

(** An entry of [grouped]. *)
Record ActorGroup : Type := mkGroup {
  ag_endpoint : string;
  ag_key : string;
  ag_hits : Z;
  ag_userId : option string;
  ag_ip : option string;
  ag_lastSeenAt : Z;
}.

Record SuspiciousActivity : Type := mkActivity {
  sv_lookbackHours : Z;
  sv_hitThreshold : Z;
  sv_byCategory : list CategoryActivitySummary;
  sv_flaggedActors : list SuspiciousActor;
}.

(** [x ?? y] *)
Definition coalesce {A} (x y : option A) : option A := match x with Some _ => x | None => y end.

Definition monitored (endpoint : string) : bool := bool_decide (getRateLimitCategory endpoint ∈ OPERATOR_MONITORED_CATEGORIES).

Section Service.
Context (SUSPICIOUS_HIT_THRESHOLD SUSPICIOUS_LOOKBACK_HOURS : Z).

Definition buildCategorySummaries (hits : list MetricRecord) (limit : nat) : list CategoryActivitySummary :=
  map (fun category =>
         let bucket := filter (fun hit => getRateLimitCategory (mr_endpoint hit) = category) hits in
         mkCategorySummary category (Z.of_nat (length bucket)) (length (remove_dups (map mr_key bucket)))
           (topEndpoints limit (countEndpoints bucket)))
      OPERATOR_MONITORED_CATEGORIES.

Definition actorKey (endpoint key : string) : string := (endpoint +:+ "::" +:+ key)%string.

Definition startGroup (hit : MetricRecord) : ActorGroup :=
  mkGroup (mr_endpoint hit) (mr_key hit) 1 (mr_userId hit) (mr_ip hit) (mr_timestamp hit).

Definition extendGroup (hit : MetricRecord) (existing : ActorGroup) : ActorGroup :=
  let existing := existing {{ ag_hits := ag_hits existing + 1 }} in
  if ag_lastSeenAt existing <? mr_timestamp hit
  then existing {{ ag_lastSeenAt := mr_timestamp hit;
                   ag_userId := coalesce (mr_userId hit) (ag_userId existing);
                   ag_ip := coalesce (mr_ip hit) (ag_ip existing) }}
  else existing.

Definition groupActors (hits : list MetricRecord) : list (string * ActorGroup) :=
  groupAll (fun hit => actorKey (mr_endpoint hit) (mr_key hit)) startGroup extendGroup hits.

Definition actorOf (entry : ActorGroup) : SuspiciousActor :=
  mkActor (ag_key entry) (ag_endpoint entry) (ag_hits entry) (getRateLimitCategory (ag_endpoint entry)) (ag_userId entry)
    (ag_ip entry) (ag_lastSeenAt entry).

Definition buildFlaggedActors (hits : list MetricRecord) (limit : nat) : list SuspiciousActor :=
  map actorOf (take limit (sortBy (fun a b => ag_hits a <? ag_hits b)
    (List.filter (fun entry => SUSPICIOUS_HIT_THRESHOLD <=? ag_hits entry) (map snd (groupActors hits))))).

Definition sinceMs (w : MetricWorld) : Z := mw_now w - SUSPICIOUS_LOOKBACK_HOURS * 3600000.

(** The hits that [getSuspiciousActivity] looks at. *)
Definition monitoredHits (reachable : bool) (w : MetricWorld) : list MetricRecord :=
  let dbHits := withPrismaFallback reachable (newestFirst (List.filter (fun r => sinceMs w <=? mr_timestamp r) (mw_table w))) [] in
  let allHits := List.filter (fun r => sinceMs w <=? mr_timestamp r) (combineWithMemoryRecords w dbHits) in
  List.filter (fun hit => monitored (mr_endpoint hit)) allHits.

Definition getSuspiciousActivity (reachable : bool) (limit : nat) (w : MetricWorld) : SuspiciousActivity :=
  let hits := monitoredHits reachable w in
  mkActivity SUSPICIOUS_LOOKBACK_HOURS SUSPICIOUS_HIT_THRESHOLD (buildCategorySummaries hits limit) (buildFlaggedActors hits limit).

Record Summary : Type := mkSummary {
  sm_topEndpoints : list EndpointHits;
  sm_topAbusers : list AbuserHits;
  sm_recentEvents : list MetricRecord;
  sm_suspiciousActivity : SuspiciousActivity;
}.

(** [groupedEndpoints], [groupedAbusers]: what [groupBy] answers, if it does;
    [recent], [suspicious]: the other two queries are answered. *)
Definition getSummary (limit : nat) (groupedEndpoints : option (list EndpointHits)) (groupedAbusers : option (list AbuserHits))
    (recent suspicious : bool) (w : MetricWorld) : Summary :=
  let dbRecentEvents := withPrismaFallback recent (take (limit * 2) (newestFirst (mw_table w))) [] in
  let allRecent := combineWithMemoryRecords w dbRecentEvents in
  let mergedTopEndpoints := topEndpoints limit (countEndpoints allRecent) in
  let mergedTopAbusers := take limit (byAbuserHits (map snd (countAbusers allRecent))) in
  mkSummary (mergeTopEntries mergedTopEndpoints (default [] groupedEndpoints) limit)
    (mergeTopAbusers mergedTopAbusers (default [] groupedAbusers) limit)
    (take (limit * 2) (newestFirst allRecent))
    (getSuspiciousActivity suspicious limit w).
End Service.

(** The number of records deleted, and what is left. *)
Definition clearOldMetrics (days : Z) (reachable : bool) (w : MetricWorld) : Z * MetricWorld :=
  let date := mw_now w - days * 86400000 in
  let keep := List.filter (fun r => negb (mr_timestamp r <? date)) in
  let table := if reachable then keep (mw_table w) else mw_table w in
  let memory := keep (mw_memory w) in
  (Z.of_nat (length (mw_table w) - length table) + Z.of_nat (length (mw_memory w) - length memory),
   w {{ mw_memory := memory; mw_table := table }}).

Definition resetInMemoryStore (w : MetricWorld) : MetricWorld := w {{ mw_memory := [] }}.

(** ** What is flagged *)

(** Records of one endpoint and key. *)
Definition ofActor (e k : string) (r : MetricRecord) : bool := String.eqb (mr_endpoint r) e && String.eqb (mr_key r) k.

Definition hitsOf (e k : string) (l : list MetricRecord) : Z := Z.of_nat (length (List.filter (ofActor e k) l)).

Lemma hitsOf_app e k l l' : hitsOf e k (l ++ l') = hitsOf e k l + hitsOf e k l'.
Proof. unfold hitsOf. rewrite List.filter_app, length_app. lia. Qed.

Lemma filter_Permutation {A} (f : A -> bool) (l l' : list A) : l ≡ₚ l' -> List.filter f l ≡ₚ List.filter f l'.
Proof.
  induction 1; cbn; repeat case_match; eauto using perm_skip, perm_swap. by etransitivity.
Qed.

Lemma hitsOf_Permutation e k l l' : l ≡ₚ l' -> hitsOf e k l = hitsOf e k l'.
Proof. intros Hp. unfold hitsOf. by rewrite (filter_Permutation _ _ _ Hp). Qed.

Lemma monitored_plain e : monitored e = true -> hasChar ":" e = false.
Proof.
  unfold monitored, getRateLimitCategory. intros Hm.
  assert (Hin : entryFor e RATE_LIMIT_ENDPOINT_CATEGORIES <> None) by (intros E; by rewrite E in Hm). clear Hm.
  revert Hin. unfold RATE_LIMIT_ENDPOINT_CATEGORIES. cbn [entryFor].
  repeat (match goal with |- context [String.eqb ?s e] => destruct (String.eqb_spec s e) as [<-|_] end; [done|]). done.
Qed.

Lemma actorKey_eq e k e' k' : monitored e = true -> monitored e' = true -> actorKey e k = actorKey e' k' -> e = e' /\ k = k'.
Proof.
  intros He%monitored_plain He'%monitored_plain E. unfold actorKey in E.
  apply (split_unique ":" e e' (String ":" k) (String ":" k')) in E as [-> E]; [|done..]. by injection E.
Qed.

(** The entry of one actor. *)
Lemma foldl_group hits g : let r := foldl (fun v h => extendGroup h v) g hits in
  ag_endpoint r = ag_endpoint g /\ ag_key r = ag_key g /\ ag_hits r = ag_hits g + Z.of_nat (length hits).
Proof.
  revert g. induction hits as [|h hits IH]; intros g; cbn [foldl length]; [repeat split; lia|].
  destruct (IH (extendGroup h g)) as (-> & -> & ->). unfold extendGroup. destruct g as [e k n u i t]. cbn.
  destruct (t <? mr_timestamp h); cbn; repeat split; lia.
Qed.

Section Flagged.
Context (threshold lookback : Z) (Hthr : 0 < threshold).

Lemma groupActors_elem hits e k n : Forall (fun h => monitored (mr_endpoint h) = true) hits -> monitored e = true -> 0 < n ->
  (exists j g, (j, g) ∈ groupActors hits /\ ag_endpoint g = e /\ ag_key g = k /\ ag_hits g = n) <-> hitsOf e k hits = n.
Proof.
  intros Hm He Hn.
  assert (Hf : filter (fun h => actorKey (mr_endpoint h) (mr_key h) = actorKey e k) hits = List.filter (ofActor e k) hits).
  { induction Hm as [|h hits Hh _ IH]; [done|]. rewrite filter_cons. cbn [List.filter]. rewrite IH.
    destruct (decide (actorKey (mr_endpoint h) (mr_key h) = actorKey e k)) as [E|E].
    - apply actorKey_eq in E as [E1 E2]; [|done..].
      assert (Ho : ofActor e k h = true) by (unfold ofActor; by rewrite E1, E2, !String.eqb_refl). by rewrite Ho.
    - assert (Ho : ofActor e k h = false); [|by rewrite Ho]. unfold ofActor.
      destruct (String.eqb_spec (mr_endpoint h) e), (String.eqb_spec (mr_key h) k); subst; done. }
  assert (Hentry : forall j g, (j, g) ∈ groupActors hits -> j = actorKey (ag_endpoint g) (ag_key g) /\
            monitored (ag_endpoint g) = true /\ entryOf startGroup extendGroup (filter (fun h => actorKey (mr_endpoint h) (mr_key h) = j) hits) = Some g).
  { clear Hf. intros j g Hg. unfold groupActors in Hg. apply groupAll_elem in Hg.
    change (entryOf startGroup extendGroup (filter (fun h => actorKey (mr_endpoint h) (mr_key h) = j) hits) = Some g) in Hg.
    revert Hg. destruct (filter _ hits) as [|h l] eqn:El; intros Hg; [done|]. assert (Hin : h ∈ h :: l) by left. rewrite <- El in Hin.
    apply list_elem_of_filter in Hin as [<- Hin]. pose proof (proj1 (Forall_forall _ _) Hm h Hin) as Hh. injection Hg as <-.
    destruct (foldl_group l (startGroup h)) as (-> & -> & _). done. }
  split.
  - intros (j & g & Hg & <- & <- & <-). destruct (Hentry j g Hg) as (-> & _ & Hent). rewrite Hf in Hent. unfold hitsOf.
    destruct (List.filter _ hits) as [|h l]; [done|]. injection Hent as Hg'. destruct (foldl_group l (startGroup h)) as (_ & _ & E).
    rewrite Hg' in E. rewrite E. cbn [length startGroup ag_hits]. lia.
  - intros Hc. unfold hitsOf in Hc. destruct (List.filter (ofActor e k) hits) as [|h l] eqn:El; [cbn in Hc; lia|].
    exists (actorKey e k), (foldl (fun v h => extendGroup h v) (startGroup h) l). unfold groupActors. rewrite groupAll_elem, Hf. split; [done|].
    destruct (foldl_group l (startGroup h)) as (-> & -> & ->). assert (Hin : In h (List.filter (ofActor e k) hits)) by (rewrite El; by left).
    apply filter_In in Hin as [_ [E1%String.eqb_eq E2%String.eqb_eq]%andb_true_iff]. split_and!; [done..|]. rewrite <- Hc. cbn. lia.
Qed.

Lemma groupActors_monitored hits j g : Forall (fun h => monitored (mr_endpoint h) = true) hits -> (j, g) ∈ groupActors hits ->
  monitored (ag_endpoint g) = true.
Proof.
  intros Hm Hg. unfold groupActors in Hg. apply groupAll_elem in Hg. destruct (filter _ hits) as [|h l] eqn:El; [done|].
  assert (Hin : h ∈ h :: l) by left. rewrite <- El in Hin. apply list_elem_of_filter in Hin as [_ Hin].
  injection Hg as <-. destruct (foldl_group l (startGroup h)) as (-> & _). exact (proj1 (Forall_forall _ _) Hm h Hin).
Qed.

(** When the page has room for everybody. *)
Lemma flagged_elem hits limit e k n : Forall (fun h => monitored (mr_endpoint h) = true) hits -> (length hits <= limit)%nat ->
  (exists a, a ∈ buildFlaggedActors threshold hits limit /\ sa_endpoint a = e /\ sa_key a = k /\ sa_hits a = n) <->
  monitored e = true /\ threshold <= n /\ hitsOf e k hits = n.
Proof.
  intros Hm Hlen. unfold buildFlaggedActors. rewrite take_ge.
  2: { rewrite sortBy_Permutation. etransitivity; [apply List.filter_length_le|]. rewrite length_map.
       etransitivity; [apply groupAll_length|exact Hlen]. }
  assert (Hin : forall a, a ∈ map actorOf (sortBy (fun a b => ag_hits a <? ag_hits b)
      (List.filter (fun entry => threshold <=? ag_hits entry) (map snd (groupActors hits)))) <->
    exists j g, (j, g) ∈ groupActors hits /\ threshold <= ag_hits g /\ a = actorOf g).
  { intros a. rewrite list_elem_of_fmap. split.
    - intros (g & -> & Hg). rewrite sortBy_elem, list_elem_of_In, filter_In, <- list_elem_of_In, list_elem_of_fmap in Hg.
      destruct Hg as [([j g'] & -> & Hg) Ht%Z.leb_le]. eauto.
    - intros (j & g & Hg & Ht & ->). exists g. split; [done|].
      rewrite sortBy_elem, list_elem_of_In, filter_In, <- list_elem_of_In, list_elem_of_fmap. split; [by exists (j, g)|by apply Z.leb_le]. }
  split.
  - intros (a & (j & g & Hg & Ht & ->)%Hin & <- & <- & <-). cbn. pose proof (groupActors_monitored _ _ _ Hm Hg) as He.
    split_and!; [done..|]. apply groupActors_elem; [done|done|lia|]. by exists j, g.
  - intros (He & Ht & Hn). apply groupActors_elem in Hn as (j & g & Hg & <- & <- & <-); [|done|done|lia].
    exists (actorOf g). rewrite Hin. split_and!; [|done..]. by exists j, g.
Qed.
End Flagged.

(** ** Refusals counted *)

(** A request that is refused at some time; is its row created? *)
Record HitCall : Type := mkHitCall {
  hc_at : Z;
  hc_endpoint : string;
  hc_key : string;
  hc_ip : option string;
  hc_userId : option string;
  hc_stored : bool;
}.

Definition newMetricWorld : MetricWorld := mkMetricWorld 0 [] [].

Definition recordCall (w : MetricWorld) (c : HitCall) : MetricWorld :=
  recordHit (hc_endpoint c) (hc_key c) (hc_ip c) (hc_userId c) (hc_stored c) (w {{ mw_now := hc_at c }}).

Definition recordAll (calls : list HitCall) : MetricWorld := foldl recordCall newMetricWorld calls.

Definition recordOf (c : HitCall) : MetricRecord := mkMetric (hc_endpoint c) (hc_key c) (hc_ip c) (hc_userId c) (hc_at c).

Lemma recordAll_rows calls :
  mw_memory (recordAll calls) = map recordOf calls /\ mw_table (recordAll calls) = map recordOf (List.filter hc_stored calls).
Proof.
  induction calls as [|c calls [IHm IHt]] using rev_ind; [done|]. unfold recordAll in *. rewrite foldl_app, List.filter_app, !map_app.
  cbn [foldl List.filter]. unfold recordCall at 1 3, recordHit. destruct (foldl recordCall newMetricWorld calls) as [t memory table].
  cbn in IHm, IHt. subst. by destruct (hc_stored c); cbn; rewrite ?app_nil_r.
Qed.

Section Counting.
Context (threshold lookback : Z) (Hthr : 0 < threshold).

(** The calls of an actor in the window before [now]. *)
Definition inWindow (e k : string) (now : Z) (c : HitCall) : bool :=
  String.eqb (hc_endpoint c) e && String.eqb (hc_key c) k && (now - lookback * 3600000 <=? hc_at c).

Definition refused (e k : string) (now : Z) (calls : list HitCall) : Z := Z.of_nat (length (List.filter (inWindow e k now) calls)).

Lemma hits_refused e k now calls : monitored e = true ->
  hitsOf e k (List.filter (fun h => monitored (mr_endpoint h))
    (List.filter (fun r => now - lookback * 3600000 <=? mr_timestamp r) (map recordOf calls))) = refused e k now calls.
Proof.
  intros He. unfold hitsOf, refused. f_equal. induction calls as [|c calls IH]; [done|].
  assert (Ho : ofActor e k (recordOf c) = String.eqb (hc_endpoint c) e && String.eqb (hc_key c) k) by done.
  assert (Hw : inWindow e k now c = ofActor e k (recordOf c) && (now - lookback * 3600000 <=? hc_at c)) by done.
  assert (Hm : ofActor e k (recordOf c) = true -> monitored (mr_endpoint (recordOf c)) = true).
  { rewrite Ho. intros [E%String.eqb_eq _]%andb_true_iff. cbn. by rewrite E. }
  cbn [map List.filter]. rewrite Hw. change (mr_timestamp (recordOf c)) with (hc_at c).
  destruct (now - lookback * 3600000 <=? hc_at c); rewrite ?andb_true_r, ?andb_false_r; [|done].
  cbn [List.filter]. destruct (ofActor e k (recordOf c)) eqn:E.
  - rewrite Hm by done. cbn [List.filter]. rewrite E. cbn. by rewrite IH.
  - destruct (monitored (mr_endpoint (recordOf c))); cbn [List.filter]; [by rewrite E|done].
Qed.

(** The suspicious actors are exactly the monitored ones with enough hits,
    and a refusal is a hit for the process and, when the database stored it and
    answers now, a second one for the database. *)
Theorem suspicious_counts calls now reachable limit e k n : (2 * length calls <= limit)%nat ->
  let w := (recordAll calls) {{ mw_now := now }} in
  (exists a, a ∈ sv_flaggedActors (getSuspiciousActivity threshold lookback reachable limit w) /\
     sa_endpoint a = e /\ sa_key a = k /\ sa_hits a = n) <->
  monitored e = true /\ threshold <= n /\
  n = refused e k now calls + (if reachable then refused e k now (List.filter hc_stored calls) else 0).
Proof.
  intros Hlimit w. cbn [getSuspiciousActivity sv_flaggedActors].
  assert (Hm : mw_memory w = map recordOf calls /\ mw_table w = map recordOf (List.filter hc_stored calls)).
  { destruct (recordAll_rows calls) as [<- <-]. by subst w; destruct (recordAll calls). }
  assert (Hnow : sinceMs lookback w = now - lookback * 3600000) by (subst w; by destruct (recordAll calls)).
  set (hits := monitoredHits lookback reachable w).
  assert (Hmon : Forall (fun h => monitored (mr_endpoint h) = true) hits).
  { apply Forall_forall. intros h Hh. unfold hits, monitoredHits in Hh. rewrite list_elem_of_In, filter_In in Hh. apply Hh. }
  assert (Hhits : hits ≡ₚ List.filter (fun h => monitored (mr_endpoint h)) (List.filter (fun r => now - lookback * 3600000 <=? mr_timestamp r)
    (map recordOf calls ++ if reachable then map recordOf (List.filter hc_stored calls) else []))).
  { unfold hits, monitoredHits, combineWithMemoryRecords, withPrismaFallback. rewrite Hnow. destruct Hm as [-> ->].
    apply filter_Permutation. destruct reachable; [|done]. rewrite !List.filter_app. apply Permutation_app_head. unfold newestFirst.
    rewrite (filter_Permutation _ _ _ (sortBy_Permutation _ _)). match goal with |- ?a ≡ₚ ?b => assert (a = b) as ->; [|done] end.
    induction (map recordOf (List.filter hc_stored calls)) as [|r l IH]; [done|]. cbn. destruct (_ <=? mr_timestamp r) eqn:E; cbn; [rewrite E|]; by rewrite IH. }
  rewrite flagged_elem; [|done|done|].
  - assert (Hcount : monitored e = true -> hitsOf e k hits =
      refused e k now calls + (if reachable then refused e k now (List.filter hc_stored calls) else 0)).
    { intros He. rewrite (hitsOf_Permutation _ _ _ _ Hhits), !List.filter_app, hitsOf_app. f_equal; [by apply hits_refused|].
      destruct reachable; [by apply hits_refused|done]. }
    split; intros (He & Ht & Hn); split_and!; try done; rewrite Hcount in *; congruence || done.
  - rewrite Hhits. etransitivity; [apply List.filter_length_le|]. etransitivity; [apply List.filter_length_le|].
    rewrite length_app, length_map. pose proof (List.filter_length_le hc_stored calls). destruct reachable; rewrite ?length_map; cbn; lia.
Qed.
End Counting.
