(* ===== verification/RegExp.v ===== *)
(** * Regular expressions on UTF-16 text

    JavaScript's matching by backtracking, for the expressions the chat uses: a
    text is the list of its code units, and [canonicalize] is what the flag i
    compares. *)

From Stdlib Require Import NArith Lia Ascii.
From stdpp Require Import base strings list.

#[local] Open Scope N_scope.

Notation Text := (list N).

(** The code units of an ASCII literal. *)
Fixpoint lit (s : string) : Text :=
  match s with
  | EmptyString => []
  | String a s => N_of_ascii a :: lit s
  end.

Inductive Pattern : Type :=
| Nothing
| OneUnit (accepts : N -> bool)
| Seq (p q : Pattern)
| Alt (p q : Pattern)
| Star (p : Pattern)      (* greedy *)
| Lazy (p : Pattern)      (* [*?] *)
| Group (p : Pattern)     (* the capturing group *)
| BackRef
| WordBoundary
| Start
| End_.

(** [\w], and the case-insensitive equality of code units. *)
Definition isDigitUnit (c : N) : bool := (48 <=? c) && (c <=? 57).
Definition isLetterUnit (c : N) : bool := ((65 <=? c) && (c <=? 90)) || ((97 <=? c) && (c <=? 122)).
Definition isWordUnit (c : N) : bool := isDigitUnit c || isLetterUnit c || (c =? 95).

(** [\s] *)
Definition isSpaceUnit (c : N) : bool :=
  ((9 <=? c) && (c <=? 13)) || (c =? 32) || (c =? 160) || (c =? 5760) || ((8192 <=? c) && (c <=? 8202))
  || (c =? 8232) || (c =? 8233) || (c =? 8239) || (c =? 8287) || (c =? 12288) || (c =? 65279).

Definition isLineEnd (c : N) : bool := (c =? 10) || (c =? 13) || (c =? 8232) || (c =? 8233).

Section Matching.
Context (canonicalize : N -> N).

Definition sameUnit (a b : N) : bool := canonicalize a =? canonicalize b.

Fixpoint prefixUnits (p s : Text) : option Text :=
  match p, s with
  | [], _ => Some s
  | a :: p, b :: s => if sameUnit a b then prefixUnits p s else None
  | _ :: _, [] => None
  end.

Definition wordAt (l : Text) : bool := match l with c :: _ => isWordUnit c | [] => false end.

(** The continuation gets what was consumed, latest first, what is left, and
    the group. *)
Notation Cont := (Text -> Text -> option Text -> option nat).

Fixpoint starLoop (one : Text -> Text -> option Text -> Cont -> option nat) (greedy : bool) (n : nat)
    (before rest : Text) (group : option Text) (k : Cont) : option nat :=
  match n with
  | O => k before rest group
  | S n =>
      let again := one before rest group (fun before' rest' group' =>
        if (length rest' <? length rest)%nat then starLoop one greedy n before' rest' group' k else None) in
      let stop := k before rest group in
      if greedy then match again with Some r => Some r | None => stop end
      else match stop with Some r => Some r | None => again end
  end.

(** The number of units the first match consumes together with what follows. *)
Fixpoint matchHere (p : Pattern) (before rest : Text) (group : option Text) (k : Cont) {struct p} : option nat :=
  match p with
  | Nothing => k before rest group
  | OneUnit accepts =>
      match rest with
      | c :: rest => if accepts c then k (c :: before) rest group else None
      | [] => None
      end
  | Seq p q => matchHere p before rest group (fun before rest group => matchHere q before rest group k)
  | Alt p q =>
      match matchHere p before rest group k with
      | Some r => Some r
      | None => matchHere q before rest group k
      end
  | Star p => starLoop (matchHere p) true (S (length rest)) before rest group k
  | Lazy p => starLoop (matchHere p) false (S (length rest)) before rest group k
  | Group p =>
      matchHere p before rest group (fun before' rest' _ =>
        k before' rest' (Some (rev (take (length before' - length before) before'))))
  | BackRef =>
      match group with
      | None => k before rest group
      | Some g =>
          match prefixUnits g rest with
          | Some rest' => k (rev (take (length g) rest) ++ before) rest' group
          | None => None
          end
      end
  | WordBoundary => if xorb (wordAt before) (wordAt rest) then k before rest group else None
  | Start => match before with [] => k before rest group | _ => None end
  | End_ => match rest with [] => k before rest group | _ => None end
  end.

(** How many units [p] matches at a position. *)
Definition matchLength (p : Pattern) (before rest : Text) : option nat :=
  matchHere p before rest None (fun before' _ _ => Some (length before' - length before)%nat).

Fixpoint testFrom (p : Pattern) (before rest : Text) : bool :=
  match matchLength p before rest with
  | Some _ => true
  | None => match rest with c :: rest => testFrom p (c :: before) rest | [] => false end
  end.

(** [p.test(s)] *)
Definition test (p : Pattern) (s : Text) : bool := testFrom p [] s.

Fixpoint replaceFrom (fuel : nat) (p : Pattern) (by_ : Text -> Text) (before rest : Text) : Text :=
  match fuel with
  | O => rest
  | S fuel =>
      match matchLength p before rest with
      | Some (S n) =>
          by_ (take (S n) rest) ++ replaceFrom fuel p by_ (rev (take (S n) rest) ++ before) (drop (S n) rest)
      | r =>
          (match r with Some _ => by_ [] | None => [] end) ++
          match rest with
          | c :: rest => c :: replaceFrom fuel p by_ (c :: before) rest
          | [] => []
          end
      end
  end.

(** [s.replace(p, by)] with the flag g: every position is tried once. *)
Definition replaceAll (p : Pattern) (by_ : Text -> Text) (s : Text) : Text := replaceFrom (S (length s)) p by_ [] s.
End Matching.

(** Shorthands *)
Definition unit_ (c : N) : Pattern := OneUnit (N.eqb c).
Definition oneOfUnits (l : Text) : Pattern := OneUnit (fun c => existsb (N.eqb c) l).
Definition word_ : Pattern := OneUnit isWordUnit.
Definition space_ : Pattern := OneUnit isSpaceUnit.
Definition anyUnit : Pattern := OneUnit (fun c => negb (isLineEnd c)).
Definition plus (p : Pattern) : Pattern := Seq p (Star p).
Definition opt (p : Pattern) : Pattern := Alt p Nothing.

Fixpoint seqs (l : list Pattern) : Pattern :=
  match l with
  | [] => Nothing
  | [p] => p
  | p :: l => Seq p (seqs l)
  end.

Fixpoint alts (l : list Pattern) : Pattern :=
  match l with
  | [] => OneUnit (fun _ => false)
  | [p] => p
  | p :: l => Alt p (alts l)
  end.

(** A literal under the flag i, and without it. *)
Definition literalI (canonicalize : N -> N) (s : string) : Pattern := seqs (map (fun c => OneUnit (sameUnit canonicalize c)) (lit s)).
Definition literal (s : string) : Pattern := seqs (map unit_ (lit s)).

(** ** Units that come out of a replacement *)

Section Units.
Context (canonicalize : N -> N).

Lemma replaceFrom_Forall (P : N -> Prop) p by_ fuel before rest : (forall s, Forall P (by_ s)) -> Forall P rest ->
  Forall P (replaceFrom canonicalize fuel p by_ before rest).
Proof.
  intros Hby. revert before rest. induction fuel as [|fuel IH]; intros before rest Hr; [done|]. cbn [replaceFrom].
  assert (Hnext : Forall P match rest with c :: rest => c :: replaceFrom canonicalize fuel p by_ (c :: before) rest | [] => [] end).
  { destruct Hr; constructor; auto. }
  destruct (matchLength _ _ _ _) as [[|n]|]; apply Forall_app; split; try done; try apply Hby. by apply IH, Forall_drop.
Qed.

Lemma replaceAll_Forall (P : N -> Prop) p by_ s : (forall m, Forall P (by_ m)) -> Forall P s ->
  Forall P (replaceAll canonicalize p by_ s).
Proof. apply replaceFrom_Forall. Qed.

Lemma replaceFrom_length p by_ fuel before rest : (forall s, length (by_ s) <= length s)%nat ->
  (length (replaceFrom canonicalize fuel p by_ before rest) <= length rest)%nat.
Proof.
  intros Hby. revert before rest. induction fuel as [|fuel IH]; intros before rest; [done|]. cbn [replaceFrom].
  assert (Hnext : (length match rest with c :: rest => c :: replaceFrom canonicalize fuel p by_ (c :: before) rest | [] => [] end <= length rest)%nat).
  { destruct rest as [|c rest]; cbn; [lia|]. specialize (IH (c :: before) rest). lia. }
  destruct (matchLength _ _ _ _) as [[|n]|]; rewrite length_app.
  - specialize (Hby []). cbn in Hby. lia.
  - specialize (Hby (take (S n) rest)). specialize (IH (rev (take (S n) rest) ++ before) (drop (S n) rest)).
    rewrite length_take in Hby. rewrite length_drop in IH. lia.
  - cbn. lia.
Qed.

Lemma replaceAll_length p by_ s : (forall m, length (by_ m) <= length m)%nat ->
  (length (replaceAll canonicalize p by_ s) <= length s)%nat.
Proof. apply replaceFrom_length. Qed.
End Units.
