(* ===== verification/Chat.v ===== *)
(** * Chat (src/src/services/chat.service.ts, src/src/utils/sanitization.util.ts)

    What becomes of the text of a message before it is stored and sent to
    everybody, and the pages of the history. A content is a list of UTF-16 code
    units; [canonicalize] is how the flag i of a regular expression folds them. *)

From Stdlib Require Import ZArith NArith Lia Ascii.
From stdpp Require Import base strings list pretty.
From S2P Require Import Prelude.
From S2P Require Import Errors.
From S2P Require Import Schema.
From S2P Require Import JsonText.
From S2P Require Import Pagination.
From S2P Require Import RegExp.

#[local] Open Scope N_scope.

(** ** Sanitization *)

Definition HTML_ENTITY_MAP : list (N * Text) :=
  [(38, lit "&amp;"); (60, lit "&lt;"); (62, lit "&gt;"); (34, lit "&quot;"); (39, lit "&#39;"); (47, lit "&#x2F;")].

Definition entityOf (c : N) : Text :=
  match find (fun e => fst e =? c) HTML_ENTITY_MAP with Some (_, entity) => entity | None => [c] end.

Section Sanitization.
Context (canonicalize : N -> N).

#[local] Notation testI := (test canonicalize).
#[local] Notation replaceI := (replaceAll canonicalize).
#[local] Notation exact := (test (fun c => c)).

(** The class of the special characters. *)
Definition htmlSpecial : Pattern := oneOfUnits [38; 60; 62; 34; 39; 47].

Definition escapeHtml (text : Text) : Text := replaceAll (fun c => c) htmlSpecial (fun m => List.concat (map entityOf m)) text.

Definition invisible : Pattern :=
  OneUnit (fun c => ((8203 <=? c) && (c <=? 8207)) || (c =? 65279) || ((8234 <=? c) && (c <=? 8238))).

Fixpoint trimStartUnits (s : Text) : Text :=
  match s with
  | c :: rest => if isSpaceUnit c then trimStartUnits rest else s
  | [] => []
  end.

Definition trimUnits (s : Text) : Text := rev (trimStartUnits (rev (trimStartUnits s))).

Definition normalizeWhitespace (text : Text) : Text :=
  let normalized := replaceAll (fun c => c) invisible (fun _ => []) text in
  let normalized := replaceAll (fun c => c) (plus space_) (fun _ => [32]) normalized in
  trimUnits normalized.

Definition hex2 : Pattern :=
  let h := OneUnit (fun c => isDigitUnit c || ((65 <=? c) && (c <=? 70)) || ((97 <=? c) && (c <=? 102))) in Seq h h.

(** The sequences backslash u and four digits, backslash x and two, percent and two. *)
Definition encoded : list Pattern :=
  [seqs [unit_ 92; literalI canonicalize "u"; hex2; hex2]; seqs [unit_ 92; literalI canonicalize "x"; hex2]; seqs [unit_ 37; hex2]].

(** The same unit five times. *)
Definition repetition : Pattern := seqs [Group anyUnit; BackRef; BackRef; BackRef; BackRef; Star BackRef].

Definition keyword (s : string) : Pattern := literalI canonicalize s.
Definition optQuote : Pattern := opt (oneOfUnits [39; 34]).

Definition sqlPunctuation : Pattern := alts [literal "--"; literal "/*"; literal "*/"; literal ";"].

Definition sqlCondition : Pattern :=
  seqs [WordBoundary; alts [keyword "or"; keyword "and"]; WordBoundary; plus space_; optQuote; plus word_; optQuote; Star space_; unit_ 61;
        Star space_; optQuote; plus word_].

Definition sqlStatement : Pattern :=
  seqs [WordBoundary;
        alts [seqs [keyword "union"; plus space_; keyword "select"];
              seqs [keyword "select"; plus space_; plus anyUnit; plus space_; keyword "from"];
              seqs [keyword "drop"; plus space_; keyword "table"];
              seqs [keyword "insert"; plus space_; keyword "into"];
              seqs [keyword "update"; plus space_; plus word_; plus space_; keyword "set"];
              seqs [keyword "delete"; plus space_; keyword "from"]];
        WordBoundary].

Definition sqlProcedure : Pattern :=
  seqs [WordBoundary;
        alts [seqs [keyword "exec"; opt (keyword "ute"); plus space_]; keyword "xp_cmdshell"; keyword "sp_executesql"];
        WordBoundary].

(** The characters [&|`$(){}[\];\\<>]. *)
Definition shellSpecial : Pattern := oneOfUnits [38; 124; 96; 36; 40; 41; 123; 125; 91; 93; 59; 92; 60; 62].

Definition shellName : Pattern :=
  alts (map (fun name => seqs [WordBoundary; keyword name; WordBoundary]) ["sh"; "bash"; "cmd"]%string).

(** The longest of [content.split(/\s+/)] *)
Fixpoint longestWord (run : nat) (s : Text) : nat :=
  match s with
  | [] => run
  | c :: s => if isSpaceUnit c then Nat.max run (longestWord 0 s) else longestWord (S run) s
  end.

Definition isSuspiciousContent (content : Text) : bool :=
  testI repetition content
  || (exact sqlPunctuation content || testI sqlCondition content || testI sqlStatement content || testI sqlProcedure content)
  || (exact shellSpecial content && testI shellName content)
  || testI (alts encoded) content
  || (200 <? longestWord 0 content)%nat.

(** Space, an attribute [on...] and its value in either kind of quotes or none. *)
Definition eventHandler : Pattern :=
  seqs [plus space_; keyword "on"; plus word_; Star space_; unit_ 61; Star space_;
        alts [seqs [unit_ 34; Lazy anyUnit; unit_ 34]; seqs [unit_ 39; Lazy anyUnit; unit_ 39];
              Star (OneUnit (fun c => negb (isSpaceUnit c) && negb (c =? 62)))]].

(** Encoded sequences, letters, digits, round brackets, slashes, points and space. *)
Definition onlyEncodedText : Pattern :=
  seqs [Start;
        plus (alts (encoded ++ [OneUnit (fun c => isLetterUnit c || isDigitUnit c || existsb (N.eqb c) [40; 41; 92; 47; 46] || isSpaceUnit c)]));
        End_].

Definition sanitizeChatContent (content : Text) : Err + Text :=
  match content with
  | [] => inl (PlainError "Content must be a non-empty string")
  | _ =>
      let sanitized := normalizeWhitespace content in
      if (length sanitized =? 0)%nat then inl (PlainError "Content cannot be empty or whitespace-only")
      else
        let sanitized := replaceI eventHandler (fun _ => []) sanitized in
        let containsOnlyEncodedText := testI onlyEncodedText sanitized in
        let hasExcessiveRepetition := testI repetition sanitized in
        if isSuspiciousContent sanitized && (negb containsOnlyEncodedText || hasExcessiveRepetition)
        then inl (PlainError "Content contains suspicious patterns or potential injection attempts")
        else inr (escapeHtml sanitized)
  end.

Definition validateContentLength (content : Text) (maxLength : nat) : Err + unit :=
  match content with
  | [] => inl (PlainError "Content must be a non-empty string")
  | _ =>
      if (length (trimUnits content) =? 0)%nat then inl (PlainError "Content cannot be empty or whitespace-only")
      else if (maxLength <? length content)%nat
      then inl (PlainError ("Content exceeds maximum length of " +:+ pretty maxLength +:+ " characters (received "
                            +:+ pretty (length content) +:+ ")"))
      else inr tt
  end.

(** ** The service *)

Definition PROFANITY_LIST : list string :=
  ["fuck"; "shit"; "ass"; "bitch"; "damn"; "bastard"; "crap"; "dick"; "piss"; "cunt"]%string.

Definition filterProfanity (content : Text) : Text :=
  foldl (fun filtered word =>
           replaceI (seqs [WordBoundary; keyword word; WordBoundary]) (fun _ => replicate (String.length word) 42) filtered)
    content PROFANITY_LIST.

End Sanitization.

Definition maskAddress (address : string) : string :=
  if (String.length address <=? 12)%nat then address
  else (slicePrefix 6 address +:+ "..." +:+ String.substring (String.length address - 4) 4 address)%string.

(** A row of the table, with its user's wallet. *)
Record MessageRow : Type := mkMessageRow {
  me_id : string;
  me_userId : string;
  me_content : Text;
  me_createdAt : Z;
  me_walletAddress : string;
}.

Record ChatMessage : Type := mkChatMessage {
  ch_id : string;
  ch_userId : string;
  ch_walletAddress : string;
  ch_content : Text;
  ch_createdAt : Z;
}.

(** The table, in the order of creation, and what was sent to the room. *)
Record ChatWorld : Type := mkChatWorld {
  tw_now : Z;
  tw_messages : list MessageRow;
  tw_broadcast : list ChatMessage;
}.

Section Service.
Context (canonicalize : N -> N).

(** [create]: the identifier the row gets, or the error. *)
Definition createMessage (userId walletAddress : string) (content : Text) (created : Err + string) : M ChatWorld Err MessageRow :=
  match created with
  | inl e => throw e
  | inr id => fun w =>
      let row := mkMessageRow id userId content (tw_now w) walletAddress in
      (inr row, w {{ tw_messages := tw_messages w ++ [row] }})
  end.

Definition emitChatMessage (message : ChatMessage) : M ChatWorld Err unit :=
  modify (fun w => w {{ tw_broadcast := tw_broadcast w ++ [message] }}).

Definition fromResult {A} (r : Err + A) : M ChatWorld Err A := match r with inl e => throw e | inr a => ret a end.

Definition sendMessage (userId walletAddress : string) (content : Text) (created : Err + string) : M ChatWorld Err ChatMessage :=
  fromResult (validateContentLength content 500) ;;;
  sanitizedContent <- fromResult (sanitizeChatContent canonicalize content) ;;
  let sanitizedContent := filterProfanity canonicalize sanitizedContent in
  message <- createMessage userId walletAddress sanitizedContent created ;;
  let chatMessage := mkChatMessage (me_id message) (me_userId message) (maskAddress walletAddress) (me_content message) (me_createdAt message) in
  emitChatMessage chatMessage ;;;
  ret chatMessage.
End Service.

(** ** The history *)

Definition formatMessage (msg : MessageRow) : ChatMessage :=
  mkChatMessage (me_id msg) (me_userId msg) (maskAddress (me_walletAddress msg)) (me_content msg) (me_createdAt msg).

(** [createdAt: 'desc'], and with the identifier behind it. *)
Definition newestMessages (l : list MessageRow) : list MessageRow := sortBy (fun a b => (me_createdAt a <? me_createdAt b)%Z) l.

Definition messagesAfter (a b : MessageRow) : bool :=
  ((me_createdAt a <? me_createdAt b)%Z || ((me_createdAt a =? me_createdAt b)%Z && String.ltb (me_id a) (me_id b))).

Definition getHistory (limit : nat) (w : ChatWorld) : list ChatMessage :=
  map formatMessage (rev (take limit (newestMessages (tw_messages w)))).

Definition getHistoryOffset (limit offset : nat) (w : ChatWorld) : list ChatMessage * OffsetMeta :=
  let rows := take limit (drop offset (newestMessages (tw_messages w))) in
  (map formatMessage (rev rows), buildOffsetMeta limit offset (length (tw_messages w))).

Section Cursors.
Context `{CursorCodec}.
(** [findMany] with [cursor: { id }, skip: 1] over the ordered rows. *)
Context (seek : string -> list MessageRow -> list MessageRow).

(** [decoded.id] *)
Definition messageCursorId (v : Json) : option string :=
  match v with
  | JObj fields => match jsonField "id" fields with Some (JStr i) => Some i | _ => None end
  | _ => None
  end.

Definition messageCursor (m : MessageRow) : list (string * string) :=
  [("createdAt"%string, dateText (me_createdAt m)); ("id"%string, me_id m)].

Definition getHistoryCursor (limit : nat) (cursor : option string) (w : ChatWorld) : Err + (list ChatMessage * CursorMeta) :=
  let all := sortBy messagesAfter (tw_messages w) in
  let page rows :=
    inr (map formatMessage (rev (trimSentinel rows limit)), buildCursorMeta limit rows (fun m => stringObject (messageCursor m))) in
  match usedCursor cursor with
  | None => page (take (limit + 1) all)
  | Some v =>
      match messageCursorId v with
      | Some i => page (take (limit + 1) (seek i all))
      | None => inl (PrismaError "")
      end
  end.
End Cursors.

(** ** What leaves the service *)

(** One unit is matched or not. *)
Lemma replaceAll_unit canonicalize accepts by_ s :
  replaceAll canonicalize (OneUnit accepts) by_ s = List.concat (map (fun c => if accepts c then by_ [c] else [c]) s).
Proof.
  unfold replaceAll. assert (Hgo : forall fuel before rest, (length rest < fuel)%nat ->
    replaceFrom canonicalize fuel (OneUnit accepts) by_ before rest = List.concat (map (fun c => if accepts c then by_ [c] else [c]) rest)).
  { induction fuel as [|fuel IH]; intros before rest Hl; [lia|]. cbn [replaceFrom]. destruct rest as [|c rest]; [done|].
    cbn in Hl. unfold matchLength. cbn [matchHere map List.concat]. destruct (accepts c).
    - change (length (c :: before) - length before)%nat with (S (length before) - length before)%nat.
      replace (S (length before) - length before)%nat with 1%nat by lia. cbn [take drop]. rewrite take_0, drop_0, IH by lia. done.
    - cbn [app]. by rewrite IH by lia. }
  apply Hgo. lia.
Qed.

Lemma entityOf_plain c : existsb (N.eqb c) [38; 60; 62; 34; 39; 47] = false -> entityOf c = [c].
Proof.
  intros Hc. unfold entityOf, HTML_ENTITY_MAP. cbn in Hc. repeat apply orb_false_iff in Hc as [?%N.eqb_neq Hc].
  cbn [find fst]. repeat (match goal with |- context [?a =? c] => destruct (N.eqb_spec a c) as [<-|_]; [done|] end). done.
Qed.

Lemma escapeHtml_entities s : escapeHtml s = List.concat (map entityOf s).
Proof.
  unfold escapeHtml, htmlSpecial, oneOfUnits. rewrite replaceAll_unit. f_equal. apply map_ext. intros c.
  destruct (existsb _ _) eqn:E; [cbn; by rewrite app_nil_r|by rewrite entityOf_plain].
Qed.

(** Not one of the characters that open or close a tag or an attribute. *)
Definition markupFree (c : N) : Prop := c ∉ [60; 62; 34; 39; 47].

#[export] Instance markupFree_dec c : Decision (markupFree c).
Proof. unfold markupFree. apply _. Defined.

Lemma entityOf_markupFree c : Forall markupFree (entityOf c).
Proof.
  destruct (existsb (N.eqb c) [38; 60; 62; 34; 39; 47]) eqn:E.
  - cbn in E. repeat (apply orb_true_iff in E as [->%N.eqb_eq|E]; [by apply (bool_decide_unpack _); vm_compute|]). done.
  - rewrite entityOf_plain by done. constructor; [|constructor]. intros Hin. cbn in E.
    repeat apply orb_false_iff in E as [?%N.eqb_neq E]. repeat (apply elem_of_cons in Hin as [->|Hin]; [congruence|]). by apply not_elem_of_nil in Hin.
Qed.

Lemma escapeHtml_markupFree s : Forall markupFree (escapeHtml s).
Proof.
  rewrite escapeHtml_entities. induction s as [|c s IH]; [constructor|]. apply Forall_app. split; [apply entityOf_markupFree|exact IH].
Qed.

Section Safety.
Context (canonicalize : N -> N).

Lemma sanitized_markupFree content sanitized : sanitizeChatContent canonicalize content = inr sanitized -> Forall markupFree sanitized.
Proof.
  unfold sanitizeChatContent. destruct content; [done|]. case_match; [done|]. case_match; [done|]. intros [= <-]. apply escapeHtml_markupFree.
Qed.

Lemma filterProfanity_markupFree content : Forall markupFree content -> Forall markupFree (filterProfanity canonicalize content).
Proof.
  unfold filterProfanity. generalize PROFANITY_LIST. intros words. revert content.
  induction words as [|word words IH]; intros content Hc; [done|]. cbn [foldl]. apply IH, replaceAll_Forall; [|done].
  intros _. apply Forall_replicate. by apply (bool_decide_unpack _).
Qed.

(** A call of [sendMessage]. *)
Record ChatCall : Type := mkChatCall {
  cl_at : Z;
  cl_userId : string;
  cl_walletAddress : string;
  cl_content : Text;
  cl_created : Err + string;
}.

Definition sendCall (w : ChatWorld) (c : ChatCall) : ChatWorld :=
  final (sendMessage canonicalize (cl_userId c) (cl_walletAddress c) (cl_content c) (cl_created c)) (w {{ tw_now := cl_at c }}).

Definition runChat (calls : list ChatCall) : ChatWorld := foldl sendCall (mkChatWorld 0 [] []) calls.

(** The row a call adds, if its text is accepted and the database takes it. *)
Definition posted (c : ChatCall) : option MessageRow :=
  match validateContentLength (cl_content c) 500, sanitizeChatContent canonicalize (cl_content c), cl_created c with
  | inr _, inr sanitized, inr id =>
      Some (mkMessageRow id (cl_userId c) (filterProfanity canonicalize sanitized) (cl_at c) (cl_walletAddress c))
  | _, _, _ => None
  end.

Lemma sendCall_posted w c :
  tw_messages (sendCall w c) = tw_messages w ++ option_list (posted c) /\
  tw_broadcast (sendCall w c) = tw_broadcast w ++ map formatMessage (option_list (posted c)).
Proof.
  unfold sendCall, final, sendMessage, posted, fromResult, createMessage, emitChatMessage, modify, bind, ret, throw.
  destruct (validateContentLength _ _) as [e|[]]; [destruct w; cbn; by rewrite !app_nil_r|].
  destruct (sanitizeChatContent _ _) as [e|sanitized]; [destruct w; cbn; by rewrite !app_nil_r|].
  generalize (filterProfanity canonicalize sanitized). intros content.
  destruct (cl_created c) as [e|id]; destruct w as [t messages sent]; [by split; symmetry; apply app_nil_r|by split].
Qed.

(** C35. The table holds, in order, one message for every call whose text was
    accepted and stored, by its user; the room was sent exactly these, with the
    wallet masked; and no message that was stored or sent has a character that
    opens or closes a tag, a quotation or a path. *)
Theorem chat_safe calls :
  tw_messages (runChat calls) = omap posted calls /\
  tw_broadcast (runChat calls) = map formatMessage (omap posted calls) /\
  Forall (fun m => Forall markupFree (ch_content m)) (tw_broadcast (runChat calls)).
Proof.
  assert (Hrun : tw_messages (runChat calls) = omap posted calls /\ tw_broadcast (runChat calls) = map formatMessage (omap posted calls)).
  { induction calls as [|c calls [IHm IHb]] using rev_ind; [done|]. unfold runChat in *. rewrite foldl_app, omap_app, map_app. cbn [foldl].
    destruct (sendCall_posted (foldl sendCall (mkChatWorld 0 [] []) calls) c) as [-> ->]. rewrite IHm, IHb.
    assert (E : omap posted [c] = option_list (posted c)) by (cbn; by destruct (posted c)). by rewrite E. }
  destruct Hrun as [Hm Hb]. split; [exact Hm|]. split; [exact Hb|]. rewrite Hb. apply Forall_map, Forall_forall. intros m Hm'.
  apply list_elem_of_omap in Hm' as (c & _ & Hc). unfold posted in Hc.
  destruct (validateContentLength _ _); [done|]. destruct (sanitizeChatContent _ _) as [|sanitized] eqn:Es; [done|].
  destruct (cl_created c); [discriminate|]. injection Hc as <-. exact (filterProfanity_markupFree _ (sanitized_markupFree _ _ Es)).
Qed.
End Safety.

(** What a browser makes of the entities. *)
Fixpoint dropPrefix (p s : Text) : option Text :=
  match p, s with
  | [], _ => Some s
  | a :: p, b :: s => if a =? b then dropPrefix p s else None
  | _ :: _, [] => None
  end.

Definition entityAt (s : Text) : option (N * Text) :=
  head (omap (fun e => match dropPrefix (snd e) s with Some rest => Some (fst e, rest) | None => None end) HTML_ENTITY_MAP).

Fixpoint unescapeFrom (fuel : nat) (s : Text) : Text :=
  match fuel, s with
  | S fuel, c :: rest =>
      match entityAt s with
      | Some (c', rest') => c' :: unescapeFrom fuel rest'
      | None => c :: unescapeFrom fuel rest
      end
  | _, _ => []
  end.

Definition unescapeHtml (s : Text) : Text := unescapeFrom (length s) s.

Lemma entityAt_entity c rest : entityAt (entityOf c ++ rest) =
  if existsb (N.eqb c) [38; 60; 62; 34; 39; 47] then Some (c, rest) else None.
Proof.
  destruct (existsb (N.eqb c) [38; 60; 62; 34; 39; 47]) eqn:E.
  - cbn in E. repeat (apply orb_true_iff in E as [->%N.eqb_eq|E]; [reflexivity|]). done.
  - rewrite entityOf_plain by done. cbn [existsb] in E. repeat apply orb_false_iff in E as [?%N.eqb_neq E].
    assert (Hall : Forall (fun e : N * Text => head (snd e) = Some 38) HTML_ENTITY_MAP) by repeat constructor.
    unfold entityAt. induction Hall as [|e l He _ IH]; [done|]. cbn [omap list_omap].
    destruct (snd e) as [|x t]; [done|]. injection He as ->. cbn [dropPrefix app]. destruct (N.eqb_spec 38 c); [congruence|]. exact IH.
Qed.

(** Escaping loses nothing: the reader sees the text as it was sanitized. *)
Lemma escapeHtml_back s : unescapeHtml (escapeHtml s) = s.
Proof.
  rewrite escapeHtml_entities. unfold unescapeHtml.
  assert (Hgo : forall fuel, (length (List.concat (map entityOf s)) <= fuel)%nat -> unescapeFrom fuel (List.concat (map entityOf s)) = s).
  { induction s as [|c s IH]; intros fuel Hf; [by destruct fuel|]. cbn [map List.concat] in *.
    assert (Hne : exists d t, entityOf c = d :: t /\ (existsb (N.eqb c) [38; 60; 62; 34; 39; 47] = false -> d = c /\ t = [])).
    { destruct (existsb (N.eqb c) [38; 60; 62; 34; 39; 47]) eqn:E; [|rewrite entityOf_plain by done; by exists c, []].
      cbn in E. repeat (apply orb_true_iff in E as [->%N.eqb_eq|E]; [by eexists _, _|]). done. }
    destruct Hne as (d & t & Ed & Hd). pose proof (entityAt_entity c (List.concat (map entityOf s))) as He.
    rewrite Ed in *. rewrite length_app in Hf. cbn in Hf. destruct fuel as [|fuel]; [lia|].
    cbn [app unescapeFrom] in *. rewrite He. destruct (existsb _ _); [by rewrite IH by lia|].
    destruct (Hd eq_refl) as [-> ->]. cbn [app]. by rewrite IH by lia. }
  by apply Hgo.
Qed.
