(* ===== verification/BetRoutes.v ===== *)
(** * Bet requests (src/src/routes/bet-execution.ts, bets.routes.ts, rounds.routes.ts, src/src/middleware/auth.middleware.ts)

    From the headers and the body of a request to what is recorded: the
    authentication of the wallet, the schemas, the idempotency protocol around
    the bet, and the claim. The services behind a route are what they answer
    after the calls made so far; the calls are the state. *)

From Stdlib Require Import ZArith QArith Lia.
From stdpp Require Import base strings list.
From S2P Require Import Prelude.
From S2P Require Import Numeric.
From S2P Require Import Errors.
From S2P Require Import Schema.
From S2P Require Import JsonText.
From S2P Require Import Soroban.
From S2P Require Import Bet.
From S2P Require Import Pagination.
From S2P Require Import Idempotency.

#[local] Open Scope string_scope.
#[local] Open Scope Z_scope.

Notation Fields := (list (string * Json)).

(** ** Requests and answers *)

Inductive UserRole : Type := ROLE_USER | ROLE_ADMIN | ROLE_ORACLE.

#[export] Instance UserRole_EqDecision : EqDecision UserRole.
Proof. solve_decision. Defined.

Record JwtPayload : Type := mkPayload { jp_userId : string; jp_walletAddress : string; jp_role : UserRole }.

Record HttpRequest : Type := mkHttpRequest {
  hr_authorization : option string;
  hr_idempotencyKey : option string;
  hr_body : option Fields;
  hr_requestId : option string;
}.

(** What the client gets: a response, or what [next] passes to the error handler. *)
Inductive Answer : Type :=
| Sent (status : Z) (body : Json)
| Next (e : Err).

(** The errors the idempotency utilities throw, and others. *)
Inductive RouteErr : Type :=
| LockUnavailable    (* DistributedIdempotencyLockUnavailableError *)
| StoreUnavailable   (* IdempotencyStoreUnavailableError *)
| Thrown (e : Err).

Definition errorBody (message : string) : Json := JObj [("error", JStr message)].

(** ** Authentication (auth.middleware.ts) *)

Definition bearer (authorization : option string) : option string :=
  match truthy authorization with
  | Some h => if String.prefix "Bearer " h then Some (String.substring 7 (String.length h - 7) h) else None
  | None => None
  end.

Section Authentication.
Context (verifyToken : string -> option JwtPayload).

(** The payload that is attached, or the answer. *)
Definition verifyStellarAuth (authorization : option string) : Answer + JwtPayload :=
  match bearer authorization with
  | None => inl (Sent 401 (errorBody "No token provided"))
  | Some token =>
      match verifyToken token with
      | Some p => if String.eqb (jp_walletAddress p) "" then inl (Sent 401 (errorBody "Invalid or expired token")) else inr p
      | None => inl (Sent 401 (errorBody "Invalid or expired token"))
      end
  end.

Fixpoint setField (k : string) (v : Json) (fields : Fields) : Fields :=
  match fields with
  | [] => [(k, v)]
  | (k', v') :: fields => if String.eqb k k' then (k, v) :: fields else (k', v') :: setField k v fields
  end.

(** The body with the wallet of the token. *)
Definition bindAuthenticatedWallet (user : JwtPayload) (body : option Fields) : Answer + Fields :=
  if String.eqb (jp_walletAddress user) "" then inl (Sent 401 (errorBody "No token provided"))
  else
    match body with
    | None => inl (Next (PlainError "Cannot set properties of undefined (setting 'address')"))
    | Some fields =>
        let bound := inr (setField "address" (JStr (jp_walletAddress user)) fields) in
        match jsonField "address" fields with
        | Some a =>
            if jsonTruthy a && negb (match a with JStr s => String.eqb s (jp_walletAddress user) | _ => false end)
            then inl (Sent 403 (errorBody "Wallet address does not match authenticated user"))
            else bound
        | None => bound
        end
    end.

(** The row of a user, as the guard reads it; [inl]: the query fails. *)
Definition loadUserFromBearerToken (findUser : string -> Err + option JwtPayload) (authorization : option string)
    : Err + option JwtPayload :=
  match bearer authorization with
  | None => inr None
  | Some token => match verifyToken token with None => inr None | Some p => findUser (jp_userId p) end
  end.

Definition requireRole (findUser : string -> Err + option JwtPayload) (allowedRoles : list UserRole) (forbiddenMessage : string)
    (authorization : option string) : Answer + JwtPayload :=
  match loadUserFromBearerToken findUser authorization with
  | inl _ => inl (Sent 401 (errorBody "Authentication failed"))
  | inr None =>
      let hasHeader := match authorization with Some h => String.prefix "Bearer " h | None => false end in
      inl (Sent 401 (errorBody (if hasHeader then "Invalid or expired token" else "No token provided")))
  | inr (Some user) => if bool_decide (jp_role user ∈ allowedRoles) then inr user else inl (Sent 403 (errorBody forbiddenMessage))
  end.

Definition authenticateUser findUser := requireRole findUser [ROLE_USER; ROLE_ADMIN; ROLE_ORACLE] "You do not have permission to access this resource".
Definition requireAdmin findUser := requireRole findUser [ROLE_ADMIN] "Admin access required".
Definition requireOracle findUser := requireRole findUser [ROLE_ORACLE; ROLE_ADMIN] "Oracle or Admin access required".

Definition optionalAuthentication (findUser : string -> Err + option JwtPayload) (authorization : option string) : option JwtPayload :=
  match loadUserFromBearerToken findUser authorization with inr (Some user) => Some user | _ => None end.

(** Does the scrape pass? [inl] is the answer of [requireAdmin]. *)
Definition requireMetricsAuth (findUser : string -> Err + option JwtPayload) (metricsScrapeToken authorization : option string)
    : Answer + unit :=
  match truthy metricsScrapeToken with
  | Some t => if bool_decide (authorization = Some ("Bearer " +:+ t)%string) then inr tt
              else match requireAdmin findUser authorization with inl a => inl a | inr _ => inr tt end
  | None => match requireAdmin findUser authorization with inl a => inl a | inr _ => inr tt end
  end.
End Authentication.

(** ** Schemas (bets.schema.ts) *)

Section Schemas.
Context (isValidStellarAddress : string -> bool).

Definition addressField (body : Fields) : option string :=
  match jsonField "address" body with
  | Some (JStr s) => if negb (String.eqb s "") && isValidStellarAddress s then Some s else None
  | _ => None
  end.

(** [z.number().positive()]: no text, no infinity, above zero. *)
Definition positiveField (name : string) (body : Fields) : option Q :=
  match jsonField name body with
  | Some (JNum (Fin q)) => if Qlt_le_dec 0 q then Some q else None
  | _ => None
  end.

Definition sideField (body : Fields) : option PredictionSide :=
  match jsonField "side" body with
  | Some (JStr s) => if String.eqb s "UP" then Some UP else if String.eqb s "DOWN" then Some DOWN else None
  | _ => None
  end.

Inductive BetBody : Type :=
| UpDownBody (address : string) (amount : Q) (side : PredictionSide)
| PrecisionBody (address : string) (amount predictedPrice : Q).

Definition upDownBetSchema (body : Fields) : option BetBody :=
  match addressField body, positiveField "amount" body, sideField body with
  | Some a, Some n, Some s => Some (UpDownBody a n s)
  | _, _, _ => None
  end.

Definition precisionBetSchema (body : Fields) : option BetBody :=
  match addressField body, positiveField "amount" body, positiveField "predictedPrice" body with
  | Some a, Some n, Some p => Some (PrecisionBody a n p)
  | _, _, _ => None
  end.

Definition betSchema (body : Fields) : option BetBody :=
  match upDownBetSchema body with
  | Some b => Some b
  | None => precisionBetSchema body
  end.

Definition claimWinningsSchema (body : Fields) : option string := addressField body.
End Schemas.

(** The body the handler sees: what the schema keeps. *)
Definition bodyFields (b : BetBody) : Fields :=
  match b with
  | UpDownBody a n s => [("address", JStr a); ("amount", JNum (Fin n)); ("side", JStr (PredictionSide_str s))]
  | PrecisionBody a n p => [("address", JStr a); ("amount", JNum (Fin n)); ("predictedPrice", JNum (Fin p))]
  end.

(** ** What a route calls *)

Inductive BetKind : Type := up_down | precision_.

Inductive BetInput : Type :=
| UpDownInput (input : UpDownBetInput)
| PrecisionInput (input : PrecisionBetInput).

(** A prediction to submit ([predictions.schema.ts]). *)
Record SubmitBody : Type := mkSubmitBody {
  sb_roundId : string;
  sb_amount : Q;
  sb_side : option string;
  sb_priceRange : option (Q * Q);
}.

(** [recorded], [claimed], [placed], [submitted]: the call returned. *)
Inductive RouteCall : Type :=
| AcquireCall (userId endpoint key : string) (body : Fields)
| RecordCall (input : BetInput) (key requestId : option string) (recorded : bool)
| StoreCall (userId endpoint key : string) (body : Fields) (status : Z) (response : Json)
| ReleaseCall (userId endpoint key : string)
| ClaimCall (address : string) (key requestId : option string) (claimed : bool)
| RepositoryCall (roundId : string) (body : BetBody) (placed : bool)
| InvalidateCall (namespace : string)
| SubmitCall (userId : string) (prediction : SubmitBody) (submitted : bool).

(** How the wait for the lock of a key ends: with the lock, with Redis down, or
    with another replica still holding it. *)
Inductive LockAnswer : Type := LockHeld | LockDown | LockBusy.

(** What the services answer, given the calls so far. *)
Class RouteServices : Type := {
  lockAnswer : list RouteCall -> LockAnswer;
  acquireAnswer : list RouteCall -> RouteErr + IdempotencyResult;
  recordAnswer : list RouteCall -> RouteErr + BetResult;
  storeAnswer : list RouteCall -> RouteErr + unit;
  claimAnswer : list RouteCall -> RouteErr + ClaimResult;
  repositoryAnswer : list RouteCall -> RouteErr + unit;
  submitAnswer : list RouteCall -> RouteErr + Prediction;
}.

(** The calls, the first first, and the variables of the handler. *)
Record RouteWorld : Type := mkRouteWorld {
  rw_calls : list RouteCall;
  rw_lockAcquired : bool;
  rw_operationCompleted : bool;
}.

Definition newRouteWorld : RouteWorld := mkRouteWorld [] false false.

#[local] Notation Route A := (M RouteWorld RouteErr A).

Definition returned {A} (r : RouteErr + A) : bool := match r with inr _ => true | inl _ => false end.

(** A call that returns or throws what [answer] says. *)
Definition called {A} (answer : list RouteCall -> RouteErr + A) (call : bool -> RouteCall) : Route A := fun w =>
  let r := answer (rw_calls w) in (r, w {{ rw_calls := (rw_calls w ++ [call (returned r)])%list }}).

Definition noted (call : RouteCall) : Route unit := modify (fun w => w {{ rw_calls := (rw_calls w ++ [call])%list }}).

Definition INVALID_KEY : string := "Invalid Idempotency-Key format. Must be 8-255 alphanumeric characters.".
Definition STORE_DOWN : string := "Idempotency store unavailable. Please try again.".
Definition LOCK_DOWN : string := "Distributed idempotency lock unavailable. Please try again.".

Definition ALREADY_IN_PROGRESS : string := "A request with this idempotency key is already in progress.".

Section Routes.
Context `{RouteServices} (betStatusText : BetStatus -> string) (numberOf : Q -> num).

(** [withDistributedIdempotencyLock]: the callback runs, the lock is not
    available, or another replica has kept it for the whole wait. *)
Definition withLock {A} (execute : Route A) : Route A := fun w =>
  match lockAnswer (rw_calls w) with
  | LockHeld => execute w
  | LockDown => (inl LockUnavailable, w)
  | LockBusy => (inl (Thrown (ConflictError ALREADY_IN_PROGRESS IDEMPOTENCY_KEY_CONFLICT)), w)
  end.

(** The beginning of both handlers: the replay of a stored response, or the
    lock of the key. *)
Definition acquireKey (userId endpoint : string) (idempotencyKey : option string) (body : Fields) : Route (option Answer) :=
  match truthy idempotencyKey with
  | None => ret None
  | Some key =>
      if negb (isValidIdempotencyKey key) then throw (Thrown (ValidationError INVALID_KEY))
      else
        lockResult <- called acquireAnswer (fun _ => AcquireCall userId endpoint key body) ;;
        match ir_isIdempotent lockResult, ir_cachedResponse lockResult with
        | true, Some (status, cached) => ret (Some (Sent status cached))
        | _, _ =>
            match ir_error lockResult with
            | Some e =>
                if String.eqb e IDEMPOTENCY_STORE_UNAVAILABLE then throw (Thrown (ExternalServiceError STORE_DOWN EXTERNAL_SERVICE_ERROR))
                else if String.eqb e "" then modify (fun w => w {{ rw_lockAcquired := ir_lockAcquired lockResult }}) ;;; ret None
                else throw (Thrown (ConflictError e IDEMPOTENCY_KEY_CONFLICT))
            | None => modify (fun w => w {{ rw_lockAcquired := ir_lockAcquired lockResult }}) ;;; ret None
            end
        end
  end.

(** The end of both: the response is stored under the key. *)
Definition storeKey (userId endpoint : string) (idempotencyKey : option string) (body : Fields) (response : Json) : Route unit :=
  match truthy idempotencyKey with
  | Some key =>
      locked <- gets rw_lockAcquired ;;
      when locked (called storeAnswer (fun _ => StoreCall userId endpoint key body 200 response))
  | None => ret tt
  end.

(** The catch clauses; [release]: is the key's lock given back? *)
Definition handleFailure (userId endpoint : string) (idempotencyKey : option string) (release : RouteWorld -> bool) (e : RouteErr)
    : Route Answer :=
  released <- gets release ;;
  match truthy idempotencyKey with
  | Some key => when released (noted (ReleaseCall userId endpoint key))
  | None => ret tt
  end ;;;
  ret (Next match e with
            | LockUnavailable => ExternalServiceError LOCK_DOWN EXTERNAL_SERVICE_ERROR
            | StoreUnavailable => ExternalServiceError STORE_DOWN EXTERNAL_SERVICE_ERROR
            | Thrown e => e
            end).

(** Under the distributed lock if there is a key. *)
Definition guarded (idempotencyKey : option string) (execute : Route Answer) : Route Answer :=
  match truthy idempotencyKey with Some _ => withLock execute | None => execute end.

(** ** Bets (bet-execution.ts) *)

Definition routePlaceBet (kind : BetKind) (body : BetBody) (roundId idempotencyKey requestId : option string) : Route BetResult :=
  let input := match kind, body with
               | up_down, UpDownBody a n s => Some (UpDownInput (mkUpDownInput a n s (truthy roundId)))
               | precision_, PrecisionBody a n p => Some (PrecisionInput (mkPrecisionInput a n p (truthy roundId)))
               | _, _ => None
               end in
  match input with
  | Some input => called recordAnswer (RecordCall input idempotencyKey requestId)
  | None => throw (Thrown (PlainError ""))
  end.

Definition toBetResponseData (kind : BetKind) (result : BetResult) : Fields :=
  let stub := String.eqb (bres_state result) "stub" in
  let label := match kind with precision_ => "Precision bet" | up_down => "Bet" end in
  ([("message", JStr (if stub then label +:+ " recorded (stub)" else label +:+ " placed on-chain"));
    ("state", JStr (bres_state result)); ("betId", JStr (bres_betId result)); ("status", JStr (betStatusText (bres_status result)))]
   ++ match truthy (bres_txHash result) with Some h => [("txHash", JStr h)] | None => [] end)%list.

Record ExecuteBetOptions : Type := mkBetOptions { eo_kind : BetKind; eo_endpoint : string; eo_roundId : option string }.

(** [execute] *)
Definition betExecution (user : JwtPayload) (idempotencyKey requestId : option string) (body : BetBody) (o : ExecuteBetOptions)
    : Route Answer :=
  replayed <- acquireKey (jp_userId user) (eo_endpoint o) idempotencyKey (bodyFields body) ;;
  match replayed with
  | Some answer => ret answer
  | None =>
      result <- routePlaceBet (eo_kind o) body (eo_roundId o) idempotencyKey requestId ;;
      modify (fun w => w {{ rw_operationCompleted := true }}) ;;;
      noted (InvalidateCall "bets") ;;; noted (InvalidateCall "rounds") ;;;
      noted (InvalidateCall "leaderboard") ;;; noted (InvalidateCall "stats") ;;;
      let responseBody := JObj [("success", JBool true); ("data", JObj (toBetResponseData (eo_kind o) result))] in
      storeKey (jp_userId user) (eo_endpoint o) idempotencyKey (bodyFields body) responseBody ;;;
      ret (Sent 200 responseBody)
  end.

(** The lock is given back while the bet has not been placed. *)
Definition stillReleasable (w : RouteWorld) : bool := rw_lockAcquired w && negb (rw_operationCompleted w).

Definition executeBet (user : JwtPayload) (idempotencyKey requestId : option string) (body : BetBody) (o : ExecuteBetOptions)
    : Route Answer :=
  catch (guarded idempotencyKey (betExecution user idempotencyKey requestId body o))
    (handleFailure (jp_userId user) (eo_endpoint o) idempotencyKey stillReleasable).

(** ** Claims (bets.routes.ts) *)

Definition claimHandler (user : JwtPayload) (idempotencyKey requestId : option string) (address : string) : Route Answer :=
  let userId := jp_userId user in
  let endpoint := "/api/bets/claim" in
  let body := [("address", JStr address)] in
  let execute :=
    replayed <- acquireKey userId endpoint idempotencyKey body ;;
    match replayed with
    | Some answer => ret answer
    | None =>
        result <- called claimAnswer (ClaimCall address idempotencyKey requestId) ;;
        let responseBody := JObj
          ([("success", JBool true);
            ("message", JStr (if String.eqb (cl_state result) "stub" then "Claim recorded (stub)" else "Winnings claimed on-chain"));
            ("state", JStr (cl_state result)); ("amount", JNum (numberOf (cl_amount result)))]
           ++ match truthy (cl_txHash result) with Some h => [("txHash", JStr h)] | None => [] end
           ++ match truthy requestId with Some r => [("requestId", JStr r)] | None => [] end)%list in
        storeKey userId endpoint idempotencyKey body responseBody ;;;
        ret (Sent 200 responseBody)
    end in
  catch (guarded idempotencyKey execute) (handleFailure userId endpoint idempotencyKey rw_lockAcquired).

(** ** The routes *)

Context (verifyToken : string -> option JwtPayload) (isValidStellarAddress : string -> bool).
(** The body with which the limiter refuses, and the message of a failed schema. *)
Context (limited : option Json) (zodMessage : Fields -> string).

(** [verifyStellarAuth], [bindAuthenticatedWallet], the limiter, [validate]. *)
Definition authenticated {B} (schema : Fields -> option B) (limit : option Json) (req : HttpRequest) : Answer + (JwtPayload * B) :=
  match verifyStellarAuth verifyToken (hr_authorization req) with
  | inl a => inl a
  | inr user =>
      match bindAuthenticatedWallet user (hr_body req) with
      | inl a => inl a
      | inr fields =>
          match limit with
          | Some tooMany => inl (Sent 429 tooMany)
          | None =>
              match schema fields with
              | Some body => inr (user, body)
              | None => inl (Next (ValidationError (zodMessage fields)))
              end
          end
      end
  end.

Definition betRoute (schema : Fields -> option BetBody) (optionsOf : BetBody -> ExecuteBetOptions) (req : HttpRequest) : Route Answer :=
  match authenticated schema limited req with
  | inl a => ret a
  | inr (user, body) => executeBet user (hr_idempotencyKey req) (hr_requestId req) body (optionsOf body)
  end.

Definition kindOf (body : BetBody) : BetKind := match body with PrecisionBody _ _ _ => precision_ | UpDownBody _ _ _ => up_down end.

(** POST /api/bets/up-down, /api/bets/precision, /api/rounds/:id/bet *)
Definition postUpDown : HttpRequest -> Route Answer :=
  betRoute (upDownBetSchema isValidStellarAddress) (fun _ => mkBetOptions up_down "/api/bets/up-down" None).

Definition postPrecision : HttpRequest -> Route Answer :=
  betRoute (precisionBetSchema isValidStellarAddress) (fun _ => mkBetOptions precision_ "/api/bets/precision" None).

Definition postRoundBet (id : string) : HttpRequest -> Route Answer :=
  betRoute (betSchema isValidStellarAddress) (fun body => mkBetOptions (kindOf body) "/api/rounds/:id/bet" (Some id)).

(** The hackathon routes record in the repository first. *)
Definition hackathonRoute (schema : Fields -> option BetBody) (o : ExecuteBetOptions) (id : string) (req : HttpRequest) : Route Answer :=
  match authenticated schema limited req with
  | inl a => ret a
  | inr (user, body) =>
      placed <- catch (called repositoryAnswer (RepositoryCall id body) ;;; ret None) (fun e => ret (Some e)) ;;
      match placed with
      | Some e => ret (Next match e with Thrown e => e | _ => PlainError "" end)
      | None => executeBet user (hr_idempotencyKey req) (hr_requestId req) body o
      end
  end.

Definition postHackathonUpDown (id : string) : HttpRequest -> Route Answer :=
  hackathonRoute (upDownBetSchema isValidStellarAddress) (mkBetOptions up_down "/api/rounds/hackathon/up-down/:id/bet" (Some id)) id.

Definition postHackathonPrecision (id : string) : HttpRequest -> Route Answer :=
  hackathonRoute (precisionBetSchema isValidStellarAddress) (mkBetOptions precision_ "/api/rounds/hackathon/precision/:id/bet" (Some id)) id.

(** POST /api/bets/claim; a missing body becomes an empty one. *)
Definition postClaim (req : HttpRequest) : Route Answer :=
  match authenticated (claimWinningsSchema isValidStellarAddress) None (req {{ hr_body := Some (default [] (hr_body req)) }}) with
  | inl a => ret a
  | inr (user, address) => claimHandler user (hr_idempotencyKey req) (hr_requestId req) address
  end.
End Routes.

(** ** What a bet request comes to *)

Section Outcomes.
Context `{RouteServices} (betStatusText : BetStatus -> string) (numberOf : Q -> num).

Definition inputOf (kind : BetKind) (body : BetBody) (roundId : option string) : option BetInput :=
  match kind, body with
  | up_down, UpDownBody a n s => Some (UpDownInput (mkUpDownInput a n s (truthy roundId)))
  | precision_, PrecisionBody a n p => Some (PrecisionInput (mkPrecisionInput a n p (truthy roundId)))
  | _, _ => None
  end.

Definition invalidations : list RouteCall := map InvalidateCall ["bets"; "rounds"; "leaderboard"; "stats"].

(** The calls before the bet. *)
Definition acquisition (userId endpoint : string) (key : option string) (body : Fields) : list RouteCall :=
  match truthy key with Some k => [AcquireCall userId endpoint k body] | None => [] end.

(** The calls a request can make, in order, and the answer. *)
Inductive betOutcome (userId endpoint : string) (key requestId : option string) (body : Fields) (input : BetInput) :
    list RouteCall -> Answer -> Prop :=
| OutRefused e : truthy key <> None -> betOutcome userId endpoint key requestId body input [] (Next e)
| OutAcquired answer :
    match answer with Sent status cached => exists calls r, acquireAnswer calls = inr r /\ ir_cachedResponse r = Some (status, cached) | Next _ => True end ->
    truthy key <> None -> betOutcome userId endpoint key requestId body input (acquisition userId endpoint key body) answer
| OutNotRecorded e release : (release = [] \/ exists k, truthy key = Some k /\ release = [ReleaseCall userId endpoint k]) ->
    betOutcome userId endpoint key requestId body input
      (acquisition userId endpoint key body ++ RecordCall input key requestId false :: release) (Next e)
| OutRecorded result response stored answer :
    (stored = [] \/ exists k, truthy key = Some k /\ stored = [StoreCall userId endpoint k body 200 response]) ->
    (exists calls, recordAnswer calls = inr result) ->
    (answer = Sent 200 response \/ exists e, stored <> [] /\ answer = Next e) ->
    betOutcome userId endpoint key requestId body input
      (acquisition userId endpoint key body ++ RecordCall input key requestId true :: invalidations ++ stored) answer.

(** The beginning of a handler. *)
Lemma acquireKey_outcome userId endpoint key body :
  let w0 := newRouteWorld in
  let calls := acquisition userId endpoint key body in
  (exists e w, acquireKey userId endpoint key body w0 = (inl (Thrown e), w) /\ truthy key <> None /\
     (rw_calls w = [] \/ rw_calls w = calls) /\ rw_lockAcquired w = false) \/
  (exists e, acquireKey userId endpoint key body w0 = (inl e, mkRouteWorld calls false false) /\ truthy key <> None) \/
  (exists status cached r, acquireKey userId endpoint key body w0 = (inr (Some (Sent status cached)), mkRouteWorld calls false false) /\
     truthy key <> None /\ acquireAnswer [] = inr r /\ ir_cachedResponse r = Some (status, cached)) \/
  (exists locked, acquireKey userId endpoint key body w0 = (inr None, mkRouteWorld calls locked false) /\
     (locked = true -> truthy key <> None)).
Proof.
  unfold acquireKey, acquisition. destruct (truthy key) as [k|] eqn:Ek; [|right; right; right; by exists false].
  destruct (isValidIdempotencyKey k); cbn [negb]; [|left; eexists _, _; split; [reflexivity|]; split; [congruence|]; split; [by left|done]].
  assert (Ec : called acquireAnswer (fun _ => AcquireCall userId endpoint k body) newRouteWorld =
    (acquireAnswer [], mkRouteWorld [AcquireCall userId endpoint k body] false false)) by done.
  destruct (acquireAnswer []) as [e|r] eqn:Ea; [right; left; exists e; unfold bind; by rewrite Ec|].
  rewrite (bind_ok _ _ _ _ _ Ec). clear Ec.
  destruct (ir_isIdempotent r), (ir_cachedResponse r) as [[status cached]|] eqn:Ec;
    [right; right; left; by exists status, cached, r|..];
    (destruct (ir_error r) as [e|]; [|right; right; right; by exists (ir_lockAcquired r)]);
    (destruct (String.eqb e IDEMPOTENCY_STORE_UNAVAILABLE);
      [left; eexists _, _; split; [reflexivity|]; split; [congruence|]; split; [by right|done]|]);
    (destruct (String.eqb e ""); [right; right; right; by exists (ir_lockAcquired r)|]);
    left; eexists _, _; (split; [reflexivity|]; split; [congruence|]; split; [by right|done]).
Qed.

(** The end of a handler whose call has returned. *)
Lemma storeKey_outcome userId endpoint key body response calls locked done_ :
  exists stored r, storeKey userId endpoint key body response (mkRouteWorld calls locked done_) = (r, mkRouteWorld (calls ++ stored) locked done_) /\
    (stored = [] \/ exists k, truthy key = Some k /\ locked = true /\ stored = [StoreCall userId endpoint k body 200 response]) /\
    (r = inr tt \/ stored <> []).
Proof.
  unfold storeKey. destruct (truthy key) as [k|]; [|exists [], (inr tt); rewrite app_nil_r; split_and!; [done|by left|by left]].
  unfold bind, gets, when. cbn [rw_lockAcquired]. destruct locked; [|exists [], (inr tt); rewrite app_nil_r; split_and!; [done|by left|by left]].
  unfold called. cbn [rw_calls]. eexists [_], _. split; [reflexivity|]. split; [right; by exists k|by right].
Qed.

Lemma handleFailure_outcome userId endpoint key release err w :
  exists e rel, handleFailure userId endpoint key release err w = (inr (Next e), w {{ rw_calls := (rw_calls w ++ rel)%list }}) /\
    (rel = [] \/ release w = true /\ exists k, truthy key = Some k /\ rel = [ReleaseCall userId endpoint k]).
Proof.
  unfold handleFailure, bind, gets. destruct w as [calls l d]. destruct (truthy key) as [k|].
  - destruct (release _) eqn:Er; [|eexists _, []; split; [cbn; by rewrite app_nil_r|by left]].
    eexists _, [_]. split; [reflexivity|]. right. split; [done|by exists k].
  - eexists _, []. split; [cbn; by rewrite app_nil_r|by left].
Qed.

Lemma betExecution_outcome user key requestId body o input : inputOf (eo_kind o) body (eo_roundId o) = Some input ->
  let acquired := acquisition (jp_userId user) (eo_endpoint o) key (bodyFields body) in
  exists r w, betExecution betStatusText user key requestId body o newRouteWorld = (r, w) /\
    ((exists e, r = inl e /\ truthy key <> None /\ (rw_calls w = [] \/ rw_calls w = acquired) /\ stillReleasable w = false) \/
     (exists status cached a, r = inr (Sent status cached) /\ truthy key <> None /\ rw_calls w = acquired /\
        acquireAnswer [] = inr a /\ ir_cachedResponse a = Some (status, cached)) \/
     (exists e, r = inl e /\ rw_calls w = (acquired ++ [RecordCall input key requestId false])%list) \/
     (exists result response stored, rw_calls w = (acquired ++ RecordCall input key requestId true :: invalidations ++ stored)%list /\
        recordAnswer acquired = inr result /\ stillReleasable w = false /\
        (stored = [] \/ exists k, truthy key = Some k /\
           stored = [StoreCall (jp_userId user) (eo_endpoint o) k (bodyFields body) 200 response]) /\
        (r = inr (Sent 200 response) \/ (exists e, r = inl e) /\ stored <> []))).
Proof.
  intros Hi acquired. unfold betExecution.
  destruct (acquireKey_outcome (jp_userId user) (eo_endpoint o) key (bodyFields body))
    as [(e & w & E & Hkey & Hcalls & Hl)|[(e & E & Hkey)|[(st & c & a & E & Hkey & Ha & Hc)|(locked & E & Hlocked)]]]; fold acquired in E.
  - exists (inl (Thrown e)), w. split; [unfold bind at 1; by rewrite E|]. left. exists (Thrown e). unfold stillReleasable. by rewrite Hl.
  - eexists _, _. split; [unfold bind at 1; by rewrite E|]. left. exists e. by split_and!; [| |right|].
  - eexists _, _. rewrite (bind_ok _ _ _ _ _ E). split; [reflexivity|]. right; left. by exists st, c, a.
  - rewrite (bind_ok _ _ _ _ _ E). unfold routePlaceBet. fold (inputOf (eo_kind o) body (eo_roundId o)). rewrite Hi.
    assert (Er : called recordAnswer (RecordCall input key requestId) (mkRouteWorld acquired locked false) =
      (recordAnswer acquired, mkRouteWorld (acquired ++ [RecordCall input key requestId (returned (recordAnswer acquired))]) locked false)) by done.
    destruct (recordAnswer acquired) as [e|result] eqn:Ea.
    + eexists _, _. split; [unfold bind at 1; by rewrite Er|]. right; right; left. by exists e.
    + rewrite (bind_ok _ _ _ _ _ Er). set (response := JObj _).
      destruct (storeKey_outcome (jp_userId user) (eo_endpoint o) key (bodyFields body) response
        (acquired ++ RecordCall input key requestId true :: invalidations) locked true) as (stored & rs & Es & Hst & Hrs).
      exists (match rs with inl e => inl e | inr _ => inr (Sent 200 response) end).
      exists (mkRouteWorld ((acquired ++ RecordCall input key requestId true :: invalidations) ++ stored) locked true). split.
      * match goal with |- ?l = _ => change l with
          ((storeKey (jp_userId user) (eo_endpoint o) key (bodyFields body) response ;;; ret (Sent 200 response))
             (mkRouteWorld (((((acquired ++ [RecordCall input key requestId true]) ++ [InvalidateCall "bets"]) ++ [InvalidateCall "rounds"])
                              ++ [InvalidateCall "leaderboard"]) ++ [InvalidateCall "stats"]) locked true)) end.
        rewrite <- !app_assoc. cbn [app]. unfold invalidations in Es |- *. cbn [map] in Es |- *. rewrite <- !app_assoc in Es. cbn [app] in Es |- *.
        unfold bind. rewrite Es. by destruct rs.
      * right; right; right. exists result, response, stored. cbn [rw_calls]. rewrite <- app_assoc. split_and!; [done..| | |].
        -- unfold stillReleasable. cbn. by rewrite andb_false_r.
        -- destruct Hst as [->|(k & ? & _ & ->)]; [by left|right; by exists k].
        -- destruct rs as [e|[]]; [right|by left]. split; [by exists e|]. by destruct Hrs.
Qed.

Lemma executeBet_outcome user key requestId body o input : inputOf (eo_kind o) body (eo_roundId o) = Some input ->
  exists answer w, executeBet betStatusText user key requestId body o newRouteWorld = (inr answer, w) /\
    betOutcome (jp_userId user) (eo_endpoint o) key requestId (bodyFields body) input (rw_calls w) answer.
Proof.
  intros Hi. unfold executeBet, catch.
  assert (Hexec : (truthy key <> None /\ exists le, guarded key (betExecution betStatusText user key requestId body o) newRouteWorld = (inl le, newRouteWorld)) \/
    guarded key (betExecution betStatusText user key requestId body o) newRouteWorld = betExecution betStatusText user key requestId body o newRouteWorld).
  { unfold guarded, withLock. destruct (truthy key); [|by right]. cbn [newRouteWorld rw_calls]. destruct (lockAnswer []); [by right|left; by eauto..]. }
  destruct Hexec as [[Hkey [le ->]]| ->].
  { destruct (handleFailure_outcome (jp_userId user) (eo_endpoint o) key stillReleasable le newRouteWorld) as (e & rel & -> & Hrel).
    eexists _, _. split; [reflexivity|]. cbn. destruct Hrel as [->|[Hr _]]; [by apply OutRefused|done]. }
  destruct (betExecution_outcome user key requestId body o input Hi) as (r & w & -> & Hw).
  assert (Hfail : forall err, exists e rel, handleFailure (jp_userId user) (eo_endpoint o) key stillReleasable err w =
    (inr (Next e), w {{ rw_calls := (rw_calls w ++ rel)%list }}) /\
      (rel = [] \/ stillReleasable w = true /\ exists k, truthy key = Some k /\ rel = [ReleaseCall (jp_userId user) (eo_endpoint o) k]))
    by (intros err; apply handleFailure_outcome).
  destruct Hw as [(e & -> & Hkey & Hcalls & Hrel)|[(st & c & a & -> & Hkey & Hcalls & Ha & Hc)|[(e & -> & Hcalls)|(result & response & stored & Hcalls & Ha & Hrel & Hst & Hr)]]].
  - destruct (Hfail e) as (e' & rel & -> & [->|[Hr _]]); [|congruence]. eexists _, _. split; [reflexivity|]. cbn. rewrite app_nil_r.
    destruct Hcalls as [->| ->]; [by apply OutRefused|by apply OutAcquired].
  - eexists _, _. split; [reflexivity|]. rewrite Hcalls. apply OutAcquired; [by eauto|done].
  - destruct (Hfail e) as (e' & rel & -> & Hrel). eexists _, _. split; [reflexivity|]. cbn. rewrite Hcalls, <- app_assoc. cbn.
    apply OutNotRecorded. destruct Hrel as [->|(_ & k & ? & ->)]; [by left|right; by exists k].
  - destruct Hr as [->|[[e ->] Hne]].
    + eexists _, _. split; [reflexivity|]. rewrite Hcalls. eapply OutRecorded; [done|by eauto|by left].
    + destruct (Hfail e) as (e' & rel & -> & [->|[Hr _]]); [|congruence]. eexists _, _. split; [reflexivity|]. cbn. rewrite app_nil_r, Hcalls.
      eapply OutRecorded; [done|by eauto|right; by exists e'].
Qed.
End Outcomes.

(** ** A bet is placed for the caller, at most once, and stays placed *)

Definition inputWallet (input : BetInput) : string :=
  match input with UpDownInput i => ud_address i | PrecisionInput i => pi_address i end.

Definition inputAmount (input : BetInput) : Q :=
  match input with UpDownInput i => ud_amount i | PrecisionInput i => pi_amount i end.

Definition isRecord (c : RouteCall) : bool := match c with RecordCall _ _ _ _ => true | _ => false end.

Definition isRecorded (c : RouteCall) : bool := match c with RecordCall _ _ _ ok => ok | _ => false end.

Lemma jsonField_set k v fields : jsonField k (setField k v fields) = Some v.
Proof.
  induction fields as [|[k' v'] fields IH]; cbn; [by rewrite String.eqb_refl|].
  destruct (String.eqb_spec k k') as [->|Hne]; cbn; [by rewrite String.eqb_refl|].
  destruct (String.eqb_spec k k'); [done|exact IH].
Qed.

Section Routed.
Context `{RouteServices} (betStatusText : BetStatus -> string).
Context (verifyToken : string -> option JwtPayload) (isValidStellarAddress : string -> bool).
Context (limited : option Json) (zodMessage : Fields -> string).

(** The bodies a schema lets through are bodies of the bound wallet. *)
Definition boundSchema (schema : Fields -> option BetBody) (kind : BetBody -> BetKind) : Prop :=
  forall fields body roundId, schema fields = Some body -> exists input, inputOf (kind body) body roundId = Some input /\
    jsonField "address" fields = Some (JStr (inputWallet input)) /\ isValidStellarAddress (inputWallet input) = true /\ (0 < inputAmount input)%Q.

Lemma addressField_some fields a : addressField isValidStellarAddress fields = Some a ->
  jsonField "address" fields = Some (JStr a) /\ isValidStellarAddress a = true.
Proof.
  unfold addressField. destruct (jsonField _ fields) as [[]|]; try done. destruct (negb (String.eqb s "")); [|done]. cbn.
  destruct (isValidStellarAddress s) eqn:E; [|done]. by intros [= <-].
Qed.

Lemma positiveField_some name fields q : positiveField name fields = Some q -> (0 < q)%Q.
Proof. unfold positiveField. destruct (jsonField _ fields) as [[]|]; try done. destruct n; try done. destruct (Qlt_le_dec 0 q0); [|done]. by intros [= <-]. Qed.

Lemma upDown_bound : boundSchema (upDownBetSchema isValidStellarAddress) (fun _ => up_down).
Proof.
  intros fields body roundId. unfold upDownBetSchema. destruct (addressField _ fields) as [a|] eqn:Ea; [|done].
  destruct (positiveField _ fields) as [n|] eqn:En; [|done]. destruct (sideField fields) as [s|]; [|done]. intros [= <-].
  eexists. split; [reflexivity|]. apply addressField_some in Ea as [??]. apply positiveField_some in En. done.
Qed.

Lemma precision_bound : boundSchema (precisionBetSchema isValidStellarAddress) (fun _ => precision_).
Proof.
  intros fields body roundId. unfold precisionBetSchema. destruct (addressField _ fields) as [a|] eqn:Ea; [|done].
  destruct (positiveField "amount" fields) as [n|] eqn:En; [|done]. destruct (positiveField "predictedPrice" fields) as [p|]; [|done]. intros [= <-].
  eexists. split; [reflexivity|]. apply addressField_some in Ea as [??]. apply positiveField_some in En. done.
Qed.

Lemma bet_bound : boundSchema (betSchema isValidStellarAddress) kindOf.
Proof.
  intros fields body roundId. unfold betSchema. destruct (upDownBetSchema _ fields) as [b|] eqn:Eu.
  - intros [= <-]. destruct (upDown_bound fields b roundId Eu) as (input & Hi & Hr). exists input. split; [|done].
    unfold upDownBetSchema in Eu. repeat (case_match; try discriminate). by injection Eu as <-.
  - intros Ep. destruct (precision_bound fields body roundId Ep) as (input & Hi & Hr). exists input. split; [|done].
    unfold precisionBetSchema in Ep. repeat (case_match; try discriminate). by injection Ep as <-.
Qed.

(** The routes that place a bet. *)
Inductive betPost : (HttpRequest -> M RouteWorld RouteErr Answer) -> Prop :=
| PostUpDown : betPost (postUpDown betStatusText verifyToken isValidStellarAddress limited zodMessage)
| PostPrecision : betPost (postPrecision betStatusText verifyToken isValidStellarAddress limited zodMessage)
| PostRoundBet id : betPost (postRoundBet betStatusText verifyToken isValidStellarAddress limited zodMessage id).

Lemma betPost_schema route : betPost route -> exists schema optionsOf, boundSchema schema (fun b => eo_kind (optionsOf b)) /\
  route = betRoute betStatusText verifyToken limited zodMessage schema optionsOf.
Proof.
  intros [| |id]; eexists _, _; (split; [|reflexivity]); [apply upDown_bound|apply precision_bound|apply bet_bound].
Qed.

(** What has been recorded for whom. *)
Record recordedFor (req : HttpRequest) (input : BetInput) (key requestId : option string) : Prop := {
  rf_key : key = hr_idempotencyKey req;
  rf_caller : exists token user, bearer (hr_authorization req) = Some token /\ verifyToken token = Some user /\
    inputWallet input = jp_walletAddress user;
  rf_wallet : isValidStellarAddress (inputWallet input) = true;
  rf_amount : (0 < inputAmount input)%Q;
}.

Lemma authenticated_bound schema req user body kind roundId : boundSchema schema kind ->
  authenticated verifyToken zodMessage schema limited req = inr (user, body) ->
  exists input, inputOf (kind body) body roundId = Some input /\ recordedFor req input (hr_idempotencyKey req) (hr_requestId req).
Proof.
  intros Hs. unfold authenticated, verifyStellarAuth. destruct (bearer _) as [token|] eqn:Eb; [|done].
  destruct (verifyToken token) as [u|] eqn:Ev; [|done]. destruct (String.eqb (jp_walletAddress u) ""); [done|].
  destruct (bindAuthenticatedWallet u (hr_body req)) as [|fields] eqn:Ebind; [done|]. destruct limited; [done|].
  destruct (schema fields) as [b|] eqn:Es; [|done]. intros [= <- <-]. destruct (Hs fields b roundId Es) as (input & Hi & Ha & Hv & Hn).
  exists input. split; [done|]. split; [done| |done|done]. exists token, u. split_and!; [done..|].
  assert (Hf : jsonField "address" fields = Some (JStr (jp_walletAddress u))).
  { unfold bindAuthenticatedWallet in Ebind. destruct (String.eqb _ ""); [done|]. destruct (hr_body req) as [fs|]; [|done].
    destruct (jsonField "address" fs); [destruct (jsonTruthy _ && _); [done|]|]; injection Ebind as <-; apply jsonField_set. }
  rewrite Hf in Ha. by injection Ha.
Qed.

(** What holds of every list of calls a request makes. *)
Definition betCallsOk (req : HttpRequest) (calls : list RouteCall) (answer : Answer) : Prop :=
  (length (List.filter isRecord calls) <= 1)%nat /\
  (forall input key requestId ok, RecordCall input key requestId ok ∈ calls -> recordedFor req input key requestId) /\
  (forall u e k, ReleaseCall u e k ∈ calls -> existsb isRecorded calls = false) /\
  (forall u e k b status response, StoreCall u e k b status response ∈ calls ->
     status = 200%Z /\ existsb isRecorded calls = true) /\
  (forall body, answer = Sent 200 body -> existsb isRecorded calls = true \/
     exists calls r, acquireAnswer calls = inr r /\ ir_cachedResponse r = Some (200%Z, body)).

Lemma acquisition_elem u e key body c : c ∈ acquisition u e key body -> exists k, c = AcquireCall u e k body.
Proof. unfold acquisition. destruct (truthy key); [intros ->%list_elem_of_singleton; eauto|by intros ?%not_elem_of_nil]. Qed.

Lemma acquisition_none u e key body :
  List.filter isRecord (acquisition u e key body) = [] /\ existsb isRecorded (acquisition u e key body) = false.
Proof. unfold acquisition. by destruct (truthy key). Qed.

Lemma betOutcome_ok req user endpoint body input calls answer :
  recordedFor req input (hr_idempotencyKey req) (hr_requestId req) ->
  betOutcome (jp_userId user) endpoint (hr_idempotencyKey req) (hr_requestId req) body input calls answer -> betCallsOk req calls answer.
Proof.
  intros Hrec Hout. pose proof (acquisition_none (jp_userId user) endpoint (hr_idempotencyKey req) body) as [Hf He].
  destruct Hout as [e Hk|a Ha Hk|e release Hrel|result response stored a Hst Hres Ha]; unfold betCallsOk.
  - cbn. split_and!; [lia|by intros * ?%not_elem_of_nil..|done].
  - rewrite Hf. split_and!; [cbn; lia|by intros * [? ?]%acquisition_elem..|]. intros resp ->. right. exact Ha.
  - rewrite List.filter_app, existsb_app, Hf, He. cbn [List.filter isRecord existsb isRecorded orb].
    assert (Hr : List.filter isRecord release = [] /\ existsb isRecorded release = false /\
      forall c, c ∈ release -> exists u e k, c = ReleaseCall u e k).
    { destruct Hrel as [->|(k & _ & ->)]; (split_and!; [done..|]); [by intros ? ?%not_elem_of_nil|intros ? ->%list_elem_of_singleton; eauto]. }
    destruct Hr as (-> & -> & Hr). split_and!; [done| |done| |done].
    + intros * [[? ?]%acquisition_elem|[E|(? & ? & ? & ?)%Hr]%elem_of_cons]%elem_of_app; [done| |done]. by injection E as -> -> -> _.
    + intros * [[? ?]%acquisition_elem|[E|(? & ? & ? & ?)%Hr]%elem_of_cons]%elem_of_app; done.
  - rewrite List.filter_app, existsb_app, Hf, He. cbn [List.filter isRecord existsb isRecorded orb].
    assert (Hs : List.filter isRecord (invalidations ++ stored) = [] /\
      forall c, c ∈ (invalidations ++ stored)%list -> (exists n, c = InvalidateCall n) \/ exists u e k b, c = StoreCall u e k b 200 response).
    { split; [by destruct Hst as [->|(k & _ & ->)]|]. intros c [(n & -> & _)%list_elem_of_fmap|Hc]%elem_of_app; [by left; exists n|].
      destruct Hst as [->|(k & _ & ->)]; [by apply not_elem_of_nil in Hc|]. apply list_elem_of_singleton in Hc as ->. right. eauto. }
    destruct Hs as [-> Hs]. split_and!; [done| | | |by left].
    + intros * [[? ?]%acquisition_elem|[E|[[? ?]|(? & ? & ? & ? & ?)]%Hs]%elem_of_cons]%elem_of_app; [done| |done|done]. by injection E as -> -> -> _.
    + intros * [[? ?]%acquisition_elem|[E|[[? ?]|(? & ? & ? & ? & ?)]%Hs]%elem_of_cons]%elem_of_app; done.
    + intros * [[? ?]%acquisition_elem|[E|[[? ?]|(? & ? & ? & ? & E)]%Hs]%elem_of_cons]%elem_of_app; try done. by injection E.
Qed.

Lemma authenticated_answer (schema : Fields -> option BetBody) req answer body : authenticated verifyToken zodMessage schema limited req = inl answer ->
  answer <> Sent 200 body.
Proof.
  intros Hauth ->. revert Hauth. unfold authenticated, verifyStellarAuth, bindAuthenticatedWallet.
  repeat (case_match; try discriminate); intros; simplify_eq.
Qed.

(** C11. Whatever the services answer, a request to bet always gets an answer, and
    places at most one bet: for the wallet of the token it presents, with a
    valid address, a positive amount and its own key. The lock of its key is
    given back only if no bet was placed, a response is stored only for a bet
    that was, and 200 is answered only for such a bet or from what was stored
    before. *)
Theorem bet_route_safe route req : betPost route -> exists answer w, route req newRouteWorld = (inr answer, w) /\
  (length (List.filter isRecord (rw_calls w)) <= 1)%nat /\
  (forall input key requestId ok, RecordCall input key requestId ok ∈ rw_calls w -> recordedFor req input key requestId) /\
  (forall u e k, ReleaseCall u e k ∈ rw_calls w -> existsb isRecorded (rw_calls w) = false) /\
  (forall u e k b status response, StoreCall u e k b status response ∈ rw_calls w ->
     status = 200%Z /\ existsb isRecorded (rw_calls w) = true) /\
  (forall body, answer = Sent 200 body -> existsb isRecorded (rw_calls w) = true \/
     exists calls r, acquireAnswer calls = inr r /\ ir_cachedResponse r = Some (200%Z, body)).
Proof.
  intros (schema & optionsOf & Hs & ->)%betPost_schema. unfold betRoute.
  destruct (authenticated verifyToken zodMessage schema limited req) as [a|[user body]] eqn:Eauth.
  - exists a, newRouteWorld. split; [done|]. cbn. split_and!; [lia|by intros * ?%not_elem_of_nil..|].
    intros resp E. by apply authenticated_answer with (body := resp) in Eauth.
  - destruct (authenticated_bound schema req user body _ (eo_roundId (optionsOf body)) Hs Eauth) as (input & Hi & Hrec).
    destruct (executeBet_outcome betStatusText user (hr_idempotencyKey req) (hr_requestId req) body (optionsOf body) input Hi) as (answer & w & E & Hout).
    exists answer, w. split; [exact E|]. exact (betOutcome_ok _ _ _ _ _ _ _ Hrec Hout).
Qed.
End Routed.

(** A role guard lets through exactly the users whose token is accepted and
    whose row, as it is now, has one of the roles. *)
Lemma requireRole_allowed verifyToken findUser roles message authorization user :
  requireRole verifyToken findUser roles message authorization = inr user <->
  exists token p, bearer authorization = Some token /\ verifyToken token = Some p /\ findUser (jp_userId p) = inr (Some user) /\
    jp_role user ∈ roles.
Proof.
  unfold requireRole, loadUserFromBearerToken. destruct (bearer authorization) as [token|].
  - destruct (verifyToken token) as [p|] eqn:Ev; [|by split; [|intros (t & p & [= <-] & E & _); rewrite Ev in E]].
    destruct (findUser (jp_userId p)) as [e|[u|]] eqn:Ef.
    + split; [done|]. intros (t & p' & [= <-] & E & E' & _). rewrite Ev in E. injection E as ->. congruence.
    + case_bool_decide as Hr; split.
      * intros [= <-]. by exists token, p.
      * intros (t & p' & [= <-] & E & E' & _). rewrite Ev in E. injection E as ->. rewrite Ef in E'. by injection E' as ->.
      * done.
      * intros (t & p' & [= <-] & E & E' & Hr'). rewrite Ev in E. injection E as ->. rewrite Ef in E'. by injection E' as ->.
    + split; [done|]. intros (t & p' & [= <-] & E & E' & _). rewrite Ev in E. injection E as ->. congruence.
  - split; [done|]. by intros (t & p & ? & _).
Qed.
