(* ===== verification/Education.v ===== *)
(** * Educational tips (src/src/services/education-tip.service.ts, src/src/routes/education.routes.ts)

    The tip shown after a round: its template is drawn from a library by weight,
    among those that fit the round and were not shown lately, and cached for an
    hour. [Math.random()] is an argument, a number of [0, 1). A request waits
    for the database between its look into the cache and the drawing, so the two
    halves of different requests may alternate. *)

From Stdlib Require Import ZArith QArith Qabs Lqa Lia Ascii.
From stdpp Require Import base strings list pretty.
From S2P Require Import Prelude.
From S2P Require Import Numeric.
From S2P Require Import Doubles.
From S2P Require Import Payout.
From S2P Require Import Errors.
From S2P Require Import Schema.
From S2P Require Import Challenge.
From S2P Require Import Digits.
From S2P Require Import JsMap.

#[local] Open Scope string_scope.
#[local] Open Scope Z_scope.

Inductive TipCategory : Type := Volatility | OracleTip | StellarTip | PriceAction.

Inductive TipOutcome : Type := WentUp | WentDown | Unchanged.

Definition TipOutcome_str (o : TipOutcome) : string :=
  match o with WentUp => "up" | WentDown => "down" | Unchanged => "unchanged" end.

Record TipContext : Type := mkContext {
  cx_startPrice : num;
  cx_endPrice : num;
  cx_priceChange : num;
  cx_priceChangePercent : num;
  cx_duration : Z;
  cx_outcome : TipOutcome;
  cx_highVolatility : bool;
  cx_mode : GameMode;
}.

Record TipTemplate : Type := mkTip {
  tt_id : string;
  tt_message : string;
  tt_category : TipCategory;
  tt_condition : option (TipContext -> bool);
  tt_priority : option Z;
}.

(** [Math.abs(ctx.priceChangePercent) < x] and [> x] *)
Definition movedLess (x : Q) (ctx : TipContext) : bool := num_lt (num_abs (cx_priceChangePercent ctx)) (Fin x).
Definition movedMore (x : Q) (ctx : TipContext) : bool := num_lt (Fin x) (num_abs (cx_priceChangePercent ctx)).

Definition TIP_LIBRARY : list TipTemplate := ([
  mkTip "price-action-001"
    "The price moved {priceChangePercent}% in this round. Price movements reflect the collective decisions of all market participants. Every trade is a vote on future value."
    PriceAction None (Some 100);
  mkTip "price-action-002"
    "The XLM price went {outcome} by ${priceChange}. Understanding price trends helps you identify market momentum. Consistent directional movement often indicates strong conviction from traders."
    PriceAction None (Some 100);
  mkTip "price-action-003"
    "This round lasted {duration} seconds. Shorter timeframes can show more erratic price movement, while longer timeframes tend to smooth out noise and reveal true trends."
    PriceAction None (Some 90);
  mkTip "price-action-004"
    "Price remained relatively {outcome} this round. Sideways or consolidating price action often precedes significant breakouts in either direction. Watch for volume changes."
    PriceAction (Some (movedLess (1 # 2))) (Some 80);
  mkTip "volatility-001"
    "This round showed high volatility with a {priceChangePercent}% change. Volatile markets offer opportunities but also increase risk. Consider reducing position sizes during high volatility periods."
    Volatility (Some cx_highVolatility) (Some 120);
  mkTip "volatility-002"
    "The price moved {priceChangePercent}% - significant movement! Volatility can be measured using indicators like Bollinger Bands and ATR (Average True Range). These tools help quantify market uncertainty."
    Volatility (Some (movedMore 2)) (Some 110);
  mkTip "volatility-003"
    "Low volatility detected with only a {priceChangePercent}% change. Low volatility periods often compress before explosive moves. Experienced traders watch for 'coiling' patterns that precede breakouts."
    Volatility (Some (movedLess (1 # 2))) (Some 100);
  mkTip "volatility-004"
    "Market volatility affects risk-reward ratios. This {priceChangePercent}% move demonstrates how quickly prices can shift. Always set stop-losses and never risk more than you can afford to lose."
    Volatility (Some (movedMore 1)) (Some 90);
  mkTip "volatility-005"
    "Extreme price movement of {priceChangePercent}%! When markets move rapidly, emotions can override logic. Successful traders stick to their plans and avoid FOMO (fear of missing out)."
    Volatility (Some (movedMore 5)) (Some 130);
  mkTip "oracle-001"
    "This round used oracle price data to determine the outcome. Oracles bridge real-world data to blockchain applications. They're essential for DeFi platforms to access accurate, tamper-resistant market prices."
    OracleTip None (Some 80);
  mkTip "oracle-002"
    "The final price of ${endPrice} was determined by our price oracle. Quality oracles aggregate data from multiple exchanges to prevent manipulation and ensure accuracy."
    OracleTip None (Some 75);
  mkTip "oracle-003"
    "Oracle reliability is critical for blockchain applications. This round's outcome was resolved using verified price feeds. Decentralized oracles reduce single points of failure."
    OracleTip None (Some 70);
  mkTip "oracle-004"
    "Price oracles update continuously to reflect market conditions. The {priceChangePercent}% change was captured by aggregating data from multiple sources for accuracy."
    OracleTip (Some (movedMore 1)) (Some 85);
  mkTip "stellar-001"
    "XLM (Lumens) is the native asset of the Stellar network. Stellar enables fast, low-cost cross-border payments with 3-5 second transaction finality - much faster than traditional systems."
    StellarTip None (Some 70);
  mkTip "stellar-002"
    "The Stellar network processes transactions for fractions of a cent. This round's {priceChangePercent}% price move affects XLM's value, but the network's utility remains consistent."
    StellarTip None (Some 65);
  mkTip "stellar-003"
    "Stellar uses the Stellar Consensus Protocol (SCP), which is energy-efficient unlike proof-of-work systems. SCP enables fast consensus without mining."
    StellarTip None (Some 60);
  mkTip "stellar-004"
    "This prediction market runs on blockchain technology similar to Stellar. The {outcome} outcome was recorded immutably, demonstrating blockchain's transparency."
    StellarTip None (Some 75);
  mkTip "stellar-005"
    "Stellar supports multiple assets and has a built-in decentralized exchange. This makes it ideal for applications requiring cross-asset swaps and price discovery."
    StellarTip None (Some 70)
])%list.

Record EducationalTip : Type := mkEducationalTip {
  et_message : string;
  et_category : TipCategory;
  et_roundId : string;
  et_priceChange : num;
  et_priceChangePercent : num;
  et_duration : Z;
  et_outcome : TipOutcome;
}.

Record CacheEntry : Type := mkEntry { ce_tip : EducationalTip; ce_timestamp : Z }.

Definition CACHE_TTL_MS : Z := 60 * 60 * 1000.
Definition MAX_RECENT_TIPS : nat := 10.

(** The module's Map, in the order of insertion, and its list of identifiers. *)
Record TipState : Type := mkTipState {
  tipCache : list (string * CacheEntry);
  recentTipIds : list string;
}.

Definition noTips : TipState := mkTipState [] [].

(** ** What a round says *)

(** Of a row: prices are columns with eight decimals, so [parseFloat] of their
    text is the nearest double; times are milliseconds. *)
Definition calculateContext (round : Round) (endPriceColumn : Z) : TipContext :=
  let startPrice := num_of_Q (unitQ (r_startPrice round)) in
  let endPrice := num_of_Q (unitQ endPriceColumn) in
  let priceChange := num_sub endPrice startPrice in
  let priceChangePercent := num_mul (num_div priceChange startPrice) (int 100) in
  let durationMs := r_endTime round - r_startTime round in
  mkContext startPrice endPrice priceChange priceChangePercent
    (durationMs / 1000)
    (if num_lt (int 0) priceChange then WentUp else if num_lt priceChange (int 0) then WentDown else Unchanged)
    (num_lt (int 2) (num_abs priceChangePercent))
    (r_mode round).

(** ** The text *)

(** [s.replace(/p/g, v)] for a literal [p] and a [v] without dollar signs;
    [skip] characters belong to a match. *)
Fixpoint replaceLiteral (p v : string) (skip : nat) (s : string) : string :=
  match s with
  | EmptyString => EmptyString
  | String c rest =>
      match skip with
      | S skip => replaceLiteral p v skip rest
      | O => if String.prefix p s then v +:+ replaceLiteral p v (String.length p - 1) rest
             else String c (replaceLiteral p v 0 rest)
      end
  end.

Definition interpolateMessage (template : string) (ctx : TipContext) : string :=
  let m := replaceLiteral "{priceChangePercent}" (toFixed 2 (num_abs (cx_priceChangePercent ctx))) 0 template in
  let m := replaceLiteral "{priceChange}" (toFixed 4 (num_abs (cx_priceChange ctx))) 0 m in
  let m := replaceLiteral "{outcome}" (TipOutcome_str (cx_outcome ctx)) 0 m in
  let m := replaceLiteral "{duration}" (pretty (cx_duration ctx)) 0 m in
  let m := replaceLiteral "{startPrice}" (toFixed 4 (cx_startPrice ctx)) 0 m in
  replaceLiteral "{endPrice}" (toFixed 4 (cx_endPrice ctx)) 0 m.

(** ** The selection *)

(** [tip.priority || 50] *)
Definition tipWeight (t : TipTemplate) : Z :=
  match tt_priority t with Some p => if p =? 0 then 50 else p | None => 50 end.

Definition totalWeight (tips : list TipTemplate) : Z := foldl (fun sum t => sum + tipWeight t) 0 tips.

(** The loop of subtractions; [None] when it ends without a choice. *)
Fixpoint weightedLoop (random : Q) (tips : list TipTemplate) : option TipTemplate :=
  match tips with
  | [] => None
  | t :: tips =>
      let random := f64 (random - inject_Z (tipWeight t)) in
      if Qle_bool random 0 then Some t else weightedLoop random tips
  end.

(** [tips[0]] of an empty list is undefined. *)
Definition weightedRandomSelection (rnd : Q) (tips : list TipTemplate) : option TipTemplate :=
  match weightedLoop (f64 (rnd * inject_Z (totalWeight tips))) tips with
  | Some t => Some t
  | None => head tips
  end.

Definition eligible (ctx : TipContext) (t : TipTemplate) : bool :=
  match tt_condition t with Some f => f ctx | None => true end.

Definition shownLately (recent : list string) (t : TipTemplate) : bool := bool_decide (tt_id t ∈ recent).

Definition tipsToConsider (ctx : TipContext) (recent : list string) : list TipTemplate :=
  let eligibleTips := List.filter (eligible ctx) TIP_LIBRARY in
  let freshTips := List.filter (fun t => negb (shownLately recent t)) eligibleTips in
  if (0 <? length freshTips)%nat then freshTips else eligibleTips.

(** [push], then [shift] when there are too many. *)
Definition remember (id : string) (recent : list string) : list string :=
  let recent := (recent ++ [id])%list in
  if (MAX_RECENT_TIPS <? length recent)%nat then tail recent else recent.

Definition tipOf (template : TipTemplate) (ctx : TipContext) (roundId : string) : EducationalTip :=
  {| et_message := interpolateMessage (tt_message template) ctx;
     et_category := tt_category template;
     et_roundId := roundId;
     et_priceChange := roundFixed 4 (cx_priceChange ctx);
     et_priceChangePercent := roundFixed 2 (cx_priceChangePercent ctx);
     et_duration := cx_duration ctx;
     et_outcome := cx_outcome ctx |}.

(** The template chosen, the tip made of it and the identifiers shown lately;
    [None] is the TypeError of reading a field of undefined. *)
Definition selectTip (rnd : Q) (ctx : TipContext) (roundId : string) (recent : list string) :
    option (TipTemplate * EducationalTip * list string) :=
  match weightedRandomSelection rnd (tipsToConsider ctx recent) with
  | Some t => Some (t, tipOf t ctx roundId, remember (tt_id t) recent)
  | None => None
  end.

(** ** The cache *)

Definition removeEntry (k : string) (m : list (string * CacheEntry)) : list (string * CacheEntry) :=
  filter (fun e => e.1 <> k) m.

Definition getCachedTip (now : Z) (roundId : string) (st : TipState) : option EducationalTip * TipState :=
  match entryFor roundId (tipCache st) with
  | None => (None, st)
  | Some cached =>
      if CACHE_TTL_MS <? now - ce_timestamp cached
      then (None, mkTipState (removeEntry roundId (tipCache st)) (recentTipIds st))
      else (Some (ce_tip cached), st)
  end.

Definition olderFirst (a b : string * CacheEntry) : bool := ce_timestamp (snd b) <? ce_timestamp (snd a).

Definition pruneCache (m : list (string * CacheEntry)) : list (string * CacheEntry) :=
  if (1000 <? length m)%nat
  then foldl (fun m e => removeEntry (fst e) m) m (take 200 (sortBy olderFirst m))
  else m.

Definition cacheTip (now : Z) (roundId : string) (tip : EducationalTip) (m : list (string * CacheEntry)) :
    list (string * CacheEntry) :=
  pruneCache (putEntry roundId (mkEntry tip now) (fun _ => mkEntry tip now) m).

Definition clearCache (roundId : string) (st : TipState) : TipState :=
  mkTipState (removeEntry roundId (tipCache st)) (recentTipIds st).

(** [{ size, maxSize, ttlMs }] *)
Definition getCacheStats (st : TipState) : nat * nat * Z := (length (tipCache st), 1000%nat, CACHE_TTL_MS).

(** ** Requests *)

Inductive TipError : Type :=
| RoundNotFound
| RoundUnresolved
| PricesMissing
| TipTypeError
| TipDatabaseError (e : Err).

(** The second half of [generateTip], with the row the database returned. *)
Definition drawTip (now : Z) (rnd : Q) (roundId : string) (row : Err + option Round) (st : TipState) :
    (TipError + TipTemplate * EducationalTip) * TipState :=
  match row with
  | inl e => (inl (TipDatabaseError e), st)
  | inr None => (inl RoundNotFound, st)
  | inr (Some round) =>
      if negb (bool_decide (r_status round = RESOLVED)) then (inl RoundUnresolved, st)
      else match r_endPrice round with
           | None => (inl PricesMissing, st)
           | Some endPrice =>
               match selectTip rnd (calculateContext round endPrice) roundId (recentTipIds st) with
               | None => (inl TipTypeError, st)
               | Some (t, tip, recent) => (inr (t, tip), mkTipState (cacheTip now roundId tip (tipCache st)) recent)
               end
           end
  end.

(** A request no other request comes between; [now] is read when it looks
    into the cache and [later] when it stores the tip. *)
Definition generateTip (now later : Z) (rnd : Q) (roundId : string) (row : Err + option Round) (st : TipState) :
    (TipError + EducationalTip) * TipState :=
  match getCachedTip now roundId st with
  | (Some tip, st) => (inr tip, st)
  | (None, st) =>
      match drawTip later rnd roundId row st with
      | (inl e, st) => (inl e, st)
      | (inr (_, tip), st) => (inr tip, st)
      end
  end.

(** ** The route GET /api/education/tip *)

(** What Express makes of a query parameter: a text, or an array or object. *)
Inductive QueryValue : Type := QueryText (s : string) | QueryOther.

(** /^[0-9a-f]{8}-[0-9a-f]{4}-[0-9a-f]{4}-[0-9a-f]{4}-[0-9a-f]{12}$/i *)
Definition isHexAnyCase (a : ascii) : bool :=
  let n := N_of_ascii a in (isHex a || ((65 <=? n) && (n <=? 70))%N)%bool.

Definition uuidGroups (groups : list string) : bool :=
  bool_decide (map String.length groups = [8; 4; 4; 4; 12]%nat) && forallb (allChars isHexAnyCase) groups.

Definition isUuid (s : string) : bool := uuidGroups (splitOn "-" s).

(** The fields of the answer: a falsy field becomes its default. *)
Definition numberOr0 (x : num) : num := match x with Fin q => if Qeq_bool q 0 then int 0 else x | Inf _ => x | NaN => int 0 end.

Definition tipResponse (tip : EducationalTip) : EducationalTip :=
  {| et_message := et_message tip; et_category := et_category tip; et_roundId := et_roundId tip;
     et_priceChange := numberOr0 (et_priceChange tip);
     et_priceChangePercent := numberOr0 (et_priceChangePercent tip);
     et_duration := et_duration tip; et_outcome := et_outcome tip |}.

(** The error the service throws *)
Definition tipThrown (e : TipError) : Err :=
  match e with
  | RoundNotFound => PlainError "Round not found"
  | RoundUnresolved => PlainError "Round must be resolved before generating educational tips"
  | PricesMissing => PlainError "Round missing required price data"
  | TipTypeError => PlainError "Cannot read properties of undefined (reading 'id')"
  | TipDatabaseError e => e
  end.

(** and the typed error the route answers with, by its message. *)
Definition tipRouteError (e : Err) : Err :=
  if String.eqb (err_message e) "Round not found" then NotFoundError "Round not found" NOT_FOUND
  else if (String.eqb (err_message e) "Round must be resolved before generating educational tips" ||
           String.eqb (err_message e) "Round missing required price data")%bool
       then BusinessRuleError (err_message e) "INVALID_ROUND_STATE"
       else e.

Definition tipRoute (roundId : option QueryValue) (generate : string -> TipState -> (TipError + EducationalTip) * TipState)
    (st : TipState) : (Err + EducationalTip) * TipState :=
  match roundId with
  | None => (inl (ValidationError "roundId query parameter is required"), st)
  | Some QueryOther => (inl (ValidationError "roundId must be a string"), st)
  | Some (QueryText id) =>
      if String.eqb id "" then (inl (ValidationError "roundId query parameter is required"), st)
      else if negb (isUuid id) then (inl (ValidationError "roundId must be a valid UUID"), st)
      else match generate id st with
           | (inl e, st) => (inl (tipRouteError (tipThrown e)), st)
           | (inr tip, st) => (inr (tipResponse tip), st)
           end
  end.

(** ** Sequences of requests *)

(** A tip drawn: for which request, from which row, and when. *)
Record Generation : Type := mkGeneration {
  g_roundId : string;
  g_time : Z;
  g_round : Round;
  g_endPrice : Z;
  g_template : TipTemplate;
  g_tip : EducationalTip;
}.

Inductive TipEvent : Type :=
| Look (now : Z) (roundId : string)
| Draw (now : Z) (rnd : Q) (roundId : string) (row : Err + option Round)
| Forget (roundId : string).

(** The state of the module with the tips drawn so far, latest first. *)
Record TipRun : Type := mkTipRun { tr_state : TipState; tr_drawn : list Generation }.

Definition tipStep (w : TipRun) (ev : TipEvent) : TipRun :=
  match ev with
  | Look now roundId => mkTipRun (getCachedTip now roundId (tr_state w)).2 (tr_drawn w)
  | Draw now rnd roundId row =>
      match drawTip now rnd roundId row (tr_state w), row with
      | (inr (t, tip), st), inr (Some round) =>
          mkTipRun st (mkGeneration roundId now round (default 0 (r_endPrice round)) t tip :: tr_drawn w)
      | (_, st), _ => mkTipRun st (tr_drawn w)
      end
  | Forget roundId => mkTipRun (clearCache roundId (tr_state w)) (tr_drawn w)
  end.

Definition runTips (evs : list TipEvent) : TipRun := foldl tipStep (mkTipRun noTips []) evs.

Definition drawnId (g : Generation) : string := tt_id (g_template g).

(** A tip is made of a template of the library that fits its round, and that
    none of the ten tips before it was made of. *)
Definition generationOk (older : list Generation) (g : Generation) : Prop :=
  r_status (g_round g) = RESOLVED /\ r_endPrice (g_round g) = Some (g_endPrice g) /\
  let ctx := calculateContext (g_round g) (g_endPrice g) in
  g_template g ∈ TIP_LIBRARY /\ eligible ctx (g_template g) = true /\
  drawnId g ∉ map drawnId (take MAX_RECENT_TIPS older) /\
  g_tip g = tipOf (g_template g) ctx (g_roundId g).

Fixpoint drawnOk (l : list Generation) : Prop :=
  match l with [] => True | g :: older => generationOk older g /\ drawnOk older end.

Definition lastDrawn (roundId : string) (l : list Generation) : option Generation :=
  List.find (fun g => String.eqb (g_roundId g) roundId) l.

(** *** Selection *)

Lemma weightedSelection_elem rnd tips t : weightedRandomSelection rnd tips = Some t -> t ∈ tips.
Proof.
  unfold weightedRandomSelection. generalize (f64 (rnd * inject_Z (totalWeight tips))). intros r.
  destruct (weightedLoop r tips) as [u|] eqn:El.
  - intros [= ->]. revert r El. induction tips as [|v tips IH]; intros r; cbn [weightedLoop]; [done|].
    destruct (Qle_bool _ _); [by intros [= ->]; left|]. intros Hl. right. by eapply IH.
  - destruct tips as [|v tips]; [done|]. intros [= ->]. left.
Qed.

Lemma weightedSelection_some rnd tips : tips <> [] -> weightedRandomSelection rnd tips <> None.
Proof. intros Ht. unfold weightedRandomSelection. destruct (weightedLoop _ _); [done|]. by destruct tips. Qed.

(** The templates without a condition, which fit every round: more than are
    remembered. *)
Definition unconditional : list string :=
  map tt_id (List.filter (fun t => match tt_condition t with None => true | Some _ => false end) TIP_LIBRARY).

Lemma unconditional_many : NoDup unconditional /\ (MAX_RECENT_TIPS < length unconditional)%nat.
Proof. split; [apply (bool_decide_unpack _); vm_compute; done|]. vm_compute. lia. Qed.

Lemma some_unseen recent : (length recent <= MAX_RECENT_TIPS)%nat -> exists id, id ∈ unconditional /\ id ∉ recent.
Proof.
  intros Hr. destruct unconditional_many as [Hnd Hlen].
  destruct (decide (Exists (fun id => id ∉ recent) unconditional)) as [He|He].
  - by apply Exists_exists in He.
  - exfalso. apply not_Exists_Forall in He; [|apply _]. assert (Hsub : unconditional ⊆+ recent).
    { apply NoDup_submseteq; [done|]. intros id Hid. rewrite Forall_forall in He. by destruct (decide (id ∈ recent)) as [|Hn]; [|destruct (He id Hid Hn)]. }
    apply submseteq_length in Hsub. lia.
Qed.

Lemma tips_considered ctx recent t : (length recent <= MAX_RECENT_TIPS)%nat -> t ∈ tipsToConsider ctx recent ->
  t ∈ TIP_LIBRARY /\ eligible ctx t = true /\ tt_id t ∉ recent.
Proof.
  intros Hr. unfold tipsToConsider. case (Nat.ltb_spec 0 (length (List.filter (fun t => negb (shownLately recent t)) (List.filter (eligible ctx) TIP_LIBRARY)))) as [Hl|Hl].
  - intros Ht. apply list_elem_of_In, filter_In in Ht as [Ht Hs]. apply filter_In in Ht as [Ht He]. split_and!; [by apply list_elem_of_In|done|].
    unfold shownLately in Hs. by case_bool_decide.
  - exfalso. destruct (some_unseen recent Hr) as (id & Hid & Hun). unfold unconditional in Hid.
    apply list_elem_of_fmap in Hid as (u & -> & Hu). apply list_elem_of_In, filter_In in Hu as [Hu Hc].
    assert (Hin : In u (List.filter (fun t => negb (shownLately recent t)) (List.filter (eligible ctx) TIP_LIBRARY))).
    { apply filter_In. split; [apply filter_In; split; [done|]|].
      - unfold eligible. by destruct (tt_condition u).
      - unfold shownLately. by rewrite bool_decide_false. }
    destruct (List.filter _ (List.filter _ _)); [done|]. cbn in Hl. lia.
Qed.

Lemma tips_nonempty ctx recent : tipsToConsider ctx recent <> [].
Proof.
  unfold tipsToConsider. case_match eqn:El; [apply Nat.ltb_lt in El; by intros E; rewrite E in El; cbn in El; lia|].
  destruct (some_unseen []) as (id & Hid & _); [cbn; lia|]. unfold unconditional in Hid.
  apply list_elem_of_fmap in Hid as (u & -> & Hu). apply list_elem_of_In, filter_In in Hu as [Hu Hc].
  intros E. assert (Hin : In u (List.filter (eligible ctx) TIP_LIBRARY)).
  { apply filter_In. split; [done|]. unfold eligible. by destruct (tt_condition u). }
  by rewrite E in Hin.
Qed.

(** *** The cache *)

Lemma entryFor_remove k k' m : entryFor k (removeEntry k' m) = if String.eqb k' k then None else entryFor k m.
Proof.
  unfold removeEntry. induction m as [|[j e] m IH]; [by cbn; case_match|]. rewrite filter_cons. cbn [fst entryFor].
  destruct (decide (j <> k')) as [Hj|Hj]; cbn [entryFor]; rewrite IH.
  - destruct (String.eqb_spec j k) as [->|]; [|done]. by destruct (String.eqb_spec k' k); [subst|].
  - apply dec_stable in Hj as ->. by destruct (String.eqb_spec k' k).
Qed.

Lemma removeEntry_NoDup k m : NoDup m.*1 -> NoDup (removeEntry k m).*1.
Proof. intros Hm. eapply sublist_NoDup; [exact Hm|]. apply fmap_sublist, sublist_filter. Qed.

Lemma removeEntry_length k m : (length (removeEntry k m) <= length m)%nat.
Proof. apply length_filter. Qed.

Lemma removeEntry_shorter k e m : (k, e) ∈ m -> (length (removeEntry k m) < length m)%nat.
Proof. intros Hin. apply (length_filter_lt _ _ (k, e)); [done|]. cbn. by intros H; apply H. Qed.

Lemma removeAll_length es m : (length (foldl (fun m (e : string * CacheEntry) => removeEntry (fst e) m) m es) <= length m)%nat.
Proof.
  revert m. induction es as [|e es IH]; intros m; cbn; [done|]. etrans; [apply IH|]. apply removeEntry_length.
Qed.

Lemma entryFor_removeAll k es m :
  entryFor k (foldl (fun m (e : string * CacheEntry) => removeEntry (fst e) m) m es) = if bool_decide (k ∈ es.*1) then None else entryFor k m.
Proof.
  revert m. induction es as [|e es IH]; intros m; cbn; [done|]. rewrite IH, entryFor_remove.
  destruct (String.eqb_spec e.1 k) as [E|E].
  - rewrite (bool_decide_true (k ∈ e.1 :: es.*1)) by (rewrite E; left). by case_bool_decide.
  - repeat case_bool_decide; try done; [exfalso; match goal with H : ~ _ |- _ => apply H; by right end|]. match goal with H : k ∈ _ :: _ |- _ => apply elem_of_cons in H as [->|H] end; done.
Qed.

Lemma pruneCache_length m : (length m <= 1001)%nat -> (length (pruneCache m) <= 1000)%nat.
Proof.
  unfold pruneCache. intros Hm. case (Nat.ltb_spec 1000 (length m)) as [Hl|Hl]; [|done].
  pose proof (Permutation_length (sortBy_Permutation olderFirst m)) as Hp.
  destruct (sortBy olderFirst m) as [|[k e] l] eqn:Es; cbn in Hp; [lia|]. cbn [take foldl fst].
  pose proof (removeAll_length (take 199 l) (removeEntry k m)).
  assert (Hin : (k, e) ∈ m) by (apply (sortBy_elem olderFirst); rewrite Es; left).
  pose proof (removeEntry_shorter k e m Hin). lia.
Qed.

Lemma pruneCache_get k m e : entryFor k (pruneCache m) = Some e -> entryFor k m = Some e.
Proof. unfold pruneCache. case_match; [|done]. rewrite entryFor_removeAll. by case_match. Qed.

Lemma pruneCache_NoDup m : NoDup m.*1 -> NoDup (pruneCache m).*1.
Proof.
  assert (Hall : forall es m, NoDup m.*1 -> NoDup (foldl (fun m (e : string * CacheEntry) => removeEntry (fst e) m) m es).*1).
  { induction es as [|e es IH]; intros m' Hm; cbn; [done|]. by apply IH, removeEntry_NoDup. }
  unfold pruneCache. intros Hm. case_match; [by apply Hall|done].
Qed.

(** While the clock does not run backwards, the entry just made is not among
    those pruned. *)
Lemma sortBy_last gt (x : string * CacheEntry) l : Forall (fun a => gt a x = false) l -> sortBy gt (l ++ [x])%list = (sortBy gt l ++ [x])%list.
Proof.
  intros Hl. induction Hl as [|a l Ha _ IH]; [done|]. unfold sortBy in *. cbn. rewrite IH. generalize (foldr (insertBy gt) [] l). intros s.
  induction s as [|b s IHs]; cbn; [by rewrite Ha|]. destruct (gt a b); [|done]. cbn. by rewrite IHs.
Qed.

Lemma cacheTip_kept now roundId tip m : NoDup m.*1 -> (length m <= 1000)%nat -> Forall (fun e => ce_timestamp (snd e) <= now) m ->
  entryFor roundId (cacheTip now roundId tip m) = Some (mkEntry tip now).
Proof.
  intros Hnd Hlen Ht. unfold cacheTip, pruneCache.
  set (m' := putEntry _ _ _ _). assert (Hm' : entryFor roundId m' = Some (mkEntry tip now)).
  { unfold m'. rewrite entryFor_putEntry, String.eqb_refl. by destruct (entryFor roundId m). }
  case (Nat.ltb_spec 1000 (length m')) as [Hl|_]; [|done]. rewrite entryFor_removeAll, bool_decide_false; [done|].
  assert (Hnew : roundId ∉ m.*1).
  { intros Hin. pose proof (putEntry_keys roundId (mkEntry tip now) (fun _ => mkEntry tip now) m) as Hk.
    rewrite bool_decide_true in Hk by done. apply (f_equal length) in Hk. rewrite !length_fmap in Hk. unfold m' in Hl. lia. }
  assert (E : m' = (m ++ [(roundId, mkEntry tip now)])%list).
  { unfold m'. clear -Hnew. induction m as [|[j e] m IH]; cbn; [done|]. cbn in Hnew. apply not_elem_of_cons in Hnew as [Hj Hm].
    destruct (String.eqb_spec j roundId); [by subst|]. by rewrite IH. }
  rewrite E in Hl |- *. rewrite length_app in Hl. cbn in Hl.
  rewrite sortBy_last by (eapply Forall_impl; [exact Ht|]; intros a Ha; unfold olderFirst; cbn; apply Z.ltb_ge; exact Ha).
  rewrite take_app_le by (rewrite sortBy_Permutation; lia).
  intros Hin. apply Hnew. apply list_elem_of_fmap in Hin as (a & -> & Ha). apply list_elem_of_fmap. exists a. split; [done|].
  apply (sortBy_elem olderFirst). apply list_elem_of_lookup in Ha as (i & Ha). apply lookup_take_Some in Ha as [Ha _].
  by eapply list_elem_of_lookup_2.
Qed.

(** *** The invariant *)

Record tipsInv (w : TipRun) : Prop := {
  inv_recent : recentTipIds (tr_state w) = rev (map drawnId (take MAX_RECENT_TIPS (tr_drawn w)));
  inv_distinct : NoDup (recentTipIds (tr_state w));
  inv_small : (length (tipCache (tr_state w)) <= 1000)%nat;
  inv_keys : NoDup (tipCache (tr_state w)).*1;
  inv_cached : forall id e, entryFor id (tipCache (tr_state w)) = Some e ->
    exists g, lastDrawn id (tr_drawn w) = Some g /\ g_tip g = ce_tip e /\ g_time g = ce_timestamp e;
  inv_drawn : drawnOk (tr_drawn w);
}.

Lemma recent_length w : tipsInv w -> (length (recentTipIds (tr_state w)) <= MAX_RECENT_TIPS)%nat.
Proof. intros H. rewrite (inv_recent w H), length_rev, length_map, length_take. lia. Qed.

(** Dropping entries of the cache keeps the invariant. *)
Lemma tipsInv_forget w id : tipsInv w ->
  tipsInv (mkTipRun (mkTipState (removeEntry id (tipCache (tr_state w))) (recentTipIds (tr_state w))) (tr_drawn w)).
Proof.
  intros [Hr Hd Hs Hk Hc Hdr]. split; cbn; try done.
  - pose proof (removeEntry_length id (tipCache (tr_state w))). lia.
  - by apply removeEntry_NoDup.
  - intros id' e. rewrite entryFor_remove. case_match; [done|]. apply Hc.
Qed.

Lemma remember_rev id l : remember id (rev (take MAX_RECENT_TIPS l)) = rev (take MAX_RECENT_TIPS (id :: l)).
Proof.
  unfold remember. rewrite length_app, length_rev, length_take. cbn [length take rev]. unfold MAX_RECENT_TIPS.
  destruct (le_lt_dec 10 (length l)) as [Hl|Hl].
  - rewrite Nat.min_l by lia. cbn [Nat.add Nat.ltb Nat.leb].
    assert (Et : take 10 l = (take 9 l ++ drop 9 (take 10 l))%list) by (rewrite <- (take_drop 9 (take 10 l)) at 1; by rewrite take_take).
    destruct (drop 9 (take 10 l)) as [|x r] eqn:Ed; [apply (f_equal length) in Ed; rewrite length_drop, length_take in Ed; cbn [length] in Ed; lia|].
    assert (r = []) as ->.
    { apply (f_equal length) in Ed. rewrite length_drop, length_take in Ed. destruct r as [|y r]; [done|]. cbn [length] in Ed. lia. }
    rewrite Et, rev_app_distr. done.
  - rewrite Nat.min_r by lia. replace (10 <? length l + 1)%nat with false by (symmetry; apply Nat.ltb_ge; lia).
    rewrite (take_ge l) by lia. rewrite take_ge by (cbn [length]; lia). done.
Qed.

Lemma drawTip_inr now rnd roundId row st t tip st' : drawTip now rnd roundId row st = (inr (t, tip), st') ->
  exists round endPrice, row = inr (Some round) /\ r_status round = RESOLVED /\ r_endPrice round = Some endPrice /\
    let ctx := calculateContext round endPrice in
    t ∈ tipsToConsider ctx (recentTipIds st) /\ tip = tipOf t ctx roundId /\
    st' = mkTipState (cacheTip now roundId tip (tipCache st)) (remember (tt_id t) (recentTipIds st)).
Proof.
  unfold drawTip, selectTip. destruct row as [e|[round|]]; [done| |done]. case_bool_decide as Hs; [|done]. cbn [negb].
  destruct (r_endPrice round) as [endPrice|] eqn:Ep; [|done].
  destruct (weightedRandomSelection _ _) as [u|] eqn:Ew; [|done]. intros [= -> <- <-]. exists round, endPrice.
  split_and!; try done. by eapply weightedSelection_elem.
Qed.

Lemma drawTip_inl now rnd roundId row st e st' : drawTip now rnd roundId row st = (inl e, st') -> st' = st.
Proof.
  unfold drawTip. repeat case_match; by intros [= <- <-].
Qed.

Lemma tipsInv_draw w now roundId round endPrice t tip : tipsInv w ->
  r_status round = RESOLVED -> r_endPrice round = Some endPrice ->
  t ∈ tipsToConsider (calculateContext round endPrice) (recentTipIds (tr_state w)) ->
  tip = tipOf t (calculateContext round endPrice) roundId ->
  tipsInv (mkTipRun (mkTipState (cacheTip now roundId tip (tipCache (tr_state w))) (remember (tt_id t) (recentTipIds (tr_state w))))
             (mkGeneration roundId now round endPrice t tip :: tr_drawn w)).
Proof.
  intros H Hres Hend Ht Htip. pose proof (tips_considered _ _ _ (recent_length w H) Ht) as (Hlib & Hel & Hun).
  destruct H as [Hr Hd Hs Hk Hc Hdr].
  assert (Hrem : remember (tt_id t) (recentTipIds (tr_state w)) = rev (map drawnId (take MAX_RECENT_TIPS (mkGeneration roundId now round endPrice t tip :: tr_drawn w)))).
  { rewrite Hr, <- !firstn_map. apply remember_rev. }
  split; cbn [tr_state tr_drawn tipCache recentTipIds].
  - exact Hrem.
  - unfold remember. assert (Hnd : NoDup (recentTipIds (tr_state w) ++ [tt_id t])%list).
    { apply NoDup_app. split_and!; [done| |apply NoDup_singleton]. intros x Hx ->%list_elem_of_singleton. done. }
    case_match; [|done]. destruct (recentTipIds (tr_state w) ++ [tt_id t])%list; [done|]. by apply NoDup_cons in Hnd as [_ Hnd].
  - apply pruneCache_length. pose proof (putEntry_keys roundId (mkEntry tip now) (fun _ => mkEntry tip now) (tipCache (tr_state w))) as Ek.
    apply (f_equal length) in Ek. rewrite length_fmap in Ek. rewrite Ek. case_bool_decide; rewrite ?length_app, length_fmap; cbn; lia.
  - by apply pruneCache_NoDup, putEntry_NoDup.
  - intros id e He%pruneCache_get. rewrite entryFor_putEntry in He. cbn. destruct (String.eqb roundId id).
    + injection He as <-. eexists. split; [done|]. by destruct (entryFor roundId (tipCache (tr_state w))).
    + by apply Hc.
  - split; [|done]. unfold generationOk. cbn. split_and!; try done. rewrite Hr in Hun. intros Hin. apply Hun.
    apply list_elem_of_In, in_rev. rewrite rev_involutive. by apply list_elem_of_In.
Qed.

Lemma tipsInv_step w ev : tipsInv w -> tipsInv (tipStep w ev).
Proof.
  intros H. destruct ev as [now roundId|now rnd roundId row|roundId]; cbn [tipStep].
  - unfold getCachedTip. destruct (entryFor _ _) as [e|]; [|by destruct w]. case_match; [by apply tipsInv_forget|by destruct w].
  - destruct (drawTip now rnd roundId row (tr_state w)) as [[e|[t tip]] st] eqn:Ed.
    + apply drawTip_inl in Ed as ->. destruct w, row as [?|[?|]]; exact H.
    + apply drawTip_inr in Ed as (round & endPrice & -> & Hres & Hend & Ht & Htip & ->). rewrite Hend. by apply tipsInv_draw.
  - by apply tipsInv_forget.
Qed.

Lemma tipsInv_run evs : tipsInv (runTips evs).
Proof.
  induction evs as [|ev evs IH] using rev_ind.
  - split; cbn; try done; [constructor|lia|constructor].
  - unfold runTips. rewrite foldl_app. by apply tipsInv_step.
Qed.

(** *** The loop of subtractions always chooses *)

Lemma totalWeight_from tips : forall k, foldl (fun sum t => sum + tipWeight t) k tips = k + totalWeight tips.
Proof.
  unfold totalWeight. induction tips as [|t tips IH]; intros k; cbn; [lia|]. rewrite IH, (IH (0 + tipWeight t)). lia.
Qed.

Lemma totalWeight_cons t tips : totalWeight (t :: tips) = tipWeight t + totalWeight tips.
Proof. unfold totalWeight at 1. cbn. rewrite totalWeight_from. lia. Qed.

Lemma totalWeight_nonneg tips : Forall (fun t => 0 <= tipWeight t) tips -> 0 <= totalWeight tips.
Proof. induction 1 as [|t tips Ht _ IH]; [done|]. rewrite totalWeight_cons. lia. Qed.

Lemma weightedLoop_chooses tips : forall random, tips <> [] -> Forall (fun t => 0 <= tipWeight t) tips ->
  totalWeight tips < 2 ^ 53 -> (random <= inject_Z (totalWeight tips))%Q -> weightedLoop random tips <> None.
Proof.
  induction tips as [|t tips IH]; [done|]. intros random _ Hw Hlt Hle. apply Forall_cons in Hw as [Ht Hw].
  pose proof (totalWeight_nonneg tips Hw) as Hnn. rewrite totalWeight_cons in Hlt, Hle. cbn [weightedLoop].
  assert (Hnext : (f64 (random - inject_Z (tipWeight t)) <= inject_Z (totalWeight tips))%Q).
  { rewrite <- (f64_integer (totalWeight tips)) by lia. apply f64_mono. rewrite inject_Z_plus in Hle. lra. }
  destruct tips as [|u tips].
  - assert (Hz : Qle_bool (f64 (random - inject_Z (tipWeight t))) 0 = true) by (apply Qle_bool_iff; exact Hnext). by rewrite Hz.
  - destruct (Qle_bool _ _); [done|]. by apply IH; [..|lia|].
Qed.

(** For a random number below 1 the comment of the source is right: the first
    tip of the list is never fallen back on. *)
Lemma fallback_unreachable rnd tips : tips <> [] -> Forall (fun t => 0 <= tipWeight t) tips -> totalWeight tips < 2 ^ 53 ->
  (rnd < 1)%Q -> weightedLoop (f64 (rnd * inject_Z (totalWeight tips))) tips <> None.
Proof.
  intros Ht Hw Hlt Hr. apply weightedLoop_chooses; [done..|]. pose proof (totalWeight_nonneg tips Hw) as Hnn.
  rewrite <- (f64_integer (totalWeight tips)) at 2 by lia. apply f64_mono.
  assert (0 <= inject_Z (totalWeight tips))%Q by (change 0%Q with (inject_Z 0); by rewrite <- Zle_Qle). nra.
Qed.

(** *** The text is the template with its variables filled in *)

Inductive Piece : Type := Words (s : string) | Variable_ (name : string).

Definition braced (name : string) : string := "{" +:+ name +:+ "}".

Definition pieceText (p : Piece) : string := match p with Words s => s | Variable_ n => braced n end.

Fixpoint joinTexts (l : list string) : string := match l with [] => "" | s :: l => s +:+ joinTexts l end.

Definition variableText (ctx : TipContext) (name : string) : string :=
  if String.eqb name "priceChangePercent" then toFixed 2 (num_abs (cx_priceChangePercent ctx))
  else if String.eqb name "priceChange" then toFixed 4 (num_abs (cx_priceChange ctx))
  else if String.eqb name "outcome" then TipOutcome_str (cx_outcome ctx)
  else if String.eqb name "duration" then pretty (cx_duration ctx)
  else if String.eqb name "startPrice" then toFixed 4 (cx_startPrice ctx)
  else if String.eqb name "endPrice" then toFixed 4 (cx_endPrice ctx)
  else braced name.

(** A template cut at its braces. *)
Definition splitTemplate (s : string) : list Piece :=
  match splitOn "{" s with
  | [] => []
  | first :: rest => Words first :: concat (map (fun part => match splitOn "}" part with
                                                            | name :: after => [Variable_ name; Words (joinTexts after)]
                                                            | [] => [] end) rest)
  end.

Definition filledIn (ctx : TipContext) (p : Piece) : string :=
  match p with Words s => s | Variable_ n => variableText ctx n end.

Definition noBrace (s : string) : bool := negb (hasChar "{" s) && negb (hasChar "}" s).

Definition pieceOk (p : Piece) : bool := match p with Words s | Variable_ s => noBrace s end.

(** One replacement fills in one variable. *)
Definition fillOne (name v : string) (p : Piece) : Piece :=
  match p with Variable_ n => if String.eqb n name then Words v else p | _ => p end.

Lemma noBrace_app s t : noBrace (s +:+ t) = noBrace s && noBrace t.
Proof. unfold noBrace. rewrite !hasChar_app. by destruct (hasChar "{" s), (hasChar "{" t), (hasChar "}" s), (hasChar "}" t). Qed.

Lemma prefix_braced n n' rest : noBrace n = true -> noBrace n' = true ->
  String.prefix (n +:+ "}") (n' +:+ "}" +:+ rest) = String.eqb n' n.
Proof.
  intros Hn. revert n'. induction n as [|c n IH]; intros [|c' n'] Hn'.
  - cbn. by destruct rest.
  - change (noBrace (String c' "" +:+ n') = true) in Hn'. rewrite noBrace_app in Hn'. apply andb_prop in Hn' as [Hc _].
    change ((if Ascii.ascii_dec "}" c' then String.prefix "" (n' +:+ "}" +:+ rest) else false) = false).
    by destruct (Ascii.ascii_dec "}" c') as [<-|].
  - change (noBrace (String c "" +:+ n) = true) in Hn. rewrite noBrace_app in Hn. apply andb_prop in Hn as [Hc _].
    change ((if Ascii.ascii_dec c "}" then String.prefix (n +:+ "}") rest else false) = false).
    by destruct (Ascii.ascii_dec c "}") as [->|].
  - change (noBrace (String c "" +:+ n) = true) in Hn. change (noBrace (String c' "" +:+ n') = true) in Hn'.
    rewrite noBrace_app in Hn, Hn'. apply andb_prop in Hn as [_ Hn], Hn' as [_ Hn'].
    change ((if Ascii.ascii_dec c c' then String.prefix (n +:+ "}") (n' +:+ "}" +:+ rest) else false) = (if Ascii.eqb c' c then String.eqb n' n else false)).
    destruct (Ascii.ascii_dec c c') as [->|Hc]; [rewrite Ascii.eqb_refl; by apply IH|].
    by destruct (Ascii.eqb_spec c' c); [subst|].
Qed.

Lemma replaceLiteral_skip p v a rest : replaceLiteral p v (String.length a) (a +:+ rest) = replaceLiteral p v 0 rest.
Proof. induction a as [|c a IH]; [done|exact IH]. Qed.

Lemma replaceLiteral_words name v a rest : hasChar "{" a = false ->
  replaceLiteral (braced name) v 0 (a +:+ rest) = a +:+ replaceLiteral (braced name) v 0 rest.
Proof.
  induction a as [|c a IH]; [done|]. cbn [hasChar]. intros [Hc Ha]%orb_false_elim.
  change ((if String.prefix (braced name) (String c (a +:+ rest)) then v +:+ replaceLiteral (braced name) v (String.length (braced name) - 1) (a +:+ rest)
           else String c (replaceLiteral (braced name) v 0 (a +:+ rest))) = String c (a +:+ replaceLiteral (braced name) v 0 rest)).
  replace (String.prefix (braced name) (String c (a +:+ rest))) with false; [by rewrite IH|].
  change (false = if Ascii.ascii_dec "{" c then String.prefix (name +:+ "}") (a +:+ rest) else false).
  by destruct (Ascii.ascii_dec "{" c) as [<-|].
Qed.

Lemma replaceLiteral_variable name v n rest : noBrace name = true -> noBrace n = true ->
  replaceLiteral (braced name) v 0 (braced n +:+ rest) =
  (if String.eqb n name then v else braced n) +:+ replaceLiteral (braced name) v 0 rest.
Proof.
  intros Hname Hn. change (braced n +:+ rest) with (String "{" ((n +:+ "}") +:+ rest)). cbn [replaceLiteral].
  replace (String.prefix (braced name) (String "{" ((n +:+ "}") +:+ rest))) with (String.eqb n name).
  - destruct (String.eqb_spec n name) as [->|].
    + f_equal. replace (String.length (braced name) - 1)%nat with (String.length (name +:+ "}")); [apply replaceLiteral_skip|].
      change (String.length (name +:+ "}") = S (String.length (name +:+ "}")) - 1)%nat. lia.
    + change (String "{" (replaceLiteral (braced name) v 0 ((n +:+ "}") +:+ rest)) = String "{" ((n +:+ "}") +:+ replaceLiteral (braced name) v 0 rest)).
      f_equal. apply replaceLiteral_words. rewrite hasChar_app. apply andb_prop in Hn as [Hn _]. by rewrite (proj1 (negb_true_iff _) Hn).
  - symmetry. replace ((n +:+ "}") +:+ rest) with (n +:+ "}" +:+ rest) by (clear; induction n as [|c n IH]; [done|exact (f_equal (String c) IH)]).
    change ((if Ascii.ascii_dec "{" "{" then String.prefix (name +:+ "}") (n +:+ "}" +:+ rest) else false) = String.eqb n name).
    destruct (Ascii.ascii_dec "{" "{"); [|done]. by apply prefix_braced.
Qed.

Lemma replaceLiteral_pieces name v ps : noBrace name = true -> forallb pieceOk ps = true ->
  replaceLiteral (braced name) v 0 (joinTexts (map pieceText ps)) = joinTexts (map pieceText (map (fillOne name v) ps)).
Proof.
  intros Hname. induction ps as [|p ps IH]; [done|]. cbn [forallb map joinTexts]. intros [Hp Hps]%andb_prop.
  destruct p as [s|n]; cbn [pieceText fillOne pieceOk] in *.
  - rewrite replaceLiteral_words, IH; [done..|]. apply andb_prop in Hp as [Hp _]. by apply negb_true_iff.
  - rewrite replaceLiteral_variable, IH by done. by destruct (String.eqb n name).
Qed.

Lemma fillOne_ok name v ps : noBrace v = true -> forallb pieceOk ps = true -> forallb pieceOk (map (fillOne name v) ps) = true.
Proof.
  intros Hv. induction ps as [|p ps IH]; [done|]. cbn. intros [Hp Hps]%andb_prop. rewrite IH by done.
  destruct p as [s|n]; cbn in *; [by rewrite Hp|]. destruct (String.eqb n name); cbn; [by rewrite Hv|by rewrite Hp].
Qed.

Lemma noBrace_digits s : allChars isDigit s = true -> noBrace s = true.
Proof. intros Hs. unfold noBrace. by rewrite !(hasChar_allChars isDigit) by done. Qed.

Lemma noBrace_Z (z : Z) : noBrace (pretty z) = true.
Proof.
  destruct z as [|p|p]; [done|apply noBrace_digits, (pretty_digits (N.pos p))|].
  change (noBrace ("-" +:+ pretty (N.pos p)) = true). rewrite noBrace_app. apply noBrace_digits, pretty_digits.
Qed.

Lemma noBrace_zeros n : noBrace (String.concat "" (replicate n "0")) = true.
Proof.
  induction n as [|n IH]; [done|]. cbn [replicate String.concat]. destruct (replicate n "0"); [done|].
  change (noBrace ("0" +:+ "" +:+ String.concat "" (s :: l)) = true). by rewrite !noBrace_app, IH.
Qed.

Lemma noBrace_exponent x : noBrace (exponentText x) = true.
Proof.
  unfold exponentText. pose proof (noBrace_Z (dropZeros 16 (Qround.Qfloor (num_to_dec x / inject_Z (10 ^ (Rounding.expo 10 (num_to_dec x) - 16)))))) as H.
  revert H. generalize (pretty (dropZeros 16 (Qround.Qfloor (num_to_dec x / inject_Z (10 ^ (Rounding.expo 10 (num_to_dec x) - 16)))))) as s.
  pose proof (noBrace_Z (Rounding.expo 10 (num_to_dec x))) as He. revert He. generalize (pretty (Rounding.expo 10 (num_to_dec x))). intros e He.
  intros [|c rest] H; [done|]. change (noBrace (String c "" +:+ rest) = true) in H. rewrite noBrace_app in H. apply andb_prop in H as [Hc Hr].
  destruct rest as [|d rest].
  - change (noBrace (String c "" +:+ "e+" +:+ e) = true). by rewrite !noBrace_app, Hc, He.
  - change (noBrace (String c "" +:+ "." +:+ String d rest +:+ "e+" +:+ e) = true). by rewrite !noBrace_app, Hc, He, Hr.
Qed.

Lemma noBrace_fixed places q : noBrace (fixedText places q) = true.
Proof.
  unfold fixedText. destruct (Qle_bool _ _); [apply noBrace_exponent|]. destruct places; [apply noBrace_Z|].
  unfold Concrete.padLeft. by rewrite !noBrace_app, !noBrace_Z, noBrace_zeros.
Qed.

Lemma noBrace_toFixed places x : noBrace (toFixed places x) = true.
Proof.
  destruct x as [q|s|]; [|by destruct s|done]. cbn [toFixed]. destruct (Qltb q 0); [rewrite noBrace_app|]; by rewrite noBrace_fixed.
Qed.

#[local] Hint Resolve noBrace_toFixed noBrace_Z fillOne_ok : braces.

(** Every template of the library is cut into words and known variables. *)
Definition knownVariable (p : Piece) : bool :=
  match p with
  | Words _ => true
  | Variable_ n => bool_decide (n ∈ ["priceChangePercent"; "priceChange"; "outcome"; "duration"; "startPrice"; "endPrice"]%list)
  end.

Lemma library_splits t : t ∈ TIP_LIBRARY -> let ps := splitTemplate (tt_message t) in
  joinTexts (map pieceText ps) = tt_message t /\ forallb pieceOk ps = true /\ forallb knownVariable ps = true.
Proof.
  assert (Hall : forallb (fun t => let ps := splitTemplate (tt_message t) in
    String.eqb (joinTexts (map pieceText ps)) (tt_message t) && forallb pieceOk ps && forallb knownVariable ps) TIP_LIBRARY = true) by (vm_compute; reflexivity).
  intros Ht%list_elem_of_In. rewrite forallb_forall in Hall. specialize (Hall t Ht).
  apply andb_prop in Hall as [Hall Hk]. apply andb_prop in Hall as [He Ho]. split_and!; [by apply String.eqb_eq|exact Ho|exact Hk].
Qed.

(** The six replacements, one after the other, fill all variables in at once;
    no value is taken for a placeholder. *)
Lemma interpolateMessage_filled t ctx : t ∈ TIP_LIBRARY ->
  interpolateMessage (tt_message t) ctx = joinTexts (map (filledIn ctx) (splitTemplate (tt_message t))).
Proof.
  intros Ht. destruct (library_splits t Ht) as (Ej & Hok & Hk). revert Ej Hok Hk. generalize (splitTemplate (tt_message t)) as ps. intros ps <- Hok Hk.
  unfold interpolateMessage.
  change "{priceChangePercent}" with (braced "priceChangePercent"). change "{priceChange}" with (braced "priceChange").
  change "{outcome}" with (braced "outcome"). change "{duration}" with (braced "duration").
  change "{startPrice}" with (braced "startPrice"). change "{endPrice}" with (braced "endPrice").
  assert (Ho : noBrace (TipOutcome_str (cx_outcome ctx)) = true) by (by destruct (cx_outcome ctx)).
  cbv zeta. rewrite !replaceLiteral_pieces by (done || (repeat (apply fillOne_ok; [auto with braces|])); exact Hok).
  f_equal. rewrite !map_map. apply map_ext_in. intros p Hp. rewrite forallb_forall in Hk. specialize (Hk p Hp).
  destruct p as [s|n]; [done|]. cbn [knownVariable] in Hk. apply bool_decide_eq_true in Hk. rewrite !elem_of_cons in Hk.
  destruct Hk as [->|[->|[->|[->|[->|[->|Hn%not_elem_of_nil]]]]]]; done.
Qed.

(** ** Summary *)

(** C34. Whatever requests look into the cache, draw a tip or clear an entry, in any
    order and at any times: every tip drawn fits its resolved round, says what
    its template says of that round, and is of a template that none of the ten
    tips before it was of; a tip served from the cache is the last one drawn for
    its round and at most an hour old; and the cache holds at most a thousand. *)
Theorem tips_vary evs :
  let w := runTips evs in
  (forall newer g older, tr_drawn w = (newer ++ g :: older)%list ->
     let ctx := calculateContext (g_round g) (g_endPrice g) in let t := g_template g in
     r_status (g_round g) = RESOLVED /\ r_endPrice (g_round g) = Some (g_endPrice g) /\
     t ∈ TIP_LIBRARY /\ eligible ctx t = true /\ g_tip g = tipOf t ctx (g_roundId g) /\
     et_message (g_tip g) = joinTexts (map (filledIn ctx) (splitTemplate (tt_message t))) /\
     forall g', g' ∈ take 10 older -> tt_id (g_template g') <> tt_id t) /\
  (forall now roundId tip st, getCachedTip now roundId (tr_state w) = (Some tip, st) ->
     exists g, lastDrawn roundId (tr_drawn w) = Some g /\ g_tip g = tip /\ now - g_time g <= 3600000) /\
  (length (tipCache (tr_state w)) <= 1000)%nat /\ (length (recentTipIds (tr_state w)) <= 10)%nat.
Proof.
  cbv zeta. pose proof (tipsInv_run evs) as H. split_and!.
  - intros newer g older E. pose proof (inv_drawn _ H) as Hd. rewrite E in Hd.
    assert (Hok : generationOk older g) by (clear E; induction newer as [|g' newer IH]; [by destruct Hd|by apply IH; destruct Hd]).
    destruct Hok as (Hs & He & Hlib & Hel & Hun & Htip). split_and!; try done.
    + rewrite Htip. by apply interpolateMessage_filled.
    + intros g' Hg' Eid. apply Hun. unfold drawnId at 1. rewrite <- Eid. apply list_elem_of_In. apply (in_map drawnId). by apply list_elem_of_In.
  - intros now roundId tip st. unfold getCachedTip. destruct (entryFor roundId _) as [e|] eqn:Ee; [|done].
    case (Z.ltb_spec CACHE_TTL_MS (now - ce_timestamp e)) as [|Hage]; [done|]. intros [= <- <-].
    destruct (inv_cached _ H roundId e Ee) as (g & Hg & Ht & Htime). exists g. rewrite Htime. split_and!; [done..|]. exact Hage.
  - apply (inv_small _ H).
  - apply (recent_length _ H).
Qed.

(** *** Repeated requests and the route *)

(** While the clock does not run backwards, a second request within the hour
    is answered with the tip of the first. *)
Lemma generateTip_repeats w now later rnd roundId row tip st again rnd' row' : tipsInv w ->
  Forall (fun e => ce_timestamp (snd e) <= later) (tipCache (tr_state w)) ->
  getCachedTip now roundId (tr_state w) = (None, tr_state w) ->
  generateTip now later rnd roundId row (tr_state w) = (inr tip, st) ->
  again - later <= 3600000 -> generateTip again again rnd' roundId row' st = (inr tip, st).
Proof.
  intros H Ht Hmiss Hgen Hage. unfold generateTip in Hgen. rewrite Hmiss in Hgen.
  destruct (drawTip later rnd roundId row (tr_state w)) as [[e|[t tip']] st'] eqn:Ed; [done|]. injection Hgen as <- <-.
  apply drawTip_inr in Ed as (round & endPrice & _ & _ & _ & _ & _ & ->).
  unfold generateTip, getCachedTip. cbn [tipCache]. rewrite cacheTip_kept by (apply H || done). cbn [ce_timestamp ce_tip].
  case (Z.ltb_spec CACHE_TTL_MS (again - later)) as [Hlt|_]; [unfold CACHE_TTL_MS in Hlt; lia|done].
Qed.

(** Only a well-formed identifier reaches the service, and a tip is served
    only of a resolved round with its prices. *)
Lemma tipRoute_answers roundId now later rnd row st tip st' :
  tipRoute roundId (fun id => generateTip now later rnd id row) st = (inr tip, st') ->
  exists id, roundId = Some (QueryText id) /\ isUuid id = true /\
    exists tip', tip = tipResponse tip' /\
      (getCachedTip now id st = (Some tip', st') \/
       exists round, row = inr (Some round) /\ r_status round = RESOLVED /\ r_endPrice round <> None).
Proof.
  destruct roundId as [[id|]|]; [|done..]. cbn [tipRoute]. destruct (String.eqb id ""); [done|]. destruct (isUuid id) eqn:Eu; [|done]. cbn [negb].
  destruct (generateTip now later rnd id row st) as [[e|tip'] st''] eqn:Eg; [done|]. intros [= <- <-].
  exists id. split_and!; [done..|]. exists tip'. split; [done|]. unfold generateTip in Eg.
  destruct (getCachedTip now id st) as [[tip0|] st0]; [injection Eg as <- <-; by left|].
  destruct (drawTip later rnd id row st0) as [[e|[t tip0]] st1] eqn:Ed; [done|]. right.
  apply drawTip_inr in Ed as (round & endPrice & -> & Hs & He & _). exists round. split_and!; [done..|]. by rewrite He.
Qed.
