(* ===== verification/AuthAudit.v ===== *)
(** * The audit log of authentication (src/src/utils/audit-logger.ts)

    Every event is written to the log and, unless that is switched off, to the
    AuditLog table by a call nobody waits for. A text has a character per byte,
    as header values have; a date is a number of milliseconds, also where its
    ISO text is kept; the clock is read once per event. The widths of the columns
    are those of prisma/schema.prisma. *)

From Stdlib Require Import ZArith QArith Lia.
From stdpp Require Import base strings list pretty.
From S2P Require Import Prelude.
From S2P Require Import Numeric.
From S2P Require Import Challenge.
From S2P Require Import Digits.

#[local] Open Scope string_scope.
#[local] Open Scope Z_scope.

Inductive AuditEventType : Type :=
| CHALLENGE_ISSUED | CHALLENGE_VERIFIED | CHALLENGE_FAILED | CHALLENGE_EXPIRED_EVENT | CHALLENGE_INVALIDATED | CHALLENGE_REUSED
| AUTH_SUCCESS | AUTH_FAILED | SIGNATURE_INVALID
| USER_CREATED | USER_LOGIN.

Definition AuditEventType_str (t : AuditEventType) : string :=
  match t with
  | CHALLENGE_ISSUED => "auth.challenge.issued"
  | CHALLENGE_VERIFIED => "auth.challenge.verified"
  | CHALLENGE_FAILED => "auth.challenge.failed"
  | CHALLENGE_EXPIRED_EVENT => "auth.challenge.expired"
  | CHALLENGE_INVALIDATED => "auth.challenge.invalidated"
  | CHALLENGE_REUSED => "auth.challenge.reused"
  | AUTH_SUCCESS => "auth.success"
  | AUTH_FAILED => "auth.failed"
  | SIGNATURE_INVALID => "auth.signature.invalid"
  | USER_CREATED => "auth.user.created"
  | USER_LOGIN => "auth.user.login"
  end.

Inductive AuditSeverity : Type := SEV_INFO | SEV_WARNING | SEV_ERROR | SEV_CRITICAL.

Definition AuditSeverity_str (s : AuditSeverity) : string :=
  match s with SEV_INFO => "info" | SEV_WARNING => "warning" | SEV_ERROR => "error" | SEV_CRITICAL => "critical" end.

Inductive ActorType : Type := ActorUser | ActorSystem | ActorAnonymous.

Definition ActorType_str (t : ActorType) : string :=
  match t with ActorUser => "user" | ActorSystem => "system" | ActorAnonymous => "anonymous" end.

Record AuditActor : Type := mkActor {
  aa_type : ActorType;
  aa_walletAddress : option string;
  aa_userId : option string;
  aa_ipAddress : option string;
  aa_userAgent : option string;
}.

Record AuditContext : Type := mkAuditContext {
  ax_requestId : option string;
  ax_sessionId : option string;
  ax_endpoint : option string;
  ax_method : option string;
  ax_timestamp : Z;
}.

Inductive ResourceType : Type := ResChallenge | ResUser | ResSession.

Definition ResourceType_str (t : ResourceType) : string :=
  match t with ResChallenge => "challenge" | ResUser => "user" | ResSession => "session" end.

Record AuditResource : Type := mkResource {
  ar_type : ResourceType;
  ar_id : option string;
  ar_walletAddress : option string;
}.

Inductive MetaValue : Type :=
| MetaText (s : string)
| MetaNumber (x : num)
| MetaBool (b : bool)
| MetaTime (ms : Z)
| MetaUndefined.

Definition metaOption (o : option string) : MetaValue := match o with Some s => MetaText s | None => MetaUndefined end.

Inductive AuditOutcome : Type := OutSuccess | OutFailure.

Definition AuditOutcome_str (o : AuditOutcome) : string := match o with OutSuccess => "success" | OutFailure => "failure" end.

Record AuditEvent : Type := mkAuditEvent {
  ae_eventType : AuditEventType;
  ae_severity : AuditSeverity;
  ae_message : string;
  ae_actor : AuditActor;
  ae_context : AuditContext;
  ae_resource : option AuditResource;
  ae_metadata : list (string * MetaValue);
  ae_outcome : AuditOutcome;
}.

(** ** The log *)

Inductive LogLevel : Type := LevelError | LevelWarn | LevelInfo.

Record LogEntry : Type := mkLogEntry { le_level : LogLevel; le_event : AuditEvent }.

Definition levelOf (s : AuditSeverity) : LogLevel :=
  match s with SEV_CRITICAL | SEV_ERROR => LevelError | SEV_WARNING => LevelWarn | SEV_INFO => LevelInfo end.

Definition sanitizeActor (actor : AuditActor) : AuditActor :=
  mkActor (aa_type actor) (aa_walletAddress actor) (aa_userId actor) (aa_ipAddress actor)
    (match truthy (aa_userAgent actor) with Some agent => Some (slicePrefix 200 agent) | None => None end).

Definition logEntryOf (e : AuditEvent) : LogEntry :=
  mkLogEntry (levelOf (ae_severity e))
    (mkAuditEvent (ae_eventType e) (ae_severity e) (ae_message e) (sanitizeActor (ae_actor e)) (ae_context e)
       (ae_resource e) (ae_metadata e) (ae_outcome e)).

(** ** The table *)

Record AuditRow : Type := mkAuditRow {
  aw_eventType : string;
  aw_severity : string;
  aw_message : string;
  aw_outcome : string;
  aw_actorType : string;
  aw_walletAddress : option string;
  aw_userId : option string;
  aw_ipAddress : option string;
  aw_userAgent : option string;
  aw_requestId : option string;
  aw_sessionId : option string;
  aw_endpoint : option string;
  aw_method : option string;
  aw_resourceType : option string;
  aw_resourceId : option string;
  aw_resourceWalletAddress : option string;
  aw_metadata : list (string * MetaValue);
  aw_timestamp : Z;
}.

Definition auditRowOf (e : AuditEvent) : AuditRow :=
  {| aw_eventType := AuditEventType_str (ae_eventType e);
     aw_severity := AuditSeverity_str (ae_severity e);
     aw_message := ae_message e;
     aw_outcome := AuditOutcome_str (ae_outcome e);
     aw_actorType := ActorType_str (aa_type (ae_actor e));
     aw_walletAddress := aa_walletAddress (ae_actor e);
     aw_userId := aa_userId (ae_actor e);
     aw_ipAddress := aa_ipAddress (ae_actor e);
     aw_userAgent := aa_userAgent (ae_actor e);
     aw_requestId := ax_requestId (ae_context e);
     aw_sessionId := ax_sessionId (ae_context e);
     aw_endpoint := ax_endpoint (ae_context e);
     aw_method := ax_method (ae_context e);
     aw_resourceType := option_map (fun r => ResourceType_str (ar_type r)) (ae_resource e);
     aw_resourceId := match ae_resource e with Some r => ar_id r | None => None end;
     aw_resourceWalletAddress := match ae_resource e with Some r => ar_walletAddress r | None => None end;
     aw_metadata := ae_metadata e;
     aw_timestamp := ax_timestamp (ae_context e) |}.

(** A value of a [VarChar(n)] column; the server refuses a longer one. *)
Definition within (n : nat) (s : string) : bool := (String.length s <=? n)%nat.
Definition withinOpt (n : nat) (s : option string) : bool := match s with Some s => within n s | None => true end.

Definition fitsColumns (r : AuditRow) : bool :=
  within 100 (aw_eventType r) && within 20 (aw_severity r) && within 500 (aw_message r) && within 20 (aw_outcome r) &&
  within 50 (aw_actorType r) && withinOpt 100 (aw_walletAddress r) && withinOpt 100 (aw_userId r) &&
  withinOpt 45 (aw_ipAddress r) && withinOpt 500 (aw_userAgent r) &&
  withinOpt 100 (aw_requestId r) && withinOpt 100 (aw_sessionId r) && withinOpt 200 (aw_endpoint r) && withinOpt 10 (aw_method r) &&
  withinOpt 50 (aw_resourceType r) && withinOpt 100 (aw_resourceId r) && withinOpt 100 (aw_resourceWalletAddress r).

(** What was logged, the calls to the database still under way, the rows, and
    the failures reported in the log. *)
Record AuditState : Type := mkAuditState {
  as_log : list LogEntry;
  as_pending : list AuditRow;
  as_rows : list AuditRow;
  as_lost : list AuditRow;
}.

Definition noAudit : AuditState := mkAuditState [] [] [] [].

Section Logger.
(** AUDIT_LOG_DATABASE_ENABLED *)
Variable databaseFlag : option string.

Definition dbEnabled : bool := negb (bool_decide (databaseFlag = Some "false")).

Definition persistToDatabase (e : AuditEvent) (st : AuditState) : AuditState :=
  if dbEnabled then mkAuditState (as_log st) (as_pending st ++ [auditRowOf e])%list (as_rows st) (as_lost st) else st.

Definition logAudit (e : AuditEvent) (st : AuditState) : AuditState :=
  persistToDatabase e (mkAuditState (as_log st ++ [logEntryOf e])%list (as_pending st) (as_rows st) (as_lost st)).

(** The server answers one of the calls under way. *)
Definition answerAudit (n : nat) (accepted : bool) (st : AuditState) : AuditState :=
  match as_pending st !! n with
  | None => st
  | Some r =>
      let rest := delete n (as_pending st) in
      if accepted && fitsColumns r
      then mkAuditState (as_log st) rest (as_rows st ++ [r])%list (as_lost st)
      else mkAuditState (as_log st) rest (as_rows st) (as_lost st ++ [r])%list
  end.

Inductive AuditStep : Type := Logged (e : AuditEvent) | Answered (n : nat) (accepted : bool).

Definition auditStep (st : AuditState) (s : AuditStep) : AuditState :=
  match s with Logged e => logAudit e st | Answered n accepted => answerAudit n accepted st end.

Definition runAudit (steps : list AuditStep) : AuditState := foldl auditStep noAudit steps.
End Logger.

(** ** The events *)

(** What every function is given of the request. *)
Record RequestInfo : Type := mkRequestInfo {
  ri_requestId : option string;
  ri_ipAddress : option string;
  ri_userAgent : option string;
}.

Definition connectContext (i : RequestInfo) (now : Z) : AuditContext :=
  mkAuditContext (ri_requestId i) None (Some "/api/auth/connect") (Some "POST") now.

Definition anonymousActor (wallet : string) (i : RequestInfo) : AuditActor :=
  mkActor ActorAnonymous (Some wallet) None (ri_ipAddress i) (ri_userAgent i).

Definition userActor (wallet userId : string) (i : RequestInfo) : AuditActor :=
  mkActor ActorUser (Some wallet) (Some userId) (ri_ipAddress i) (ri_userAgent i).

Definition challengeResource (challengeId wallet : string) : AuditResource :=
  mkResource ResChallenge (Some challengeId) (Some wallet).

Definition userResource (userId wallet : string) : AuditResource := mkResource ResUser (Some userId) (Some wallet).

(** [Math.floor(ms / 1000)] *)
Definition wholeSeconds (ms : Z) : MetaValue := MetaNumber (int (ms / 1000)).

Definition logChallengeIssued (wallet challengeId : string) (expiresAt : Z) (i : RequestInfo) (now : Z) : AuditEvent :=
  {| ae_eventType := CHALLENGE_ISSUED; ae_severity := SEV_INFO;
     ae_message := "Authentication challenge issued"; ae_outcome := OutSuccess;
     ae_actor := anonymousActor wallet i;
     ae_context := mkAuditContext (ri_requestId i) None (Some "/api/auth/challenge") (Some "POST") now;
     ae_resource := Some (challengeResource challengeId wallet);
     ae_metadata := [("expiresAt", MetaTime expiresAt); ("ttlSeconds", wholeSeconds (expiresAt - now))] |}.

Definition logChallengeVerified (wallet userId challengeId : string) (isNewUser : bool) (i : RequestInfo) (now : Z) : AuditEvent :=
  {| ae_eventType := CHALLENGE_VERIFIED; ae_severity := SEV_INFO;
     ae_message := "Authentication challenge verified successfully"; ae_outcome := OutSuccess;
     ae_actor := userActor wallet userId i; ae_context := connectContext i now;
     ae_resource := Some (challengeResource challengeId wallet);
     ae_metadata := [("isNewUser", MetaBool isNewUser); ("authMethod", MetaText "wallet_signature")] |}.

Inductive FailureReason : Type :=
| invalid_signature | challenge_not_found | challenge_expired | challenge_used | wallet_mismatch.

Definition FailureReason_str (r : FailureReason) : string :=
  match r with
  | invalid_signature => "invalid_signature"
  | challenge_not_found => "challenge_not_found"
  | challenge_expired => "challenge_expired"
  | challenge_used => "challenge_used"
  | wallet_mismatch => "wallet_mismatch"
  end.

Definition logChallengeFailed (wallet : string) (challengeId : option string) (reason : FailureReason) (i : RequestInfo) (now : Z) : AuditEvent :=
  {| ae_eventType := CHALLENGE_FAILED; ae_severity := SEV_WARNING;
     ae_message := "Authentication challenge verification failed: " +:+ FailureReason_str reason; ae_outcome := OutFailure;
     ae_actor := anonymousActor wallet i; ae_context := connectContext i now;
     ae_resource := option_map (fun id => challengeResource id wallet) (truthy challengeId);
     ae_metadata := [("failureReason", MetaText (FailureReason_str reason))] |}.

Definition logChallengeExpired (wallet challengeId : string) (expiresAt : Z) (i : RequestInfo) (now : Z) : AuditEvent :=
  {| ae_eventType := CHALLENGE_EXPIRED_EVENT; ae_severity := SEV_INFO;
     ae_message := "Authentication challenge expired"; ae_outcome := OutFailure;
     ae_actor := mkActor ActorAnonymous (Some wallet) None (ri_ipAddress i) None; ae_context := connectContext i now;
     ae_resource := Some (challengeResource challengeId wallet);
     ae_metadata := [("expiresAt", MetaTime expiresAt); ("expiredSecondsAgo", wholeSeconds (now - expiresAt))] |}.

Inductive InvalidationReason : Type := reason_used | reason_replaced | reason_cleanup.

Definition InvalidationReason_str (r : InvalidationReason) : string :=
  match r with reason_used => "used" | reason_replaced => "replaced" | reason_cleanup => "cleanup" end.

Definition logChallengeInvalidated (wallet challengeId : string) (reason : InvalidationReason) (i : RequestInfo) (now : Z) : AuditEvent :=
  {| ae_eventType := CHALLENGE_INVALIDATED; ae_severity := SEV_INFO;
     ae_message := "Authentication challenge invalidated: " +:+ InvalidationReason_str reason; ae_outcome := OutSuccess;
     ae_actor := mkActor ActorSystem (Some wallet) None None None;
     ae_context := mkAuditContext (ri_requestId i) None None None now;
     ae_resource := Some (challengeResource challengeId wallet);
     ae_metadata := [("invalidationReason", MetaText (InvalidationReason_str reason))] |}.

Definition logChallengeReused (wallet challengeId : string) (usedAt : Z) (i : RequestInfo) (now : Z) : AuditEvent :=
  {| ae_eventType := CHALLENGE_REUSED; ae_severity := SEV_WARNING;
     ae_message := "Attempt to reuse already-consumed authentication challenge"; ae_outcome := OutFailure;
     ae_actor := anonymousActor wallet i; ae_context := connectContext i now;
     ae_resource := Some (challengeResource challengeId wallet);
     ae_metadata := [("originalUsedAt", MetaTime usedAt); ("secondsSinceUsed", wholeSeconds (now - usedAt))] |}.

Definition logInvalidSignature (wallet challengeId : string) (i : RequestInfo) (now : Z) : AuditEvent :=
  {| ae_eventType := SIGNATURE_INVALID; ae_severity := SEV_WARNING;
     ae_message := "Invalid signature provided for authentication challenge"; ae_outcome := OutFailure;
     ae_actor := anonymousActor wallet i; ae_context := connectContext i now;
     ae_resource := Some (challengeResource challengeId wallet);
     ae_metadata := [("verificationMethod", MetaText "stellar_sdk")] |}.

Definition logAuthSuccess (wallet userId : string) (isNewUser : bool) (i : RequestInfo) (now : Z) : AuditEvent :=
  {| ae_eventType := AUTH_SUCCESS; ae_severity := SEV_INFO;
     ae_message := "User authenticated successfully"; ae_outcome := OutSuccess;
     ae_actor := userActor wallet userId i; ae_context := connectContext i now;
     ae_resource := Some (userResource userId wallet);
     ae_metadata := [("isNewUser", MetaBool isNewUser); ("authMethod", MetaText "wallet_signature")] |}.

Definition logUserCreated (wallet userId : string) (i : RequestInfo) (now : Z) : AuditEvent :=
  {| ae_eventType := USER_CREATED; ae_severity := SEV_INFO;
     ae_message := "New user account created"; ae_outcome := OutSuccess;
     ae_actor := mkActor ActorSystem None None None None; ae_context := connectContext i now;
     ae_resource := Some (userResource userId wallet);
     ae_metadata := [("registrationMethod", MetaText "wallet_authentication"); ("ipAddress", metaOption (ri_ipAddress i))] |}.

Definition logUserLogin (wallet userId : string) (streak bonusAwarded : num) (i : RequestInfo) (now : Z) : AuditEvent :=
  {| ae_eventType := USER_LOGIN; ae_severity := SEV_INFO;
     ae_message := "User logged in"; ae_outcome := OutSuccess;
     ae_actor := mkActor ActorUser (Some wallet) (Some userId) (ri_ipAddress i) None; ae_context := connectContext i now;
     ae_resource := Some (userResource userId wallet);
     ae_metadata := [("streak", MetaNumber streak); ("bonusAwarded", MetaNumber bonusAwarded)] |}.

Definition logSignatureInvalid (wallet reason : string) (i : RequestInfo) (now : Z) : AuditEvent :=
  {| ae_eventType := SIGNATURE_INVALID; ae_severity := SEV_WARNING;
     ae_message := "Invalid wallet signature detected"; ae_outcome := OutFailure;
     ae_actor := anonymousActor wallet i; ae_context := connectContext i now;
     ae_resource := None;
     ae_metadata := [("failureReason", MetaText reason)] |}.

Definition logAuthFailed (wallet reason : string) (i : RequestInfo) (now : Z) : AuditEvent :=
  {| ae_eventType := AUTH_FAILED; ae_severity := SEV_ERROR;
     ae_message := "Authentication failed"; ae_outcome := OutFailure;
     ae_actor := anonymousActor wallet i; ae_context := connectContext i now;
     ae_resource := None;
     ae_metadata := [("failureReason", MetaText reason)] |}.

(** ** What is kept of an event *)

Section Trail.
Variable databaseFlag : option string.

Notation run := (runAudit databaseFlag).

(** The events logged, in order. *)
Definition eventsOf (steps : list AuditStep) : list AuditEvent :=
  omap (fun s => match s with Logged e => Some e | Answered _ _ => None end) steps.

Record trailInv (steps : list AuditStep) (st : AuditState) : Prop := {
  tr_log : as_log st = map logEntryOf (eventsOf steps);
  tr_calls : dbEnabled databaseFlag = true -> as_rows st ++ as_lost st ++ as_pending st ≡ₚ map auditRowOf (eventsOf steps);
  tr_off : dbEnabled databaseFlag = false -> as_rows st = [] /\ as_pending st = [];
  tr_fit : Forall (fun r => fitsColumns r = true) (as_rows st);
}.

Lemma trailInv_run steps : trailInv steps (run steps).
Proof.
  induction steps as [|s steps IH] using rev_ind; [by split; try done; constructor|].
  unfold runAudit. rewrite foldl_app. cbn [foldl]. change (foldl (auditStep databaseFlag) noAudit steps) with (run steps).
  destruct IH as [Hlog Hcalls Hoff Hfit]. destruct s as [e|n accepted]; cbn [auditStep]; [unfold logAudit, persistToDatabase|unfold answerAudit].
  - assert (Eev : eventsOf (steps ++ [Logged e]) = (eventsOf steps ++ [e])%list) by (unfold eventsOf; by rewrite omap_app).
    destruct (dbEnabled databaseFlag) eqn:Edb; split; cbn [as_log as_pending as_rows as_lost]; rewrite ?Eev, ?map_app; try done.
    + by rewrite Hlog.
    + intros _. rewrite <- (Hcalls eq_refl). cbn [map]. by rewrite !app_assoc.
    + intros; congruence.
    + by rewrite Hlog.
    + intros; congruence.
    + intros _. by apply Hoff.
  - assert (Eev : eventsOf (steps ++ [Answered n accepted]) = eventsOf steps) by (unfold eventsOf; by rewrite omap_app, app_nil_r).
    destruct (as_pending (run steps) !! n) as [r|] eqn:En; [|split; rewrite ?Eev; done].
    pose proof (delete_Permutation _ _ _ En) as Hp.
    assert (Hon : dbEnabled databaseFlag = true).
    { destruct (dbEnabled databaseFlag); [done|]. destruct (Hoff eq_refl) as [_ E]. by rewrite E in En. }
    destruct (accepted && fitsColumns r) eqn:Ea; split; cbn [as_log as_pending as_rows as_lost]; rewrite ?Eev; try done; try (intros Hd; congruence).
    + intros _. rewrite <- (Hcalls Hon). set (d := delete n _) in *. rewrite Hp. clearbody d. solve_Permutation.
    + apply Forall_app. split; [done|]. apply Forall_singleton. by apply andb_prop in Ea as [_ Ea].
    + intros _. rewrite <- (Hcalls Hon). set (d := delete n _) in *. rewrite Hp. clearbody d. solve_Permutation.
Qed.
End Trail.

(** *** The challenges *)

Lemma joinLines_length l : (sum_list_with String.length l <= String.length (joinLines l))%nat.
Proof.
  induction l as [|y [|z l] IH]; [done|cbn; lia|].
  change (joinLines (y :: z :: l)) with (y +:+ String newline (joinLines (z :: l))). rewrite length_append.
  change (String.length y + sum_list_with String.length (z :: l) <= String.length y + S (String.length (joinLines (z :: l))))%nat. lia.
Qed.

(** With its 64 digits of nonce and its headings, the text of a challenge is
    longer than the column of the resource. *)
Lemma challenge_too_long `{JsDates} env timestamp nonce w : String.length nonce = 64%nat ->
  within 100 (generateChallenge env timestamp nonce w) = false.
Proof.
  intros Hn. apply Nat.leb_gt. eapply Nat.lt_le_trans; [|apply joinLines_length].
  unfold challengeLines. cbn [cp_domain cp_homeDomain cp_nonce cp_timestamp cp_issuedAt cp_walletAddress].
  rewrite !sum_list_with_app. generalize (match truthy w with Some w => ["Address: " +:+ w] | None => [] end). intros a.
  cbn [sum_list_with]. rewrite !length_append, Hn. cbn. lia.
Qed.

(** The events about a challenge carry its text as their resource. *)
Definition aboutChallenge (challenge : string) (e : AuditEvent) : Prop :=
  exists wallet i now,
    (exists expiresAt, e = logChallengeIssued wallet challenge expiresAt i now) \/
    (exists userId isNew, e = logChallengeVerified wallet userId challenge isNew i now) \/
    (exists reason, e = logChallengeFailed wallet (Some challenge) reason i now) \/
    (exists expiresAt, e = logChallengeExpired wallet challenge expiresAt i now) \/
    (exists reason, e = logChallengeInvalidated wallet challenge reason i now) \/
    (exists usedAt, e = logChallengeReused wallet challenge usedAt i now) \/
    e = logInvalidSignature wallet challenge i now.

Lemma aboutChallenge_resource challenge e : challenge <> "" -> aboutChallenge challenge e -> aw_resourceId (auditRowOf e) = Some challenge.
Proof.
  intros Hne (wallet & i & now & He). decompose [or ex] He; subst e; try done.
  unfold auditRowOf. cbn. destruct (String.eqb_spec challenge ""); done.
Qed.

Lemma fits_resource r : fitsColumns r = true -> withinOpt 100 (aw_resourceId r) = true.
Proof. unfold fitsColumns. intros H. repeat (apply andb_prop in H as [H ?]). done. Qed.

(** ** Summary *)

(** C32. However the calls to the database are answered: every event is in the log,
    in order, at the level of its severity; with the database on, each has one
    call, which is under way, has made its row, or is reported as failed, and
    rows fit their columns; so no event about a challenge that this server
    generated ever has a row. *)
Theorem audit_trail `{JsDates} databaseFlag steps :
  let st := runAudit databaseFlag steps in let evs := eventsOf steps in
  as_log st = map logEntryOf evs /\
  (databaseFlag <> Some "false" -> as_rows st ++ as_lost st ++ as_pending st ≡ₚ map auditRowOf evs) /\
  (databaseFlag = Some "false" -> as_rows st = []) /\
  (forall r, r ∈ as_rows st -> fitsColumns r = true) /\
  (forall env timestamp nonce w e, String.length nonce = 64%nat ->
     aboutChallenge (generateChallenge env timestamp nonce w) e -> auditRowOf e ∉ as_rows st).
Proof.
  cbv zeta. destruct (trailInv_run databaseFlag steps) as [Hlog Hcalls Hoff Hfit].
  rewrite Forall_forall in Hfit. split_and!; try done.
  - intros Hon. apply Hcalls. unfold dbEnabled. by rewrite bool_decide_false.
  - intros ->. by apply Hoff.
  - intros env timestamp nonce w e Hn He Hin. apply Hfit, fits_resource in Hin.
    rewrite (aboutChallenge_resource (generateChallenge env timestamp nonce w)) in Hin; [|by intros ?|exact He].
    cbn [withinOpt] in Hin. by rewrite challenge_too_long in Hin.
Qed.
