(* ===== verification/BetAudit.v ===== *)
(** * The audit events of bets (src/src/services/bet-audit.service.ts, src/src/routes/admin-bet-audit.routes.ts)

    An event is an object: the list in memory, its enrichment with the active
    round and its row all share it, so here objects are kept in [bt_objects] and
    named by their number. Looking the round up and storing the row are calls
    nobody waits for; they are answered in any order. *)

From Stdlib Require Import ZArith QArith Lia.
From stdpp Require Import base gmap strings list pretty.
From S2P Require Import Prelude.
From S2P Require Import Numeric.
From S2P Require Import Schema.
From S2P Require Import Store.
From S2P Require Import Bet.
From S2P Require Import JsonText.
From S2P Require Import Digits.

#[local] Open Scope string_scope.
#[local] Open Scope Z_scope.

Inductive BetAuditEventName : Type := BET_ACCEPTED_EVENT | BET_FAILED_EVENT | BET_RECONCILED_EVENT | CLAIM_ACCEPTED_EVENT.

Definition BetAuditEventName_str (n : BetAuditEventName) : string :=
  match n with
  | BET_ACCEPTED_EVENT => "BET_ACCEPTED"
  | BET_FAILED_EVENT => "BET_FAILED"
  | BET_RECONCILED_EVENT => "BET_RECONCILED"
  | CLAIM_ACCEPTED_EVENT => "CLAIM_ACCEPTED"
  end.

Record BetAuditEvent : Type := mkBetAuditEvent {
  bv_event : BetAuditEventName;
  bv_roundId : option string;
  bv_betId : option string;
  bv_address : string;
  bv_amount : num;
  bv_side : option PredictionSide;
  bv_mode : option BetMode;
  bv_result : string;
  bv_status : option BetStatus;
  bv_txHash : option string;
  bv_requestId : option string;
  bv_correlationId : option string;
  bv_failureReason : option string;
  bv_createdAt : Z;
}.

Record BetAuditParams : Type := mkBetAuditParams {
  bp_betId : option string;
  bp_address : string;
  bp_amount : num;
  bp_side : option PredictionSide;
  bp_mode : BetMode;
  bp_result : string;
  bp_status : option BetStatus;
  bp_txHash : option string;
  bp_requestId : option string;
  bp_correlationId : option string;
  bp_failureReason : option string;
}.

Record ClaimAuditParams : Type := mkClaimAuditParams {
  cq_address : string;
  cq_amount : num;
  cq_result : string;
  cq_txHash : option string;
  cq_requestId : option string;
  cq_correlationId : option string;
}.

(** [a ?? b] *)
Definition nullish {A} (a b : option A) : option A := match a with Some _ => a | None => b end.

(** [params.correlationId ?? (requestId && txHash ? `${requestId}:${txHash}` : requestId ?? txHash)] *)
Definition auditCorrelation (given requestId txHash : option string) : option string :=
  nullish given
    (match truthy requestId, truthy txHash with
     | Some r, Some h => Some (r +:+ ":" +:+ h)
     | _, _ => nullish requestId txHash
     end).

Inductive StorageMode : Type := StoreMemory | StoreDatabase.

(** ** Rows *)

(** The columns written, with the number of the object they are made from. *)
Record BetAuditRow : Type := mkBetAuditRow {
  bw_object : nat;
  bw_eventType : string;
  bw_severity : string;
  bw_message : string;
  bw_outcome : string;
  bw_walletAddress : string;
  bw_resourceType : string;
  bw_resourceId : option string;
  bw_metadata : BetAuditEvent;
  bw_timestamp : Z;
}.

Section Rows.
Context `{JsonText}.

Definition amountText (x : num) : string :=
  match x with Fin q => numberText q | Inf s => if s then "-Infinity" else "Infinity" | NaN => "NaN" end.

(** The fields of [metadata] are those of the event of the same names. *)
Definition betRowOf (i : nat) (e : BetAuditEvent) : BetAuditRow :=
  let failed := match bv_event e with BET_FAILED_EVENT => true | _ => false end in
  let verb := match bv_event e with BET_ACCEPTED_EVENT => "accepted" | BET_FAILED_EVENT => "failed" | _ => "reconciled" end in
  {| bw_object := i;
     bw_eventType := BetAuditEventName_str (bv_event e);
     bw_severity := if failed then "error" else "info";
     bw_message := "Bet " +:+ verb +:+ ": " +:+ (match bv_mode e with Some m => BetMode_str m | None => "undefined" end)
                   +:+ (match bv_side e with Some s => " " +:+ PredictionSide_str s | None => "" end);
     bw_outcome := if failed then "failure" else "success";
     bw_walletAddress := bv_address e;
     bw_resourceType := "bet";
     bw_resourceId := nullish (bv_betId e) (bv_roundId e);
     bw_metadata := e;
     bw_timestamp := bv_createdAt e |}.

Definition claimRowOf (i : nat) (e : BetAuditEvent) : BetAuditRow :=
  {| bw_object := i;
     bw_eventType := BetAuditEventName_str (bv_event e);
     bw_severity := "info";
     bw_message := "Claim accepted: " +:+ amountText (bv_amount e) +:+ " XLM";
     bw_outcome := "success";
     bw_walletAddress := bv_address e;
     bw_resourceType := "claim";
     bw_resourceId := None;
     bw_metadata := e;
     bw_timestamp := bv_createdAt e |}.

(** ** The service *)

Record BetAuditState : Type := mkBetAudit {
  bt_objects : list BetAuditEvent;
  bt_events : list nat;
  bt_enriching : list (nat * BetMode);
  bt_storing : list BetAuditRow;
  bt_rows : list BetAuditRow;
  bt_failed : list BetAuditRow;
}.

Definition noBetAudit : BetAuditState := mkBetAudit [] [] [] [] [] [].

(** BET_AUDIT_STORAGE *)
Variable storage : option string.

Definition storageMode : StorageMode := if bool_decide (storage = Some "database") then StoreDatabase else StoreMemory.

Definition betEventOf (name : BetAuditEventName) (p : BetAuditParams) (contextId : option string) (now : Z) : BetAuditEvent :=
  let requestId := nullish (bp_requestId p) contextId in
  {| bv_event := name; bv_roundId := None; bv_betId := bp_betId p; bv_address := bp_address p; bv_amount := bp_amount p;
     bv_side := bp_side p; bv_mode := Some (bp_mode p); bv_result := bp_result p; bv_status := bp_status p;
     bv_txHash := bp_txHash p; bv_requestId := requestId;
     bv_correlationId := auditCorrelation (bp_correlationId p) requestId (bp_txHash p);
     bv_failureReason := bp_failureReason p; bv_createdAt := now |}.

Definition claimEventOf (p : ClaimAuditParams) (contextId : option string) (now : Z) : BetAuditEvent :=
  let requestId := nullish (cq_requestId p) contextId in
  {| bv_event := CLAIM_ACCEPTED_EVENT; bv_roundId := None; bv_betId := None; bv_address := cq_address p; bv_amount := cq_amount p;
     bv_side := None; bv_mode := None; bv_result := cq_result p; bv_status := None;
     bv_txHash := cq_txHash p; bv_requestId := requestId;
     bv_correlationId := auditCorrelation (cq_correlationId p) requestId (cq_txHash p);
     bv_failureReason := None; bv_createdAt := now |}.

(** [contextId] is the identifier of the request under way, [getRequestId()]. *)
Definition emitBet (name : BetAuditEventName) (p : BetAuditParams) (contextId : option string) (now : Z) (st : BetAuditState) : BetAuditState :=
  let i := length (bt_objects st) in
  mkBetAudit (bt_objects st ++ [betEventOf name p contextId now])%list (bt_events st ++ [i])%list
    (bt_enriching st ++ [(i, bp_mode p)])%list (bt_storing st) (bt_rows st) (bt_failed st).

Definition emitBetAccepted : BetAuditParams -> option string -> Z -> BetAuditState -> BetAuditState := emitBet BET_ACCEPTED_EVENT.
Definition emitBetFailed : BetAuditParams -> option string -> Z -> BetAuditState -> BetAuditState := emitBet BET_FAILED_EVENT.
Definition emitBetReconciled : BetAuditParams -> option string -> Z -> BetAuditState -> BetAuditState := emitBet BET_RECONCILED_EVENT.

Definition emitClaimAccepted (p : ClaimAuditParams) (contextId : option string) (now : Z) (st : BetAuditState) : BetAuditState :=
  let i := length (bt_objects st) in
  let e := claimEventOf p contextId now in
  mkBetAudit (bt_objects st ++ [e])%list (bt_events st ++ [i])%list (bt_enriching st)
    (match storageMode with StoreDatabase => bt_storing st ++ [claimRowOf i e] | StoreMemory => bt_storing st end)%list
    (bt_rows st) (bt_failed st).

Definition withRound (round : string) (e : BetAuditEvent) : BetAuditEvent :=
  mkBetAuditEvent (bv_event e) (Some round) (bv_betId e) (bv_address e) (bv_amount e) (bv_side e) (bv_mode e) (bv_result e)
    (bv_status e) (bv_txHash e) (bv_requestId e) (bv_correlationId e) (bv_failureReason e) (bv_createdAt e).

(** The query for the active round of a mode is answered: with a round, with
    none, or with an error, which is ignored. *)
Inductive RoundLookup : Type := LookupError | LookupNone | LookupRound (id : string).

(** What the query answers when the database does: the ACTIVE round of the mode
    that started last. *)
Definition startedLater (a b : Round) : bool := r_startTime a <? r_startTime b.

Definition lookupActiveRound (m : BetMode) (d : DB) : RoundLookup :=
  let gameMode := match m with MODE_UP_DOWN => UP_DOWN | MODE_PRECISION => LEGENDS end in
  let active r := bool_decide (r_mode r = gameMode) && bool_decide (r_status r = ACTIVE) in
  match sortBy startedLater (rowsWhere active d) with
  | r :: _ => LookupRound (r_id r)
  | [] => LookupNone
  end.

Definition enrichAndPersist (k : nat) (answer : RoundLookup) (st : BetAuditState) : BetAuditState :=
  match bt_enriching st !! k with
  | None => st
  | Some (i, _) =>
      let objects := match answer with LookupRound id => alter (withRound id) i (bt_objects st) | _ => bt_objects st end in
      let rest := delete k (bt_enriching st) in
      match storageMode, objects !! i with
      | StoreDatabase, Some e => mkBetAudit objects (bt_events st) rest (bt_storing st ++ [betRowOf i e])%list (bt_rows st) (bt_failed st)
      | _, _ => mkBetAudit objects (bt_events st) rest (bt_storing st) (bt_rows st) (bt_failed st)
      end
  end.

Definition storeAnswered (k : nat) (accepted : bool) (st : BetAuditState) : BetAuditState :=
  match bt_storing st !! k with
  | None => st
  | Some r =>
      let rest := delete k (bt_storing st) in
      if accepted then mkBetAudit (bt_objects st) (bt_events st) (bt_enriching st) rest (bt_rows st ++ [r])%list (bt_failed st)
      else mkBetAudit (bt_objects st) (bt_events st) (bt_enriching st) rest (bt_rows st) (bt_failed st ++ [r])%list
  end.

Definition clearEvents (st : BetAuditState) : BetAuditState :=
  mkBetAudit (bt_objects st) [] (bt_enriching st) (bt_storing st) (bt_rows st) (bt_failed st).

Definition getEvents (st : BetAuditState) : list BetAuditEvent := omap (fun i => bt_objects st !! i) (bt_events st).

(** [l.slice(0, n)] *)
Definition sliceTo {A} (n : Z) (l : list A) : list A :=
  if n <? 0 then take (Z.to_nat (Z.of_nat (length l) + n)) l else take (Z.to_nat n) l.

Definition redactEvent (e : BetAuditEvent) : BetAuditEvent :=
  mkBetAuditEvent (bv_event e) (bv_roundId e) (bv_betId e) (bv_address e) (bv_amount e) (bv_side e) (bv_mode e) (bv_result e)
    (bv_status e) (match truthy (bv_txHash e) with Some h => Some (slicePrefix 8 h +:+ "...") | None => None end)
    (bv_requestId e) (bv_correlationId e) (bv_failureReason e) (bv_createdAt e).

Definition hasAddress (address : string) (e : BetAuditEvent) : bool := String.eqb (bv_address e) address.

Definition queryEvents (address : option string) (limit : Z) (redact : bool) (st : BetAuditState) : list BetAuditEvent :=
  let filtered := match truthy address with Some a => List.filter (hasAddress a) (getEvents st) | None => getEvents st end in
  let filtered := sliceTo limit filtered in
  if redact then map redactEvent filtered else filtered.

(** GET /api/admin/bet-audit: [{ total, limit, events }]; the guard is in
    [BetRoutes]. [limit] is the text of the parameter. *)
Definition auditLimit (limit : option string) : Z :=
  let n := match limit with Some s => parseIntZ s | None => None end in
  Z.min (match n with Some n => if n =? 0 then 50 else n | None => 50 end) 100.

Definition adminBetAudit (address limit : option string) (st : BetAuditState) : nat * Z * list BetAuditEvent :=
  let limit := auditLimit limit in
  let events := queryEvents address limit true st in
  (length events, limit, events).
End Rows.

(** ** Sequences of events *)

Inductive BetAuditStep : Type :=
| EmitBet (name : BetAuditEventName) (p : BetAuditParams) (contextId : option string) (now : Z)
| EmitClaim (p : ClaimAuditParams) (contextId : option string) (now : Z)
| LookedUp (k : nat) (answer : RoundLookup)
| RowAnswered (k : nat) (accepted : bool)
| Cleared.

Section Run.
Context `{JsonText} (storage : option string).

Definition betAuditStep (st : BetAuditState) (s : BetAuditStep) : BetAuditState :=
  match s with
  | EmitBet name p contextId now => emitBet name p contextId now st
  | EmitClaim p contextId now => emitClaimAccepted storage p contextId now st
  | LookedUp k answer => enrichAndPersist storage k answer st
  | RowAnswered k accepted => storeAnswered k accepted st
  | Cleared => clearEvents st
  end.

Definition runBetAudit (steps : list BetAuditStep) : BetAuditState := foldl betAuditStep noBetAudit steps.

(** The specification: what was emitted, ever and since the last clearing. *)
Definition emittedBy (s : BetAuditStep) : list BetAuditEvent :=
  match s with
  | EmitBet name p contextId now => [betEventOf name p contextId now]
  | EmitClaim p contextId now => [claimEventOf p contextId now]
  | _ => []
  end.

Definition emitted (steps : list BetAuditStep) : list BetAuditEvent := concat (map emittedBy steps).

Definition emittedSince (steps : list BetAuditStep) : list BetAuditEvent :=
  foldl (fun l s => match s with Cleared => [] | _ => l ++ emittedBy s end)%list [] steps.

(** The event as it was emitted, before a round was found. *)
Definition asEmitted (e : BetAuditEvent) : BetAuditEvent :=
  mkBetAuditEvent (bv_event e) None (bv_betId e) (bv_address e) (bv_amount e) (bv_side e) (bv_mode e) (bv_result e)
    (bv_status e) (bv_txHash e) (bv_requestId e) (bv_correlationId e) (bv_failureReason e) (bv_createdAt e).

(** The calls and rows made of the objects, by number. *)
Definition handled (st : BetAuditState) : list nat :=
  ((bt_enriching st).*1 ++ map bw_object (bt_storing st) ++ map bw_object (bt_rows st) ++ map bw_object (bt_failed st))%list.

Definition rowSound (objects : list BetAuditEvent) (r : BetAuditRow) : Prop :=
  exists e e0, objects !! bw_object r = Some e0 /\ asEmitted e = e0 /\
    (r = betRowOf (bw_object r) e \/ r = claimRowOf (bw_object r) e).

Record betAuditInv (steps : list BetAuditStep) (st : BetAuditState) : Prop := {
  bi_objects : map asEmitted (bt_objects st) = emitted steps;
  bi_events : map asEmitted (getEvents st) = emittedSince steps;
  bi_listed : Forall (fun i => i < length (bt_objects st))%nat (bt_events st);
  bi_enriching : Forall (fun e => e.1 < length (bt_objects st))%nat (bt_enriching st);
  bi_handled : storageMode storage = StoreDatabase -> handled st ≡ₚ seq 0 (length (bt_objects st));
  bi_memory : storageMode storage = StoreMemory -> bt_storing st = [] /\ bt_rows st = [] /\ bt_failed st = [];
  bi_rows : Forall (rowSound (emitted steps)) (bt_storing st ++ bt_rows st ++ bt_failed st);
}.

Lemma getEvents_asEmitted (objects objects' : list BetAuditEvent) events : map asEmitted objects = map asEmitted objects' ->
  map asEmitted (omap (fun i => objects !! i) events) = map asEmitted (omap (fun i => objects' !! i) events).
Proof.
  intros E. induction events as [|i events IH]; [done|]. cbn.
  pose proof (f_equal (fun l => l !! i) E) as Ei. cbn in Ei. rewrite !list_lookup_fmap in Ei.
  destruct (objects !! i) as [a|], (objects' !! i) as [b|]; try done. apply (inj Some) in Ei. by apply (f_equal2 cons).
Qed.

Lemma getEvents_snoc (objects : list BetAuditEvent) e events : Forall (fun i => i < length objects)%nat events ->
  omap (fun i => (objects ++ [e])%list !! i) (events ++ [length objects])%list = (omap (fun i => objects !! i) events ++ [e])%list.
Proof.
  intros Hev. rewrite omap_app. f_equal; [|cbn; by rewrite list_lookup_middle].
  induction Hev as [|i events Hi _ IH]; [done|]. cbn. rewrite lookup_app_l by done. by rewrite IH.
Qed.

Lemma Forall_lt_weaken n l : Forall (fun i => i < n)%nat l -> Forall (fun i => i < S n)%nat l.
Proof. intros Hl. eapply Forall_impl; [exact Hl|]. cbn. intros. lia. Qed.

Lemma rowSound_app objects more r : rowSound objects r -> rowSound (objects ++ more) r.
Proof. intros (e & e0 & Hl & He & Hr). exists e, e0. split_and!; try done. by apply lookup_app_l_Some. Qed.

Lemma handled_snoc_enriching st i m objects events :
  handled (mkBetAudit objects events (bt_enriching st ++ [(i, m)])%list (bt_storing st) (bt_rows st) (bt_failed st)) ≡ₚ i :: handled st.
Proof. unfold handled. cbn. rewrite fmap_app. cbn. rewrite <- app_assoc. cbn. symmetry. apply Permutation_middle. Qed.

Lemma rowOf_object i e : bw_object (betRowOf i e) = i /\ bw_object (claimRowOf i e) = i.
Proof. done. Qed.

Lemma inv_emit steps st s e enriching storing : betAuditInv steps st -> emittedBy s = [e] -> s <> Cleared -> asEmitted e = e ->
  let i := length (bt_objects st) in
  (enriching = (bt_enriching st ++ [(i, default MODE_UP_DOWN (bv_mode e))])%list /\ storing = bt_storing st) \/
  (enriching = bt_enriching st /\
   storing = (match storageMode storage with StoreDatabase => bt_storing st ++ [claimRowOf i e] | StoreMemory => bt_storing st end)%list) ->
  betAuditInv (steps ++ [s]) (mkBetAudit (bt_objects st ++ [e])%list (bt_events st ++ [i])%list enriching storing (bt_rows st) (bt_failed st)).
Proof.
  intros [Hobj Hev Hlist Hen Hhand Hmem Hrows] Hs Hnc He i Hcase.
  assert (Eem : emitted (steps ++ [s]) = (emitted steps ++ [e])%list) by (unfold emitted; by rewrite map_app, concat_app; cbn; rewrite Hs).
  assert (Elen : length (emitted steps) = i) by (unfold i; by rewrite <- Hobj, length_map).
  split; cbn [bt_objects bt_events bt_enriching bt_storing bt_rows bt_failed].
  - by rewrite map_app, Hobj, Eem; cbn; rewrite He.
  - unfold getEvents. cbn [bt_objects bt_events]. rewrite getEvents_snoc, map_app by done. fold (getEvents st). rewrite Hev.
    unfold emittedSince. rewrite foldl_app. cbn [map]. rewrite He, <- Hs. clear -Hnc. by destruct s.
  - rewrite length_app. apply Forall_app. split; [|apply Forall_singleton; cbn; lia].
    eapply Forall_impl; [exact Hlist|]. cbn. intros; lia.
  - rewrite length_app. destruct Hcase as [[-> _]|[-> _]]; [apply Forall_app; split; [|apply Forall_singleton; cbn; lia]|].
    all: eapply Forall_impl; [exact Hen|]; cbn; intros; lia.
  - intros Hdb. rewrite length_app, Nat.add_1_r, seq_S, Nat.add_0_l, <- (Hhand Hdb). fold i. transitivity (i :: handled st); [|apply Permutation_cons_append].
    destruct Hcase as [[-> ->]|[-> ->]]; [apply handled_snoc_enriching|]. rewrite Hdb. unfold handled. cbn. rewrite !map_app. cbn.
    rewrite <- !app_assoc. cbn. rewrite <- (Permutation_middle (map bw_object (bt_storing st))). symmetry. apply Permutation_middle.
  - intros Hm. destruct Hcase as [[_ ->]|[_ ->]]; [by apply Hmem|]. rewrite Hm. by apply Hmem.
  - rewrite Eem. assert (Hold : Forall (rowSound (emitted steps ++ [e])) (bt_storing st ++ bt_rows st ++ bt_failed st)).
    { eapply Forall_impl; [exact Hrows|]. intros r. apply rowSound_app. }
    destruct Hcase as [[_ ->]|[_ ->]]; [done|]. destruct (storageMode storage); [done|]. apply Forall_app in Hold as [H1 H2].
    apply Forall_app. split; [|done]. apply Forall_app. split; [done|]. apply Forall_singleton.
    exists e, e. cbn. split_and!; [by rewrite <- Elen; apply list_lookup_middle|done|by right].
Qed.

Lemma length_objects_alter f i (l : list BetAuditEvent) : length (alter f i l) = length l.
Proof. apply length_alter. Qed.

Lemma asEmitted_alter id i (l : list BetAuditEvent) : map asEmitted (alter (withRound id) i l) = map asEmitted l.
Proof. revert i. induction l as [|e l IH]; intros [|i]; cbn; [done..|by rewrite IH]. Qed.

Lemma asEmitted_lookup objects i e : objects !! i = Some e -> map asEmitted objects !! i = Some (asEmitted e).
Proof. intros Hi. change (asEmitted <$> objects) with (map asEmitted objects). by rewrite list_lookup_fmap, Hi. Qed.

Lemma inv_lookedUp steps st k answer : betAuditInv steps st ->
  betAuditInv (steps ++ [LookedUp k answer]) (enrichAndPersist storage k answer st).
Proof.
  intros [Hobj Hev Hlist Hen Hhand Hmem Hrows].
  assert (Eem : emitted (steps ++ [LookedUp k answer]) = emitted steps) by (unfold emitted; by rewrite map_app, concat_app; cbn; rewrite app_nil_r).
  assert (Esi : emittedSince (steps ++ [LookedUp k answer]) = emittedSince steps) by (unfold emittedSince; rewrite foldl_app; cbn; by rewrite app_nil_r).
  unfold enrichAndPersist. destruct (bt_enriching st !! k) as [[i m]|] eqn:Ek; [|by split; rewrite ?Eem, ?Esi].
  set (objects := match answer with LookupRound id => _ | _ => _ end).
  assert (Hobj' : map asEmitted objects = map asEmitted (bt_objects st)) by (unfold objects; destruct answer; [done|done|apply asEmitted_alter]).
  assert (Hlen : length objects = length (bt_objects st)) by (by rewrite <- (length_map asEmitted), Hobj', length_map).
  pose proof (delete_Permutation _ _ _ Ek) as Hp.
  assert (Hi : (i < length (bt_objects st))%nat) by (rewrite Forall_forall in Hen; apply (Hen (i, m)); by eapply list_elem_of_lookup_2).
  assert (Hen' : Forall (fun e => e.1 < length objects)%nat (delete k (bt_enriching st))) by (rewrite Hlen; by apply Forall_delete).
  rewrite Hlen in Hen'.
  assert (Hev' : map asEmitted (omap (fun i => objects !! i) (bt_events st)) = emittedSince steps).
  { rewrite <- Hev. by apply getEvents_asEmitted. }
  destruct (lookup_lt_is_Some_2 objects i) as [e He]; [by rewrite Hlen|]. rewrite He.
  destruct (storageMode storage) eqn:Est.
  - split; cbn [bt_objects bt_events bt_enriching bt_storing bt_rows bt_failed]; rewrite ?Eem, ?Esi, ?Hobj', ?Hlen; try done; try (intros; congruence). intros _. by apply Hmem.
  - split; cbn [bt_objects bt_events bt_enriching bt_storing bt_rows bt_failed]; rewrite ?Eem, ?Esi, ?Hobj', ?Hlen; try done; try (intros Hm; congruence).
    + intros _. rewrite <- (Hhand eq_refl). unfold handled. cbn [bt_objects bt_events bt_enriching bt_storing bt_rows bt_failed].
      rewrite map_app. cbn [map]. transitivity (i :: (delete k (bt_enriching st)).*1 ++ map bw_object (bt_storing st) ++ map bw_object (bt_rows st) ++ map bw_object (bt_failed st))%list.
      * rewrite <- !app_assoc. cbn. rewrite <- (Permutation_middle (map bw_object (bt_storing st))). symmetry. apply Permutation_middle.
      * set (d := delete k (bt_enriching st)) in *. clearbody d. rewrite Hp. done.
    + apply Forall_app in Hrows as [H1 H2]. apply Forall_app. split; [|done]. apply Forall_app. split; [done|]. apply Forall_singleton.
      exists e, (asEmitted e). rewrite <- Hobj, <- Hobj'. split_and!; [by apply asEmitted_lookup|done|by left].
Qed.

Lemma inv_answered steps st k accepted : betAuditInv steps st ->
  betAuditInv (steps ++ [RowAnswered k accepted]) (storeAnswered k accepted st).
Proof.
  intros [Hobj Hev Hlist Hen Hhand Hmem Hrows].
  assert (Eem : emitted (steps ++ [RowAnswered k accepted]) = emitted steps) by (unfold emitted; by rewrite map_app, concat_app; cbn; rewrite app_nil_r).
  assert (Esi : emittedSince (steps ++ [RowAnswered k accepted]) = emittedSince steps) by (unfold emittedSince; rewrite foldl_app; cbn; by rewrite app_nil_r).
  unfold storeAnswered. destruct (bt_storing st !! k) as [r|] eqn:Ek; [|by split; rewrite ?Eem, ?Esi].
  pose proof (delete_Permutation _ _ _ Ek) as Hp. set (d := delete k (bt_storing st)) in *. clearbody d.
  assert (Hno : storageMode storage = StoreMemory -> False) by (intros Hm; destruct (Hmem Hm) as (E & _); by rewrite E in Ek).
  destruct accepted; split; cbn [bt_objects bt_events bt_enriching bt_storing bt_rows bt_failed]; rewrite ?Eem, ?Esi; try done; try (intros Hm; by destruct (Hno Hm)).
  - intros Hdb. rewrite <- (Hhand Hdb). unfold handled. cbn [bt_objects bt_events bt_enriching bt_storing bt_rows bt_failed].
    rewrite Hp, map_app. cbn [map]. solve_Permutation.
  - rewrite Hp, !Forall_app, Forall_cons in Hrows. rewrite !Forall_app, ?Forall_singleton. tauto.
  - intros Hdb. rewrite <- (Hhand Hdb). unfold handled. cbn [bt_objects bt_events bt_enriching bt_storing bt_rows bt_failed].
    rewrite Hp, map_app. cbn [map]. solve_Permutation.
  - rewrite Hp, !Forall_app, Forall_cons in Hrows. rewrite !Forall_app, ?Forall_singleton. tauto.
Qed.

Lemma betAuditInv_run steps : betAuditInv steps (runBetAudit steps).
Proof.
  induction steps as [|s steps IH] using rev_ind; [by split|].
  unfold runBetAudit. rewrite foldl_app. change (foldl betAuditStep noBetAudit steps) with (runBetAudit steps). cbn [foldl].
  destruct s as [name p contextId now|p contextId now|k answer|k accepted|]; cbn [betAuditStep].
  - eapply (inv_emit steps _ _ (betEventOf name p contextId now)); [done..|]. by left.
  - eapply (inv_emit steps _ _ (claimEventOf p contextId now)); [done..|]. by right.
  - by apply inv_lookedUp.
  - by apply inv_answered.
  - destruct IH as [Hobj Hev Hlist Hen Hhand Hmem Hrows].
    assert (Eem : emitted (steps ++ [Cleared]) = emitted steps) by (unfold emitted; by rewrite map_app, concat_app; cbn; rewrite app_nil_r).
    split; cbn [clearEvents bt_objects bt_events bt_enriching bt_storing bt_rows bt_failed]; rewrite ?Eem; try done.
    unfold emittedSince. by rewrite foldl_app.
Qed.

(** ** Queries *)

Lemma sliceTo_map {A B} (f : A -> B) n l : map f (sliceTo n l) = sliceTo n (map f l).
Proof. unfold sliceTo. rewrite length_map. by destruct (n <? 0); rewrite firstn_map. Qed.

Lemma sliceTo_length {A} n (l : list A) : 0 <= n -> (length (sliceTo n l) <= Z.to_nat n)%nat.
Proof. intros Hn. unfold sliceTo. case (Z.ltb_spec n 0); [lia|]. intros _. rewrite length_take. lia. Qed.

Lemma sliceTo_In {A} n (l : list A) x : In x (sliceTo n l) -> In x l.
Proof.
  assert (Hk : forall k, In x (take k l) -> In x l) by (intros k Hx; rewrite <- (firstn_skipn k l); apply in_or_app; by left).
  unfold sliceTo. destruct (n <? 0); apply Hk.
Qed.

(** What a query shows of an event. *)
Definition shown (redact : bool) (e : BetAuditEvent) : BetAuditEvent := if redact then redactEvent e else e.

Lemma shown_asEmitted redact e : asEmitted (shown redact e) = shown redact (asEmitted e).
Proof. by destruct redact. Qed.

Lemma queryEvents_eq address limit redact st :
  queryEvents address limit redact st =
  map (shown redact) (sliceTo limit (match truthy address with Some a => List.filter (hasAddress a) (getEvents st) | None => getEvents st end)).
Proof. unfold queryEvents. destruct redact; [done|]. by rewrite map_id. Qed.

Lemma filter_asEmitted a l : map asEmitted (List.filter (hasAddress a) l) = List.filter (hasAddress a) (map asEmitted l).
Proof. induction l as [|e l IH]; [done|]. cbn. unfold hasAddress in *. destruct (String.eqb (bv_address e) a); cbn; by rewrite IH. Qed.

(** Of a redacted event no more than eight characters of the hash are in the
    field of the hash. *)
Lemma redactEvent_short e h : bv_txHash (redactEvent e) = Some h -> (String.length h <= 11)%nat.
Proof.
  unfold redactEvent. cbn. destruct (truthy (bv_txHash e)) as [t|]; [|done]. intros [= <-].
  assert (Happ : forall a b, String.length (a +:+ b) = (String.length a + String.length b)%nat).
  { induction a as [|x a IH]; intros b; [done|]. exact (f_equal S (IH b)). }
  assert (Hsub : forall n s, (String.length (slicePrefix n s) <= n)%nat).
  { induction n as [|n IH]; intros [|x s]; cbn; try lia. specialize (IH s). unfold slicePrefix in IH. lia. }
  rewrite Happ. pose proof (Hsub 8%nat t). cbn [String.length]. lia.
Qed.

(** the correlation identifier is not redacted: of an event for a request it
    still carries the whole hash. *)
Lemma redaction_keeps_hash name p contextId now r h : bp_correlationId p = None ->
  nullish (bp_requestId p) contextId = Some r -> r <> "" -> bp_txHash p = Some h -> h <> "" ->
  bv_correlationId (redactEvent (betEventOf name p contextId now)) = Some (r +:+ ":" +:+ h).
Proof.
  intros Hc Hr Hr0 Hh Hh0. unfold redactEvent, betEventOf, auditCorrelation. cbn. rewrite Hc, Hr, Hh. cbn.
  by destruct (String.eqb_spec r ""), (String.eqb_spec h "").
Qed.

(** ** Summary *)

(** C33. In whatever order events are emitted, the round lookups and the rows are
    answered, and the list is cleared: nothing but the round of an event ever
    changes; a query answers with the first events since the last clearing, of
    the address asked for, in order, and with a masked hash when redacted; under
    the database every event has exactly one call or row, made of that event;
    in memory there are none. *)
Theorem bet_audit_exact steps :
  let st := runBetAudit steps in
  map asEmitted (bt_objects st) = emitted steps /\
  (forall address limit redact,
     map asEmitted (queryEvents address limit redact st) =
       map (shown redact) (sliceTo limit (match truthy address with
                                          | Some a => List.filter (hasAddress a) (emittedSince steps)
                                          | None => emittedSince steps end)) /\
     (0 <= limit -> (length (queryEvents address limit redact st) <= Z.to_nat limit)%nat)) /\
  (forall address limit e h, e ∈ queryEvents address limit true st -> bv_txHash e = Some h -> (String.length h <= 11)%nat) /\
  (storage = Some "database" -> handled st ≡ₚ seq 0 (length (emitted steps))) /\
  (storage <> Some "database" -> bt_rows st = []) /\
  (forall r, r ∈ bt_rows st -> rowSound (emitted steps) r).
Proof.
  cbv zeta. destruct (betAuditInv_run steps) as [Hobj Hev Hlist Hen Hhand Hmem Hrows].
  assert (Hst : storageMode storage = if bool_decide (storage = Some "database") then StoreDatabase else StoreMemory) by done.
  split_and!; [done| | | | |].
  - intros address limit redact. rewrite queryEvents_eq. split.
    + rewrite map_map, (map_ext _ _ (shown_asEmitted redact)), <- (map_map asEmitted (shown redact)), sliceTo_map, <- Hev.
      destruct (truthy address); [by rewrite filter_asEmitted|done].
    + intros Hl. rewrite length_map. by apply sliceTo_length.
  - intros address limit e h He. rewrite queryEvents_eq in He. apply list_elem_of_In, in_map_iff in He as (e' & <- & _). apply redactEvent_short.
  - intros Hs. rewrite bool_decide_true in Hst by done. rewrite (Hhand Hst), <- Hobj. by rewrite length_map.
  - intros Hs. rewrite bool_decide_false in Hst by done. apply (Hmem Hst).
  - intros r Hr. rewrite !Forall_app, !Forall_forall in Hrows. destruct Hrows as (_ & Hrow & _). by apply Hrow.
Qed.

(** The route answers with at most a hundred events, all of the address. *)
Lemma adminBetAudit_answers address limit st : let '(total, n, events) := adminBetAudit address limit st in
  n <= 100 /\ total = length events /\ (0 <= n -> (total <= Z.to_nat n)%nat) /\
  forall a, truthy address = Some a -> Forall (fun e => bv_address e = a) events.
Proof.
  unfold adminBetAudit. split_and!; [unfold auditLimit; lia|done| |].
  - intros Hn. rewrite queryEvents_eq, length_map. by apply sliceTo_length.
  - intros a Ha. rewrite queryEvents_eq, Ha. apply Forall_forall. intros e He. apply list_elem_of_In, in_map_iff in He as (e' & <- & He).
    assert (Hin : In e' (List.filter (hasAddress a) (getEvents st))).
    { by apply sliceTo_In in He. }
    apply filter_In in Hin as [_ Hin]. by apply String.eqb_eq.
Qed.
End Run.
