(* ===== verification/Serializers.v ===== *)
(** * Money in answers (src/src/serializers/monetary.serializer.ts)

    The serializers write the money of a prediction, a round, a tournament, a
    bet, a transaction, a balance or statistics as text with eight decimals,
    inside whatever object they get. A value of JavaScript is a [Value]; an
    object is its own fields in order. What Decimal reads from a text is a
    parameter. *)

From Stdlib Require Import ZArith QArith Ascii Lia.
From stdpp Require Import base option list strings pretty.
From S2P Require Import Prelude.
From S2P Require Import Numeric.
From S2P Require Import Schema.
From S2P Require Import Challenge.

#[local] Open Scope string_scope.
#[local] Open Scope Z_scope.

(** ** Values *)

#[local] Unset Elimination Schemes.
Inductive Value : Type :=
| VUndefined
| VNull
| VBool (b : bool)
| VNumber (n : num)
| VBigInt (z : Z)
| VText (s : string)
| VDecimal (d : num)
| VDate (ms : Z)
| VArray (items : list Value)
| VObject (fields : list (string * Value)).
#[local] Set Elimination Schemes.

Definition Value_ind (P : Value -> Prop)
    (Hundefined : P VUndefined) (Hnull : P VNull) (Hbool : forall b, P (VBool b)) (Hnumber : forall n, P (VNumber n))
    (Hbigint : forall z, P (VBigInt z)) (Htext : forall s, P (VText s)) (Hdecimal : forall d, P (VDecimal d))
    (Hdate : forall ms, P (VDate ms)) (Harray : forall items, Forall P items -> P (VArray items))
    (Hobject : forall fields, Forall (fun f => P (snd f)) fields -> P (VObject fields)) : forall v, P v :=
  fix go (v : Value) : P v :=
    match v with
    | VUndefined => Hundefined | VNull => Hnull | VBool b => Hbool b | VNumber n => Hnumber n
    | VBigInt z => Hbigint z | VText s => Htext s | VDecimal d => Hdecimal d | VDate ms => Hdate ms
    | VArray items => Harray items ((fix all (l : list Value) : Forall P l :=
        match l with [] => @List.Forall_nil _ _ | x :: l => @List.Forall_cons _ _ x l (go x) (all l) end) items)
    | VObject fields => Hobject fields ((fix all (l : list (string * Value)) : Forall (fun f => P (snd f)) l :=
        match l with [] => @List.Forall_nil _ _ | x :: l => @List.Forall_cons _ _ x l (go (snd x)) (all l) end) fields)
    end.

Notation Fields := (list (string * Value)).

(** The first value under a key, and an assignment to it: in place when the
    object has the key, else at the end. *)
Fixpoint fieldOf (key : string) (fields : Fields) : option Value :=
  match fields with
  | [] => None
  | (k, v) :: rest => if String.eqb k key then Some v else fieldOf key rest
  end.

Fixpoint setField (key : string) (v : Value) (fields : Fields) : Fields :=
  match fields with
  | [] => [(key, v)]
  | (k, old) :: rest => if String.eqb k key then (k, v) :: rest else (k, old) :: setField key v rest
  end.

Definition hasOwn (fields : Fields) (key : string) : bool := match fieldOf key fields with Some _ => true | None => false end.

(** The own fields of an array or a text *)
Fixpoint indexed (i : nat) (l : list Value) : Fields :=
  match l with [] => [] | x :: l => (pretty i, x) :: indexed (S i) l end.

Fixpoint charactersOf (s : string) : list Value :=
  match s with "" => [] | String c s => VText (String c "") :: charactersOf s end.

(** [toFixed(8)] *)
Definition fixed8 `{DecimalJs} (d : num) : string :=
  match d with
  | Fin q => D_toFixed MONEY_SCALE q
  | NaN => "NaN"
  | Inf negative => if negative then "-Infinity" else "Infinity"
  end.

Class MoneyText `{DecimalJs} := {
  (** [new Decimal(text)], [None] when it throws *)
  readDecimal : string -> option num;
  (** [String(v)] for what is neither a text nor a number *)
  valueText : Value -> string;
  (** what the library writes it reads *)
  readDecimal_fixed8 : forall d, is_Some (readDecimal (fixed8 d));
  readDecimal_zero : is_Some (readDecimal ZERO_MONEY);
}.

Section Serializers.
Context `{MoneyText}.

(** [typeof v === "object"] and not null: the own fields of the object. Those
    of a Decimal, the parts of its representation, are left out. *)
Definition ownFields (v : Value) : option Fields :=
  match v with
  | VObject fields => Some fields
  | VArray items => Some (indexed 0 items)
  | VDate _ => Some []
  | VDecimal _ => Some []
  | _ => None
  end.

(** [{ ...v }] *)
Definition spread (v : Value) : Fields :=
  match v with VText s => indexed 0 (charactersOf s) | _ => default [] (ownFields v) end.

(** ** Money *)

(** [toDecimal] of what a field can hold; [None] when the library throws. *)
Definition decimalOf (v : Value) : option num :=
  match v with
  | VDecimal d => Some d
  | VNumber (Fin q) => Some (Fin (num_to_dec q))
  | VNumber n => Some n
  | VBigInt z => Some (Fin (inject_Z z))
  | VText s => readDecimal s
  | _ => readDecimal (valueText v)
  end.

Definition isMissing (v : Value) : bool :=
  match v with VUndefined | VNull => true | VText s => String.eqb s "" | _ => false end.

(** [serializeNullableMoney] for an optional field, else [serializeMoney] *)
Definition moneyField (optional : bool) (v : Value) : option Value :=
  if isMissing v then Some (if optional then VNull else VText ZERO_MONEY)
  else option_map (fun d => VText (fixed8 d)) (decimalOf v).

(** [serializeMoney] of a number *)
Definition numberMoney (n : num) : string :=
  fixed8 (match n with Fin q => Fin (num_to_dec q) | n => n end).

(** ** The serializers, over what they do with a field of money *)

Section Traversal.
Variable money : bool -> Value -> option Value.

Definition serializeExisting (key : string) (optional : bool) (fields : Fields) : option Fields :=
  match fieldOf key fields with
  | None => Some fields
  | Some v => option_map (fun w => setField key w fields) (money optional v)
  end.

Fixpoint serializeAll (keys : list (string * bool)) (fields : Fields) : option Fields :=
  match keys with
  | [] => Some fields
  | (key, optional) :: keys => serializeExisting key optional fields ≫= serializeAll keys
  end.

Definition serializeRange (range : Value) : option Value :=
  match ownFields range with
  | None => Some range
  | Some row => VObject <$> serializeExisting "pool" false row
  end.

Definition serializePriceRangesWith (ranges : Value) : option Value :=
  match ranges with VArray l => VArray <$> mapM serializeRange l | _ => Some ranges end.

(** [if (out.key && typeof out.key === "object") out.key = f(out.key)] *)
Definition insideObject (key : string) (f : Value -> option Value) (fields : Fields) : option Fields :=
  match fieldOf key fields with
  | Some v => match ownFields v with
              | Some _ => (fun w => setField key w fields) <$> f v
              | None => Some fields
              end
  | None => Some fields
  end.

Definition insideArray (key : string) (f : Value -> option Value) (fields : Fields) : option Fields :=
  match fieldOf key fields with
  | Some (VArray l) => (fun l' => setField key (VArray l') fields) <$> mapM f l
  | _ => Some fields
  end.

Definition insideAny (key : string) (f : Value -> option Value) (fields : Fields) : option Fields :=
  match fieldOf key fields with
  | Some v => (fun w => setField key w fields) <$> f v
  | None => Some fields
  end.

Definition moneyInside (keys : list (string * bool)) (v : Value) : option Value :=
  VObject <$> serializeAll keys (spread v).

Definition predictionMoney : list (string * bool) := [("amount", false); ("payout", true); ("amount", false); ("payout", true)].

Definition roundMoney : list (string * bool) :=
  [("startPrice", false); ("currentPrice", false); ("endPrice", true); ("poolUp", false); ("poolDown", false); ("totalPool", false)].

Definition priceDataMoney : list (string * bool) := [("startPrice", false); ("currentPrice", false)].
Definition poolValuesMoney : list (string * bool) := [("upPool", false); ("downPool", false); ("totalPool", false)].

(** A round in a prediction and the predictions of a round: each step goes into
    a part of the value, and the fuel counts the steps. *)
Fixpoint roundWith (fuel : nat) (round : Value) : option Value :=
  match fuel with
  | O => None
  | S fuel =>
      out ← serializeAll roundMoney (spread round);
      out ← insideArray "predictions" (predictionWith fuel) out;
      out ← insideAny "priceRanges" serializePriceRangesWith out;
      out ← insideObject "priceData" (moneyInside priceDataMoney) out;
      out ← insideObject "poolValues" (moneyInside poolValuesMoney) out;
      Some (VObject out)
  end
with predictionWith (fuel : nat) (prediction : Value) : option Value :=
  match fuel with
  | O => None
  | S fuel =>
      out ← serializeAll predictionMoney (spread prediction);
      out ← insideObject "round" (roundWith fuel) out;
      Some (VObject out)
  end.
End Traversal.

Fixpoint depth (v : Value) : nat :=
  match v with
  | VArray items => S (list_max (map depth items))
  | VObject fields => S (list_max (map (fun f => depth (snd f)) fields))
  | _ => O
  end.

Definition serializePriceRanges : Value -> option Value := serializePriceRangesWith moneyField.
Definition serializeRound (round : Value) : option Value := roundWith moneyField (S (depth round)) round.
Definition serializePrediction (prediction : Value) : option Value := predictionWith moneyField (S (depth prediction)) prediction.

Definition serializeUserBalance : Value -> option Value := moneyInside moneyField [("balance", false); ("pendingWinnings", false)].
Definition serializeUserStats : Value -> option Value :=
  moneyInside moneyField [("totalEarnings", false); ("upDownEarnings", false); ("legendsEarnings", false); ("pendingWinnings", false)].
Definition serializeTransaction : Value -> option Value := moneyInside moneyField [("amount", false)].
Definition serializeTournament : Value -> option Value :=
  moneyInside moneyField [("entryFee", false); ("prizePool", false); ("entryFee", false); ("prizePool", false)].
Definition serializeBet : Value -> option Value := moneyInside moneyField [("amount", false)].

(** ** The check of the contract tests *)

Definition MONEY_FIELD_NAMES : list string :=
  ["amount"; "balance"; "payout"; "poolUp"; "poolDown"; "totalPool"; "upPool"; "downPool"; "entryFee"; "prizePool";
   "startPrice"; "endPrice"; "currentPrice"; "totalEarnings"; "upDownEarnings"; "legendsEarnings"; "pendingWinnings";
   "bonus"; "pool"; "earnings"].

Definition isMoneyName (key : string) : bool := existsb (String.eqb key) MONEY_FIELD_NAMES.

Inductive MoneyFault : Type := GotNumber (path : string) (n : num) | GotOther (path : string).

Definition moneyFault (path key : string) (child : Value) : option MoneyFault :=
  if isMoneyName key then
    match child with
    | VNumber n => Some (GotNumber path n)
    | VUndefined | VNull | VText _ => None
    | _ => Some (GotOther path)
    end
  else None.

(** [None] when nothing is thrown. A Date and a Decimal have no fields of
    money inside. *)
Fixpoint assertNoNumericMoney (path : string) (v : Value) : option MoneyFault :=
  match v with
  | VArray items =>
      (fix each (i : nat) (l : list Value) : option MoneyFault :=
         match l with
         | [] => None
         | x :: l => match assertNoNumericMoney (path +:+ "[" +:+ pretty i +:+ "]") x with
                     | Some f => Some f
                     | None => each (S i) l
                     end
         end) O items
  | VObject fields =>
      (fix each (l : Fields) : option MoneyFault :=
         match l with
         | [] => None
         | (key, child) :: l =>
             let childPath := path +:+ "." +:+ key in
             match moneyFault childPath key child with
             | Some f => Some f
             | None => match assertNoNumericMoney childPath child with
                       | Some f => Some f
                       | None => each l
                       end
             end
         end) fields
  | _ => None
  end.
End Serializers.

(** ** What the check finds *)

Definition allowedMoney (v : Value) : bool := match v with VUndefined | VNull | VText _ => true | _ => false end.

Fixpoint clean (v : Value) : bool :=
  match v with
  | VArray items => forallb clean items
  | VObject fields => forallb (fun f => (negb (isMoneyName (fst f)) || allowedMoney (snd f)) && clean (snd f)) fields
  | _ => true
  end.

Lemma moneyFault_none path key child : moneyFault path key child = None <-> negb (isMoneyName key) || allowedMoney child = true.
Proof. unfold moneyFault. destruct (isMoneyName key), child; cbn; done. Qed.

Lemma assert_clean v : forall path, assertNoNumericMoney path v = None <-> clean v = true.
Proof.
  induction v as [| |b|n|z|s|d|ms|items IH|fields IH] using Value_ind; intros path; try done.
  - cbn [assertNoNumericMoney clean]. generalize O as i. induction IH as [|x l Hx _ IHl]; intros i; [done|].
    cbn [forallb]. rewrite andb_true_iff, <- (Hx (path +:+ "[" +:+ pretty i +:+ "]")), <- (IHl (S i)).
    destruct (assertNoNumericMoney _ x); [split; [done|by intros [? _]]|tauto].
  - cbn [assertNoNumericMoney clean]. induction IH as [|[key child] l Hx _ IHl]; [done|]. cbn [forallb fst snd] in *.
    rewrite !andb_true_iff, <- IHl, <- (moneyFault_none (path +:+ "." +:+ key)), <- (Hx (path +:+ "." +:+ key)).
    destruct (moneyFault _ key child); [split; [done|by intros [[? _] _]]|].
    destruct (assertNoNumericMoney _ child); [split; [done|by intros [[_ ?] _]]|tauto].
Qed.

(** ** Two traversals side by side *)

(** The same fields, but under [touched] keys values that the check cannot
    tell apart. *)
Definition alike (v w : Value) : Prop := clean v = clean w /\ allowedMoney v = allowedMoney w.

Definition sameFields (touched : string -> bool) : Fields -> Fields -> Prop :=
  Forall2 (fun a b => fst a = fst b /\ (snd a = snd b \/ (touched (fst a) = true /\ alike (snd a) (snd b)))).

Definition touching (key : string) (touched : string -> bool) (k : string) : bool := String.eqb k key || touched k.

Lemma sameFields_refl touched fields : sameFields touched fields fields.
Proof. induction fields; constructor; auto. Qed.

Lemma sameFields_touching key touched f g : sameFields touched f g -> sameFields (touching key touched) f g.
Proof.
  intros Hs. apply (Forall2_impl _ _ _ _ Hs). intros a b [E [Ev|[Ht Ha]]]; [auto|]. split; [done|]. right. split; [|done].
  unfold touching. by rewrite Ht, orb_true_r.
Qed.

Lemma sameFields_clean touched f g : sameFields touched f g -> clean (VObject f) = clean (VObject g).
Proof.
  cbn [clean]. induction 1 as [|[k v] [k' w] f g [E Hv] _ IH]; [done|]. cbn [forallb fst snd] in *. rewrite IH. subst k'.
  destruct Hv as [->|[_ [Hc Ha]]]; [done|]. by rewrite Hc, Ha.
Qed.

Lemma sameFields_fieldOf touched key f g : sameFields touched f g -> touched key = false -> fieldOf key f = fieldOf key g.
Proof.
  induction 1 as [|[k v] [k' w] f g [E Hv] _ IH]; [done|]. cbn [fieldOf fst snd] in *. intros Ht. subst k'.
  destruct (String.eqb_spec k key) as [->|_]; [|auto]. destruct Hv as [->|[Hk _]]; [done|congruence].
Qed.

Lemma sameFields_hasOwn touched key f g : sameFields touched f g -> hasOwn f key = hasOwn g key.
Proof.
  unfold hasOwn. induction 1 as [|[k v] [k' w] f g [E _] _ IH]; [done|]. cbn [fieldOf fst snd] in *. subst k'.
  by destruct (String.eqb k key).
Qed.

Lemma sameFields_set touched key v w f g : sameFields touched f g -> alike v w ->
  sameFields (touching key touched) (setField key v f) (setField key w g).
Proof.
  intros Hs Ha. assert (Hkey : touching key touched key = true) by (unfold touching; by rewrite String.eqb_refl).
  induction Hs as [|[k x] [k' y] f g [E Hv] Hs IH]; cbn [setField fst snd] in *.
  - constructor; [|constructor]. auto.
  - subst k'. destruct (String.eqb_spec k key) as [->|_].
    + constructor; [by auto|]. by apply sameFields_touching.
    + constructor; [|done]. cbn. split; [done|]. destruct Hv as [->|[Ht Hal]]; [by left|right]. split; [|done].
      unfold touching. by rewrite Ht, orb_true_r.
Qed.

Section Traversals.
Context `{MoneyText}.

(** What is put in a field of money is a text or null. *)
Definition textual (money : bool -> Value -> option Value) : Prop :=
  forall optional v w, money optional v = Some w -> allowedMoney w = true /\ clean w = true.

Lemma moneyField_textual : textual moneyField.
Proof.
  intros optional v w. unfold moneyField. destruct (isMissing v).
  - destruct optional; by intros [= <-].
  - destruct (decimalOf v); [|done]. by intros [= <-].
Qed.

(** The money of an object taken out *)
Definition erase (optional : bool) (v : Value) : option Value := Some VNull.

Lemma erase_textual : textual erase.
Proof. by intros optional v w [= <-]. Qed.

(** A field of money that was written is accepted again. *)
Definition accepted (v : Value) : Prop := forall optional, is_Some (moneyField optional v).

Lemma moneyField_accepted optional v w : moneyField optional v = Some w -> accepted w.
Proof.
  intros Hw optional'. assert (Htext : forall d, is_Some (moneyField optional' (VText (fixed8 d)))).
  { intros d. unfold moneyField. destruct (isMissing (VText (fixed8 d))); [eauto|]. cbn. destruct (readDecimal_fixed8 d) as [x ->]. cbn. eauto. }
  unfold moneyField in Hw. destruct (isMissing v).
  - destruct optional; injection Hw as <-; unfold moneyField; cbn; [destruct optional'; eauto|].
    destruct readDecimal_zero as [x ->]. cbn. eauto.
  - destruct (decimalOf v) as [d|]; [|done]. injection Hw as <-. apply Htext.
Qed.

Variables (m1 m2 : bool -> Value -> option Value).
Hypotheses (Hm1 : textual m1) (Hm2 : textual m2).

Lemma serializeExisting_same touched key optional f g f' g' : sameFields touched f g ->
  serializeExisting m1 key optional f = Some f' -> serializeExisting m2 key optional g = Some g' ->
  sameFields (touching key touched) f' g'.
Proof.
  intros Hs. pose proof (sameFields_hasOwn touched key f g Hs) as Hown. unfold serializeExisting, hasOwn in *.
  destruct (fieldOf key f) as [v|], (fieldOf key g) as [w|]; try done.
  - destruct (m1 optional v) as [v'|] eqn:E1, (m2 optional w) as [w'|] eqn:E2; try done. intros [= <-] [= <-].
    destruct (Hm1 _ _ _ E1) as [Ha1 Hc1], (Hm2 _ _ _ E2) as [Ha2 Hc2]. apply sameFields_set; [done|].
    split; congruence.
  - intros [= <-] [= <-]. by apply sameFields_touching.
Qed.

Definition touchingAll (keys : list (string * bool)) (touched : string -> bool) : string -> bool :=
  fold_left (fun touched key => touching (fst key) touched) keys touched.

Lemma serializeAll_same keys : forall touched f g f' g', sameFields touched f g ->
  serializeAll m1 keys f = Some f' -> serializeAll m2 keys g = Some g' -> sameFields (touchingAll keys touched) f' g'.
Proof.
  induction keys as [|[key optional] keys IH]; intros touched f g f' g' Hs; cbn [serializeAll].
  - by intros [= <-] [= <-].
  - intros (f1 & E1 & Hf)%bind_Some (g1 & E2 & Hg)%bind_Some.
    apply (IH _ f1 g1); [|done|done]. by apply (serializeExisting_same touched key optional f g).
Qed.

Lemma insideObject_same touched key p1 p2 f g f' g' : touched key = false ->
  (forall v x y, p1 v = Some (VObject x) -> p2 v = Some (VObject y) -> clean (VObject x) = clean (VObject y)) ->
  (forall v o, p1 v = Some o -> exists x, o = VObject x) -> (forall v o, p2 v = Some o -> exists x, o = VObject x) ->
  sameFields touched f g -> insideObject key p1 f = Some f' -> insideObject key p2 g = Some g' ->
  sameFields (touching key touched) f' g'.
Proof.
  intros Ht Hp Ho1 Ho2 Hs. unfold insideObject. rewrite <- (sameFields_fieldOf touched key f g Hs Ht).
  destruct (fieldOf key f) as [v|]; [|intros [= <-] [= <-]; by apply sameFields_touching].
  destruct (ownFields v); [|intros [= <-] [= <-]; by apply sameFields_touching].
  intros (x & Ex & ->)%fmap_Some (y & Ey & ->)%fmap_Some. apply sameFields_set; [done|].
  destruct (Ho1 _ _ Ex) as [x' ->], (Ho2 _ _ Ey) as [y' ->]. split; [by eapply Hp|done].
Qed.

Lemma mapM_clean (p1 p2 : Value -> option Value) l l1 l2 : (forall v x y, p1 v = Some x -> p2 v = Some y -> clean x = clean y) ->
  mapM p1 l = Some l1 -> mapM p2 l = Some l2 -> clean (VArray l1) = clean (VArray l2).
Proof.
  intros Hp H1%mapM_Some_1 H2%mapM_Some_1. cbn [clean]. revert l2 H2.
  induction H1 as [|v x l l1 Hx _ IH]; intros l2 H2; inversion H2 as [|? y ? l2' Hy Hrest]; subst; [done|].
  cbn [forallb]. by rewrite (Hp v x y Hx Hy), (IH l2' Hrest).
Qed.

Lemma insideArray_same touched key p1 p2 f g f' g' : touched key = false ->
  (forall v x y, p1 v = Some x -> p2 v = Some y -> clean x = clean y) ->
  sameFields touched f g -> insideArray key p1 f = Some f' -> insideArray key p2 g = Some g' ->
  sameFields (touching key touched) f' g'.
Proof.
  intros Ht Hp Hs. unfold insideArray. rewrite <- (sameFields_fieldOf touched key f g Hs Ht).
  destruct (fieldOf key f) as [[]|]; try (intros [= <-] [= <-]; by apply sameFields_touching).
  intros (x & Ex & ->)%fmap_Some (y & Ey & ->)%fmap_Some. apply sameFields_set; [done|].
  split; [by eapply mapM_clean|done].
Qed.

Lemma serializeRange_same v x y : serializeRange m1 v = Some x -> serializeRange m2 v = Some y -> alike x y.
Proof.
  unfold serializeRange. destruct (ownFields v) as [row|]; [|by intros [= <-] [= <-]].
  intros (f & Ef & ->)%fmap_Some (g & Eg & ->)%fmap_Some. split; [|done].
  eapply (sameFields_clean (touching "pool" (fun _ => false))), serializeExisting_same; [apply sameFields_refl|done|done].
Qed.

Lemma serializePriceRanges_same v x y : serializePriceRangesWith m1 v = Some x -> serializePriceRangesWith m2 v = Some y -> alike x y.
Proof.
  unfold serializePriceRangesWith. destruct v; try (by intros [= <-] [= <-]).
  intros (f & Ef & ->)%fmap_Some (g & Eg & ->)%fmap_Some. split; [|done].
  eapply mapM_clean; [|done|done]. intros v x y Hx Hy. by apply (serializeRange_same v x y).
Qed.

Lemma insideAny_same touched key p1 p2 f g f' g' : touched key = false ->
  (forall v x y, p1 v = Some x -> p2 v = Some y -> alike x y) ->
  sameFields touched f g -> insideAny key p1 f = Some f' -> insideAny key p2 g = Some g' ->
  sameFields (touching key touched) f' g'.
Proof.
  intros Ht Hp Hs. unfold insideAny. rewrite <- (sameFields_fieldOf touched key f g Hs Ht).
  destruct (fieldOf key f) as [v|]; [|intros [= <-] [= <-]; by apply sameFields_touching].
  intros (x & Ex & ->)%fmap_Some (y & Ey & ->)%fmap_Some. apply sameFields_set; [done|]. by eapply Hp.
Qed.

Lemma moneyInside_same keys v x y : moneyInside m1 keys v = Some (VObject x) -> moneyInside m2 keys v = Some (VObject y) ->
  clean (VObject x) = clean (VObject y).
Proof.
  unfold moneyInside. intros (f & Ef & [= ->])%fmap_Some (g & Eg & [= ->])%fmap_Some.
  eapply sameFields_clean, serializeAll_same; [apply (sameFields_refl (fun _ => false))|done|done].
Qed.
End Traversals.

(** ** Enough steps *)

Section Steps.
Context `{MoneyText}.
Variable money : bool -> Value -> option Value.

Lemma fieldOf_depth key fields v : fieldOf key fields = Some v -> (depth v <= list_max (map (fun f => depth (snd f)) fields))%nat.
Proof.
  induction fields as [|[k w] fields IH]; [done|]. cbn [fieldOf map list_max fold_right snd]. destruct (String.eqb k key).
  - intros [= ->]. lia.
  - intros Hv%IH. fold (list_max (map (fun f => depth (snd f)) fields)). lia.
Qed.

Lemma fieldOf_indexed key i items v : fieldOf key (indexed i items) = Some v -> v ∈ items.
Proof.
  revert i. induction items as [|x items IH]; intros i; [done|]. cbn [indexed fieldOf]. destruct (String.eqb _ key).
  - intros [= ->]. left.
  - intros Hv%IH. by right.
Qed.

Lemma list_max_elem {A} (f : A -> nat) x l : x ∈ l -> (f x <= list_max (map f l))%nat.
Proof.
  induction 1 as [x l|x y l _ IH]; cbn [map list_max fold_right]; [lia|]. fold (list_max (map f l)). lia.
Qed.

Lemma part_depth key v w fields : fieldOf key (spread v) = Some w -> ownFields w = Some fields -> (depth w < depth v)%nat.
Proof.
  intros Hw Ho. destruct v as [| |b|n|z|s|d|ms|items|fs]; try done; cbn [spread ownFields default] in Hw.
  - apply fieldOf_indexed in Hw. exfalso. clear -Hw Ho. induction s as [|c s IH]; cbn [charactersOf] in Hw; [by apply elem_of_nil in Hw|].
    apply elem_of_cons in Hw as [->|Hw]; [done|auto].
  - apply fieldOf_indexed in Hw. cbn [depth]. pose proof (list_max_elem depth w items Hw). lia.
  - cbn [depth]. pose proof (fieldOf_depth key fs w Hw). lia.
Qed.

Lemma fieldOf_set key key' v fields : key' <> key -> fieldOf key (setField key' v fields) = fieldOf key fields.
Proof.
  intros Hne. induction fields as [|[k w] fields IH]; cbn [setField fieldOf].
  - by destruct (String.eqb_spec key' key).
  - destruct (String.eqb_spec k key') as [->|_]; cbn [fieldOf]; [by destruct (String.eqb_spec key' key)|]. by rewrite IH.
Qed.

Lemma fieldOf_set_same key v fields : fieldOf key (setField key v fields) = Some v.
Proof.
  induction fields as [|[k w] fields IH]; cbn [setField fieldOf]; [by rewrite String.eqb_refl|].
  destruct (String.eqb k key) eqn:E; cbn [fieldOf]; by rewrite E.
Qed.

Lemma serializeExisting_other key key' optional f g : serializeExisting money key' optional f = Some g -> key' <> key ->
  fieldOf key g = fieldOf key f.
Proof.
  unfold serializeExisting. destruct (fieldOf key' f); [|by intros [= ->]]. destruct (money _ _); [|done].
  intros [= <-] Hne. by apply fieldOf_set.
Qed.

Definition names (keys : list (string * bool)) (key : string) : bool := existsb (fun k => String.eqb (fst k) key) keys.

Lemma serializeAll_other keys key : forall f g, serializeAll money keys f = Some g -> names keys key = false -> fieldOf key g = fieldOf key f.
Proof.
  induction keys as [|[k optional] keys IH]; intros f g; cbn [serializeAll names existsb fst]; [by intros [= ->]|].
  intros (f1 & E1 & Hg)%bind_Some [Hk Hrest]%orb_false_iff.
  rewrite (IH f1 g Hg Hrest). apply (serializeExisting_other _ _ _ _ _ E1). by destruct (String.eqb_spec k key).
Qed.

(** From the depth of the value on, more steps change nothing. *)
Lemma enough n : forall m v, (depth v < n)%nat -> (depth v < m)%nat ->
  roundWith money n v = roundWith money m v /\ predictionWith money n v = predictionWith money m v.
Proof.
  induction n as [|n IH]; intros [|m] v Hn Hm; [lia..|]. cbn [roundWith predictionWith]. split.
  - destruct (serializeAll money roundMoney (spread v)) as [f|] eqn:Ef; [|done]. cbn [mbind option_bind].
    pose proof (serializeAll_other roundMoney "predictions" _ _ Ef eq_refl) as Hp.
    assert (E : insideArray "predictions" (predictionWith money n) f = insideArray "predictions" (predictionWith money m) f); [|by rewrite E].
    unfold insideArray. rewrite Hp. destruct (fieldOf "predictions" (spread v)) as [w|] eqn:Ew; [|done]. destruct w as [| | | | | | | |l|]; try done.
    assert (Hd : (depth (VArray l) < depth v)%nat) by (by eapply part_depth).
    f_equal. apply Forall_mapM_ext. apply Forall_forall. intros x Hx. cbn [depth] in Hd. pose proof (list_max_elem depth x l Hx).
    apply IH; lia.
  - destruct (serializeAll money predictionMoney (spread v)) as [f|] eqn:Ef; [|done]. cbn [mbind option_bind].
    pose proof (serializeAll_other predictionMoney "round" _ _ Ef eq_refl) as Hp.
    assert (E : insideObject "round" (roundWith money n) f = insideObject "round" (roundWith money m) f); [|by rewrite E].
    unfold insideObject. rewrite Hp. destruct (fieldOf "round" (spread v)) as [w|] eqn:Ew; [|done].
    destruct (ownFields w) as [fs|] eqn:Eo; [|done]. pose proof (part_depth _ _ _ _ Ew Eo). f_equal. apply IH; lia.
Qed.
End Steps.

(** ** Money is text *)

Section Clean.
Context `{MoneyText}.

Lemma object_result (p : option Fields) o : (out ← p; Some (VObject out)) = Some o -> exists f, p = Some f /\ o = VObject f.
Proof. intros (f & Ef & [= <-])%bind_Some. eauto. Qed.

Lemma roundWith_object money n v o : roundWith money n v = Some o -> exists f, o = VObject f.
Proof.
  destruct n as [|n]; [done|]. cbn [roundWith].
  intros (f1 & _ & (f2 & _ & (f3 & _ & (f4 & _ & (f5 & _ & [= <-])%bind_Some)%bind_Some)%bind_Some)%bind_Some)%bind_Some. eauto.
Qed.

Lemma moneyInside_object money keys v o : moneyInside money keys v = Some o -> exists f, o = VObject f.
Proof. unfold moneyInside. intros (f & _ & ->)%fmap_Some. eauto. Qed.

Lemma traversals_clean m1 m2 n : textual m1 -> textual m2 -> forall v x y,
  (roundWith m1 n v = Some x -> roundWith m2 n v = Some y -> clean x = clean y) /\
  (predictionWith m1 n v = Some x -> predictionWith m2 n v = Some y -> clean x = clean y).
Proof.
  intros H1 H2. induction n as [|n IH]; [done|]. intros v x y. cbn [roundWith predictionWith]. split.
  - intros (f1 & A1 & (f2 & A2 & (f3 & A3 & (f4 & A4 & (f5 & A5 & [= <-])%bind_Some)%bind_Some)%bind_Some)%bind_Some)%bind_Some.
    intros (g1 & B1 & (g2 & B2 & (g3 & B3 & (g4 & B4 & (g5 & B5 & [= <-])%bind_Some)%bind_Some)%bind_Some)%bind_Some)%bind_Some.
    pose proof (serializeAll_same m1 m2 H1 H2 _ _ _ _ _ _ (sameFields_refl (fun _ => false) _) A1 B1) as S1.
    pose proof (insideArray_same _ "predictions" _ _ _ _ _ _ eq_refl (fun v x y => proj2 (IH v x y)) S1 A2 B2) as S2.
    pose proof (insideAny_same _ "priceRanges" _ _ _ _ _ _ eq_refl (serializePriceRanges_same m1 m2 H1 H2) S2 A3 B3) as S3.
    pose proof (insideObject_same _ "priceData" _ _ _ _ _ _ eq_refl (moneyInside_same m1 m2 H1 H2 _)
                  (moneyInside_object m1 _) (moneyInside_object m2 _) S3 A4 B4) as S4.
    pose proof (insideObject_same _ "poolValues" _ _ _ _ _ _ eq_refl (moneyInside_same m1 m2 H1 H2 _)
                  (moneyInside_object m1 _) (moneyInside_object m2 _) S4 A5 B5) as S5.
    by apply sameFields_clean in S5.
  - intros (f1 & A1 & (f2 & A2 & [= <-])%bind_Some)%bind_Some (g1 & B1 & (g2 & B2 & [= <-])%bind_Some)%bind_Some.
    pose proof (serializeAll_same m1 m2 H1 H2 _ _ _ _ _ _ (sameFields_refl (fun _ => false) _) A1 B1) as S1.
    pose proof (insideObject_same _ "round" _ _ _ _ _ _ eq_refl (fun v x y => proj1 (IH v (VObject x) (VObject y)))
                  (roundWith_object m1 n) (roundWith_object m2 n) S1 A2 B2) as S2.
    by apply sameFields_clean in S2.
Qed.

(** Taking the money out never fails. *)
Lemma serializeAll_erase keys : forall f, is_Some (serializeAll erase keys f).
Proof.
  induction keys as [|[key optional] keys IH]; intros f; cbn [serializeAll]; [eauto|].
  unfold serializeExisting. destruct (fieldOf key f); cbn; apply IH.
Qed.

Lemma insideArray_total key p f : (forall v, is_Some (p v)) -> is_Some (insideArray key p f).
Proof.
  intros Hp. unfold insideArray. destruct (fieldOf key f) as [[]|]; eauto.
  assert (Hl : is_Some (mapM p items)) by (apply mapM_is_Some; by apply Forall_true).
  destruct Hl as [l ->]. cbn. eauto.
Qed.

Lemma insideAny_total key p f : (forall v, is_Some (p v)) -> is_Some (insideAny key p f).
Proof. intros Hp. unfold insideAny. destruct (fieldOf key f) as [v|]; [|eauto]. destruct (Hp v) as [w ->]. cbn. eauto. Qed.

Lemma insideObject_total key p f : (forall v, is_Some (p v)) -> is_Some (insideObject key p f).
Proof.
  intros Hp. unfold insideObject. destruct (fieldOf key f) as [v|]; [|eauto]. destruct (ownFields v); [|eauto].
  destruct (Hp v) as [w ->]. cbn. eauto.
Qed.

Lemma moneyInside_erase keys v : is_Some (moneyInside erase keys v).
Proof. unfold moneyInside. destruct (serializeAll_erase keys (spread v)) as [f ->]. cbn. eauto. Qed.

Lemma serializeRanges_erase v : is_Some (serializePriceRangesWith erase v).
Proof.
  unfold serializePriceRangesWith. destruct v; try (by eexists).
  assert (Hl : is_Some (mapM (serializeRange erase) items)).
  { apply mapM_is_Some, Forall_true. intros w. change (is_Some (serializeRange erase w)). unfold serializeRange, serializeExisting.
    destruct (ownFields w) as [f|]; [destruct (fieldOf "pool" f)|]; cbn; eauto. }
  destruct Hl as [l ->]. cbn. eauto.
Qed.

Lemma erase_enough n : forall v, (depth v < n)%nat -> is_Some (roundWith erase n v) /\ is_Some (predictionWith erase n v).
Proof.
  enough (Hall : forall n v, (depth v < n)%nat -> is_Some (roundWith erase n v) /\ is_Some (predictionWith erase n v)) by auto.
  clear n. induction n as [|n IH]; intros v Hn; [lia|]. cbn [roundWith predictionWith]. split.
  - destruct (serializeAll_erase roundMoney (spread v)) as [f1 E1]. rewrite E1. cbn [mbind option_bind].
    assert (H2 : is_Some (insideArray "predictions" (predictionWith erase n) f1)).
    { unfold insideArray. rewrite (serializeAll_other erase roundMoney "predictions" _ _ E1 eq_refl).
      destruct (fieldOf "predictions" (spread v)) as [w|] eqn:Ew; [|eauto]. destruct w as [| | | | | | | |l|]; eauto.
      assert (Hd : (depth (VArray l) < depth v)%nat) by (by eapply part_depth). cbn [depth] in Hd.
      assert (Hl : is_Some (mapM (predictionWith erase n) l)).
      { apply mapM_is_Some, Forall_forall. intros x Hx. pose proof (list_max_elem depth x l Hx). apply IH. lia. }
      destruct Hl as [l' ->]. cbn. eauto. }
    destruct H2 as [f2 ->]. cbn [mbind option_bind].
    destruct (insideAny_total "priceRanges" (serializePriceRangesWith erase) f2 serializeRanges_erase) as [f3 ->]. cbn [mbind option_bind].
    destruct (insideObject_total "priceData" (moneyInside erase priceDataMoney) f3 (moneyInside_erase _)) as [f4 ->]. cbn [mbind option_bind].
    destruct (insideObject_total "poolValues" (moneyInside erase poolValuesMoney) f4 (moneyInside_erase _)) as [f5 ->]. cbn. eauto.
  - destruct (serializeAll_erase predictionMoney (spread v)) as [f1 E1]. rewrite E1. cbn [mbind option_bind].
    assert (H2 : is_Some (insideObject "round" (roundWith erase n) f1)).
    { unfold insideObject. rewrite (serializeAll_other erase predictionMoney "round" _ _ E1 eq_refl).
      destruct (fieldOf "round" (spread v)) as [w|] eqn:Ew; [|eauto]. destruct (ownFields w) as [fs|] eqn:Eo; [|eauto].
      pose proof (part_depth _ _ _ _ Ew Eo). destruct (IH w ltac:(lia)) as [[o ->] _]. cbn. eauto. }
    destruct H2 as [f2 ->]. cbn. eauto.
Qed.

(** What is clean stays clean. *)
Lemma setField_clean key v f : clean (VObject f) = true -> allowedMoney v = true \/ isMoneyName key = false -> clean v = true ->
  clean (VObject (setField key v f)) = true.
Proof.
  intros Hf Hk Hv. cbn [clean] in *. induction f as [|[k w] f IH]; cbn [setField].
  - cbn [forallb fst snd]. rewrite Hv, !andb_true_r. destruct Hk as [-> | ->]; [apply orb_true_r|done].
  - cbn [forallb] in Hf. apply andb_prop in Hf as [Hkw Hf]. destruct (String.eqb_spec k key) as [->|_]; cbn [forallb fst snd] in *.
    + rewrite Hf, Hv, !andb_true_r. destruct Hk as [-> | ->]; [apply orb_true_r|done].
    + by rewrite Hkw, (IH Hf).
Qed.

Lemma fieldOf_clean key f v : clean (VObject f) = true -> fieldOf key f = Some v -> clean v = true.
Proof.
  cbn [clean]. induction f as [|[k w] f IH]; [done|]. cbn [forallb fieldOf fst snd]. intros [[_ Hw]%andb_prop Hf]%andb_prop.
  destruct (String.eqb k key); [by intros [= <-]|auto].
Qed.

Lemma serializeAll_clean money keys : textual money -> forall f g, serializeAll money keys f = Some g ->
  clean (VObject f) = true -> clean (VObject g) = true.
Proof.
  intros Hm. induction keys as [|[key optional] keys IH]; intros f g; cbn [serializeAll]; [by intros [= <-]|].
  intros (f1 & E1 & Hg)%bind_Some Hf. apply (IH f1 g Hg). unfold serializeExisting in E1.
  destruct (fieldOf key f) as [v|]; [|by injection E1 as <-]. destruct (money optional v) as [w|] eqn:Ew; [|done].
  injection E1 as <-. destruct (Hm _ _ _ Ew) as [Ha Hc]. apply setField_clean; auto.
Qed.

Lemma index_not_money (i : nat) : isMoneyName (pretty i) = false.
Proof.
  unfold isMoneyName. destruct (existsb _ MONEY_FIELD_NAMES) eqn:E; [|done]. exfalso.
  apply existsb_exists in E as (name & Hname & E). apply String.eqb_eq in E.
  assert (Hd : allChars isDigit name = true) by (rewrite <- E; apply (pretty_digits (N.of_nat i))).
  assert (Hnone : forallb (fun name => negb (allChars isDigit name)) MONEY_FIELD_NAMES = true) by reflexivity.
  rewrite forallb_forall in Hnone. specialize (Hnone name Hname). by rewrite Hd in Hnone.
Qed.

Lemma indexed_clean i items : forallb clean items = true -> clean (VObject (indexed i items)) = true.
Proof.
  cbn [clean]. revert i. induction items as [|v items IH]; intros i; [done|]. cbn [forallb indexed fst snd].
  intros [Hv Hitems]%andb_prop. by rewrite index_not_money, Hv, (IH (S i) Hitems).
Qed.

Lemma asObject_clean v f : ownFields v = Some f -> clean v = true -> clean (VObject f) = true.
Proof. destruct v; try done; intros [= <-]; [done|done|apply indexed_clean|done]. Qed.

Lemma spread_clean v : clean v = true -> clean (VObject (spread v)) = true.
Proof.
  intros Hv. destruct v; try done; [|by apply indexed_clean]. apply indexed_clean. clear. induction s; [done|]. cbn. done.
Qed.

Lemma inside_clean key (p : Value -> option Value) v w f : isMoneyName key = false -> (forall v w, p v = Some w -> clean v = true -> clean w = true) ->
  fieldOf key f = Some v -> p v = Some w -> clean (VObject f) = true -> clean (VObject (setField key w f)) = true.
Proof. intros Hk Hp Hv Hw Hf. apply setField_clean; auto. apply (Hp v); [done|]. by eapply fieldOf_clean. Qed.

Lemma mapM_keeps (p : Value -> option Value) l l' : (forall v w, p v = Some w -> clean v = true -> clean w = true) -> mapM p l = Some l' ->
  forallb clean l = true -> forallb clean l' = true.
Proof.
  intros Hp Hl%mapM_Some_1. induction Hl as [|v w l l' Hw _ IH]; [done|]. cbn [forallb]. intros [Hv Hrest]%andb_prop.
  by rewrite (Hp v w Hw Hv), IH.
Qed.

Lemma insideArray_clean key p f g : isMoneyName key = false -> (forall v w, p v = Some w -> clean v = true -> clean w = true) ->
  insideArray key p f = Some g -> clean (VObject f) = true -> clean (VObject g) = true.
Proof.
  intros Hk Hp. unfold insideArray. destruct (fieldOf key f) as [[]|] eqn:E; try (by intros [= <-]).
  intros (l & El & ->)%fmap_Some Hf. apply setField_clean; [done|by right|].
  exact (mapM_keeps p _ _ Hp El (fieldOf_clean _ _ _ Hf E)).
Qed.

Lemma insideObject_clean key p f g : isMoneyName key = false -> (forall v w, p v = Some w -> clean v = true -> clean w = true) ->
  insideObject key p f = Some g -> clean (VObject f) = true -> clean (VObject g) = true.
Proof.
  intros Hk Hp. unfold insideObject. destruct (fieldOf key f) as [v|] eqn:E; [|by intros [= <-]].
  destruct (ownFields v); [|by intros [= <-]]. intros (w & Ew & ->)%fmap_Some. by apply (inside_clean key p v).
Qed.

Lemma insideAny_clean key p f g : isMoneyName key = false -> (forall v w, p v = Some w -> clean v = true -> clean w = true) ->
  insideAny key p f = Some g -> clean (VObject f) = true -> clean (VObject g) = true.
Proof.
  intros Hk Hp. unfold insideAny. destruct (fieldOf key f) as [v|] eqn:E; [|by intros [= <-]].
  intros (w & Ew & ->)%fmap_Some. by apply (inside_clean key p v).
Qed.

Lemma ranges_clean money v w : textual money -> serializePriceRangesWith money v = Some w -> clean v = true -> clean w = true.
Proof.
  intros Hm. unfold serializePriceRangesWith. destruct v; try (by intros [= <-]).
  intros (l & El & ->)%fmap_Some Hv. refine (mapM_keeps _ _ _ _ El Hv). clear items l El Hv. intros v w.
  unfold serializeRange. destruct (ownFields v) as [row|] eqn:Eo; [|by intros [= <-]].
  intros (f & Ef & ->)%fmap_Some Hc. apply (serializeAll_clean money [("pool", false)] Hm row); [|by eapply asObject_clean].
  cbn [serializeAll]. by rewrite Ef.
Qed.

Lemma moneyInside_clean money keys v w : textual money -> moneyInside money keys v = Some w -> clean v = true -> clean w = true.
Proof.
  intros Hm (f & Ef & ->)%fmap_Some Hv. apply (serializeAll_clean money keys Hm (spread v)); [done|]. by apply spread_clean.
Qed.

Lemma traversal_keeps_clean money n : textual money -> forall v w, clean v = true ->
  (roundWith money n v = Some w -> clean w = true) /\ (predictionWith money n v = Some w -> clean w = true).
Proof.
  intros Hm. induction n as [|n IH]; [done|]. intros v w Hv. pose proof (spread_clean v Hv) as Hs. cbn [roundWith predictionWith]. split.
  - intros (f1 & A1 & (f2 & A2 & (f3 & A3 & (f4 & A4 & (f5 & A5 & [= <-])%bind_Some)%bind_Some)%bind_Some)%bind_Some)%bind_Some.
    apply (insideObject_clean "poolValues" _ f4 f5 eq_refl (fun v w => moneyInside_clean money _ v w Hm) A5).
    apply (insideObject_clean "priceData" _ f3 f4 eq_refl (fun v w => moneyInside_clean money _ v w Hm) A4).
    apply (insideAny_clean "priceRanges" _ f2 f3 eq_refl (fun v w => ranges_clean money v w Hm) A3).
    apply (insideArray_clean "predictions" _ f1 f2 eq_refl (fun v w Hw Hc => proj2 (IH v w Hc) Hw) A2).
    by apply (serializeAll_clean money roundMoney Hm (spread v)).
  - intros (f1 & A1 & (f2 & A2 & [= <-])%bind_Some)%bind_Some.
    apply (insideObject_clean "round" _ f1 f2 eq_refl (fun v w Hw Hc => proj1 (IH v w Hc) Hw) A2).
    by apply (serializeAll_clean money predictionMoney Hm (spread v)).
Qed.

(** *** What was written is accepted again *)

Definition ready (keys : list (string * bool)) (f : Fields) : Prop :=
  forall key v, names keys key = true -> fieldOf key f = Some v -> accepted v.

Lemma ready_serializes keys f : ready keys f -> is_Some (serializeAll moneyField keys f).
Proof.
  revert f. induction keys as [|[key optional] keys IH]; intros f Hf; cbn [serializeAll]; [eauto|].
  assert (Hrest : ready keys f) by (intros k v Hk; apply Hf; cbn [names existsb]; unfold names in Hk; by rewrite Hk, orb_true_r).
  unfold serializeExisting. destruct (fieldOf key f) as [v|] eqn:Ev; [|by apply IH].
  assert (Hkey : names ((key, optional) :: keys) key = true) by (cbn [names existsb fst]; by rewrite String.eqb_refl).
  destruct (Hf key v Hkey Ev optional) as [w Hw]. rewrite Hw. cbn [option_map mbind option_bind]. apply IH.
  intros k x Hk Hx. destruct (String.eqb_spec key k) as [<-|Hne].
  - rewrite fieldOf_set_same in Hx. injection Hx as <-. by eapply moneyField_accepted.
  - rewrite fieldOf_set in Hx by done. by apply (Hrest k).
Qed.

Lemma serializeAll_ready keys : forall f g, serializeAll moneyField keys f = Some g -> ready keys g.
Proof.
  assert (Hkeep : forall keys f g key v, serializeAll moneyField keys f = Some g -> fieldOf key g = Some v ->
            (forall w, fieldOf key f = Some w -> accepted w) -> accepted v).
  { clear keys. induction keys as [|[k o] keys IH]; intros f g key v; cbn [serializeAll].
    - intros [= <-] Hv Hf. by apply Hf.
    - intros (f1 & E1 & Hg)%bind_Some Hv Hf. apply (IH f1 g key v Hg Hv). intros w Hw.
      unfold serializeExisting in E1. destruct (fieldOf k f) as [x|] eqn:Ex; [|injection E1 as <-; by apply Hf].
      destruct (moneyField o x) as [y|] eqn:Ey; [|done]. injection E1 as <-. destruct (String.eqb_spec k key) as [<-|Hne].
      + rewrite fieldOf_set_same in Hw. injection Hw as <-. by eapply moneyField_accepted.
      + rewrite fieldOf_set in Hw by done. by apply Hf. }
  induction keys as [|[k o] keys IH]; intros f g; cbn [serializeAll]; [done|].
  intros (f1 & E1 & Hg)%bind_Some key v Hk Hv. cbn [names existsb fst] in Hk.
  destruct (String.eqb_spec k key) as [<-|Hne]; [|by apply (IH f1 g Hg key v)].
  apply (Hkeep keys f1 g k v Hg Hv). intros w Hw. unfold serializeExisting in E1.
  destruct (fieldOf k f) as [x|] eqn:Ex; [|injection E1 as <-; congruence].
  destruct (moneyField o x) as [y|] eqn:Ey; [|done]. injection E1 as <-. rewrite fieldOf_set_same in Hw. injection Hw as <-.
  by eapply moneyField_accepted.
Qed.

Lemma ready_other keys f g : (forall key, names keys key = true -> fieldOf key g = fieldOf key f) -> ready keys f -> ready keys g.
Proof. intros Hsame Hf key v Hk Hv. rewrite (Hsame key Hk) in Hv. by apply (Hf key). Qed.

Lemma insideArray_other key key' p f g : insideArray key p f = Some g -> key <> key' -> fieldOf key' g = fieldOf key' f.
Proof.
  unfold insideArray. destruct (fieldOf key f) as [[]|]; try (by intros [= ->]).
  intros (w & _ & ->)%fmap_Some Hne. by apply fieldOf_set.
Qed.

Lemma insideAny_other key key' p f g : insideAny key p f = Some g -> key <> key' -> fieldOf key' g = fieldOf key' f.
Proof.
  unfold insideAny. destruct (fieldOf key f); [|by intros [= ->]]. intros (w & _ & ->)%fmap_Some Hne. by apply fieldOf_set.
Qed.

Lemma insideObject_other key key' p f g : insideObject key p f = Some g -> key <> key' -> fieldOf key' g = fieldOf key' f.
Proof.
  unfold insideObject. destruct (fieldOf key f) as [v|]; [|by intros [= ->]]. destruct (ownFields v); [|by intros [= ->]].
  intros (w & _ & ->)%fmap_Some Hne. by apply fieldOf_set.
Qed.

(** [p] accepts what it gave. *)
Definition repeats (p : Value -> option Value) : Prop := forall v w, p v = Some w -> is_Some (p w).

Lemma insideArray_again key p f g h : repeats p -> insideArray key p f = Some g -> fieldOf key h = fieldOf key g -> is_Some (insideArray key p h).
Proof.
  intros Hp Hg Hh. unfold insideArray in *. rewrite Hh. destruct (fieldOf key f) as [w|] eqn:Ew.
  2: { injection Hg as <-. rewrite Ew. eauto. }
  destruct w as [| | | | | | | |l|]; try (injection Hg as <-; rewrite Ew; eauto).
  apply fmap_Some in Hg as (l' & El & ->). rewrite fieldOf_set_same.
  assert (Hl : is_Some (mapM p l')).
  { apply mapM_is_Some. apply mapM_Some_1 in El. clear -El Hp. induction El as [|x y l l' Hy _ IH]; constructor; [by eapply Hp|done]. }
  destruct Hl as [l'' ->]. cbn. eauto.
Qed.

Lemma insideAny_again key p f g h : repeats p -> insideAny key p f = Some g -> fieldOf key h = fieldOf key g -> is_Some (insideAny key p h).
Proof.
  intros Hp Hg Hh. unfold insideAny in *. rewrite Hh. destruct (fieldOf key f) as [w|] eqn:Ew.
  - apply fmap_Some in Hg as (y & Ey & ->). rewrite fieldOf_set_same. destruct (Hp _ _ Ey) as [z ->]. cbn. eauto.
  - injection Hg as <-. rewrite Ew. eauto.
Qed.

Lemma insideObject_again key p f g h : repeats p -> insideObject key p f = Some g -> fieldOf key h = fieldOf key g -> is_Some (insideObject key p h).
Proof.
  intros Hp Hg Hh. unfold insideObject in *. rewrite Hh. destruct (fieldOf key f) as [w|] eqn:Ew.
  - destruct (ownFields w) eqn:Eo.
    + apply fmap_Some in Hg as (y & Ey & ->). rewrite fieldOf_set_same. destruct (ownFields y); [|eauto].
      destruct (Hp _ _ Ey) as [z ->]. cbn. eauto.
    + injection Hg as <-. rewrite Ew, Eo. eauto.
  - injection Hg as <-. rewrite Ew. eauto.
Qed.

Lemma moneyInside_repeats keys : repeats (moneyInside moneyField keys).
Proof.
  intros v w (f & Ef & ->)%fmap_Some. unfold moneyInside. cbn [spread ownFields default id].
  destruct (ready_serializes keys f (serializeAll_ready keys _ _ Ef)) as [g ->]. cbn. eauto.
Qed.

Lemma ranges_repeats : repeats (serializePriceRangesWith moneyField).
Proof.
  intros v w. unfold serializePriceRangesWith. destruct v; try (intros [= <-]; eauto; fail).
  intros (l & El & ->)%fmap_Some. assert (Hl : is_Some (mapM (serializeRange moneyField) l)); [|destruct Hl as [l' ->]; cbn; eauto].
  apply mapM_is_Some. apply mapM_Some_1 in El. induction El as [|x y items l Hy _ IH]; constructor; [|done]. cbn.
  unfold serializeRange in *. destruct (ownFields x) as [row|] eqn:Eo; [|injection Hy as <-; rewrite Eo; eauto].
  apply fmap_Some in Hy as (g & Eg & ->). cbn [ownFields].
  assert (Hall : serializeAll moneyField [("pool", false)] row = Some g) by (cbn [serializeAll]; rewrite Eg; done).
  destruct (ready_serializes _ _ (serializeAll_ready _ _ _ Hall)) as [h Hh]. cbn [serializeAll] in Hh.
  destruct (serializeExisting moneyField "pool" false g); [cbn; eauto|done].
Qed.

Lemma traversal_repeats n : repeats (roundWith moneyField n) /\ repeats (predictionWith moneyField n).
Proof.
  induction n as [|n [IHr IHp]]; [done|]. split; intros v o; cbn [roundWith predictionWith].
  - intros (f1 & A1 & (f2 & A2 & (f3 & A3 & (f4 & A4 & (f5 & A5 & [= <-])%bind_Some)%bind_Some)%bind_Some)%bind_Some)%bind_Some.
    cbn [spread ownFields default id].
    assert (Hall : forall key, key <> "predictions" -> key <> "priceRanges" -> key <> "priceData" -> key <> "poolValues" -> fieldOf key f5 = fieldOf key f1).
    { intros key H1 H2 H3 H4. rewrite (insideObject_other _ key _ _ _ A5), (insideObject_other _ key _ _ _ A4),
        (insideAny_other _ key _ _ _ A3), (insideArray_other _ key _ _ _ A2) by congruence. done. }
    destruct (ready_serializes roundMoney f5) as [g1 B1].
    { apply (ready_other _ f1); [|by eapply serializeAll_ready]. intros key Hk. apply Hall; intros ->; done. }
    rewrite B1. cbn [mbind option_bind].
    destruct (insideArray_again "predictions" _ _ _ g1 IHp A2) as [g2 B2].
    { rewrite (serializeAll_other moneyField roundMoney "predictions" _ _ B1 eq_refl).
      by rewrite (insideObject_other _ _ _ _ _ A5), (insideObject_other _ _ _ _ _ A4), (insideAny_other _ _ _ _ _ A3). }
    rewrite B2. cbn [mbind option_bind].
    destruct (insideAny_again "priceRanges" _ _ _ g2 ranges_repeats A3) as [g3 B3].
    { rewrite (insideArray_other _ _ _ _ _ B2) by done. rewrite (serializeAll_other moneyField roundMoney "priceRanges" _ _ B1 eq_refl).
      by rewrite (insideObject_other _ _ _ _ _ A5), (insideObject_other _ _ _ _ _ A4). }
    rewrite B3. cbn [mbind option_bind].
    destruct (insideObject_again "priceData" _ _ _ g3 (moneyInside_repeats priceDataMoney) A4) as [g4 B4].
    { rewrite (insideAny_other _ _ _ _ _ B3), (insideArray_other _ _ _ _ _ B2) by done.
      rewrite (serializeAll_other moneyField roundMoney "priceData" _ _ B1 eq_refl). by rewrite (insideObject_other _ _ _ _ _ A5). }
    rewrite B4. cbn [mbind option_bind].
    destruct (insideObject_again "poolValues" _ _ _ g4 (moneyInside_repeats poolValuesMoney) A5) as [g5 B5].
    { rewrite (insideObject_other _ _ _ _ _ B4), (insideAny_other _ _ _ _ _ B3), (insideArray_other _ _ _ _ _ B2) by done.
      by rewrite (serializeAll_other moneyField roundMoney "poolValues" _ _ B1 eq_refl). }
    rewrite B5. cbn. eauto.
  - intros (f1 & A1 & (f2 & A2 & [= <-])%bind_Some)%bind_Some. cbn [spread ownFields default id].
    destruct (ready_serializes predictionMoney f2) as [g1 B1].
    { apply (ready_other _ f1); [|by eapply serializeAll_ready]. intros key Hk. apply (insideObject_other _ _ _ _ _ A2). intros <-. done. }
    rewrite B1. cbn [mbind option_bind].
    destruct (insideObject_again "round" _ _ _ g1 IHr A2) as [g2 B2]; [by apply (serializeAll_other moneyField predictionMoney "round" _ _ B1)|].
    rewrite B2. cbn. eauto.
Qed.

Lemma serializeRound_again v o : serializeRound v = Some o -> is_Some (serializeRound o).
Proof.
  unfold serializeRound. intros Ho. set (n := S (Nat.max (depth v) (depth o))).
  rewrite (proj1 (enough moneyField (S (depth v)) n v ltac:(lia) ltac:(subst n; lia))) in Ho.
  rewrite (proj1 (enough moneyField (S (depth o)) n o ltac:(lia) ltac:(subst n; lia))).
  by apply (proj1 (traversal_repeats n) v).
Qed.

(** A value with the money of its rounds and predictions taken out. *)
Definition withoutRoundMoney (v : Value) : Value := default VUndefined (roundWith erase (S (depth v)) v).
Definition withoutPredictionMoney (v : Value) : Value := default VUndefined (predictionWith erase (S (depth v)) v).

(** The check of the contract tests finds in a serialised round or prediction
    exactly what it finds when the money is not there: whatever the object,
    and however deep rounds and predictions sit in each other, the money the
    serializers know is text or null. More steps than the depth of the value
    never change an answer. *)
Theorem serialized_money_is_text v o path :
  (serializeRound v = Some o ->
     (assertNoNumericMoney path o = None <-> assertNoNumericMoney path (withoutRoundMoney v) = None) /\
     forall n, (depth v < n)%nat -> roundWith moneyField n v = Some o) /\
  (serializePrediction v = Some o ->
     (assertNoNumericMoney path o = None <-> assertNoNumericMoney path (withoutPredictionMoney v) = None) /\
     forall n, (depth v < n)%nat -> predictionWith moneyField n v = Some o).
Proof.
  rewrite !assert_clean. destruct (erase_enough (S (depth v)) v ltac:(lia)) as [[r Er] [p Ep]].
  unfold withoutRoundMoney, withoutPredictionMoney, serializeRound, serializePrediction. rewrite Er, Ep. cbn [default].
  split; intros Ho; (split; [|intros n Hn; rewrite <- Ho; apply (enough moneyField); lia]).
  - rewrite (proj1 (traversals_clean _ _ _ moneyField_textual erase_textual v o r) Ho Er). done.
  - rewrite (proj2 (traversals_clean _ _ _ moneyField_textual erase_textual v o p) Ho Ep). done.
Qed.
End Clean.
