(* ===== verification/UserHistory.v ===== *)
(** * User pages (src/src/routes/user.routes.ts, src/src/schemas/pagination.schema.ts, src/src/utils/user-rank.util.ts)

    The bets of a wallet by cursor and by offset, its transactions, its numbers
    on the chain with experience and rank, and the change of a profile. A cursor
    is the base64url text of the ISO text of a date; both texts and what
    [Number] makes of a text are parameters. A request reads one state of the
    database. *)

From Stdlib Require Import ZArith QArith Qround Sorting.Sorted Lia.
From stdpp Require Import base gmap strings list.
From S2P Require Import Prelude.
From S2P Require Import Numeric.
From S2P Require Import Errors.
From S2P Require Import Schema.
From S2P Require Import Store.
From S2P Require Import Challenge.
From S2P Require Import Digits.
From S2P Require Import Serializers.

#[local] Open Scope string_scope.
#[local] Open Scope Z_scope.

(** ** Experience and rank *)

Definition XP_PER_WIN : Z := 100.
Definition XP_PER_STREAK : Z := 50.

Definition RANK_THRESHOLDS : list (Z * string) :=
  [(10000, "Diamond"); (5000, "Platinum"); (3000, "Gold"); (1500, "Silver"); (500, "Bronze")].

Definition ROOKIE_RANK_TITLE : string := "Rookie".

(** Of whole numbers below 2^53 *)
Definition computeXp (totalWins bestStreak : Z) : Z := totalWins * 100 + bestStreak * 50.

Fixpoint titleFor (thresholds : list (Z * string)) (xp : Z) : string :=
  match thresholds with
  | [] => ROOKIE_RANK_TITLE
  | (minXp, title) :: rest => if minXp <=? xp then title else titleFor rest xp
  end.

Definition computeRankTitle (xp : Z) : string := titleFor RANK_THRESHOLDS xp.

(** A title and the least experience it takes. *)
Definition rankOf (xp : Z) : nat :=
  length (List.filter (fun t => fst t <=? xp) RANK_THRESHOLDS).

(** More experience never means a lower tier, and the title names the tier. *)
Lemma computeRankTitle_tier xp : computeRankTitle xp = nth (rankOf xp) ["Rookie"; "Bronze"; "Silver"; "Gold"; "Platinum"; "Diamond"] "".
Proof.
  unfold computeRankTitle, rankOf. cbn.
  repeat match goal with |- context [Z.leb ?a xp] => destruct (Z.leb_spec a xp) end; done || lia.
Qed.

Lemma rankOf_mono xp xp' : xp <= xp' -> (rankOf xp <= rankOf xp')%nat.
Proof.
  intros Hle. unfold rankOf. generalize RANK_THRESHOLDS as l.
  induction l as [|[m t] l IH]; [done|]. cbn [List.filter fst]. destruct (Z.leb_spec m xp), (Z.leb_spec m xp'); cbn [length]; lia.
Qed.

(** ** The numbers of a wallet on the chain *)

Record AddressStats : Type := mkAddressStats {
  at_totalWins : Z;
  at_totalLosses : Z;
  at_bestStreak : Z;
  at_currentStreak : Z;
  at_pendingWinnings : string;
  at_isRegistered : bool;
  at_balance : string;
  at_xp : Z;
  at_rankTitle : string;
}.

Section Money.
Context `{DecimalJs}.

(** The three reads of the chain are awaited together; [inl] is what the first
    to fail threw. The winnings are in stroops, the balance in XLM. *)
Definition addressStats (answers : Err + option ContractStats * Z * num) : Err + AddressStats :=
  match answers with
  | inl e => inl e
  | inr (None, _, _) =>
      inr {| at_totalWins := 0; at_totalLosses := 0; at_bestStreak := 0; at_currentStreak := 0;
             at_pendingWinnings := serializeMoney (Some 0%Q); at_isRegistered := false;
             at_balance := serializeMoney (Some 0%Q); at_xp := 0; at_rankTitle := "Rookie" |}
  | inr (Some s, pendingWinnings, balance) =>
      let xp := computeXp (cs_total_wins s) (cs_best_streak s) in
      inr {| at_totalWins := cs_total_wins s; at_totalLosses := cs_total_losses s;
             at_bestStreak := cs_best_streak s; at_currentStreak := cs_current_streak s;
             at_pendingWinnings := serializeMoney (Some (inject_Z pendingWinnings));
             at_isRegistered := (0 <? cs_total_wins s) || (0 <? cs_total_losses s);
             at_balance := numberMoney balance; at_xp := xp; at_rankTitle := computeRankTitle xp |}
  end.

(** ** Balance and statistics of an account *)

(** GET /balance *)
Definition userBalance (userId : string) (d : DB) : Err + string :=
  match users d !! userId with
  | None => inl (NotFoundError "User not found" NOT_FOUND)
  | Some user => inr (serializeMoney (Some (unitQ (u_virtualBalance user))))
  end.

Record StatsView : Type := mkStatsView {
  sv_totalPredictions : Z;
  sv_correctPredictions : Z;
  sv_totalEarnings : string;
  sv_upDownWins : Z;
  sv_upDownLosses : Z;
  sv_upDownEarnings : string;
  sv_legendsWins : Z;
  sv_legendsLosses : Z;
  sv_legendsEarnings : string;
}.

(** GET /stats: zeros for a user without statistics. *)
Definition userStatistics (userId : string) (d : DB) : StatsView :=
  let money z := serializeMoney (Some (unitQ z)) in
  match userStats (aux d) !! userId with
  | Some s =>
      mkStatsView (us_totalPredictions s) (us_correctPredictions s) (money (us_totalEarnings s))
        (us_upDownWins s) (us_upDownLosses s) (money (us_upDownEarnings s))
        (us_legendsWins s) (us_legendsLosses s) (money (us_legendsEarnings s))
  | None => mkStatsView 0 0 (money 0) 0 0 (money 0) 0 0 (money 0)
  end.

(** ** Bets *)

Inductive BetOutcomeText : Type := RFailed | RPending | RWin | RLoss.

Record HistoryItem : Type := mkHistoryItem {
  hi_roundId : string;
  hi_asset : string;
  hi_mode : GameMode;
  hi_amount : string;
  hi_side : option PredictionSide;
  hi_predictedPrice : Json;
  hi_result : BetOutcomeText;
  hi_payout : option string;
  hi_timestamp : Z;
  hi_roundStatus : RoundStatus;
}.

(** Reading a text of the serializer and writing it again changes nothing, so
    the serializer's second pass over amount and payout is left out. *)
Definition mapPrediction (p : Prediction) (round : Round) : HistoryItem :=
  {| hi_roundId := p_roundId p;
     hi_asset := "XLM";
     hi_mode := r_mode round;
     hi_amount := serializeMoney (Some (unitQ (p_amount p)));
     hi_side := p_side p;
     hi_predictedPrice := p_priceRange p;
     hi_result := (match p_chainStatus p, p_won p with
                   | PC_FAILED, _ => RFailed
                   | _, None => RPending
                   | _, Some won => if won then RWin else RLoss
                   end);
     hi_payout := serializeNullableMoney (option_map unitQ (p_payout p));
     hi_timestamp := p_createdAt p;
     hi_roundStatus := r_status round |}.

Definition settledOnChain (p : Prediction) : bool :=
  match p_chainStatus p with PC_CONFIRMED | PC_NOT_REQUIRED => true | _ => false end.

Definition ofUser (userId : string) (p : Prediction) : bool := String.eqb (p_userId p) userId && settledOnChain p.

Definition olderThan (date : Z) (p : Prediction) : bool := p_createdAt p <? date.

Definition createdBefore (a b : Prediction) : bool := p_createdAt a <? p_createdAt b.

(** [orderBy: { createdAt: "desc" }] *)
Definition history (userId : string) (d : DB) : list Prediction := sortBy createdBefore (rowsWhere (ofUser userId) d).

Definition historyBefore (date : Z) (userId : string) (d : DB) : list Prediction :=
  sortBy createdBefore (rowsWhere (fun p => ofUser userId p && olderThan date p) d).

(** [include: { round }]; the relation is required. *)
Definition withRoundOf (d : DB) (p : Prediction) : option HistoryItem :=
  option_map (mapPrediction p) (rounds d !! p_roundId p).
End Money.

(** ** The query *)

(** [z.number().int()] of [Number(text)]: a safe integer; the fallback stands
    for an absent parameter. *)
Definition coerceInt `{JsDates} (fallback : Z) (v : option string) : option Z :=
  match v with
  | None => Some fallback
  | Some s =>
      match numberOf s with
      | Fin q => let n := Qfloor q in
                 if Qeq_bool q (inject_Z n) && (Z.abs n <? 2 ^ 53) then Some n else None
      | _ => None
      end
  end.

(** [unifiedPaginationSchema]: the limit from 1 to 100, the offset not negative. *)
Definition unifiedPagination `{JsDates} (limit offset cursor : option string) : option (nat * nat * option string) :=
  match coerceInt 20 limit, coerceInt 0 offset with
  | Some l, Some o => if (1 <=? l) && (l <=? 100) && (0 <=? o) then Some (Z.to_nat l, Z.to_nat o, cursor) else None
  | _, _ => None
  end.

Lemma unifiedPagination_bounds `{JsDates} limit offset cursor l o c :
  unifiedPagination limit offset cursor = Some (l, o, c) -> (1 <= l <= 100)%nat /\ c = cursor.
Proof.
  unfold unifiedPagination. destruct (coerceInt 20 limit) as [n|], (coerceInt 0 offset) as [m|]; try done.
  destruct (Z.leb_spec 1 n), (Z.leb_spec n 100), (0 <=? m); cbn; try done. intros [= <- _ <-]. split; [lia|done].
Qed.

(** ** Cursors *)

Class DateCursor := {
  (** [Buffer.from(date.toISOString()).toString("base64url")] *)
  dateCursor : Z -> string;
  (** [new Date(Buffer.from(cursor, "base64url").toString("utf8"))], [None] for
      an invalid date *)
  readDateCursor : string -> option Z;
  dateCursor_back : forall ms, readDateCursor (dateCursor ms) = Some ms;
  dateCursor_truthy : forall ms, dateCursor ms <> "";
}.

Inductive HistoryPage : Type :=
| CursorPage (items : list HistoryItem) (nextCursor : option string)
| OffsetHistory (items : list HistoryItem) (limit offset total totalPages : Z)
| BadCursor
| HistoryThrows.

(** [Math.ceil(total / limit)] of whole numbers below 2^53 *)
Definition pagesOf (total limit : Z) : Z := - ((- total) / limit).

Section Route.
Context `{DecimalJs, DateCursor}.

Definition itemsOf (d : DB) (l : list Prediction) : option (list HistoryItem) := mapM (withRoundOf d) l.

(** The rows of a cursor request and the cursor of the next. *)
Definition cursorRows (userId : string) (date : Z) (limit : nat) (d : DB) : list Prediction * option string :=
  let predictions := take (limit + 1) (historyBefore date userId d) in
  let hasNextPage := (limit <? length predictions)%nat in
  let page := if hasNextPage then take limit predictions else predictions in
  (page, if hasNextPage then option_map (fun p => dateCursor (p_createdAt p)) (last page) else None).

(** GET /:address/history behind the validation of address, limit and offset;
    the wallet is looked up in the users. *)
Definition userHistory (address : string) (limit offset : nat) (cursor : option string) (d : DB) : HistoryPage :=
  match head (rowsWhere (fun u => String.eqb (u_walletAddress u) address) d) with
  | None =>
      match truthy cursor with
      | Some _ => CursorPage [] None
      | None => OffsetHistory [] (Z.of_nat limit) (Z.of_nat offset) 0 0
      end
  | Some user =>
      match truthy cursor with
      | Some c =>
          match readDateCursor c with
          | None => BadCursor
          | Some date =>
              let '(page, next) := cursorRows (u_id user) date limit d in
              match itemsOf d page with Some items => CursorPage items next | None => HistoryThrows end
          end
      | None =>
          let predictions := take limit (drop offset (history (u_id user) d)) in
          let total := Z.of_nat (length (rowsWhere (ofUser (u_id user)) d)) in
          match itemsOf d predictions with
          | Some items => OffsetHistory items (Z.of_nat limit) (Z.of_nat offset) total (pagesOf total (Z.of_nat limit))
          | None => HistoryThrows
          end
      end
  end.

(** The same over the list of the in-memory repository. *)
Definition handleMockHistory {A} (timestamp : A -> Z) (all : list A) (limit offset : nat) (cursor : option string) :
    option (list A * option string + list A * Z * Z * Z * Z) :=
  match all with
  | [] => Some (match truthy cursor with
                | Some _ => inl ([], None)
                | None => inr ([], Z.of_nat limit, Z.of_nat offset, 0, 0) end)
  | _ =>
      match truthy cursor with
      | Some c =>
          match readDateCursor c with
          | None => None
          | Some date =>
              let filtered := List.filter (fun item => timestamp item <? date) all in
              let hasNextPage := (limit <? length filtered)%nat in
              let page := if hasNextPage then take limit filtered else filtered in
              Some (inl (page, if hasNextPage then option_map (fun x => dateCursor (timestamp x)) (last page) else None))
          end
      | None =>
          let total := Z.of_nat (length all) in
          Some (inr (take limit (drop offset all), Z.of_nat limit, Z.of_nat offset, total, pagesOf total (Z.of_nat limit)))
      end
  end.

(** ** Following the cursors *)

(** A client that has a first cursor and follows [nextCursor]; [None] when the
    fuel runs out or a cursor is refused. *)
Fixpoint readHistory (fuel limit : nat) (userId : string) (cursor : string) (d : DB) : option (list Prediction) :=
  match fuel with
  | O => None
  | S fuel =>
      match readDateCursor cursor with
      | None => None
      | Some date =>
          let '(page, next) := cursorRows userId date limit d in
          match next with
          | None => Some page
          | Some c => option_map (app page) (readHistory fuel limit userId c d)
          end
      end
  end.
End Route.

(** *** Sorting and filtering *)

Section Order.
Context {A : Type} (key : A -> Z).

Definition descending (a b : A) : bool := key a <? key b.

Lemma descending_sorted l : StronglySorted (fun a b => key b <= key a) (sortBy descending l).
Proof.
  apply Sorted_StronglySorted; [intros a b c; cbn; lia|].
  eapply Sorted_ind with (P := Sorted (fun a b => key b <= key a)); [constructor| |apply (sortBy_Sorted descending)].
  - intros a l' _ Hs Hd. constructor; [exact Hs|]. destruct Hd as [|b l'' Hb]; constructor. unfold descending in Hb. by apply Z.ltb_ge in Hb.
  - intros a b. unfold descending. rewrite Z.ltb_lt, Z.ltb_ge. lia.
Qed.

Lemma filter_insert (f : A -> bool) x l : StronglySorted (fun a b => key b <= key a) l ->
  List.filter f (insertBy descending x l) = if f x then insertBy descending x (List.filter f l) else List.filter f l.
Proof.
  induction 1 as [|y l Hs IH Hy]; [cbn; by destruct (f x)|]. cbn [insertBy]. unfold descending at 1. destruct (Z.ltb_spec (key x) (key y)) as [Hlt|Hge].
  - cbn [List.filter]. rewrite IH. destruct (f x), (f y); try done. cbn [insertBy]. unfold descending at 2.
    by rewrite (proj2 (Z.ltb_lt _ _)).
  - cbn [List.filter]. destruct (f x); [|done].
    assert (Hfirst : forall z, z ∈ (if f y then y :: List.filter f l else List.filter f l) -> key z <= key x).
    { rewrite Forall_forall in Hy. intros z Hz. assert (z = y \/ In z l) as [->|Hz'].
      { destruct (f y); [apply elem_of_cons in Hz as [->|Hz]; [by left|]|]; right; apply list_elem_of_In, filter_In in Hz; apply Hz. }
      - lia.
      - specialize (Hy z). rewrite <- list_elem_of_In in Hz'. specialize (Hy Hz'). cbn in Hy. lia. }
    destruct (if f y then y :: List.filter f l else List.filter f l) as [|z rest]; [done|]. cbn [insertBy]. unfold descending.
    rewrite (proj2 (Z.ltb_ge _ _)); [done|]. apply Hfirst. left.
Qed.

Lemma filter_sort (f : A -> bool) l : List.filter f (sortBy descending l) = sortBy descending (List.filter f l).
Proof.
  unfold sortBy. induction l as [|x l IH]; [done|]. cbn [foldr List.filter]. rewrite filter_insert by apply descending_sorted.
  rewrite IH. by destruct (f x).
Qed.

(** In a descending list the elements below a bound are a suffix. *)
Lemma filter_below l bound : StronglySorted (fun a b => key b <= key a) l ->
  exists k, List.filter (fun a => key a <? bound) l = drop k l /\ Forall (fun a => bound <= key a) (take k l).
Proof.
  induction 1 as [|y l Hs IH Hy]; [by exists 0%nat|]. cbn [List.filter]. destruct (Z.ltb_spec (key y) bound) as [Hlt|Hge].
  - exists 0%nat. split; [|constructor]. rewrite drop_0. f_equal. apply List.forallb_filter_id. apply forallb_forall. intros z Hz. apply Z.ltb_lt.
    rewrite Forall_forall in Hy. rewrite <- list_elem_of_In in Hz. specialize (Hy z Hz). cbn in Hy. lia.
  - destruct IH as (k & E & Hk). exists (S k). split; [exact E|]. by constructor.
Qed.
End Order.

(** ** Pages *)

Section Pages.
Context `{DateCursor} (userId : string) (d : DB).

Lemma historyBefore_sorted date : StronglySorted (fun a b => p_createdAt b <= p_createdAt a) (historyBefore date userId d).
Proof. apply (descending_sorted p_createdAt). Qed.

Lemma historyBefore_older date date' : date' <= date ->
  historyBefore date' userId d = List.filter (olderThan date') (historyBefore date userId d).
Proof.
  intros Hle. unfold historyBefore. rewrite (filter_sort p_createdAt). f_equal. unfold rowsWhere.
  induction ((map_to_list (tbl d)).*2) as [|p l IH]; [done|]. cbn [List.filter]. rewrite IH. unfold olderThan.
  destruct (ofUser userId p); cbn [andb]; [|done]. destruct (Z.ltb_spec (p_createdAt p) date); cbn [List.filter]; [done|].
  rewrite (proj2 (Z.ltb_ge _ _)); [done|lia].
Qed.

(** What a page leaves to the next request: a suffix, and what is skipped has
    the time of the page's last row. *)
Lemma next_page limit date page next : (1 <= limit)%nat -> cursorRows userId date limit d = (page, next) ->
  let rows := historyBefore date userId d in
  (next = None -> page = rows) /\
  (forall c, next = Some c -> exists p k, c = dateCursor (p_createdAt p) /\ page = take limit rows /\ p ∈ page /\ (limit <= k)%nat /\
     historyBefore (p_createdAt p) userId d = drop k rows /\ (k <= length rows)%nat /\
     Forall (fun q => p_createdAt q = p_createdAt p) (drop limit (take k rows))).
Proof.
  intros Hl. unfold cursorRows. set (rows := historyBefore date userId d). pose proof (historyBefore_sorted date) as Hs. fold rows in Hs.
  rewrite length_take. destruct (Nat.ltb_spec limit (Nat.min (limit + 1) (length rows))) as [Hlt|Hge]; intros [= <- <-].
  - split.
    { intros En. rewrite last_lookup, length_take, length_take in En. rewrite !lookup_take_lt in En by lia.
      destruct (lookup_lt_is_Some_2 rows (Nat.pred (limit `min` ((limit + 1) `min` length rows)))) as [x Hx]; [lia|]. by rewrite Hx in En. }
    intros c. rewrite take_take, Nat.min_l by lia. rewrite last_lookup, length_take, lookup_take_lt by lia.
    rewrite Nat.min_l by lia. replace (Nat.pred limit) with (limit - 1)%nat by lia.
    destruct (rows !! (limit - 1)%nat) as [p|] eqn:Ep; [|done]. intros [= <-].
    assert (Hp : In p rows) by (apply list_elem_of_In; by eapply list_elem_of_lookup_2).
    assert (Hdate : p_createdAt p <= date).
    { assert (Hin := Hp). apply list_elem_of_In in Hin. unfold rows, historyBefore in Hin. rewrite sortBy_elem in Hin. unfold rowsWhere in Hin.
      apply list_elem_of_In, filter_In in Hin as [_ Hin]. apply andb_prop in Hin as [_ Hin]. unfold olderThan in Hin. apply Z.ltb_lt in Hin. lia. }
    destruct (filter_below p_createdAt rows (p_createdAt p) Hs) as (k & Ek & Hk).
    assert (Hkl : (limit <= k)%nat).
    { destruct (Nat.le_gt_cases limit k) as [|Hlt']; [done|]. exfalso.
      assert (Hin : p ∈ drop k rows) by (apply list_elem_of_lookup; exists (limit - 1 - k)%nat; rewrite lookup_drop; by replace (k + (limit - 1 - k))%nat with (limit - 1)%nat by lia).
      rewrite <- Ek in Hin. apply list_elem_of_In, filter_In in Hin as [_ Hin]. apply Z.ltb_lt in Hin. lia. }
    exists p, (Nat.min k (length rows)). split_and!; try done.
    + apply list_elem_of_lookup. exists (limit - 1)%nat. rewrite lookup_take_lt by lia. exact Ep.
    + lia.
    + rewrite (historyBefore_older date) by exact Hdate. fold rows. unfold olderThan. rewrite Ek.
      destruct (Nat.min_spec k (length rows)) as [[_ ->]|[Hge ->]]; [done|]. by rewrite !drop_ge by lia.
    + lia.
    + apply Forall_forall. intros q Hq. apply list_elem_of_lookup in Hq as (j & Hj). rewrite lookup_drop in Hj.
      apply lookup_take_Some in Hj as [Hj Hjk]. rewrite Forall_forall in Hk.
      assert (Hlow : p_createdAt p <= p_createdAt q) by (apply Hk; apply list_elem_of_lookup; exists (limit + j)%nat; rewrite lookup_take_lt by lia; exact Hj).
      pose proof (StronglySorted_lookup _ rows (limit - 1)%nat (limit + j)%nat p q Hs ltac:(lia) Ep Hj) as Hhigh. cbn in Hhigh. lia.
  - split; [|done]. intros _. apply take_ge. lia.
Qed.
End Pages.

(** What a client has when it has followed the cursors from [rows]. *)
Definition readOf (rows l : list Prediction) : Prop :=
  l `sublist_of` rows /\
  (forall p, p ∈ rows -> p ∈ l \/ exists q, q ∈ l /\ p_createdAt q = p_createdAt p) /\
  (NoDup (map p_createdAt rows) -> l = rows).

Lemma readOf_page rows limit k p l : (limit <= k)%nat -> (k <= length rows)%nat -> p ∈ take limit rows ->
  Forall (fun q => p_createdAt q = p_createdAt p) (drop limit (take k rows)) ->
  readOf (drop k rows) l -> readOf rows (take limit rows ++ l)%list.
Proof.
  intros Hk Hkl Hp Hties (Hsub & Hall & Hnd).
  assert (Esplit : rows = (take limit rows ++ drop limit (take k rows) ++ drop k rows)%list).
  { assert (E1 : take limit rows = take limit (take k rows)) by (rewrite take_take; f_equal; lia).
    rewrite E1, app_assoc, !take_drop. done. }
  split_and!.
  - rewrite Esplit at 2. apply sublist_app; [done|]. by apply sublist_inserts_l.
  - intros q Hq. rewrite Esplit in Hq. apply elem_of_app in Hq as [Hq|Hq]; [left; apply elem_of_app; by left|].
    apply elem_of_app in Hq as [Hq|Hq].
    + right. exists p. split; [apply elem_of_app; by left|]. rewrite Forall_forall in Hties. symmetry. by apply Hties.
    + destruct (Hall q Hq) as [Hl|(r & Hr & Er)]; [left; apply elem_of_app; by right|].
      right. exists r. split; [apply elem_of_app; by right|done].
  - intros Hdist. assert (Hnone : drop limit (take k rows) = []).
    { destruct (drop limit (take k rows)) as [|q rest] eqn:Eq; [done|]. exfalso. rewrite Esplit, !map_app in Hdist.
      apply NoDup_app in Hdist as (_ & Hdis & _). apply (Hdis (p_createdAt p)); [by apply (list_elem_of_fmap_2 p_createdAt)|].
      apply elem_of_app. left. apply Forall_cons in Hties as [<- _]. left. }
    assert (Hrest : NoDup (map p_createdAt (drop k rows))).
    { rewrite Esplit, !map_app in Hdist. by apply NoDup_app in Hdist as (_ & _ & [_ [_ ?]]%NoDup_app). }
    rewrite (Hnd Hrest). rewrite Esplit at 3. by rewrite Hnone.
Qed.

(** C31. A client that follows the cursors from a date ends within one request per
    bet and one more. It reads bets of the user that were settled on the chain,
    or needed no chain, from before the date, in order and none twice; it misses
    only bets of exactly the time of one it reads, so none when times differ. *)
Theorem history_pages `{DateCursor} fuel limit userId date d : (1 <= limit)%nat ->
  let rows := historyBefore date userId d in (length rows < fuel)%nat ->
  (forall p, p ∈ rows <-> p ∈ (map_to_list (predictions d)).*2 /\ ofUser userId p = true /\ p_createdAt p < date) /\
  StronglySorted (fun a b => p_createdAt b <= p_createdAt a) rows /\
  exists l, readHistory fuel limit userId (dateCursor date) d = Some l /\ readOf rows l.
Proof.
  intros Hl rows Hfuel. split_and!.
  - intros p. unfold rows, historyBefore. rewrite sortBy_elem. unfold rowsWhere. rewrite list_elem_of_In, filter_In, <- list_elem_of_In.
    unfold olderThan. rewrite andb_true_iff, Z.ltb_lt. done.
  - apply historyBefore_sorted.
  - subst rows. revert date Hfuel. induction fuel as [|fuel IH]; intros date Hfuel; [lia|]. cbn [readHistory]. rewrite dateCursor_back.
    destruct (cursorRows userId date limit d) as [page next] eqn:Ec.
    pose proof (next_page userId d limit date page next Hl Ec) as [Hlast Hmore]. destruct next as [c|].
    + destruct (Hmore c eq_refl) as (p & k & -> & -> & Hp & Hk & Hnext & Hkl & Hties).
      destruct (IH (p_createdAt p)) as (l & -> & Hread); [rewrite Hnext, length_drop; lia|]. rewrite Hnext in Hread.
      cbn. eexists. split; [done|]. by apply (readOf_page _ limit k p).
    + rewrite (Hlast eq_refl). exists (historyBefore date userId d). split; [done|]. split_and!; [done| |done]. intros p Hp. by left.
Qed.

(** The route answers with the items of those rows. *)
Lemma userHistory_cursor `{DecimalJs, DateCursor} address limit offset date d user :
  head (rowsWhere (fun u => String.eqb (u_walletAddress u) address) d) = Some user ->
  userHistory address limit offset (Some (dateCursor date)) d =
  let '(page, next) := cursorRows (u_id user) date limit d in
  match itemsOf d page with Some items => CursorPage items next | None => HistoryThrows end.
Proof.
  intros Hu. unfold userHistory, truthy. rewrite Hu. destruct (String.eqb_spec (dateCursor date) "") as [E|_]; [by apply dateCursor_truthy in E|].
  by rewrite dateCursor_back.
Qed.

(** ** Transactions *)

(** [findMany({ skip, take })]: a negative [skip] is refused, a negative [take]
    counts from the end. *)
Definition prismaPage {A} (skip take_ : Z) (rows : list A) : option (list A) :=
  if skip <? 0 then None
  else if 0 <=? take_ then Some (take (Z.to_nat take_) (drop (Z.to_nat skip) rows))
  else Some (rev (take (Z.to_nat (- take_)) (drop (Z.to_nat skip) (rev rows)))).

(** [parseInt(s) || fallback] *)
Definition intOr (fallback : Z) (s : option string) : Z :=
  match s with
  | Some s => match parseIntZ s with Some n => if n =? 0 then fallback else n | None => fallback end
  | None => fallback
  end.

Definition newerTransaction (a b : Transaction) : bool := x_createdAt a <? x_createdAt b.

(** GET /transactions: the page and [page], [limit], [total], [totalPages];
    [None] when the query throws. *)
Definition userTransactions (userId : string) (pageText limitText : option string) (d : DB) :
    option (list Transaction * Z * Z * Z * Z) :=
  let page := intOr 1 pageText in
  let limit := intOr 20 limitText in
  let skip := (page - 1) * limit in
  let rows := sortBy newerTransaction (rowsWhere (fun x => String.eqb (x_userId x) userId) d) in
  match prismaPage skip limit rows with
  | Some items => Some (items, page, limit, Z.of_nat (length rows), pagesOf (Z.of_nat (length rows)) limit)
  | None => None
  end.

(** The pages from the first on are the rows, in order. *)
Lemma pages_cover {A} (rows : list A) limit n : 0 < limit -> Z.of_nat (length rows) <= Z.of_nat n * limit ->
  concat (map (fun page => default [] (prismaPage (Z.of_nat page * limit) limit rows)) (seq 0 n)) = rows.
Proof.
  intros Hl. revert rows. induction n as [|n IH]; intros rows Hlen.
  - destruct rows; [done|cbn in Hlen; lia].
  - rewrite Nat2Z.inj_succ, Z.mul_succ_l in Hlen. assert (0 <= Z.of_nat n * limit) by nia. cbn [seq map concat]. rewrite <- seq_shift, map_map. unfold prismaPage at 1. cbn [Z.of_nat Z.mul Z.ltb Z.compare].
    rewrite (proj2 (Z.leb_le 0 limit)) by lia. cbn [default]. rewrite drop_0.
    rewrite <- (take_drop (Z.to_nat limit) rows) at 2. f_equal. rewrite <- (IH (drop (Z.to_nat limit) rows)) at 1; [|rewrite length_drop; lia].
    f_equal. apply map_ext. intros i. unfold prismaPage. rewrite Nat2Z.inj_succ, Z.mul_succ_l. assert (0 <= Z.of_nat i * limit) by nia.
    rewrite !(proj2 (Z.ltb_ge _ _)), (proj2 (Z.leb_le 0 limit)) by lia. cbn [default]. rewrite drop_drop. f_equal. rewrite <- Z2Nat.inj_add by lia. by rewrite Z.add_comm.
Qed.

(** ** Nicknames *)

Record Profile : Type := mkProfile { pf_id : string; pf_nickname : option string }.

(** The profiles and the requests that have looked for a conflict and found
    none. The column is unique, the comparison before it ignores case. *)
Record ProfileState : Type := mkProfileState { ps_rows : list Profile; ps_checked : list (string * string) }.

Inductive ProfileReply : Type := NicknameTaken | ProfileMissing | ProfileUpdated.

Definition sameNickname (n : string) (p : Profile) : bool :=
  match pf_nickname p with Some m => String.eqb (toLowerCase m) (toLowerCase n) | None => false end.

(** The first half of PATCH /profile with a nickname. *)
Definition checkNickname (userId nickname : string) (st : ProfileState) : option ProfileReply * ProfileState :=
  if existsb (fun p => sameNickname nickname p && negb (String.eqb (pf_id p) userId)) (ps_rows st)
  then (Some NicknameTaken, st)
  else (None, mkProfileState (ps_rows st) (ps_checked st ++ [(userId, nickname)])%list).

Definition setNickname (userId nickname : string) (p : Profile) : Profile :=
  if String.eqb (pf_id p) userId then mkProfile (pf_id p) (Some nickname) else p.

(** The second half: the update of the row, which the database refuses if
    another row has the very nickname. *)
Definition updateNickname (k : nat) (st : ProfileState) : option ProfileReply * ProfileState :=
  match ps_checked st !! k with
  | None => (None, st)
  | Some (userId, nickname) =>
      let st := mkProfileState (ps_rows st) (delete k (ps_checked st)) in
      if existsb (fun p => bool_decide (pf_nickname p = Some nickname) && negb (String.eqb (pf_id p) userId)) (ps_rows st)
      then (Some NicknameTaken, st)
      else if existsb (fun p => String.eqb (pf_id p) userId) (ps_rows st)
      then (Some ProfileUpdated, mkProfileState (map (setNickname userId nickname) (ps_rows st)) (ps_checked st))
      else (Some ProfileMissing, st)
  end.

Definition distinctNicknames (l : list Profile) : Prop :=
  forall p q n, p ∈ l -> q ∈ l -> pf_nickname p = Some n -> pf_nickname q = Some n -> pf_id p = pf_id q.

(** As texts nicknames stay different however requests overlap. *)
Lemma updateNickname_distinct k st : distinctNicknames (ps_rows st) -> distinctNicknames (ps_rows (updateNickname k st).2).
Proof.
  intros Hd. unfold updateNickname. destruct (ps_checked st !! k) as [[userId nickname]|]; [|done]. cbn [ps_rows].
  destruct (existsb _ (ps_rows st)) eqn:Et; [done|]. destruct (existsb (fun p => String.eqb _ userId) (ps_rows st)); [|done]. cbn [snd ps_rows].
  assert (Hother : forall p, p ∈ ps_rows st -> pf_nickname p = Some nickname -> pf_id p = userId).
  { intros p Hp Hn. destruct (String.eqb_spec (pf_id p) userId) as [|Hne]; [done|]. exfalso.
    assert (Hex : existsb (fun p => bool_decide (pf_nickname p = Some nickname) && negb (String.eqb (pf_id p) userId)) (ps_rows st) = true); [|congruence].
    apply existsb_exists. exists p. split; [by apply list_elem_of_In|]. rewrite bool_decide_true by done. cbn. by destruct (String.eqb_spec (pf_id p) userId). }
  assert (Hset : forall p n, p ∈ ps_rows st -> pf_nickname (setNickname userId nickname p) = Some n ->
    pf_id (setNickname userId nickname p) = pf_id p /\ ((pf_id p = userId /\ n = nickname) \/ (pf_id p <> userId /\ pf_nickname p = Some n))).
  { intros p n Hp. unfold setNickname. destruct (String.eqb_spec (pf_id p) userId) as [Hi|Hi]; cbn; [intros [= <-]; auto|auto]. }
  intros p' q' n Hp Hq. apply list_elem_of_In, in_map_iff in Hp as (p & <- & Hp). apply list_elem_of_In, in_map_iff in Hq as (q & <- & Hq).
  rewrite <- list_elem_of_In in Hp, Hq. intros Hpn Hqn. destruct (Hset p n Hp Hpn) as [-> Hp'], (Hset q n Hq Hqn) as [-> Hq'].
  destruct Hp' as [[Ep ->]|[Ep Np]], Hq' as [[Eq Hn]|[Eq Nq]]; try congruence.
  - destruct Eq. by apply Hother.
  - subst n. destruct Ep. by apply Hother.
  - by apply (Hd p q n).
Qed.
