(* ===== verification/Views.v ===== *)
(** * What the API shows (src/src/routes/rounds.routes.ts, predictions.routes.ts, src/src/utils/soroban-round.mapper.ts, src/src/services/round.service.ts, tournament.service.ts)

    The rounds by their three sources, a round with its predictions, the answers
    of the prediction routes, and the listing of tournaments, as the objects
    that are sent. A row of a table is the object the database library returns:
    its columns, with decimals and dates. *)

From Stdlib Require Import ZArith QArith Qround Lia.
From stdpp Require Import base gmap option strings list pretty.
From S2P Require Import Prelude.
From S2P Require Import Numeric.
From S2P Require Import Payout.
From S2P Require Import Errors.
From S2P Require Import Schema.
From S2P Require Import Store.
From S2P Require Import Soroban.
From S2P Require Import RoundService.
From S2P Require Import Prediction.
From S2P Require Import Resolution.
From S2P Require Import Simulation.
From S2P Require Import Challenge.
From S2P Require Import Pagination.
From S2P Require Import Serializers.

#[local] Open Scope string_scope.
#[local] Open Scope Z_scope.

(** ** Rows as objects *)

Fixpoint jsonValue (j : Json) : Value :=
  match j with
  | JNull => VNull
  | JBool b => VBool b
  | JNum n => VNumber n
  | JStr s => VText s
  | JDate ms => VDate ms
  | JArr l => VArray (map jsonValue l)
  | JObj fields => VObject (map (fun f => (fst f, jsonValue (snd f))) fields)
  end.

Definition orNull {A} (f : A -> Value) (o : option A) : Value := match o with Some a => f a | None => VNull end.
Definition columnMoney (z : Z) : Value := VDecimal (Fin (unitQ z)).
Definition count (n : nat) : Value := VNumber (Fin (inject_Z (Z.of_nat n))).
Definition whole (z : Z) : Value := VNumber (Fin (inject_Z z)).

Definition PredictionChainStatus_str (s : PredictionChainStatus) : string :=
  match s with
  | PC_PENDING => "PENDING" | PC_SUBMITTED => "SUBMITTED" | PC_CONFIRMED => "CONFIRMED" | PC_FAILED => "FAILED" | PC_NOT_REQUIRED => "NOT_REQUIRED" | PC_NEEDS_MANUAL_REVIEW => "NEEDS_MANUAL_REVIEW"
  end.

Definition roundColumns (r : Round) : Fields :=
  [("id", VText (r_id r)); ("mode", VText (GameMode_str (r_mode r))); ("status", VText (RoundStatus_str (r_status r)));
   ("startPrice", columnMoney (r_startPrice r)); ("endPrice", orNull columnMoney (r_endPrice r));
   ("startTime", VDate (r_startTime r)); ("endTime", VDate (r_endTime r));
   ("sorobanRoundId", orNull VText (r_sorobanRoundId r)); ("isSoroban", VBool (r_isSoroban r));
   ("poolUp", columnMoney (r_poolUp r)); ("poolDown", columnMoney (r_poolDown r));
   ("priceRanges", jsonValue (r_priceRanges r)); ("resolvedAt", orNull VDate (r_resolvedAt r))].

Definition predictionColumns (p : Prediction) : Fields :=
  [("id", VText (p_id p)); ("userId", VText (p_userId p)); ("roundId", VText (p_roundId p));
   ("side", orNull (fun s => VText (PredictionSide_str s)) (p_side p)); ("amount", columnMoney (p_amount p));
   ("priceRange", jsonValue (p_priceRange p)); ("won", orNull VBool (p_won p)); ("payout", orNull columnMoney (p_payout p));
   ("chainStatus", VText (PredictionChainStatus_str (p_chainStatus p))); ("txHash", orNull VText (p_txHash p));
   ("chainAttemptCount", whole (p_chainAttemptCount p)); ("chainFailureReason", orNull VText (p_chainFailureReason p));
   ("chainSubmittedAt", orNull VDate (p_chainSubmittedAt p)); ("chainConfirmedAt", orNull VDate (p_chainConfirmedAt p));
   ("chainFailedAt", orNull VDate (p_chainFailedAt p)); ("compensatedAt", orNull VDate (p_compensatedAt p));
   ("createdAt", VDate (p_createdAt p))].

(** ** Rounds by source *)

Inductive ActiveRoundSource : Type := FromSoroban | FromDatabase | FromMock.

Definition ActiveRoundSource_str (s : ActiveRoundSource) : string :=
  match s with FromSoroban => "soroban" | FromDatabase => "database" | FromMock => "mock" end.

(** A row of the demo's rounds. *)
Record MockRound : Type := mkMockRound {
  mr_id : string;
  mr_asset : string;
  mr_mode : string;
  mr_status : string;
  mr_startPrice : num;
  mr_poolUp : option num;
  mr_poolDown : option num;
  mr_totalPool : option num;
  mr_predictionCount : option Z;
  mr_closesAt : string;
}.

Definition PRICE_SCALE : Q := 10000.
Definition STROOP_SCALE : Q := 10000000.

(** [Number(bigint)] *)
Definition bigintNumber (z : Z) : num := num_of_Q (inject_Z z).

(** [String(n)] of a whole number below 10^21 *)
Definition wholeText (n : num) : string :=
  match n with Fin q => pretty (Qfloor (num_to_dec q)) | NaN => "NaN" | Inf negative => if negative then "-Infinity" else "Infinity" end.

Definition resolveRoundMode (mode : Z) : Err + GameMode :=
  if mode =? 0 then inr UP_DOWN
  else if mode =? 1 then inr LEGENDS
  else inl (PlainError ("Unsupported Soroban round mode: " +:+ pretty mode)).

Section Views.
Context `{Env} `{MoneyText}.

(** What a serializer throws is the decimal library's. *)
Definition serialized (o : option Value) : Svc Value :=
  match o with Some v => ret v | None => throw (PlainError "[DecimalError] Invalid argument") end.

Fixpoint mapS {A} (f : A -> Svc Value) (l : list A) : Svc (list Value) :=
  match l with
  | [] => ret []
  | x :: l => v <- f x ;; vs <- mapS f l ;; ret (v :: vs)
  end.

Definition scaled (z : Z) (scale : Q) : num := num_div (bigintNumber z) (Fin scale).

Definition mapSorobanActiveRound (round : ChainRound) : Err + Value :=
  let roundId := wholeText (bigintNumber (ch_round_id round)) in
  match resolveRoundMode (ch_mode round) with
  | inl e => inl e
  | inr mode =>
      inr (VObject
        [("id", VText ("soroban-" +:+ roundId)); ("sorobanRoundId", VText roundId);
         ("mode", VText (GameMode_str mode)); ("status", VText "ACTIVE");
         ("startPrice", VText (numberMoney (scaled (ch_price_start round) PRICE_SCALE)));
         ("poolUp", VText (numberMoney (scaled (ch_pool_up round) STROOP_SCALE)));
         ("poolDown", VText (numberMoney (scaled (ch_pool_down round) STROOP_SCALE)));
         ("startLedger", whole (ch_start_ledger round)); ("betEndLedger", whole (ch_bet_end_ledger round));
         ("endLedger", whole (ch_end_ledger round)); ("isSoroban", VBool true); ("source", VText "soroban")])
  end.

Definition withSource (source : ActiveRoundSource) (round : Value) : Value :=
  VObject (Serializers.setField "source" (VText (ActiveRoundSource_str source)) (spread round)).

Definition mapDatabaseActiveRound (round : Value) : Svc Value := serialized (serializeRound (withSource FromDatabase round)).
Definition mapMockActiveRound (round : Value) : Svc Value := serialized (serializeRound (withSource FromMock round)).

(** [getMockRounds] *)
Definition mockRound (r : MockRound) : Value :=
  VObject
    (if String.eqb (mr_mode r) "updown" then
       [("id", VText (mr_id r)); ("asset", VText (mr_asset r)); ("mode", VText "updown"); ("status", VText (mr_status r));
        ("startPrice", VNumber (mr_startPrice r)); ("poolUp", orNull VNumber (mr_poolUp r)); ("poolDown", orNull VNumber (mr_poolDown r));
        ("closesAt", VText (mr_closesAt r))]
     else
       [("id", VText (mr_id r)); ("asset", VText (mr_asset r)); ("mode", VText "precision"); ("status", VText (mr_status r));
        ("startPrice", VNumber (mr_startPrice r)); ("totalPool", orNull VNumber (mr_totalPool r));
        ("predictionCount", orNull whole (mr_predictionCount r)); ("closesAt", VText (mr_closesAt r))]).

Section Rounds.
(** [config.app.roundsMockMode], and the rows of the demo's rounds or the error
    of reading them *)
Context (roundsMockMode : bool) (mockRows : Err + list MockRound).

Definition getMockRoundsForApi : Svc (list Value) :=
  rounds <- liftE mockRows ;;
  mapS (fun r => mapMockActiveRound (mockRound r)) rounds.

(** The chain, else the active rounds of the database, else the demo's; what a
    source throws, in its conversion too, counts as nothing found. *)
Definition getRoundsForApi : Svc (ActiveRoundSource * list Value) :=
  if roundsMockMode then
    rounds <- getMockRoundsForApi ;; ret (FromMock, rounds)
  else
    onChain <- catch (onChainRound <- getActiveRound ;;
                      match onChainRound with
                      | Some round => v <- liftE (mapSorobanActiveRound round) ;; ret (Some v)
                      | None => ret None
                      end) (fun _ => ret None) ;;
    match onChain with
    | Some round => ret (FromSoroban, [round])
    | None =>
        dbRounds <- catch (rounds <- getActiveRounds ;;
                           match rounds with
                           | [] => ret None
                           | _ => vs <- mapS (fun r => mapDatabaseActiveRound (VObject (roundColumns r))) rounds ;; ret (Some vs)
                           end) (fun _ => ret None) ;;
        match dbRounds with
        | Some rounds => ret (FromDatabase, rounds)
        | None => rounds <- getMockRoundsForApi ;; ret (FromMock, rounds)
        end
    end.

Definition success (fields : Fields) : Value := VObject (("success", VBool true) :: fields).

(** GET / *)
Definition listRounds : Svc Value :=
  answer <- getRoundsForApi ;;
  rounds <- mapS (fun round => serialized (serializeRound round)) (snd answer) ;;
  ret (success [("data", VObject [("source", VText (ActiveRoundSource_str (fst answer))); ("rounds", VArray rounds)])]).
End Rounds.

(** ** A round and its predictions *)

(** A required relation whose row is missing makes the query throw. *)
Definition userOf (p : Prediction) : Svc Value :=
  user <- findUnique (Row := User) (p_userId p) ;;
  match user with
  | Some u => ret (VObject [("id", VText (u_id u)); ("walletAddress", VText (u_walletAddress u))])
  | None => throw (PlainError "Inconsistent query result")
  end.

Definition getRound (roundId : string) : Svc (option Value) :=
  round <- findUnique (Row := Round) roundId ;;
  match round with
  | None => ret None
  | Some r =>
      predictions <- findMany (fun p : Prediction => bool_decide (p_roundId p = roundId)) unordered ;;
      rows <- mapS (fun p => user <- userOf p ;; ret (VObject (predictionColumns p ++ [("user", user)])%list)) predictions ;;
      ret (Some (VObject (roundColumns r ++ [("predictions", VArray rows)])%list))
  end.

(** GET /:id *)
Definition showRound (id : string) : Svc Value :=
  round <- getRound id ;;
  match round with
  | None => throw (NotFoundError "Round not found" NOT_FOUND)
  | Some r => v <- serialized (serializeRound r) ;; ret (success [("round", v)])
  end.

(** POST /start: the answer about the new round *)
Definition startedRound (r : Round) : Svc Value :=
  v <- serialized (serializeRound (VObject
    [("id", VText (r_id r)); ("mode", VText (GameMode_str (r_mode r))); ("status", VText (RoundStatus_str (r_status r)));
     ("startTime", VDate (r_startTime r)); ("endTime", VDate (r_endTime r)); ("startPrice", columnMoney (r_startPrice r));
     ("sorobanRoundId", orNull VText (r_sorobanRoundId r)); ("isSoroban", VBool (r_isSoroban r));
     ("priceRanges", jsonValue (r_priceRanges r))])) ;;
  ret (success [("round", v)]).

(** POST /:id/resolve: [None] is the answer 404 *)
Definition resolvedRound (outcome : string) (round : option Round) (predictions : list Prediction) : Svc (option Value) :=
  match round with
  | None => ret None
  | Some r =>
      v <- serialized (serializeRound (VObject
        [("id", VText (r_id r)); ("status", VText (RoundStatus_str (r_status r))); ("startPrice", columnMoney (r_startPrice r));
         ("endPrice", orNull columnMoney (r_endPrice r)); ("resolvedAt", orNull VDate (r_resolvedAt r))])) ;;
      ret (Some (success [("outcome", VText outcome);
        ("round", VObject (Serializers.setField "winners" (count (length (List.filter (fun p => bool_decide (p_won p = Some true)) predictions)))
                    (Serializers.setField "predictions" (count (length predictions)) (spread v))))]))
  end.

(** POST /:id/simulate: the result as it is *)
Definition simulatedRound (s : SimulationResult) : Value :=
  success
    [("roundId", VText (si_roundId s)); ("simulatedPrice", VNumber (Fin (si_simulatedPrice s)));
     ("mode", VText (GameMode_str (si_mode s))); ("startPrice", VNumber (Fin (si_startPrice s)));
     ("winningSide", orNull (fun s => VText (PredictionSide_str s)) (si_winningSide s));
     ("winningRange", orNull (fun r => VObject [("min", VNumber (fst r)); ("max", VNumber (snd r))]) (si_winningRange s));
     ("predictions", VArray (map (fun p => VObject
        [("won", orNull VBool (sp_won p)); ("payout", VNumber (Fin (sp_payout p))); ("amount", VNumber (Fin (sp_amount p)));
         ("side", orNull (fun s => VText (PredictionSide_str s)) (sp_side p))]) (si_predictions s)));
     ("summary", VObject
        [("totalPredictions", count (sy_totalPredictions (si_summary s))); ("winners", count (sy_winners (si_summary s)));
         ("losers", count (sy_losers (si_summary s))); ("refunded", count (sy_refunded (si_summary s)));
         ("totalPayout", VNumber (Fin (sy_totalPayout (si_summary s))))])].

(** ** Predictions *)

(** A date is sent as the text of [toISOString], which JSON would make of it
    anyway. *)
Definition buildSubmitPredictionResponse (p : Prediction) : Svc Value :=
  v <- serialized (serializePrediction (VObject
    [("id", VText (p_id p)); ("roundId", VText (p_roundId p)); ("userId", VText (p_userId p)); ("amount", columnMoney (p_amount p));
     ("side", orNull (fun s => VText (PredictionSide_str s)) (p_side p)); ("priceRange", jsonValue (p_priceRange p));
     ("createdAt", VDate (p_createdAt p))])) ;;
  ret (success [("prediction", v)]).

Definition listedColumns (p : Prediction) : Fields :=
  [("id", VText (p_id p)); ("roundId", VText (p_roundId p)); ("userId", VText (p_userId p)); ("amount", columnMoney (p_amount p));
   ("side", orNull (fun s => VText (PredictionSide_str s)) (p_side p)); ("priceRange", jsonValue (p_priceRange p));
   ("payout", orNull columnMoney (p_payout p)); ("won", orNull VBool (p_won p)); ("createdAt", VDate (p_createdAt p))].

Definition roundOf (p : Prediction) : Svc Round :=
  round <- findUnique (Row := Round) (p_roundId p) ;;
  match round with Some r => ret r | None => throw (PlainError "Inconsistent query result") end.

Definition roundSummary (r : Round) : Value :=
  VObject [("id", VText (r_id r)); ("mode", VText (GameMode_str (r_mode r))); ("status", VText (RoundStatus_str (r_status r)));
           ("startPrice", columnMoney (r_startPrice r)); ("endPrice", orNull columnMoney (r_endPrice r))].

(** GET /user *)
Definition listUserPredictions (userId : string) : Svc Value :=
  predictions <- getUserPredictions userId ;;
  rows <- mapS (fun p =>
    r <- roundOf p ;;
    round <- serialized (serializeRound (roundSummary r)) ;;
    serialized (serializePrediction (VObject (listedColumns p ++ [("round", round)])%list))) predictions ;;
  ret (success [("predictions", VArray rows)]).

(** GET /round/:roundId, without authentication *)
Definition listRoundPredictions (roundId : string) : Svc Value :=
  predictions <- getRoundPredictions roundId ;;
  rows <- mapS (fun p =>
    user <- userOf p ;;
    serialized (serializePrediction (VObject (listedColumns p ++ [("user", user)])%list))) predictions ;;
  ret (success [("predictions", VArray rows)]).
End Views.

(** ** Money is text in every answer *)

Section Clean.
Context `{MoneyText}.

Lemma serializeRound_clean v o : serializeRound v = Some o ->
  (forall n y, roundWith erase (S (S n)) v = Some y -> clean y = true) -> clean o = true.
Proof.
  intros Ho Hy. destruct (erase_enough (S (S (depth v))) v ltac:(lia)) as [[y Ey] _].
  rewrite (proj1 (traversals_clean _ _ (S (S (depth v))) moneyField_textual erase_textual v o y)); [by eapply Hy| |exact Ey].
  rewrite <- Ho. apply (enough moneyField); lia.
Qed.

Lemma serializePrediction_clean v o : serializePrediction v = Some o ->
  (forall n y, predictionWith erase (S (S n)) v = Some y -> clean y = true) -> clean o = true.
Proof.
  intros Ho Hy. destruct (erase_enough (S (S (depth v))) v ltac:(lia)) as [_ [y Ey]].
  rewrite (proj2 (traversals_clean _ _ (S (S (depth v))) moneyField_textual erase_textual v o y)); [by eapply Hy| |exact Ey].
  rewrite <- Ho. apply (enough moneyField); lia.
Qed.

(** The JSON columns hold no money of their own beside the pools of ranges, and
    those can be read as decimals. *)
Definition plainRound (r : Round) : Prop :=
  is_Some (serializePriceRanges (jsonValue (r_priceRanges r))) /\
  forall w, serializePriceRangesWith erase (jsonValue (r_priceRanges r)) = Some w -> clean w = true.
Definition plainPrediction (p : Prediction) : Prop := clean (jsonValue (p_priceRange p)) = true.

Lemma orNull_clean {A} (f : A -> Value) o : (forall a, clean (f a) = true) -> clean (orNull f o) = true.
Proof. intros Hf. destruct o; [apply Hf|done]. Qed.

Lemma forallb_clean l : Forall (fun v => clean v = true) l -> forallb clean l = true.
Proof. induction 1 as [|v l Hv _ IH]; [done|]. cbn. by rewrite Hv, IH. Qed.
End Clean.

(** Erasing computes on an object whose names are known. *)
Ltac erases :=
  cbn -[clean jsonValue serializePriceRangesWith predictionWith orNull columnMoney whole count clean] in *;
  cbn [mbind option_bind fmap option_fmap option_map] in *.

Section Answers.
Context `{Env} `{MoneyText}.

Lemma roundColumns_clean r o : plainRound r -> serializeRound (VObject (roundColumns r)) = Some o -> clean o = true.
Proof.
  intros Hr Ho. apply (serializeRound_clean _ _ Ho). intros n y. unfold roundColumns. cbn [roundWith spread ownFields default].
  erases. destruct (serializePriceRangesWith erase (jsonValue (r_priceRanges r))) as [w|] eqn:Ew; [|done].
  intros Hy. injection Hy as <-. pose proof (proj2 Hr w Ew) as Hw. cbn. rewrite Hw.
  destruct (r_sorobanRoundId r), (r_resolvedAt r); done.
Qed.

(** A row of the predictions with the user beside it *)
Definition plainRow (v : Value) : Prop :=
  exists p user, v = VObject (predictionColumns p ++ [("user", user)])%list /\ plainPrediction p /\ clean user = true.

Lemma plainRow_erased n v y : plainRow v -> predictionWith erase (S n) v = Some y -> clean y = true.
Proof.
  intros (p & user & -> & Hp & Hu). unfold predictionColumns. erases. intros Hy. injection Hy as <-. unfold plainPrediction in Hp. cbn. rewrite Hp, Hu.
  destruct (p_side p), (p_won p), (p_txHash p), (p_chainFailureReason p), (p_chainSubmittedAt p), (p_chainConfirmedAt p), (p_chainFailedAt p),
    (p_compensatedAt p); done.
Qed.

Lemma roundWithRows_clean r rows o : plainRound r -> Forall plainRow rows ->
  serializeRound (VObject (roundColumns r ++ [("predictions", VArray rows)])%list) = Some o -> clean o = true.
Proof.
  intros Hr Hrows Ho. apply (serializeRound_clean _ _ Ho). intros n y. unfold roundColumns. cbn [roundWith spread ownFields default app].
  cbn -[clean jsonValue serializePriceRangesWith predictionWith mapM orNull columnMoney whole count clean].
  destruct (mapM (predictionWith erase (S n)) rows) as [l|] eqn:El; [|done].
  cbn -[clean jsonValue serializePriceRangesWith predictionWith mapM orNull columnMoney whole count clean].
  destruct (serializePriceRangesWith erase (jsonValue (r_priceRanges r))) as [w|] eqn:Ew; [|done].
  intros Hy. injection Hy as <-. pose proof (proj2 Hr w Ew) as Hw. cbn. rewrite Hw.
  assert (Hl : forallb clean l = true).
  { apply forallb_clean. apply mapM_Some_1 in El. clear -El Hrows. induction El as [|v x rows l Hx _ IH]; [constructor|].
    apply Forall_cons in Hrows as [Hv Hrows]. constructor; [by eapply plainRow_erased|auto]. }
  rewrite Hl. destruct (r_sorobanRoundId r), (r_resolvedAt r); done.
Qed.

(** A serialised summary of a round, and the erased one inside a prediction *)
Lemma roundSummary_shape r o : serializeRound (roundSummary r) = Some o ->
  exists fields, o = VObject fields /\ clean o = true /\
    forall n y, roundWith erase (S n) o = Some y -> exists g, y = VObject g /\ clean y = true.
Proof.
  intros Ho. unfold serializeRound, roundSummary in Ho. cbn [roundWith spread ownFields default] in Ho.
  cbn -[moneyField clean orNull columnMoney] in Ho.
  destruct (moneyField false (columnMoney (r_startPrice r))) as [a|] eqn:Ea; [|done].
  cbn -[moneyField clean orNull columnMoney] in Ho.
  destruct (moneyField true (orNull columnMoney (r_endPrice r))) as [b|] eqn:Eb; [|done].
  cbn -[moneyField clean orNull columnMoney] in Ho. injection Ho as <-.
  destruct (moneyField_textual _ _ _ Ea) as [Ha Hca], (moneyField_textual _ _ _ Eb) as [Hb Hcb].
  eexists. split; [reflexivity|]. split; [cbn; by rewrite Ha, Hca, Hb, Hcb|].
  intros n y. cbn -[clean]. intros [= <-]. eexists. split; [reflexivity|done].
Qed.

Lemma listedUser_clean p user o : plainPrediction p -> clean user = true ->
  serializePrediction (VObject (listedColumns p ++ [("user", user)])%list) = Some o -> clean o = true.
Proof.
  intros Hp Hu Ho. apply (serializePrediction_clean _ _ Ho). intros n y. unfold listedColumns. erases. intros Hy. injection Hy as <-.
  unfold plainPrediction in Hp. cbn. rewrite Hp, Hu. destruct (p_side p), (p_won p); done.
Qed.

Lemma listedRound_clean p r round o : plainPrediction p -> serializeRound (roundSummary r) = Some round ->
  serializePrediction (VObject (listedColumns p ++ [("round", round)])%list) = Some o -> clean o = true.
Proof.
  intros Hp Hr Ho. destruct (roundSummary_shape r round Hr) as (fields & -> & _ & Herase).
  apply (serializePrediction_clean _ _ Ho). intros n y. unfold listedColumns.
  cbn -[clean jsonValue roundWith orNull columnMoney whole count].
  destruct (roundWith erase (S n) (VObject fields)) as [z|] eqn:Ez; [|done].
  destruct (Herase n z Ez) as (g & -> & Hg). intros Hy. injection Hy as <-.
  unfold plainPrediction in Hp. cbn -[clean] in *. cbn. cbn in Hg. rewrite Hp, Hg. destruct (p_side p), (p_won p); done.
Qed.

Lemma submitted_clean p o : plainPrediction p ->
  serializePrediction (VObject
    [("id", VText (p_id p)); ("roundId", VText (p_roundId p)); ("userId", VText (p_userId p)); ("amount", columnMoney (p_amount p));
     ("side", orNull (fun s => VText (PredictionSide_str s)) (p_side p)); ("priceRange", jsonValue (p_priceRange p));
     ("createdAt", VDate (p_createdAt p))]) = Some o -> clean o = true.
Proof.
  intros Hp Ho. apply (serializePrediction_clean _ _ Ho). intros n y. erases. intros Hy. injection Hy as <-.
  unfold plainPrediction in Hp. cbn. rewrite Hp. destruct (p_side p); done.
Qed.

Definition plainDB (d : DB) : Prop :=
  (forall k r, rounds d !! k = Some r -> plainRound r) /\
  (forall k p, predictions d !! k = Some p -> plainPrediction p /\ is_Some (users d !! p_userId p) /\ is_Some (rounds d !! p_roundId p)).

Variables (d : DB) (Hplain : plainDB d).

(** The database is left as it is, and what is returned satisfies [P];
    [answers]: and something is returned. *)
Definition gives {A} (P : A -> Prop) (m : Svc A) : Prop :=
  forall w, w_db w = d -> w_db (snd (m w)) = d /\ forall a, fst (m w) = inr a -> P a.

Definition answers {A} (P : A -> Prop) (m : Svc A) : Prop :=
  forall w, w_db w = d -> w_db (snd (m w)) = d /\ exists a, fst (m w) = inr a /\ P a.

Lemma gives_ret {A} (P : A -> Prop) a : P a -> gives P (ret a).
Proof. intros Ha w Hw. split; [done|]. by intros ? [= <-]. Qed.

Lemma gives_throw {A} (P : A -> Prop) e : gives P (throw e).
Proof. intros w Hw. split; done. Qed.

Lemma gives_bind {A B} (P : A -> Prop) (Q : B -> Prop) (m : Svc A) k : gives P m -> (forall a, P a -> gives Q (k a)) -> gives Q (bind m k).
Proof.
  intros Hm Hk w Hw. unfold bind. destruct (Hm w Hw) as [Hd Ha]. destruct (m w) as [[e|a] w']; cbn in *; [by split|].
  apply Hk; auto.
Qed.

Lemma gives_catch {A} (P : A -> Prop) (m : Svc A) h : gives P m -> (forall e, gives P (h e)) -> gives P (catch m h).
Proof.
  intros Hm Hh w Hw. unfold catch. destruct (Hm w Hw) as [Hd Ha]. destruct (m w) as [[e|a] w']; cbn in *; [by apply Hh|by split].
Qed.

Lemma gives_weaken {A} (P Q : A -> Prop) (m : Svc A) : gives P m -> (forall a, P a -> Q a) -> gives Q m.
Proof. intros Hm HPQ w Hw. destruct (Hm w Hw) as [Hd Ha]. split; [done|]. eauto. Qed.

Lemma gives_mapS {A} (P : A -> Prop) (Q : Value -> Prop) f (l : list A) : (forall x, P x -> gives Q (f x)) -> Forall P l -> gives (Forall Q) (mapS f l).
Proof.
  intros Hf. induction 1 as [|x l Hx _ IH]; cbn [mapS]; [by apply gives_ret|].
  apply (gives_bind Q); [by apply Hf|]. intros v Hv. apply (gives_bind (Forall Q)); [done|]. intros vs Hvs. apply gives_ret. by constructor.
Qed.

Lemma gives_serialized (Q : Value -> Prop) o : (forall v, o = Some v -> Q v) -> gives Q (serialized o).
Proof. intros Ho. destruct o; [by apply gives_ret, Ho|apply gives_throw]. Qed.

Lemma answers_gives {A} (P : A -> Prop) (m : Svc A) : answers P m -> gives P m.
Proof. intros Hm w Hw. destruct (Hm w Hw) as [Hd (a & Ha & HP)]. split; [done|]. intros b Hb. rewrite Ha in Hb. by injection Hb as <-. Qed.

Lemma answers_ret {A} (P : A -> Prop) a : P a -> answers P (ret a).
Proof. intros Ha w Hw. split; [done|]. by exists a. Qed.

Lemma answers_bind {A B} (P : A -> Prop) (Q : B -> Prop) (m : Svc A) k : answers P m -> (forall a, P a -> answers Q (k a)) -> answers Q (bind m k).
Proof.
  intros Hm Hk w Hw. unfold bind. destruct (Hm w Hw) as [Hd (a & Ha & HP)]. destruct (m w) as [r w']; cbn in *. subst r. by apply Hk.
Qed.

Lemma answers_catch {A} (P : A -> Prop) (m : Svc A) h : gives P m -> (forall e, answers P (h e)) -> answers P (catch m h).
Proof.
  intros Hm Hh w Hw. unfold catch. destruct (Hm w Hw) as [Hd Ha]. destruct (m w) as [[e|a] w']; cbn in *; [by apply Hh|]. eauto.
Qed.

Lemma answers_mapS {A} (P : A -> Prop) (Q : Value -> Prop) f (l : list A) : (forall x, P x -> answers Q (f x)) -> Forall P l -> answers (Forall Q) (mapS f l).
Proof.
  intros Hf. induction 1 as [|x l Hx _ IH]; cbn [mapS]; [by apply answers_ret|].
  apply (answers_bind Q); [by apply Hf|]. intros v Hv. apply (answers_bind (Forall Q)); [done|]. intros vs Hvs. apply answers_ret. by constructor.
Qed.

Lemma answers_serialized (Q : Value -> Prop) o : is_Some o -> (forall v, o = Some v -> Q v) -> answers Q (serialized o).
Proof. intros [v ->] Hv. apply answers_ret. by apply Hv. Qed.

Lemma answers_round k : answers (fun o => o = rounds d !! k /\ forall r, o = Some r -> plainRound r) (findUnique (Row := Round) k).
Proof.
  intros w Hw. split; [done|]. exists (rounds d !! k). unfold findUnique, gets. cbn. rewrite Hw. split_and!; try done.
  intros r Hk. by apply (proj1 Hplain k).
Qed.

Lemma answers_user k : answers (fun o => o = users d !! k) (findUnique (Row := User) k).
Proof. intros w Hw. split; [done|]. exists (users d !! k). unfold findUnique, gets. cbn. by rewrite Hw. Qed.

(** A row of the table, with its user and its round *)
Definition wholePrediction (p : Prediction) : Prop :=
  plainPrediction p /\ is_Some (users d !! p_userId p) /\ is_Some (rounds d !! p_roundId p).

Lemma answers_predictions f gt : answers (Forall wholePrediction) (findMany (Row := Prediction) f gt).
Proof.
  intros w Hw. split; [done|]. eexists. split; [reflexivity|]. apply Forall_forall. intros p Hin.
  rewrite sorted_rows, rowsWhere_spec, Hw in Hin. destruct Hin as ((k & Hk) & _). by apply (proj2 Hplain k).
Qed.

Lemma answers_rounds f gt : answers (Forall plainRound) (findMany (Row := Round) f gt).
Proof.
  intros w Hw. split; [done|]. eexists. split; [reflexivity|]. apply Forall_forall. intros p Hin.
  rewrite sorted_rows, rowsWhere_spec, Hw in Hin. destruct Hin as ((k & Hk) & _). by apply (proj1 Hplain k).
Qed.

Lemma gives_activeRound : gives (fun _ => True) getActiveRound.
Proof. intros w Hw. split; [|done]. destruct (getActiveRound_sent w) as (E & _). unfold final in E. by rewrite E. Qed.

Lemma gives_liftE {A} (P : A -> Prop) r : (forall a, r = inr a -> P a) -> gives P (liftE r).
Proof. intros Hr. destruct r; [apply gives_throw|by apply gives_ret, Hr]. Qed.

(** *** What the serializers accept *)

Lemma serializes n f : ready roundMoney f ->
  (forall l, fieldOf "predictions" f = Some (VArray l) -> Forall (fun v => is_Some (predictionWith moneyField n v)) l) ->
  (forall w, fieldOf "priceRanges" f = Some w -> is_Some (serializePriceRanges w)) ->
  fieldOf "priceData" f = None -> fieldOf "poolValues" f = None -> is_Some (roundWith moneyField (S n) (VObject f)).
Proof.
  intros Hr Hp Hranges Hdata Hvalues. cbn [roundWith spread ownFields default id].
  destruct (ready_serializes roundMoney f Hr) as [f1 E1]. rewrite E1. cbn [mbind option_bind].
  assert (Hsame : forall key, names roundMoney key = false -> fieldOf key f1 = fieldOf key f) by (intros key; by apply (serializeAll_other moneyField)).
  assert (Hpart : is_Some (insideArray "predictions" (predictionWith moneyField n) f1)).
  { unfold insideArray. rewrite Hsame by done. destruct (fieldOf "predictions" f) as [[]|] eqn:E; eauto.
    destruct (proj2 (mapM_is_Some (predictionWith moneyField n) items) (Hp items eq_refl)) as [l ->]. cbn. eauto. }
  destruct Hpart as [f2 E2]. rewrite E2. cbn [mbind option_bind].
  assert (Hrange : is_Some (insideAny "priceRanges" (serializePriceRangesWith moneyField) f2)).
  { unfold insideAny. rewrite (insideArray_other _ _ _ _ _ E2), Hsame by done. destruct (fieldOf "priceRanges" f) as [w|] eqn:E; [|eauto].
    destruct (Hranges w eq_refl) as [x Hx]. unfold serializePriceRanges in Hx. rewrite Hx. cbn. eauto. }
  destruct Hrange as [f3 E3]. rewrite E3. cbn [mbind option_bind]. unfold insideObject.
  rewrite (insideAny_other _ _ _ _ _ E3), (insideArray_other _ _ _ _ _ E2), Hsame, Hdata by done. cbn [mbind option_bind].
  rewrite (insideAny_other _ _ _ _ _ E3), (insideArray_other _ _ _ _ _ E2), Hsame, Hvalues by done. cbn. eauto.
Qed.

Lemma prediction_serializes n f : ready predictionMoney f ->
  (forall v, fieldOf "round" f = Some v -> is_Some (roundWith moneyField n v)) -> is_Some (predictionWith moneyField (S n) (VObject f)).
Proof.
  intros Hr Hround. cbn [predictionWith spread ownFields default id]. destruct (ready_serializes predictionMoney f Hr) as [f1 E1]. rewrite E1.
  cbn [mbind option_bind]. unfold insideObject. rewrite (serializeAll_other moneyField predictionMoney "round" _ _ E1 eq_refl).
  destruct (fieldOf "round" f) as [v|] eqn:E; [|cbn; eauto]. destruct (ownFields v); [|cbn; eauto].
  destruct (Hround v eq_refl) as [w ->]. cbn. eauto.
Qed.

Lemma accepted_decimal z : accepted (columnMoney z).
Proof. intros []; cbn; eauto. Qed.
Lemma accepted_decimals o : accepted (orNull columnMoney o).
Proof. intros optional. destruct o; [apply accepted_decimal|]. unfold moneyField. cbn. eauto. Qed.
Lemma accepted_number n : accepted (VNumber n).
Proof. intros optional. unfold moneyField. cbn. destruct n; cbn; eauto. Qed.
Lemma accepted_numbers o : accepted (orNull VNumber o).
Proof. intros optional. destruct o; [apply accepted_number|]. unfold moneyField. cbn. eauto. Qed.
Lemma accepted_money n : accepted (VText (numberMoney n)).
Proof.
  apply (moneyField_accepted false (VDecimal (match n with Fin q => Fin (num_to_dec q) | m => m end))). by destruct n.
Qed.

#[local] Hint Resolve accepted_decimal accepted_decimals accepted_number accepted_numbers accepted_money : accepts.

(** The fields of money of an object whose names are known *)
#[local] Ltac readies :=
  let key := fresh "key" in let v := fresh "v" in let Hk := fresh "Hk" in let Hv := fresh "Hv" in
  intros key v Hk Hv; cbn [names existsb roundMoney predictionMoney fst] in Hk;
  repeat (apply orb_prop in Hk as [Hk|Hk]); try discriminate Hk; apply String.eqb_eq in Hk; subst key;
  cbn in Hv; try discriminate Hv; injection Hv as <-; auto with accepts.

Lemma round_answers (Q : Value -> Prop) f :
  is_Some (roundWith moneyField (S (S (depth (VObject f)))) (VObject f)) -> (forall o, serializeRound (VObject f) = Some o -> Q o) ->
  answers Q (serialized (serializeRound (VObject f))).
Proof.
  intros Hs HQ. apply answers_serialized; [|done]. unfold serializeRound.
  by rewrite (proj1 (enough moneyField (S (depth (VObject f))) (S (S (depth (VObject f)))) (VObject f) ltac:(lia) ltac:(lia))).
Qed.

Lemma prediction_answers (Q : Value -> Prop) f :
  is_Some (predictionWith moneyField (S (S (depth (VObject f)))) (VObject f)) -> (forall o, serializePrediction (VObject f) = Some o -> Q o) ->
  answers Q (serialized (serializePrediction (VObject f))).
Proof.
  intros Hs HQ. apply answers_serialized; [|done]. unfold serializePrediction.
  by rewrite (proj2 (enough moneyField (S (depth (VObject f))) (S (S (depth (VObject f)))) (VObject f) ltac:(lia) ltac:(lia))).
Qed.

Notation cleanValue := (fun v => clean v = true).

(** A round a source gave: clean, and accepted by the serializer of the route. *)
Definition sourceRound (v : Value) : Prop := clean v = true /\ is_Some (serializeRound v).

Lemma userOf_clean p : is_Some (users d !! p_userId p) -> answers cleanValue (userOf p).
Proof.
  intros [u Hu]. apply (answers_bind _ _ _ _ (answers_user _)). intros o ->. rewrite Hu. by apply answers_ret.
Qed.

Lemma mapSoroban_clean round v : mapSorobanActiveRound round = inr v -> sourceRound v.
Proof.
  unfold mapSorobanActiveRound. destruct (resolveRoundMode _) as [e|mode]; [done|]. intros [= <-]. split; [by destruct mode|].
  unfold serializeRound. apply serializes; try done. readies.
Qed.

Lemma mockRound_clean r : answers sourceRound (mapMockActiveRound (mockRound r)).
Proof.
  unfold mapMockActiveRound, withSource, mockRound. cbn [spread ownFields default id].
  apply round_answers.
  - apply serializes; destruct (String.eqb (mr_mode r) "updown"); try done; readies.
  - intros v Hv. split; [|by eapply serializeRound_again]. apply (serializeRound_clean _ _ Hv). intros n y.
    destruct (String.eqb (mr_mode r) "updown"); erases; intros Hy; injection Hy as <-; [done|]. cbn. by destruct (mr_predictionCount r).
Qed.

Lemma databaseRound_clean r : plainRound r -> answers sourceRound (mapDatabaseActiveRound (VObject (roundColumns r))).
Proof.
  intros Hr. unfold mapDatabaseActiveRound, withSource. cbn [spread ownFields default id]. apply round_answers.
  - apply serializes; try done; [readies|]. intros w [= <-]. apply Hr.
  - intros v Hv. split; [|by eapply serializeRound_again]. apply (serializeRound_clean _ _ Hv). intros n y.
    unfold roundColumns. cbn [Serializers.setField roundWith]. erases.
    destruct (serializePriceRangesWith erase (jsonValue (r_priceRanges r))) as [w|] eqn:Ew; [|done].
    intros Hy. injection Hy as <-. pose proof (proj2 Hr w Ew) as Hw. cbn. rewrite Hw. destruct (r_sorobanRoundId r), (r_resolvedAt r); done.
Qed.

Lemma again_clean v : sourceRound v -> answers cleanValue (serialized (serializeRound v)).
Proof.
  intros [Hv Hs]. apply answers_serialized; [done|]. intros w Hw.
  by apply (proj1 (traversal_keeps_clean moneyField (S (depth v)) moneyField_textual v w Hv)).
Qed.

Lemma mockRounds_clean rows : answers (Forall sourceRound) (getMockRoundsForApi (inr rows)).
Proof.
  apply (answers_bind (fun _ => True)); [by apply answers_ret|]. intros l _.
  apply (answers_mapS (fun _ => True)); [intros r _; apply mockRound_clean|by apply Forall_true].
Qed.

Lemma roundsForApi_clean mode rows : answers (fun a => Forall sourceRound (snd a)) (getRoundsForApi mode (inr rows)).
Proof.
  assert (Hmock : answers (fun a : ActiveRoundSource * list Value => Forall sourceRound (snd a))
                    (rounds <- getMockRoundsForApi (inr rows) ;; ret (FromMock, rounds))).
  { apply (answers_bind _ _ _ _ (mockRounds_clean rows)). intros l Hl. by apply answers_ret. }
  unfold getRoundsForApi. destruct mode; [exact Hmock|].
  apply (answers_bind (fun o => forall v, o = Some v -> sourceRound v)).
  { apply answers_catch; [|by intros e; apply answers_ret]. apply (gives_bind _ _ _ _ gives_activeRound).
    intros [r|] _; [|by apply gives_ret].
    apply (gives_bind sourceRound); [apply gives_liftE; intros v; apply mapSoroban_clean|]. intros v Hv. apply gives_ret. by intros ? [= <-]. }
  intros [v|] Hv; [apply answers_ret; cbn; auto|].
  apply (answers_bind (fun o => forall l, o = Some l -> Forall sourceRound l)).
  { apply answers_catch; [|by intros e; apply answers_ret]. apply answers_gives. apply (answers_bind _ _ _ _ (answers_rounds _ _)).
    intros l Hl. destruct l as [|r l]; [by apply answers_ret|]. apply (answers_bind (Forall sourceRound)).
    - apply (answers_mapS plainRound); [apply databaseRound_clean|done].
    - intros vs Hvs. apply answers_ret. by intros ? [= <-]. }
  intros [l|] Hl; [apply answers_ret; cbn; auto|exact Hmock].
Qed.

Lemma listRounds_clean mode rows : answers cleanValue (listRounds mode (inr rows)).
Proof.
  apply (answers_bind _ _ _ _ (roundsForApi_clean mode rows)). intros [source rounds] Hr. cbn [fst snd] in *.
  apply (answers_bind (Forall cleanValue)); [by apply (answers_mapS sourceRound _ _ _ again_clean)|].
  intros l Hl. apply answers_ret. cbn. by rewrite (forallb_clean l Hl).
Qed.

Lemma columns_ready r extra : fieldOf "currentPrice" extra = None -> fieldOf "totalPool" extra = None -> ready roundMoney (roundColumns r ++ extra)%list.
Proof.
  intros Hc Ht. intros key v Hk Hv. cbn [names existsb roundMoney fst] in Hk.
  repeat (apply orb_prop in Hk as [Hk|Hk]); try discriminate Hk; apply String.eqb_eq in Hk; subst key;
    cbn in Hv; try congruence; injection Hv as <-; auto with accepts.
Qed.

Lemma showRound_clean id : is_Some (rounds d !! id) -> answers cleanValue (showRound id).
Proof.
  intros [r Er]. unfold showRound. apply (answers_bind (fun o => exists rows, o = Some (VObject (roundColumns r ++ [("predictions", VArray rows)])%list) /\
    plainRound r /\ Forall plainRow rows)).
  - unfold getRound. apply (answers_bind _ _ _ _ (answers_round id)). intros o [-> Hr]. rewrite Er in *.
    apply (answers_bind _ _ _ _ (answers_predictions _ _)). intros ps Hps. apply (answers_bind (Forall plainRow)).
    + apply (answers_mapS wholePrediction); [|done]. intros p (Hp & Hu & _). apply (answers_bind _ _ _ _ (userOf_clean p Hu)).
      intros u Hclean. apply answers_ret. by exists p, u.
    + intros rows Hrows. apply answers_ret. exists rows. split_and!; auto.
  - intros o (rows & -> & Hr & Hrows). apply (answers_bind cleanValue).
    + apply round_answers; [|intros v Hv; by apply (roundWithRows_clean r rows)]. apply serializes; try done.
      * by apply columns_ready.
      * intros l [= <-]. apply (Forall_impl _ _ _ Hrows). intros v (p & user & -> & _). apply prediction_serializes; [|done]. readies.
      * intros w [= <-]. apply Hr.
    + intros v Hv. apply answers_ret. cbn. by rewrite Hv.
Qed.

Lemma startedRound_clean r : plainRound r -> answers cleanValue (startedRound r).
Proof.
  intros Hr. apply (answers_bind cleanValue).
  - apply round_answers; [apply serializes; try done; [readies|intros w [= <-]; apply Hr]|].
    intros o Ho. apply (serializeRound_clean _ _ Ho). intros n y. cbn [roundWith spread ownFields default]. erases.
    destruct (serializePriceRangesWith erase (jsonValue (r_priceRanges r))) as [w|] eqn:Ew; [|done].
    intros Hy. injection Hy as <-. pose proof (proj2 Hr w Ew) as Hw. cbn. rewrite Hw. by destruct (r_sorobanRoundId r).
  - intros o Ho. apply answers_ret. cbn. by rewrite Ho.
Qed.

Lemma resolvedRound_clean outcome r ps : answers (fun o => exists v, o = Some v /\ clean v = true) (resolvedRound outcome (Some r) ps).
Proof.
  apply (answers_bind cleanValue).
  - apply round_answers; [apply serializes; try done; readies|]. intros o Ho. apply (serializeRound_clean _ _ Ho). intros n y. erases.
    intros Hy. injection Hy as <-. cbn. by destruct (r_resolvedAt r).
  - intros o Ho. apply answers_ret. eexists. split; [reflexivity|]. set (f := Serializers.setField _ _ _).
    assert (Hf : clean (VObject f) = true) by (apply setField_clean; [apply setField_clean; [by apply spread_clean|by right|done]|by right|done]).
    cbn [clean forallb fst snd success andb] in *. by rewrite Hf.
Qed.

Lemma roundSummary_serializes r : is_Some (serializeRound (roundSummary r)).
Proof. unfold serializeRound, roundSummary. apply serializes; try done. readies. Qed.

Lemma listed_ready p extra : fieldOf "amount" extra = None -> ready predictionMoney (listedColumns p ++ extra)%list.
Proof. intros _. readies. Qed.

Lemma listUser_clean userId : answers cleanValue (listUserPredictions userId).
Proof.
  apply (answers_bind _ _ _ _ (answers_predictions _ _)). intros ps Hps. apply (answers_bind (Forall cleanValue)).
  - apply (answers_mapS wholePrediction); [|done]. intros p (Hp & _ & Hround). apply (answers_bind (fun _ => True)).
    { unfold roundOf. apply (answers_bind _ _ _ _ (answers_round _)). intros o [-> _]. destruct Hround as [r ->]. by apply answers_ret. }
    intros r _. apply (answers_bind (fun v => serializeRound (roundSummary r) = Some v)).
    { apply answers_serialized; [apply roundSummary_serializes|done]. }
    intros v Hv. apply prediction_answers; [|intros o; by apply (listedRound_clean p r v)].
    apply prediction_serializes; [by apply listed_ready|]. intros w [= <-].
    destruct (serializeRound_again _ _ Hv) as [o Ho]. exists o. rewrite <- Ho. unfold serializeRound. apply (enough moneyField); [|lia].
    destruct (roundSummary_shape r v Hv) as (fields & -> & _).
    pose proof (part_depth "round" (VObject (listedColumns p ++ [("round", VObject fields)])%list) (VObject fields) fields eq_refl eq_refl). lia.
  - intros l Hl. apply answers_ret. cbn. by rewrite (forallb_clean l Hl).
Qed.

Lemma listRound_clean roundId : answers cleanValue (listRoundPredictions roundId).
Proof.
  apply (answers_bind _ _ _ _ (answers_predictions _ _)). intros ps Hps. apply (answers_bind (Forall cleanValue)).
  - apply (answers_mapS wholePrediction); [|done]. intros p (Hp & Hu & _). apply (answers_bind _ _ _ _ (userOf_clean p Hu)).
    intros u Hclean. apply prediction_answers; [|intros o; by apply (listedUser_clean p u)].
    apply prediction_serializes; [by apply listed_ready|done].
  - intros l Hl. apply answers_ret. cbn. by rewrite (forallb_clean l Hl).
Qed.

Lemma submitted_answer p : plainPrediction p -> answers cleanValue (buildSubmitPredictionResponse p).
Proof.
  intros Hp. apply (answers_bind cleanValue).
  - apply prediction_answers; [|intros o; by apply submitted_clean]. apply prediction_serializes; [readies|done].
  - intros o Ho. apply answers_ret. cbn. by rewrite Ho.
Qed.
End Answers.

(** Reads of rounds and predictions, and what is said of a started round, a
    settled round and a new prediction. *)
Inductive answering `{Env} `{MoneyText} (d : DB) : Svc Value -> Prop :=
| ReadRounds mode rows : answering d (listRounds mode (inr rows))
| ReadRound id : is_Some (rounds d !! id) -> answering d (showRound id)
| ReadUser userId : answering d (listUserPredictions userId)
| ReadRoundPredictions roundId : answering d (listRoundPredictions roundId)
| SayStarted k r : rounds d !! k = Some r -> answering d (startedRound r)
| SayResolved outcome r ps : answering d (o <- resolvedRound outcome (Some r) ps ;; ret (default VNull o))
| SaySubmitted k p : predictions d !! k = Some p -> answering d (buildSubmitPredictionResponse p).

(** C27. Whatever chain and limiter answer or throw, the reads of rounds and
    predictions and the answers about a started round, a settled round and a
    new prediction come back, leave the database alone, and have no JSON number
    in a field of money. That holds of a database without dangling references
    whose JSON columns hold no money beside the pools of their ranges; the
    active rounds come back from the chain, else the database, else the demo's
    rounds, also when a source or the conversion of its rounds throws. *)
Theorem answers_have_no_numeric_money `{Env} `{MoneyText} route w path : plainDB (w_db w) -> answering (w_db w) route ->
  exists v, value route w = inr v /\ w_db (final route w) = w_db w /\ assertNoNumericMoney path v = None.
Proof.
  intros Hw Hroute. assert (Ha : answers (w_db w) (fun v => clean v = true) route).
  { destruct Hroute as [mode rows|id Hid|userId|roundId|k r Hk|outcome r ps|k p Hk].
    - by apply listRounds_clean.
    - by apply showRound_clean.
    - by apply listUser_clean.
    - by apply listRound_clean.
    - apply startedRound_clean. by eapply (proj1 Hw).
    - apply (answers_bind _ _ _ _ _ (resolvedRound_clean _ outcome r ps)). intros o (v & -> & Hv). by apply answers_ret.
    - apply submitted_answer. by eapply (proj2 Hw). }
  destruct (Ha w eq_refl) as [Hd (v & Hv & Hclean)]. exists v. split; [done|]. split; [done|]. by apply assert_clean.
Qed.

(** The simulation answers with numbers. *)
Lemma simulation_has_numeric_money s path : assertNoNumericMoney path (simulatedRound s) <> None.
Proof. rewrite assert_clean. cbn. done. Qed.
