(* ===== verification/PredictionRoutes.v ===== *)
(** * Prediction requests (src/src/routes/predictions.routes.ts, src/src/schemas/predictions.schema.ts)

    From the headers and the body of a request to the submission: the guard, the
    schemas, and the idempotency protocol, on the calls of [BetRoutes]. The
    routes that read predictions are in [Views]. *)

From Stdlib Require Import ZArith QArith Lia.
From stdpp Require Import base strings list.
From S2P Require Import Prelude.
From S2P Require Import Numeric.
From S2P Require Import Errors.
From S2P Require Import Schema.
From S2P Require Import JsonText.
From S2P Require Import Prediction.
From S2P Require Import Pagination.
From S2P Require Import Idempotency.
From S2P Require Import BetRoutes.

#[local] Open Scope string_scope.
#[local] Open Scope Z_scope.
#[local] Notation Route A := (M RouteWorld RouteErr A).

(** ** Schemas *)

(** [z.number().finite()] *)
Definition finiteField (name : string) (body : Fields) : option Q :=
  match jsonField name body with Some (JNum (Fin q)) => Some q | _ => None end.

(** An optional field: absent, or accepted by [f]. *)
Definition optionalField {A} (name : string) (f : Json -> option A) (body : Fields) : option (option A) :=
  match jsonField name body with
  | None => Some None
  | Some v => option_map Some (f v)
  end.

Definition textField (v : Json) : option string := match v with JStr s => Some s | _ => None end.

Definition predictionPriceRange (v : Json) : option (Q * Q) :=
  match v with
  | JObj range =>
      match finiteField "min" range, finiteField "max" range with
      | Some lo, Some hi => if Qlt_le_dec lo hi then Some (lo, hi) else None
      | _, _ => None
      end
  | _ => None
  end.

Definition submitPredictionSchema (body : Fields) : option SubmitBody :=
  match jsonField "roundId" body, positiveField "amount" body, optionalField "side" textField body,
        optionalField "priceRange" predictionPriceRange body with
  | Some (JStr roundId), Some amount, Some side, Some priceRange =>
      if String.eqb roundId "" then None
      else match truthy side, priceRange with
           | None, None => None
           | _, _ => Some (mkSubmitBody roundId amount side priceRange)
           end
  | _, _, _, _ => None
  end.

Definition batchSubmitPredictionsSchema (body : Fields) : option (list SubmitBody) :=
  match jsonField "predictions" body with
  | Some (JArr items) =>
      match mapM (fun item => match item with JObj f => submitPredictionSchema f | _ => None end) items with
      | Some predictions =>
          if (1 <=? length predictions)%nat && (length predictions <=? 50)%nat && bool_decide (NoDup (map sb_roundId predictions))
          then Some predictions else None
      | None => None
      end
  | _ => None
  end.

(** What the key stands for. *)
Definition submitFields (b : SubmitBody) : Fields :=
  ([("roundId", JStr (sb_roundId b)); ("amount", JNum (Fin (sb_amount b)))]
   ++ match sb_side b with Some s => [("side", JStr s)] | None => [] end
   ++ match sb_priceRange b with Some (lo, hi) => [("priceRange", JObj [("min", JNum (Fin lo)); ("max", JNum (Fin hi))])] | None => [] end)%list.

Definition SUBMIT_PREDICTION_ENDPOINT : string := "/api/predictions/submit".

(** ** The routes *)

Section Routes.
Context `{RouteServices}.
(** [buildSubmitPredictionResponse] of [Views], as JSON; [inl]: it throws. *)
Context (responseOf : Prediction -> Err + Json).
Context (verifyToken : string -> option JwtPayload) (findUser : string -> Err + option JwtPayload).
Context (limited : option Json) (zodMessage : Fields -> string).

(** The body of the try *)
Definition submission (userId : string) (idempotencyKey : option string) (b : SubmitBody) : Route Answer :=
  replayed <- acquireKey userId SUBMIT_PREDICTION_ENDPOINT idempotencyKey (submitFields b) ;;
  match replayed with
  | Some answer => ret answer
  | None =>
      prediction <- called submitAnswer (SubmitCall userId b) ;;
      modify (fun w => w {{ rw_operationCompleted := true }}) ;;;
      match responseOf prediction with
      | inl e => throw (Thrown e)
      | inr responseBody =>
          storeKey userId SUBMIT_PREDICTION_ENDPOINT idempotencyKey (submitFields b) responseBody ;;;
          ret (Sent 200 responseBody)
      end
  end.

Definition submitHandler (userId : string) (idempotencyKey : option string) (b : SubmitBody) : Route Answer :=
  catch (submission userId idempotencyKey b) (handleFailure userId SUBMIT_PREDICTION_ENDPOINT idempotencyKey stillReleasable).

(** POST /submit; a missing body fails the schema. *)
Definition postSubmit (req : HttpRequest) : Route Answer :=
  match authenticateUser verifyToken findUser (hr_authorization req) with
  | inl a => ret a
  | inr user =>
      match limited with
      | Some tooMany => ret (Sent 429 tooMany)
      | None =>
          let fields := default [] (hr_body req) in
          match submitPredictionSchema fields with
          | None => ret (Next (ValidationError (zodMessage fields)))
          | Some b => submitHandler (jp_userId user) (hr_idempotencyKey req) b
          end
      end
  end.
End Routes.

(** POST /batch-submit: [success] is set after the fields of the result. *)
Definition batchAnswer (result : bool * list BatchPredictionResultItem) : bool * list BatchPredictionResultItem := (true, snd result).

(** ** What the schemas let through *)

Lemma submitPredictionSchema_ok body b : submitPredictionSchema body = Some b ->
  sb_roundId b <> "" /\ (0 < sb_amount b)%Q /\ (truthy (sb_side b) <> None \/ sb_priceRange b <> None) /\
  forall lo hi, sb_priceRange b = Some (lo, hi) -> (lo < hi)%Q.
Proof.
  unfold submitPredictionSchema. destruct (jsonField "roundId" body) as [[]|]; try done.
  destruct (positiveField "amount" body) as [amount|] eqn:Ea; [|done].
  destruct (optionalField "side" textField body) as [side|]; [|done].
  destruct (optionalField "priceRange" predictionPriceRange body) as [range|] eqn:Er; [|done].
  destruct (String.eqb_spec s ""); [done|]. intros E.
  assert (Hb : b = mkSubmitBody s amount side range /\ (truthy side <> None \/ range <> None)).
  { destruct (truthy side), range; try done; injection E as <-; split; auto; left; done. }
  destruct Hb as [-> Hone]. cbn. split_and!; [done|by eapply positiveField_some|done|].
  intros lo hi ->. unfold optionalField in Er. destruct (jsonField "priceRange" body) as [v|]; [|done].
  destruct (predictionPriceRange v) as [[lo' hi']|] eqn:Ep; [|done]. injection Er as -> ->.
  unfold predictionPriceRange in Ep. destruct v; try done. destruct (finiteField "min" fields), (finiteField "max" fields); try done.
  destruct (Qlt_le_dec _ _); [|done]. by injection Ep as <- <-.
Qed.

Lemma batchSubmitPredictionsSchema_ok body l : batchSubmitPredictionsSchema body = Some l ->
  (1 <= length l <= 50)%nat /\ NoDup (map sb_roundId l) /\ Forall (fun b => sb_roundId b <> "" /\ (0 < sb_amount b)%Q) l.
Proof.
  unfold batchSubmitPredictionsSchema. destruct (jsonField "predictions" body) as [[]|]; try done.
  destruct (mapM _ l0) as [ps|] eqn:Em; [|done]. destruct (_ && _) eqn:Ec; [|done]. intros [= ->].
  apply andb_prop in Ec as [[H1%Nat.leb_le H2%Nat.leb_le]%andb_prop Hnd%bool_decide_eq_true_1]. split_and!; [lia|lia|done|].
  apply mapM_Some_1 in Em. apply Forall_forall. intros b Hb. apply list_elem_of_lookup in Hb as (i & Hi).
  destruct (Forall2_lookup_r _ _ _ _ _ Em Hi) as (item & _ & Hitem). destruct item; try done.
  apply submitPredictionSchema_ok in Hitem as (? & ? & _). done.
Qed.

(** ** A prediction is submitted for the caller, at most once *)

Definition isSubmit (c : RouteCall) : bool := match c with SubmitCall _ _ _ => true | _ => false end.
Definition isSubmitted (c : RouteCall) : bool := match c with SubmitCall _ _ ok => ok | _ => false end.

Section Outcomes.
Context `{RouteServices} (responseOf : Prediction -> Err + Json).

(** The calls of a request and its answer. *)
Inductive submitOutcome (userId : string) (key : option string) (b : SubmitBody) : list RouteCall -> Answer -> Prop :=
| SubRefused calls e : (calls = [] \/ calls = acquisition userId SUBMIT_PREDICTION_ENDPOINT key (submitFields b)) ->
    submitOutcome userId key b calls (Next e)
| SubReplayed status cached : (exists calls r, acquireAnswer calls = inr r /\ ir_cachedResponse r = Some (status, cached)) ->
    submitOutcome userId key b (acquisition userId SUBMIT_PREDICTION_ENDPOINT key (submitFields b)) (Sent status cached)
| SubFailed e release : (release = [] \/ exists k, truthy key = Some k /\ release = [ReleaseCall userId SUBMIT_PREDICTION_ENDPOINT k]) ->
    submitOutcome userId key b
      (acquisition userId SUBMIT_PREDICTION_ENDPOINT key (submitFields b) ++ SubmitCall userId b false :: release) (Next e)
| SubSubmitted stored answer :
    (stored = [] \/ exists k response, truthy key = Some k /\
       stored = [StoreCall userId SUBMIT_PREDICTION_ENDPOINT k (submitFields b) 200 response]) ->
    ((exists p response, responseOf p = inr response /\ answer = Sent 200 response) \/ exists e, answer = Next e) ->
    submitOutcome userId key b
      (acquisition userId SUBMIT_PREDICTION_ENDPOINT key (submitFields b) ++ SubmitCall userId b true :: stored) answer.

Lemma failure_calls userId key err w : stillReleasable w = false ->
  exists e, handleFailure userId SUBMIT_PREDICTION_ENDPOINT key stillReleasable err w = (inr (Next e), w).
Proof.
  intros Hr. destruct (handleFailure_outcome userId SUBMIT_PREDICTION_ENDPOINT key stillReleasable err w) as (e & rel & -> & [->|[Ht _]]); [|congruence].
  exists e. destruct w. cbn. by rewrite app_nil_r.
Qed.

Lemma submitHandler_outcome userId key b : exists answer w,
  submitHandler responseOf userId key b newRouteWorld = (inr answer, w) /\ submitOutcome userId key b (rw_calls w) answer.
Proof.
  unfold submitHandler, catch, submission. set (acquired := acquisition userId SUBMIT_PREDICTION_ENDPOINT key (submitFields b)).
  destruct (acquireKey_outcome userId SUBMIT_PREDICTION_ENDPOINT key (submitFields b))
    as [(e & w & E & Hkey & Hcalls & Hl)|[(e & E & Hkey)|[(st & c & a & E & Hkey & Ha & Hc)|(locked & E & Hlocked)]]]; fold acquired in E.
  - unfold bind at 1. rewrite E. destruct (failure_calls userId key (Thrown e) w) as [e' ->]; [unfold stillReleasable; by rewrite Hl|].
    eexists _, _. split; [reflexivity|]. by apply SubRefused.
  - unfold bind at 1. rewrite E. destruct (failure_calls userId key e (mkRouteWorld acquired false false)) as [e' ->]; [done|].
    eexists _, _. split; [reflexivity|]. by apply SubRefused; right.
  - rewrite (bind_ok _ _ _ _ _ E). eexists _, _. split; [reflexivity|]. apply SubReplayed. eauto.
  - rewrite (bind_ok _ _ _ _ _ E). clear E.
    assert (Er : called submitAnswer (SubmitCall userId b) (mkRouteWorld acquired locked false) =
      (submitAnswer acquired, mkRouteWorld (acquired ++ [SubmitCall userId b (returned (submitAnswer acquired))]) locked false)) by done.
    destruct (submitAnswer acquired) as [e|p].
    + unfold bind at 1. rewrite Er. cbn [returned].
      destruct (handleFailure_outcome userId SUBMIT_PREDICTION_ENDPOINT key stillReleasable e
        (mkRouteWorld (acquired ++ [SubmitCall userId b false]) locked false)) as (e' & rel & -> & Hrel).
      eexists _, _. split; [reflexivity|]. cbn. rewrite <- app_assoc. apply SubFailed.
      destruct Hrel as [->|(_ & k & ? & ->)]; [by left|right; by exists k].
    + rewrite (bind_ok _ _ _ _ _ Er). set (w1 := mkRouteWorld (acquired ++ [SubmitCall userId b true]) locked true).
      assert (Hw1 : stillReleasable w1 = false) by (unfold stillReleasable; cbn; apply andb_false_r).
      assert (Em : forall k : unit -> Route Answer, bind (modify (fun w : RouteWorld => w {{ rw_operationCompleted := true }})) k
          (mkRouteWorld (acquired ++ [SubmitCall userId b (returned (inr (A := RouteErr) p))]) locked false) = k tt w1) by done.
      rewrite Em.
      destruct (responseOf p) as [e|response] eqn:Ep.
      * destruct (failure_calls userId key (Thrown e) w1 Hw1) as [e' E']. unfold throw. rewrite E'.
        eexists _, _. split; [reflexivity|]. apply SubSubmitted; [by left|right; by exists e'].
      * destruct (storeKey_outcome userId SUBMIT_PREDICTION_ENDPOINT key (submitFields b) response (acquired ++ [SubmitCall userId b true]) locked true)
          as (stored & r & Es & Hst & Hr).
        assert (Hstored : stored = [] \/ exists k response, truthy key = Some k /\
            stored = [StoreCall userId SUBMIT_PREDICTION_ENDPOINT k (submitFields b) 200 response])
          by (destruct Hst as [->|(k & ? & _ & ->)]; [by left|right; by exists k, response]).
        unfold bind at 1, w1. rewrite Es. destruct r as [e|[]].
        -- destruct (failure_calls userId key e (mkRouteWorld ((acquired ++ [SubmitCall userId b true]) ++ stored) locked true)) as [e' ->];
             [unfold stillReleasable; cbn; apply andb_false_r|].
           eexists _, _. split; [reflexivity|]. cbn. rewrite <- app_assoc. apply SubSubmitted; [done|right; by exists e'].
        -- eexists _, _. split; [reflexivity|]. cbn. rewrite <- app_assoc. apply SubSubmitted; [done|left; by exists p, response].
Qed.
End Outcomes.

Section Requests.
Context `{RouteServices} (responseOf : Prediction -> Err + Json).
Context (verifyToken : string -> option JwtPayload) (findUser : string -> Err + option JwtPayload).
Context (limited : option Json) (zodMessage : Fields -> string).

Lemma submitOutcome_calls userId key b calls answer : submitOutcome responseOf userId key b calls answer ->
  (length (List.filter isSubmit calls) <= 1)%nat /\
  (forall u p ok, SubmitCall u p ok ∈ calls -> u = userId /\ p = b) /\
  (forall u e k, ReleaseCall u e k ∈ calls -> existsb isSubmitted calls = false) /\
  (forall u e k f status r, StoreCall u e k f status r ∈ calls -> status = 200 /\ existsb isSubmitted calls = true) /\
  (forall body, answer = Sent 200 body -> existsb isSubmitted calls = true \/
     exists calls r, acquireAnswer calls = inr r /\ ir_cachedResponse r = Some (200, body)).
Proof.
  assert (Hacq : List.filter isSubmit (acquisition userId SUBMIT_PREDICTION_ENDPOINT key (submitFields b)) = [] /\
    existsb isSubmitted (acquisition userId SUBMIT_PREDICTION_ENDPOINT key (submitFields b)) = false)
    by (unfold acquisition; by destruct (truthy key)).
  destruct Hacq as [Hf He]. intros Hout.
  destruct Hout as [calls e Hcalls|status cached Ha|e release Hrel|stored answer Hst Ha].
  - assert (Hc : List.filter isSubmit calls = [] /\ forall c, c ∈ calls -> exists k, c = AcquireCall userId SUBMIT_PREDICTION_ENDPOINT k (submitFields b)).
    { destruct Hcalls as [->| ->]; (split; [done|]); [by intros ? ?%not_elem_of_nil|apply acquisition_elem]. }
    destruct Hc as [-> Hc]. split_and!; [cbn; lia|by intros * [? ?]%Hc..|done].
  - rewrite Hf. split_and!; [cbn; lia|by intros * [? ?]%acquisition_elem..|]. intros body [= -> ->]. by right.
  - rewrite List.filter_app, existsb_app, Hf, He. cbn [List.filter isSubmit existsb isSubmitted orb app].
    assert (Hr : List.filter isSubmit release = [] /\ existsb isSubmitted release = false /\ forall c, c ∈ release -> exists u e k, c = ReleaseCall u e k).
    { destruct Hrel as [->|(k & _ & ->)]; (split_and!; [done..|]); [by intros ? ?%not_elem_of_nil|intros ? ->%list_elem_of_singleton; eauto]. }
    destruct Hr as (-> & -> & Hr). split_and!; [done| |done| |done].
    + intros * [[? ?]%acquisition_elem|[E|(? & ? & ? & ?)%Hr]%elem_of_cons]%elem_of_app; [done| |done]. by injection E as -> -> _.
    + intros * [[? ?]%acquisition_elem|[E|(? & ? & ? & ?)%Hr]%elem_of_cons]%elem_of_app; done.
  - rewrite List.filter_app, existsb_app, Hf, He. cbn [List.filter isSubmit existsb isSubmitted orb app].
    assert (Hs : List.filter isSubmit stored = [] /\ forall c, c ∈ stored -> exists k r, c = StoreCall userId SUBMIT_PREDICTION_ENDPOINT k (submitFields b) 200 r).
    { destruct Hst as [->|(k & r & _ & ->)]; (split; [done|]); [by intros ? ?%not_elem_of_nil|intros ? ->%list_elem_of_singleton; eauto]. }
    destruct Hs as [-> Hs]. split_and!; [done| | | |by left].
    + intros * [[? ?]%acquisition_elem|[E|(? & ? & ?)%Hs]%elem_of_cons]%elem_of_app; [done| |done]. by injection E as -> -> _.
    + intros * [[? ?]%acquisition_elem|[E|(? & ? & ?)%Hs]%elem_of_cons]%elem_of_app; done.
    + intros * [[? ?]%acquisition_elem|[E|(? & ? & E)%Hs]%elem_of_cons]%elem_of_app; try done. by injection E.
Qed.

(** What holds of the calls and the answer of every request. *)
Definition submitCallsOk (req : HttpRequest) (calls : list RouteCall) (answer : Answer) : Prop :=
  (length (List.filter isSubmit calls) <= 1)%nat /\
  (forall u b ok, SubmitCall u b ok ∈ calls ->
     (exists token p user, bearer (hr_authorization req) = Some token /\ verifyToken token = Some p /\
        findUser (jp_userId p) = inr (Some user) /\ u = jp_userId user) /\
     sb_roundId b <> "" /\ (0 < sb_amount b)%Q /\ (truthy (sb_side b) <> None \/ sb_priceRange b <> None)) /\
  (forall u e k, ReleaseCall u e k ∈ calls -> existsb isSubmitted calls = false) /\
  (forall u e k f status r, StoreCall u e k f status r ∈ calls -> status = 200 /\ existsb isSubmitted calls = true) /\
  (forall body, answer = Sent 200 body -> existsb isSubmitted calls = true \/
     exists calls r, acquireAnswer calls = inr r /\ ir_cachedResponse r = Some (200, body)).

(** Whatever the services answer, a request to submit a prediction always gets
    an answer and submits at most one prediction: for the user whose token it
    presents and whose row the guard has found, with an amount above zero and a
    side or a range. The lock of its key is given back only if nothing was
    submitted, a response is stored only for a submission, and 200 is answered
    only for one or from what was stored before. *)
Theorem prediction_route_safe req : exists answer w,
  postSubmit responseOf verifyToken findUser limited zodMessage req newRouteWorld = (inr answer, w) /\
  submitCallsOk req (rw_calls w) answer.
Proof.
  assert (Hnone : forall answer, (forall body, answer <> Sent 200 body) -> submitCallsOk req (rw_calls newRouteWorld) answer).
  { intros answer Ha. unfold submitCallsOk. cbn. split_and!; [lia|by intros * ?%not_elem_of_nil..|]. intros body E. by apply Ha in E. }
  unfold postSubmit. destruct (authenticateUser verifyToken findUser (hr_authorization req)) as [a|user] eqn:Eauth.
  { exists a, newRouteWorld. split; [done|]. apply Hnone. intros body ->. revert Eauth. unfold authenticateUser, requireRole.
    repeat (case_match; try discriminate). }
  destruct limited as [tooMany|]; [eexists _, _; split; [reflexivity|]; by apply Hnone|].
  destruct (submitPredictionSchema (default [] (hr_body req))) as [b|] eqn:Eb; [|eexists _, _; split; [reflexivity|]; by apply Hnone].
  destruct (submitHandler_outcome responseOf (jp_userId user) (hr_idempotencyKey req) b) as (answer & w & E & Hout).
  exists answer, w. split; [exact E|]. destruct (submitOutcome_calls _ _ _ _ _ Hout) as (H1 & H2 & H3 & H4 & H5).
  unfold submitCallsOk. split_and!; try done. intros u p ok Hin. destruct (H2 u p ok Hin) as [-> ->]. apply requireRole_allowed in Eauth as (token & q & Ht & Hv & Hf & _).
  split; [by exists token, q, user|]. destruct (submitPredictionSchema_ok _ _ Eb) as (? & ? & ? & _). done.
Qed.
End Requests.
