(* ===== verification/TournamentRoutes.v ===== *)
(** * Tournament requests (src/src/routes/tournaments.routes.ts,
    src/src/schemas/tournament.schema.ts, the listings of
    src/src/services/tournament.service.ts)

    The listing from the seed or the database, and the handlers behind their
    guards, on the operations of [Tournament]. *)

From Stdlib Require Import ZArith QArith Lia.
From stdpp Require Import base option list gmap strings.
From S2P Require Import Prelude.
From S2P Require Import Numeric.
From S2P Require Import Errors.
From S2P Require Import Schema.
From S2P Require Import Store.
From S2P Require Import Challenge.
From S2P Require Import Pagination.
From S2P Require Import Tournament.
From S2P Require Import BetRoutes.
From S2P Require Import Serializers.
From S2P Require Import UserHistory.

#[local] Open Scope string_scope.
#[local] Open Scope Z_scope.

(** ** The listing *)

Record TournamentListItem : Type := mkListItem {
  li_id : string;
  li_name : string;
  li_description : string;
  li_mode : GameMode;
  li_status : TournamentStatus;
  li_entryFee : string;
  li_prizePool : string;
  li_maxParticipants : Z;
  li_currentParticipants : Z;
  li_startTime : string;
  li_endTime : string;
  li_rounds : Z;
  li_createdAt : string;
}.

Definition MOCK_TOURNAMENTS : list TournamentListItem :=
  [ mkListItem "t-001" "XLM Prediction Championship"
      "Compete against the best predictors in a multi-round UP/DOWN tournament."
      UP_DOWN T_ACTIVE "50" "5000" 100 67 "2026-06-25T10:00:00Z" "2026-06-28T10:00:00Z" 10 "2026-06-20T12:00:00Z";
    mkListItem "t-002" "Legends Weekly Showdown"
      "Range-based prediction tournament for experienced players. Weekly prizes."
      LEGENDS T_UPCOMING "100" "10000" 50 12 "2026-07-01T00:00:00Z" "2026-07-07T23:59:59Z" 20 "2026-06-22T08:00:00Z";
    mkListItem "t-003" "Beginner Friendly Cup"
      "Low entry fee tournament perfect for newcomers. Learn and earn!"
      UP_DOWN T_COMPLETED "10" "500" 200 143 "2026-06-18T00:00:00Z" "2026-06-20T23:59:59Z" 5 "2026-06-15T10:00:00Z" ].

Inductive TournamentListSource : Type := SourceMock | SourcePrisma.

(** [source] is TOURNAMENTS_SOURCE of the environment. *)
Definition resolveTournamentListSource (override : option TournamentListSource) (source : option string) : TournamentListSource :=
  match override with
  | Some s => s
  | None =>
      match toLowerCase <$> source with
      | Some "prisma" | Some "db" | Some "postgres" => SourcePrisma
      | _ => SourceMock
      end
  end.

(** The filters of a query, after its schema. *)
Record TournamentListQuery : Type := mkListQuery {
  lq_limit : nat;
  lq_offset : nat;
  lq_mode : option GameMode;
  lq_status : option TournamentStatus;
}.

Definition fits (mode : option GameMode) (status : option TournamentStatus) (m : GameMode) (s : TournamentStatus) : bool :=
  match mode with Some x => bool_decide (m = x) | None => true end &&
  match status with Some x => bool_decide (s = x) | None => true end.

Definition filterTournaments (items : list TournamentListItem) (mode : option GameMode) (status : option TournamentStatus)
    : list TournamentListItem :=
  let filtered := match mode with Some m => List.filter (fun t => bool_decide (li_mode t = m)) items | None => items end in
  match status with Some s => List.filter (fun t => bool_decide (li_status t = s)) filtered | None => filtered end.

Definition parseMode (s : string) : option GameMode :=
  match s with "UP_DOWN" => Some UP_DOWN | "LEGENDS" => Some LEGENDS | _ => None end.

Definition parseStatus (s : string) : option TournamentStatus :=
  match s with
  | "UPCOMING" => Some T_UPCOMING | "ACTIVE" => Some T_ACTIVE
  | "COMPLETED" => Some T_COMPLETED | "CANCELLED" => Some T_CANCELLED | _ => None
  end.

(** [z.enum(...).optional()]; [None] when the parameter is refused. *)
Definition optionalEnum {A} (parse : string -> option A) (v : option string) : option (option A) :=
  match v with None => Some None | Some s => Some <$> parse s end.

Definition tournamentListQuerySchema `{JsDates} (limit offset mode status : option string) : option TournamentListQuery :=
  match unifiedPagination limit offset None, optionalEnum parseMode mode, optionalEnum parseStatus status with
  | Some (l, o, _), Some m, Some s => Some (mkListQuery l o m s)
  | _, _, _ => None
  end.

Section Listing.
Context `{JsDates} `{DecimalJs} `{MoneyText}.

Definition mapPrismaTournament (row : Tournament) : TournamentListItem :=
  mkListItem (t_id row) (t_name row) (t_description row) (t_mode row) (t_status row)
    (serializeMoney (Some (unitQ (t_entryFee row)))) (serializeMoney (Some (unitQ (t_prizePool row))))
    (t_maxParticipants row) (t_currentParticipants row) (isoDate (t_startTime row)) (isoDate (t_endTime row))
    (t_rounds row) (isoDate (t_createdAt row)).

(** The item as an object, and [serializeTournament] of it. *)
Definition itemValue (i : TournamentListItem) : Value :=
  VObject [("id", VText (li_id i)); ("name", VText (li_name i)); ("description", VText (li_description i));
           ("mode", VText (GameMode_str (li_mode i))); ("status", VText (TournamentStatus_str (li_status i)));
           ("entryFee", VText (li_entryFee i)); ("prizePool", VText (li_prizePool i));
           ("maxParticipants", VNumber (Fin (inject_Z (li_maxParticipants i))));
           ("currentParticipants", VNumber (Fin (inject_Z (li_currentParticipants i))));
           ("startTime", VText (li_startTime i)); ("endTime", VText (li_endTime i));
           ("rounds", VNumber (Fin (inject_Z (li_rounds i)))); ("createdAt", VText (li_createdAt i))].

Definition TournamentPage : Type := (list Value * (nat * nat * nat))%type.

(** [None]: the serializer throws. *)
Definition listFromMock (q : TournamentListQuery) : option TournamentPage :=
  let filtered := filterTournaments MOCK_TOURNAMENTS (lq_mode q) (lq_status q) in
  (fun page => buildOffsetPage page (lq_limit q) (lq_offset q) (length filtered)) <$>
    mapM (fun i => serializeTournament (itemValue i)) (take (lq_limit q) (drop (lq_offset q) filtered)).

Definition startsLater (a b : Tournament) : bool := t_startTime a <? t_startTime b.

Definition listFromPrisma (q : TournamentListQuery) (d : DB) : TournamentPage :=
  let matching := rowsWhere (fun t : Tournament => fits (lq_mode q) (lq_status q) (t_mode t) (t_status t)) d in
  buildOffsetPage (map (fun t => itemValue (mapPrismaTournament t)) (take (lq_limit q) (drop (lq_offset q) (sortBy startsLater matching))))
    (lq_limit q) (lq_offset q) (length matching).

Definition getMockById (id : string) : option (option Value) :=
  match List.find (fun t => String.eqb (li_id t) id) MOCK_TOURNAMENTS with
  | Some item => Some (serializeTournament (itemValue item))
  | None => None
  end.
End Listing.

(** ** The handlers *)

Inductive TournamentCall : Type :=
| ListTournaments (limit offset mode status : option string)
| CreateTournament (input : CreateTournamentInput)
| TournamentDetail (id : string)
| LockTournament (id : string)
| SettleTournament (id : string)
| CancelTournament (id : string)
| JoinTournament (id : string).

Inductive TournamentAnswer : Type :=
| TARefused (a : Answer)
| TAInvalid
| TAFailed (e : Err)
| TASerializerThrew
| TAPage (page : TournamentPage)
| TADetail (v : Value)
| TAUnknown
| TACreated (t : Tournament)
| TAMoved (id : string)
| TASettled (r : TournamentPayoutResult)
| TAJoined (tournamentId : string) (currentParticipants : Z).

Section Routes.
Context `{Env} `{JsDates} `{DecimalJs} `{PgNumeric} `{MoneyText}.
Context (verifyToken : string -> option JwtPayload) (findUser : string -> Err + option JwtPayload) (source : option string).

Definition answering {A} (op : Svc A) (f : A -> TournamentAnswer) (w : World) : TournamentAnswer * World :=
  match op w with
  | (inr a, w') => (f a, w')
  | (inl e, w') => (TAFailed e, w')
  end.

(** Behind [authenticateUser]. *)
Definition asUser {A} (authorization : option string) (op : JwtPayload -> Svc A) (f : A -> TournamentAnswer) (w : World)
    : TournamentAnswer * World :=
  match authenticateUser verifyToken findUser authorization with
  | inl a => (TARefused a, w)
  | inr user => answering (op user) f w
  end.

Definition serveTournaments (authorization : option string) (call : TournamentCall) (w : World) : TournamentAnswer * World :=
  match call with
  | ListTournaments limit offset mode status =>
      (match tournamentListQuerySchema limit offset mode status with
       | None => TAInvalid
       | Some q =>
           match resolveTournamentListSource None source with
           | SourcePrisma => TAPage (listFromPrisma q (w_db w))
           | SourceMock => match listFromMock q with Some p => TAPage p | None => TASerializerThrew end
           end
       end, w)
  | TournamentDetail id =>
      (match getMockById id with
       | None => TAUnknown
       | Some None => TASerializerThrew
       | Some (Some v) => TADetail v
       end, w)
  | CreateTournament input => asUser authorization (fun _ => createTournament input) TACreated w
  | LockTournament id => asUser authorization (fun _ => lockTournament id) TAMoved w
  | SettleTournament id => asUser authorization (fun _ => settleTournament id) TASettled w
  | CancelTournament id => asUser authorization (fun _ => cancelTournament id) TAMoved w
  | JoinTournament id => asUser authorization (fun user => joinTournament (jp_userId user) id) (TAJoined id) w
  end.

Definition isRead (call : TournamentCall) : bool :=
  match call with ListTournaments _ _ _ _ | TournamentDetail _ => true | _ => false end.

(** Reads change nothing and need no token. Writes need the token of a user; a
    join enters that user and nobody else. Creating, locking, settling and
    cancelling are the same for every user, whatever the role: no request is
    reserved to those who run the tournaments. *)
Theorem tournament_routes_guarded authorization call w :
  w_base w = None ->
  (isRead call = true -> snd (serveTournaments authorization call w) = w) /\
  (isRead call = false -> forall a, authenticateUser verifyToken findUser authorization = inl a ->
     serveTournaments authorization call w = (TARefused a, w)) /\
  (forall id n w' user, authenticateUser verifyToken findUser authorization = inr user ->
     call = JoinTournament id -> serveTournaments authorization call w = (TAJoined id n, w') ->
     exists t p, joins (jp_userId user) id t p (w_db w) /\ tp_userId p = jp_userId user /\ w_db w' = joined id t p (w_db w)) /\
  (forall authorization' user user', (forall id, call <> JoinTournament id) ->
     authenticateUser verifyToken findUser authorization = inr user ->
     authenticateUser verifyToken findUser authorization' = inr user' ->
     serveTournaments authorization call w = serveTournaments authorization' call w).
Proof.
  intros Hb. split_and!.
  - by destruct call.
  - intros Hw a Ha. destruct call; try discriminate Hw; cbn [serveTournaments]; unfold asUser; by rewrite Ha.
  - intros id n w' user Hu ->. cbn [serveTournaments]. unfold asUser. rewrite Hu. unfold answering.
    destruct (joinTournament (jp_userId user) id w) as [[e|m] w1] eqn:E; [done|]. intros [= <- <-].
    destruct (proj1 (joinTournament_spec (jp_userId user) id w Hb) m w1 E) as (t & p & J & _ & Hd).
    exists t, p. split; [exact J|]. split; [exact (proj2 (jn_row _ _ _ _ _ J))|exact Hd].
  - intros authorization' user user' Hj Hu Hu'.
    destruct call; cbn [serveTournaments]; unfold asUser; rewrite ?Hu, ?Hu'; try done. by destruct (Hj id).
Qed.
End Routes.

(** ** Pages *)

Lemma filterTournaments_fits items mode status :
  filterTournaments items mode status = List.filter (fun t => fits mode status (li_mode t) (li_status t)) items.
Proof.
  unfold filterTournaments, fits. destruct mode as [m|], status as [s|].
  - induction items as [|t items IH]; cbn; [done|]. destruct (bool_decide (li_mode t = m)); cbn; [|exact IH].
    destruct (bool_decide (li_status t = s)); cbn; by rewrite IH.
  - apply filter_ext. intros t. by rewrite andb_true_r.
  - by apply filter_ext.
  - symmetry. apply List.forallb_filter_id. by apply forallb_forall.
Qed.

(** Reading page after page gives the tournaments of the database that fit the
    filters, each once, the latest start first. *)
Theorem tournament_pages `{JsDates} `{DecimalJs} limit mode status d k :
  (0 < limit)%nat ->
  let matching := rowsWhere (fun t : Tournament => fits mode status (t_mode t) (t_status t)) d in
  let page i := listFromPrisma (mkListQuery limit (i * limit) mode status) d in
  concat (map (fun i => fst (page i)) (seq 0 k)) =
    take (k * limit) (map (fun t => itemValue (mapPrismaTournament t)) (sortBy startsLater matching)) /\
  (forall i, snd (page i) = (limit, (i * limit)%nat, length matching)) /\
  (length matching <= k * limit -> take (k * limit) (map (fun t => itemValue (mapPrismaTournament t)) (sortBy startsLater matching)) =
    map (fun t => itemValue (mapPrismaTournament t)) (sortBy startsLater matching))%nat /\
  Permutation (sortBy startsLater matching) matching.
Proof.
  intros Hl matching page.
  assert (Hperm : Permutation (sortBy startsLater matching) matching) by apply sortBy_Permutation.
  split_and!; [|done| |exact Hperm].
  - unfold page, listFromPrisma. cbn [fst lq_limit lq_offset lq_mode lq_status buildOffsetPage]. fold matching.
    set (l := sortBy startsLater matching). clearbody l. induction k as [|k IH]; [done|].
    rewrite seq_S, map_app, concat_app, IH. cbn [map concat Nat.add]. rewrite app_nil_r, <- !fmap_take.
    replace (S k * limit)%nat with (k * limit + limit)%nat by lia.
    change (map ?f ?x) with (f <$> x). rewrite <- fmap_app. f_equal. by rewrite <- take_take_drop.
  - intros Hk. apply take_ge. rewrite length_map. by rewrite (Permutation_length Hperm).
Qed.
