(* ===== verification/ErrorResponses.v ===== *)
(** * Errors as answers (src/src/middleware/errorHandler.middleware.ts,
    errorHandler.ts, notFound.ts, validate.middleware.ts, the catalog of
    src/src/utils/errors.ts)

    Whatever a handler throws is a value of [Thrown]; [errorHandler] turns it
    into the answer of the full application, [demoErrorHandler] into that of the
    demo. [validate] is the check of a part of the request against a schema. *)

From Stdlib Require Import ZArith Lia.
From stdpp Require Import base option list strings pretty.
From S2P Require Import Prelude.
From S2P Require Import Errors.
From S2P Require Import CircuitBreaker.

#[local] Open Scope string_scope.
#[local] Open Scope Z_scope.

(** ** Codes and the catalog *)

Inductive ErrorCode : Type :=
| EC_VALIDATION_ERROR | EC_AUTHENTICATION_ERROR | EC_AUTHORIZATION_ERROR | EC_NOT_FOUND | EC_CONFLICT
| EC_BUSINESS_RULE_VIOLATION | EC_EXTERNAL_SERVICE_ERROR | EC_CONFIGURATION_ERROR | EC_INTERNAL_SERVER_ERROR
| EC_INVALID_CHALLENGE | EC_CHALLENGE_EXPIRED | EC_CHALLENGE_USED | EC_INVALID_SIGNATURE | EC_INSUFFICIENT_FUNDS
| EC_ROUND_NOT_ACTIVE | EC_ROUND_LOCKED | EC_ROUND_ALREADY_RESOLVED | EC_DUPLICATE_PREDICTION
| EC_ACTIVE_ROUND_EXISTS | EC_IDEMPOTENCY_KEY_CONFLICT | EC_CONTRACT_INVALID_STATE | EC_TOURNAMENT_INVALID_STATE.

#[export] Instance ErrorCode_eq_dec : EqDecision ErrorCode.
Proof. solve_decision. Defined.

Definition codeText (c : ErrorCode) : string :=
  match c with
  | EC_VALIDATION_ERROR => "VALIDATION_ERROR"
  | EC_AUTHENTICATION_ERROR => AUTHENTICATION_ERROR
  | EC_AUTHORIZATION_ERROR => "AUTHORIZATION_ERROR"
  | EC_NOT_FOUND => NOT_FOUND
  | EC_CONFLICT => CONFLICT
  | EC_BUSINESS_RULE_VIOLATION => BUSINESS_RULE_VIOLATION
  | EC_EXTERNAL_SERVICE_ERROR => EXTERNAL_SERVICE_ERROR
  | EC_CONFIGURATION_ERROR => "CONFIGURATION_ERROR"
  | EC_INTERNAL_SERVER_ERROR => "INTERNAL_SERVER_ERROR"
  | EC_INVALID_CHALLENGE => INVALID_CHALLENGE
  | EC_CHALLENGE_EXPIRED => CHALLENGE_EXPIRED
  | EC_CHALLENGE_USED => CHALLENGE_USED
  | EC_INVALID_SIGNATURE => INVALID_SIGNATURE
  | EC_INSUFFICIENT_FUNDS => INSUFFICIENT_FUNDS
  | EC_ROUND_NOT_ACTIVE => ROUND_NOT_ACTIVE
  | EC_ROUND_LOCKED => "ROUND_LOCKED"
  | EC_ROUND_ALREADY_RESOLVED => "ROUND_ALREADY_RESOLVED"
  | EC_DUPLICATE_PREDICTION => DUPLICATE_PREDICTION
  | EC_ACTIVE_ROUND_EXISTS => ACTIVE_ROUND_EXISTS
  | EC_IDEMPOTENCY_KEY_CONFLICT => IDEMPOTENCY_KEY_CONFLICT
  | EC_CONTRACT_INVALID_STATE => CONTRACT_INVALID_STATE
  | EC_TOURNAMENT_INVALID_STATE => TOURNAMENT_INVALID_STATE
  end.

Record ErrorCatalogEntry : Type := mkEntry {
  ec_code : ErrorCode;
  ec_status : Z;
  ec_errorClass : string;
  ec_description : string;
}.

Definition ERROR_CATALOG : list ErrorCatalogEntry :=
  [ mkEntry EC_VALIDATION_ERROR 400 "ValidationError"
      ("Request body, query string, or path params failed schema validation. " +:+
       "Fix the offending fields described in `error.details`.");
    mkEntry EC_AUTHENTICATION_ERROR 401 "AuthenticationError"
      ("Missing, malformed, or invalid credentials. Acquire a fresh JWT via " +:+
       "the wallet challenge → connect flow and retry.");
    mkEntry EC_AUTHORIZATION_ERROR 403 "AuthorizationError"
      ("Authenticated, but not permitted for this resource or action.");
    mkEntry EC_NOT_FOUND 404 "NotFoundError"
      ("The requested resource does not exist.");
    mkEntry EC_CONFLICT 409 "ConflictError"
      ("The request conflicts with current server state. Re-read the resource " +:+
       "and retry.");
    mkEntry EC_BUSINESS_RULE_VIOLATION 422 "BusinessRuleError"
      ("Request was well-formed but violated a domain rule (e.g. round closed, " +:+
       "duplicate prediction).");
    mkEntry EC_EXTERNAL_SERVICE_ERROR 503 "ExternalServiceError"
      ("Upstream dependency (database, Soroban RPC, oracle) is unavailable or " +:+
       "returned an unexpected error. Retry with backoff.");
    mkEntry EC_CONFIGURATION_ERROR 500 "ConfigurationError"
      ("Server misconfiguration detected at runtime. Operators must intervene; " +:+
       "client retry will not help.");
    mkEntry EC_INTERNAL_SERVER_ERROR 500 "AppError"
      ("Unexpected server error. Retry; if it persists, include the response's " +:+
       "`requestId` when filing a bug.");
    mkEntry EC_INVALID_CHALLENGE 401 "AuthenticationError"
      ("The signed challenge does not match any known issued challenge. Restart " +:+
       "the wallet sign-in from the challenge endpoint.");
    mkEntry EC_CHALLENGE_EXPIRED 401 "AuthenticationError"
      ("Challenge TTL has elapsed. Request a new challenge and sign it again.");
    mkEntry EC_CHALLENGE_USED 401 "AuthenticationError"
      ("Challenge has already been consumed (challenges are one-shot). Request " +:+
       "a fresh one.");
    mkEntry EC_INVALID_SIGNATURE 401 "AuthenticationError"
      ("Signature does not verify against the supplied wallet address and " +:+
       "challenge payload.");
    mkEntry EC_INSUFFICIENT_FUNDS 422 "BusinessRuleError"
      ("Wallet does not have the required balance for the requested operation.");
    mkEntry EC_ROUND_NOT_ACTIVE 422 "BusinessRuleError"
      ("Target round is not in ACTIVE status and cannot accept this action.");
    mkEntry EC_ROUND_LOCKED 422 "BusinessRuleError"
      ("Round has been locked ahead of resolution; predictions are no longer accepted.");
    mkEntry EC_ROUND_ALREADY_RESOLVED 409 "ConflictError"
      ("Round has already been resolved and its outcome is final.");
    mkEntry EC_DUPLICATE_PREDICTION 409 "ConflictError"
      ("User already has a prediction for this round.");
    mkEntry EC_ACTIVE_ROUND_EXISTS 409 "ConflictError"
      ("An active round of the requested mode already exists; start cannot proceed.");
    mkEntry EC_IDEMPOTENCY_KEY_CONFLICT 409 "ConflictError"
      ("The Idempotency-Key was already used for a different request payload. " +:+
       "Retry the original payload or generate a new key.");
    mkEntry EC_CONTRACT_INVALID_STATE 422 "BusinessRuleError"
      ("Contract operation rejected due to invalid state on the blockchain.");
    mkEntry EC_TOURNAMENT_INVALID_STATE 409 "TournamentInvalidStateError"
      ("Tournament lifecycle request made out of order (e.g. locking a tournament " +:+
       "that is not UPCOMING, or settling one that never locked).") ].

Definition entryOf (code : string) : option ErrorCatalogEntry :=
  List.find (fun e => String.eqb (codeText (ec_code e)) code) ERROR_CATALOG.

(** The name of a class. *)
Definition className (c : ErrClass) : string :=
  match c with
  | ClsError => "Error"
  | ClsPrisma => "PrismaClientKnownRequestError"
  | ClsValidation => "ValidationError"
  | ClsAuthentication => "AuthenticationError"
  | ClsAuthorization => "AuthorizationError"
  | ClsNotFound => "NotFoundError"
  | ClsConflict => "ConflictError"
  | ClsTournamentInvalidState => "TournamentInvalidStateError"
  | ClsIllegalRoundTransition => "IllegalRoundTransitionError"
  | ClsBusinessRule => "BusinessRuleError"
  | ClsExternalService => "ExternalServiceError"
  | ClsBackpressure => "BackpressureError"
  | ClsConfiguration => "ConfigurationError"
  | ClsCircuitBreakerOpen => "CircuitBreakerOpenError"
  end.

(** ** What is thrown *)

Record ErrorDetail : Type := mkDetail { ed_field : string; ed_message : string }.

Record AppError : Type := mkAppError {
  ap_name : string;
  ap_message : string;
  ap_statusCode : Z;
  ap_code : string;
  ap_details : option (list ErrorDetail);
}.

(** [new AppError(...)], and an instance of one of its subclasses. *)
Definition appError (message : string) (statusCode : Z) (code : ErrorCode) : AppError :=
  mkAppError "AppError" message statusCode (codeText code) None.
Definition ofClass (e : Err) (details : option (list ErrorDetail)) : AppError :=
  mkAppError (className (err_class e)) (err_message e) (err_status e) (err_code e) details.

(** The properties of an object the handlers look at, when they are there and
    of the type of the property. *)
Record Loose : Type := mkLoose {
  lo_name : option string;
  lo_message : option string;
  lo_statusCode : option Z;
  lo_status : option Z;
  lo_type : option string;
  lo_code : option string;
  lo_details : option (list ErrorDetail);
}.

Inductive Thrown : Type :=
| TBackpressure (message : string) (retryAfterSeconds : Z)
| TBreakerOpen (name : string) (nextAttemptAt : Z)
| TApp (e : AppError)
| TPrismaKnown (code message : string) (cause : option string) (target : option (list string))
| TPrismaValidation (message : string)
| TError (syntax : bool) (e : Loose)
| TNotError (value : option Loose).

Definition retryOf (err : Thrown) : option Z := match err with TBackpressure _ s => Some s | _ => None end.

(** [err instanceof Error] *)
Definition isError (err : Thrown) : bool := match err with TNotError _ => false | _ => true end.

Definition looseOf (err : Thrown) : option Loose := match err with TError _ e => Some e | TNotError v => v | _ => None end.

(** ** The handler of the full application *)

Record ErrorResponse : Type := mkErrorResponse {
  er_error : string;
  er_message : string;
  er_code : string;
  er_path : string;
  er_requestId : option string;
  er_timestamp : Z;
  er_retryAfter : option Z;
  er_details : option (list ErrorDetail);
  er_stack : option string;
}.

(** An answer: status, the header Retry-After, body. *)
Record Answer (B : Type) : Type := mkAnswer { an_status : Z; an_retryAfter : option string; an_body : B }.
Arguments mkAnswer {B}.
Arguments an_status {B}.
Arguments an_retryAfter {B}.
Arguments an_body {B}.

Definition joined (sep : string) (l : list string) : string := String.concat sep l.

Definition fromPrismaError (code : string) (cause : option string) (target : option (list string)) : AppError :=
  if String.eqb code "P2025" then appError (default "Record not found" cause) 404 EC_NOT_FOUND
  else if String.eqb code "P2002" then
    appError ("Unique constraint failed on: " +:+ match target with Some fields => joined ", " fields | None => "field" end)
      409 EC_CONFLICT
  else if String.eqb code "P2003" then mkAppError "AppError" "Related record not found" 400 "FOREIGN_KEY_VIOLATION" None
  else appError "Database error" 500 EC_INTERNAL_SERVER_ERROR.

(** [Math.max(1, Math.ceil((nextAttemptAt - now) / 1000))] *)
Definition secondsUntil (nextAttemptAt now : Z) : Z := Z.max 1 (- ((now - nextAttemptAt) / 1000)).

Definition orText (s : option string) (fallback : string) : string :=
  match s with Some t => if String.eqb t "" then fallback else t | None => fallback end.

Definition isParseFailure (syntax : bool) (e : Loose) : bool :=
  syntax && bool_decide (lo_status e = Some 400) && bool_decide (lo_type e = Some "entity.parse.failed").

Definition isTooLarge (e : Loose) : bool :=
  bool_decide (lo_type e = Some "entity.too.large") || bool_decide (lo_status e = Some 413).

Definition PAYLOAD_TOO_LARGE : AppError := mkAppError "AppError" "Payload too large" 413 "PAYLOAD_TOO_LARGE" None.

(** The error an answer is made of, and the seconds after which to try again. *)
Definition toAppError (now : Z) (err : Thrown) : AppError * option Z :=
  match err with
  | TBackpressure message s => (ofClass (BackpressureError message s) None, Some s)
  | TBreakerOpen _ nextAttemptAt =>
      (appError "Contract service temporarily unavailable. Please retry shortly." 503 EC_EXTERNAL_SERVICE_ERROR,
       Some (secondsUntil nextAttemptAt now))
  | TApp e => (e, None)
  | TPrismaKnown code _ cause target => (fromPrismaError code cause target, None)
  | TPrismaValidation _ => (ofClass (ValidationError "Invalid database query parameters") None, None)
  | TError syntax e =>
      (if isParseFailure syntax e then ofClass (ValidationError "Malformed JSON body") None
       else if isTooLarge e then PAYLOAD_TOO_LARGE
       else appError (orText (lo_message e) "Internal Server Error") 500 EC_INTERNAL_SERVER_ERROR, None)
  | TNotError v =>
      (if match v with Some e => isTooLarge e | None => false end then PAYLOAD_TOO_LARGE
       else appError "Internal Server Error" 500 EC_INTERNAL_SERVER_ERROR, None)
  end.

Section Handler.
(** The stack an error carries. *)
Context (stackOf : Thrown -> string).

(** [originalUrl] and [requestId] are those of the request. *)
Definition errorHandler (isDev : bool) (now : Z) (originalUrl : string) (requestId : option string) (err : Thrown)
    : Answer ErrorResponse :=
  let '(e, retryAfterSeconds) := toAppError now err in
  {| an_status := ap_statusCode e;
     an_retryAfter := pretty <$> retryAfterSeconds;
     an_body :=
       {| er_error := orText (Some (ap_message e)) (ap_name e);
          er_message := ap_message e;
          er_code := ap_code e;
          er_path := originalUrl;
          er_requestId := requestId;
          er_timestamp := now;
          er_retryAfter := retryAfterSeconds;
          er_details := ap_details e;
          er_stack := if isDev && isError err then Some (stackOf err) else None |} |}.

End Handler.

(** ** The handlers of the demo *)

Record DemoError : Type := mkDemoError {
  de_error : string;
  de_message : string;
  de_code : option string;
  de_details : option (list ErrorDetail);
}.

(** The properties of what was thrown, [None] when reading one throws. *)
Definition anyOf (err : Thrown) : option Loose :=
  let app e := mkLoose (Some (ap_name e)) (Some (ap_message e)) (Some (ap_statusCode e)) None None (Some (ap_code e)) (ap_details e) in
  match err with
  | TBackpressure message s => Some (app (ofClass (BackpressureError message s) None))
  | TApp e => Some (app e)
  | TBreakerOpen name next =>
      Some (mkLoose (Some "CircuitBreakerOpenError") (Some (err_message (CircuitBreakerOpenError name next))) None None None None None)
  | TPrismaKnown code message _ _ => Some (mkLoose (Some "PrismaClientKnownRequestError") (Some message) None None None (Some code) None)
  | TPrismaValidation message => Some (mkLoose (Some "PrismaClientValidationError") (Some message) None None None None None)
  | TError _ e => Some e
  | TNotError v => v
  end.

Definition nonzero (z : option Z) : option Z := match z with Some 0 => None | _ => z end.

(** Node refuses to send other statuses. *)
Definition sendable (status : Z) : bool := (100 <=? status) && (status <=? 999).

Definition demoFallback : Answer DemoError :=
  mkAnswer 500 None (mkDemoError "InternalServerError" "An unexpected error occurred." None None).

Definition demoErrorHandler (err : Thrown) : Answer DemoError :=
  match anyOf err with
  | None => demoFallback
  | Some e =>
      let statusCode := match nonzero (lo_statusCode e) with
                        | Some s => s
                        | None => default 500 (nonzero (lo_status e))
                        end in
      if sendable statusCode then
        mkAnswer statusCode None
          {| de_error := orText (lo_name e) "InternalServerError";
             de_message := orText (lo_message e) "Internal Server Error";
             de_code := match truthy (lo_code e) with
                        | Some c => Some c
                        | None => if statusCode =? 500 then Some "INTERNAL_SERVER_ERROR" else None
                        end;
             de_details := lo_details e |}
      else demoFallback
  end.

(** [notFoundHandler]: the body is the pair of [error] and [path]. *)
Definition notFoundHandler (path : string) : Answer (string * string) := mkAnswer 404 None ("Not Found", path).

(** ** Validation of requests *)

Section Validate.
(** One issue of zod: the names of its path, when it has one, and its message. *)
Record Issue : Type := mkIssue { is_path : option (list string); is_message : option string }.

(** The JSON in the message of the error of zod, once parsed. *)
Inductive Parsed : Type := NotJson | NotArray | Issues (l : list Issue).

(** [schema.safeParse] *)
Context {V : Type} (safeParse : V -> Parsed + V).

Definition detailOf (i : Issue) : ErrorDetail :=
  mkDetail (orText (joined "." <$> is_path i) "unknown") (orText (is_message i) "Validation failed").

Definition validationError (details : list ErrorDetail) : AppError :=
  ofClass (ValidationError (orText (ed_message <$> head details) "Validation failed")) (Some details).

(** The error handed on, or the validated value that replaces the part. *)
Definition validate (source : V) : AppError + V :=
  match safeParse source with
  | inr data => inr data
  | inl NotJson => inl (validationError [detailOf (mkIssue (Some []) (Some "Invalid request format"))])
  | inl NotArray => inl (ofClass (ValidationError "Invalid request format") None)
  | inl (Issues l) => inl (validationError (map detailOf l))
  end.

End Validate.

(** ** The catalog is exact *)

Definition ERROR_CODES : list ErrorCode :=
  [EC_VALIDATION_ERROR; EC_AUTHENTICATION_ERROR; EC_AUTHORIZATION_ERROR; EC_NOT_FOUND; EC_CONFLICT;
   EC_BUSINESS_RULE_VIOLATION; EC_EXTERNAL_SERVICE_ERROR; EC_CONFIGURATION_ERROR; EC_INTERNAL_SERVER_ERROR;
   EC_INVALID_CHALLENGE; EC_CHALLENGE_EXPIRED; EC_CHALLENGE_USED; EC_INVALID_SIGNATURE; EC_INSUFFICIENT_FUNDS;
   EC_ROUND_NOT_ACTIVE; EC_ROUND_LOCKED; EC_ROUND_ALREADY_RESOLVED; EC_DUPLICATE_PREDICTION;
   EC_ACTIVE_ROUND_EXISTS; EC_IDEMPOTENCY_KEY_CONFLICT; EC_CONTRACT_INVALID_STATE; EC_TOURNAMENT_INVALID_STATE].

Lemma ERROR_CODES_complete c : c ∈ ERROR_CODES.
Proof. apply list_elem_of_In. destruct c; cbn; tauto. Qed.

Lemma codeText_inj c d : codeText c = codeText d -> c = d.
Proof. destruct c, d; (reflexivity || discriminate). Qed.

(** The catalog lists the codes in the order of the enumeration, each once. *)
Lemma ERROR_CATALOG_codes : map ec_code ERROR_CATALOG = ERROR_CODES.
Proof. reflexivity. Qed.

Lemma ERROR_CODES_NoDup : NoDup ERROR_CODES.
Proof. unfold ERROR_CODES. repeat constructor; rewrite list_elem_of_In; cbn; intuition discriminate. Qed.

Lemma entryOf_code c : exists e, entryOf (codeText c) = Some e /\ ec_code e = c.
Proof. destruct c; eexists; split; reflexivity. Qed.

(** The classes an entry names, with the status each of them sets. *)
Definition classStatuses : list (string * Z) :=
  map (fun e : Err => (className (err_class e), err_status e))
    [ValidationError ""; AuthenticationError "" ""; NotFoundError "" ""; ConflictError "" ""; BusinessRuleError "" "";
     ExternalServiceError "" ""; TournamentInvalidStateError "" ""; mkErr ClsAuthorization "" "" 403;
     mkErr ClsConfiguration "" "" 500].

Lemma ERROR_CATALOG_statuses :
  forallb (fun e => String.eqb (ec_errorClass e) "AppError" ||
    existsb (fun c => String.eqb (fst c) (ec_errorClass e) && (snd c =? ec_status e)) classStatuses) ERROR_CATALOG = true.
Proof. vm_compute. reflexivity. Qed.

(** ** Answers *)

Definition overloaded (err : Thrown) : bool := match err with TBackpressure _ _ | TBreakerOpen _ _ => true | _ => false end.

(** The statuses of the classes are statuses of errors. *)
Definition honest (err : Thrown) : Prop :=
  match err with TApp e => 400 <= ap_statusCode e <= 599 | _ => True end.

(** The texts an answer is made of when nobody wrote one for the client. *)
Definition cataloged (e : AppError) : Prop :=
  (exists en, entryOf (ap_code e) = Some en /\ ec_status en = ap_statusCode e) \/
  In (ap_code e, ap_statusCode e) [("FOREIGN_KEY_VIOLATION", 400); ("PAYLOAD_TOO_LARGE", 413)].

Lemma cataloged_appError message status code :
  (exists en, entryOf (codeText code) = Some en /\ ec_status en = status) -> cataloged (appError message status code).
Proof. left. exact H. Qed.

Ltac catalog := first
  [ left; eexists; split; reflexivity
  | right; cbn; tauto ].

Lemma fromPrismaError_cataloged code cause target : cataloged (fromPrismaError code cause target).
Proof. unfold fromPrismaError. repeat destruct (String.eqb _ _); catalog. Qed.

Lemma toAppError_cataloged now err :
  match err with TApp _ => True | _ => cataloged (fst (toAppError now err)) end.
Proof.
  destruct err as [| | |code m cause target| |syn e|v]; cbn; try done; try catalog.
  - apply fromPrismaError_cataloged.
  - destruct (isParseFailure syn e); [catalog|]. destruct (isTooLarge e); catalog.
  - destruct v as [e|]; [|catalog]. destruct (isTooLarge e); catalog.
Qed.

Lemma entryOf_status code en : entryOf code = Some en -> 400 <= ec_status en <= 599.
Proof.
  intros H. apply find_some in H as [H _].
  assert (HF : forallb (fun e => (400 <=? ec_status e) && (ec_status e <=? 599)) ERROR_CATALOG = true) by reflexivity.
  rewrite forallb_forall in HF. specialize (HF en H). lia.
Qed.

Lemma cataloged_status e : cataloged e -> 400 <= ap_statusCode e <= 599.
Proof.
  intros [(en & H & <-)|H]; [exact (entryOf_status _ _ H)|].
  cbn in H. destruct H as [[= _ <-]|[[= _ <-]|[]]]; lia.
Qed.

Lemma toAppError_status now err : honest err -> 400 <= ap_statusCode (fst (toAppError now err)) <= 599.
Proof.
  intros H. pose proof (toAppError_cataloged now err) as Hc.
  destruct err; cbn in H |- *; try exact H; exact (cataloged_status _ Hc).
Qed.

Lemma toAppError_retry now err :
  match snd (toAppError now err) with
  | Some s => overloaded err = true /\ (retryOf err = None -> 1 <= s)
  | None => overloaded err = false
  end.
Proof. destruct err as [| | | | | |]; cbn; try done. split; [done|]. unfold secondsUntil. lia. Qed.

(** What the database says of a refused query stays inside. *)
Lemma toAppError_prisma_text now code m m' cause target :
  toAppError now (TPrismaKnown code m cause target) = toAppError now (TPrismaKnown code m' cause target) /\
  toAppError now (TPrismaValidation m) = toAppError now (TPrismaValidation m').
Proof. done. Qed.

Section Answers.
Context (stackOf : Thrown -> string).

(** Every failure is answered by an error status, with the path and the id of
    the request; what was not thrown for the client gets the status its code has
    in the catalog and no text of the database; the stack is only shown in
    development, and the client is told when to try again exactly when the
    service is overloaded, in the header and the body alike. *)
Theorem errors_answered isDev now originalUrl requestId err (a := errorHandler stackOf isDev now originalUrl requestId err) :
  honest err ->
  400 <= an_status a <= 599 /\
  er_path (an_body a) = originalUrl /\ er_requestId (an_body a) = requestId /\
  match err with
  | TApp e => er_code (an_body a) = ap_code e /\ an_status a = ap_statusCode e
  | _ => (exists en, entryOf (er_code (an_body a)) = Some en /\ ec_status en = an_status a) \/
         In (er_code (an_body a), an_status a) [("FOREIGN_KEY_VIOLATION", 400); ("PAYLOAD_TOO_LARGE", 413)]
  end /\
  (er_error (an_body a) = er_message (an_body a) \/ er_message (an_body a) = "") /\
  (isDev = false -> er_stack (an_body a) = None) /\
  an_retryAfter a = (pretty <$> er_retryAfter (an_body a)) /\
  (is_Some (an_retryAfter a) <-> overloaded err = true).
Proof.
  intros Hh. pose proof (toAppError_status now err Hh) as Hs. pose proof (toAppError_cataloged now err) as Hc.
  pose proof (toAppError_retry now err) as Hr.
  subst a. unfold errorHandler. destruct (toAppError now err) as [e retry] eqn:E in *. cbn in *.
  split; [exact Hs|]. split_and!; try done.
  - destruct err; try exact Hc. cbn in E. by injection E as <- <-.
  - destruct (String.eqb_spec (ap_message e) ""); auto.
  - by intros ->.
  - destruct retry as [s|]; cbn; [rewrite (proj1 Hr); by split|].
    rewrite Hr. split; [intros [? H]; discriminate H|discriminate].
Qed.

Lemma admit_due o now b :
  b_state b = open_ -> halfOpenInFlight b < halfOpenMaxCalls o ->
  exists b2, admitHalfOpen o now (transitionTo half_open b) = (inr tt, b2) /\ b_state b2 = half_open.
Proof.
  intros Hst Hin. unfold admitHalfOpen, transitionTo. destruct b as [st fc oa na hf]. cbn in Hst, Hin |- *. subst st.
  destruct (decide (open_ = half_open)) as [[=]|_]. cbn.
  destruct (Z.leb_spec (halfOpenMaxCalls o) hf); [lia|]. by eexists.
Qed.

(** A client that waits as long as it is told finds the breaker ready to try. *)
Theorem retry_after_suffices o b isDev now now' originalUrl requestId e b' s :
  breaker_inv o b -> b_state b = open_ -> halfOpenInFlight b < halfOpenMaxCalls o ->
  beforeCall o now b = (inl e, b') ->
  er_retryAfter (an_body (errorHandler stackOf isDev now originalUrl requestId
    (TBreakerOpen (bo_name o) (default (now + openBackoffMs o) (nextAttemptAtMs b))))) = Some s ->
  now + 1000 * s <= now' ->
  b' = b /\ e = CircuitBreakerOpenError (bo_name o) (default (now + openBackoffMs o) (nextAttemptAtMs b)) /\
  exists b2, beforeCall o now' b' = (inr tt, b2) /\ b_state b2 = half_open.
Proof.
  intros [_ _ Hopen] Hst Hin Hcall Hs Hwait. destruct (Hopen Hst) as (t & _ & Hn).
  unfold beforeCall in Hcall. rewrite Hst, Hn in Hcall. unfold openError in Hcall. rewrite Hn in *.
  destruct (Z.leb_spec (t + openBackoffMs o) now) as [Hle|Hgt].
  { destruct (admit_due o now b Hst Hin) as (b2 & Ha & _). congruence. }
  injection Hcall as <- <-. split_and!; [done..|].
  cbn in Hs. injection Hs as <-. unfold secondsUntil in Hwait.
  assert (Hdue : t + openBackoffMs o <= now').
  { pose proof (Z.mod_pos_bound (now - (t + openBackoffMs o)) 1000 eq_refl).
    pose proof (Z.div_mod (now - (t + openBackoffMs o)) 1000 ltac:(lia)). lia. }
  unfold beforeCall. rewrite Hst, Hn, (proj2 (Z.leb_le _ _) Hdue). by apply admit_due.
Qed.

Lemma error_status_sent s : 400 <= s <= 599 -> nonzero (Some s) = Some s /\ sendable s = true.
Proof.
  intros Hs. split; [destruct s; [lia|done|done]|].
  unfold sendable. apply andb_true_intro. rewrite !Z.leb_le. lia.
Qed.

(** ** The demo answers the errors of the application alike, and no others *)

Lemma demo_agrees e isDev now originalUrl requestId :
  400 <= ap_statusCode e <= 599 -> ap_message e <> "" -> ap_code e <> "" ->
  let full := errorHandler stackOf isDev now originalUrl requestId (TApp e) in
  let demo := demoErrorHandler (TApp e) in
  an_status demo = an_status full /\ de_message (an_body demo) = er_message (an_body full) /\
  de_code (an_body demo) = Some (er_code (an_body full)) /\ de_details (an_body demo) = er_details (an_body full).
Proof.
  intros Hs Hm%String.eqb_neq Hc%String.eqb_neq. destruct (error_status_sent _ Hs) as [Hz Hsend].
  destruct e as [nm m st c ds]. cbn [ap_statusCode ap_message ap_code] in *.
  lazy beta iota zeta delta [errorHandler demoErrorHandler anyOf toAppError lo_statusCode lo_message lo_code lo_details
    ap_statusCode ap_message ap_code ap_details ap_name].
  rewrite Hz, Hsend. unfold orText, truthy. by rewrite Hm, Hc.
Qed.

(** The demo passes the texts and codes of the database on, answers an open
    breaker as a fault of its own, and never says when to try again. *)
Lemma demo_differs code message cause target name next text s :
  code <> "" -> message <> "" ->
  an_body (demoErrorHandler (TPrismaKnown code message cause target)) =
    mkDemoError "PrismaClientKnownRequestError" message (Some code) None /\
  an_status (demoErrorHandler (TBreakerOpen name next)) = 500 /\
  an_status (demoErrorHandler (TBackpressure text s)) = 503 /\
  (forall err, an_retryAfter (demoErrorHandler err) = None).
Proof.
  intros Hc%String.eqb_neq Hm%String.eqb_neq. split_and!; try done.
  - unfold demoErrorHandler. cbn. by rewrite Hc, Hm.
  - intros err. unfold demoErrorHandler. destruct (anyOf err) as [e|]; [|done]. by destruct (sendable _).
Qed.

(** Whatever is thrown, the demo answers too. *)
Lemma demo_sendable err : sendable (an_status (demoErrorHandler err)) = true.
Proof.
  unfold demoErrorHandler. destruct (anyOf err) as [e|]; [|done].
  by destruct (sendable (match nonzero (lo_statusCode e) with Some s => s | None => default 500 (nonzero (lo_status e)) end)) eqn:E.
Qed.
End Answers.

Lemma orText_nonempty s fallback : fallback <> "" -> orText s fallback <> "".
Proof. intros H. unfold orText. destruct s as [t|]; [|done]. by destruct (String.eqb_spec t ""). Qed.

Lemma orText_some t fallback : t <> "" -> orText (Some t) fallback = t.
Proof. intros H%String.eqb_neq. unfold orText. by rewrite H. Qed.

(** A request goes on exactly with what its schema read; any other is answered
    400, with the first complaint as the message and a field and a text in
    every complaint. *)
Theorem validate_exact {V} (safeParse : V -> Parsed + V) source :
  match validate safeParse source with
  | inr data => safeParse source = inr data
  | inl e =>
      (exists p, safeParse source = inl p) /\ ap_statusCode e = 400 /\ ap_code e = "VALIDATION_ERROR" /\
      ap_message e <> "" /\
      (forall d rest, ap_details e = Some (d :: rest) -> ap_message e = ed_message d) /\
      (forall l, ap_details e = Some l -> Forall (fun d => ed_field d <> "" /\ ed_message d <> "") l)
  end.
Proof.
  assert (Hd : forall i, ed_field (detailOf i) <> "" /\ ed_message (detailOf i) <> "").
  { intros i. split; apply orText_nonempty; done. }
  unfold validate. destruct (safeParse source) as [[| |l]|data]; cbn; try done;
    (split; [by eexists|]; split; [reflexivity|]; split; [reflexivity|]; split_and!); try done.
  - by intros d rest [= <- <-].
  - intros ? [= <-]. repeat constructor; done.
  - apply orText_nonempty. done.
  - intros d rest [= H]. destruct l as [|i l]; [done|]. injection H as <- <-.
    apply (orText_some (ed_message (detailOf i))), Hd.
  - intros ? [= <-]. apply Forall_map, Forall_forall. intros i _. exact (Hd i).
Qed.
