(* ===== verification/AppFactory.v ===== *)
(** * The HTTP applications (src/src/app-factory.ts and its middleware)

    [createApp] is the stack of layers of an application, in the order they are
    mounted, and [handleRequest] what becomes of a request that runs through it.
    A path is the list of its segments; a slash at the end is an empty segment.
    What the routers, the rate limiters and the third-party middleware answer to
    the request at hand is a parameter. *)

From Stdlib Require Import ZArith Lia.
From stdpp Require Import base option list gmap strings pretty.
From S2P Require Import Prelude.
From S2P Require Import Errors.
From S2P Require Import ErrorResponses.

#[local] Open Scope string_scope.
#[local] Open Scope Z_scope.

(** ** Modes and features *)

Inductive AppMode : Type := full | hackathon.

Definition isFull (mode : AppMode) : bool := match mode with full => true | hackathon => false end.

Inductive AppFeature : Type :=
| auth | predictions | education | errorCatalog | adminRoutes | corsDiagnostics | versionedAlias
| deprecationHeaders | globalApiRateLimit | platformStats | multiplayerSocial | legacyPriceEndpoint
| rootBanner | apiDocs.

Definition AppFeatures : Type := AppFeature -> bool.

Definition FULL_FEATURES : AppFeatures := fun f =>
  match f with globalApiRateLimit | platformStats => false | _ => true end.

(** [ENABLE_CORS_DIAGNOSTICS] of the environment. *)
Definition HACKATHON_FEATURES (enableCorsDiagnostics : option string) : AppFeatures := fun f =>
  match f with
  | auth | globalApiRateLimit | platformStats | multiplayerSocial | apiDocs => true
  | corsDiagnostics => bool_decide (is_Some (truthy enableCorsDiagnostics))
  | _ => false
  end.

Definition resolveFeatures (enableCorsDiagnostics : option string) (enableMultiplayerSocial : bool)
    (mode : AppMode) (overrides : AppFeature -> option bool) : AppFeatures := fun f =>
  let base := match mode with full => FULL_FEATURES | hackathon => HACKATHON_FEATURES enableCorsDiagnostics end in
  let resolved := default (base f) (overrides f) in
  match f, overrides multiplayerSocial with
  | multiplayerSocial, None => resolved && enableMultiplayerSocial
  | _, _ => resolved
  end.

(** ** Layers *)

Inductive RouterName : Type :=
| authRoutes | userRoutes | roundsRoutes | betsRoutes | predictionsRoutes | educationRoutes
| fullLeaderboardRoutes | hackathonLeaderboardRoutes | chatRoutes | notificationsRoutes | tournamentsRoutes
| statsRoutes | adminMetricsRoutes | corsDiagnosticsRoutes | deadLetterRoutes | betAuditRoutes | errorsRoutes
| pricesRoutes | indexRoutes | legacyXlmPriceRouter | healthRoutes | metricsRoutes.

#[export] Instance RouterName_eq_dec : EqDecision RouterName.
Proof. solve_decision. Defined.

Inductive Handler : Type :=
| HSecurityHeaders | HJson | HUrlencoded | HCors | HRequestId | HMetrics | HHttpLogger
| HApiRateLimiter | HWriteRateLimiter
| HRouter (r : RouterName)
| HDeprecation
| HDocsRedirect | HDocsJson | HSwagger | HBanner
| HUnknownRoute | HNotFound.

Notation Path := (list string).

(** [use], [get], and [use] of a router that holds routers of its own. *)
Inductive Layer : Type :=
| LUse (path : Path) (h : Handler)
| LGet (path : Path) (h : Handler)
| LGroup (path : Path) (routes : list (Path * RouterName)).

Definition mountIf {A} (b : bool) (l : list A) : list A := if b then l else [].

Definition mountBaseMiddleware (mode : AppMode) : list Layer :=
  [LUse [] HSecurityHeaders; LUse [] HJson] ++ mountIf (isFull mode) [LUse [] HUrlencoded] ++
  [LUse [] HCors; LUse [] HRequestId; LUse [] HMetrics; LUse [] HHttpLogger].

Definition mountApiDocs : list Layer :=
  [LGet ["docs"] HDocsRedirect; LGet ["api-docs.json"] HDocsJson; LUse ["api-docs"] HSwagger].

Definition mountApiRoutes (mode : AppMode) (features : AppFeatures) : list (Path * RouterName) :=
  mountIf (features auth) [(["auth"], authRoutes)] ++
  [(["user"], userRoutes); (["rounds"], roundsRoutes); (["bets"], betsRoutes)] ++
  mountIf (features predictions) [(["predictions"], predictionsRoutes)] ++
  mountIf (features education) [(["education"], educationRoutes)] ++
  [(["leaderboard"], if isFull mode then fullLeaderboardRoutes else hackathonLeaderboardRoutes)] ++
  mountIf (features multiplayerSocial) [(["chat"], chatRoutes); (["notifications"], notificationsRoutes)] ++
  [(["tournaments"], tournamentsRoutes)] ++
  mountIf (features platformStats) [(["stats"], statsRoutes)] ++
  (if features adminRoutes then
     [(["admin"; "metrics"], adminMetricsRoutes); (["admin"; "cors-diagnostics"], corsDiagnosticsRoutes);
      (["admin"; "dead-letter"], deadLetterRoutes); (["admin"; "bet-audit"], betAuditRoutes)]
   else mountIf (features corsDiagnostics) [(["admin"; "cors-diagnostics"], corsDiagnosticsRoutes)]) ++
  mountIf (features errorCatalog) [(["errors"], errorsRoutes)] ++
  [([], if isFull mode then pricesRoutes else indexRoutes)] ++
  mountIf (features legacyPriceEndpoint) [([], legacyXlmPriceRouter)].

(** What both applications mount on /api, after the base middleware. *)
Definition mountApi (mode : AppMode) (features : AppFeatures) : list Layer :=
  mountIf (features globalApiRateLimit) [LUse ["api"] HApiRateLimiter; LUse ["api"] HWriteRateLimiter] ++
  mountIf (isFull mode) [LUse ["health"] (HRouter healthRoutes)] ++
  mountIf (features versionedAlias) [LGroup ["api"; "v1"] (mountApiRoutes mode features)] ++
  mountIf (features deprecationHeaders) [LUse ["api"] HDeprecation] ++
  [LGroup ["api"] (mountIf (negb (isFull mode)) [([], healthRoutes)] ++ mountApiRoutes mode features)].

(** The layers after the base middleware. *)
Definition mountRest (mode : AppMode) (features : AppFeatures) (includeErrorHandlers : bool) : list Layer :=
  mountIf (negb (isFull mode)) (mountIf (features apiDocs) mountApiDocs ++ [LUse ["metrics"] (HRouter metricsRoutes)]) ++
  mountApi mode features ++
  mountIf (isFull mode)
    ([LUse ["metrics"] (HRouter metricsRoutes)] ++ mountIf (features apiDocs) mountApiDocs ++
     mountIf (features rootBanner) [LGet [] HBanner]) ++
  mountIf includeErrorHandlers [LUse [] (if isFull mode then HUnknownRoute else HNotFound)].

Definition createApp (mode : AppMode) (features : AppFeatures) (includeErrorHandlers : bool) : list Layer :=
  mountBaseMiddleware mode ++ mountRest mode features includeErrorHandlers.

(** The routers an application may show a request. *)
Definition allowed (mode : AppMode) (features : AppFeatures) (r : RouterName) : bool :=
  match r with
  | authRoutes => features auth
  | predictionsRoutes => features predictions
  | educationRoutes => features education
  | fullLeaderboardRoutes | pricesRoutes => isFull mode
  | hackathonLeaderboardRoutes | indexRoutes => negb (isFull mode)
  | chatRoutes | notificationsRoutes => features multiplayerSocial
  | statsRoutes => features platformStats
  | adminMetricsRoutes | deadLetterRoutes | betAuditRoutes => features adminRoutes
  | corsDiagnosticsRoutes => features adminRoutes || features corsDiagnostics
  | errorsRoutes => features errorCatalog
  | legacyXlmPriceRouter => features legacyPriceEndpoint
  | _ => true
  end.

(** The handlers of the base, and layers without them. *)
Definition isBase (h : Handler) : bool :=
  match h with
  | HSecurityHeaders | HJson | HUrlencoded | HCors | HRequestId | HMetrics | HHttpLogger => true
  | _ => false
  end.

Definition isLate (l : Layer) : bool := match l with LUse _ h | LGet _ h => negb (isBase h) | LGroup _ _ => true end.

Definition routersOf (l : Layer) : list RouterName :=
  match l with
  | LUse _ (HRouter r) | LGet _ (HRouter r) => [r]
  | LGroup _ routes => map snd routes
  | _ => []
  end.

Lemma forallb_over_map {A B} (p : B -> bool) (f : A -> B) l : forallb p (map f l) = forallb (fun x => p (f x)) l.
Proof. induction l as [|x l IH]; cbn; [done|]. by rewrite IH. Qed.

Lemma forallb_mountIf {A} (p : A -> bool) b l : forallb p (mountIf b l) = negb b || forallb p l.
Proof. by destruct b. Qed.

Ltac mounted :=
  repeat rewrite ?forallb_app, ?forallb_mountIf; cbn -[mountApiRoutes];
  repeat (apply andb_true_intro; split).

Lemma mountApiRoutes_allowed mode features : forallb (fun pr => allowed mode features (snd pr)) (mountApiRoutes mode features) = true.
Proof.
  unfold mountApiRoutes. mounted; try reflexivity;
    try (destruct (isFull mode) eqn:E; cbn; rewrite ?E; reflexivity);
    try (match goal with |- context [negb (features ?f)] => destruct (features f) eqn:E; cbn; rewrite ?E; reflexivity end).
  destruct (features adminRoutes) eqn:Ea; cbn; rewrite ?Ea; [reflexivity|].
  destruct (features corsDiagnostics) eqn:Ec; cbn; rewrite ?Ec, ?Ea; reflexivity.
Qed.

Lemma mountRest_late mode features b : forallb isLate (mountRest mode features b) = true.
Proof.
  unfold mountRest, mountApi, mountApiDocs. mounted; try reflexivity; rewrite ?orb_true_r; try reflexivity.
  all: by destruct mode, b.
Qed.

Lemma mountRest_allowed mode features b :
  forallb (fun l => forallb (allowed mode features) (routersOf l)) (mountRest mode features b) = true.
Proof.
  assert (Hm : forallb (allowed mode features) (map snd (mountApiRoutes mode features)) = true).
  { rewrite forallb_over_map. apply mountApiRoutes_allowed. }
  unfold mountRest, mountApi, mountApiDocs. mounted; try reflexivity; rewrite ?orb_true_r; try reflexivity.
  all: try (rewrite map_app, forallb_app, Hm; by destruct mode).
  all: try (by rewrite Hm, ?orb_true_r). all: by destruct mode, b.
Qed.

(** ** A request in the stack *)

(** What is sent. *)
Inductive Sent : Type :=
| SentByLayer (status : Z)
| SentError (a : Answer ErrorResponse)
| SentDemoError (a : Answer DemoError)
| SentNotFound (a : Answer (string * string)).

(** What a layer does with a request: hand it on, answer it, or fail. *)
Inductive Reply : Type := RNext | RAnswer (sent : Sent) | RThrow (err : Thrown).

Record Exchange : Type := mkExchange {
  ex_headers : gmap string string;
  ex_requestId : option string;
  ex_metered : bool;
  ex_logged : bool;
  ex_asked : list (RouterName * Path);
}.

Definition newExchange : Exchange := mkExchange ∅ None false false [].

Definition quote : string := String (Ascii.ascii_of_nat 34) "".

Definition pathText (path : Path) : string := "/" +:+ String.concat "/" path.

Section App.
(** The request: its method, its url, its time, the X-Request-ID it brings, and
    the identifier drawn for it. *)
Context (method originalUrl : string) (now : Z) (incomingRequestId : option string) (uuid : string).

(** Express compares segments ([same]). The parsers refuse a body with an
    error; cors sets headers and may answer (a preflight); the limiters and the
    routers reply; the remaining handlers only answer. *)
Context (same : string -> string -> bool)
  (helmetHeaders corsHeaders : gmap string string)
  (parseJson parseForm : option Thrown) (preflight : bool)
  (limiter : Handler -> Reply) (router : RouterName -> Path -> Reply)
  (stackOf : Thrown -> string).

Fixpoint stripPath (prefix path : Path) : option Path :=
  match prefix, path with
  | [], _ => Some path
  | p :: prefix, s :: path => if same p s then stripPath prefix path else None
  | _ :: _, [] => None
  end.

(** [app.get]: the whole path, with or without a slash at its end. *)
Definition matchesPath (prefix path : Path) : bool :=
  match stripPath prefix path with Some [] | Some [""] => true | _ => false end.

Definition setHeader (k v : string) (ex : Exchange) : Exchange := ex {{ ex_headers := <[k := v]> (ex_headers ex) }}.

Definition securityHeadersMiddleware (ex : Exchange) : Exchange :=
  setHeader "Permissions-Policy" "geolocation=(), camera=(), microphone=()"
    (setHeader "X-XSS-Protection" "1; mode=block" (ex {{ ex_headers := helmetHeaders ∪ ex_headers ex }})).

Definition newRequestId : string := default uuid (truthy incomingRequestId).

Definition requestIdMiddleware (ex : Exchange) : Exchange :=
  setHeader "X-Request-ID" newRequestId (ex {{ ex_requestId := Some newRequestId }}).

Definition deprecation (path : Path) (ex : Exchange) : Exchange :=
  if String.prefix "/v1" (pathText path) then ex
  else setHeader "Link" ("</api/v1" +:+ pathText path +:+ ">; rel=" +:+ quote +:+ "successor-version" +:+ quote)
         (setHeader "Sunset" "Sat, 01 Jan 2027 00:00:00 GMT" (setHeader "Deprecation" "true" ex)).

Definition refusal (r : option Thrown) : Reply := match r with Some err => RThrow err | None => RNext end.

Definition ask (r : RouterName) (path : Path) (ex : Exchange) : Exchange * Reply :=
  (ex {{ ex_asked := (ex_asked ex ++ [(r, path)])%list }}, router r path).

(** One handler, with the path that is left for it. *)
Definition step (h : Handler) (path : Path) (ex : Exchange) : Exchange * Reply :=
  match h with
  | HSecurityHeaders => (securityHeadersMiddleware ex, RNext)
  | HJson => (ex, refusal parseJson)
  | HUrlencoded => (ex, refusal parseForm)
  | HCors => (ex {{ ex_headers := corsHeaders ∪ ex_headers ex }}, if preflight then RAnswer (SentByLayer 204) else RNext)
  | HRequestId => (requestIdMiddleware ex, RNext)
  | HMetrics => (ex {{ ex_metered := true }}, RNext)
  | HHttpLogger => (ex {{ ex_logged := true }}, RNext)
  | HApiRateLimiter | HWriteRateLimiter => (ex, limiter h)
  | HRouter r => ask r path ex
  | HDeprecation => (deprecation path ex, RNext)
  | HDocsRedirect => (ex, RAnswer (SentByLayer 302))
  | HDocsJson | HSwagger | HBanner => (ex, RAnswer (SentByLayer 200))
  | HUnknownRoute =>
      (ex, RThrow (TApp (ofClass (NotFoundError ("Route " +:+ method +:+ " " +:+ pathText path +:+ " not found") NOT_FOUND) None)))
  | HNotFound => (ex, RAnswer (SentNotFound (notFoundHandler (pathText path))))
  end.

Fixpoint runRoutes (routes : list (Path * RouterName)) (path : Path) (ex : Exchange) : Exchange * Reply :=
  match routes with
  | [] => (ex, RNext)
  | (p, r) :: rest =>
      match stripPath p path with
      | None => runRoutes rest path ex
      | Some suffix =>
          match ask r suffix ex with
          | (ex', RNext) => runRoutes rest path ex'
          | out => out
          end
      end
  end.

Definition enter (l : Layer) (path : Path) (ex : Exchange) : Exchange * Reply :=
  match l with
  | LUse p h => match stripPath p path with Some suffix => step h suffix ex | None => (ex, RNext) end
  | LGet p h => if existsb (String.eqb method) ["GET"; "HEAD"] && matchesPath p path then step h path ex else (ex, RNext)
  | LGroup p routes => match stripPath p path with Some suffix => runRoutes routes suffix ex | None => (ex, RNext) end
  end.

Fixpoint run (layers : list Layer) (path : Path) (ex : Exchange) : Exchange * Reply :=
  match layers with
  | [] => (ex, RNext)
  | l :: rest =>
      match enter l path ex with
      | (ex', RNext) => run rest path ex'
      | out => out
      end
  end.

(** The answer to a request, [None] when nothing in the application answers. *)
Definition answerOf (mode : AppMode) (isDev includeErrorHandlers : bool) (out : Exchange * Reply) : option Sent :=
  match snd out with
  | RNext => None
  | RAnswer sent => Some sent
  | RThrow err =>
      if includeErrorHandlers then
        Some (if isFull mode then SentError (errorHandler stackOf isDev now originalUrl (ex_requestId (fst out)) err)
              else SentDemoError (demoErrorHandler err))
      else None
  end.

Definition handleRequest (mode : AppMode) (features : AppFeatures) (isDev includeErrorHandlers : bool) (path : Path)
    : Exchange * option Sent :=
  let out := run (createApp mode features includeErrorHandlers) path newExchange in
  (fst out, answerOf mode isDev includeErrorHandlers out).

(** ** Running the stack *)

Lemma run_app l1 l2 path ex :
  run (l1 ++ l2)%list path ex = match run l1 path ex with (ex', RNext) => run l2 path ex' | out => out end.
Proof.
  revert ex. induction l1 as [|l l1 IH]; intros ex; [done|]. cbn [run app].
  destruct (enter l path ex) as [ex' [| |]]; [apply IH|done|done].
Qed.

(** The body is refused before anything but the security headers is set. *)
Definition firstRefusal (mode : AppMode) : option Thrown :=
  match parseJson with Some e => Some e | None => if isFull mode then parseForm else None end.

Definition securedExchange : Exchange := securityHeadersMiddleware newExchange.
Definition corsExchange : Exchange := securedExchange {{ ex_headers := corsHeaders ∪ ex_headers securedExchange }}.
Definition readyExchange : Exchange := (requestIdMiddleware corsExchange) {{ ex_metered := true }} {{ ex_logged := true }}.

Lemma run_base mode rest path :
  run (mountBaseMiddleware mode ++ rest)%list path newExchange =
  match firstRefusal mode with
  | Some e => (securedExchange, RThrow e)
  | None => if preflight then (corsExchange, RAnswer (SentByLayer 204)) else run rest path readyExchange
  end.
Proof.
  unfold firstRefusal, corsExchange, readyExchange. fold securedExchange. unfold mountBaseMiddleware.
  destruct mode; cbn [mountIf isFull app run enter stripPath step];
    destruct parseJson, parseForm, preflight; reflexivity.
Qed.

Definition DEPRECATION : list string := ["Deprecation"; "Sunset"; "Link"].

Definition kept (ex ex' : Exchange) : Prop :=
  ex_requestId ex' = ex_requestId ex /\ ex_metered ex' = ex_metered ex /\ ex_logged ex' = ex_logged ex /\
  forall k, k ∉ DEPRECATION -> ex_headers ex' !! k = ex_headers ex !! k.

Lemma kept_refl ex : kept ex ex.
Proof. by split_and!. Qed.

Lemma kept_trans ex1 ex2 ex3 : kept ex1 ex2 -> kept ex2 ex3 -> kept ex1 ex3.
Proof. intros (A & B & C & D) (A' & B' & C' & D'). split_and!; [congruence..|]. intros k Hk. by rewrite D', D. Qed.

Lemma deprecation_kept path ex : kept ex (deprecation path ex).
Proof.
  unfold deprecation. destruct (String.prefix "/v1" (pathText path)); [apply kept_refl|].
  split_and!; try done. intros k Hk. unfold DEPRECATION in Hk. rewrite !not_elem_of_cons in Hk. cbn.
  rewrite !lookup_insert_ne by naive_solver. done.
Qed.

(** Layers after the base add headers of their own and ask routers, no more.
    The routers a path is shown to, and what they reply, whatever the state. *)
Lemma runRoutes_exact routes path : exists asked r,
  (forall q, q ∈ asked -> fst q ∈ map snd routes) /\
  forall ex, runRoutes routes path ex = (ex {{ ex_asked := (ex_asked ex ++ asked)%list }}, r).
Proof.
  induction routes as [|[p n] routes (asked & r & Hin & IH)]; cbn.
  { exists [], RNext. split; [set_solver|]. intros ex. destruct ex. cbn. by rewrite app_nil_r. }
  destruct (stripPath p path) as [suffix|]; [|exists asked, r; split; [set_solver|done]].
  unfold ask. destruct (router n suffix) as [|sent|err] eqn:Er.
  - exists ((n, suffix) :: asked), r. split; [set_solver|]. intros ex. rewrite IH. destruct ex. cbn. by rewrite <- app_assoc.
  - exists [(n, suffix)], (RAnswer sent). split; [set_solver|done].
  - exists [(n, suffix)], (RThrow err). split; [set_solver|done].
Qed.

Definition askedOf (l : list RouterName) (ex ex' : Exchange) : Prop :=
  forall q, q ∈ ex_asked ex' -> q ∈ ex_asked ex \/ fst q ∈ l.

Lemma step_late h path ex :
  isBase h = false -> kept ex (fst (step h path ex)) /\ askedOf (routersOf (LUse [] h)) ex (fst (step h path ex)).
Proof.
  intros Hb. unfold askedOf. destruct h; try discriminate Hb; cbn; (split; [|set_solver || idtac]);
    try (by split_and!); try apply deprecation_kept.
  unfold deprecation. destruct (String.prefix _ _); cbn; auto.
Qed.

Lemma enter_late l path ex :
  isLate l = true -> kept ex (fst (enter l path ex)) /\ askedOf (routersOf l) ex (fst (enter l path ex)).
Proof.
  assert (Hnone : forall rs, kept ex ex /\ askedOf rs ex ex) by (intros rs; split; [apply kept_refl|by left]).
  destruct l as [p h|p h|p routes]; cbn [isLate enter]; intros Hl.
  - destruct (stripPath p path); [|apply Hnone]. apply step_late. by destruct (isBase h).
  - destruct (_ && _); [|apply Hnone]. apply step_late. by destruct (isBase h).
  - destruct (stripPath p path) as [suffix|]; [|apply Hnone].
    destruct (runRoutes_exact routes suffix) as (asked & r & Hin & ->). cbn.
    split; [by split_and!|]. intros q. cbn. set_solver.
Qed.

Lemma run_late layers path : forall ex,
  forallb isLate layers = true ->
  kept ex (fst (run layers path ex)) /\ askedOf (concat (map routersOf layers)) ex (fst (run layers path ex)).
Proof.
  induction layers as [|l layers IH]; cbn; intros ex Hl.
  { split; [apply kept_refl|by left]. }
  apply andb_prop in Hl as [Hl Hls]. destruct (enter_late l path ex Hl) as [Hk Ha].
  destruct (enter l path ex) as [ex' r] eqn:E. cbn in Hk, Ha.
  assert (Hstop : kept ex ex' /\ askedOf (routersOf l ++ concat (map routersOf layers))%list ex ex').
  { split; [done|]. intros q Hq. destruct (Ha q Hq); set_solver. }
  destruct r; cbn; [|exact Hstop|exact Hstop]. destruct (IH ex' Hls) as [Hk' Ha'].
  split; [exact (kept_trans _ _ _ Hk Hk')|]. intros q Hq.
  destruct (Ha' q Hq) as [Hq'|]; [destruct (Ha q Hq')|]; set_solver.
Qed.

(** ** Every request is answered *)

Lemma handle_base mode features isDev b path :
  handleRequest mode features isDev b path =
  match firstRefusal mode with
  | Some e => (securedExchange, answerOf mode isDev b (securedExchange, RThrow e))
  | None =>
      if preflight then (corsExchange, Some (SentByLayer 204))
      else let out := run (mountRest mode features b) path readyExchange in (fst out, answerOf mode isDev b out)
  end.
Proof.
  unfold handleRequest, createApp. rewrite run_base.
  destruct (firstRefusal mode); [done|]. by destruct preflight.
Qed.

Lemma rest_answers mode features path ex : snd (run (mountRest mode features true) path ex) <> RNext.
Proof.
  assert (Hlast : forall l h, (forall e, snd (step h path e) <> RNext) -> snd (run (l ++ [LUse [] h])%list path ex) <> RNext).
  { intros l h Hh. rewrite run_app. destruct (run l path ex) as [ex' [| |]]; [|done|done].
    cbn [run enter stripPath]. specialize (Hh ex'). by destruct (step h path ex') as [? [| |]]. }
  unfold mountRest. rewrite !(app_assoc (A := Layer)). apply Hlast. intros e. by destruct mode.
Qed.

Lemma answerOf_some mode isDev out : snd out <> RNext -> exists sent, answerOf mode isDev true out = Some sent.
Proof. unfold answerOf. destruct (snd out); [done|eauto|eauto]. Qed.

Lemma allowed_asked mode features b path ex q :
  ex_asked ex = [] -> q ∈ ex_asked (fst (run (mountRest mode features b) path ex)) -> allowed mode features (fst q) = true.
Proof.
  intros H0 Hq. destruct (run_late _ path ex (mountRest_late mode features b)) as [_ Ha].
  destruct (Ha q Hq) as [Hq'|Hin]; [rewrite H0 in Hq'; set_solver|].
  apply list_elem_of_In, in_concat in Hin as (rs & Hrs & Hin). apply in_map_iff in Hrs as (l & <- & Hl).
  pose proof (mountRest_allowed mode features b) as Hal. rewrite forallb_forall in Hal.
  specialize (Hal l Hl). rewrite forallb_forall in Hal. exact (Hal _ Hin).
Qed.

(** What Express and the two packages are relied on for. *)
Context (Hsame : forall p s, same p s = String.eqb (toLowerCase p) (toLowerCase s)).
Context (Hcors : forall k, In k ["X-XSS-Protection"; "Permissions-Policy"; "X-Request-ID"] -> corsHeaders !! k = None).
Context (Hhelmet : helmetHeaders !! "X-Request-ID" = None).

Lemma same_other a p q : same p a = true -> String.eqb (toLowerCase q) (toLowerCase p) = false -> same q a = false.
Proof. rewrite !Hsame. intros <-%String.eqb_eq. done. Qed.

Definition secured (ex : Exchange) : Prop :=
  ex_headers ex !! "X-XSS-Protection" = Some "1; mode=block" /\
  ex_headers ex !! "Permissions-Policy" = Some "geolocation=(), camera=(), microphone=()".

Lemma securedExchange_secured : secured securedExchange /\ ex_headers securedExchange !! "X-Request-ID" = None.
Proof.
  unfold secured, securedExchange, securityHeadersMiddleware, setHeader. cbn.
  rewrite lookup_insert_ne by done. rewrite !lookup_insert_eq. rewrite !lookup_insert_ne by done.
  split; [done|]. rewrite lookup_union_None. by rewrite Hhelmet, lookup_empty.
Qed.

Lemma corsExchange_secured : secured corsExchange.
Proof.
  destruct securedExchange_secured as [[H1 H2] _]. unfold secured, corsExchange. cbn -[securedExchange].
  rewrite !lookup_union_r by (apply Hcors; cbn; tauto). done.
Qed.

Lemma readyExchange_facts :
  secured readyExchange /\ ex_requestId readyExchange = Some newRequestId /\
  ex_headers readyExchange !! "X-Request-ID" = Some newRequestId /\
  ex_metered readyExchange = true /\ ex_logged readyExchange = true /\ ex_asked readyExchange = [].
Proof.
  destruct corsExchange_secured as [H1 H2]. unfold secured, readyExchange, requestIdMiddleware, setHeader. cbn -[corsExchange].
  rewrite lookup_insert_eq, !lookup_insert_ne by done. by split_and!.
Qed.

(** A limiter that does not let a request on /api pass keeps it from every router. *)
Lemma limited mode features b a path ex :
  features globalApiRateLimit = true -> same "api" a = true ->
  limiter HApiRateLimiter <> RNext \/ limiter HWriteRateLimiter <> RNext ->
  fst (run (mountRest mode features b) (a :: path) ex) = ex.
Proof.
  intros Hf Ha Hl. unfold mountRest. rewrite run_app.
  assert (Hpre : run (mountIf (negb (isFull mode)) (mountIf (features apiDocs) mountApiDocs ++
    [LUse ["metrics"] (HRouter metricsRoutes)])) (a :: path) ex = (ex, RNext)).
  { destruct mode; cbn; [done|]. destruct (features apiDocs); cbn; unfold matchesPath; cbn;
      rewrite ?(same_other a "api" "docs" Ha), ?(same_other a "api" "api-docs.json" Ha),
        ?(same_other a "api" "api-docs" Ha), ?(same_other a "api" "metrics" Ha) by reflexivity;
      rewrite ?andb_false_r; done. }
  rewrite Hpre, run_app. unfold mountApi. rewrite Hf. cbn [mountIf app run enter stripPath]. rewrite Ha. cbn [step].
  destruct (limiter HApiRateLimiter); [|done|done]. destruct (limiter HWriteRateLimiter); [|done|done].
  destruct Hl; done.
Qed.

(** C29. With its error handlers an application answers every request, with its own
    security headers, and shows it only to routers of its features, after the
    limiters where these are on. A request whose body parses carries an id from
    the start: the one it brought or a fresh one, in its headers, in the logs and
    in the metrics. One whose body does not is answered before it has an id, and
    is neither logged nor counted. *)
Theorem app_answers mode features isDev path (ex := fst (handleRequest mode features isDev true path))
    (sent := snd (handleRequest mode features isDev true path)) :
  is_Some sent /\ secured ex /\
  (forall q, q ∈ ex_asked ex -> allowed mode features (fst q) = true) /\
  (features globalApiRateLimit = true -> forall a p, path = a :: p -> same "api" a = true ->
     limiter HApiRateLimiter <> RNext \/ limiter HWriteRateLimiter <> RNext -> ex_asked ex = []) /\
  match firstRefusal mode with
  | None =>
      preflight = false ->
      ex_requestId ex = Some newRequestId /\ ex_headers ex !! "X-Request-ID" = Some newRequestId /\
      ex_metered ex = true /\ ex_logged ex = true
  | Some err =>
      ex_asked ex = [] /\ ex_headers ex !! "X-Request-ID" = None /\ ex_metered ex = false /\ ex_logged ex = false /\
      sent = Some (if isFull mode then SentError (errorHandler stackOf isDev now originalUrl None err)
                   else SentDemoError (demoErrorHandler err))
  end.
Proof.
  subst ex sent. rewrite handle_base. destruct (firstRefusal mode) as [err|].
  - destruct securedExchange_secured as [Hs Hid]. cbn [fst snd].
    assert (Ha : ex_asked securedExchange = []) by reflexivity.
    split; [by destruct mode|]. split; [exact Hs|]. split; [rewrite Ha; set_solver|]. split; [done|].
    split_and!; done.
  - destruct preflight.
    + pose proof corsExchange_secured as Hs. cbn [fst snd].
      assert (Ha : ex_asked corsExchange = []) by reflexivity.
      split; [done|]. split; [exact Hs|]. split; [rewrite Ha; set_solver|]. split; [done|discriminate].
    + destruct readyExchange_facts as ((Hx & Hp) & Hid & Hh & Hm & Hl & Hask). cbn zeta. cbn [fst snd].
      destruct (run_late _ path readyExchange (mountRest_late mode features true)) as ((Kid & Km & Kl & Kh) & _).
      split; [destruct (answerOf_some mode isDev _ (rest_answers mode features path readyExchange)) as [? ->]; done|].
      unfold secured. rewrite Kid, Km, Kl, !Kh by (unfold DEPRECATION; set_solver).
      split_and!; try done; [intros q; by apply allowed_asked|].
      intros Hf a p -> Ha Hlim. by rewrite limited.
Qed.

(** ** The versioned paths *)

Definition limits (features : AppFeatures) : Reply :=
  if features globalApiRateLimit then
    match limiter HApiRateLimiter with RNext => limiter HWriteRateLimiter | r => r end
  else RNext.

(** Up to the routers of /api both forms of a path meet the same layers. *)
Lemma full_prefix features b a path ex :
  same "api" a = true ->
  run (mountRest full features b) (a :: path) ex =
  match limits features with
  | RNext =>
      run (mountIf (features versionedAlias) [LGroup ["api"; "v1"] (mountApiRoutes full features)] ++
           mountIf (features deprecationHeaders) [LUse ["api"] HDeprecation] ++
           LGroup ["api"] (mountApiRoutes full features) ::
           ([LUse ["metrics"] (HRouter metricsRoutes)] ++ mountIf (features apiDocs) mountApiDocs ++
            mountIf (features rootBanner) [LGet [] HBanner]) ++
           mountIf b [LUse [] HUnknownRoute])%list (a :: path) ex
  | r => (ex, r)
  end.
Proof.
  intros Ha. unfold mountRest, mountApi, limits. cbn [isFull negb mountIf app].
  assert (Hhealth : same "health" a = false) by (apply (same_other a "api"); done).
  destruct (features globalApiRateLimit); cbn [mountIf app run enter stripPath]; rewrite ?Ha, ?Hhealth; cbn [step];
    [destruct (limiter HApiRateLimiter); [|done|done]; destruct (limiter HWriteRateLimiter); [|done|done]|];
    rewrite <- ?(app_assoc (A := Layer)); reflexivity.
Qed.

Definition marked (features : AppFeatures) (path : Path) (ex : Exchange) : Exchange :=
  if features deprecationHeaders then deprecation path ex else ex.

#[local] Ltac same_early := split_and!; try done; intros _ Hne _; exfalso; apply Hne; reflexivity.

(** In the full application a versioned path is answered as the path without
    the version, by the same routers with the same path left, whenever one of
    them replies; only the headers that announce the version differ. *)
Theorem versioned_mirror features isDev b a v path
    (versioned := handleRequest full features isDev b (a :: v :: path))
    (plain := handleRequest full features isDev b (a :: path)) :
  features versionedAlias = true -> same "api" a = true -> same "v1" v = true ->
  match path with [] => True | s :: _ => same "v1" s = false end ->
  snd (runRoutes (mountApiRoutes full features) path newExchange) <> RNext ->
  snd versioned = snd plain /\ ex_asked (fst versioned) = ex_asked (fst plain) /\
  (forall k, k ∉ DEPRECATION -> ex_headers (fst versioned) !! k = ex_headers (fst plain) !! k) /\
  (features deprecationHeaders = true -> ex_asked (fst plain) <> [] -> String.prefix "/v1" (pathText path) = false ->
   ex_headers (fst plain) !! "Link" =
     Some ("</api/v1" +:+ pathText path +:+ ">; rel=" +:+ quote +:+ "successor-version" +:+ quote)).
Proof.
  intros Halias Ha Hv Hp Hreply.
  destruct (runRoutes_exact (mountApiRoutes full features) path) as (asked & r & _ & Hrun).
  rewrite Hrun in Hreply. cbn in Hreply.
  assert (Hskip : forall ex, enter (LGroup ["api"; "v1"] (mountApiRoutes full features)) (a :: path) ex = (ex, RNext)).
  { intros ex. cbn [enter stripPath]. rewrite Ha. destruct path as [|s path]; [done|]. by rewrite Hp. }
  subst versioned plain. rewrite !handle_base. destruct (firstRefusal full); [by same_early|].
  destruct preflight; [by same_early|]. cbn zeta. cbn [fst snd].
  assert (Hv1 : run (mountRest full features b) (a :: v :: path) readyExchange =
    match limits features with RNext => (readyExchange {{ ex_asked := (ex_asked readyExchange ++ asked)%list }}, r) | x => (readyExchange, x) end).
  { rewrite full_prefix by done. destruct (limits features); [|done|done]. rewrite Halias. cbn [mountIf app run enter stripPath].
    rewrite Ha, Hv, Hrun. by destruct r. }
  assert (Hplain : run (mountRest full features b) (a :: path) readyExchange =
    match limits features with
    | RNext => ((marked features path readyExchange) {{ ex_asked := (ex_asked (marked features path readyExchange) ++ asked)%list }}, r)
    | x => (readyExchange, x)
    end).
  { rewrite full_prefix by done. destruct (limits features); [|done|done]. rewrite Halias. cbn [mountIf app run]. rewrite Hskip.
    unfold marked. destruct (features deprecationHeaders); cbn [mountIf app run]; cbn [enter stripPath]; rewrite ?Ha; cbn [step];
      cbn [stripPath]; rewrite Hrun; by destruct r. }
  rewrite Hv1, Hplain. destruct (limits features); [|by same_early..].
  assert (Hkept : kept readyExchange (marked features path readyExchange)).
  { unfold marked. destruct (features deprecationHeaders); [apply deprecation_kept|apply kept_refl]. }
  assert (Hasked : ex_asked (marked features path readyExchange) = ex_asked readyExchange).
  { unfold marked, deprecation. by destruct (features deprecationHeaders), (String.prefix "/v1" (pathText path)). }
  destruct Hkept as (Kid & _ & _ & Kh). cbn [fst snd]. split_and!.
  - unfold answerOf. cbn [fst snd]. destruct r as [|sent|err]; [done|done|]. destruct b; [|done]. do 3 f_equal. symmetry. exact Kid.
  - change (ex_asked readyExchange ++ asked = ex_asked (marked features path readyExchange) ++ asked)%list. by rewrite Hasked.
  - intros k Hk. symmetry. exact (Kh k Hk).
  - intros Hd _ Hpre. transitivity (ex_headers (marked features path readyExchange) !! "Link"); [done|].
    unfold marked, deprecation. rewrite Hd, Hpre. apply lookup_insert_eq.
Qed.
End App.

(** The demo shows no request to an administrator's router, except to that of
    the CORS diagnostics when these are switched on. *)
Lemma demo_without_admin env social r :
  allowed hackathon (resolveFeatures env social hackathon (fun _ => None)) r = true ->
  ~ In r [adminMetricsRoutes; deadLetterRoutes; betAuditRoutes; predictionsRoutes; educationRoutes; errorsRoutes;
          fullLeaderboardRoutes; pricesRoutes; legacyXlmPriceRouter] /\
  (truthy env = None -> r <> corsDiagnosticsRoutes).
Proof.
  unfold allowed, resolveFeatures, HACKATHON_FEATURES. cbn. intros H. split.
  - intros Hin. repeat destruct Hin as [<-|Hin]; done.
  - intros He ->. cbn in H. by rewrite He in H.
Qed.
