(* ===== verification/Health.v ===== *)
(** * Health (src/src/routes/health.ts, the start of
    src/src/services/soroban.service.ts)

    The probes of the four services, over the results of the calls they make,
    and the two answers made of them. withTimeout never throws (see
    [Resilience]) and neither do the functions of the oracle, so that the catch
    clauses of the probes are not reached. *)

From Stdlib Require Import ZArith QArith Lia.
From stdpp Require Import base option list strings pretty.
From S2P Require Import Prelude.
From S2P Require Import Errors.
From S2P Require Import Schema.
From S2P Require Import Resilience.
From S2P Require Import Oracle.
From S2P Require Import Startup.

#[local] Open Scope string_scope.
#[local] Open Scope Z_scope.

(** ** The contract client *)

Record SorobanState : Type := mkSorobanState {
  so_client : bool;
  so_adminKeypair : option string;
  so_oracleKeypair : option string;
  so_initialized : bool;
}.

Record SorobanHealth : Type := mkSorobanHealth {
  sh_initialized : bool;
  sh_contractId : option string;
  sh_network : string;
  sh_rpcUrl : string;
  sh_hasAdminKey : bool;
  sh_hasOracleKey : bool;
  sh_failClosed : bool;
}.

Section Init.
(** The import and the constructor of the client, [false] when they throw, and
    [Keypair.fromSecret], [None] when it throws. *)
Context (newClient : SorobanConfig -> bool) (fromSecret : string -> option string).

Definition noSoroban : SorobanState := mkSorobanState false None None false.

(** Nothing is thrown; what was set before the first failure stays set. *)
Definition sorobanInit (cfg : SorobanConfig) : SorobanState :=
  if String.eqb (sc_contractId cfg) "" then noSoroban
  else if newClient cfg then
    if String.eqb (sc_adminSecret cfg) "" || String.eqb (sc_oracleSecret cfg) "" then mkSorobanState true None None true
    else
      match fromSecret (sc_adminSecret cfg) with
      | None => mkSorobanState true None None false
      | Some adminKeypair =>
          match fromSecret (sc_oracleSecret cfg) with
          | None => mkSorobanState true (Some adminKeypair) None false
          | Some oracleKeypair => mkSorobanState true (Some adminKeypair) (Some oracleKeypair) true
          end
      end
  else noSoroban.

Definition isReady (st : SorobanState) : bool := so_initialized st.

Definition getHealth (cfg : SorobanConfig) (st : SorobanState) : SorobanHealth :=
  {| sh_initialized := so_initialized st;
     sh_contractId := truthy (Some (sc_contractId cfg));
     sh_network := sc_network cfg;
     sh_rpcUrl := sc_rpcUrl cfg;
     sh_hasAdminKey := bool_decide (is_Some (so_adminKeypair st));
     sh_hasOracleKey := bool_decide (is_Some (so_oracleKeypair st));
     sh_failClosed := sc_failClosed cfg |}.

(** A service that says it is initialised has a client, a contract, and both
    keys or none; the keys it has are those of the configured secrets. *)
Lemma sorobanInit_health cfg (st := sorobanInit cfg) (h := getHealth cfg st) :
  (sh_initialized h = true -> so_client st = true /\ is_Some (sh_contractId h) /\ sh_hasAdminKey h = sh_hasOracleKey h) /\
  (forall k, so_adminKeypair st = Some k -> fromSecret (sc_adminSecret cfg) = Some k) /\
  (forall k, so_oracleKeypair st = Some k -> fromSecret (sc_oracleSecret cfg) = Some k).
Proof.
  subst h st. unfold sorobanInit, getHealth, truthy.
  destruct (String.eqb (sc_contractId cfg) ""); cbn; [by split_and!|].
  destruct (newClient cfg); cbn; [|by split_and!].
  destruct (_ || _); cbn; [split_and!; try done; intros _; split_and!; done|].
  destruct (fromSecret (sc_adminSecret cfg)) as [ka|]; cbn; [|by split_and!].
  destruct (fromSecret (sc_oracleSecret cfg)) as [ko|]; cbn; split_and!; try done; intros _; split_and!; done.
Qed.
End Init.

(** ** Probes *)

Record Probe : Type := mkProbe {
  pr_status : string;
  pr_error : option string;
  pr_initialized : option bool;
  pr_stale : option bool;
  pr_lastUpdatedAt : option Z;
  pr_stalenessSeconds : option Z;
  pr_provider : option string;
}.

Definition plainProbe (status : string) (error : option string) : Probe := mkProbe status error None None None None None.

Definition checkDatabase (ping : TimeoutResult unit) : Probe :=
  if tr_success ping then plainProbe "healthy" None else plainProbe "unhealthy" (err_message <$> tr_error ping).

(** [checkRedisHealth] of lib/redis.ts: [connected] is whether there is a client. *)
Definition checkRedis (cacheEnabled connected : bool) (ping : TimeoutResult unit) : Probe :=
  if negb cacheEnabled then plainProbe "bypassed" None
  else if negb connected then plainProbe "unavailable" None
  else if tr_success ping then plainProbe "healthy" None
  else plainProbe "degraded" (err_message <$> tr_error ping).

Definition checkSoroban (health : TimeoutResult SorobanHealth) : Probe :=
  mkProbe (if default false (sh_initialized <$> tr_data health) then "healthy" else "unavailable")
    (err_message <$> tr_error health) (sh_initialized <$> tr_data health) None None None None.

Definition checkOracle (cfg : OracleConfig) (w : OracleWorld) : Probe :=
  if negb (ow_running w) then plainProbe "not_running" None
  else mkProbe (if isStale cfg w then "stale" else "healthy") None None (Some (isStale cfg w))
         (ow_lastUpdatedAt w) (getStalenessSeconds w) (ow_activeSource w).

Record Health : Type := mkHealth { he_status : string; he_services : list (string * Probe) }.

Definition statusIs (p : Probe) (s : string) : bool := String.eqb (pr_status p) s.

(** GET / of the router: the status of the four probes. *)
Definition overallHealth (database redis soroban oracle : Probe) : Health :=
  mkHealth
    (if statusIs database "unhealthy" then "unhealthy"
     else if statusIs redis "degraded" || statusIs soroban "degraded" || statusIs oracle "degraded" || statusIs oracle "stale"
     then "degraded" else "healthy")
    [("database", database); ("redis", redis); ("soroban", soroban); ("oracle", oracle)].

Definition isDatabaseConfigured (dataStore : string) : bool := String.eqb dataStore "postgres".

Record LightHealth : Type := mkLightHealth {
  lh_status : string;
  lh_priceSource : string;
  lh_mockMode : bool;
  lh_soroban : string;
  lh_initialized : bool;
  lh_database : option Probe;
  lh_redis : option Probe;
}.

(** GET /health of the router: what is not configured is not probed. *)
Definition lightHealth (dataMode dataStore : string) (cacheEnabled : bool) (soroban : SorobanState)
    (database redis : Probe) : LightHealth :=
  let isMockMode := String.eqb dataMode "mock" in
  let sorobanReady := isReady soroban in
  let database := if isDatabaseConfigured dataStore then Some database else None in
  let redis := if cacheEnabled then Some redis else None in
  let degraded := negb sorobanReady ||
    match database with Some p => negb (statusIs p "healthy") | None => false end ||
    match redis with Some p => negb (statusIs p "healthy") && negb (statusIs p "bypassed") | None => false end in
  {| lh_status := if degraded then "degraded" else "ok";
     lh_priceSource := if isMockMode then "static-mock" else "coingecko";
     lh_mockMode := isMockMode;
     lh_soroban := if sorobanReady then "ok" else "unavailable";
     lh_initialized := sorobanReady;
     lh_database := database;
     lh_redis := redis |}.

(** The full answer is unhealthy exactly when the database does not answer its
    ping, and degraded exactly when it does and the connected cache does not or
    the running oracle is stale. The state of the contract service, an oracle
    that is stopped and a cache without a connection change nothing. *)
Theorem overall_status db cacheEnabled connected ping soroban cfg w
    (h := overallHealth (checkDatabase db) (checkRedis cacheEnabled connected ping) (checkSoroban soroban) (checkOracle cfg w)) :
  (he_status h = "unhealthy" <-> tr_success db = false) /\
  (he_status h = "degraded" <->
     tr_success db = true /\
     (cacheEnabled = true /\ connected = true /\ tr_success ping = false \/ ow_running w = true /\ isStale cfg w = true)) /\
  (he_status h = "healthy" \/ he_status h = "degraded" \/ he_status h = "unhealthy") /\
  (forall soroban', he_status (overallHealth (checkDatabase db) (checkRedis cacheEnabled connected ping)
                                (checkSoroban soroban') (checkOracle cfg w)) = he_status h).
Proof.
  assert (Hs : forall s, statusIs (checkSoroban s) "degraded" = false).
  { intros s. unfold statusIs, checkSoroban. cbn. by destruct (default false _). }
  assert (Hany : forall d r o s s', he_status (overallHealth d r (checkSoroban s) o) = he_status (overallHealth d r (checkSoroban s') o)).
  { intros d r o s s'. unfold overallHealth. cbn [he_status]. by rewrite !Hs. }
  subst h. split; [|split; [|split; [|intros s; apply Hany]]];
    unfold overallHealth; cbn [he_status]; rewrite Hs; unfold checkDatabase, checkRedis, checkOracle.
  all:   destruct (tr_success db), cacheEnabled, connected, (tr_success ping), (ow_running w), (isStale cfg w); cbn; naive_solver.
Qed.

(** The light answer is ok exactly when the contract service has been set up and
    every configured store answers; it lists the stores that are configured. *)
Theorem light_status dataMode dataStore cacheEnabled connected soroban db ping
    (h := lightHealth dataMode dataStore cacheEnabled soroban (checkDatabase db) (checkRedis cacheEnabled connected ping)) :
  (lh_status h = "ok" <->
     so_initialized soroban = true /\
     (dataStore = "postgres" -> tr_success db = true) /\
     (cacheEnabled = true -> connected = true /\ tr_success ping = true)) /\
  (lh_status h = "ok" \/ lh_status h = "degraded") /\
  (is_Some (lh_database h) <-> dataStore = "postgres") /\ (is_Some (lh_redis h) <-> cacheEnabled = true).
Proof.
  subst h. unfold lightHealth, isDatabaseConfigured, isReady, checkDatabase, checkRedis.
  destruct (String.eqb_spec dataStore "postgres") as [->|Hd];
    destruct (so_initialized soroban), (tr_success db), cacheEnabled, connected, (tr_success ping); cbn;
    unfold is_Some; naive_solver.
Qed.
