(* ===== verification/Operations.v ===== *)
(** * Services of the operators: platform statistics
    (src/src/services/stats.service.ts), CORS origins (src/src/utils/cors.ts and
    routes/admin-cors-diagnostics.routes.ts), and the sweeps of the in-memory
    deployment (src/src/services/memory-housekeeping.service.ts) *)

From Stdlib Require Import ZArith Ascii Lia.
From stdpp Require Import base option list gmap strings.
From S2P Require Import Prelude.
From S2P Require Import Errors.
From S2P Require Import Schema.
From S2P Require Import Challenge.

#[local] Open Scope string_scope.
#[local] Open Scope Z_scope.

(** ** Platform statistics *)

Module Stats.

Record PlatformStats : Type := mkStats {
  totalRounds : Z;
  totalUsers : Z;
  totalBets : Z;
  isFallback : bool;
  cachedAt : Z;
}.

Definition CACHE_TTL_MS : Z := 30000.

(** [MOCK_PLATFORM_STATS], and a row of counts. *)
Definition mockStats (now : Z) : PlatformStats := mkStats 0 0 0 true now.
Definition liveStats (counts : Z * Z * Z) (now : Z) : PlatformStats :=
  let '(r, u, b) := counts in mkStats r u b false now.

(** The three counts; each is answered from the tables of its own moment. *)
Definition countRounds (db : DB) : Z := Z.of_nat (size (rounds db)).
Definition countUsers (db : DB) : Z := Z.of_nat (size (users db)).
Definition countBets (db : DB) : Z :=
  Z.of_nat (size (filter (fun kp : string * Prediction =>
    p_chainStatus (snd kp) = PC_CONFIRMED \/ p_chainStatus (snd kp) = PC_NOT_REQUIRED) (predictions db))).

Definition countsOf (dbs : DB * DB * DB) : Z * Z * Z :=
  let '(d1, d2, d3) := dbs in (countRounds d1, countUsers d2, countBets d3).

(** The process: its cache, the requests that wait for the database, what the
    database has answered and what has been answered, the latest first. *)
Record StatsWorld : Type := mkStatsWorld {
  sw_now : Z;
  sw_cachedStats : option PlatformStats;
  sw_cacheExpiresAt : Z;
  sw_waiting : nat;
  sw_reads : list (Z * (DB * DB * DB));
  sw_failures : list Z;
  sw_answers : list (Z * PlatformStats);
}.

Definition getCached (w : StatsWorld) : option PlatformStats :=
  match sw_cachedStats w with
  | Some s => if sw_now w <? sw_cacheExpiresAt w then Some s else None
  | None => None
  end.

Definition setCache (s : PlatformStats) (w : StatsWorld) : StatsWorld :=
  w {{ sw_cachedStats := Some s }} {{ sw_cacheExpiresAt := sw_now w + CACHE_TTL_MS }}.

Definition answer (s : PlatformStats) (w : StatsWorld) : StatsWorld :=
  w {{ sw_answers := (sw_now w, s) :: sw_answers w }}.

Definition store (s : PlatformStats) (w : StatsWorld) : StatsWorld := answer s (setCache s w).

Section Mode.
Context (mockMode : bool).

(** [getPlatformStats] up to the database, *)
Definition requestStats (w : StatsWorld) : StatsWorld :=
  match getCached w with
  | Some hit => answer hit w
  | None =>
      if mockMode then store (mockStats (sw_now w)) w
      else w {{ sw_waiting := S (sw_waiting w) }}
  end.

(** and from its answer on: the tables it read, or [None] when a count failed. *)
Definition finishStats (reply : option (DB * DB * DB)) (w : StatsWorld) : StatsWorld :=
  match sw_waiting w with
  | O => w
  | S n =>
      let w := w {{ sw_waiting := n }} in
      match reply with
      | Some dbs => store (liveStats (countsOf dbs) (sw_now w)) (w {{ sw_reads := (sw_now w, dbs) :: sw_reads w }})
      | None => store (mockStats (sw_now w)) (w {{ sw_failures := sw_now w :: sw_failures w }})
      end
  end.

Definition invalidateStatsCache (w : StatsWorld) : StatsWorld :=
  w {{ sw_cachedStats := None }} {{ sw_cacheExpiresAt := 0 }}.

Inductive StatsEvent : Type :=
| Request
| Finish (reply : option (DB * DB * DB))
| Invalidate
| Wait (ms : nat).

Definition statsStep (w : StatsWorld) (e : StatsEvent) : StatsWorld :=
  match e with
  | Request => requestStats w
  | Finish reply => finishStats reply w
  | Invalidate => invalidateStatsCache w
  | Wait ms => w {{ sw_now := sw_now w + Z.of_nat ms }}
  end.

Definition newStats (now : Z) : StatsWorld := mkStatsWorld now None 0 0 [] [] [].

(** Where a row of statistics comes from. *)
Definition sourced (w : StatsWorld) (s : PlatformStats) : Prop :=
  if isFallback s then s = mockStats (cachedAt s) /\ (mockMode = true \/ cachedAt s ∈ sw_failures w)
  else exists dbs, (cachedAt s, dbs) ∈ sw_reads w /\ s = liveStats (countsOf dbs) (cachedAt s).

Definition stats_inv (w : StatsWorld) : Prop :=
  (forall s, sw_cachedStats w = Some s ->
     sourced w s /\ cachedAt s <= sw_now w /\ sw_cacheExpiresAt w = cachedAt s + CACHE_TTL_MS) /\
  (forall t s, (t, s) ∈ sw_answers w -> sourced w s /\ cachedAt s <= t < cachedAt s + CACHE_TTL_MS).

Lemma sourced_more w w' s :
  sw_reads w ⊆ sw_reads w' -> sw_failures w ⊆ sw_failures w' -> sourced w s -> sourced w' s.
Proof.
  intros Hr Hf. unfold sourced. destruct (isFallback s).
  - intros [H [H'|H']]; split; auto.
  - intros (dbs & H & H'). eauto.
Qed.

Lemma store_inv s w : stats_inv w -> sourced w s -> cachedAt s = sw_now w -> stats_inv (store s w).
Proof.
  intros [Hc Ha] Hs Ht. destruct w as [t0 c0 e0 n0 r0 f0 a0]. cbn in *. split; cbn.
  - intros s' [= <-]. unfold CACHE_TTL_MS. split_and!; [exact Hs|lia|lia].
  - intros t s' [[= -> ->]|Hin]%elem_of_cons; [split; [exact Hs|unfold CACHE_TTL_MS; lia]|exact (Ha t s' Hin)].
Qed.

Lemma statsStep_inv w e : stats_inv w -> stats_inv (statsStep w e).
Proof.
  intros [Hc Ha]. destruct w as [t0 c0 e0 n0 r0 f0 a0]. cbn in Hc, Ha. destruct e as [|reply| |ms]; cbn [statsStep].
  - assert (Hw : stats_inv (mkStatsWorld t0 c0 e0 n0 r0 f0 a0)) by (split; cbn; assumption).
    assert (Hmock : mockMode = true -> stats_inv (store (mockStats t0) (mkStatsWorld t0 c0 e0 n0 r0 f0 a0))).
    { intros Hm. apply store_inv; [exact Hw| |done]. split; [done|by left]. }
    assert (Hwait : stats_inv (mkStatsWorld t0 c0 e0 (S n0) r0 f0 a0)) by (split; cbn; assumption).
    unfold requestStats, getCached. cbn. destruct c0 as [s|]; [|destruct mockMode; auto].
    destruct (Hc s eq_refl) as (Hs & Hle & Hexp). destruct (Z.ltb_spec t0 e0); [|destruct mockMode; auto].
    split; cbn; [exact Hc|]. intros t s' [[= -> ->]|Hin]%elem_of_cons; [split; [exact Hs|lia]|exact (Ha t s' Hin)].
  - unfold finishStats. cbn. destruct n0 as [|n]; [split; cbn; assumption|].
    assert (Hmore : forall reads failures, r0 ⊆ reads -> f0 ⊆ failures ->
      stats_inv (mkStatsWorld t0 c0 e0 n reads failures a0)).
    { intros reads failures Hr Hf.
      assert (Hsrc : forall s, sourced (mkStatsWorld t0 c0 e0 (S n) r0 f0 a0) s -> sourced (mkStatsWorld t0 c0 e0 n reads failures a0) s).
      { intros s. by apply sourced_more. }
      split; cbn.
      - intros s Es. destruct (Hc s Es) as (? & ? & ?). auto.
      - intros t s Hin. destruct (Ha t s Hin). auto. }
    destruct reply as [dbs|].
    + apply (store_inv (liveStats (countsOf dbs) t0) (mkStatsWorld t0 c0 e0 n ((t0, dbs) :: r0) f0 a0)).
      * apply Hmore; set_solver.
      * destruct dbs as [[d1 d2] d3]. exists (d1, d2, d3). split; [apply list_elem_of_here|done].
      * by destruct dbs as [[d1 d2] d3].
    + apply (store_inv (mockStats t0) (mkStatsWorld t0 c0 e0 n r0 (t0 :: f0) a0)); [apply Hmore; set_solver| |done].
      split; [done|]. right. apply list_elem_of_here.
  - split; cbn; [done|exact Ha].
  - split; cbn; [|exact Ha]. intros s Es. destruct (Hc s Es) as (? & ? & ?). split_and!; [done|lia|done].
Qed.

(** However requests overlap, every answer is less than thirty seconds old, is
    marked as a fallback exactly when it is the constants of the demo, served
    in mock mode or after a failed count, and otherwise carries the counts the
    database gave at the time it names. *)
Theorem stats_sourced now events (w := fold_left statsStep events (newStats now)) t s :
  (t, s) ∈ sw_answers w ->
  cachedAt s <= t < cachedAt s + CACHE_TTL_MS /\
  if isFallback s then s = mockStats (cachedAt s) /\ (mockMode = true \/ cachedAt s ∈ sw_failures w)
  else exists dbs, (cachedAt s, dbs) ∈ sw_reads w /\ s = liveStats (countsOf dbs) (cachedAt s).
Proof.
  assert (H : forall es w0, stats_inv w0 -> stats_inv (fold_left statsStep es w0)).
  { induction es as [|e es IH]; cbn; intros w0 Hw; [done|]. apply IH, statsStep_inv, Hw. }
  destruct (H events (newStats now)) as [_ Ha]; [split; cbn; [done|set_solver]|].
  intros Hin. destruct (Ha t s Hin). done.
Qed.
End Mode.
End Stats.

(** ** CORS origins *)

Module Cors.

Definition parseOriginList (raw : option string) : list string :=
  match truthy raw with
  | None => []
  | Some raw => List.filter (fun o => negb (String.eqb o "")) (map trim (splitOn "," raw))
  end.

Record CorsEnv : Type := mkCorsEnv {
  ce_nodeEnv : option string;
  ce_clientUrl : option string;
  ce_allowedOrigins : option string;
}.

Inductive CorsOriginConfig : Type := AllowAll | One (origin : string) | Many (origins : list string).

Definition CLIENT_URL_REQUIRED : string :=
  "CLIENT_URL environment variable is required in production. " +:+
  "CORS cannot use a wildcard origin (*) with credentials enabled.".

Definition getCorsOrigins (env : CorsEnv) : Err + CorsOriginConfig :=
  let additional := parseOriginList (ce_allowedOrigins env) in
  match truthy (ce_clientUrl env) with
  | None => if bool_decide (ce_nodeEnv env = Some "production") then inl (PlainError CLIENT_URL_REQUIRED) else inr AllowAll
  | Some clientUrl => inr (match additional with [] => One clientUrl | _ => Many (clientUrl :: additional) end)
  end.

Record Resolved : Type := mkResolved { rs_allowAll : bool; rs_origins : list string; rs_error : option string }.

Definition normalize (resolved : CorsOriginConfig) : Resolved :=
  match resolved with
  | AllowAll => mkResolved true [] None
  | Many origins => mkResolved false origins None
  | One "*" => mkResolved true [] None
  | One origin => mkResolved false [origin] None
  end.

Record Diagnostics : Type := mkDiagnostics {
  dg_nodeEnv : string;
  dg_clientUrl : option string;
  dg_allowedOrigins : list string;
  dg_resolved : Resolved;
  dg_test : option (string * option bool);
}.

Definition matches (testOrigin : option string) (r : Resolved) : option bool :=
  match testOrigin with
  | None => None
  | Some origin => Some (rs_allowAll r || existsb (String.eqb origin) (rs_origins r))
  end.

(** GET /, behind requireAdmin: [origin] is the parameter of the query when it
    is one text. HTTP and sockets share their origins. *)
Definition diagnose (env : CorsEnv) (origin : option string) : Diagnostics :=
  let resolved := match getCorsOrigins env with
                  | inr c => normalize c
                  | inl e => mkResolved false [] (Some (err_message e))
                  end in
  {| dg_nodeEnv := default "development" (ce_nodeEnv env);
     dg_clientUrl := ce_clientUrl env;
     dg_allowedOrigins := parseOriginList (ce_allowedOrigins env);
     dg_resolved := resolved;
     dg_test := match truthy origin with Some o => Some (o, matches origin resolved) | None => None end |}.

Lemma parseOriginList_trimmed raw o : o ∈ parseOriginList raw -> o <> "" /\ exists s, o = trim s.
Proof.
  unfold parseOriginList. destruct (truthy raw) as [r|]; [|set_solver].
  intros Hin%list_elem_of_In. apply filter_In in Hin as [Hin Hne]. apply in_map_iff in Hin as (s & <- & _).
  split; [|by exists s]. intros He. by rewrite He in Hne.
Qed.

(** No origin but the listed ones is let in in production: without CLIENT_URL
    the application does not start, and with it the origins are that text and
    the non-empty items of ALLOWED_ORIGINS. The diagnostics say of an origin
    that it is accepted exactly when it is one of them, or all are. *)
Theorem cors_exact env origin (d := diagnose env origin) :
  (ce_nodeEnv env = Some "production" ->
     (truthy (ce_clientUrl env) = None -> getCorsOrigins env = inl (PlainError CLIENT_URL_REQUIRED) /\
        dg_resolved d = mkResolved false [] (Some CLIENT_URL_REQUIRED)) /\
     (rs_allowAll (dg_resolved d) = true -> ce_clientUrl env = Some "*" /\ dg_allowedOrigins d = [])) /\
  (forall url, truthy (ce_clientUrl env) = Some url ->
     getCorsOrigins env = inr (if bool_decide (dg_allowedOrigins d = []) then One url else Many (url :: dg_allowedOrigins d))) /\
  (forall o b, dg_test d = Some (o, Some b) ->
     origin = Some o /\ (b = true <-> rs_allowAll (dg_resolved d) = true \/ o ∈ rs_origins (dg_resolved d))).
Proof.
  assert (Htruthy : forall x u, truthy x = Some u -> x = Some u).
  { intros [s|] u; cbn; [|done]. destruct (String.eqb s ""); [done|]. by intros [= ->]. }
  subst d. split_and!.
  - intros Hp. split.
    + intros Hn. unfold diagnose, getCorsOrigins. rewrite Hn, Hp. done.
    + unfold diagnose, getCorsOrigins. cbn [dg_resolved dg_allowedOrigins]. rewrite Hp.
      destruct (truthy (ce_clientUrl env)) as [u|] eqn:Eu; [|done]. rewrite (Htruthy _ _ Eu).
      destruct (parseOriginList (ce_allowedOrigins env)); [|done]. intros Hall. split; [|done].
      cbn in Hall. by repeat (match type of Hall with context [match ?x with _ => _ end] => destruct x end; cbn in Hall).
  - intros url Hu. unfold getCorsOrigins. rewrite Hu. cbn. by destruct (parseOriginList (ce_allowedOrigins env)).
  - intros o b. unfold diagnose. cbn [dg_test dg_resolved].
    destruct (truthy origin) as [o'|] eqn:Eo; [|done]. rewrite (Htruthy _ _ Eo). cbn [matches]. intros [= <- <-].
    split; [done|]. rewrite orb_true_iff, existsb_exists. split; intros [H|H]; auto; right.
    + destruct H as (x & Hin & He%String.eqb_eq). subst x. by apply list_elem_of_In.
    + exists o'. split; [by apply list_elem_of_In|apply String.eqb_refl].
Qed.
End Cors.

(** ** Sweeps of the in-memory deployment *)

Module Housekeeping.

(** [ms_timer] is whether the interval runs; [ms_running] is [isRunning]. A sweep
    waits for the challenges, then for the keys. *)
Inductive Phase : Type := Idle | AtChallenges | AtKeys (challengesPurged : Z).

Record SweepWorld : Type := mkSweepWorld {
  ms_timer : bool;
  ms_running : bool;
  ms_sweeps : list Phase;
  ms_results : list (Z * Z);
}.

Definition newSweeps : SweepWorld := mkSweepWorld false false [] [].

Definition start (dataStore : string) (w : SweepWorld) : SweepWorld :=
  if ms_timer w then w
  else if negb (String.eqb dataStore "memory") then w
  else w {{ ms_timer := true }}.

Definition stop (w : SweepWorld) : SweepWorld := if ms_timer w then w {{ ms_timer := false }} else w.

(** [runOnce] up to its first call. *)
Definition runOnce (w : SweepWorld) : SweepWorld :=
  if ms_running w then w {{ ms_results := (0, 0) :: ms_results w }}
  else w {{ ms_running := true }} {{ ms_sweeps := AtChallenges :: ms_sweeps w }}.

Definition done_ (r : Z * Z) (rest : list Phase) (w : SweepWorld) : SweepWorld :=
  w {{ ms_running := false }} {{ ms_sweeps := rest }} {{ ms_results := r :: ms_results w }}.

(** The [i]-th sweep that waits gets its answer: a count, or [None] for a throw. *)
Definition answered (i : nat) (reply : option Z) (w : SweepWorld) : SweepWorld :=
  match ms_sweeps w !! i with
  | Some AtChallenges =>
      match reply with
      | Some n => w {{ ms_sweeps := <[i := AtKeys n]> (ms_sweeps w) }}
      | None => done_ (0, 0) (delete i (ms_sweeps w)) w
      end
  | Some (AtKeys challengesPurged) =>
      done_ (match reply with Some n => (challengesPurged, n) | None => (0, 0) end) (delete i (ms_sweeps w)) w
  | _ => w
  end.

Inductive SweepEvent : Type :=
| Start (dataStore : string)
| Stop
| Tick
| RunOnce
| Answered (i : nat) (reply : option Z).

Definition sweepStep (w : SweepWorld) (e : SweepEvent) : SweepWorld :=
  match e with
  | Start dataStore => start dataStore w
  | Stop => stop w
  | Tick => if ms_timer w then runOnce w else w
  | RunOnce => runOnce w
  | Answered i reply => answered i reply w
  end.

Definition sweep_inv (w : SweepWorld) : Prop :=
  (length (ms_sweeps w) = if ms_running w then 1 else 0)%nat /\ Idle ∉ ms_sweeps w.

Lemma sweepStep_inv w e : sweep_inv w -> sweep_inv (sweepStep w e).
Proof.
  destruct w as [timer run sweeps results]. intros [Hl Hi]. cbn in Hl, Hi.
  assert (Hw : sweep_inv (mkSweepWorld timer run sweeps results)) by (split; assumption).
  assert (Hrun : sweep_inv (runOnce (mkSweepWorld timer run sweeps results))).
  { unfold runOnce. cbn. destruct run; split; cbn; [assumption..|lia|set_solver]. }
  destruct e as [ds| | | |i reply]; cbn [sweepStep].
  - unfold start. cbn. destruct timer; [done|]. by destruct (negb _).
  - unfold stop. cbn. by destruct timer.
  - cbn. by destruct timer.
  - done.
  - unfold answered. cbn. destruct (sweeps !! i) as [ph|] eqn:Ei; [|done].
    assert (Hdone : forall r, sweep_inv (done_ r (delete i sweeps) (mkSweepWorld timer run sweeps results))).
    { intros r. apply lookup_lt_Some in Ei as Hlt. destruct run; [|lia].
      destruct sweeps as [|p [|q l]]; [done| |done]. destruct i; [|cbn in Hlt; lia]. split; cbn; [done|set_solver]. }
    destruct ph as [| |n]; [done| |apply Hdone]. destruct reply as [n|]; [|apply Hdone].
    split; cbn; [by rewrite length_insert|].
    intros Hin%list_elem_of_lookup. destruct Hin as (j & Hj). destruct (decide (i = j)) as [<-|Hne].
    + rewrite list_lookup_insert_eq in Hj; [done|by apply lookup_lt_Some in Ei].
    + rewrite list_lookup_insert_ne in Hj by done. apply Hi, list_elem_of_lookup. by exists j.
Qed.

(** Whatever the timer, callers and answers do, at most one sweep is under way,
    the guard is up exactly then, and once its calls are answered, be it by
    errors, the next sweep begins. *)
Theorem sweeps_alone events (w := fold_left sweepStep events newSweeps) :
  (length (ms_sweeps w) <= 1)%nat /\ (ms_running w = true <-> ms_sweeps w <> []) /\
  (ms_running w = false -> ms_sweeps (runOnce w) = [AtChallenges]) /\
  (forall reply1 reply2, ms_running (answered 0 reply2 (answered 0 reply1 w)) = false).
Proof.
  assert (H : forall es w0, sweep_inv w0 -> sweep_inv (fold_left sweepStep es w0)).
  { induction es as [|e es IH]; cbn; intros w0 Hw; [done|]. apply IH, sweepStep_inv, Hw. }
  destruct (H events newSweeps) as [Hl Hi]; [split; [done|set_solver]|]. fold w in Hl, Hi.
  clearbody w. clear H. destruct w as [timer [|] [|p l] results]; cbn in *; try lia.
  - destruct l; [|done]. split_and!; [lia|done|done|]. intros reply1 reply2.
    destruct p as [| |n]; [set_solver| |]; unfold answered; cbn; destruct reply1, reply2; done.
  - split_and!; [lia|done|done|done].
Qed.
End Housekeeping.
