(* ===== verification/Bindings.v ===== *)
(** * The vendored bindings (src/src/utils/bindings-validator.ts)

    The check of the generated client of the contract against the pin: its
    revision, its types, its compiled methods and the contract interface inside
    it. The files are what a directory answers; texts are UTF-16, and the
    expressions are matched by [RegExp]. The names of the pin are words, so that
    they stand for themselves in an expression. *)

From Stdlib Require Import NArith ZArith Ascii Lia.
From stdpp Require Import base option list strings.
From S2P Require Import Prelude.
From S2P Require Import Errors.
From S2P Require Import RegExp.
From S2P Require Import Chat.

#[local] Open Scope string_scope.
#[local] Open Scope N_scope.

(** ** The pin *)

Record BindingsPin : Type := mkPin {
  bp_repository : string;
  bp_ref : string;
  bp_commitSha : string;
  bp_packageName : string;
  bp_requiredArtifacts : list string;
  bp_requiredValueExports : list string;
  bp_requiredTypeExports : list string;
  bp_requiredEnumMembers : list (string * list string);
  bp_requiredTypeFields : list (string * list string);
  bp_requiredMethods : list (string * list string);
}.

(** The object in bindings.pin.json, any of whose keys may be missing. *)
Record ParsedPin : Type := mkParsedPin {
  pp_repository : option string;
  pp_ref : option string;
  pp_commitSha : option string;
  pp_packageName : option string;
  pp_requiredArtifacts : option (list string);
  pp_requiredValueExports : option (list string);
  pp_requiredTypeExports : option (list string);
  pp_requiredEnumMembers : option (list (string * list string));
  pp_requiredTypeFields : option (list (string * list string));
  pp_requiredMethods : option (list (string * list string));
}.

Inductive PinFault : Type := PinMissing | PinNotJson | PinKeyMissing (key : string) | PinBadSha (sha : string).

Definition noFlag (c : N) : N := c.

(** [/^[0-9a-f]{40}$/] *)
Definition hexUnit : Pattern := OneUnit (fun c => isDigitUnit c || ((97 <=? c) && (c <=? 102))).
Definition shaPattern : Pattern := seqs ([Start] ++ repeat hexUnit 40 ++ [End_])%list.

(** [file]: the pin as parsed, [Some None] when it is not JSON. *)
Definition loadBindingsPin (file : option (option ParsedPin)) : PinFault + BindingsPin :=
  match file with
  | None => inl PinMissing
  | Some None => inl PinNotJson
  | Some (Some p) =>
      match pp_repository p, pp_ref p, pp_commitSha p, pp_packageName p, pp_requiredArtifacts p, pp_requiredMethods p with
      | None, _, _, _, _, _ => inl (PinKeyMissing "repository")
      | _, None, _, _, _, _ => inl (PinKeyMissing "ref")
      | _, _, None, _, _, _ => inl (PinKeyMissing "commitSha")
      | _, _, _, None, _, _ => inl (PinKeyMissing "packageName")
      | _, _, _, _, None, _ => inl (PinKeyMissing "requiredArtifacts")
      | _, _, _, _, _, None => inl (PinKeyMissing "requiredMethods")
      | Some repository, Some ref, Some commitSha, Some packageName, Some artifacts, Some methods =>
          if test noFlag shaPattern (lit commitSha) then
            inr (mkPin repository ref commitSha packageName artifacts (default [] (pp_requiredValueExports p))
                   (default [] (pp_requiredTypeExports p)) (default [] (pp_requiredEnumMembers p))
                   (default [] (pp_requiredTypeFields p)) methods)
          else inl (PinBadSha commitSha)
      end
  end.

(** ** Reading texts *)

(** The first match of [p] followed by [g] and [q]: where it begins, where what
    [g] takes begins and ends, and where the match ends. *)
Definition spanHere (canonicalize : N -> N) (p g q : Pattern) (before rest : Text) : option (nat * nat * nat) :=
  let len (k : nat -> nat -> nat -> nat) :=
    matchHere canonicalize p before rest None (fun b1 r1 _ =>
      matchHere canonicalize g b1 r1 None (fun b2 r2 _ =>
        matchHere canonicalize q b2 r2 None (fun b3 _ _ => Some (k (length b1) (length b2) (length b3))))) in
  match len (fun a _ _ => a), len (fun _ b _ => b), len (fun _ _ c => c) with
  | Some a, Some b, Some c => Some (a, b, c)
  | _, _, _ => None
  end.

(** [exec], and [matchAll] of matches that are not empty; [here] says where a
    match may begin. Positions count from the start of the text. *)
Fixpoint spanFrom (here : Text -> bool) (canonicalize : N -> N) (p g q : Pattern) (before rest : Text) : option (nat * nat * nat) :=
  match (if here before then spanHere canonicalize p g q before rest else None) with
  | Some r => Some r
  | None => match rest with c :: rest => spanFrom here canonicalize p g q (c :: before) rest | [] => None end
  end.

Definition anywhere (before : Text) : bool := true.

(** [^] under the flag m *)
Definition lineStart (before : Text) : bool := match before with [] => true | c :: _ => isLineEnd c end.

Fixpoint spans (fuel : nat) (here : Text -> bool) (canonicalize : N -> N) (p g q : Pattern) (from : nat) (s : Text)
    : list (nat * nat * nat) :=
  match fuel with
  | O => []
  | S fuel =>
      match spanFrom here canonicalize p g q (rev (take from s)) (drop from s) with
      | Some ((_, _, e) as r) => r :: spans fuel here canonicalize p g q e s
      | None => []
      end
  end.

Definition matchAll (here : Text -> bool) (canonicalize : N -> N) (p g q : Pattern) (s : Text) : list (nat * nat * nat) :=
  spans (S (length s)) here canonicalize p g q 0 s.

Definition slice (a b : nat) (s : Text) : Text := take (b - a) (drop a s).

(** The flag i *)
Definition upperUnit (c : N) : N := if (97 <=? c) && (c <=? 122) then c - 32 else c.

Definition nameStart : Pattern := OneUnit (fun c => isLetterUnit c || (c =? 95)).
Definition nameRest : Pattern := OneUnit isWordUnit.
Definition methodName : Pattern := Seq nameStart (Star nameRest).
Definition spaces : Pattern := Star space_.
Definition char_ (a : ascii) : Pattern := unit_ (N_of_ascii a).

(** ** The declared types *)

Definition declares (words : list Pattern) (name : string) : Pattern :=
  seqs ([literal "export"; plus space_] ++ words ++ [plus space_; literal name; WordBoundary])%list.

Definition declaresValue (name : string) (dts : Text) : bool :=
  test noFlag (declares [literal "declare"; plus space_; alts (map literal ["class"; "const"; "enum"; "function"])] name) dts.

Definition declaresType (name : string) (dts : Text) : bool :=
  test noFlag (declares [opt (Seq (literal "declare") (plus space_)); alts (map literal ["interface"; "type"; "enum"; "class"])] name) dts.

(** The text between the braces of a declaration. *)
Definition block (words : list string) (name : string) (dts : Text) : option Text :=
  match spanFrom anywhere noFlag
          (seqs (flat_map (fun w => [literal w; plus space_]) words ++ [literal name; spaces; char_ "{"])%list)
          (Star (OneUnit (fun c => negb (c =? 125)))) (char_ "}") [] dts with
  | Some (a, b, _) => Some (slice a b dts)
  | None => None
  end.

Definition hasMember (member : string) (body : Text) : bool :=
  test noFlag (seqs [WordBoundary; literal member; spaces; char_ "="]) body.

Definition hasField (field : string) (body : Text) : bool :=
  test noFlag (seqs [WordBoundary; literal field; spaces; opt (char_ "?"); spaces; char_ ":"]) body.

(** The position of the bracket that closes the one the text begins with. *)
Fixpoint closing (opens closes : N) (depth i : nat) (s : Text) : option nat :=
  match s with
  | [] => None
  | c :: s =>
      if c =? opens then closing opens closes (S depth) (S i) s
      else if c =? closes then
        match depth with
        | 1%nat => Some i
        | _ => closing opens closes (pred depth) (S i) s
        end
      else closing opens closes depth (S i) s
  end.

Definition extractClientInterface (dts : Text) : option Text :=
  match spanFrom anywhere noFlag
          (seqs [literal "export"; plus space_; literal "interface"; plus space_; literal "Client"; spaces]) Nothing (char_ "{") [] dts with
  | None => None
  | Some (_, start, _) =>
      match closing 123 125 0 0 (drop start dts) with
      | Some n => Some (slice (S start) (start + n) dts)
      | None => None
      end
  end.

(** In the order of the text; a later member of a name replaces an earlier. *)
Definition parseDeclaredMethods (clientBody : Text) : list (Text * Text) :=
  flat_map (fun '(a, b, e) =>
      let parenStart := pred e in
      match closing 40 41 0 0 (drop parenStart clientBody) with
      | Some n => [(slice a b clientBody, slice parenStart (S (parenStart + n)) clientBody)]
      | None => []
      end)
    (matchAll anywhere upperUnit (Seq (Alt Start (oneOfUnits [59; 125; 10])) spaces) methodName
       (seqs [spaces; char_ ":"; spaces; char_ "("]) clientBody).

Definition signatureOf (method : string) (signatures : list (Text * Text)) : option Text :=
  snd <$> List.find (fun m => bool_decide (fst m = lit method)) (rev signatures).

(** ** The compiled methods and the contract interface *)

Definition parseRuntimeMethods (js : Text) : list Text :=
  match spanFrom anywhere noFlag (seqs [literal "fromJSON"; spaces; char_ "="; spaces; char_ "{"])
          (Lazy (OneUnit (fun _ => true))) (seqs [unit_ 10; spaces; char_ "}"; char_ ";"]) [] js with
  | None => []
  | Some (a, b, _) =>
      let body := slice a b js in
      map (fun '(c, d, _) => slice c d body)
        (matchAll lineStart upperUnit spaces methodName (Seq spaces (char_ ":")) body)
  end.

Definition base64Unit : Pattern :=
  OneUnit (fun c => isLetterUnit c || isDigitUnit c || (c =? 43) || (c =? 47)).

(** The bytes of the length in front of an XDR text, and the text. *)
Definition lengthPrefix (n : N) : Text := map (fun k => N.land (N.shiftr n k) 255) [24; 16; 8; 0].
Definition xdrToken (token : string) : Text := (lengthPrefix (N.of_nat (length (lit token))) ++ lit token)%list.
Definition specContainsToken (entry : Text) (token : string) : bool := test noFlag (seqs (map unit_ (xdrToken token))) entry.

Inductive BindingsError : Type :=
| BadPin (fault : PinFault)
| VendorMissing
| EsmMissing | CjsMissing
| ArtifactMissing (artifact : string)
| PackageMissing | PackageNotJson | PackageName (name : option string)
| ShaMissing | ShaSkew (sha : Text)
| TypesMissing
| ValueExport (name : string) | TypeExport (name : string)
| EnumMissing (name : string) | EnumMember (name member : string)
| InterfaceMissing (name : string) | InterfaceField (name field : string)
| ClientMissing | MethodMissing (method : string) | MethodArgument (method arg : string)
| RuntimeMethod (label method : string)
| AbiMethod (method : string) | AbiArgument (method arg : string).

Inductive BindingsWarning : Type := RuntimeUnreadable (label : string) | AbiUnreadable.

Section Validate.
(** [Buffer.from(b64, "base64").toString("latin1")], and the name in the parsed
    package.json: [None] when it is not JSON, [Some None] without a name. *)
Context (latin1OfBase64 : Text -> Text) (packageNameOf : Text -> option (option string)).

Definition decodeSpecEntries (js : Text) : list Text :=
  map (fun '(a, b, _) => latin1OfBase64 (slice a b js))
    (matchAll anywhere noFlag (unit_ 34)
       (seqs (repeat base64Unit 40 ++ [Star base64Unit; opt (char_ "="); opt (char_ "=")])%list) (unit_ 34) js).

(** The directory of the vendored package: what exists and what can be read. *)
Record Vendor : Type := mkVendor { vd_exists : bool; vd_has : string -> bool; vd_read : string -> option Text }.

Definition failUnless (b : bool) (e : BindingsError) : list BindingsError := if b then [] else [e].

Definition requireAll {A} (l : list A) (f : A -> list BindingsError) : list BindingsError := flat_map f l.

Definition packageErrors (pin : BindingsPin) (v : Vendor) : list BindingsError :=
  match vd_read v "package.json" with
  | None => [PackageMissing]
  | Some raw =>
      match packageNameOf raw with
      | None => [PackageNotJson]
      | Some name => failUnless (bool_decide (name = Some (bp_packageName pin))) (PackageName name)
      end
  end.

Definition shaErrors (pin : BindingsPin) (v : Vendor) : list BindingsError :=
  match vd_read v ".commit-sha" with
  | None => [ShaMissing]
  | Some raw =>
      match trimUnits raw with
      | [] => [ShaMissing]
      | sha => failUnless (bool_decide (sha = lit (bp_commitSha pin))) (ShaSkew sha)
      end
  end.

Definition blockErrors (found : option Text) (missing : BindingsError) (has : string -> Text -> bool)
    (absent : string -> BindingsError) (names : list string) : list BindingsError :=
  match found with
  | None => [missing]
  | Some body => requireAll names (fun n => failUnless (has n body) (absent n))
  end.

Definition clientErrors (pin : BindingsPin) (dts : Text) : list BindingsError :=
  match extractClientInterface dts with
  | None => [ClientMissing]
  | Some body =>
      let signatures := parseDeclaredMethods body in
      requireAll (bp_requiredMethods pin) (fun '(method, args) =>
        blockErrors (signatureOf method signatures) (MethodMissing method) hasField (MethodArgument method) args)
  end.

Definition typeErrors (pin : BindingsPin) (v : Vendor) : list BindingsError :=
  match vd_read v "dist/index.d.ts" with
  | None => [TypesMissing]
  | Some dts =>
      requireAll (bp_requiredValueExports pin) (fun n => failUnless (declaresValue n dts) (ValueExport n)) ++
      requireAll (bp_requiredTypeExports pin) (fun n => failUnless (declaresType n dts) (TypeExport n)) ++
      requireAll (bp_requiredEnumMembers pin) (fun '(n, members) =>
        blockErrors (block ["export"; "declare"; "enum"] n dts) (EnumMissing n) hasMember (EnumMember n) members) ++
      requireAll (bp_requiredTypeFields pin) (fun '(n, fields) =>
        blockErrors (block ["export"; "interface"] n dts) (InterfaceMissing n) hasField (InterfaceField n) fields) ++
      clientErrors pin dts
  end%list.

Definition runtimeErrors (pin : BindingsPin) (label : string) (source : option Text) : list BindingsError * list BindingsWarning :=
  match source with
  | None => ([], [])
  | Some js =>
      match parseRuntimeMethods js with
      | [] => ([], [RuntimeUnreadable label])
      | methods =>
          (requireAll (bp_requiredMethods pin) (fun '(m, _) =>
             failUnless (existsb (fun x => bool_decide (x = lit m)) methods) (RuntimeMethod label m)), [])
      end
  end.

Definition abiErrors (pin : BindingsPin) (source : option Text) : list BindingsError * list BindingsWarning :=
  match source with
  | None => ([], [])
  | Some js =>
      match decodeSpecEntries js with
      | [] => ([], [AbiUnreadable])
      | entries =>
          (requireAll (bp_requiredMethods pin) (fun '(m, args) =>
             blockErrors (List.find (fun e => specContainsToken e m) entries) (AbiMethod m)
               (fun arg entry => specContainsToken entry arg) (AbiArgument m) args), [])
      end
  end.

Record BindingsValidationResult : Type := mkResult {
  br_ok : bool;
  br_errors : list BindingsError;
  br_warnings : list BindingsWarning;
}.

Definition finish (errors : list BindingsError) (warnings : list BindingsWarning) : BindingsValidationResult :=
  mkResult (bool_decide (length errors = 0%nat)) errors warnings.

Definition validateVendoredBindings (pinFile : option (option ParsedPin)) (v : Vendor) : BindingsValidationResult :=
  match loadBindingsPin pinFile with
  | inl fault => finish [BadPin fault] []
  | inr pin =>
      if negb (vd_exists v) then finish [VendorMissing] []
      else
        let '(esmErrors, esmWarnings) := runtimeErrors pin "ESM" (vd_read v "dist/index.js") in
        let '(cjsErrors, cjsWarnings) := runtimeErrors pin "CJS" (vd_read v "dist/cjs/index.js") in
        let '(specErrors, specWarnings) := abiErrors pin (vd_read v "dist/index.js") in
        finish
          (failUnless (vd_has v "dist/index.js") EsmMissing ++ failUnless (vd_has v "dist/cjs/index.js") CjsMissing ++
           requireAll (bp_requiredArtifacts pin) (fun a => failUnless (vd_has v a) (ArtifactMissing a)) ++
           packageErrors pin v ++ shaErrors pin v ++ typeErrors pin v ++ esmErrors ++ cjsErrors ++ specErrors)%list
          (esmWarnings ++ cjsWarnings ++ specWarnings)%list
  end.
(** ** What an accepted package has *)

Lemma failUnless_nil b e : failUnless b e = [] <-> b = true.
Proof. by destruct b. Qed.

Lemma requireAll_nil {A} (l : list A) f : requireAll l f = [] <-> forall x, In x l -> f x = [].
Proof.
  induction l as [|y l IH]; cbn; [by split|]. rewrite app_nil. split.
  - intros [Hy Hl] x [<-|Hx]; [exact Hy|]. by apply IH.
  - intros H. split; [by apply H; left|]. apply IH. intros x Hx. by apply H; right.
Qed.

Lemma blockErrors_nil found missing has absent names :
  blockErrors found missing has absent names = [] <->
  exists body, found = Some body /\ forall n, In n names -> has n body = true.
Proof.
  unfold blockErrors. destruct found as [body|]; [|split; [done|by intros (? & ? & _)]].
  rewrite requireAll_nil. split.
  - intros H. exists body. split; [done|]. intros n Hn. by eapply failUnless_nil, H.
  - intros (b & [= <-] & H) n Hn. by apply failUnless_nil, H.
Qed.

Lemma packageErrors_nil pin v :
  packageErrors pin v = [] -> exists raw, vd_read v "package.json" = Some raw /\ packageNameOf raw = Some (Some (bp_packageName pin)).
Proof.
  unfold packageErrors. destruct (vd_read v "package.json") as [raw|]; [|done].
  destruct (packageNameOf raw) as [name|] eqn:E; [|done]. intros H%failUnless_nil%bool_decide_eq_true_1.
  exists raw. split; [done|]. by rewrite E, H.
Qed.

Lemma shaErrors_nil pin v :
  shaErrors pin v = [] -> exists raw, vd_read v ".commit-sha" = Some raw /\ trimUnits raw = lit (bp_commitSha pin).
Proof.
  unfold shaErrors. destruct (vd_read v ".commit-sha") as [raw|]; [|done].
  destruct (trimUnits raw) as [|c sha] eqn:E; [done|]. intros H%failUnless_nil%bool_decide_eq_true_1.
  exists raw. split; [done|]. by rewrite E.
Qed.

(** The surface of the client as its declarations give it. *)
Definition declared (pin : BindingsPin) (dts : Text) : Prop :=
  (forall n, In n (bp_requiredValueExports pin) -> declaresValue n dts = true) /\
  (forall n, In n (bp_requiredTypeExports pin) -> declaresType n dts = true) /\
  (forall n fields, In (n, fields) (bp_requiredTypeFields pin) ->
     exists body, block ["export"; "interface"] n dts = Some body /\ forall f, In f fields -> hasField f body = true) /\
  (forall n members, In (n, members) (bp_requiredEnumMembers pin) ->
     exists body, block ["export"; "declare"; "enum"] n dts = Some body /\ forall m, In m members -> hasMember m body = true) /\
  (forall m args, In (m, args) (bp_requiredMethods pin) ->
     exists body signature, extractClientInterface dts = Some body /\
       signatureOf m (parseDeclaredMethods body) = Some signature /\ forall a, In a args -> hasField a signature = true).

Lemma typeErrors_nil pin v :
  typeErrors pin v = [] -> exists dts, vd_read v "dist/index.d.ts" = Some dts /\ declared pin dts.
Proof.
  unfold typeErrors. destruct (vd_read v "dist/index.d.ts") as [dts|]; [|done].
  rewrite !app_nil, !requireAll_nil. intros (Hv & Ht & He & Hf & Hc). exists dts. split; [done|].
  unfold declared. split_and!.
  - intros n Hn. by eapply failUnless_nil, Hv.
  - intros n Hn. by eapply failUnless_nil, Ht.
  - intros n fields Hn. exact (proj1 (blockErrors_nil _ _ _ _ _) (Hf (n, fields) Hn)).
  - intros n members Hn. exact (proj1 (blockErrors_nil _ _ _ _ _) (He (n, members) Hn)).
  - intros m args Hm. unfold clientErrors in Hc. destruct (extractClientInterface dts) as [body|]; [|done].
    destruct (proj1 (blockErrors_nil _ _ _ _ _) (proj1 (requireAll_nil _ _) Hc (m, args) Hm)) as (s & Hs & Ha). by exists body, s.
Qed.

Lemma runtimeErrors_nil pin label source :
  fst (runtimeErrors pin label source) = [] ->
  forall js m args, source = Some js -> In (m, args) (bp_requiredMethods pin) ->
  In (lit m) (parseRuntimeMethods js) \/ snd (runtimeErrors pin label source) = [RuntimeUnreadable label].
Proof.
  intros H js m args -> Hm. unfold runtimeErrors in H |- *. destruct (parseRuntimeMethods js) as [|x l]; [by right|]. left. cbn [fst] in H.
  pose proof (proj1 (requireAll_nil _ _) H (m, args) Hm) as Hx. apply failUnless_nil in Hx.
  apply (proj1 (existsb_exists (fun x : Text => bool_decide (x = lit m)) (x :: l))) in Hx as (y & Hy & Heq).
  apply bool_decide_eq_true_1 in Heq. by subst y.
Qed.

Lemma abiErrors_nil pin source :
  fst (abiErrors pin source) = [] ->
  forall js m args, source = Some js -> In (m, args) (bp_requiredMethods pin) ->
  (exists entry, In entry (decodeSpecEntries js) /\ forall t, In t (m :: args) -> specContainsToken entry t = true) \/
  snd (abiErrors pin source) = [AbiUnreadable].
Proof.
  intros H js m args -> Hm. unfold abiErrors in H |- *. destruct (decodeSpecEntries js) as [|x l] eqn:E; [by right|]. left. cbn [fst] in H.
  destruct (proj1 (blockErrors_nil _ _ _ _ _) (proj1 (requireAll_nil _ _) H (m, args) Hm)) as (entry & Hf & Ha).
  apply find_some in Hf as [Hin Hm']. exists entry. split; [exact Hin|]. intros t [<-|Ht]; [exact Hm'|exact (Ha t Ht)].
Qed.

(** A package that is accepted without a warning is the pinned revision under
    the pinned name with every artifact, declares every required type and
    method with its arguments, has every required method in both builds it can
    read, and holds for each an entry of the contract interface with its name
    and those of its arguments. *)
Theorem bindings_verified pinFile v (r := validateVendoredBindings pinFile v) :
  br_ok r = true ->
  exists pin, loadBindingsPin pinFile = inr pin /\ vd_exists v = true /\
    (forall a, In a ("dist/index.js" :: "dist/cjs/index.js" :: bp_requiredArtifacts pin) -> vd_has v a = true) /\
    (exists raw, vd_read v "package.json" = Some raw /\ packageNameOf raw = Some (Some (bp_packageName pin))) /\
    (exists raw, vd_read v ".commit-sha" = Some raw /\ trimUnits raw = lit (bp_commitSha pin)) /\
    (exists dts, vd_read v "dist/index.d.ts" = Some dts /\ declared pin dts) /\
    (br_warnings r = [] -> forall m args, In (m, args) (bp_requiredMethods pin) ->
       (forall js, vd_read v "dist/index.js" = Some js \/ vd_read v "dist/cjs/index.js" = Some js -> In (lit m) (parseRuntimeMethods js)) /\
       (forall js, vd_read v "dist/index.js" = Some js ->
          exists entry, In entry (decodeSpecEntries js) /\ forall t, In t (m :: args) -> specContainsToken entry t = true)).
Proof.
  subst r. unfold validateVendoredBindings. destruct (loadBindingsPin pinFile) as [fault|pin] eqn:Ep; [done|].
  destruct (vd_exists v) eqn:Ev; cbn [negb]; [|done].
  destruct (runtimeErrors pin "ESM" (vd_read v "dist/index.js")) as [e1 w1] eqn:E1.
  destruct (runtimeErrors pin "CJS" (vd_read v "dist/cjs/index.js")) as [e2 w2] eqn:E2.
  destruct (abiErrors pin (vd_read v "dist/index.js")) as [e3 w3] eqn:E3.
  unfold finish. cbn [br_ok br_warnings]. intros Hok%bool_decide_eq_true_1%length_zero_iff_nil.
  rewrite !app_nil, !failUnless_nil, requireAll_nil in Hok.
  destruct Hok as (Hesm & Hcjs & Hart & Hpkg & Hsha & Htyp & -> & -> & ->).
  exists pin. split_and!; [done|done| |by apply packageErrors_nil|by apply shaErrors_nil|by apply typeErrors_nil|].
  - intros a [<-|[<-|Ha]]; [done|done|]. by eapply failUnless_nil, Hart.
  - intros Hw m args Hm. rewrite !app_nil in Hw. destruct Hw as (-> & -> & ->). split.
    + intros js [Hr|Hr].
      * pose proof (runtimeErrors_nil pin "ESM" (vd_read v "dist/index.js")) as H. rewrite E1 in H.
        by destruct (H eq_refl js m args Hr Hm).
      * pose proof (runtimeErrors_nil pin "CJS" (vd_read v "dist/cjs/index.js")) as H. rewrite E2 in H.
        by destruct (H eq_refl js m args Hr Hm).
    + intros js Hr. pose proof (abiErrors_nil pin (vd_read v "dist/index.js")) as H. rewrite E3 in H.
      by destruct (H eq_refl js m args Hr Hm).
Qed.
End Validate.
