(* ===== verification/DeadLetterRoutes.v ===== *)
(** * Dead letters shown and replayed (src/src/utils/redact-payload.ts,
    src/src/routes/admin-dead-letter.routes.ts, the list and the dry runs of
    src/src/services/dead-letter-queue.service.ts)

    What an administrator sees of a payload, and the requests that list and
    replay the rows, on the operations of [Outbox]. Payloads are JSON; the keys
    and texts are matched by [RegExp]. Lengths and slices are those of ASCII
    texts, as wallet addresses are, and only ASCII letters have upper case. *)

From Stdlib Require Import NArith ZArith QArith Qround Lia.
From stdpp Require Import base option list gmap strings.
From S2P Require Import Prelude.
From S2P Require Import Numeric.
From S2P Require Import Errors.
From S2P Require Import Schema.
From S2P Require Import Store.
From S2P Require Import Challenge.
From S2P Require Import Digits.
From S2P Require Import Outbox.
From S2P Require Import RegExp.
From S2P Require Import BetRoutes.
From S2P Require Import Bindings.

#[local] Open Scope string_scope.
#[local] Open Scope Z_scope.

(** ** Redaction *)

Definition dashOrUnderscore : Pattern := opt (oneOfUnits [95%N; 45%N]).
Definition wordI (s : string) : Pattern := literalI upperUnit s.
Definition twoWords (a b : string) : Pattern := seqs [wordI a; dashOrUnderscore; wordI b].
Definition wholeKey (alternatives : list Pattern) : Pattern := seqs [Start; alts alternatives; End_].

Definition SENSITIVE_KEY : Pattern := wholeKey
  ([wordI "password"; wordI "secret"; wordI "token"; wordI "authorization"; twoWords "api" "key"; twoWords "private" "key";
    twoWords "access" "token"; twoWords "refresh" "token"; wordI "jwt"; wordI "bearer"; wordI "email"; wordI "ssn"; wordI "phone"])%list.

Definition PARTIAL_REDACT_KEY : Pattern := wholeKey [wordI "walletaddress"; twoWords "wallet" "address"; wordI "address"].

(** [/Bearer\s+\S+/i] *)
Definition BEARER : Pattern :=
  seqs [wordI "Bearer"; plus space_; plus (OneUnit (fun c => negb (isSpaceUnit c)))].

Definition isSensitive (key : string) : bool := test upperUnit SENSITIVE_KEY (lit key).
Definition isAddressKey (key : string) : bool := test upperUnit PARTIAL_REDACT_KEY (lit key).
Definition holdsBearer (s : string) : bool := test upperUnit BEARER (lit s).

(** [s.slice(-n)] *)
Definition sliceSuffix (n : nat) (s : string) : string := String.substring (String.length s - n) n s.

Definition REDACTED : string := "[REDACTED]".
Definition BEARER_REDACTED : string := "Bearer [REDACTED]".

(** A value that is not an object. [key && ...]: an empty key counts as none. *)
Definition redactScalar (value : Json) (key : option string) : Json :=
  match value with
  | JNull => JNull
  | _ =>
      if match value with JStr s => holdsBearer s | _ => false end then JStr BEARER_REDACTED
      else
        match truthy key with
        | None => value
        | Some key =>
            if isSensitive key then JStr REDACTED
            else
              match value with
              | JStr s =>
                  if isAddressKey key then
                    JStr (if (String.length s <=? 8)%nat then REDACTED else slicePrefix 4 s +:+ "…" +:+ sliceSuffix 4 s)
                  else value
              | _ => value
              end
        end
  end.

(** A date is an object without entries of its own. *)
Fixpoint redactDlqPayload (payload : Json) : Json :=
  match payload with
  | JArr l => JArr (map redactDlqPayload l)
  | JObj fields =>
      JObj (map (fun '(key, value) =>
        (key, match value with
              | JArr _ | JObj _ | JDate _ => redactDlqPayload value
              | _ => redactScalar value (Some key)
              end)) fields)
  | JDate _ => JObj []
  | _ => redactScalar payload None
  end.

(** Nested values, from the inside. *)
Definition Json_nested (P : Json -> Prop) (Hnull : P JNull) (Hbool : forall b, P (JBool b)) (Hnum : forall n, P (JNum n))
    (Hstr : forall s, P (JStr s)) (Hdate : forall ms, P (JDate ms)) (Harr : forall l, Forall P l -> P (JArr l))
    (Hobj : forall fs, Forall (fun f => P (snd f)) fs -> P (JObj fs)) : forall v, P v :=
  fix go (v : Json) : P v :=
    match v with
    | JNull => Hnull | JBool b => Hbool b | JNum n => Hnum n | JStr s => Hstr s | JDate ms => Hdate ms
    | JArr l => Harr l ((fix all (l : list Json) : Forall P l :=
        match l with [] => @List.Forall_nil _ _ | x :: l => @List.Forall_cons _ _ x l (go x) (all l) end) l)
    | JObj fs => Hobj fs ((fix all (l : list (string * Json)) : Forall (fun f => P (snd f)) l :=
        match l with [] => @List.Forall_nil _ _ | x :: l => @List.Forall_cons _ _ x l (go (snd x)) (all l) end) fs)
    end.

Definition isObject (v : Json) : bool := match v with JArr _ | JObj _ | JDate _ => true | _ => false end.

(** What may be seen of a scalar under a key. *)
Definition masked (s : string) : bool := String.eqb s REDACTED || String.eqb s BEARER_REDACTED.

Definition scalarCovered (key : option string) (v : Json) : bool :=
  match v with
  | JNull => true
  | _ =>
      match truthy key with
      | Some k =>
          (negb (isSensitive k) || match v with JStr s => masked s | _ => false end) &&
          (isSensitive k || match v with
                            | JStr s => if isAddressKey k then masked s || (String.length s <=? 11)%nat
                                        else negb (holdsBearer s) || String.eqb s BEARER_REDACTED
                            | _ => true
                            end)
      | None => match v with JStr s => negb (holdsBearer s) || String.eqb s BEARER_REDACTED | _ => true end
      end
  end.

Fixpoint covered (v : Json) : bool :=
  match v with
  | JArr l => forallb covered l
  | JObj fields => forallb (fun '(k, x) => if isObject x then covered x else scalarCovered (Some k) x) fields
  | JDate _ => false
  | _ => scalarCovered None v
  end.

Lemma shortened_length s : (String.length (slicePrefix 4 s +:+ "…" +:+ sliceSuffix 4 s) <= 11)%nat.
Proof.
  rewrite !length_append. unfold slicePrefix, sliceSuffix.
  pose proof (substring_length 0 4 s). pose proof (substring_length (String.length s - 4) 4 s).
  change (String.length "…") with 3%nat. lia.
Qed.

Lemma redactScalar_covered v key : isObject v = false -> scalarCovered key (redactScalar v key) = true /\ isObject (redactScalar v key) = false.
Proof.
  intros Hv. unfold redactScalar.
  destruct v as [|b|n|s|ms|l|fs]; try discriminate Hv; try done; unfold scalarCovered.
  - destruct (truthy key) as [k|] eqn:Ek; [|done]. destruct (isSensitive k) eqn:Es; by rewrite ?Ek, ?Es.
  - destruct (truthy key) as [k|] eqn:Ek; [|done]. destruct (isSensitive k) eqn:Es; by rewrite ?Ek, ?Es.
  - destruct (holdsBearer s) eqn:Eb.
    + destruct (truthy key) as [k|] eqn:Ek; [|by rewrite String.eqb_refl, orb_true_r].
      unfold masked. rewrite String.eqb_refl, !orb_true_r. split; [|done]. by destruct (isSensitive k), (isAddressKey k).
    + destruct (truthy key) as [k|] eqn:Ek; [|by rewrite ?Ek, Eb].
      destruct (isSensitive k) eqn:Es; [rewrite ?Ek, ?Es; by unfold masked; rewrite String.eqb_refl|].
      destruct (isAddressKey k) eqn:Ea; rewrite ?Ek, ?Es, ?Ea; [|by rewrite Eb]. split; [|done]. cbn [negb orb andb].
      destruct (String.length s <=? 8)%nat; [by unfold masked; rewrite String.eqb_refl|].
      rewrite (proj2 (Nat.leb_le _ _) (shortened_length s)). by rewrite orb_true_r.
Qed.

(** Whatever a payload holds, at any depth, a scalar directly under a sensitive
    key is replaced, an address keeps at most its first and last four
    characters, and no text shows a bearer token; keys and shape stay. A list
    or an object under a sensitive key is only searched for keys of its own. *)
Theorem redaction_covers payload :
  covered (redactDlqPayload payload) = true /\ isObject (redactDlqPayload payload) = isObject payload /\
  (forall fields, payload = JObj fields -> exists fields', redactDlqPayload payload = JObj fields' /\ map fst fields' = map fst fields).
Proof.
  assert (Hc : covered (redactDlqPayload payload) = true /\ isObject (redactDlqPayload payload) = isObject payload).
  { induction payload as [|b|n|s|ms|l IH|fs IH] using Json_nested; try done.
    - destruct (redactScalar_covered (JStr s) None eq_refl) as [H1 H2].
      change (redactDlqPayload (JStr s)) with (redactScalar (JStr s) None). split; [|exact H2].
      destruct (redactScalar (JStr s) None); try discriminate H2; exact H1.
    - split; [|done]. cbn. rewrite forallb_forall. intros x Hx. apply in_map_iff in Hx as (y & <- & Hy).
      rewrite List.Forall_forall in IH. exact (proj1 (IH y Hy)).
    - split; [|done]. cbn. rewrite forallb_forall. intros [k x] Hx. apply in_map_iff in Hx as ([k' y] & [= <- <-] & Hy).
      rewrite List.Forall_forall in IH. specialize (IH (k', y) Hy) as [IH1 IH2]. cbn [snd] in IH1, IH2.
      destruct (isObject y) eqn:Ey.
      + destruct y; try discriminate Ey; rewrite IH2; exact IH1.
      + destruct (redactScalar_covered y (Some k') Ey) as [H1 H2]. destruct y; try discriminate Ey; rewrite H2; exact H1. }
  split; [exact (proj1 Hc)|]. split; [exact (proj2 Hc)|]. intros fields ->. eexists. split; [reflexivity|].
  rewrite map_map. apply map_ext. by intros [k v].
Qed.

(** ** Requests *)

Definition DispatchStatus_of (s : string) : option DispatchStatus :=
  match s with
  | "PENDING" => Some DS_PENDING | "RETRYING" => Some DS_RETRYING
  | "RESOLVED" => Some DS_RESOLVED | "ABANDONED" => Some DS_ABANDONED | _ => None
  end.

Definition DispatchChannel_of (s : string) : option DispatchChannel :=
  match s with "NOTIFICATION_CREATE" => Some CH_NOTIFICATION_CREATE | "WEBSOCKET_EMIT" => Some CH_WEBSOCKET_EMIT | _ => None end.

Fixpoint toUpperCase (s : string) : string :=
  match s with
  | EmptyString => EmptyString
  | String a s' =>
      let n := Ascii.nat_of_ascii a in
      String (if Nat.leb 97 n && Nat.leb n 122 then Ascii.ascii_of_nat (n - 32) else a) (toUpperCase s')
  end.

Definition textOf (raw : option Json) : option string := match raw with Some (JStr s) => Some s | _ => None end.

Definition parseStatus (raw : option Json) : option DispatchStatus :=
  match textOf raw with Some s => DispatchStatus_of (toUpperCase s) | None => None end.

Definition parseChannel (raw : option Json) : option DispatchChannel :=
  match textOf raw with Some s => DispatchChannel_of (toUpperCase s) | None => None end.

(** Anything but a text is not a number. *)
Definition parseInt32 (raw : option Json) (fallback : Z) : Z :=
  match textOf raw with
  | Some s => match parseInt s with Fin q => Qfloor q | _ => fallback end
  | None => fallback
  end.

Definition parseDryRun (query body : option Json) : bool :=
  match textOf query with
  | Some "true" | Some "1" => true
  | _ => match body with Some (JBool true) => true | Some (JStr "true") => true | _ => false end
  end.

(** Query and body by name; a missing body has no fields. *)
Record AdminRequest : Type := mkAdminRequest {
  ad_authorization : option string;
  ad_query : string -> option Json;
  ad_body : string -> option Json;
}.

Inductive DeadLetterCall : Type := ListEntries | RetryEntries | RetryEntry (id : string).

Inductive DeadLetterAnswer : Type :=
| DRefused (a : Answer)
| DFailed (message : string)
| DList (entries : list FailedDispatch) (total : nat) (limit offset : Z)
| DPreviews (rows : list FailedDispatch)
| DPreview (row : FailedDispatch)
| DSummary (s : RetrySummary)
| DRetried (r : RetryReply)
| DUnknown.

(** The row with the payload as it is shown. *)
Definition redacted (row : FailedDispatch) : FailedDispatch := row {{ f_payload := redactDlqPayload (f_payload row) }}.

Definition clampLimit (limit : Z) : Z := Z.min (Z.max limit 1) 200.

Section Routes.
Context `{Env}.
Context (verifyToken : string -> option JwtPayload) (findUser : string -> Err + option JwtPayload) (handlers : RetryHandlers).

Definition wanted (status : option DispatchStatus) (channel : option DispatchChannel) (r : FailedDispatch) : bool :=
  match status with Some s => bool_decide (f_status r = s) | None => true end &&
  match channel with Some c => bool_decide (f_channel r = c) | None => true end.

Definition newestFirst (a b : FailedDispatch) : bool := f_createdAt a <? f_createdAt b.

(** [DeadLetterQueueService.list] *)
Definition listDeadLetters (status : option DispatchStatus) (channel : option DispatchChannel) (limit offset : Z)
    : Svc DeadLetterAnswer :=
  let limit := clampLimit limit in
  let offset := Z.max offset 0 in
  rows <- findMany (wanted status channel) newestFirst ;;
  ret (DList (map redacted (take (Z.to_nat limit) (drop (Z.to_nat offset) rows))) (length rows) limit offset).

(** [retryAll] with [dryRun] *)
Definition previewAll (limit : Z) : Svc DeadLetterAnswer :=
  rows <- findMany retryableRow (fun a b => f_createdAt b <? f_createdAt a) ;;
  ret (DPreviews (map redacted (take (Z.to_nat (clampLimit limit)) rows))).

Definition retryEntry (id : string) (dryRun : bool) : Svc DeadLetterAnswer :=
  r <- retry id handlers DEFAULT_MAX_ATTEMPTS dryRun ;;
  ret (match r with
       | None => DUnknown
       | Some (DryRun row) => DPreview (redacted row)
       | Some r => DRetried r
       end).

Definition deadLetterBody (call : DeadLetterCall) (r : AdminRequest) : Svc DeadLetterAnswer :=
  let dryRun := parseDryRun (ad_query r "dryRun") (ad_body r "dryRun") in
  match call with
  | ListEntries =>
      listDeadLetters (parseStatus (ad_query r "status")) (parseChannel (ad_query r "channel"))
        (parseInt32 (ad_query r "limit") 50) (parseInt32 (ad_query r "offset") 0)
  | RetryEntries =>
      let raw := match ad_body r "limit" with None | Some JNull => ad_query r "limit" | l => l end in
      let limit := parseInt32 raw 50 in
      if dryRun then previewAll limit
      else s <- retryAll handlers (Z.to_nat (clampLimit limit)) DEFAULT_MAX_ATTEMPTS ;; ret (DSummary s)
  | RetryEntry id => retryEntry id dryRun
  end.

Definition failureText (call : DeadLetterCall) : string :=
  match call with
  | ListEntries => "Failed to list dead-letter entries"
  | RetryEntries => "Failed to replay dead-letter entries"
  | RetryEntry _ => "Failed to replay dead-letter entry"
  end.

Definition serveDeadLetters (call : DeadLetterCall) (r : AdminRequest) (w : World) : DeadLetterAnswer * World :=
  match requireAdmin verifyToken findUser (ad_authorization r) with
  | inl a => (DRefused a, w)
  | inr _ =>
      match deadLetterBody call r w with
      | (inr a, w') => (a, w')
      | (inl _, w') => (DFailed (failureText call), w')
      end
  end.

Definition isDry (call : DeadLetterCall) (r : AdminRequest) : bool :=
  match call with ListEntries => true | _ => parseDryRun (ad_query r "dryRun") (ad_body r "dryRun") end.

(** Of a row, an answer shows the payload covered. *)
Definition shownCovered (a : DeadLetterAnswer) : Prop :=
  match a with
  | DList entries _ _ _ => Forall (fun e => covered (f_payload e) = true) entries
  | DPreviews rows => Forall (fun e => covered (f_payload e) = true) rows
  | DPreview row => covered (f_payload row) = true
  | _ => True
  end.

Lemma redacted_covered rows : Forall (fun e => covered (f_payload e) = true) (map redacted rows).
Proof. apply Forall_map, Forall_forall. intros r _. apply redaction_covers. Qed.

(** Only an administrator gets beyond the guard; a list or a dry run changes
    nothing and always succeeds; a page has at most two hundred rows; and
    whatever is shown of a payload is covered. *)
Theorem dead_letters_guarded call r w :
  (forall a, requireAdmin verifyToken findUser (ad_authorization r) = inl a -> serveDeadLetters call r w = (DRefused a, w)) /\
  (isDry call r = true -> snd (serveDeadLetters call r w) = w /\
     forall m, fst (serveDeadLetters call r w) <> DFailed m) /\
  shownCovered (fst (serveDeadLetters call r w)) /\
  (forall entries total limit offset, fst (serveDeadLetters call r w) = DList entries total limit offset ->
     1 <= limit <= 200 /\ Z.of_nat (length entries) <= limit /\ 0 <= offset).
Proof.
  unfold serveDeadLetters. destruct (requireAdmin verifyToken findUser (ad_authorization r)) as [a|user].
  { split_and!; try done. by intros b [= <-]. }
  split; [done|].
  assert (Hdry : forall id, exists a, retryEntry id true w = (inr a, w) /\ forall m, a <> DFailed m).
  { intros id. unfold retryEntry, retry, bind, findUnique, gets, ret. destruct (tbl (w_db w) !! id); eexists; split; reflexivity || done. }
  assert (Hretry : forall id dry a w', retryEntry id dry w = (inr a, w') -> shownCovered a /\ forall e t l o, a <> DList e t l o).
  { intros id dry a w'. unfold retryEntry, bind. destruct (retry id handlers DEFAULT_MAX_ATTEMPTS dry w) as [[e|rep] w1]; [done|].
    intros [= <- _]. destruct rep as [[row|]|]; split; try done. apply redaction_covers. }
  destruct call as [| |id]; cbn [deadLetterBody isDry].
  - unfold listDeadLetters, bind, findMany, gets, ret. cbn [fst snd]. split_and!; try done.
    + cbn [shownCovered]. apply redacted_covered.
    + intros entries total limit offset [= <- <- <- <-]. unfold clampLimit. rewrite length_map, length_take. split; lia.
  - destruct (parseDryRun _ _).
    + unfold previewAll, bind, findMany, gets, ret. cbn [fst snd]. split_and!; try done. cbn [shownCovered]. apply redacted_covered.
    + unfold bind. destruct (retryAll _ _ _ w) as [[e|s] w']; split_and!; done.
  - split_and!.
    + intros Hd. rewrite Hd. destruct (Hdry id) as (a & -> & Ha). split; [done|exact Ha].
    + destruct (retryEntry id _ w) as [[e|a] w'] eqn:E; [done|]. exact (proj1 (Hretry _ _ _ _ E)).
    + intros entries total limit offset. destruct (retryEntry id _ w) as [[e|a] w'] eqn:E; [done|]. cbn [fst]. intros ->.
      by destruct (proj2 (Hretry _ _ _ _ E) entries total limit offset).
Qed.
End Routes.
