(* ===== verification/Witnesses.v ===== *)
(** * The theorems at work

    Each theorem with hypotheses applied to concrete data, where the hypotheses
    are discharged by evaluating the definitions. *)

From Stdlib Require Import ZArith QArith Lia Lqa.
From stdpp Require Import base gmap strings list pretty.
From S2P Require Import Prelude.
From S2P Require Import Numeric.
From S2P Require Import Doubles.
From S2P Require Import Payout.
From S2P Require Import Errors.
From S2P Require Import CircuitBreaker.
From S2P Require Import Resilience.
From S2P Require Import DistributedLock.
From S2P Require Import Schema.
From S2P Require Import Store.
From S2P Require Import Soroban.
From S2P Require Import PriceRange.
From S2P Require Import Samples.
From S2P Require Import RoundLifecycle.
From S2P Require Import Outbox.
From S2P Require Import RoundService.
From S2P Require Import Prediction.
From S2P Require Import Bet.
From S2P Require Import BetReconciliation.
From S2P Require Import PayoutReconciliation.
From S2P Require Import PredictionReconciliation.
From S2P Require Import Tournament.
From S2P Require Import Resolution.
From S2P Require Import Simulation.

#[local] Open Scope Z_scope.

#[local] Existing Instance Concrete.decimal20.
#[local] Existing Instance Concrete.numeric8.
#[local] Existing Instance goodEnv.

(** A lookup in a one-row table. *)
Ltac one_row H := apply lookup_singleton_Some in H as [<- <-].

Lemma openDB_safe : safe openDB.
Proof.
  split; unfold idsMatch; cbn; intros k x Hx; try (rewrite lookup_empty in Hx; discriminate).
  one_row Hx. cbn. unfold xlm. lia.
Qed.

Lemma hundred : moneyAmount (xlm 100) 100%Q.
Proof. split; [vm_compute; reflexivity | unfold xlm; lia]. Qed.

Lemma stroops_roundtrip_witness :
  Z.abs 123456789 < 10 ^ 14 /\ xlmToStroops (stroopsToXlm 123456789) = 123456789.
Proof. split; [lia | apply (stroops_roundtrip 123456789); lia]. Defined.

(** A stake of five billionths is rounded up in the row and never leaves the
    balance. *)
Definition fiveBillionths : Q := f64 (5 # 1000000000).

Lemma submitPrediction_conserves_money_witness :
  (let w' := final (submitPrediction "alice" "r1" 100 (Some UP) None) (worldOf openDB) in
   safe (w_db w') /\ totalMoney (w_db w') = totalMoney openDB) /\
  (let w' := final (submitPrediction "alice" "r1" fiveBillionths (Some UP) None) (worldOf openDB) in
   safe (w_db w') /\ totalMoney (w_db w') = totalMoney openDB + 1 /\
   Z.abs (totalMoney (w_db w') - totalMoney openDB) <= 1).
Proof.
  split.
  - destruct (submitPrediction_conserves_money "alice" "r1" 100 (Some UP) None (worldOf openDB)
                eq_refl ltac:(discriminate) eq_refl openDB_safe) as (Hs & _ & _ & He).
    split; [exact Hs | exact (He (xlm 100) hundred)].
  - destruct (submitPrediction_conserves_money "alice" "r1" fiveBillionths (Some UP) None (worldOf openDB)
                (f64_double _) ltac:(vm_compute; discriminate) eq_refl openDB_safe) as (Hs & _ & Hle & _).
    split; [exact Hs|]. split; [vm_compute; reflexivity | exact Hle].
Defined.

(** ** Settlement *)

Definition lockedWorld : World := worldOf (predictionDB LOCKED PC_CONFIRMED).

Lemma resolveRound_refines_payments_witness :
  exists r' w' r preds,
    resolveRound None "r1" (DecimalArg 1) lockedWorld = (inr (ResUpdated r'), w') /\
    rounds (w_db lockedWorld) !! "r1"%string = Some r /\
    users (w_db w') = fst (payTables (users (w_db lockedWorld)) (predictions (w_db lockedWorld))
                             (payments r preds 1)) /\
    r_status r' = RESOLVED.
Proof.
  destruct (resolveRound None "r1" (DecimalArg 1) lockedWorld) as [[e|[| |r']] w'] eqn:E;
    try (vm_compute in E; discriminate).
  destruct (resolveRound_refines_payments None "r1" (DecimalArg 1) lockedWorld r' w' eq_refl E)
    as (r & preds & H1 & _ & _ & H2 & _ & H3 & _).
  exists r', w', r, preds. split; [reflexivity|]. split; [exact H1|]. split; [|exact H3].
  exact (f_equal fst H2).
Defined.

Lemma resolveRound_only_locked_witness :
  exists r, resolveRound None "r1" (DecimalArg 1) (worldOf (predictionDB RESOLVED PC_CONFIRMED))
            = (inr (ResAlreadyResolved r), worldOf (predictionDB RESOLVED PC_CONFIRMED)).
Proof.
  exists (upDownRound RESOLVED).
  exact (resolveRound_only_locked None "r1" (DecimalArg 1) (worldOf (predictionDB RESOLVED PC_CONFIRMED))
           eq_refl (fun r Hr => ltac:(injection Hr as <-; discriminate))).
Defined.

Lemma resolveRound_error_pays_nobody_witness :
  exists e w', @resolveRound badEnv _ _ None "r1" (DecimalArg 1) lockedWorld = (inl e, w') /\
    users (w_db w') = users (w_db lockedWorld).
Proof.
  destruct (@resolveRound badEnv _ _ None "r1" (DecimalArg 1) lockedWorld) as [[e|r] w'] eqn:E;
    [|vm_compute in E; discriminate].
  exists e, w'. split; [reflexivity|].
  exact (proj1 (@resolveRound_error_pays_nobody badEnv _ _ None "r1" (DecimalArg 1) lockedWorld e w'
                  eq_refl E)).
Defined.

Lemma payouts_add_up_witness :
  (Qabs.Qabs (sumQ (map (fun z => calculatePayout (unitQ z) 150 80) [xlm 100; xlm 50]) - (150 + 80))
   <= (150 + 80) * (1 # 5000000000000000000))%Q.
Proof.
  apply (payouts_add_up [xlm 100; xlm 50] 150 80); [|reflexivity|discriminate|reflexivity].
  intros z Hz. unfold xlm in *. set_solver by lia.
Defined.

Lemma sampleRanges_disjoint : disjointFrom None (map boundsOf sampleRanges).
Proof.
  exists (1 # 2)%Q, 1%Q. repeat split. exists 1%Q, 2%Q. repeat split. discriminate.
Qed.

Lemma findWinningRange_unique_witness :
  exists r, findWinningRange 1 sampleRanges = Some r /\
    exists i, sampleRanges !! i = Some r /\ i = 1%nat.
Proof.
  exists (mkRoundPriceRange (Fin 1) (Fin 2) (Fin 30) []). split; [vm_compute; reflexivity|].
  destruct (proj1 (findWinningRange_unique 1 sampleRanges (mkRoundPriceRange (Fin 1) (Fin 2) (Fin 30) [])
              sampleRanges_disjoint ltac:(repeat constructor; vm_compute; reflexivity))
              ltac:(vm_compute; reflexivity)) as (i & Hi & _ & Hu).
  exists i. split; [exact Hi|]. symmetry.
  apply (Hu 1%nat (mkRoundPriceRange (Fin 1) (Fin 2) (Fin 30) [])); vm_compute; reflexivity.
Defined.

(** ** Predictions *)

Lemma submitPrediction_refused_witness :
  exists e w1, submitPrediction "alice" "r1" 100 (Some UP) None (worldOf (predictionDB ACTIVE PC_CONFIRMED))
               = (inl e, w1) /\ w_db w1 = predictionDB ACTIVE PC_CONFIRMED.
Proof.
  destruct (reserve "alice" "r1" 100 (Some UP) None (worldOf (predictionDB ACTIVE PC_CONFIRMED)))
    as [[e|x] w1] eqn:E; [|vm_compute in E; discriminate].
  destruct (submitPrediction_refused "alice" "r1" 100 (Some UP) None
              (worldOf (predictionDB ACTIVE PC_CONFIRMED)) e w1 eq_refl E) as (H1 & H2 & _).
  exists e, w1. split; [exact H1 | exact H2].
Defined.

Lemma reserve_no_duplicate_witness :
  exists e w1, reserve "alice" "r1" 100 (Some UP) None (worldOf (predictionDB ACTIVE PC_PENDING)) = (inl e, w1)
               /\ w_db w1 = predictionDB ACTIVE PC_PENDING.
Proof.
  apply (reserve_no_duplicate "alice" "r1" 100 (Some UP) None (worldOf (predictionDB ACTIVE PC_PENDING))
           "p1" (alicePrediction PC_PENDING)); [reflexivity | reflexivity | reflexivity | discriminate |].
  cbn. intros k' p' Hk _. one_row Hk. reflexivity.
Defined.

Lemma submitPrediction_one_call_witness :
  exists n, (n <= 1)%nat /\
    w_calls (final (submitPrediction "alice" "r1" 100 (Some UP) None) (worldOf openDB))
    = replicate n (CallPlaceBet "GALICE" (amountInStroops 100) UP).
Proof.
  destruct (reserve "alice" "r1" 100 (Some UP) None (worldOf openDB)) as [[e|[[p u] r]] w1] eqn:E;
    [vm_compute in E; discriminate|].
  destruct (submitPrediction_one_call "alice" "r1" 100 (Some UP) None (worldOf openDB) p u r w1 eq_refl E)
    as (_ & n & Hn & Hc).
  exists n. split; [exact Hn|]. rewrite Hc. cbn [worldOf w_calls]. rewrite app_nil_r.
  replace (u_walletAddress u) with "GALICE"%string; [reflexivity|].
  apply (f_equal (fun x => match x with (inr (_, u, _), _) => u_walletAddress u | _ => EmptyString end)) in E.
  vm_compute in E. exact E.
Defined.

Lemma predictionDB_safe status :
  status = PC_PENDING \/ status = PC_CONFIRMED -> safe (predictionDB ACTIVE status).
Proof.
  intros Hs. split; unfold idsMatch; cbn; intros k x Hx; one_row Hx; cbn; unfold xlm; try lia; try reflexivity.
  destruct Hs as [-> | ->]; split; intros Hc; [discriminate | destruct (Hc eq_refl) |
    discriminate | destruct (Hc eq_refl)].
Qed.

Lemma compensatePrediction_idempotent_witness :
  exists w1, compensatePrediction "p1" (worldOf (predictionDB ACTIVE PC_PENDING)) = (inr tt, w1) /\
    w_db (final (compensatePrediction "p1") w1) = w_db w1.
Proof.
  destruct (compensatePrediction "p1" (worldOf (predictionDB ACTIVE PC_PENDING))) as [[e|[]] w1] eqn:E;
    [vm_compute in E; discriminate|].
  exists w1. split; [reflexivity|].
  exact (compensatePrediction_idempotent "p1" (worldOf (predictionDB ACTIVE PC_PENDING)) w1 eq_refl
           (predictionDB_safe PC_PENDING (or_introl eq_refl)) E).
Defined.


(** ** Bets and claims *)

Lemma recordBet_error_leaves_no_trace_witness :
  exists e w', @recordUpDownBet badEnv _ _ (mkUpDownInput "GALICE" 5 UP None) None (worldOf openDB) = (inl e, w')
    /\ w_db w' = openDB.
Proof.
  destruct (@recordUpDownBet badEnv _ _ (mkUpDownInput "GALICE" 5 UP None) None (worldOf openDB))
    as [[e|r] w'] eqn:E; [|vm_compute in E; discriminate].
  exists e, w'. split; [reflexivity|].
  exact (proj1 (@recordBet_error_leaves_no_trace badEnv _ _ _ (mkPrecisionInput "GALICE" 5 1 None) None
                  (worldOf openDB) eq_refl) e w' E).
Defined.

Lemma bet_operations_step_witness :
  betStep "b1" (betDB BET_SUBMITTED)
    (w_db (final (reconcileBet "b1" "tx1" None) (worldOf (betDB BET_SUBMITTED)))).
Proof. exact (proj1 (bet_operations_step "b1" "tx1" true 1 "refused" None (worldOf (betDB BET_SUBMITTED)) eq_refl)). Defined.

Lemma claim_in_flight_witness :
  claimWinningsForUser "GALICE" (worldOf (claimDB CL_SUBMITTED))
  = (inr (mkClaimResult "already-submitted" (toNumber_opt (Some (unitQ (xlm 7)))) (Some "tx9"%string)),
     worldOf (claimDB CL_SUBMITTED)).
Proof.
  apply (claim_in_flight "GALICE" (worldOf (claimDB CL_SUBMITTED)) "c1" (aliceClaim CL_SUBMITTED));
    try reflexivity.
  cbn. intros k c Hk _. one_row Hk. reflexivity.
Defined.

Lemma claim_keeps_settled_witness :
  claims (w_db (final (claimWinningsForUser "GALICE") (worldOf (claimDB CL_CONFIRMED)))) !! "c1"%string
  = Some (aliceClaim CL_CONFIRMED).
Proof. apply (claim_keeps_settled "GALICE" (worldOf (claimDB CL_CONFIRMED))); reflexivity. Defined.

(** ** The workers *)

Lemma unreadable_winnings_close_claim_witness :
  exists t, claims (w_db (final (@reconcileRow badEnv _ DEFAULT_CONFIG noPayouts (aliceClaim CL_PENDING))
                            (worldOf (claimDB CL_PENDING)))) !! "c1"%string
    = Some (confirmedClaim outcome_no_pending (aliceClaim CL_PENDING) t (aliceClaim CL_PENDING)).
Proof.
  destruct (@unreadable_winnings_close_claim badEnv _ DEFAULT_CONFIG (aliceClaim CL_PENDING) noPayouts
              (worldOf (claimDB CL_PENDING)) (aliceClaim CL_PENDING)
              (or_introl eq_refl) eq_refl eq_refl ltac:(discriminate)) as [[e E]|H].
  - vm_compute in E. discriminate.
  - exact H.
Defined.

Lemma reconcileRow_step_witness :
  claimStep DEFAULT_CONFIG (aliceClaim CL_SUBMITTED) (claimDB CL_SUBMITTED)
    (w_db (final (reconcileRow DEFAULT_CONFIG noPayouts (aliceClaim CL_SUBMITTED)) (worldOf (claimDB CL_SUBMITTED)))).
Proof.
  exact (reconcileRow_step DEFAULT_CONFIG (aliceClaim CL_SUBMITTED) noPayouts (worldOf (claimDB CL_SUBMITTED)) eq_refl).
Defined.

(** Alice's bet is resolved and she has no claim. *)
Lemma sweep_spec_witness :
  exists r w', sweepUnclaimedWinnings DEFAULT_CONFIG (worldOf (betDB BET_RESOLVED)) = (inr r, w') /\
    covered (w_db w') "GALICE" None.
Proof.
  destruct (sweepUnclaimedWinnings DEFAULT_CONFIG (worldOf (betDB BET_RESOLVED))) as [[e|r] w'] eqn:E;
    [vm_compute in E; discriminate|].
  exists r, w'. split; [reflexivity|].
  destruct (sweep_spec DEFAULT_CONFIG (worldOf (betDB BET_RESOLVED)) r w' E) as (_ & _ & Hc).
  assert (Hn : sw_swept r = 1%nat).
  { apply (f_equal (fun x => match fst x with inr r => sw_swept r | _ => 0%nat end)) in E.
    vm_compute in E. symmetry. exact E. }
  apply (Hc ltac:(rewrite Hn; cbn; lia) "alice"%string None alice); [|discriminate|reflexivity|discriminate].
  vm_compute. apply list_elem_of_here.
Defined.

Lemma reconcilePredictions_conserves_witness :
  conserves (predictionDB ACTIVE PC_PENDING)
    (w_db (final (reconcilePredictions DEFAULT_PREDICTION_CONFIG) (worldOf (predictionDB ACTIVE PC_PENDING)))).
Proof.
  exact (reconcilePredictions_conserves DEFAULT_PREDICTION_CONFIG (worldOf (predictionDB ACTIVE PC_PENDING)) eq_refl).
Defined.

(** Alice's prediction, with its transaction sent. *)
Definition sentPrediction : Prediction := (alicePrediction PC_SUBMITTED) {{ p_txHash := Some "tx3"%string }}.
Definition sentDB : DB := (predictionDB ACTIVE PC_SUBMITTED) {{ predictions := {["p1"%string := sentPrediction]} }}.

Lemma submitted_never_confirmed_witness :
  w_db (final (reconcileStranded DEFAULT_PREDICTION_CONFIG noPredictions
                 (mkStranded sentPrediction (Some (upDownRound ACTIVE)) (Some alice))) (worldOf sentDB)) = sentDB.
Proof.
  destruct (getTransactionStatus "tx3" (worldOf sentDB)) as [[e|st] w1] eqn:E; [vm_compute in E; discriminate|].
  assert (st = mkTransactionStatus true true None) as ->.
  { apply (f_equal (fun x => match fst x with inr st => st | _ => mkTransactionStatus false false None end)) in E.
    vm_compute in E. symmetry. exact E. }
  exact (proj2 (submitted_never_confirmed DEFAULT_PREDICTION_CONFIG noPredictions
                  (mkStranded sentPrediction (Some (upDownRound ACTIVE)) (Some alice)) sentPrediction
                  (upDownRound ACTIVE) "tx3" (worldOf sentDB) w1
                  eq_refl eq_refl eq_refl eq_refl eq_refl eq_refl E)).
Defined.

(** A bet whose transaction the chain reports as successful. *)
Definition strandedBet : Bet :=
  (aliceBet BET_SUBMITTED) {{ b_txHash := Some "tx1"%string; b_submittedAt := Some 10 }}.
Definition strandedDB : DB := (betDB BET_SUBMITTED) {{ bets := {["b1"%string := strandedBet]} }}.

Lemma reconcileSubmittedBets_moves_witness :
  exists id, betMoves [id] strandedDB
               (w_db (final (reconcileSubmittedBets (mkReconciliationConfig 100 50)) (worldOf strandedDB))).
Proof.
  destruct (reconcileSubmittedBets_moves (mkReconciliationConfig 100 50) (worldOf strandedDB) eq_refl)
    as (ids & _ & Hm & Hs & _).
  assert (Hl : size (outbox (w_db (final (reconcileSubmittedBets (mkReconciliationConfig 100 50)) (worldOf strandedDB)))) = 1%nat)
    by (vm_compute; reflexivity).
  rewrite Hl in Hs. destruct ids as [|id [|id' ids]]; [discriminate Hs | exists id; exact Hm | discriminate Hs].
Defined.

(** ** Tournaments *)

Definition cup (status : TournamentStatus) (count : Z) : Tournament :=
  mkTournament "t1" "Cup" "weekly" UP_DOWN status (xlm 10) (xlm 50) 2 count 0 60000 5 0.

(** Alice is in. *)
Definition cupDB (status : TournamentStatus) : DB :=
  openDB {{ aux := mkAux {["t1"%string := cup status 1]}
                     {["tp1"%string := mkParticipant "tp1" "t1" "alice" 10]} ∅ ∅ }}.

(** Nobody is in. *)
Definition emptyCupDB : DB := openDB {{ aux := mkAux {["t1"%string := cup T_UPCOMING 0]} ∅ ∅ ∅ }}.

Lemma joinTournament_spec_witness :
  rosterOk (w_db (final (joinTournament "alice" "t1") (worldOf emptyCupDB))) /\
  exists n w', joinTournament "alice" "t1" (worldOf emptyCupDB) = (inr n, w') /\ n = 1.
Proof.
  destruct (joinTournament_spec "alice" "t1" (worldOf emptyCupDB) eq_refl) as (Hs & _ & Hr). split.
  - apply Hr. split.
    + cbn. intros k t Hk. one_row Hk. vm_compute. reflexivity.
    + cbn. intros k t Hk. one_row Hk. vm_compute. discriminate.
    + cbn. intros i j p q Hi. rewrite lookup_empty in Hi. discriminate.
  - destruct (joinTournament "alice" "t1" (worldOf emptyCupDB)) as [[e|n] w'] eqn:E; [vm_compute in E; discriminate|].
    exists n, w'. split; [reflexivity|]. destruct (Hs n w' eq_refl) as (t & p & J & -> & _).
    pose proof (jn_tournament _ _ _ _ _ J) as Ht. cbn in Ht. apply lookup_singleton_Some in Ht as [_ <-]. reflexivity.
Defined.

Lemma settleTournament_spec_witness :
  exists r w', settleTournament "t1" (worldOf (cupDB T_ACTIVE)) = (inr r, w') /\
    settled "t1" [mkAllocation 1 "alice" (xlm 50)] (cupDB T_ACTIVE) (w_db w').
Proof.
  destruct (settleTournament "t1" (worldOf (cupDB T_ACTIVE))) as [[e|r] w'] eqn:E; [vm_compute in E; discriminate|].
  exists r, w'. split; [reflexivity|].
  destruct (proj1 (settleTournament_spec "t1" (worldOf (cupDB T_ACTIVE)) eq_refl) r w' E)
    as (t & Ht & _ & _ & _ & Hs & _).
  cbn in Ht. apply lookup_singleton_Some in Ht as [_ <-].
  replace (planned "t1" (cup T_ACTIVE 1) (w_db (worldOf (cupDB T_ACTIVE))))
    with [mkAllocation 1 "alice" (xlm 50)] in Hs by (vm_compute; reflexivity).
  exact Hs.
Defined.

Lemma settle_race_witness :
  exists r w', settleTwice "t1" (worldOf (cupDB T_ACTIVE)) = (inr r, w') /\
    sumMap x_amount (transactions (aux (w_db w'))) = 2 * xlm 50.
Proof.
  destruct (settleTwice "t1" (worldOf (cupDB T_ACTIVE))) as [[e|[r1 r2]] w'] eqn:E; [vm_compute in E; discriminate|].
  exists (r1, r2), w'. split; [reflexivity|].
  destruct (settle_race "t1" (worldOf (cupDB T_ACTIVE)) r1 r2 w' eq_refl E) as (t & Ht & _ & _ & _ & _ & Hs).
  cbn in Ht. apply lookup_singleton_Some in Ht as [_ <-]. rewrite Hs. vm_compute. reflexivity.
Defined.

Definition threeStandings : list TournamentStanding :=
  [mkStanding "t1" "p1" "alice" 1 5 1; mkStanding "t1" "p2" "bob" 2 4 1; mkStanding "t1" "p3" "carol" 3 3 1].

(** A pool of five units pays six. *)
Lemma allocations_sum_witness :
  sumZ al_allocation (computeAllocations (unitQ 5) threeStandings) = 6.
Proof.
  destruct (allocations_sum 5 threeStandings ltac:(lia) ltac:(discriminate)) as (_ & _ & _ & _ & Hs).
  apply Hs; [cbn; lia|]. right. left. reflexivity.
Defined.

(** ** Outbox *)

Definition quietHandlers : OutboxDispatchHandlers :=
  let h := fun _ => ret tt in mkHandlers h h h h h h.

Lemma processRow_outcome_witness :
  exists res' w', processRow quietHandlers 3 (mkProcessResult 0 0 0) (sampleEvent 0) (worldOf (eventDB 0))
                  = (inr res', w') /\ po_processed res' = 1%nat.
Proof.
  destruct (proj2 (processRow_outcome quietHandlers 3 (mkProcessResult 0 0 0) (sampleEvent 0)
                     (worldOf (eventDB 0)) (sampleEvent 0) eq_refl (fun w => eq_refl)) eq_refl)
    as (res' & w' & cur' & H1 & _ & _ & _ & H2 & _).
  exists res', w'. split; [exact H1 | exact H2].
Defined.

Definition failingRetry : RetryHandlers :=
  mkRetryHandlers (fun _ => throw (PlainError "down")) (fun _ _ _ => throw (PlainError "down")).

Lemma retry_outcome_witness :
  exists row' w', retry "f1" failingRetry 3 false (worldOf failureDB) = (inr (Some (reply row')), w') /\
    f_attempts row' = 2 /\ f_status row' = DS_RETRYING.
Proof.
  destruct (proj2 (proj2 (retry_outcome "f1" failingRetry 3 (worldOf failureDB) sampleFailure eq_refl
                            (fun w => eq_refl)))) as (row' & w' & H1 & _ & H2 & H3); [discriminate|].
  exists row', w'. split; [exact H1|]. split; [exact H2 | exact H3].
Defined.

(** ** Rounds *)

Lemma startRound_one_active_witness :
  oneActivePerMode (rounds (w_db (final (startRound UP_DOWN (DecimalArg 1) 5 []) (worldOf openDB)))).
Proof.
  apply (startRound_one_active UP_DOWN (DecimalArg 1) 5 [] (worldOf openDB)).
  intros k1 k2 r1 r2 H1 H2 _ _ _. cbn in H1, H2. one_row H1. one_row H2. reflexivity.
Defined.

(** *** Two callers locking one round *)

Definition raceStart : World := worldOf (predictionDB ACTIVE PC_CONFIRMED).
Definition raceEnd : World := setRound "r1" (applyTransition LOCKED noData (upDownRound ACTIVE)) raceStart.

Definition raceCallers : list Caller := [Start LOCKED noData; Start LOCKED noData].

Definition lostMessage : Err :=
  illegal ACTIVE LOCKED (Some "Illegal round transition: ACTIVE -> LOCKED (state changed concurrently)."%string).

Lemma race_run :
  rreachable "r1" raceStart raceCallers
    (raceEnd, [Won LOCKED; Lost LOCKED lostMessage]).
Proof.
  set (checked := Checked LOCKED noData ACTIVE).
  assert (H0 : rreachable "r1" raceStart raceCallers (raceStart, raceCallers))
    by (apply rr_init; repeat constructor).
  assert (H1 : rreachable "r1" raceStart raceCallers (raceStart, [checked; Start LOCKED noData]))
    by exact (rr_step _ _ _ _ _ H0
      (rs_check "r1" raceStart raceCallers 0 LOCKED noData ACTIVE raceStart eq_refl eq_refl)).
  assert (H2 : rreachable "r1" raceStart raceCallers (raceStart, [checked; checked]))
    by exact (rr_step _ _ _ _ _ H1
      (rs_check "r1" raceStart [checked; Start LOCKED noData] 1 LOCKED noData ACTIVE raceStart eq_refl eq_refl)).
  assert (H3 : rreachable "r1" raceStart raceCallers (raceEnd, [Won LOCKED; checked]))
    by exact (rr_step _ _ _ _ _ H2
      (rs_cas "r1" raceStart [checked; checked] 0 LOCKED noData ACTIVE raceEnd eq_refl
         ltac:(vm_compute; reflexivity))).
  exact (rr_step _ _ _ _ _ H3
    (rs_cas_fail "r1" raceEnd [Won LOCKED; checked] 1 LOCKED noData ACTIVE lostMessage raceEnd eq_refl
       ltac:(vm_compute; reflexivity))).
Qed.

Lemma race_one_winner_witness :
  exists st0 st, statusOf "r1" raceStart = Some st0 /\ statusOf "r1" raceEnd = Some st /\
                 rtc lifecycleEdge st0 st.
Proof.
  exact (proj2 (proj2 (race_one_winner "r1" raceStart raceCallers raceEnd
                         [Won LOCKED; Lost LOCKED lostMessage] ltac:(discriminate) race_run))).
Defined.

Lemma race_progress_witness :
  exists i a, [Won LOCKED; Lost LOCKED lostMessage] !! i = Some (Won a).
Proof.
  apply (race_progress "r1" raceStart raceCallers raceEnd
           [Won LOCKED; Lost LOCKED lostMessage] ACTIVE eq_refl race_run).
  - repeat constructor.
  - left. constructor.
Defined.


Lemma updateRangePool_spec_witness :
  parseRoundPriceRanges (rangesToJson (updateRangePool sampleRanges half (Fin 1) (Fin 5)))
  = inr (updateRangePool sampleRanges half (Fin 1) (Fin 5)).
Proof.
  exact (proj1 (updateRangePool_spec (rangesToJson sampleRanges) sampleRanges half (Fin 1) (Fin 5) eq_refl)).
Defined.

(** ** Resilience *)

Lemma limiter_bound_witness :
  exists e, limiterEnter (mkLimiter "soroban" 1 1 1) = inl e.
Proof.
  apply (limiter_bound "soroban" 0 None (mkLimiter "soroban" 1 1 1) 1); [|reflexivity].
  eapply lr_step; [apply lr_init|]. apply ls_enter. reflexivity.
Defined.

(** A clock, and operations that only let time pass. *)
Definition ticking : HasClock Z := {| clock t := t; sleep ms t := t + ms |}.
#[local] Existing Instance ticking.

Definition stuck : Attempt Z nat := fun t => (Hangs, t + 1).
Definition down : M Z Err nat := fun t => (inl (PlainError "timeout"), t + 1).

Lemma withTimeout_spec_witness :
  exists i w1, (i < 2)%nat /\ failsTo (timeoutOptions 100 2) stuck 0 i 0 w1 /\
    tr_timedOut (fst (withTimeout (timeoutOptions 100 2) stuck 0)) = true.
Proof.
  destruct (withTimeout_spec (timeoutOptions 100 2) stuck 0 ltac:(cbn; lia)) as (i & w1 & Hi & Hf & _).
  exists i, w1. split; [exact Hi|]. split; [exact Hf | vm_compute; reflexivity].
Defined.

Lemma retryOrThrow_spec_witness :
  exists i w1, (i < 3)%nat /\ retryOrThrow defaultRetryPolicy down 0 = down w1.
Proof.
  destruct (retryOrThrow_spec defaultRetryPolicy down 0 ltac:(cbn; lia)) as (i & w1 & Hi & _ & Hr & _).
  exists i, w1. split; [exact Hi | exact Hr].
Defined.

Definition sampleOptions : CircuitBreakerOptions := Build_CircuitBreakerOptions "soroban" 1 30000 1.

Lemma breaker_reachable_inv_witness :
  exists e, beforeCall sampleOptions 20 (onFailure sampleOptions 10 newBreaker)
            = (inl e, onFailure sampleOptions 10 newBreaker).
Proof.
  assert (Hr : breachable sampleOptions (onFailure sampleOptions 10 newBreaker, 0%nat)).
  { eapply br_step; [eapply br_step; [apply br_init | apply (bs_admit sampleOptions 0); reflexivity]|].
    apply bs_failure. }
  apply (breaker_reachable_inv sampleOptions _ Hr); [reflexivity|].
  exists 30010. split; [reflexivity | lia].
Defined.

Definition fiveFailures : CircuitBreakerOptions := Build_CircuitBreakerOptions "soroban" 5 30000 1.

Lemma failures_open_witness :
  b_state (Nat.iter 4 (onFailure fiveFailures 10) newBreaker) = closed /\
  b_state (Nat.iter 5 (onFailure fiveFailures 10) newBreaker) = open_.
Proof.
  destruct (failures_open fiveFailures 4 10 newBreaker eq_refl eq_refl) as (H1 & H2 & _).
  split; [apply (H1 4%nat); lia | exact H2].
Defined.

Definition openWorld : World := (worldOf emptyDB) {{ w_breaker := mkBreaker open_ 5 (Some 0) (Some 30000) 0 }}.

Lemma execute_open_witness :
  exists e, err_class e = ClsCircuitBreakerOpen /\
    execute sampleOptions (ret tt) openWorld = (inl e, setBreaker (getBreaker openWorld) openWorld).
Proof.
  exact (proj1 (execute_open sampleOptions (fun b w => eq_refl) (ret tt) openWorld 30000 eq_refl eq_refl)
           ltac:(vm_compute; reflexivity)).
Defined.

(** ** The single-leader lock: two replicas, one after the other *)

#[local] Existing Instance oneKey.

Definition lockConfig : DistributedLockConfig := defaultLockConfig 30.

Definition twoReplicas : list Replica := [newReplica 0 "a"%string; newReplica 1 "b"%string].

Definition bothDone : list Replica := [finished lockConfig 0 0 "a" 1; finished lockConfig 0 1 "b" 2].

(** Replica a, with the key it has just set. *)
Definition firstHolds : LockSystem :=
  mkSystem 0 (mkShared (Some (mkRedisKey "a" 30000)) ∅ ["a"%string])
    [mkReplica 0 "a" newLock (PSetSent 0 true) BeatIdle (Some 1%nat) None 30000; newReplica 1 "b"%string].

Lemma twoReplicas_initial : lkinitial (mkSystem 0 (mkShared rd_absent ∅ []) twoReplicas).
Proof.
  split; [reflexivity|]. split; [|split; [cbn; lia|]].
  - cbn. apply NoDup_cons. split; [|apply NoDup_singleton]. set_solver.
  - intros [|[|i]] x Hx; cbn in Hx; try discriminate; injection Hx as <-; reflexivity.
Qed.

Lemma bothDone_reachable :
  exists key, lkreachable lockConfig true (mkSystem 0 (mkShared key ∅ ["b"%string; "a"%string]) bothDone).
Proof.
  destruct (undisturbed_steps lockConfig true 0 (mkShared rd_absent ∅ []) twoReplicas 0 0 "a")
    as (k1 & V1 & S1); [cbn; lia | set_solver | reflexivity | vm_compute; reflexivity|].
  destruct (undisturbed_steps lockConfig true 0 (mkShared k1 ∅ ["a"%string])
              [finished lockConfig 0 0 "a" 1; newReplica 1 "b"] 1 1 "b")
    as (k2 & V2 & S2); [cbn; lia | set_solver | cbn in *; rewrite V1; reflexivity | vm_compute; reflexivity|].
  exists k2. eapply lkreachable_rtc; [apply lkr_init, twoReplicas_initial|].
  etransitivity; [exact S1 | exact S2].
Qed.

Lemma firstHolds_reachable : lkreachable lockConfig true firstHolds.
Proof.
  eapply lkreachable_rtc; [apply lkr_init, twoReplicas_initial|].
  change twoReplicas with (<[0%nat := newReplica 0 "a"]> twoReplicas).
  eapply act_then; [apply a_check; [reflexivity | set_solver] | cbn; lia |].
  eapply act_then; [apply a_connected; reflexivity | cbn; lia |].
  eapply act_then; [eapply a_set; reflexivity | cbn; lia |].
  apply rtc_refl.
Qed.

Lemma accepted_runs_disjoint_witness :
  exists gi gj, rp_grant (finished lockConfig 0 0 "a" 1) = Some gi /\
    rp_grant (finished lockConfig 0 1 "b" 2) = Some gj /\ gi <> gj.
Proof.
  destruct bothDone_reachable as [k Hr].
  destruct (accepted_runs_disjoint lockConfig true _ 0 1 _ _ Hr eq_refl eq_refl
              ltac:(discriminate) (conj eq_refl eq_refl) (conj eq_refl eq_refl))
    as (gi & gj & Hi & _ & Hj & _ & Hn).
  exists gi, gj. auto.
Defined.

Lemma lease_exclusive_witness :
  rd_view (sh_key (sy_shared firstHolds)) = Some (mkRedisKey "a" 30000).
Proof. exact (proj1 (lease_exclusive lockConfig true firstHolds 0 _ firstHolds_reachable eq_refl eq_refl)). Defined.

Lemma heartbeat_fails_closed_witness :
  exists e, assertHeld "job" (Nat.iter 2 (renewError lockConfig) (markAcquired lockConfig 0 newLock)) = inl e.
Proof.
  destruct (heartbeat_fails_closed lockConfig "job" 0 (markAcquired lockConfig 0 newLock) 1 0
              eq_refl eq_refl eq_refl eq_refl) as (_ & ((e & He & _) & _) & _).
  exists e. exact He.
Defined.

Lemma renewal_period_witness : 2 * renewIntervalMs lockConfig <= ttlMs lockConfig.
Proof. exact (proj1 (proj2 (renewal_period lockConfig ltac:(vm_compute; discriminate)))). Defined.

(** ** Simulation *)

Lemma simulate_agrees_witness :
  exists r' w' res s, resolveRound None "r1" (NumberArg 1) lockedWorld = (inr (ResUpdated r'), w') /\
    simulateRound "r1" 1 lockedWorld = (inr (Some res), lockedWorld) /\
    si_predictions res !! 0%nat = Some s /\
    predictions (w_db w') !! "p1"%string = Some (outcomeRow s (alicePrediction PC_CONFIRMED)).
Proof.
  destruct (resolveRound None "r1" (NumberArg 1) lockedWorld) as [[e|[| |r']] w'] eqn:E;
    try (vm_compute in E; discriminate).
  destruct (simulate_agrees None "r1" 1 lockedWorld (upDownRound LOCKED) r' w' eq_refl) as (res & Hs & _ & Hrows).
  - intros k x Hx. cbn in Hx. one_row Hx. reflexivity.
  - reflexivity.
  - discriminate.
  - exact E.
  - destruct (Hrows 0%nat (alicePrediction PC_CONFIRMED) ltac:(vm_compute; reflexivity)) as (s & H1 & _ & H2).
    exists r', w', res, s. split; [reflexivity|]. split; [exact Hs|]. split; [exact H1|]. exact H2.
Defined.
