(* ===== verification/AccessWitnesses.v ===== *)
(** * The theorems at work: access and presentation

    Witnesses for the locks on one key, the sessions, the wallet login, the
    leaderboard and the idempotency keys. *)

From Stdlib Require Import ZArith QArith Lia.
From stdpp Require Import base gmap strings list pretty.
From S2P Require Import Prelude.
From S2P Require Import Numeric.
From S2P Require Import Errors.
From S2P Require Import DistributedLock.
From S2P Require Import Schema.
From S2P Require Import Store.
From S2P Require Import Samples.
From S2P Require Import JsonText.
From S2P Require Import Idempotency.
From S2P Require Import KeyLock.
From S2P Require Import Sessions.
From S2P Require Import Challenge.
From S2P Require Import Auth.
From S2P Require Import Pagination.
From S2P Require Import Leaderboard.
From S2P Require Import TextSamples.

#[local] Open Scope Z_scope.

#[local] Existing Instance Concrete.decimal20.
#[local] Existing Instance Concrete.numeric8.
#[local] Existing Instance goodEnv.
#[local] Existing Instance oneKey.
#[local] Existing Instance sampleText.
#[local] Existing Instance sampleDates.
#[local] Existing Instance sampleCodec.

(** ** Idempotency keys *)

Definition aliceKey : KeyTriple := ("alice", "/api/bets", "key-0001")%string.

Definition aliceRequest (s : ReqState) : Request := mkRequest aliceKey "hash" 86400000 86400000 86400000 s.

Definition aliceExecution : Execution := mkExecution aliceKey "hash" (JBool true) 0 86400000 true.

Definition aliceStored : IdemSystem :=
  mkIdemSystem 0 {[aliceKey := mkIdemRow 0 "hash" 200 (JBool true) 86400000]} 2
    [aliceRequest (QExecuted true)] [aliceExecution].

Lemma aliceStored_reachable : ireachable aliceStored.
Proof.
  pose (at0 t n s l := mkIdemSystem 0 t n [aliceRequest s] l).
  pose (held := {[aliceKey := mkIdemRow 0 "hash" 102 (JObj []) 86400000]} : KeyTable).
  pose (e := aliceExecution {{ x_stored := false }}).
  assert (H1 : ireachable (at0 ∅ 0%nat QStart [])).
  { refine (ir_step _ _ (ir_init 0) (is_arrive (mkIdemSystem 0 ∅ 0 [] []) (aliceRequest QStart) eq_refl _ _)); cbn; lia. }
  assert (H2 : ireachable (at0 ∅ 0%nat QFind [])).
  { refine (ir_step _ _ H1 (is_start (at0 ∅ 0%nat QStart []) 0 (aliceRequest QStart) _ _)); reflexivity. }
  assert (H3 : ireachable (at0 ∅ 0%nat QCreate [])).
  { refine (ir_step _ _ H2 (is_find (at0 ∅ 0%nat QFind []) 0 (aliceRequest QFind) _ _)); reflexivity. }
  assert (H4 : ireachable (at0 held 1%nat (QRunning 0) [])).
  { refine (ir_step _ _ H3 (is_create (at0 ∅ 0%nat QCreate []) 0 (aliceRequest QCreate) held _ _ _)); reflexivity. }
  assert (H5 : ireachable (at0 held 1%nat (QStore 0 (JBool true)) [e])).
  { refine (ir_step _ _ H4 (is_executed (at0 held 1%nat (QRunning 0) []) 0 (aliceRequest (QRunning 0)) 0 _ _ _));
      reflexivity. }
  refine (ir_step _ _ H5 (is_store (at0 held 1%nat (QStore 0 (JBool true)) [e]) 0
    (aliceRequest (QStore 0 (JBool true))) 0 _ _ _)); reflexivity.
Qed.

Lemma executed_once_witness :
  createRow aliceKey 2 "hash" 86400000 (is_table aliceStored) = None /\
  afterFind 0 "other" (is_table aliceStored !! aliceKey) = FoundCompleted (refuse MISMATCH).
Proof.
  destruct (executed_once aliceStored aliceStored_reachable) as [_ Ho].
  destruct (Ho aliceExecution ltac:(left) ltac:(vm_compute; discriminate)) as (_ & Hc & Hf).
  split; [exact Hc | exact (Hf "other"%string)].
Defined.

Lemma poll_ends_witness :
  pollLoop "hash" 0 (replicate POLL_ATTEMPTS None) = Some (refuse IN_PROGRESS).
Proof. exact (poll_ends "hash" (replicate POLL_ATTEMPTS None) eq_refl). Defined.

#[local] Instance sampleHash : HashEnv := {| sha256 s := s |}.

Lemma hash_member_order_witness :
  hashRequestBody (JObj [("amount"%string, JNum (Fin 5)); ("roundId"%string, JStr "r1")]) =
  hashRequestBody (JObj [("roundId"%string, JStr "r1"); ("amount"%string, JNum (Fin 5))]).
Proof.
  refine (proj1 (hash_member_order _ _ 0 (mkIdemRow 0 "hash" 102 JNull 0)
                   (same_obj _ [("amount"%string, JNum (Fin 5)); ("roundId"%string, JStr "r1")] _ _ _ _))).
  - vm_compute. repeat constructor; set_solver.
  - repeat constructor.
  - apply perm_swap.
Defined.

(** ** Locks and sessions *)

Lemma bet_needs_lock_witness :
  withDistributedIdempotencyLock (mkStoreMode None "postgres" true) DEFAULT_KEY_LOCK true 0
    [(0, SetTaken); (100, SetFailed)] (inr tt) = Some (NotRun LockUnavailable) /\
  LockUnavailable = LockUnavailable.
Proof.
  split; [vm_compute; reflexivity|].
  destruct (bet_needs_lock (mkStoreMode None "postgres" true) DEFAULT_KEY_LOCK true 0
              [(0, SetTaken); (100, SetFailed)] (inr tt)) as [Hu _].
  destruct (Hu (NotRun LockUnavailable) ltac:(vm_compute; reflexivity)) as [_ [H|H]]; [exact H|discriminate].
Defined.

Definition aliceSession : MultiplayerSession :=
  mkSession "GALICE" (Some "s1"%string) (ofRooms ["lobby"%string]) None 0 0 None.

Definition aliceTable : SessionTable := {["alice"%string := aliceSession]}.

Lemma aliceRooms : cleanRooms ["lobby"%string].
Proof. split; [apply NoDup_singleton|set_solver|vm_compute; lia]. Qed.

Lemma aliceTable_wf : wfTable aliceTable.
Proof.
  apply map_Forall_singleton. split; [exists ["lobby"%string]; split; [reflexivity|apply aliceRooms]|by left].
Qed.

Lemma session_columns_typed_witness :
  wfTable (foldl (fun t c => runCall (fst (fst c)) (snd (fst c)) (snd c) t) aliceTable
             [((fun _ => true), 5, CallRoom (AddRoom "alice" "r1")); ((fun _ => true), 6, CallDisconnect "alice")]).
Proof. exact (session_columns_typed _ aliceTable aliceTable_wf). Defined.

Lemma reconnect_resumes_witness :
  fst (recordConnect (fun _ => true) 9 "alice" "GALICE" "s2" (recordDisconnect (fun _ => true) 5 "alice" aliceTable))
  = mkResume ["lobby"%string] None (Some 5) (Some 5).
Proof.
  pose proof (reconnect_resumes "alice" "GALICE" "s2" 5 9 aliceTable ltac:(discriminate)) as H. cbv zeta in H.
  destruct (recordConnect _ _ _ _ _ _) as [payload t'].
  exact (proj1 (proj1 H aliceSession ltac:(reflexivity))).
Defined.

(** Alice joins a room under the lock. *)
Definition joinCall : RoomCall := mkRoomCall 7 (AddRoom "alice" "r1").

Definition joinRun (p : Phase) (lease : option Z) (key : option RedisKey) (t : SessionTable) (log : list RoomCall) :=
  mkKeySystem (server := oneKey) 0 key t [mkKeyCaller (L := list string) "1"%string joinCall p lease] log.

Definition joined : KeySystem :=
  joinRun KLeaving (Some LOCK_TTL_MS) (Some (mkRedisKey "1" LOCK_TTL_MS))
    (commitCall joinCall ["lobby"%string; "r1"%string] aliceTable) [joinCall].

Lemma joined_covered : covered_run beginCall commitCall LOCK_TTL_MS aliceTable joined.
Proof.
  assert (Hall : forall p k t log, @allCovered oneKey SessionTable (list string) RoomCall
            (joinRun p (Some LOCK_TTL_MS) k t log)).
  { intros p k t log [|i] c Hi _; cbn in Hi; [injection Hi as <-; reflexivity|discriminate]. }
  pose (key := Some (mkRedisKey "1" LOCK_TTL_MS)).
  assert (H0 : covered_run beginCall commitCall LOCK_TTL_MS aliceTable (joinRun KWaiting None None aliceTable [])).
  { refine (cr_init beginCall commitCall LOCK_TTL_MS aliceTable 0 [mkKeyCaller "1"%string joinCall KWaiting None] _ _);
      [apply NoDup_singleton|repeat constructor]. }
  pose (c p lease := mkKeyCaller (L := list string) "1"%string joinCall p lease).
  pose (seen := ["lobby"%string; "r1"%string]).
  assert (H1 : covered_run beginCall commitCall LOCK_TTL_MS aliceTable
                 (joinRun KReading (Some LOCK_TTL_MS) key aliceTable [])).
  { refine (cr_step _ _ _ _ _ _ H0 _ (Hall _ _ _ _)).
    exact (k_set beginCall commitCall LOCK_TTL_MS (joinRun KWaiting None None aliceTable []) 0 (c KWaiting None) key
             eq_refl eq_refl eq_refl). }
  assert (H2 : covered_run beginCall commitCall LOCK_TTL_MS aliceTable
                 (joinRun (KWriting seen) (Some LOCK_TTL_MS) key aliceTable [])).
  { refine (cr_step _ _ _ _ _ _ H1 _ (Hall _ _ _ _)).
    exact (k_read beginCall commitCall LOCK_TTL_MS (joinRun KReading (Some LOCK_TTL_MS) key aliceTable []) 0
             (c KReading (Some LOCK_TTL_MS)) eq_refl eq_refl). }
  refine (cr_step _ _ _ _ _ _ H2 _ (Hall _ _ _ _)).
  exact (k_write beginCall commitCall LOCK_TTL_MS (joinRun (KWriting seen) (Some LOCK_TTL_MS) key aliceTable []) 0
           (c (KWriting seen) (Some LOCK_TTL_MS)) seen eq_refl eq_refl).
Qed.

Lemma rooms_no_lost_update_witness :
  exists s' l', ks_state joined !! "alice"%string = Some s' /\ ms_rooms s' = ofRooms l' /\ cleanRooms l' /\ "r1"%string ∈ l'.
Proof.
  destruct (rooms_no_lost_update "alice" aliceTable aliceSession ["lobby"%string] joined
              ltac:(reflexivity) eq_refl aliceRooms joined_covered) as (s' & l' & Hs & Hl & Hc & Hin).
  - repeat constructor; discriminate.
  - vm_compute. lia.
  - exists s', l'. split; [exact Hs|]. split; [exact Hl|]. split; [exact Hc|]. apply Hin. by left.
Defined.

(** ** Wallet login *)

Definition deploymentOf (domain : string) : AuthEnv := mkAuthEnv (Some domain) None None None None.

Lemma clean_deployment d : oneLine d -> cleanEnv (deploymentOf d).
Proof.
  intros Hd. assert (Ht : getAuthDomain (deploymentOf d) = d).
  { unfold getAuthDomain. cbn [deploymentOf ae_AUTH_DOMAIN]. rewrite truthy_some by apply Hd. apply Hd. }
  assert (Hh : getHomeDomain (deploymentOf d) = d).
  { unfold getHomeDomain. cbn [deploymentOf ae_HOME_DOMAIN ae_AUTH_DOMAIN]. rewrite truthy_some by apply Hd. apply Hd. }
  split; rewrite ?Ht, ?Hh; exact Hd.
Qed.

Ltac one_line := split; [vm_compute; reflexivity | vm_compute; reflexivity | discriminate].

Lemma domain_binding_witness :
  isValidChallengeDomain (deploymentOf "xelma.io")
    (generateChallenge (deploymentOf "evil.com") 1000 "abc" (Some "GALICE"%string)) = false.
Proof.
  exact (proj1 (domain_binding (deploymentOf "evil.com") (deploymentOf "xelma.io") 1000 "abc" "GALICE" "GALICE"
                  (clean_deployment "evil.com" ltac:(one_line)) ltac:(one_line) ltac:(one_line) ltac:(one_line))).
Defined.

(** A wallet library that accepts the signature "signed". *)
#[local] Instance sampleSdk : StellarSdk := {|
  validAddress _ := true;
  sdkVerify _ _ s := Some (String.eqb s "signed");
|}.

Definition xelma : AuthEnv := deploymentOf "xelma.io".
Definition aliceChallenge : string := generateChallenge xelma 500 "abc" (Some "GALICE"%string).

Definition loginRow (used : bool) : AuthChallenge :=
  mkAuthChallenge "GALICE" 1000 (getChallengeExpiry 700) (if used then Some 1000 else None) used.

Definition issuedTo (p : AuthPhase) : AuthWorld :=
  mkAuthWorld 1000 {[aliceChallenge := loginRow false]} ∅ []
    [mkAuthRequest "GALICE" (AIssued aliceChallenge); mkAuthRequest "GALICE" p] [(aliceChallenge, "GALICE"%string, 700)] [].

Definition loggingIn (p : AuthPhase) : AuthWorld :=
  mkAuthWorld 1000 {[aliceChallenge := loginRow true]} ∅ []
    [mkAuthRequest "GALICE" (AIssued aliceChallenge); mkAuthRequest "GALICE" p] [(aliceChallenge, "GALICE"%string, 700)]
    [(aliceChallenge, "GALICE"%string, 1000)].

Lemma loggingIn_reachable day : areachable xelma day (loggingIn (AFindUser aliceChallenge 1000)).
Proof.
  pose (empty l := mkAuthWorld 1000 ∅ ∅ [] l [] []).
  pose (req := mkAuthRequest "GALICE"). pose (ask := AConnect aliceChallenge "signed").
  assert (H1 : areachable xelma day (empty [req AChallenge])).
  { refine (ar_step _ _ _ _ (ar_init _ _ 1000 ∅) (as_arrive _ _ (empty []) "GALICE"%string AChallenge _)). by left. }
  assert (H2 : areachable xelma day (empty [req AIssue])).
  { refine (ar_step _ _ _ _ H1 (as_delete _ _ (empty [req AChallenge]) 0 (req AChallenge) _ _)); reflexivity. }
  assert (H3 : areachable xelma day (mkAuthWorld 1000 {[aliceChallenge := loginRow false]} ∅ [] [req (AIssued aliceChallenge)]
                [(aliceChallenge, "GALICE"%string, 700)] [])).
  { refine (ar_step _ _ _ _ H2 (as_issue _ _ (empty [req AIssue]) 0 (req AIssue) "abc" 500 700
              {[aliceChallenge := loginRow false]} eq_refl eq_refl _ _ _)); [cbn; lia|set_solver|reflexivity]. }
  assert (H4 : areachable xelma day (issuedTo ask)).
  { refine (ar_step _ _ _ _ H3 (as_arrive _ _ _ "GALICE"%string ask _)). right. by eexists _, _. }
  assert (H5 : areachable xelma day (loggingIn (AVerify aliceChallenge "signed" 1000))).
  { refine (ar_step _ _ _ _ H4 (as_consume _ _ (issuedTo ask) 1 (req ask) aliceChallenge "signed" 
              {[aliceChallenge := loginRow true]} eq_refl eq_refl _)).
    unfold consume. change (aw_challenges (issuedTo ask)) with ({[aliceChallenge := loginRow false]} : ChallengeTable).
    rewrite lookup_singleton_eq. change (consumable _ _ _) with true. cbv iota. by rewrite insert_singleton_eq. }
  refine (ar_step _ _ _ _ H5 (as_verify _ _ (loggingIn (AVerify aliceChallenge "signed" 1000)) 1
            (req (AVerify aliceChallenge "signed" 1000)) aliceChallenge "signed" 1000 eq_refl eq_refl)).
Qed.

Lemma challenge_single_use_witness :
  exists s, verifySignature xelma "GALICE" aliceChallenge s = true.
Proof.
  destruct (challenge_single_use xelma (fun t => t) _ (loggingIn_reachable (fun t => t))) as (_ & _ & Hr).
  exact (proj1 (proj2 (Hr 1%nat _ aliceChallenge (Some 1000) eq_refl eq_refl eq_refl))).
Defined.

Lemma loginBonus_spec_witness :
  loginBonus (midnight 0) (9 * DAY_MS + 5) (mkAccount "u1" "GALICE" (Some (8 * DAY_MS + 100)) 0 2) = (3, Some (XLM * 150)).
Proof.
  destruct (loginBonus_spec 0 (9 * DAY_MS + 5) (mkAccount "u1" "GALICE" (Some (8 * DAY_MS + 100)) 0 2) (8 * DAY_MS + 100)
              eq_refl ltac:(vm_compute; discriminate)) as (_ & _ & H1 & _ & H2).
  specialize (H1 ltac:(vm_compute; reflexivity)). specialize (H2 ltac:(vm_compute; reflexivity)).
  cbv zeta in H1, H2. rewrite H1 in H2. exact (injective_projections _ (3, Some (XLM * 150)) H1 H2).
Defined.

(** ** Leaderboard *)

Definition closedDB : DB :=
  (predictionDB RESOLVED PC_CONFIRMED)
    {{ rounds := {["r1"%string := (upDownRound RESOLVED) {{ r_endPrice := Some 60000000 }}]} }}.

Lemma closed_amounts : Forall (fun p => Z.abs (p_amount p) < 10 ^ 15) (statPredictions "r1" (worldOf closedDB)).
Proof.
  assert (E : statPredictions "r1" (worldOf closedDB) = [alicePrediction PC_CONFIRMED]) by (vm_compute; reflexivity).
  rewrite E. repeat constructor.
Qed.

Lemma updateUserStats_spec_witness :
  exists t', updateUserStatsForRound "r1" (worldOf closedDB) = (inr tt, withStats t' (worldOf closedDB)) /\
    totals t' "alice" = (1, 1, xlm 100).
Proof.
  pose proof (updateUserStats_spec "r1" (worldOf closedDB) eq_refl closed_amounts) as H.
  destruct (updateUserStatsForRound "r1" (worldOf closedDB)) as [[err|[]] w'] eqn:E; [vm_compute in E; discriminate|].
  destruct H as (round & e & t' & Hr & He & -> & Ht & _). exists t'. split; [reflexivity|].
  rewrite (Ht "alice"%string). vm_compute in Hr. injection Hr as <-. vm_compute in He. injection He as <-.
  vm_compute. reflexivity.
Defined.

Definition statsOf (id : string) (earnings : Z) : UserStats := mkUserStats id 1 1 earnings 1 0 earnings 0 0 0.

Lemma cursor_pages_witness :
  readAll cursorMembers 4 1
    (fun c => fst (fetchPage 1 (decoded c) (sortBy ranksAfter [statsOf "bob" 5; statsOf "alice" 9; statsOf "carol" 5]))) None
  = Some [statsOf "alice" 9; statsOf "bob" 5; statsOf "carol" 5].
Proof.
  refine (proj1 (cursor_pages [statsOf "bob" 5; statsOf "alice" 9; statsOf "carol" 5] 1 (le_n 1) _)).
  repeat constructor; set_solver.
Defined.
