(* ===== verification/JobWitnesses.v ===== *)
(** * The theorems about jobs and notifications at work

    [Scheduler] and [NotificationCenter] on concrete data. *)

From Stdlib Require Import ZArith QArith Lia Sorting.Sorted.
From stdpp Require Import base gmap strings list pretty.
From S2P Require Import Prelude.
From S2P Require Import Numeric.
From S2P Require Import Doubles.
From S2P Require Import Errors.
From S2P Require Import DistributedLock.
From S2P Require Import Schema.
From S2P Require Import Store.
From S2P Require Import Samples.
From S2P Require Import Outbox.
From S2P Require Import RoundService.
From S2P Require Import Prediction.
From S2P Require Import Bet.
From S2P Require Import Resolution.
From S2P Require Import JsonText.
From S2P Require Import Pagination.
From S2P Require Import TextSamples.
From S2P Require Import Scheduler.
From S2P Require Import NotificationCenter.

#[local] Open Scope Z_scope.

#[local] Existing Instance Concrete.decimal20.
#[local] Existing Instance Concrete.numeric8.
#[local] Existing Instance goodEnv.
#[local] Existing Instance sampleText.
#[local] Existing Instance sampleCodec.

(** A lookup in a one-row table. *)
Ltac one_row H := apply lookup_singleton_Some in H as [<- <-].

Definition later (d : DB) : World := (worldOf d) {{ w_now := 100000 }}.

Lemma sample_keyed status chain : keyed (predictionDB status chain).
Proof. split; cbn; intros k x Hx; one_row Hx; reflexivity. Qed.

(** The locked round ended at 60000 and is settled at 100000. *)
Lemma autoResolve_pays_witness : exists report w' paid,
  autoResolveRounds (Some 1%Q) heldThroughout (later (predictionDB LOCKED PC_CONFIRMED)) = (inr report, w') /\
  map settledId paid = ["r1"%string] /\
  users (w_db w') = fst (payTables {["alice"%string := alice]} {["p1"%string := alicePrediction PC_CONFIRMED]} (owed 1 paid)).
Proof.
  destruct (autoResolve_pays (Some 1%Q) heldThroughout (later (predictionDB LOCKED PC_CONFIRMED)) eq_refl
              (sample_keyed LOCKED PC_CONFIRMED)) as (report & w' & paid & Hr & Hs & _ & _ & Hp & _).
  exists report, w', paid. split; [exact Hr|]. split; [|exact (f_equal fst Hp)]. rewrite <- Hs.
  apply (f_equal (fun x => match fst x with inr r => succeeded (jr_items r) | _ => [] end)) in Hr.
  vm_compute in Hr. symmetry. exact Hr.
Defined.

(** An open round is locked once it has ended. *)
Lemma closeEligibleRounds_spec_witness : exists report w',
  closeEligibleRounds heldThroughout (later (predictionDB ACTIVE PC_CONFIRMED)) = (inr report, w') /\
  rounds (w_db w') !! "r1"%string = Some (upDownRound LOCKED).
Proof.
  destruct (closeEligibleRounds_spec heldThroughout (later (predictionDB ACTIVE PC_CONFIRMED))
              (sample_keyed ACTIVE PC_CONFIRMED) eq_refl) as (report & w' & Hr & Hrounds & _).
  exists report, w'. split; [exact Hr|]. rewrite (Hrounds "r1"%string). reflexivity.
Defined.

Definition anEvent : OutboxEvent := sampleEvent 0.

Lemma outbox_delivers_witness : exists w',
  dispatch (anEvent {{ o_eventType := EV_NOTIFICATION_CREATE; o_payload := resultNotification "r1" "alice" true "You won" None }})
    buildOutboxHandlers (worldOf openDB) = (inr tt, w') /\
  exists n, n_userId n = "alice"%string /\ n_type n = N_WIN /\ notifications (w_db w') !! "id0"%string = Some n.
Proof.
  destruct (outbox_delivers anEvent (aliceBet BET_SUBMITTED) true 5%Q "no funds" "tx1" None None "alice" "r1" "You won" None alice
              (mkUpDownInput "GALICE" 100 UP (Some "r1"%string)) (mkPrecisionInput "GALICE" 100 1 (Some "r1"%string)) (worldOf openDB) eq_refl eq_refl)
    as (_ & _ & _ & _ & _ & _ & w' & Hw & n & Hn & Hu & Ht & _).
  exists w'. split; [exact Hw|]. exists n. split; [exact Hu|]. split; [exact Ht|]. rewrite Hn. reflexivity.
Defined.

(** Three notifications, one of another user. *)
Definition noteOf (id user : string) (at_ : Z) : Notification := mkNotification id user N_WIN "Won" "You won" JNull false at_.
Definition notesDB : DB := openDB {{ notifications :=
  {["n1"%string := noteOf "n1" "alice" 5; "n2"%string := noteOf "n2" "bob" 6; "n3"%string := noteOf "n3" "alice" 7]} }}.

Lemma notification_pages_witness :
  fst (readInbox (behind n_id) 3 "alice" 1 None false (worldOf notesDB))
  = inr (Some (map toDto [noteOf "n3" "alice" 7; noteOf "n1" "alice" 5])).
Proof.
  refine (f_equal fst (proj1 (notification_pages (behind n_id) _ "alice" 1 false (worldOf notesDB) (le_n 1) _))).
  - intros rows i r Hnd Hi. by apply behind_drop.
  - intros k n Hk. cbn in Hk. apply lookup_insert_Some in Hk as [[<- <-]|[_ Hk]]; [reflexivity|].
    apply lookup_insert_Some in Hk as [[<- <-]|[_ Hk]]; [reflexivity|]. one_row Hk. reflexivity.
Defined.
