(* ===== verification/DemoWitnesses.v ===== *)
(** * The theorems about limits, prices, sockets and the demo at work

    Concrete servers, feeds and texts for [RateLimit], [Oracle], [OracleService],
    [Socket], [MemoryStore], [BetStore], [Startup], [Cache] and [AbuseMetrics]. *)

From Stdlib Require Import ZArith QArith Qabs Lqa Lia Sorting.Sorted Ascii.
From stdpp Require Import base gmap strings list pretty.
From S2P Require Import MemoryStore.
From S2P Require Import BetStore.
From S2P Require Import Prelude.
From S2P Require Import Rounding.
From S2P Require Import Numeric.
From S2P Require Import Doubles.
From S2P Require Import Errors.
From S2P Require Import Resilience.
From S2P Require Import Schema.
From S2P Require Import Store.
From S2P Require Import Samples.
From S2P Require Import JsonText.
From S2P Require Import Challenge.
From S2P Require Import TextSamples.
From S2P Require Import Resolution.
From S2P Require Import Scheduler.
From S2P Require Import RateLimit.
From S2P Require Import Oracle.
From S2P Require Import OracleService.
From S2P Require Import Sessions.
From S2P Require Import Socket.
From S2P Require Import Digits.
From S2P Require Import Startup.
From S2P Require Import Cache.
From S2P Require Import AbuseMetrics.
From S2P Require Import RegExp.
From S2P Require Import Chat.
From S2P Require Import Soroban.
From S2P Require Import Bet.
From S2P Require Import Idempotency.
From S2P Require Import BetRoutes.

#[local] Open Scope Z_scope.

#[local] Existing Instance Concrete.decimal20.
#[local] Existing Instance Concrete.numeric8.
#[local] Existing Instance goodEnv.
#[local] Existing Instance sampleText.

(** ** Rate limits *)

(** A server that keeps one hash per key. *)
Definition oneHash : RedisHash.
Proof.
  refine {| rh_key := option HashValue; rh_absent := None; rh_view k := k;
            rh_hget := hfield; rh_hset now f z k := Some (hwrite now f z k);
            rh_hincrby now f d k := let z := default 0 (hfield now f k) + d in (z, Some (hwrite now f z k));
            rh_pexpire now px k := (fun h => h {{ hv_expiresAt := Some (now + px) }}) <$> hlive now k;
            rh_del _ := None |}; try done.
  intros now px k h ->. reflexivity.
Defined.

Definition failingOpen : RedisRateLimitStoreOptions := mkStoreOptions "rl:" true 1000.

(** Two requests that Redis counts, from two processes, and one it does not. *)
Definition threeHits : list RateRequest :=
  [mkRateRequest 5000 0 "k" Answers; mkRateRequest 5001 1 "k" Answers; mkRateRequest 5002 1 "k" Unreachable].

Definition responsesOf : list (Err + IncrementResponse) := fst (@serveRequests oneHash failingOpen threeHits).

Lemma store_throttles_witness :
  map (passes 1) responsesOf = [true; false; true] /\
  Z.of_nat (length (during 5000 1000 (passedAt 1 None "k" threeHits responsesOf))) <= 2.
Proof.
  split; [vm_compute; reflexivity|].
  refine (proj1 (@store_throttles oneHash failingOpen 1 _ _ threeHits _) None "k"%string 5000); [reflexivity|lia|].
  repeat constructor; cbn; lia.
Defined.

(** ** Prices *)

(** CoinGecko answers 1 for stellar, after ten milliseconds; nobody else does. *)
Definition steadyFeed : PriceFeed.
Proof.
  refine {| feed sent := match sent with
                         | "gecko"%string :: _ => Resolves (JObj [("stellar"%string, JObj [("usd"%string, JNum (Fin 1))])])
                         | _ => Rejects (PlainError "no answer")
                         end;
            feed_elapsed _ := 10 |}.
  done.
Defined.

Definition noText : DecimalText := {| newDecimal _ := None; otherText _ := "[object Object]"%string |}.

#[local] Existing Instance steadyFeed.
#[local] Existing Instance noText.

Definition oracleConfig : OracleConfig := mkOracleConfig 5000 60000 2 "gecko" "cap" "geckoAll" "capAll".

Definition polled : OracleWorld := runOracle oracleConfig 0 [StartPolling; Elapse 500].

Lemma price_provenance_witness : exists p t body, ow_lastProvider polled = Some (providerName p) /\
  ow_lastUpdatedAt polled = Some t /\ answeredAt (providerUrl oracleConfig p) t body polled /\ readPrice p body = inr (toDecimal 1%Q).
Proof.
  refine (proj1 (price_provenance oracleConfig _ 0 [StartPolling; Elapse 500]) (toDecimal 1%Q) _); [done|].
  vm_compute. reflexivity.
Defined.

Lemma fetchPrice_failover_witness :
  let w' := fetchPrice oracleConfig (newOracle 7) in
  ow_price w' = Some (toDecimal 1%Q) /\ ow_health w' = Some (getHealthSnapshot oracleConfig w').
Proof.
  split; [vm_compute; reflexivity|]. refine (proj1 (fetchPrice_failover oracleConfig _ (newOracle 7))). done.
Defined.

(** ** Two resolvers *)

Definition lateWorld : World := (worldOf (predictionDB LOCKED PC_CONFIRMED)) {{ w_now := 100000 }}.

Definition twoRuns : list ResolverRun :=
  [mkResolverRun true polled heldThroughout 1000; mkResolverRun false polled heldThroughout 1000].

Lemma resolvers_pay_once_witness : exists items w' paid,
  runResolvers oracleConfig twoRuns lateWorld = (inr items, w') /\
  resolversDone (w_db lateWorld) (w_db w') items paid /\ items = [("r1"%string, job_success)].
Proof.
  destruct (resolvers_pay_once oracleConfig twoRuns lateWorld eq_refl) as (items & w' & paid & Hr & Hd & _).
  - split; cbn; intros k x Hx; apply lookup_singleton_Some in Hx as [<- <-]; reflexivity.
  - exists items, w', paid. split; [exact Hr|]. split; [exact Hd|].
    apply (f_equal (fun x => match fst x with inr l => l | _ => [] end)) in Hr. vm_compute in Hr. symmetry. exact Hr.
Defined.

(** ** Sockets *)

Definition oneToken (token : string) : TokenVerifyResult :=
  if String.eqb token "t" then TokenValid "u1" "GA" None else TokenInvalid.

Definition connected : SocketWorld := onConnection false "s1" (mkAuth (Some "u1"%string) (Some "GA"%string) None) (newServer 0).

Lemma rooms_private_witness :
  userOf "s1" connected = Some "u1"%string /\
  (forall sid s, sk_sockets connected !! sid = Some s -> userRoom "u1" ∈ so_rooms s ->
     so_userId s = Some "u1"%string /\ exists token wallet exp, oneToken token = TokenValid "u1" wallet exp).
Proof.
  split; [vm_compute; reflexivity|].
  refine (proj1 (rooms_private oneToken false 0 connected "u1" _)).
  refine (sr_step _ _ _ _ _ (sr_start _ _ 0) (st_connect oneToken false _ "s1" (Some "t"%string) None (fun _ => inr (Some "GA"%string)) _ _ _ _ _));
    [reflexivity|reflexivity| |reflexivity].
  intros job Hj. by apply not_elem_of_nil in Hj.
Defined.

(** ** The in-memory database *)

Definition plainText : MemoryStore.JsText := {|
  MemoryStore.numberOfText _ := NaN; MemoryStore.dateOfText _ := NaN;
  MemoryStore.decimalOfText _ := None; MemoryStore.textOfValue _ := "[object Object]"%string |}.

#[local] Existing Instance plainText.

Definition idSpec : MemoryStore.CollectionSpec := MemoryStore.mkCollection "id" [].

Definition twoRows : list (string * gmap string MemoryStore.Val) := [("a"%string, ∅); ("b"%string, ∅)].

Definition stored2 : list (string * gmap string MemoryStore.Val) :=
  map (MemoryStore.entry (MemoryStore.withId idSpec) fst) twoRows.

Lemma collection_refines_table_witness : exists rows',
  MemoryStore.deleteMany idSpec (Some (MemoryStore.byId idSpec "b")) stored2 = (inr 1%nat, rows') /\
  MemoryStore.holdsTable (MemoryStore.withId idSpec) fst [("a"%string, ∅)] rows'.
Proof.
  refine (proj2 (proj2 (proj2 (proj2 (proj2 (proj2
    (MemoryStore.collection_refines_table idSpec (MemoryStore.withId idSpec) fst (MemoryStore.withId_id idSpec) twoRows stored2 0 _))))))
    (Some (MemoryStore.byId idSpec "b")) (MemoryStore.hasId "b") (MemoryStore.byId_decides idSpec eq_refl "b")).
  split; [reflexivity|]. cbn. repeat constructor; set_solver.
Defined.

(** ** The store of bets *)

(** The value of a decimal written with eight places. *)
Definition readFixed8 (s : string) : Q :=
  unitQ (if String.prefix "-" s then - Z.of_N (digitsFrom 0 s) else Z.of_N (digitsFrom 0 s)).

Lemma pretty_N_go_length n : forall x s, (x < 10 ^ N.of_nat n)%N -> (String.length (pretty_N_go x s) <= n + String.length s)%nat.
Proof.
  induction n as [|n IH]; intros x s Hx; (destruct (decide (x = 0)%N) as [->|Hne]; [rewrite pretty_N_go_0; lia|]).
  - cbn in Hx. lia.
  - rewrite pretty_N_go_step by lia. rewrite Nat2N.inj_succ, N.pow_succ_r' in Hx.
    pose proof (IH (x `div` 10)%N (String (pretty_N_char (x `mod` 10)) s) ltac:(apply N.Div0.div_lt_upper_bound; exact Hx)). cbn in *. lia.
Qed.

Lemma digitsFrom_zeros n acc : digitsFrom acc (String.concat "" (replicate n "0"%string)) = (acc * 10 ^ N.of_nat n)%N.
Proof.
  revert acc. induction n as [|n IH]; intros acc; [cbn; lia|]. rewrite Nat2N.inj_succ, N.pow_succ_r'.
  assert (E : String.concat "" (replicate (S n) "0"%string) = String "0"%char (String.concat "" (replicate n "0"%string))) by (by destruct n).
  rewrite E. change (digitsFrom acc (String "0"%char (String.concat "" (replicate n "0"%string)))) with
    (digitsFrom (acc * 10 + 0) (String.concat "" (replicate n "0"%string))). rewrite IH. ring.
Qed.

(** The digits after the point. *)
Lemma padded_value acc m : (m < 10 ^ 8)%N -> digitsFrom acc (Concrete.padLeft 8 (pretty m)) = (acc * 10 ^ 8 + m)%N.
Proof.
  intros Hm. unfold Concrete.padLeft. rewrite digitsFrom_app, digitsFrom_zeros, digitsFrom_shift, pretty_value by apply pretty_digits.
  assert (Hlen : (String.length (pretty m) <= 8)%nat).
  { unfold pretty, pretty_N. case_decide; [cbn; lia|]. apply (pretty_N_go_length 8 m ""). exact Hm. }
  rewrite <- N.mul_assoc, <- N.pow_add_r. do 2 f_equal. f_equal. lia.
Qed.

Lemma pretty_Z_N z : 0 <= z -> pretty z = pretty (Z.to_N z).
Proof. intros Hz. destruct z as [|p|p]; [done|done|lia]. Qed.

Lemma prefix_dash c s : c <> "-"%char -> String.prefix "-" (String c s) = false.
Proof. intros Hc. unfold String.prefix. destruct (ascii_dec "-"%char c); congruence. Qed.

Lemma readFixed8_fixed q : readFixed8 (Concrete.toFixedString 8 q) = unitQ (Concrete.column8 q).
Proof.
  unfold readFixed8, Concrete.toFixedString, Concrete.column8.
  change (inject_Z (10 ^ Z.of_nat 8)) with (inject_Z 100000000). change (10 ^ Z.of_nat 8) with 100000000.
  set (n := Concrete.roundAway _). set (a := Z.abs n). change (q * 100000000)%Q with (q * inject_Z 100000000)%Q. fold n. f_equal.
  set (body := String.append (pretty (a / 100000000)) _).
  assert (Ha : 0 <= a) by (unfold a; lia).
  assert (Hbody : Z.of_N (digitsFrom 0 body) = a).
  { unfold body. rewrite (pretty_Z_N (a / 100000000)), (pretty_Z_N (a mod 100000000)) by (apply Z.div_pos || apply Z.mod_pos_bound; lia).
    rewrite !digitsFrom_app, pretty_value. change (digitsFrom (Z.to_N (a / 100000000)) ".") with (Z.to_N (a / 100000000)).
    pose proof (Z.mod_pos_bound a 100000000 ltac:(lia)). pose proof (Z.div_pos a 100000000 ltac:(lia) ltac:(lia)).
    rewrite padded_value by lia. pose proof (Z.div_mod a 100000000 ltac:(lia)). lia. }
  assert (Hplus : String.prefix "-" body = false).
  { unfold body. rewrite (pretty_Z_N (a / 100000000)) by (apply Z.div_pos; lia).
    pose proof (pretty_digits (Z.to_N (a / 100000000))) as Hd.
    destruct (pretty (Z.to_N (a / 100000000))) as [|c s] eqn:E; [done|]. cbn [allChars] in Hd.
    apply (prefix_dash c (String.append s _)). intros ->. done. }
  destruct (Z.ltb_spec n 0).
  - change (String.append "-" body) with (String "-"%char body). cbn [String.prefix]. 
    change (digitsFrom 0 (String "-"%char body)) with (digitsFrom 0 body).
    destruct (ascii_dec "-"%char "-"%char) as [_|]; [|done]. assert (E : String.prefix "" body = true) by (by destruct body). rewrite E. lia.
  - change (String.append "" body) with body. rewrite Hplus. lia.
Qed.

Definition fixedMoney : BetStore.MoneyText.
Proof.
  refine {| BetStore.readMoney := readFixed8 |}. intros d. exists (Concrete.column8 d). split; [by rewrite <- readFixed8_fixed|].
  pose proof (near_err _ Concrete.roundAway_rule (d * 100000000)%Q) as He. exact He.
Defined.

#[local] Existing Instance fixedMoney.

Lemma seed_read : BetStore.seedReads.
Proof. repeat split; vm_compute; reflexivity. Qed.

Definition oneBet : list BetStore.StoreCall :=
  [BetStore.PlaceUpDown 5 "btc-updown-live" "GA" (NumberArg (5 # 2)) BetStore.UP BetStore.STUB].

Lemma pools_add_up_witness :
  BetStore.turnover (BetStore.bs_bets (BetStore.runStore 0 oneBet)) = 250000000 /\
  Forall2 (BetStore.accounts (BetStore.bs_bets (BetStore.runStore 0 oneBet))) (BetStore.SEED_ROUNDS 0)
    (BetStore.bs_rounds (BetStore.runStore 0 oneBet)).
Proof.
  assert (Ht : BetStore.turnover (BetStore.bs_bets (BetStore.runStore 0 oneBet)) = 250000000) by (vm_compute; reflexivity).
  split; [exact Ht|]. refine (proj2 (proj2 (BetStore.pools_add_up 0 seed_read oneBet)) _).
  rewrite Ht. unfold BetStore.MONEY_BOUND. lia.
Defined.

(** ** Starting *)

Definition plainUrls : UrlText := {|
  Url := string; newUrl text := if includes text "://" then Some text else None; urlProtocol _ := "postgresql:"%string;
  setParam _ _ u := u; deleteParam _ u := u; urlText u := u; numText _ := "n"%string |}.

#[local] Existing Instance plainUrls.

Definition envOf (vars : list (string * string)) : ProcessEnv := fun name => snd <$> find (fun v => String.eqb (fst v) name) vars.

Definition productionEnv : ProcessEnv := envOf
  [("SAFETY_PROFILE", "production"); ("JWT_SECRET", "0123456789abcdef"); ("DATABASE_URL", "postgresql://db"); ("SOROBAN_FAIL_CLOSED", "true");
   ("SOROBAN_ADMIN_SECRET", "a"); ("SOROBAN_ORACLE_SECRET", "o"); ("PORT", "8080abc")]%string.

Definition bootedConfig (e : BootEnd) : option Config := match e with Booted c => Some c | _ => None end.

Lemma boot_safe_witness : exists c, boot "v22.3.0" productionEnv true = Booted c /\
  sc_failClosed (cf_soroban c) = true /\ betStubMode productionEnv = false.
Proof.
  destruct (boot "v22.3.0" productionEnv true) as [| | | |c] eqn:E; try (vm_compute in E; discriminate).
  exists c. split; [reflexivity|]. destruct (boot_safe productionEnv "v22.3.0" true c E) as (_ & Hp & _).
  destruct (Hp eq_refl) as (_ & Hf & Hs & _). split; [exact Hf|exact Hs].
Defined.

(** A blank behind the profile, and the server runs as [production] in the
    configuration, with stub bets and without failing closed. *)
Definition blankEnv : ProcessEnv := envOf
  [("SAFETY_PROFILE", "production "); ("BET_STUB_MODE", "true"); ("JWT_SECRET", "0123456789abcdef"); ("DATABASE_URL", "postgresql://db")]%string.

Lemma blank_escapes_preflight :
  (fun c => (ac_safetyProfile (cf_app c), sc_failClosed (cf_soroban c))) <$> bootedConfig (boot "v22.3.0" blankEnv true)
  = Some ("production"%string, false) /\ betStubMode blankEnv = true.
Proof. by vm_compute. Qed.

(** The port of the configuration is not the one the server listens on. *)
Lemma port_not_configured :
  (fun c => ac_port (cf_app c)) <$> bootedConfig (boot "v22.3.0" productionEnv true) = Some (int 8080) /\
  listenPort productionEnv = "8080abc"%string.
Proof. by vm_compute. Qed.

(** ** The cache *)

(** A server of texts with the time each expires. *)
Definition textAt (now : Z) (k : string) (db : gmap string (string * option Z)) : option string :=
  match db !! k with
  | Some (v, Some until) => if now <? until then Some v else None
  | Some (v, None) => Some v
  | None => None
  end.

Definition incremented (now : Z) (k : string) (db : gmap string (string * option Z)) : gmap string (string * option Z) :=
  <[k := (pretty (Z.to_N (default 0%Z (textAt now k db ≫= parseIntZ)) + 1)%N, None)]> db.

Definition plainRedis : RedisStrings.
Proof.
  refine {| rd_db := gmap string (string * option Z); rd_empty := ∅; rd_get := textAt;
            rd_setEX now k v ex db := <[k := (v, Some (now + ex * 1000))]> db; rd_incr := incremented;
            rd_counts k db n := db !! k = if (n =? 0)%N then None else Some (pretty n, None);
            rd_zAdd _ _ _ db := db; rd_zRem _ _ db := db; rd_del k db := base.delete k db;
            rd_zCard _ _ := 0; rd_zRange _ _ _ _ := []; rd_zRevRank _ _ _ := None |}.
  - done.
  - intros. unfold textAt. by rewrite lookup_insert_eq.
  - intros. unfold textAt. by rewrite lookup_insert_ne.
  - intros. unfold textAt, incremented. by rewrite lookup_insert_ne.
  - done.
  - intros now k db n Hn. unfold textAt. rewrite Hn. by destruct (n =? 0)%N.
  - intros now k db n Hn. unfold incremented, textAt. rewrite lookup_insert_eq, Hn.
    replace (n + 1 =? 0)%N with false by (symmetry; apply N.eqb_neq; lia).
    destruct (decide (n = 0%N)) as [->|Hne]; [done|]. replace (n =? 0)%N with false by (symmetry; by apply N.eqb_neq).
    cbn [mbind option_bind]. rewrite parseIntZ_pretty. cbn. by rewrite ?N2Z.id.
  - intros. unfold incremented. by rewrite lookup_insert_ne.
  - intros. by rewrite lookup_insert_ne.
Defined.

#[local] Existing Instance plainRedis.

Definition cacheEnv : ProcessEnv := envOf [("REDIS_URL", "redis://cache")]%string.

Definition readTrue (text : string) : option Json := if String.eqb text "true" then Some (JBool true) else None.

Definition steady : Opening := mkOpening true true Replied.

(** A namespace is invalidated, a value stored by one process and read by another. *)
Definition cacheTrace : list CacheEvent :=
  [Invalidate 0 "leaderboard" true Replied; BeginSet 1 0 "leaderboard" "limit=1" (JBool true) (Fin 60) steady; EndSet 1 Replied;
   BeginGet 2 1 "leaderboard" "limit=1" steady; EndGet 2 Replied].

Definition cacheRead : CacheAnswer := mkAnswer 3 4 "leaderboard" "limit=1" "xelma:cache:leaderboard:v1:limit=1" (JBool true).

Lemma cache_fresh_witness : exists q value, (q < 4)%nat /\ storesAt cacheTrace q "leaderboard" "limit=1" value /\
  readTrue (jsonStringify value) = Some (JBool true) /\
  versionAt cacheEnv readTrue 1000 cacheTrace 3 "leaderboard" <= versionAt cacheEnv readTrue 1000 cacheTrace q "leaderboard".
Proof.
  apply (cache_fresh cacheEnv readTrue 1000 cacheTrace cacheRead).
  - repeat constructor.
  - assert (E : cs_answers (runCache cacheEnv readTrue 1000 cacheTrace) = [cacheRead]) by by vm_compute. rewrite E. left.
  - by vm_compute.
Defined.

(** While a process cools down it invalidates nothing, and what was stored
    before is served to everybody afterwards. *)
Definition lostInvalidation : list CacheEvent :=
  [BeginSet 1 0 "leaderboard" "limit=1" (JBool true) (Fin 60) steady; EndSet 1 Replied;
   Invalidate 1 "leaderboard" false Replied; Invalidate 1 "leaderboard" true Replied; PassTime 20000;
   BeginGet 2 1 "leaderboard" "limit=1" steady; EndGet 2 Replied].

Lemma invalidation_lost : an_value <$> cs_answers (runCache cacheEnv readTrue 1000 lostInvalidation) = [JBool true].
Proof. by vm_compute. Qed.

(** A version that could not be read counts as 0, whose entries may be old. *)
Definition unreadVersion : list CacheEvent :=
  [BeginSet 1 0 "leaderboard" "limit=1" (JBool true) (Fin 60) steady; EndSet 1 Replied;
   Invalidate 0 "leaderboard" true Replied; BeginGet 2 0 "leaderboard" "limit=1" (mkOpening true true (Lost false)); EndGet 2 Replied].

Lemma unread_version_stale : an_value <$> cs_answers (runCache cacheEnv readTrue 1000 unreadVersion) = [JBool true].
Proof. by vm_compute. Qed.

(** ** Suspicious actors *)

(** Three refusals, stored twice: at a threshold of five the actor is flagged. *)
Definition threeRefusals : list HitCall :=
  let c at_ := mkHitCall at_ "auth/connect" "::1" (Some "::1"%string) None true in [c 1000; c 2000; c 3000].

Lemma suspicious_counts_witness : exists a,
  a ∈ sv_flaggedActors (getSuspiciousActivity 5 24 true 10 ((recordAll threeRefusals) {{ mw_now := 4000 }})) /\
  sa_endpoint a = "auth/connect"%string /\ sa_key a = "::1"%string /\ sa_hits a = 6.
Proof.
  apply (suspicious_counts 5 24 eq_refl threeRefusals 4000 true 10 "auth/connect" "::1" 6); [vm_compute; lia|].
  split; [reflexivity|]. split; [lia|]. by vm_compute.
Defined.

(** ** Chat *)

(** Folding the case of ASCII letters. *)
Definition asciiFold (c : N) : N := if ((97 <=? c) && (c <=? 122))%N then (c - 32)%N else c.

(** A statement without punctuation counts as encoded text and is accepted; a
    semicolon is not. *)
Lemma plain_sql_accepted : sanitizeChatContent asciiFold (lit "drop table users") = inr (lit "drop table users").
Proof. by vm_compute. Qed.

Lemma semicolon_refused : exists e, sanitizeChatContent asciiFold (lit "well done; see you") = inl e.
Proof. eexists. vm_compute. reflexivity. Qed.

(** ** Bet requests *)

Definition oneUser (token : string) : option JwtPayload :=
  if String.eqb token "t" then Some (mkPayload "u1" "GA" ROLE_USER) else None.

Definition anyStatus (s : BetStatus) : string := "ACCEPTED".

Definition wholeNumber (q : Q) : num := Fin q.

Definition betRequest : HttpRequest :=
  mkHttpRequest (Some "Bearer t"%string) (Some "key-00001"%string)
    (Some [("amount"%string, JNum (Fin 2)); ("side"%string, JStr "UP")]) None.

(** The key is free, the bet and the claim succeed, the response is not stored. *)
Definition storeFails : RouteServices := {|
  lockAnswer _ := LockHeld;
  acquireAnswer _ := inr lockTaken;
  recordAnswer _ := inr (mkBetResult "stub" None "b1" BET_ACCEPTED);
  storeAnswer _ := inl StoreUnavailable;
  claimAnswer _ := inr (mkClaimResult "on-chain" 5 (Some "h"%string));
  repositoryAnswer _ := inr tt;
  submitAnswer _ := inl (Thrown (PlainError "")) |}.

Lemma bet_route_safe_witness :
  let w := snd (@postUpDown storeFails anyStatus oneUser (fun _ => true) None (fun _ => ""%string) betRequest newRouteWorld) in
  existsb isRecorded (rw_calls w) = true /\ length (List.filter isRecord (rw_calls w)) = 1%nat.
Proof.
  destruct (@bet_route_safe storeFails anyStatus oneUser (fun _ => true) None (fun _ => ""%string) _ betRequest (PostUpDown _ _ _ _ _))
    as (answer & w & E & Hone & _). rewrite E. cbn [snd].
  assert (Ew : w = snd (@postUpDown storeFails anyStatus oneUser (fun _ => true) None (fun _ => ""%string) betRequest newRouteWorld)) by by rewrite E.
  split; [rewrite Ew; by vm_compute|]. apply Nat.le_antisymm; [exact Hone|]. rewrite Ew. by vm_compute.
Defined.

(** After a claim was paid whose response could not be stored, the lock of its
    key is given back: the same request claims again. *)
Lemma paid_claim_released :
  rw_calls (snd (@postClaim storeFails wholeNumber oneUser (fun _ => true) (fun _ => ""%string) betRequest newRouteWorld)) =
  [AcquireCall "u1" "/api/bets/claim" "key-00001" [("address"%string, JStr "GA")];
   ClaimCall "GA" (Some "key-00001"%string) None true;
   StoreCall "u1" "/api/bets/claim" "key-00001" [("address"%string, JStr "GA")] 200
     (JObj [("success", JBool true); ("message", JStr "Winnings claimed on-chain"); ("state", JStr "on-chain"); ("amount", JNum (Fin 5)); ("txHash", JStr "h")]%string);
   ReleaseCall "u1" "/api/bets/claim" "key-00001"].
Proof. by vm_compute. Qed.

(** What was stored for a bet in one round answers the same request for another. *)
Definition replays : RouteServices := {|
  lockAnswer _ := LockHeld;
  acquireAnswer _ := inr (mkIdemResult true (Some (200, JStr "the bet in round A")) None false);
  recordAnswer _ := inl (Thrown (PlainError ""));
  storeAnswer _ := inr tt;
  claimAnswer _ := inl (Thrown (PlainError ""));
  repositoryAnswer _ := inr tt;
  submitAnswer _ := inl (Thrown (PlainError "")) |}.

Lemma other_round_replayed :
  let post id := @postRoundBet replays anyStatus oneUser (fun _ => true) None (fun _ => ""%string) id betRequest newRouteWorld in
  post "A"%string = post "B"%string /\ fst (post "B"%string) = inr (Sent 200 (JStr "the bet in round A")).
Proof. by vm_compute. Qed.

(** A repeated request to a hackathon round is recorded in the repository again. *)
Lemma replay_placed_again :
  existsb (fun c => match c with RepositoryCall _ _ true => true | _ => false end)
    (rw_calls (snd (@postHackathonUpDown replays anyStatus oneUser (fun _ => true) None (fun _ => ""%string) "A"%string betRequest newRouteWorld))) = true.
Proof. by vm_compute. Qed.
