(* ===== verification/LogWitnesses.v ===== *)
(** * The theorems about tips, records and pages at work

    Concrete rounds, requests, events and bets for [Education], [AuthAudit],
    [BetAudit], [UserHistory], [Views] and [PredictionRoutes], and the cases the
    code does not handle. *)

From Stdlib Require Import ZArith QArith Ascii Lia.
From stdpp Require Import base gmap strings list pretty.
From S2P Require Import Prelude.
From S2P Require Import Numeric.
From S2P Require Import Schema.
From S2P Require Import Samples.
From S2P Require Import JsonText.
From S2P Require Import Challenge.
From S2P Require Import TextSamples.
From S2P Require Import Education.
From S2P Require Import AuthAudit.
From S2P Require Import BetAudit.
From S2P Require Import Digits.
From S2P Require Import Store.
From S2P Require Import Soroban.
From S2P Require Import Simulation.
From S2P Require Import Serializers.
From S2P Require Import UserHistory.
From S2P Require Import Views.
From S2P Require Import Errors.
From S2P Require Import Tournament.
From S2P Require Import BetRoutes.
From S2P Require Import TournamentRoutes.

#[local] Open Scope string_scope.
#[local] Open Scope Z_scope.

(** ** Tips *)

(** A round that went from 0.12 to 0.13. *)
Definition risenRound : Round := mkRound "r1" UP_DOWN RESOLVED 12000000 (Some 13000000) 0 60000 None true 0 0 JNull (Some 60000).

Definition tipRequests : list TipEvent := [Draw 0 (1 # 2) "r1" (inr (Some risenRound)); Look 5000 "r1"; Draw 9000 (1 # 2) "r2" (inr (Some risenRound))]%list.

Lemma tips_vary_witness :
  map (fun g => (drawnId g, et_message (g_tip g))) (tr_drawn (runTips tipRequests)) =
    [("oracle-001", "This round used oracle price data to determine the outcome. Oracles bridge real-world data to blockchain applications. They're essential for DeFi platforms to access accurate, tamper-resistant market prices.");
     ("volatility-005", "Extreme price movement of 8.33%! When markets move rapidly, emotions can override logic. Successful traders stick to their plans and avoid FOMO (fear of missing out).")] /\
  (length (tipCache (tr_state (runTips tipRequests))) <= 1000)%nat.
Proof. split; [vm_compute; reflexivity|]. apply (tips_vary tipRequests). Defined.

(** ** The audit log *)

#[local] Existing Instance sampleDates.

Definition nonce64 : string := String.concat "" (replicate 64 "a").
Definition emptyDeployment : AuthEnv := mkAuthEnv None None None None None.
Definition aliceText : string := generateChallenge emptyDeployment 1000 nonce64 (Some "GALICE").
Definition browser : RequestInfo := mkRequestInfo (Some "req-1") (Some "10.0.0.1") (Some "Mozilla/5.0").

Definition loginSteps : list AuditStep :=
  [Logged (logChallengeIssued "GALICE" aliceText 301000 browser 1000); Answered 0 true;
   Logged (logAuthSuccess "GALICE" "u1" true browser 2000); Answered 0 true]%list.

(** The login has its row, the challenge has none. *)
Lemma audit_trail_witness :
  String.length nonce64 = 64%nat /\
  map aw_eventType (as_rows (runAudit None loginSteps)) = ["auth.success"] /\
  map aw_eventType (as_lost (runAudit None loginSteps)) = ["auth.challenge.issued"] /\
  auditRowOf (logChallengeIssued "GALICE" aliceText 301000 browser 1000) ∉ as_rows (runAudit None loginSteps).
Proof.
  split_and!; [by vm_compute..|]. eapply (audit_trail None loginSteps) with (nonce := nonce64); [by vm_compute|].
  exists "GALICE", browser, 1000. left. exists 301000. reflexivity.
Defined.

(** A client with a long user agent leaves no row, whatever it does. *)
Definition longAgent : RequestInfo := mkRequestInfo None None (Some (String.concat "" (replicate 501 "a"))).

Lemma long_agent_unaudited steps wallet userId isNew now :
  auditRowOf (logAuthSuccess wallet userId isNew longAgent now) ∉ as_rows (runAudit None steps).
Proof.
  destruct (trailInv_run None steps) as [_ _ _ Hfit]. rewrite Forall_forall in Hfit. intros Hin. apply Hfit in Hin.
  assert (Hlong : withinOpt 500 (aa_userAgent (ae_actor (logAuthSuccess wallet userId isNew longAgent now))) = false) by (vm_compute; reflexivity).
  unfold fitsColumns in Hin. cbn [auditRowOf aw_userAgent] in Hin. rewrite Hlong in Hin. by rewrite !andb_false_r in Hin.
Qed.

(** ** The audit of bets *)

Definition aliceBetParams : BetAuditParams :=
  mkBetAuditParams (Some "b1") "GALICE" (Fin 10) (Some UP) MODE_UP_DOWN "on-chain-success" None (Some "0123456789abcdef") None None None.

Definition betSteps : list BetAuditStep :=
  [EmitBet BET_ACCEPTED_EVENT aliceBetParams (Some "req-1") 1000; LookedUp 0 (LookupRound "r1"); RowAnswered 0 true]%list.

#[local] Existing Instance sampleText.

Lemma bet_audit_exact_witness :
  map (fun e => (bv_roundId e, bv_txHash e, bv_correlationId e)) (queryEvents None 50 true (runBetAudit (Some "database") betSteps)) =
    [(Some "r1", Some "01234567...", Some "req-1:0123456789abcdef")] /\
  handled (runBetAudit (Some "database") betSteps) ≡ₚ [0%nat].
Proof. split; [by vm_compute|]. apply (bet_audit_exact (Some "database") betSteps). reflexivity. Defined.

(** The first events stay in front of the later ones, and a negative limit
    drops events from the end. *)
Definition twoBets : list BetAuditStep :=
  [EmitBet BET_ACCEPTED_EVENT aliceBetParams None 1000; EmitBet BET_FAILED_EVENT aliceBetParams None 2000]%list.

Lemma oldest_kept :
  map bv_createdAt (snd (adminBetAudit None (Some "1") (runBetAudit None twoBets))) = [1000] /\
  map bv_createdAt (snd (adminBetAudit None (Some "-1") (runBetAudit None twoBets))) = [1000].
Proof. by vm_compute. Qed.

(** ** The history of a user *)

(** A date is written as its sign and its milliseconds. *)
Definition sampleDateCursor : DateCursor.
Proof.
  refine {| dateCursor ms := String (if ms <? 0 then "-"%char else "+"%char) (pretty (Z.abs_N ms));
            readDateCursor s := parseIntZ s |}; [|done].
  intros ms. pose proof (pretty_truthy (Z.abs_N ms)) as Ht. pose proof (pretty_value (Z.abs_N ms)) as Hv.
  assert (Hd : spanDigits (pretty (Z.abs_N ms)) = (pretty (Z.abs_N ms), "")) by apply spanDigits_all, pretty_digits.
  set (digits := pretty (Z.abs_N ms)) in *. clearbody digits.
  assert (Hne : String.eqb digits "" = false) by (destruct digits; done).
  assert (Hread : forall c sign, (c = "-"%char /\ sign = -1) \/ (c = "+"%char /\ sign = 1) ->
            parseIntZ (String c digits) = Some (sign * Z.abs ms)).
  { intros c sign Hc. transitivity (if String.eqb (fst (spanDigits digits)) "" then None else Some (sign * Z.of_N (digitsFrom 0 (fst (spanDigits digits))))).
    - destruct Hc as [[-> ->]|[-> ->]]; reflexivity.
    - rewrite Hd. cbn [fst]. by rewrite Hne, Hv, N2Z.inj_abs_N. }
  destruct (Z.ltb_spec ms 0); [rewrite (Hread "-"%char (-1)) by auto|rewrite (Hread "+"%char 1) by auto]; f_equal; lia.
Defined.

#[local] Existing Instance sampleDateCursor.

Definition betAt (id : string) (time : Z) : Prediction :=
  mkPrediction id "alice" "r1" (Some UP) 100000000 JNull None None PC_CONFIRMED None 0 None None None None None time.

Definition threeBets : DB :=
  emptyDB {{ predictions := <["p1" := betAt "p1" 100]> (<["p2" := betAt "p2" 200]> (<["p3" := betAt "p3" 300]> ∅)) }}.

Lemma history_pages_witness :
  map p_id (historyBefore 1000 "alice" threeBets) = ["p3"; "p2"; "p1"] /\
  option_map (map p_id) (readHistory 4 2 "alice" (dateCursor 1000) threeBets) = Some ["p3"; "p2"; "p1"].
Proof.
  assert (Hrows : map p_id (historyBefore 1000 "alice" threeBets) = ["p3"; "p2"; "p1"]) by (vm_compute; reflexivity).
  split; [exact Hrows|]. destruct (history_pages 4 2 "alice" 1000 threeBets) as (_ & _ & l & -> & _ & _ & Hall).
  - lia.
  - apply Nat.leb_le. vm_compute. reflexivity.
  - rewrite Hall; [exact (f_equal Some Hrows)|]. apply (bool_decide_unpack _). vm_compute. exact I.
Defined.

(** Of two bets of the same millisecond at the end of a page the second is
    never read. *)
Definition tiedBets : DB := emptyDB {{ predictions := <["p1" := betAt "p1" 100]> (<["p2" := betAt "p2" 100]> ∅) }}.

Lemma ties_lost :
  length (historyBefore 1000 "alice" tiedBets) = 2%nat /\
  option_map length (readHistory 9 1 "alice" (dateCursor 1000) tiedBets) = Some 1%nat.
Proof. by vm_compute. Qed.

(** Without a limit on the limit: a negative one reads from the end. *)
Lemma negative_limit : prismaPage 0 (-2) [1; 2; 3]%Z = Some [2; 3]%Z.
Proof. done. Qed.

(** Two requests that overlap take names that differ in case only. *)
Lemma nicknames_race :
  let st0 := mkProfileState [mkProfile "u1" None; mkProfile "u2" None] [] in
  let st1 := (checkNickname "u1" "Bob" st0).2 in
  let st2 := (checkNickname "u2" "bob" st1).2 in
  let st3 := (updateNickname 0 st2).2 in
  ps_rows (updateNickname 0 st3).2 = [mkProfile "u1" (Some "Bob"); mkProfile "u2" (Some "bob")].
Proof. by vm_compute. Qed.

(** ** What the API shows *)

#[local] Existing Instance Concrete.decimal20.
#[local] Existing Instance goodEnv.

(** The value of a numeral with eight decimals: its digits, in units of 1e-8. *)
Fixpoint digitsOf (s : string) : string :=
  match s with "" => "" | String c s => if isDigit c then String c (digitsOf s) else digitsOf s end.

Definition numeral8 (s : string) : num :=
  if String.eqb s "NaN" then NaN
  else if String.eqb s "Infinity" then Inf false
  else if String.eqb s "-Infinity" then Inf true
  else let u := unitQ (Z.of_N (digitsFrom 0 (digitsOf s))) in Fin (if String.prefix "-" s then - u else u)%Q.

Definition sampleMoneyText : MoneyText.
Proof. refine {| readDecimal s := Some (numeral8 s); valueText _ := "[object Object]" |}; [intros d|]; by eexists. Defined.

#[local] Existing Instance sampleMoneyText.

Definition shownDB : DB := predictionDB ACTIVE PC_CONFIRMED.

Lemma shown_plain : plainDB shownDB.
Proof.
  split.
  - intros k r Hk. cbn in Hk. apply lookup_singleton_Some in Hk as [_ <-]. split; [by eexists|]. by intros w [= <-].
  - intros k p Hk. cbn in Hk. apply lookup_singleton_Some in Hk as [_ <-]. split_and!; [done|by eexists|by eexists].
Qed.

Lemma answers_have_no_numeric_money_witness :
  exists v, value (listUserPredictions "alice") (worldOf shownDB) = inr v /\ assertNoNumericMoney "$" v = None.
Proof.
  destruct (answers_have_no_numeric_money (listUserPredictions "alice") (worldOf shownDB) "$" shown_plain (ReadUser _ "alice"))
    as (v & Hv & _ & Hc).
  exists v. split; [exact Hv|exact Hc].
Defined.

(** The rounds of the API come from the database when the chain has none, and
    its money is the text of eight decimals. *)
Lemma rounds_from_database :
  match value (listRounds false (inr [])) (worldOf shownDB) with
  | inr (VObject [_; (_, VObject [(_, VText source); (_, VArray [VObject round])])]) =>
      source = "database" /\ fieldOf "poolUp" round = Some (VText "100.00000000")
  | _ => False
  end.
Proof. vm_compute. by split. Qed.

(** ** A tournament of one's own *)

#[local] Existing Instance Concrete.numeric8.

Definition anyUser : JwtPayload := mkPayload "alice" "GA" ROLE_USER.
Definition aliceToken (t : string) : option JwtPayload := Some anyUser.
Definition aliceRow (u : string) : Err + option JwtPayload := inr (Some anyUser).

Definition askTournament (call : TournamentCall) (w : World) : TournamentAnswer * World :=
  serveTournaments aliceToken aliceRow None (Some "Bearer t") call w.

Definition ownCup : CreateTournamentInput :=
  mkCreateTournament "Mine" "" UP_DOWN (NumberArg 0) (NumberArg 1000000) 1 0 1 1.

(** A user without any role creates a tournament, joins it, locks it and settles
    it: the prize, which nobody has paid, is on the balance of that user. *)
Lemma anyone_mints :
  let w0 := worldOf openDB in
  match askTournament (CreateTournament ownCup) w0 with
  | (TACreated t, w1) =>
      let w2 := snd (askTournament (JoinTournament (t_id t)) w1) in
      let w3 := snd (askTournament (LockTournament (t_id t)) w2) in
      match askTournament (SettleTournament (t_id t)) w3 with
      | (TASettled _, w4) =>
          sumMap u_virtualBalance (users (w_db w4)) - sumMap u_virtualBalance (users (w_db w0)) = (1000000 * 100000000)%Z
      | _ => False
      end
  | _ => False
  end.
Proof. vm_compute. reflexivity. Qed.
