(* ===== verification/HttpWitnesses.v ===== *)
(** * The applications at work

    The theorems of [ErrorResponses], [AppFactory], [Operations] and [Bindings]
    at concrete inputs, and inputs worth knowing. *)

From Stdlib Require Import ZArith Lia.
From stdpp Require Import base option list gmap strings pretty.
From S2P Require Import Prelude.
From S2P Require Import Errors.
From S2P Require Import CircuitBreaker.
From S2P Require Import ErrorResponses.
From S2P Require Import AppFactory.
From S2P Require Import Health.
From S2P Require Import RegExp.
From S2P Require Import Schema.
From S2P Require Import Operations.
From S2P Require Import Bindings.

#[local] Open Scope string_scope.
#[local] Open Scope Z_scope.

Definition ignoreCase (p s : string) : bool := String.eqb (toLowerCase p) (toLowerCase s).
Definition helmet : gmap string string := {["X-Frame-Options" := "DENY"]}.
Definition cors : gmap string string := {["Vary" := "Origin"]}.

Lemma cors_quiet k : In k ["X-XSS-Protection"; "Permissions-Policy"; "X-Request-ID"] -> cors !! k = None.
Proof. intros [<-|[<-|[<-|[]]]]; reflexivity. Qed.

(** The routers of the samples answer 200, unless they have no such page. *)
Definition sampleRouter (r : RouterName) (path : list string) : Reply :=
  match r, path with
  | betsRoutes, [] => RAnswer (SentByLayer 200)
  | betsRoutes, ["late"] => RThrow (TBreakerOpen "soroban-rpc" 4500)
  | _, _ => RNext
  end.

Definition passing (h : Handler) : Reply := RNext.
Definition refusing (h : Handler) : Reply := match h with HApiRateLimiter => RAnswer (SentByLayer 429) | _ => RNext end.

Definition malformed : Thrown := TError true (mkLoose (Some "SyntaxError") (Some "Unexpected token") (Some 400) (Some 400)
  (Some "entity.parse.failed") None None).

Definition ask_ (parseJson : option Thrown) (limiter : Handler -> Reply) (mode : AppMode) (path : list string) : Exchange * option Sent :=
  handleRequest "GET" "/url" 1000 (Some "trace-1") "uuid" ignoreCase helmet cors parseJson None false limiter sampleRouter
    (fun _ => "stack") mode (resolveFeatures None true mode (fun _ => None)) false true path.

(** The demo refuses a request over the limit before any router sees it. *)
Lemma app_answers_witness :
  let out := ask_ None refusing hackathon ["api"; "bets"] in
  snd out = Some (SentByLayer 429) /\ ex_asked (fst out) = [] /\ ex_requestId (fst out) = Some "trace-1" /\
  ex_logged (fst out) = true.
Proof.
  pose proof (app_answers "GET" "/url" 1000 (Some "trace-1") "uuid" ignoreCase helmet cors None None false refusing
    sampleRouter (fun _ => "stack") (fun _ _ => eq_refl) cors_quiet eq_refl hackathon
    (resolveFeatures None true hackathon (fun _ => None)) false ["api"; "bets"]) as (_ & _ & _ & Hlim & Hid).
  cbn [firstRefusal isFull] in Hid. destruct (Hid eq_refl) as (Hr & _ & _ & Hl).
  split; [reflexivity|]. split; [|split; [exact Hr|exact Hl]].
  apply (Hlim eq_refl "api" ["bets"] eq_refl eq_refl). left. discriminate.
Defined.

(** The same page under its versioned and its plain path. *)
Lemma versioned_mirror_witness :
  snd (ask_ None passing full ["api"; "v1"; "bets"]) = snd (ask_ None passing full ["api"; "bets"]) /\
  ex_headers (fst (ask_ None passing full ["api"; "bets"])) !! "Link" =
    Some ("</api/v1/bets>; rel=" +:+ quote +:+ "successor-version" +:+ quote).
Proof.
  destruct (versioned_mirror "GET" "/url" 1000 (Some "trace-1") "uuid" ignoreCase helmet cors None None false passing
    sampleRouter (fun _ => "stack") (fun _ _ => eq_refl) (resolveFeatures None true full (fun _ => None)) false true
    "api" "v1" ["bets"]) as (Hs & _ & _ & Hl); [reflexivity..|vm_compute; discriminate|].
  split; [exact Hs|]. apply Hl; [reflexivity|vm_compute; discriminate|reflexivity].
Defined.

(** A body that does not parse is answered without the id its request brought. *)
Lemma malformed_without_id :
  match ask_ (Some malformed) passing full ["api"; "bets"] with
  | (ex, Some (SentError a)) =>
      an_status a = 400 /\ er_message (an_body a) = "Malformed JSON body" /\ er_requestId (an_body a) = None /\
      ex_headers ex !! "X-Request-ID" = None /\ ex_headers ex !! "Vary" = None /\ ex_logged ex = false
  | _ => False
  end.
Proof. vm_compute. by split_and!. Qed.

(** An open breaker: the application says when to come back, the demo fails. *)
Lemma breaker_in_both_modes :
  match snd (ask_ None passing full ["api"; "bets"; "late"]), snd (ask_ None passing hackathon ["api"; "bets"; "late"]) with
  | Some (SentError a), Some (SentDemoError d) => an_status a = 503 /\ an_retryAfter a = Some "4" /\ an_status d = 500
  | _, _ => False
  end.
Proof. vm_compute. by split_and!. Qed.

Definition sampleBreaker : Breaker := mkBreaker open_ 3 (Some 0) (Some 30000) 0.
Definition sampleOptions : CircuitBreakerOptions :=
  {| bo_name := "soroban-rpc"; failureThreshold := 3; openBackoffMs := 30000; halfOpenMaxCalls := 1 |}.

Lemma sampleBreaker_inv : breaker_inv sampleOptions sampleBreaker.
Proof. split; cbn; [lia|discriminate|intros _; by exists 0]. Qed.

Lemma retry_after_suffices_witness :
  exists b2, beforeCall sampleOptions 30400 sampleBreaker = (inr tt, b2) /\ b_state b2 = half_open.
Proof.
  destruct (retry_after_suffices (fun _ => "stack") sampleOptions sampleBreaker false 400 30400 "/url" None _ _ 30
    sampleBreaker_inv eq_refl eq_refl eq_refl eq_refl ltac:(lia)) as (_ & _ & H).
  exact H.
Defined.

Lemma errors_answered_witness :
  let a := errorHandler (fun _ => "stack") false 400 "/url" None (TPrismaKnown "P2002" "secret" None (Some ["email"; "name"])) in
  an_status a = 409 /\ er_message (an_body a) = "Unique constraint failed on: email, name" /\ er_stack (an_body a) = None.
Proof.
  destruct (errors_answered (fun _ => "stack") false 400 "/url" None (TPrismaKnown "P2002" "secret" None (Some ["email"; "name"])) I)
    as (_ & _ & _ & _ & _ & Hs & _).
  split; [reflexivity|]. split; [reflexivity|exact (Hs eq_refl)].
Defined.

(** What the services throw and what the catalog says of its code. *)
Lemma duplicate_prediction_off_catalog :
  option_map ec_status (entryOf DUPLICATE_PREDICTION) = Some 409 /\ err_status (BusinessRuleError "" DUPLICATE_PREDICTION) = 422 /\
  option_map ec_status (entryOf NOT_FOUND) = Some 404 /\ err_status (BusinessRuleError "" NOT_FOUND) = 422.
Proof. by split_and!. Qed.

(** ** Platform statistics and origins *)

Definition statsEvents : list Stats.StatsEvent :=
  [Stats.Request; Stats.Finish None; Stats.Wait 29999; Stats.Request; Stats.Wait 1; Stats.Request].

(** A failed count is answered, and kept for thirty seconds, as a fallback. *)
Lemma stats_sourced_witness :
  let w := fold_left (Stats.statsStep false) statsEvents (Stats.newStats 0) in
  Stats.sw_answers w = [(29999, Stats.mockStats 0); (0, Stats.mockStats 0)] /\ Stats.sw_waiting w = 1%nat /\
  0 ∈ Stats.sw_failures w.
Proof.
  split; [reflexivity|]. split; [reflexivity|].
  destruct (Stats.stats_sourced false 0 statsEvents 29999 (Stats.mockStats 0)) as (_ & _ & [[=]|H]);
    [apply list_elem_of_here|exact H].
Defined.

Lemma cors_of_production :
  let env := Cors.mkCorsEnv (Some "production") (Some "https://a.example") (Some " https://b.example, ,") in
  Cors.getCorsOrigins env = inr (Cors.Many ["https://a.example"; "https://b.example"]) /\
  Cors.dg_test (Cors.diagnose env (Some "https://b.example")) = Some ("https://b.example", Some true).
Proof. vm_compute. by split. Qed.

(** ** A vendored package *)

Definition samplePin : option (option ParsedPin) := Some (Some
  (mkParsedPin (Some "repo") (Some "main") (Some "bb50a67d5366e71959c72f1a55285520e9af3153") (Some "pkg") (Some ["package.json"])
     (Some ["Client"]) (Some ["Round"]) (Some [("RoundMode", ["UpDown"])]) (Some [("Round", ["round_id"])])
     (Some [("balance", ["user"])]))).

Definition newline : Text := [10%N].
Definition quoted (s : Text) : Text := ([34%N] ++ s ++ [34%N])%list.

Definition sampleTypes (argument : string) : Text :=
  (lit "export declare class Client {}" ++ newline ++ lit "export declare enum RoundMode { UpDown = 0 }" ++ newline ++
   lit "export interface Round { round_id: u64 }" ++ newline ++
   lit "export interface Client {" ++ newline ++ lit "  balance: ({user}: {" ++ lit argument ++
   lit ": string}, options?: { fee?: number }) => Promise<i128>" ++ newline ++ lit "}")%list.

Definition sampleBuild : Text :=
  (quoted (repeat 65%N 40) ++ lit "fromJSON = {" ++ newline ++ lit "  balance: this.txFromJSON" ++ newline ++ lit "};")%list.

Definition sampleVendor (argument : string) : Vendor :=
  mkVendor true (fun _ => true) (fun f =>
    if String.eqb f "dist/index.d.ts" then Some (sampleTypes argument)
    else if String.eqb f ".commit-sha" then Some (lit "bb50a67d5366e71959c72f1a55285520e9af3153" ++ newline)%list
    else if String.eqb f "package.json" then Some []
    else Some sampleBuild).

Definition functionEntry : Text := (xdrToken "balance" ++ xdrToken "user")%list.

Lemma bindings_verified_witness :
  let r := validateVendoredBindings (fun _ => functionEntry) (fun _ => Some (Some "pkg")) samplePin (sampleVendor "user") in
  br_errors r = [] /\ br_warnings r = [] /\ In (lit "balance") (parseRuntimeMethods sampleBuild).
Proof.
  split; [vm_compute; reflexivity|]. split; [vm_compute; reflexivity|].
  destruct (bindings_verified (fun _ => functionEntry) (fun _ => Some (Some "pkg")) samplePin (sampleVendor "user"))
    as (pin & Hpin & _ & _ & _ & _ & _ & Hm); [vm_compute; reflexivity|].
  vm_compute in Hpin. injection Hpin as <-.
  destruct (Hm ltac:(vm_compute; reflexivity) "balance" ["user"] (or_introl eq_refl)) as [Hr _].
  apply Hr. by left.
Defined.

(** An argument that changed its name is found. *)
Lemma renamed_argument :
  br_errors (validateVendoredBindings (fun _ => functionEntry) (fun _ => Some (Some "pkg")) samplePin (sampleVendor "account")) =
  [MethodArgument "balance" "user"].
Proof. vm_compute. reflexivity. Qed.

(** A contract without the function is accepted when another entry has an
    argument of that name: the check asks for a text, not for a function. *)
Lemma abi_gap :
  abiErrors (fun _ => xdrToken "transfer" ++ xdrToken "user" ++ xdrToken "balance")%list
    (mkPin "" "" "" "" [] [] [] [] [] [("balance", ["user"])]) (Some sampleBuild) = ([], []).
Proof. vm_compute. reflexivity. Qed.
